(* ===== verification/_CoqProject ===== *)
-Q . S2P
Prelude.v
StableSort.v
JsValue.v
JsText.v
JsMap.v
Layout.v
LayoutPack.v
LayoutCompact.v
LayoutMove.v
Reorder.v
ReorderSpec.v
Activity.v
ActivitySpec.v
ActivityHistory.v
ActivityTheorems.v
ActivityNotices.v
Ndjson.v
NdjsonSpec.v
Drafts.v
DraftsSpec.v
Csv.v
DisplayText.v
DisplaySpec.v
JsonText.v
TextLines.v
StreamParse.v
StreamParseSpec.v
Zip.v
ZipSpec.v
Turn.v
Runner.v
RunnerDrive.v
RunnerInv.v
RunnerFrozen.v
RunnerDriveInv.v
RunnerSafe.v
RunnerSends.v
RunnerTheorems.v
Runbook.v
RunbookSpec.v
RunbookSlug.v
RunbookEdits.v
RunbookMoves.v
RunbookKinds.v
RunbookDiff.v
RunbookDiffSpec.v
RunbookRun.v
RunbookRunSpec.v
RunbookMarkdown.v
RunbookYaml.v
RunbookParse.v
RunbookYamlSpec.v
RunbookCanonical.v
RunbookFront.v
RunbookStepText.v
RunbookKeyText.v
RunbookLookupText.v
RunbookBodyText.v
RunbookMarkdownSpec.v
RunbookParseSpec.v
RunbookMarkdownCases.v
NavStore.v
NavStoreSpec.v
NavStoreTheorems.v
EventStream.v
EventStreamSpec.v
RunbookIssues.v
RunbookIssuesSpec.v
RunbookRunWords.v
RunbookRunWordsSpec.v
UrlParams.v
NavRegistry.v
RouteValues.v
Router.v
RouterSpec.v
NavRegistrySpec.v
RouterProvider.v
RouterProviderSpec.v
RouteLink.v
Jobs.v
