(* ===== verification/Prelude.v ===== *)
(** * Agentic SOC Console: verification library

    Agentic SOC is a security-operations suite: a Python backend, an updater, and a TypeScript
    console (webui/src). This library verifies the console's own logic, the parts that keep state or
    transform documents without rendering: what a chat turn does while its stream breaks and resumes,
    what the shell shows about turns running elsewhere, where a dashboard widget goes, what a
    settings form sends, what an export holds, what an edited runbook is, and how address, page and
    navigation agree. Paths below are relative to webui/src.

    ** Conventions

    Functions of the source are functions here, under their source names. State is explicit: a
    record of the module's variables, and one function per operation from state to state; histories
    are lists of operations. JavaScript numbers that are always integers are [Z] (32-bit operations
    write out their wrap-around, JsText.v); numbers compared or stored as they come are rationals.
    Strings are [string], or lists of UTF-16 code units ([text]) where the code looks at code units or
    code points. A [Map] is an insertion-ordered association list (JsMap.v); an object read as
    JSON is a [jsval] (JsValue.v). Exceptions and [null] are sums and options. Timers, network answers
    and other tabs are operations of a history, so every theorem over histories holds for every
    order of events.

    ** Parts

    - Prelude.v, StableSort.v: strings, lists, [Array.prototype.sort] with an index tie-break, and
      arrays written by index.
    - JsValue.v (lib/deep-equal.ts): JSON values; [deepEqual] decides equality of the values two trees
      denote.
    - Layout.v, LayoutPack.v, LayoutCompact.v, LayoutMove.v (soc/dashboard/layout-utils.ts): grid
      geometry. The packer's push-down loop and the compactor's rise and drop loops run on fuel that
      is proved enough (the sum of the heights below); the packer returns every widget in place and
      without overlaps, compaction is idempotent, what the grid reports reads back.
    - Reorder.v, ReorderSpec.v (the same file): the reading order and moving a widget through it.
    - Activity.v, ActivitySpec.v, ActivityHistory.v, ActivityTheorems.v, ActivityNotices.v
      (soc/chat-activity): the store of running chat turns, its writers, grace timers and messages
      between tabs, with an invariant over all histories.
    - Ndjson.v, NdjsonSpec.v (soc/chat/ndjson.ts): the line splitter and stream reader. The result
      does not depend on how the network cuts the body; memory is bounded; the outcome never claims
      more than was read. The line parser and the text decoder are interfaces ([StreamEvents],
      [StreamDecoder]).
    - DisplayText.v, DisplaySpec.v, StreamParse.v, StreamParseSpec.v (soc/chat/stream-events.ts): the
      sanitiser of displayed strings, on UTF-16 code units; then the line parser with every
      normaliser it calls, an instance of [StreamEvents]. Read through the stream reader, every
      field of every event is checked: a word of its vocabulary, a count, an identifier of its
      pattern, or an output of the sanitiser within its limit. [JSON.parse] and [String(number)] are
      an interface ([JsonHost]) and the page ids an argument.
    - Turn.v, Runner.v, RunnerDrive.v (soc/chat/turn-runner.ts): runs, their registry, the parked
      wait, case sessions, and the [drive] loop, whose awaits are program points ([Pc]) so that every
      answer of the network is a step. RunnerInv.v to RunnerSafe.v prove the invariant of every
      step, RunnerFrozen.v that a settled run never changes, RunnerSends.v the budget of POSTs,
      RunnerTheorems.v the properties: coherence, finality, a question sent once, recovery that ends,
      and a parked stream that resumes exactly, against the ring the server keeps of a
      turn's lines ([TurnEventRing] of src/backend/app/api/routes_chat.py: [ring_append], [ring_after]);
      its bounds and a line dropped for its size are left out. It shares the activity tab of Activity.v.
    - Drafts.v, DraftsSpec.v (soc/pages/settings-dirty.ts, soc/hooks/useDirtyDraft.ts): which settings
      changed, the patch a save sends, and the draft hook. Keys are those of preferences documents
      (inherited members are left out); each operation of the hook is rendered before the next.
    - Csv.v (lib/csv.ts), Zip.v, ZipSpec.v (soc/chat/report/export/zip.ts): exported fields that a
      reader gets back and that never open as formulas; a ZIP archive an independent reader opens,
      with its CRC proved against the bit-by-bit definition.
    - Runbook.v (lib/types-runbooks.ts, soc/runbooks/editor/draft.ts, and the constants of
      soc/runbooks/shared/labels.ts): runbook documents and every edit of the editor. RunbookSpec.v,
      RunbookEdits.v: any sequence of edits keeps the document's shape and each step's kind;
      RunbookKinds.v: references between steps, in sessions of the editor with the options it sets
      aside on a re-kind and its undo list (soc/runbooks/editor/RunbookEditor.tsx, StepForm.tsx):
      [Editor], [editor_step]; RunbookMoves.v: one move;
      RunbookSlug.v: ids. NFKD folding is an interface with one law ([Folding]). The loops of
      [uniqueSlug] and [runbookIdFromTitle] run on fuel that is proved enough (one more than the
      taken ids; one round).
    - RunbookDiff.v, RunbookDiffSpec.v (soc/runbooks/editor/diff.ts): the comparison of two versions;
      its binary search and walk have the lengths of their arrays as fuel.
    - RunbookRun.v, RunbookRunSpec.v (soc/runbooks/run/model.ts): a runbook attached to a case. The
      runs' documents are the editor's, so step numbers agree; the views of a run and of a case agree.
    - RunbookRunWords.v, RunbookRunWordsSpec.v (the rest of that file): people, roles and times in words.
      The hint about an approval role is compared with the server's rule, which is the specification
      there and is written from the Python source ([role_key] and [holds_approval_role] of
      src/backend/app/engine/runbook_runs.py and api/routes_case_runbooks.py, with [strip] and [casefold] on code points). Unicode case mapping and case
      folding, [Date.parse] and [toLocaleString] are arguments; [FoldLaws] says what the comparison
      needs of the two case tables.
    - RunbookIssues.v, RunbookIssuesSpec.v (the issue display of draft.ts): where the editor shows what
      the server and the reader object to while the document under it is edited.
    - JsonText.v, TextLines.v: [JSON.stringify] and [JSON.parse] of strings; lines and pieces of text.
    - RunbookMarkdown.v (soc/runbooks/editor/markdown.ts): the canonical form and the export.
      RunbookYaml.v, RunbookParse.v: the YAML subset and the reader, with its problems. The records are
      those of Runbook.v over texts (the [...Of] types). RunbookCanonical.v to RunbookBodyText.v read back
      each part of an export; RunbookMarkdownSpec.v puts them together, RunbookParseSpec.v and
      RunbookYamlSpec.v say what any source gives, RunbookMarkdownCases.v runs sources. Upper case and
      [toLocaleString] are interfaces.
    - NavStore.v, NavStoreSpec.v, NavStoreTheorems.v (soc/nav-store.ts): the rail's mode and its open
      groups: the mirror on the device, the write to the server batched over a frame and its tasks, and
      sessions that begin and end in between.
    - EventStream.v, EventStreamSpec.v (lib/useEventStream.ts): the live stream of server events:
      probe, source, timer and backoff, in any order of callbacks.
    - UrlParams.v: UTF-8 and its decoder, [URLSearchParams], [encodeURIComponent] and the test of
      [decodeURIComponent], with the lemma that what is written reads back.
    - NavRegistry.v, NavRegistrySpec.v (soc/registry.tsx, soc/nav.ts): pages, the feature table, the rail
      derived from it, and the page a row opens for a viewer's grants.
    - RouteValues.v (soc/case-result-route.ts, soc/case-tabs.ts, the validators of soc/router.tsx),
      Router.v, RouterSpec.v (soc/router.tsx outside React): the hash of a page, the redirects, the strict
      reader, and the options after a change that stays on the page. RouterProvider.v,
      RouterProviderSpec.v ([RouterProvider]): the provider's state with the browser's address and its
      queued [hashchange] events; navigation, Back and Forward, typed addresses, guards and their question
      are the operations ([Op], [step]). RouteLink.v (soc/route-link.ts): links and clicks. Unicode
      category C, the host of an IPv6 address, the text of inherited members ([RouterHost]) and the URL
      parser ([UrlParser]) are interfaces. Delivering one event more than are queued is proved enough
      ([settle]): only a retired address queues another.
    - Jobs.v (soc/jobs/jobs.ts): the page and options a job result opens, by address or by kind, checked by
      an allowlist before the router sees them and then read with Router.v, and the name a file is saved under.

    ** Theorems

    Invariants over histories: the turn runner's registry, the draft hook, a runbook's shape, the
    navigation mirror, the page shown against the address; also the activity store's summaries and the
    one connection of the event stream. Safety: finality of settled runs, one POST per question, marks
    seen during the grace, references that exist (with the one way a set-aside option keeps a lost one),
    sessions that do not mix, what takes the viewer off a guarded draft, fields of stream events, links
    that render, rows that open what the viewer may read. Refinement and equivalence: [deepEqual], chunking,
    the longest common order of two versions, the reading order of a run, the approval hint. Round trips:
    CSV, ZIP, Markdown, addresses, Settings sections and the links of job results. Termination and liveness: recovery of a broken
    turn, a stream that gives up, a rail choice that is sent. Errors: what the Markdown reader refuses.
    Examples that prove what modelling found are next to their component:
    [NdjsonSpec.aborted_hides_dropped] and [RunnerTheorems.lost_line_repeats_text] (a park after a
    dropped line repeats an event), [RunbookKinds.aside_keeps_removed_mark] (a set-aside option brings back a removed
    step), [RunbookMarkdownCases.inherited_phase] (a phase that is a member every object has),
    [RunbookRunSpec.phase_words_hide_open] (a blocked step waiting for approval hides another open one),
    [DisplayText.smuggled_tag] (an invisible character that forms only while the
    sanitiser works), [RunbookRunWordsSpec.blank_role] (a blank approval role),
    [RouterSpec.inherited_member_redirects] (a member every object has is taken for a retired page),
    [RouterProviderSpec.stale_echo] (a typed link taken for the router's own),
    [RouterProviderSpec.address_bar_leaves] (no question before an address typed over a guarded page),
    [EventStreamSpec.stream_wait_bounds] (two waits of the table that are never used),
    [Jobs.storage_settings_unreachable] and [Jobs.member_is_destination] (a storage job opens Knowledge; the
    allowlist takes a member every object has), and those of RunbookMarkdownCases.v.

    ** Not modelled

    React rendering, DOM and CSS; hooks' effects other than those named above; requests themselves
    ([lib/api*.ts]); the host's [Date.parse], [toLocaleString], NFKD and case folding, which are
    arguments where a modelled function needs them; charts and answer blocks, whose arithmetic is
    floating point; the text of reports and documents; the Python backend (but for the approval rule the console's hint restates and a turn's event ring),
    the updater and the scripts (another language). Of the files above: [gridCellWidth] (pixels), [freshId] (randomness), the
    BroadcastChannel itself, the lazy components of the registry, the submission keys and events of jobs
    (randomness, the browser), the Content-Disposition header and the summary sentence of a job (locale), and the refusal of
    [history.replaceState] in a sandboxed frame. *)

From stdpp Require Export base tactics option list numbers strings gmap sorting.
From Stdlib Require Export ZArith Lia Bool.

#[export] Set Default Goal Selector "!".

#[export] Set Warnings "-clear-no-such-hyp,-register-all".

Create HintDb console.

Declare Scope console_scope.
Delimit Scope console_scope with console.

(** ** JavaScript's [a || b] on numbers, as comparator chains use it *)
Definition js_or (a b : Z) : Z := if (a =? 0)%Z then b else a.

Notation "a ||| b" := (js_or a b) (at level 50, left associativity) : console_scope.

(** ** Sums *)
Definition Zsum (l : list Z) : Z := foldr Z.add 0%Z l.

Lemma Zsum_cons x l : Zsum (x :: l) = (x + Zsum l)%Z.
Proof. done. Qed.

Lemma Zsum_app l l' : Zsum (l ++ l') = (Zsum l + Zsum l')%Z.
Proof. unfold Zsum. induction l as [|x l IH]; simpl; lia. Qed.

#[export] Instance Zsum_Permutation : Proper ((≡ₚ) ==> (=)) Zsum.
Proof. intros l l' H. induction H; unfold Zsum in *; simpl; lia. Qed.

(** ** JavaScript strings *)

Lemma app_assoc_string a b c : (a +:+ b) +:+ c = a +:+ (b +:+ c).
Proof. induction a as [|x a IH]; [done|]. cbn. unfold String.append in *. cbn. by rewrite <-IH. Qed.

(** White space [trim] and [trimEnd] remove; a character is one element of the string. *)
Definition is_space (c : Ascii.ascii) : bool :=
  let n := Ascii.nat_of_ascii c in ((9 <=? n) && (n <=? 13) || (n =? 32) || (n =? 160))%nat.

Fixpoint trimEnd (s : string) : string :=
  match s with
  | EmptyString => EmptyString
  | String c s' =>
      match trimEnd s' with
      | EmptyString => if is_space c then EmptyString else String c EmptyString
      | t => String c t
      end
  end.

Fixpoint trimStart (s : string) : string :=
  match s with
  | String c s' => if is_space c then trimStart s' else s
  | EmptyString => EmptyString
  end.
Definition trim (s : string) : string := trimEnd (trimStart s).

(** [parts.join(sep)] *)
Fixpoint join_strings (sep : string) (parts : list string) : string :=
  match parts with
  | [] => ""
  | [p] => p
  | p :: parts' => p +:+ sep +:+ join_strings sep parts'
  end.

(** ** Stable sorting: [Array.prototype.sort] with a comparator

    The source's comparators are total orders made strict by an index; the sort is stable
    since ES2019. [isort le] keeps equal elements in their input order. *)
Section isort.
Context {A : Type} (le : A → A → bool).

Fixpoint insert_le (x : A) (l : list A) : list A :=
  match l with
  | [] => [x]
  | y :: l' => if le x y then x :: y :: l' else y :: insert_le x l'
  end.

Fixpoint isort (l : list A) : list A :=
  match l with
  | [] => []
  | x :: l' => insert_le x (isort l')
  end.

Lemma insert_le_Permutation x l : insert_le x l ≡ₚ x :: l.
Proof.
  induction l as [|y l IH]; simpl; [done|].
  destruct (le x y); [done|]. rewrite IH. constructor.
Qed.

Lemma isort_Permutation l : isort l ≡ₚ l.
Proof.
  induction l as [|x l IH]; simpl; [done|].
  by rewrite insert_le_Permutation, IH.
Qed.

Lemma length_isort l : length (isort l) = length l.
Proof. by rewrite isort_Permutation. Qed.

Lemma elem_of_isort x l : x ∈ isort l ↔ x ∈ l.
Proof. by rewrite isort_Permutation. Qed.

(** A list already in order comes back unchanged. *)
Lemma isort_id l : StronglySorted le l → isort l = l.
Proof.
  induction 1 as [|x l Hs IH Hx]; simpl; [done|]. rewrite IH.
  destruct l as [|y l]; simpl; [done|].
  apply Forall_cons in Hx as [Hxy _]. by destruct (le x y).
Qed.

Context (le_total : ∀ x y, le x y ∨ le y x) (le_trans : ∀ x y z, le x y → le y z → le x z).

Lemma insert_le_sorted x l : StronglySorted le l → StronglySorted le (insert_le x l).
Proof using le_total le_trans.
  induction 1 as [|y l Hs IH Hy]; simpl; [repeat constructor|].
  destruct (le x y) eqn:E.
  - constructor; [by constructor|]. constructor; [by rewrite E|].
    eapply Forall_impl; [done|]. intros z Hz. apply (le_trans x y z); [by rewrite E|done].
  - constructor; [done|]. rewrite insert_le_Permutation. constructor; [|done].
    destruct (le_total x y) as [H|H]; [|done]. by rewrite E in H.
Qed.

Lemma isort_sorted l : StronglySorted le (isort l).
Proof using le_total le_trans.
  induction l; simpl; [constructor|]. by apply insert_le_sorted.
Qed.
End isort.

(** ** Lists *)
Lemma omap_nil {A B} (f : A → option B) l : omap f l = [] ↔ Forall (λ x, f x = None) l.
Proof.
  induction l as [|x l IH]; [split; [constructor|done]|]. rewrite Forall_cons, <-IH. cbn. destruct (f x); cbn; [split; [done|by intros [? _]]|tauto].
Qed.

Lemma sublist_omap {A B} (f : A → option B) l l' : l `sublist_of` l' → omap f l `sublist_of` omap f l'.
Proof.
  induction 1 as [|x l l' Hl IH|x l l' Hl IH]; cbn; [done| |]; destruct (f x); [by apply sublist_skip|done|by apply sublist_cons|done].
Qed.

Lemma sublist_filter_mono {A} (P : A → Prop) `{∀ x, Decision (P x)} l l' : l `sublist_of` l' → filter P l `sublist_of` filter P l'.
Proof.
  induction 1 as [|x l l' Hl IH|x l l' Hl IH]; [done| |]; rewrite !filter_cons; destruct (decide (P x));
    [by apply sublist_skip|done|by apply sublist_cons|done].
Qed.

Lemma length_omap_all {A B} (f : A → option B) l : (∀ x, x ∈ l → is_Some (f x)) → length (omap f l) = length l.
Proof.
  induction l as [|x l IH]; intros Hf; [done|]. cbn. destruct (Hf x) as [y ->]; [by left|]. cbn. f_equal. apply IH. intros z Hz. apply Hf. by right.
Qed.

Lemma reverse_omap {A B} (f : A → option B) l : reverse (omap f l) = omap f (reverse l).
Proof.
  induction l as [|x l IH]; [done|]. rewrite reverse_cons, omap_app, <-IH. cbn. destruct (f x) as [y|]; cbn; [apply reverse_cons|by rewrite app_nil_r].
Qed.

Lemma sublist_full {A} (l l' : list A) : l `sublist_of` l' → length l' ≤ length l → l = l'.
Proof.
  induction 1 as [|x l l' Hl IH|x l l' Hl IH]; intros Hlen; [done|f_equal; apply IH; simpl in Hlen; lia|].
  apply sublist_length in Hl. simpl in Hlen. lia.
Qed.

(** ** [new Set(list)]: the first occurrence of each value, in order *)
Section js_set.
Context {A : Type} `{EqDecision A}.

Fixpoint js_set (l : list A) : list A :=
  match l with
  | [] => []
  | a :: l' => a :: filter (λ b, b ≠ a) (js_set l')
  end.

Lemma elem_of_js_set a l : a ∈ js_set l ↔ a ∈ l.
Proof.
  induction l as [|b l IH]; simpl; [done|].
  rewrite !elem_of_cons, list_elem_of_filter, IH. destruct (decide (a = b)); naive_solver.
Qed.

Lemma NoDup_js_set l : NoDup (js_set l).
Proof.
  induction l as [|b l IH]; simpl; constructor.
  - rewrite list_elem_of_filter. naive_solver.
  - by apply NoDup_filter.
Qed.
End js_set.

Lemma eq_Permutation {A} (l l' : list A) : l = l' → l ≡ₚ l'.
Proof. by intros ->. Qed.

(** A symmetric relation that holds of every ordered pair holds in every order. *)
Lemma StronglySorted_sym_Permutation {A} (R : relation A) l l' :
  Symmetric R → l ≡ₚ l' → StronglySorted R l → StronglySorted R l'.
Proof.
  intros HR Hp. induction Hp as [|x l l' Hp IH|x y l|l1 l2 l3 _ IH1 _ IH2]; intros Hs.
  - done.
  - apply StronglySorted_inv in Hs as [Hs Hx]. constructor; [by apply IH|by rewrite <-Hp].
  - apply StronglySorted_inv in Hs as [Hs Hy].
    apply StronglySorted_inv in Hs as [Hs Hx]. apply Forall_cons in Hy as [Hyx Hy].
    constructor; [by constructor|]. constructor; [by apply HR|done].
  - by apply IH2, IH1.
Qed.

Lemma seq_sorted a n : StronglySorted le (seq a n).
Proof.
  revert a. induction n as [|n IH]; intros a; simpl; constructor; [done|].
  apply Forall_forall. intros x Hx%elem_of_seq. lia.
Qed.

(** ** Writing an array by index: [out = new Array(n)] followed by [out[i] = a] *)
Section scatter.
Context {A : Type}.
Implicit Types (ws : list (nat * A)) (l : list A).

Definition write_at (out : list (option A)) (w : nat * A) : list (option A) :=
  <[w.1 := Some w.2]> out.

(** The holes of [new Array(n)] are [None]; a hole that was never written is dropped. *)
Definition scatter (n : nat) (ws : list (nat * A)) : list A :=
  omap id (foldl write_at (replicate n None) ws).

Lemma length_write_all ws out : length (foldl write_at out ws) = length out.
Proof.
  revert out. induction ws as [|w ws IH]; intros out; simpl; [done|].
  rewrite IH. apply length_insert.
Qed.

Lemma write_all_other ws out i : i ∉ ws.*1 → foldl write_at out ws !! i = out !! i.
Proof.
  revert out. induction ws as [|w ws IH]; intros out Hi; simpl in *; [done|].
  apply not_elem_of_cons in Hi as [Hne Hi]. rewrite IH by done.
  unfold write_at. by rewrite list_lookup_insert_ne by congruence.
Qed.

Lemma write_all_lookup ws out i a :
  NoDup ws.*1 → (i, a) ∈ ws → i < length out → foldl write_at out ws !! i = Some (Some a).
Proof.
  revert out. induction ws as [|w ws IH]; intros out Hnd Hin Hi; simpl in *.
  { by apply elem_of_nil in Hin. }
  apply NoDup_cons in Hnd as [Hw Hnd].
  apply elem_of_cons in Hin as [<-|Hin]; simpl in *.
  - rewrite write_all_other by done. unfold write_at; simpl.
    by apply list_lookup_insert_eq.
  - apply IH; [done..|]. unfold write_at. by rewrite length_insert.
Qed.

Lemma omap_id_all_Some (out : list (option A)) l : out = Some <$> l → omap id out = l.
Proof. intros ->. induction l; simpl; [done|]. by f_equal. Qed.

(** Every index written once: the array holds exactly the written values. *)
Lemma scatter_eq n ws l :
  ws.*1 ≡ₚ seq 0 n → length l = n → (∀ i a, (i, a) ∈ ws → l !! i = Some a) → scatter n ws = l.
Proof.
  intros Hp Hl Hws. apply omap_id_all_Some. apply list_eq. intros i.
  rewrite list_lookup_fmap.
  destruct (decide (i < n)) as [Hi|Hi].
  - assert (i ∈ ws.*1) as Hin. { rewrite Hp. apply elem_of_seq. lia. }
    apply list_elem_of_fmap in Hin as ([j a] & Hij & Hin); simpl in Hij; subst j.
    rewrite (Hws i a Hin). simpl. apply write_all_lookup; [|done|by rewrite length_replicate].
    rewrite Hp. apply NoDup_seq.
  - rewrite !lookup_ge_None_2; [done|lia|].
    rewrite length_write_all, length_replicate. lia.
Qed.

Lemma scatter_exists n ws :
  ws.*1 ≡ₚ seq 0 n →
  ∃ l, length l = n ∧ (∀ i a, (i, a) ∈ ws ↔ l !! i = Some a) ∧ l ≡ₚ ws.*2.
Proof.
  revert ws. intros ws Hp.
  exists ((isort (λ p q : nat * A, p.1 <=? q.1)%nat ws).*2).
  set (s := isort _ ws).
  assert (Hps : s ≡ₚ ws) by apply isort_Permutation.
  assert (Hss : s.*1 = seq 0 n).
  { apply (StronglySorted_unique le); [|apply seq_sorted|by rewrite Hps].
    assert (Hst : StronglySorted (λ p q : nat * A, p.1 <=? q.1)%nat s).
    { apply isort_sorted; intros; rewrite ?Is_true_true, ?Nat.leb_le in *; lia. }
    clear -Hst. induction Hst as [|x l _ IH Hx]; simpl; constructor; [done|].
    apply Forall_fmap. eapply Forall_impl; [done|].
    intros y Hy. simpl in *. by apply Is_true_true, Nat.leb_le in Hy. }
  assert (Hlen : length s = n). { by rewrite <-(length_fmap fst), Hss, length_seq. }
  split_and!.
  - by rewrite length_fmap.
  - intros i a. rewrite <-Hps, list_lookup_fmap. split.
    + intros [j Hj]%list_elem_of_lookup.
      assert (s.*1 !! j = Some i) as Hi by (by rewrite list_lookup_fmap, Hj).
      rewrite Hss in Hi. apply lookup_seq in Hi as [-> _]. simpl in *. by rewrite Hj.
    + destruct (s !! i) as [[j b]|] eqn:E; simpl; [|done]. intros [= ->].
      assert (s.*1 !! i = Some j) as Hi by (by rewrite list_lookup_fmap, E).
      rewrite Hss in Hi. apply lookup_seq in Hi as [-> _]. simpl in *.
      by eapply list_elem_of_lookup_2.
  - by rewrite Hps.
Qed.

Lemma scatter_Permutation n ws : ws.*1 ≡ₚ seq 0 n → scatter n ws ≡ₚ ws.*2.
Proof.
  intros Hp. destruct (scatter_exists n ws Hp) as (l & Hl & Hlk & Hlp).
  rewrite (scatter_eq n ws l); [done..|]. intros i a. apply Hlk.
Qed.

Lemma length_scatter n ws : ws.*1 ≡ₚ seq 0 n → length (scatter n ws) = n.
Proof.
  intros Hp. rewrite scatter_Permutation by done.
  by rewrite length_fmap, <-(length_fmap fst), Hp, length_seq.
Qed.

Lemma scatter_lookup n ws i a :
  ws.*1 ≡ₚ seq 0 n → scatter n ws !! i = Some a ↔ (i, a) ∈ ws.
Proof.
  intros Hp. destruct (scatter_exists n ws Hp) as (l & Hl & Hlk & _).
  rewrite (scatter_eq n ws l); [by rewrite Hlk|done..|]. intros j b. apply Hlk.
Qed.

(** What holds of every write holds of the array, index by index. *)
Lemma scatter_Forall2 (R : A → A → Prop) (l : list A) ws :
  ws.*1 ≡ₚ seq 0 (length l) → Forall (λ o, ∃ e, l !! o.1 = Some e ∧ R e o.2) ws →
  Forall2 R l (scatter (length l) ws).
Proof.
  intros Hp Hws. apply Forall2_same_length_lookup_2; [by rewrite length_scatter|].
  intros k d o Hd Ho. apply scatter_lookup in Ho; [|done].
  rewrite Forall_forall in Hws. destruct (Hws _ Ho) as (e & He & HR).
  simpl in *. by simplify_eq.
Qed.
End scatter.
