(* ===== verification/StableSort.v ===== *)
(** * Stable sorting by a rank: [map((x, index) => ...).sort((a, b) => rank(a) - rank(b) || a.index - b.index)]

    The comparators of the console sort indexed elements by a rank, then by the index. Any comparator
    that decides this order gives a permutation, ordered by rank, that keeps the input order among
    elements of one rank. *)

From S2P Require Import Prelude.
Local Open Scope Z_scope.

Lemma StronglySorted_filter {A} (R : A → A → Prop) (P : A → Prop) `{∀ x, Decision (P x)} l :
  StronglySorted R l → StronglySorted R (filter P l).
Proof.
  induction 1 as [|a l Hs IH Ha]; [constructor|]. rewrite filter_cons. destruct (decide (P a)); [|done].
  constructor; [done|]. apply Forall_forall. intros x [_ Hx]%list_elem_of_filter. by eapply Forall_forall in Ha.
Qed.

Lemma StronglySorted_fmap {A B} (R : B → B → Prop) (f : A → B) l :
  StronglySorted (λ a b, R (f a) (f b)) l → StronglySorted R (f <$> l).
Proof. induction 1 as [|a l _ IH Ha]; constructor; [done|]. by apply Forall_fmap. Qed.

Lemma StronglySorted_impl {A} (R S : A → A → Prop) l :
  (∀ a b, R a b → S a b) → StronglySorted R l → StronglySorted S l.
Proof. intros HRS. induction 1 as [|a l _ IH Ha]; constructor; [done|]. eapply Forall_impl; [exact Ha|]. auto. Qed.

Lemma StronglySorted_lookup {A} (R : A → A → Prop) l i j a b :
  StronglySorted R l → l !! i = Some a → l !! j = Some b → (i < j)%nat → R a b.
Proof.
  intros Hl. revert i j. induction Hl as [|x l Hl IH Hx]; intros i j Hi Hj Hij; [done|].
  destruct i as [|i], j as [|j]; cbn in Hi, Hj; [lia| |lia|].
  - injection Hi as ->. rewrite Forall_forall in Hx. apply Hx. by eapply list_elem_of_lookup_2.
  - apply (IH i j); [done|done|lia].
Qed.

Lemma imap_pair_snd {A} (l : list A) : (imap pair l : list (nat * A)).*2 = l.
Proof. rewrite fmap_imap. apply list_eq. intros i. rewrite list_lookup_imap. by destruct (l !! i). Qed.

Lemma imap_pair_sorted {A} (l : list A) : StronglySorted (λ a b : nat * A, (a.1 ≤ b.1)%nat) (imap pair l).
Proof.
  enough (∀ k, StronglySorted (λ a b : nat * A, (a.1 ≤ b.1)%nat) (imap (λ i s, ((k + i)%nat, s)) l)) as H by apply (H 0%nat).
  induction l as [|s l IH]; intros k; [constructor|]. rewrite imap_cons. constructor.
  - erewrite imap_ext; [apply (IH (S k))|]. intros i x _. simpl. f_equal. lia.
  - apply Forall_forall. intros [i x] Hin. simpl. apply elem_of_lookup_imap in Hin as (j & y & [= -> ->] & _). lia.
Qed.

Lemma elem_of_imap_pair {A} (l : list A) i x : (i, x) ∈ (imap pair l : list (nat * A)) ↔ l !! i = Some x.
Proof.
  rewrite elem_of_lookup_imap. split; [by intros (j & y & [= -> ->] & Hj)|]. intros Hi. by exists i, x.
Qed.

Section rank_sort.
Context {A : Type} (rank : A → Z) (le : nat * A → nat * A → bool).
Context (le_spec : ∀ a b, le a b = true ↔ rank a.2 < rank b.2 ∨ (rank a.2 = rank b.2 ∧ (a.1 ≤ b.1)%nat)).

Definition sort_by (l : list A) : list A := (isort le (imap pair l)).*2.

Lemma rank_sorted (l : list (nat * A)) : StronglySorted le (isort le l).
Proof using le_spec.
  apply isort_sorted.
  - intros a b. rewrite !Is_true_true, !le_spec. lia.
  - intros a b c. rewrite !Is_true_true, !le_spec. lia.
Qed.

Lemma sort_by_Permutation l : sort_by l ≡ₚ l.
Proof using. unfold sort_by. rewrite isort_Permutation. by rewrite imap_pair_snd. Qed.

Lemma sort_by_sorted l : StronglySorted (λ a b, rank a ≤ rank b) (sort_by l).
Proof using le_spec.
  apply StronglySorted_fmap. eapply StronglySorted_impl; [|apply rank_sorted].
  intros a b Hab%Is_true_true%le_spec. lia.
Qed.

Lemma filter_fmap_snd z (l : list (nat * A)) : filter (λ a, rank a = z) l.*2 = (filter (λ a, rank a.2 = z) l).*2.
Proof using.
  induction l as [|a l IH]; [done|]. rewrite fmap_cons, !filter_cons. destruct (decide (rank a.2 = z)); rewrite ?fmap_cons; by rewrite IH.
Qed.

(** Elements of one rank keep their order. *)
Lemma sort_by_stable z l : filter (λ a, rank a = z) (sort_by l) = filter (λ a, rank a = z) l.
Proof using le_spec.
  unfold sort_by. rewrite filter_fmap_snd. rewrite <-(imap_pair_snd l) at 2. rewrite filter_fmap_snd. f_equal.
  assert (Hin : ∀ a, a ∈ filter (λ a : nat * A, rank a.2 = z) (imap pair l) → l !! a.1 = Some a.2 ∧ rank a.2 = z).
  { intros [i s] [Hp Hin]%list_elem_of_filter. by apply elem_of_imap_pair in Hin. }
  assert (Hperm : filter (λ a, rank a.2 = z) (isort le (imap pair l)) ≡ₚ filter (λ a, rank a.2 = z) (imap pair l)).
  { by rewrite isort_Permutation. }
  apply (StronglySorted_unique_strong le).
  - intros a b Ha Hb Hab Hba. rewrite Hperm in Ha. destruct (Hin a Ha) as [Ha1 Ha2], (Hin b Hb) as [Hb1 Hb2].
    rewrite Is_true_true, le_spec in Hab, Hba. destruct a as [i s], b as [j t]. simpl in *.
    assert (i = j) as -> by lia. congruence.
  - apply StronglySorted_filter, rank_sorted.
  - pose proof (StronglySorted_filter _ (λ a : nat * A, rank a.2 = z) _ (imap_pair_sorted l)) as Hs.
    revert Hs Hin. generalize (filter (λ a : nat * A, rank a.2 = z) (imap pair l)). intros m Hs Hin.
    induction Hs as [|a m Hs IH Ha]; constructor.
    + apply IH. intros b Hb. apply Hin. by right.
    + rewrite Forall_forall in Ha. apply Forall_forall. intros b Hb. apply Is_true_true, le_spec. right.
      split; [|by apply Ha]. destruct (Hin a) as [_ ->]; [by left|]. by destruct (Hin b) as [_ ->]; [right|].
  - exact Hperm.
Qed.

(** A list in order stays as it is. *)
Lemma sort_by_id l : StronglySorted (λ a b, rank a ≤ rank b) l → sort_by l = l.
Proof using le_spec.
  intros Hl. unfold sort_by. rewrite isort_id; [apply imap_pair_snd|].
  assert (H : ∀ k, StronglySorted le (imap (λ i s, ((k + i)%nat, s)) l)); [|apply (H 0%nat)].
  induction Hl as [|s l Hl IH Hs]; intros k; [constructor|]. rewrite imap_cons. constructor.
  - erewrite imap_ext; [apply (IH (S k))|]. intros i x _. simpl. f_equal. lia.
  - apply Forall_forall. intros [i x] Hin. apply elem_of_lookup_imap in Hin as (j & y & [= -> ->] & Hj).
    apply Is_true_true, le_spec. cbn. apply list_elem_of_lookup_2 in Hj. rewrite Forall_forall in Hs. specialize (Hs _ Hj). lia.
Qed.

(** A list in order is its ranks, one after the other. *)
Lemma ranked_split z l :
  StronglySorted (λ a b, rank a ≤ rank b) l → Forall (λ a, z ≤ rank a) l →
  l = filter (λ a, rank a = z) l ++ filter (λ a, rank a ≠ z) l.
Proof using.
  induction 1 as [|a l Hl IH Ha]; intros Hz; [done|]. inversion Hz; subst. rewrite !filter_cons. destruct (decide (rank a = z)) as [E|Hne].
  - rewrite decide_False by tauto. cbn. f_equal. by apply IH.
  - rewrite decide_True by done. assert (Hn : filter (λ a, rank a = z) l = []).
    { apply elem_of_nil_inv. intros x [Hx Hin]%list_elem_of_filter. rewrite Forall_forall in Ha. specialize (Ha x Hin). simpl in Ha. lia. }
    rewrite Hn. cbn. f_equal. rewrite Hn in IH. by apply IH.
Qed.

Lemma ranked_concat k (len : nat) l :
  StronglySorted (λ a b, rank a ≤ rank b) l → Forall (λ a, Z.of_nat k ≤ rank a < Z.of_nat (k + len)) l →
  l = seq k len ≫= λ i, filter (λ a, rank a = Z.of_nat i) l.
Proof using.
  revert k l. induction len as [|len IH]; intros k l Hl Hr.
  - destruct Hr as [|a l Ha _]; [done|lia].
  - rewrite (ranked_split (Z.of_nat k) l) at 1; [|done|by eapply Forall_impl; [exact Hr|]; intros; simpl in *; lia].
    cbn [seq mbind list_bind]. f_equal. rewrite (IH (S k) (filter (λ a, rank a ≠ Z.of_nat k) l)).
    + apply Forall_bind_ext, Forall_forall. intros i Hi%elem_of_seq. rewrite list_filter_filter. apply list_filter_iff. intros x. lia.
    + by apply StronglySorted_filter.
    + apply Forall_forall. intros x [Hx Hin]%list_elem_of_filter. rewrite Forall_forall in Hr. specialize (Hr x Hin). lia.
Qed.

Lemma bind_seq {B C} (f : nat → list B) (g : C → list B) k (l : list C) :
  (∀ i x, l !! i = Some x → f (k + i)%nat = g x) → seq k (length l) ≫= f = l ≫= g.
Proof using.
  revert k. induction l as [|x l IH]; intros k Hfg; [done|]. cbn. f_equal; [specialize (Hfg 0%nat x eq_refl); by rewrite Nat.add_0_r in Hfg|].
  apply (IH (S k)). intros i y Hi. rewrite <-(Hfg (S i) y Hi). f_equal. lia.
Qed.
End rank_sort.
