(* ===== verification/JsValue.v ===== *)
(** * JSON-able JavaScript values and [deepEqual] (lib/deep-equal.ts) *)

From S2P Require Import Prelude.
From stdpp Require Import gmap.
From Stdlib Require Import QArith Qcanon.
Local Close Scope Qc_scope.
Local Close Scope Q_scope.

(** A value [JSON.parse] can return, or [undefined]. Numbers are finite, so [===] on them is
    equality of rationals. An object lists its own keys in insertion order. *)
Inductive jsval : Type :=
  | VUndef
  | VNull
  | VBool (b : bool)
  | VNum (n : Qc)
  | VStr (s : string)
  | VArr (items : list jsval)
  | VObj (fields : list (string * jsval)).

(** The induction principle with the hypothesis for every item and every field. *)
Section jsval_rec.
Context (P : jsval → Prop).
Context (HU : P VUndef) (HN : P VNull) (HB : ∀ b, P (VBool b)) (HQ : ∀ n, P (VNum n)).
Context (HS : ∀ s, P (VStr s)) (HA : ∀ l, Forall P l → P (VArr l)).
Context (HO : ∀ fs, Forall (λ kv, P kv.2) fs → P (VObj fs)).

Fixpoint jsval_rec' (v : jsval) : P v :=
  match v with
  | VUndef => HU
  | VNull => HN
  | VBool b => HB b
  | VNum n => HQ n
  | VStr s => HS s
  | VArr l =>
      HA l ((fix go l : Forall P l :=
               match l with
               | [] => @List.Forall_nil _ _
               | x :: l' => @List.Forall_cons _ _ _ _ (jsval_rec' x) (go l')
               end) l)
  | VObj fs =>
      HO fs ((fix go fs : Forall (λ kv, P kv.2) fs :=
                match fs with
                | [] => @List.Forall_nil _ _
                | kv :: fs' => @List.Forall_cons _ _ _ _ (jsval_rec' kv.2) (go fs')
                end) fs)
  end.
End jsval_rec.

(** [o[k]] for an own key. *)
Fixpoint get_own (fs : list (string * jsval)) (k : string) : option jsval :=
  match fs with
  | [] => None
  | (k', v) :: fs' => if String.eqb k' k then Some v else get_own fs' k
  end.

(** [deepEqual(a, b)]: order-insensitive structural equality. *)
Fixpoint deepEqual (a b : jsval) {struct a} : bool :=
  match a, b with
  | VUndef, VUndef => true
  | VNull, VNull => true
  | VBool x, VBool y => Bool.eqb x y
  | VNum x, VNum y => bool_decide (x = y)
  | VStr x, VStr y => String.eqb x y
  | VArr l, VArr m =>
      Nat.eqb (length l) (length m) &&
      (fix items (l m : list jsval) : bool :=
         match l, m with
         | x :: l', y :: m' => deepEqual x y && items l' m'
         | _, _ => true
         end) l m
  | VObj f, VObj g =>
      Nat.eqb (length f) (length g) &&
      (fix keys (f : list (string * jsval)) : bool :=
         match f with
         | [] => true
         | (k, x) :: f' =>
             match get_own g k with
             | None => false
             | Some y => deepEqual x y && keys f'
             end
         end) f
  | _, _ => false
  end.

(** An object never repeats a key. *)
Fixpoint js_wf (v : jsval) : Prop :=
  match v with
  | VArr l => (fix go l := match l with [] => True | x :: l' => js_wf x ∧ go l' end) l
  | VObj fs =>
      NoDup fs.*1 ∧
      (fix go fs := match fs with [] => True | (_, x) :: fs' => js_wf x ∧ go fs' end) fs
  | _ => True
  end.

(** ** What a value means once key order is forgotten *)
Inductive meaning : Type :=
  | MUndef
  | MNull
  | MBool (b : bool)
  | MNum (n : Qc)
  | MStr (s : string)
  | MArr (items : list meaning)
  | MObj (fields : gmap string meaning).

Fixpoint denote (v : jsval) : meaning :=
  match v with
  | VUndef => MUndef
  | VNull => MNull
  | VBool b => MBool b
  | VNum n => MNum n
  | VStr s => MStr s
  | VArr l => MArr ((fix go l := match l with [] => [] | x :: l' => denote x :: go l' end) l)
  | VObj fs =>
      MObj ((fix go fs := match fs with
                          | [] => ∅
                          | (k, x) :: fs' => <[k := denote x]> (go fs')
                          end) fs)
  end.

Definition denote_fields (fs : list (string * jsval)) : gmap string meaning :=
  list_to_map (prod_map id denote <$> fs).

Lemma denote_arr l : denote (VArr l) = MArr (denote <$> l).
Proof. done. Qed.

Lemma denote_obj fs : denote (VObj fs) = MObj (denote_fields fs).
Proof.
  simpl. f_equal. unfold denote_fields.
  induction fs as [|[k x] fs IH]; simpl; [done|]. by rewrite IH.
Qed.

Lemma js_wf_arr l : js_wf (VArr l) ↔ Forall js_wf l.
Proof.
  simpl. induction l as [|x l IH]; simpl; [split; constructor|].
  by rewrite Forall_cons, IH.
Qed.

Lemma js_wf_obj fs : js_wf (VObj fs) ↔ NoDup fs.*1 ∧ Forall (λ kv, js_wf kv.2) fs.
Proof.
  simpl. f_equiv. induction fs as [|[k x] fs IH]; simpl; [split; constructor|].
  by rewrite Forall_cons, IH.
Qed.

Lemma get_own_lookup fs k :
  denote_fields fs !! k = denote <$> get_own fs k.
Proof.
  unfold denote_fields. induction fs as [|[k' x] fs IH]; simpl; [by rewrite lookup_empty|].
  destruct (String.eqb_spec k' k) as [->|Hne]; simpl; simplify_map_eq; done.
Qed.

Lemma get_own_elem fs k v : get_own fs k = Some v → (k, v) ∈ fs.
Proof.
  induction fs as [|[k' x] fs IH]; simpl; [done|].
  destruct (String.eqb_spec k' k) as [->|Hne]; [intros [= ->]; left|intros H; right; auto].
Qed.

Lemma get_own_is_Some fs k : k ∈ fs.*1 ↔ is_Some (get_own fs k).
Proof.
  induction fs as [|[k' x] fs IH]; simpl.
  - split; [by intros ?%elem_of_nil|by intros [??]].
  - rewrite elem_of_cons, IH.
    destruct (String.eqb_spec k' k) as [->|Hne]; naive_solver.
Qed.

Lemma size_denote_fields fs : NoDup fs.*1 → size (denote_fields fs) = length fs.
Proof.
  intros Hnd. unfold denote_fields. rewrite map_size_list_to_map.
  - by rewrite length_fmap.
  - rewrite <-list_fmap_compose. by rewrite (list_fmap_ext _ fst); [|intros ? [??]].
Qed.

Lemma MObj_inj m1 m2 : MObj m1 = MObj m2 ↔ m1 = m2.
Proof. split; congruence. Qed.

Lemma MArr_inj m1 m2 : MArr m1 = MArr m2 ↔ m1 = m2.
Proof. split; congruence. Qed.

(** The field walk of [deepEqual]: every key of [f] is a key of [g] with an equal value. *)
Lemma deepEqual_obj f g :
  deepEqual (VObj f) (VObj g) = true ↔
  length f = length g ∧
  Forall (λ kv, ∃ y, get_own g kv.1 = Some y ∧ deepEqual kv.2 y = true) f.
Proof.
  simpl. rewrite andb_true_iff, Nat.eqb_eq. f_equiv.
  induction f as [|[k x] f IH]; simpl; [split; constructor|].
  rewrite Forall_cons, <-IH. simpl. destruct (get_own g k) as [y|]; [|naive_solver].
  rewrite andb_true_iff. naive_solver.
Qed.

Lemma deepEqual_arr l m :
  deepEqual (VArr l) (VArr m) = true ↔ Forall2 (λ x y, deepEqual x y = true) l m.
Proof.
  simpl. rewrite andb_true_iff, Nat.eqb_eq.
  revert m. induction l as [|x l IH]; intros [|y m]; simpl.
  - split; [constructor|done].
  - split; [naive_solver lia|by inversion 1].
  - split; [naive_solver lia|by inversion 1].
  - rewrite andb_true_iff, Forall2_cons, <-IH. naive_solver lia.
Qed.

Lemma denote_fields_eq f g :
  NoDup f.*1 → NoDup g.*1 →
  denote_fields f = denote_fields g ↔
  length f = length g ∧
  Forall (λ kv, ∃ y, get_own g kv.1 = Some y ∧ denote kv.2 = denote y) f.
Proof.
  intros Hf Hg. split.
  - intros Heq. split; [by rewrite <-!size_denote_fields, Heq|].
    apply Forall_forall. intros [k x] Hkx. simpl.
    assert (denote_fields f !! k = Some (denote x)) as Hk.
    { unfold denote_fields. apply elem_of_list_to_map.
      - rewrite <-list_fmap_compose. by rewrite (list_fmap_ext _ fst); [|intros ? [??]].
      - apply list_elem_of_fmap. by exists (k, x). }
    rewrite Heq, get_own_lookup in Hk.
    destruct (get_own g k) as [y|]; simpl in Hk; [|done]. exists y. naive_solver.
  - intros [Hlen Hall].
    assert (denote_fields f ⊆ denote_fields g) as Hsub.
    { apply map_subseteq_spec. intros k m. rewrite !get_own_lookup. intros Hk.
      destruct (get_own f k) as [x|] eqn:Ex; simpl in Hk; [|done]. simplify_eq.
      apply get_own_elem in Ex. rewrite Forall_forall in Hall.
      destruct (Hall _ Ex) as (y & Hy & Hxy); simpl in *. rewrite Hy. simpl. by rewrite Hxy. }
    apply map_subseteq_size_eq; [done|]. rewrite !size_denote_fields by done. lia.
Qed.

Lemma deepEqual_iff a b :
  js_wf a → js_wf b → deepEqual a b = true ↔ denote a = denote b.
Proof.
  revert b. induction a as [| |x|x|x|l IH|f IH] using jsval_rec';
    intros [| |y|y|y|m|g] Ha Hb; try (simpl; split; congruence).
  - simpl. rewrite Bool.eqb_true_iff. naive_solver.
  - simpl. rewrite bool_decide_eq_true. naive_solver.
  - simpl. rewrite String.eqb_eq. naive_solver.
  - rewrite deepEqual_arr, !denote_arr, MArr_inj. apply js_wf_arr in Ha, Hb.
    revert m Hb. induction l as [|x l IHl]; intros [|y m] Hb; simpl;
      try (split; [by inversion 1|done]).
    apply Forall_cons in Ha as [Hx Hl], Hb as [Hy Hm], IH as [IHx IH].
    rewrite Forall2_cons, IHl, (IHx y) by done.
    split; [intros [E1 E2]; by apply (f_equal2 cons)|intros E; by injection E].
  - rewrite deepEqual_obj, !denote_obj, MObj_inj.
    apply js_wf_obj in Ha as [Hndf Hf], Hb as [Hndg Hg].
    rewrite denote_fields_eq by done. f_equiv.
    rewrite !Forall_forall in *. split; intros Hall [k x] Hkx;
      destruct (Hall _ Hkx) as (y & Hy & Hxy); exists y; (split; [done|]); simpl in *.
    + apply (IH _ Hkx); [by apply (Hf _ Hkx)|by apply get_own_elem, Hg in Hy|done].
    + apply (IH _ Hkx) in Hxy; [done|by apply (Hf _ Hkx)|by apply get_own_elem, Hg in Hy].
Qed.

(** C7. [deepEqual] decides whether two JSON values mean the same: objects as maps from keys,
    whatever the order the keys were written in. *)
Theorem deepEqual_denote a b :
  js_wf a → js_wf b → deepEqual a b = true ↔ denote a = denote b.
Proof. apply deepEqual_iff. Qed.

Lemma deepEqual_denote_witness :
  denote (VObj [("a", VBool true); ("b", VNull)]) = denote (VObj [("b", VNull); ("a", VBool true)]).
Proof.
  apply (deepEqual_denote (VObj [("a", VBool true); ("b", VNull)])
           (VObj [("b", VNull); ("a", VBool true)])); [| |reflexivity];
    simpl; split_and!; try done; repeat constructor; set_solver.
Defined.
