(* ===== verification/JsText.v ===== *)
(** * JavaScript strings as lists of UTF-16 code units, and 32-bit integer operations *)

From S2P Require Import Prelude.
Local Open Scope Z_scope.

Definition text := list Z.

Definition LF : Z := 10.
Definition CR : Z := 13.
Definition TAB : Z := 9.
Definition SPACE : Z := 32.
Definition QUOTE : Z := 34.
Definition APOSTROPHE : Z := 39.
Definition COMMA : Z := 44.
Definition DOT : Z := 46.
Definition SLASH : Z := 47.

(** An ASCII literal as code units. *)
Fixpoint units (s : string) : text :=
  match s with
  | EmptyString => []
  | String c s' => Z.of_nat (Ascii.nat_of_ascii c) :: units s'
  end.

(** [rows.join(sep)] *)
Fixpoint join_with (sep : text) (parts : list text) : text :=
  match parts with
  | [] => []
  | [p] => p
  | p :: parts' => p ++ sep ++ join_with sep parts'
  end.

(** Code units [trim] removes. *)
Definition trim_space (c : Z) : bool :=
  ((9 <=? c) && (c <=? 13)) || (c =? 32) || (c =? 160) || (c =? 5760)
  || ((8192 <=? c) && (c <=? 8202)) || (c =? 8232) || (c =? 8233) || (c =? 8239) || (c =? 8287)
  || (c =? 12288) || (c =? 65279).

(** ** Classes of code units, patterns and pieces *)
Definition in_range (lo hi c : Z) : bool := (lo <=? c) && (c <=? hi).
Definition is_upper (c : Z) : bool := in_range 65 90 c.
Definition is_lower (c : Z) : bool := in_range 97 122 c.
Definition is_digit (c : Z) : bool := in_range 48 57 c.
Definition is_one_of (s : string) (c : Z) : bool := bool_decide (c ∈ units s).

(** [/^[class]{lo,hi}$/] *)
Definition all_of (class : Z → bool) (lo hi : nat) (t : text) : bool :=
  forallb class t && (lo <=? length t)%nat && (length t <=? hi)%nat.

Definition alnum (c : Z) : bool := is_upper c || is_lower c || is_digit c.

(** [toLowerCase()] as far as an ASCII word can come out of it: A to Z and the Kelvin sign. *)
Definition lower_unit (c : Z) : Z := if is_upper c then c + 32 else if c =? 8490 then 107 else c.

(** The text before the first [c], and after it. *)
Fixpoint split_at (c : Z) (t : text) : text * option text :=
  match t with
  | [] => ([], None)
  | d :: t' => if d =? c then ([], Some t') else let '(a, b) := split_at c t' in (d :: a, b)
  end.

Definition COLON : Z := 58.
(** [t.split(sep)] for a one-unit separator; [cur] is the piece begun, in reverse. *)
Fixpoint pieces (sep : Z) (cur : text) (t : text) : list text :=
  match t with
  | [] => [reverse cur]
  | c :: t' => if c =? sep then reverse cur :: pieces sep [] t' else pieces sep (c :: cur) t'
  end.

Definition HASH : Z := 35.
Definition split_on (sep : Z) (t : text) : list text := pieces sep [] t.

(** What is left after a run of a class. *)
Fixpoint skip_while (class : Z → bool) (t : text) : text :=
  match t with c :: t' => if class c then skip_while class t' else t | [] => [] end.

(** [t.startsWith(p)] and [t.includes(p)] *)
Fixpoint starts_with (p t : text) : bool :=
  match p, t with
  | [], _ => true
  | c :: p', d :: t' => (c =? d) && starts_with p' t'
  | _ :: _, [] => false
  end.
Fixpoint includes (p t : text) : bool :=
  starts_with p t || match t with _ :: t' => includes p t' | [] => false end.

(** The halves of a surrogate pair. *)
Definition is_high (c : Z) : bool := (55296 <=? c) && (c <=? 56319).
Definition is_low (c : Z) : bool := (56320 <=? c) && (c <=? 57343).

(** ** Integers of a fixed width *)

(** [v >>> 0] *)
Definition to_uint32 (v : Z) : Z := v mod 2 ^ 32.

Definition to_int32 (v : Z) : Z :=
  let u := to_uint32 v in if u <? 2 ^ 31 then u else u - 2 ^ 32.

(** [a ^ b], [a & b], [a | b], [a << k] and [a >>> k] *)
Definition js_xor (a b : Z) : Z := to_int32 (Z.lxor (to_uint32 a) (to_uint32 b)).
Definition js_and (a b : Z) : Z := to_int32 (Z.land (to_uint32 a) (to_uint32 b)).
Definition js_bor (a b : Z) : Z := to_int32 (Z.lor (to_uint32 a) (to_uint32 b)).
Definition js_shl (a k : Z) : Z := to_int32 (Z.shiftl (to_uint32 a) k).
Definition js_shru (a k : Z) : Z := Z.shiftr (to_uint32 a) k.

Lemma to_uint32_range v : 0 ≤ to_uint32 v < 2 ^ 32.
Proof. apply Z.mod_pos_bound. lia. Qed.

Lemma to_uint32_id v : 0 ≤ v < 2 ^ 32 → to_uint32 v = v.
Proof. apply Z.mod_small. Qed.

Lemma to_uint32_int32 v : to_uint32 (to_int32 v) = to_uint32 v.
Proof.
  unfold to_int32. pose proof (to_uint32_range v) as Hr. destruct (Z.ltb_spec (to_uint32 v) (2 ^ 31)).
  - by apply to_uint32_id.
  - unfold to_uint32 at 1. rewrite <-(Z_mod_plus_full (to_uint32 v - 2 ^ 32) 1).
    rewrite Z.mul_1_l, Z.sub_add. by apply Z.mod_small.
Qed.

(** A width of [n] bits, bit by bit. *)
Lemma bits_range v n : 0 ≤ n → 0 ≤ v < 2 ^ n ↔ 0 ≤ v ∧ ∀ i, n ≤ i → Z.testbit v i = false.
Proof.
  intros Hn. split.
  - intros [H0 Hlt]. split; [done|]. intros i Hi. destruct (decide (v = 0)) as [->|Hv]; [apply Z.bits_0|].
    apply Z.bits_above_log2; [done|]. assert (Z.log2 v < n) by (apply Z.log2_lt_pow2; lia). lia.
  - intros [H0 Hb]. split; [done|]. destruct (decide (v = 0)) as [->|Hv]; [by apply Z.pow_pos_nonneg|].
    apply Z.log2_lt_pow2; [lia|]. destruct (decide (Z.log2 v < n)) as [|Hge]; [done|exfalso].
    pose proof (Z.bit_log2 v ltac:(lia)) as Hlog. rewrite Hb in Hlog by lia. done.
Qed.

Lemma lxor_range a b n : 0 ≤ n → 0 ≤ a < 2 ^ n → 0 ≤ b < 2 ^ n → 0 ≤ Z.lxor a b < 2 ^ n.
Proof.
  intros Hn Ha Hb. apply bits_range in Ha as [Ha Hab]; [|done]. apply bits_range in Hb as [Hb Hbb]; [|done].
  apply bits_range; [done|]. split; [by apply Z.lxor_nonneg|]. intros i Hi.
  by rewrite Z.lxor_spec, Hab, Hbb.
Qed.

Lemma js_xor_uint a b : to_uint32 (js_xor a b) = Z.lxor (to_uint32 a) (to_uint32 b).
Proof.
  unfold js_xor. rewrite to_uint32_int32. apply to_uint32_id.
  apply lxor_range; [done|apply to_uint32_range..].
Qed.
