(* ===== verification/JsMap.v ===== *)
(** * JavaScript's [Map]: an insertion-ordered association list

    [set] of a present key keeps its place; [delete] then [set] moves the key to the end. *)

From S2P Require Import Prelude.

Section js_map.
Context {K V : Type} `{EqDecision K}.
Implicit Types (m : list (K * V)) (k : K) (v : V).

Fixpoint jm_get m k : option V :=
  match m with
  | [] => None
  | (k', v) :: m' => if decide (k' = k) then Some v else jm_get m' k
  end.

Fixpoint jm_set m k v : list (K * V) :=
  match m with
  | [] => [(k, v)]
  | (k', v') :: m' => if decide (k' = k) then (k, v) :: m' else (k', v') :: jm_set m' k v
  end.

Definition jm_delete m k : list (K * V) := filter (λ p, p.1 ≠ k) m.

Lemma jm_get_set m k v k' : jm_get (jm_set m k v) k' = if decide (k = k') then Some v else jm_get m k'.
Proof.
  induction m as [|[k0 v0] m IH]; simpl; [done|].
  destruct (decide (k0 = k)) as [->|Hne]; simpl; [by destruct (decide (k = k'))|].
  rewrite IH. destruct (decide (k0 = k')) as [->|]; [by rewrite decide_False|done].
Qed.

Lemma jm_get_delete m k k' : jm_get (jm_delete m k) k' = if decide (k = k') then None else jm_get m k'.
Proof.
  unfold jm_delete. induction m as [|[k0 v0] m IH]; [by destruct (decide (k = k'))|].
  rewrite filter_cons. cbn [fst jm_get]. destruct (decide (k0 ≠ k)) as [Hne|Heq].
  - cbn [jm_get]. rewrite IH. destruct (decide (k0 = k')) as [->|]; [by rewrite decide_False|done].
  - apply dec_stable in Heq as ->. rewrite IH. destruct (decide (k = k')); done.
Qed.

Lemma jm_keys_set_in m k v : k ∈ m.*1 → (jm_set m k v).*1 = m.*1.
Proof.
  induction m as [|[k0 v0] m IH]; [by intros Hk%elem_of_nil|].
  rewrite fmap_cons. cbn [jm_set fst]. destruct (decide (k0 = k)) as [->|Hne]; [done|].
  intros [->|Hk]%elem_of_cons; [done|]. rewrite fmap_cons. by rewrite IH.
Qed.

Lemma jm_keys_set_new m k v : k ∉ m.*1 → (jm_set m k v).*1 = m.*1 ++ [k].
Proof.
  induction m as [|[k0 v0] m IH]; [done|].
  rewrite fmap_cons, not_elem_of_cons. cbn [jm_set fst]. intros [Hne Hk].
  rewrite decide_False by done. rewrite fmap_cons. by rewrite IH.
Qed.

Lemma jm_NoDup_set m k v : NoDup m.*1 → NoDup (jm_set m k v).*1.
Proof.
  intros Hm. destruct (decide (k ∈ m.*1)) as [Hk|Hk]; [by rewrite jm_keys_set_in|].
  rewrite jm_keys_set_new by done. apply NoDup_app. split_and!; [done| |apply NoDup_singleton].
  intros x Hx Hx'%list_elem_of_singleton. by subst.
Qed.

Lemma jm_delete_keys m k : (jm_delete m k).*1 = filter (λ k', k' ≠ k) m.*1.
Proof.
  unfold jm_delete. induction m as [|[k0 v0] m IH]; [done|].
  rewrite fmap_cons, !filter_cons. cbn [fst]. destruct (decide (k0 ≠ k)); [|done].
  rewrite fmap_cons. by f_equal.
Qed.

Lemma jm_NoDup_delete m k : NoDup m.*1 → NoDup (jm_delete m k).*1.
Proof. rewrite jm_delete_keys. apply NoDup_filter. Qed.

Lemma jm_get_Some_elem m k v : jm_get m k = Some v → (k, v) ∈ m.
Proof.
  induction m as [|[k0 v0] m IH]; simpl; [done|].
  destruct (decide (k0 = k)) as [->|]; [intros [= ->]; by left|right; auto].
Qed.

Lemma jm_elem_get m k v : NoDup m.*1 → (k, v) ∈ m → jm_get m k = Some v.
Proof.
  induction m as [|[k0 v0] m IH]; intros Hm Hin; [by apply elem_of_nil in Hin|].
  apply NoDup_cons in Hm as [Hk0 Hm]. simpl. apply elem_of_cons in Hin as [[= -> ->]|Hin].
  - by rewrite decide_True.
  - rewrite decide_False; [by apply IH|]. intros ->. apply Hk0, list_elem_of_fmap. by exists (k, v).
Qed.

Lemma length_jm_delete m k : length (jm_delete m k) ≤ length m.
Proof. apply length_filter. Qed.
End js_map.
