(* ===== verification/Layout.v ===== *)
(** * The custom-dashboard grid: geometry, packing and compaction
    (soc/dashboard/layout-utils.ts) *)

From S2P Require Import Prelude JsValue.
Local Open Scope Z_scope.
Local Open Scope console_scope.

Definition GRID_COLS : Z := 12.
Definition MAX_ROWS : Z := 1000.

(** A persisted widget. Geometry is in whole grid units (the wire contract types it as
    integers), so [Math.round] is the identity on it; an absent field is [None]. *)
Record DashboardWidget := Widget {
  w_i : option string;
  w_id : option string;
  w_type : string;
  w_x : option Z;
  w_y : option Z;
  w_w : option Z;
  w_h : option Z;
  w_minW : option Z;
  w_minH : option Z;
  w_static : option bool;
  w_options : option jsval;
  w_config : option jsval;
}.

Record GridItemShape := GridItem {
  it_i : string;
  it_x : Z;
  it_y : Z;
  it_w : Z;
  it_h : Z;
  it_minW : option Z;
  it_minH : option Z;
  it_static : bool;
}.

(** [{ ...w, x, y, w, h }] *)
Definition with_geometry (d : DashboardWidget) (x y w h : Z) : DashboardWidget :=
  {| w_i := w_i d; w_id := w_id d; w_type := w_type d;
     w_x := Some x; w_y := Some y; w_w := Some w; w_h := Some h;
     w_minW := w_minW d; w_minH := w_minH d; w_static := w_static d;
     w_options := w_options d; w_config := w_config d |}.

(** [{ ...w, x, y }] *)
Definition with_xy (d : DashboardWidget) (x y : Z) : DashboardWidget :=
  {| w_i := w_i d; w_id := w_id d; w_type := w_type d;
     w_x := Some x; w_y := Some y; w_w := w_w d; w_h := w_h d;
     w_minW := w_minW d; w_minH := w_minH d; w_static := w_static d;
     w_options := w_options d; w_config := w_config d |}.

(** [{ ...w, y }] *)
Definition with_y (d : DashboardWidget) (y : Z) : DashboardWidget :=
  {| w_i := w_i d; w_id := w_id d; w_type := w_type d;
     w_x := w_x d; w_y := Some y; w_w := w_w d; w_h := w_h d;
     w_minW := w_minW d; w_minH := w_minH d; w_static := w_static d;
     w_options := w_options d; w_config := w_config d |}.

(** [a || b] on strings *)
Definition str_or (a b : string) : string := if String.eqb a "" then b else a.

Definition widgetId (d : DashboardWidget) : string :=
  let i := default "" (w_i d) in
  let id := default "" (w_id d) in
  str_or (str_or i id) "".

Definition widgetOptions (d : DashboardWidget) : list (string * jsval) :=
  let opts := match w_options d with
              | None | Some VUndef | Some VNull => w_config d
              | Some v => Some v
              end in
  match opts with
  | Some (VObj fields) => fields
  | _ => []
  end.

Definition clampInt (v : option Z) (lo hi dflt : Z) : Z :=
  match v with
  | None => dflt
  | Some n => Z.max lo (Z.min hi n)
  end.

Definition widgetToItem (d : DashboardWidget) (cols : Z) : GridItemShape :=
  let width := clampInt (w_w d) 1 cols (Z.min 4 cols) in
  let height := clampInt (w_h d) 1 MAX_ROWS 4 in
  let x := clampInt (w_x d) 0 (Z.max 0 (cols - width)) 0 in
  let y := clampInt (w_y d) 0 MAX_ROWS 0 in
  let minW := match w_minW d with
              | None => None | Some m => Some (clampInt (Some m) 1 cols 1) end in
  let minH := match w_minH d with
              | None => None | Some m => Some (clampInt (Some m) 1 MAX_ROWS 1) end in
  {| it_i := widgetId d; it_x := x; it_y := y; it_w := width; it_h := height;
     it_minW := minW; it_minH := minH; it_static := default false (w_static d) |}.

Definition widgetsToLayout (ws : list DashboardWidget) (cols : Z) : list GridItemShape :=
  (λ d, widgetToItem d cols) <$> ws.

(** [new Map(layout.map((it) => [it.i, it]))]: the last item with an id wins. *)
Definition layout_by_id (layout : list GridItemShape) : gmap string GridItemShape :=
  foldl (λ m it, <[it_i it := it]> m) ∅ layout.

Definition applyLayout (ws : list DashboardWidget) (layout : list GridItemShape)
    : list DashboardWidget :=
  let byId := layout_by_id layout in
  (λ d, match byId !! widgetId d with
        | None => d
        | Some it =>
            {| w_i := w_i d; w_id := w_id d; w_type := w_type d;
               w_x := Some (it_x it); w_y := Some (it_y it); w_w := Some (it_w it); w_h := Some (it_h it);
               w_minW := match it_minW it with Some m => Some m | None => w_minW d end;
               w_minH := match it_minH it with Some m => Some m | None => w_minH d end;
               w_static := w_static d; w_options := w_options d; w_config := w_config d |}
        end) <$> ws.

(** ** Rectangles *)
Record PackRect := Rect { rx : Z; ry : Z; rw : Z; rh : Z }.

#[export] Instance PackRect_eq_dec : EqDecision PackRect.
Proof. solve_decision. Defined.

Definition rectsIntersect (a b : PackRect) : bool :=
  (rx a <? rx b + rw b) && (rx a + rw a >? rx b) &&
  (ry a <? ry b + rh b) && (ry a + rh a >? ry b).

(** [{ ...r, y }] *)
Definition at_y (r : PackRect) (y : Z) : PackRect := Rect (rx r) y (rw r) (rh r).

Definition rect_of_item (g : GridItemShape) : PackRect := Rect (it_x g) (it_y g) (it_w g) (it_h g).

(** [placed.reduce((max, p) => Math.max(max, p.y + p.h), 0)] *)
Definition bottom_edge (placed : list PackRect) : Z :=
  foldl (λ m p, Z.max m (ry p + rh p)) 0 placed.

(** ** [packWidgets] *)

(** One entry of [geo]: the widget, its index and its clamped item. *)
Record Geo := mkGeo { geo_w : DashboardWidget; geo_i : nat; geo_g : GridItemShape }.

Definition geometry (ws : list DashboardWidget) (cols : Z) : list Geo :=
  imap (λ k d, mkGeo d k (widgetToItem d cols)) ws.

(** The flow regime: [cx], [rowY] and [rowH] are the loop's running state. *)
Fixpoint flow (cols : Z) (cx rowY rowH : Z) (geo : list Geo) : list (nat * DashboardWidget) :=
  match geo with
  | [] => []
  | e :: geo' =>
      let g := geo_g e in
      let ww := Z.min (it_w g) cols in
      let '(cx, rowY, rowH) :=
        if cx + ww >? cols then (0, rowY + rowH, 0) else (cx, rowY, rowH) in
      (geo_i e, with_geometry (geo_w e) cx rowY ww (it_h g)) ::
        flow cols (cx + ww) rowY (Z.max rowH (it_h g)) geo'
  end.

(** [while (placed.some((p) => rectsIntersect(rect, p))) { y += 1; rect.y = y; }] *)
Fixpoint push_down (fuel : nat) (placed : list PackRect) (r : PackRect) : Z :=
  match fuel with
  | O => ry r
  | S fuel =>
      if existsb (rectsIntersect r) placed
      then push_down fuel placed (at_y r (ry r + 1))
      else ry r
  end.

(** A rectangle below every placed bottom edge meets nothing, so the loop runs at most this
    often ([push_down_settles]). *)
Definition push_fuel (placed : list PackRect) (r : PackRect) : nat :=
  Z.to_nat (bottom_edge placed - ry r).

Fixpoint resolve (placed : list PackRect) (order : list Geo) : list (nat * DashboardWidget) :=
  match order with
  | [] => []
  | e :: order' =>
      let g := geo_g e in
      let rect := rect_of_item g in
      let y := push_down (push_fuel placed rect) placed rect in
      (geo_i e, with_geometry (geo_w e) (it_x g) y (it_w g) (it_h g)) ::
        resolve (placed ++ [at_y rect y]) order'
  end.

(** [a.g.y - b.g.y || a.g.x - b.g.x || a.i - b.i], sorted ascending. *)
Definition geo_le (a b : Geo) : bool :=
  (it_y (geo_g a) - it_y (geo_g b) ||| (it_x (geo_g a) - it_x (geo_g b))
     ||| (Z.of_nat (geo_i a) - Z.of_nat (geo_i b))) <=? 0.

Definition packWidgets (ws : list DashboardWidget) (cols : Z) : list DashboardWidget :=
  if (length ws <=? 1)%nat then ws
  else
    let geo := geometry ws cols in
    let allAtOrigin := forallb (λ e, (it_x (geo_g e) =? 0) && (it_y (geo_g e) =? 0)) geo in
    if allAtOrigin
    then scatter (length ws) (flow cols 0 0 0 geo)
    else scatter (length ws) (resolve [] (isort geo_le geo)).

(** ** [compactVertically] *)

(** [Number(v) || d] *)
Definition number_or (v : option Z) (d : Z) : Z :=
  match v with
  | None => d
  | Some n => if n =? 0 then d else n
  end.

Definition raw_rect (d : DashboardWidget) : PackRect :=
  Rect (number_or (w_x d) 0) (number_or (w_y d) 0) (number_or (w_w d) 1) (number_or (w_h d) 1).

Definition collides (placed : list PackRect) (r : PackRect) : option PackRect :=
  List.find (λ p, rectsIntersect r p) placed.

(** [while (rect.y > 0 && !collides({ ...rect, y: rect.y - 1 })) rect.y -= 1;] *)
Fixpoint rise (fuel : nat) (placed : list PackRect) (r : PackRect) : PackRect :=
  match fuel with
  | O => r
  | S fuel =>
      if (ry r >? 0) && negb (bool_decide (is_Some (collides placed (at_y r (ry r - 1)))))
      then rise fuel placed (at_y r (ry r - 1))
      else r
  end.

(** [for (let hit = collides(rect); hit; hit = collides(rect)) rect.y = hit.y + hit.h;]
    Each placed rectangle is hit at most once ([drop_settles]). *)
Fixpoint drop_below (fuel : nat) (placed : list PackRect) (r : PackRect) : PackRect :=
  match fuel with
  | O => r
  | S fuel =>
      match collides placed r with
      | None => r
      | Some hit => drop_below fuel placed (at_y r (ry hit + rh hit))
      end
  end.

Definition settle (placed : list PackRect) (r : PackRect) : PackRect :=
  let r := at_y r (Z.min (bottom_edge placed) (ry r)) in
  let r := rise (Z.to_nat (ry r)) placed r in
  drop_below (length placed) placed r.

Record Indexed := mkIndexed { ix_w : DashboardWidget; ix_index : nat }.

Definition indexed_le (a b : Indexed) : bool :=
  (number_or (w_y (ix_w a)) 0 - number_or (w_y (ix_w b)) 0
     ||| (number_or (w_x (ix_w a)) 0 - number_or (w_x (ix_w b)) 0)
     ||| (Z.of_nat (ix_index a) - Z.of_nat (ix_index b))) <=? 0.

Fixpoint compact_loop (placed : list PackRect) (order : list Indexed)
    : list (nat * DashboardWidget) :=
  match order with
  | [] => []
  | e :: order' =>
      let rect := settle placed (raw_rect (ix_w e)) in
      (ix_index e, with_y (ix_w e) (ry rect)) :: compact_loop (placed ++ [rect]) order'
  end.

Definition compactVertically (ws : list DashboardWidget) : list DashboardWidget :=
  let geo := imap (λ k d, mkIndexed d k) ws in
  scatter (length ws) (compact_loop [] (isort indexed_le geo)).

Definition editGeometry (ws : list DashboardWidget) (cols : Z) : list DashboardWidget :=
  compactVertically (packWidgets ws cols).

(** ** Keyboard move and resize *)
Inductive MoveDir := MLeft | MRight | MUp | MDown.
Inductive ResizeDir := RWider | RNarrower | RTaller | RShorter.

Definition moveWidget (d : DashboardWidget) (dir : MoveDir) (cols : Z) : DashboardWidget :=
  let item := widgetToItem d cols in
  match dir with
  | MLeft => with_xy d (Z.max 0 (it_x item - 1)) (it_y item)
  | MRight => with_xy d (Z.min (cols - it_w item) (it_x item + 1)) (it_y item)
  | MUp => with_xy d (it_x item) (Z.max 0 (it_y item - 1))
  | MDown => with_xy d (it_x item) (Z.min MAX_ROWS (it_y item + 1))
  end.

(** [{ ...w, w, h }] *)
Definition with_size (d : DashboardWidget) (w h : Z) : DashboardWidget :=
  {| w_i := w_i d; w_id := w_id d; w_type := w_type d;
     w_x := w_x d; w_y := w_y d; w_w := Some w; w_h := Some h;
     w_minW := w_minW d; w_minH := w_minH d; w_static := w_static d;
     w_options := w_options d; w_config := w_config d |}.

Definition resizeWidget (d : DashboardWidget) (dir : ResizeDir) (cols : Z) : DashboardWidget :=
  let item := widgetToItem d cols in
  let minW := default 1 (it_minW item) in
  let minH := default 1 (it_minH item) in
  match dir with
  | RWider => with_size d (Z.min (cols - it_x item) (it_w item + 1)) (it_h item)
  | RNarrower => with_size d (Z.max minW (it_w item - 1)) (it_h item)
  | RTaller => with_size d (it_w item) (Z.min MAX_ROWS (it_h item + 1))
  | RShorter => with_size d (it_w item) (Z.max minH (it_h item - 1))
  end.

(** [normalizeWidget], with the fresh id it would draw as an argument. *)
Definition normalizeWidget (d : DashboardWidget) (freshId : string) : DashboardWidget :=
  let id := str_or (widgetId d) freshId in
  let item := widgetToItem
    {| w_i := Some id; w_id := w_id d; w_type := w_type d;
       w_x := w_x d; w_y := w_y d; w_w := w_w d; w_h := w_h d;
       w_minW := w_minW d; w_minH := w_minH d; w_static := w_static d;
       w_options := w_options d; w_config := w_config d |} GRID_COLS in
  {| w_i := Some id; w_id := w_id d; w_type := w_type d;
     w_x := Some (it_x item); w_y := Some (it_y item); w_w := Some (it_w item); w_h := Some (it_h item);
     w_minW := it_minW item; w_minH := it_minH item; w_static := Some (it_static item);
     w_options := Some (VObj (widgetOptions d)); w_config := w_config d |}.
