(* ===== verification/LayoutPack.v ===== *)
(** * Geometry lemmas and the packer's theorems *)

From S2P Require Import Prelude JsValue Layout.
Local Open Scope Z_scope.
Local Open Scope console_scope.

(** ** Rectangles *)
Lemma rectsIntersect_true a b :
  rectsIntersect a b = true ↔
  rx a < rx b + rw b ∧ rx b < rx a + rw a ∧ ry a < ry b + rh b ∧ ry b < ry a + rh a.
Proof. unfold rectsIntersect. rewrite !andb_true_iff, !Z.ltb_lt, !Z.gtb_lt. naive_solver. Qed.

Lemma rectsIntersect_false a b :
  rectsIntersect a b = false ↔
  rx b + rw b ≤ rx a ∨ rx a + rw a ≤ rx b ∨ ry b + rh b ≤ ry a ∨ ry a + rh a ≤ ry b.
Proof. rewrite <-not_true_iff_false, rectsIntersect_true. lia. Qed.

(** Two rectangles that share no cell. *)
Definition apart (a b : PackRect) : Prop := rectsIntersect a b = false.

#[export] Instance apart_sym : Symmetric apart.
Proof. intros a b. unfold apart. rewrite !rectsIntersect_false. lia. Qed.

#[export] Instance apart_dec a b : Decision (apart a b).
Proof. unfold apart. apply _. Defined.

(** No two rectangles of the list share a cell. *)
Abbreviation all_apart := (StronglySorted apart).

Lemma all_apart_snoc l r : all_apart l → Forall (apart r) l → all_apart (l ++ [r]).
Proof.
  intros Hl Hr. apply StronglySorted_app_2; [|done|repeat constructor].
  intros a b Ha ->%list_elem_of_singleton. symmetry.
  rewrite Forall_forall in Hr. by apply Hr.
Qed.

Lemma all_apart_Permutation l l' : l ≡ₚ l' → all_apart l → all_apart l'.
Proof. apply StronglySorted_sym_Permutation, _. Qed.

(** Sharing no cell does not depend on the order the rectangles are listed in. *)
#[export] Instance all_apart_Proper : Proper ((≡ₚ) ==> iff) (StronglySorted apart).
Proof. intros l l' Hp. split; apply all_apart_Permutation; by rewrite Hp. Qed.

Lemma at_y_id r : at_y r (ry r) = r.
Proof. by destruct r. Qed.

Lemma existsb_false_Forall r placed :
  existsb (rectsIntersect r) placed = false ↔ Forall (apart r) placed.
Proof.
  induction placed as [|p placed IH]; simpl; [split; [constructor|done]|].
  rewrite orb_false_iff, IH, Forall_cons. done.
Qed.

Lemma bottom_edge_snoc placed p :
  bottom_edge (placed ++ [p]) = Z.max (bottom_edge placed) (ry p + rh p).
Proof. unfold bottom_edge. by rewrite foldl_app. Qed.

Lemma bottom_edge_spec placed :
  0 ≤ bottom_edge placed ∧ Forall (λ p, ry p + rh p ≤ bottom_edge placed) placed.
Proof.
  induction placed as [|p placed IH] using rev_ind; [split; [done|constructor]|].
  rewrite bottom_edge_snoc. destruct IH as [H0 IH]. split; [lia|].
  apply Forall_app. split; [|repeat constructor; lia].
  eapply Forall_impl; [done|]. simpl. lia.
Qed.

Lemma bottom_edge_elem placed p : p ∈ placed → ry p + rh p ≤ bottom_edge placed.
Proof. destruct (bottom_edge_spec placed) as [_ H]. rewrite Forall_forall in H. apply H. Qed.

Lemma bottom_edge_nonneg placed : 0 ≤ bottom_edge placed.
Proof. apply bottom_edge_spec. Qed.

#[export] Hint Resolve bottom_edge_elem bottom_edge_nonneg : console.

(** ** Items *)
Lemma clampInt_bounds v lo hi d :
  lo ≤ hi → lo ≤ d ≤ hi → lo ≤ clampInt v lo hi d ≤ hi.
Proof. unfold clampInt. destruct v; lia. Qed.

Lemma clampInt_id n lo hi d : lo ≤ n ≤ hi → clampInt (Some n) lo hi d = n.
Proof. unfold clampInt. lia. Qed.

Lemma widgetToItem_bounds d cols (g := widgetToItem d cols) :
  1 ≤ cols →
  1 ≤ it_w g ∧ 1 ≤ it_h g ≤ MAX_ROWS ∧ 0 ≤ it_x g ∧ it_x g + it_w g ≤ cols ∧
  0 ≤ it_y g ≤ MAX_ROWS.
Proof.
  intros Hc. unfold g, widgetToItem; simpl.
  pose proof (clampInt_bounds (w_w d) 1 cols (Z.min 4 cols)).
  pose proof (clampInt_bounds (w_h d) 1 MAX_ROWS 4).
  pose proof (clampInt_bounds (w_y d) 0 MAX_ROWS 0).
  set (ww := clampInt (w_w d) 1 cols _) in *.
  pose proof (clampInt_bounds (w_x d) 0 (Z.max 0 (cols - ww)) 0).
  unfold MAX_ROWS in *. lia.
Qed.

Lemma raw_rect_with_geometry d x y w h :
  w ≠ 0 → h ≠ 0 → raw_rect (with_geometry d x y w h) = Rect x y w h.
Proof.
  intros Hw Hh. unfold raw_rect, number_or; simpl.
  rewrite (proj2 (Z.eqb_neq w 0)), (proj2 (Z.eqb_neq h 0)) by done.
  f_equal; case_match eqn:E; try lia.
Qed.

(** [b] is [a] at another place, at its own clamped size. *)
Definition same_widget (cols : Z) (a b : DashboardWidget) : Prop :=
  let g := widgetToItem a cols in ∃ x y, b = with_geometry a x y (it_w g) (it_h g).

(** ** [push_down] *)
Lemma push_down_settles_fuel fuel placed r :
  bottom_edge placed - ry r ≤ Z.of_nat fuel →
  ry r ≤ push_down fuel placed r ∧
  Forall (apart (at_y r (push_down fuel placed r))) placed.
Proof.
  revert r. induction fuel as [|fuel IH]; intros r Hf; simpl.
  - split; [done|]. apply Forall_forall. intros p Hp%bottom_edge_elem.
    unfold apart. rewrite rectsIntersect_false. simpl. lia.
  - destruct (existsb (rectsIntersect r) placed) eqn:E.
    + destruct (IH (at_y r (ry r + 1))) as [Hle Hall]; [simpl; lia|].
      simpl in *. split; [lia|done].
    + split; [done|]. apply existsb_false_Forall in E. by destruct r.
Qed.

Lemma push_down_settles placed r (y := push_down (push_fuel placed r) placed r) :
  ry r ≤ y ∧ Forall (apart (at_y r y)) placed.
Proof. apply push_down_settles_fuel. unfold push_fuel. lia. Qed.

Lemma push_down_id fuel placed r : Forall (apart r) placed → push_down fuel placed r = ry r.
Proof. intros H%existsb_false_Forall. destruct fuel; simpl; [done|]. by rewrite H. Qed.

(** ** The collision regime *)
Lemma resolve_fst placed order : (resolve placed order).*1 = geo_i <$> order.
Proof. revert placed. induction order; intros placed; simpl; f_equal; auto. Qed.

(** What [geo] holds: clamped, positive items. *)
Definition geo_ok (cols : Z) (e : Geo) : Prop :=
  geo_g e = widgetToItem (geo_w e) cols.

Definition in_grid (cols : Z) (r : PackRect) : Prop :=
  1 ≤ rw r ∧ 1 ≤ rh r ∧ 0 ≤ rx r ∧ rx r + rw r ≤ cols ∧ 0 ≤ ry r.

Lemma resolve_apart cols placed order :
  1 ≤ cols → Forall (geo_ok cols) order → all_apart placed →
  all_apart (placed ++ (raw_rect <$> (resolve placed order).*2)).
Proof.
  intros Hc. revert placed. induction order as [|e order IH]; intros placed Hok Hpl; simpl.
  { by rewrite app_nil_r. }
  apply Forall_cons in Hok as [He Hok]. unfold geo_ok in He.
  destruct (widgetToItem_bounds (geo_w e) cols Hc) as (Hw & Hh & _). rewrite <-He in *.
  rewrite raw_rect_with_geometry by lia.
  rewrite cons_middle, app_assoc. apply IH; [done|].
  apply all_apart_snoc; [done|]. apply push_down_settles.
Qed.

Lemma resolve_kept cols placed order :
  1 ≤ cols → Forall (geo_ok cols) order →
  Forall2 (λ e o, ∃ y, it_y (geo_g e) ≤ y ∧
             o.2 = with_geometry (geo_w e) (it_x (geo_g e)) y (it_w (geo_g e)) (it_h (geo_g e)))
    order (resolve placed order).
Proof.
  intros Hc. revert placed. induction order as [|e order IH]; intros placed Hok; simpl;
    constructor; apply Forall_cons in Hok as [He Hok]; [|by apply IH].
  eexists; split; [|done]. apply (push_down_settles placed (rect_of_item (geo_g e))).
Qed.

(** ** The flow regime *)
Lemma flow_fst cols cx rowY rowH geo : (flow cols cx rowY rowH geo).*1 = geo_i <$> geo.
Proof.
  revert cx rowY rowH. induction geo as [|e geo IH]; intros; simpl; [done|].
  destruct (_ >? _); simpl; by rewrite IH.
Qed.

(** Every placed rectangle ends above the current row, or sits in it left of the cursor. *)
Definition flow_inv (placed : list PackRect) (cx rowY rowH : Z) : Prop :=
  Forall (λ p, ry p + rh p ≤ rowY ∨
               (ry p = rowY ∧ rx p + rw p ≤ cx ∧ rh p ≤ rowH)) placed.

Lemma flow_apart cols placed cx rowY rowH geo :
  1 ≤ cols → Forall (geo_ok cols) geo → all_apart placed → flow_inv placed cx rowY rowH →
  0 ≤ cx → 0 ≤ rowY → 0 ≤ rowH →
  let out := raw_rect <$> (flow cols cx rowY rowH geo).*2 in
  all_apart (placed ++ out) ∧ Forall (in_grid cols) out.
Proof.
  intros Hc. revert placed cx rowY rowH.
  induction geo as [|e geo IH]; intros placed cx rowY rowH Hok Hpl Hinv Hx Hy Hh; simpl.
  { rewrite app_nil_r. split; [done|constructor]. }
  apply Forall_cons in Hok as [He Hok]. unfold geo_ok in He.
  destruct (widgetToItem_bounds (geo_w e) cols Hc) as (Hw & Hh' & Hgx & Hgw & _).
  rewrite <-He in *. set (g := geo_g e) in *.
  rewrite (Z.min_l (it_w g) cols) by lia.
  assert (∃ cx' rowY' rowH', (if cx + it_w g >? cols then (0, rowY + rowH, 0) else (cx, rowY, rowH))
            = (cx', rowY', rowH') ∧ flow_inv placed cx' rowY' rowH' ∧
            0 ≤ cx' ∧ cx' + it_w g ≤ cols ∧ 0 ≤ rowY' ∧ 0 ≤ rowH')
    as (cx' & rowY' & rowH' & -> & Hinv' & ? & ? & ? & ?).
  { destruct (Z.gtb_spec (cx + it_w g) cols); do 3 eexists; split_and!; try done; try lia.
    eapply Forall_impl; [exact Hinv|].
    intros p Hp. simpl in *. lia. }
  simpl. rewrite raw_rect_with_geometry by lia. rewrite cons_middle, app_assoc.
  destruct (IH (placed ++ [Rect cx' rowY' (it_w g) (it_h g)])
              (cx' + it_w g) rowY' (Z.max rowH' (it_h g))) as [Ha Hg]; try done; try lia.
  - apply all_apart_snoc; [done|]. eapply Forall_impl; [exact Hinv'|].
    intros p Hp. unfold apart. rewrite rectsIntersect_false. simpl in *.
    lia.
  - apply Forall_app. split; [|repeat constructor; simpl; lia].
    eapply Forall_impl; [exact Hinv'|].
    intros p Hp. simpl in *. lia.
  - split; [done|]. constructor; [|done]. unfold in_grid; simpl. lia.
Qed.

Lemma flow_kept cols cx rowY rowH geo :
  1 ≤ cols → Forall (geo_ok cols) geo →
  Forall2 (λ e o, same_widget cols (geo_w e) o.2) geo (flow cols cx rowY rowH geo).
Proof.
  intros Hc. revert cx rowY rowH.
  induction geo as [|e geo IH]; intros cx rowY rowH Hok; simpl; [constructor|].
  apply Forall_cons in Hok as [He Hok]. unfold geo_ok in He.
  destruct (widgetToItem_bounds (geo_w e) cols Hc) as (_ & _ & ? & ? & _).
  rewrite (Z.min_l _ cols) by (rewrite He; lia). unfold same_widget. rewrite He.
  destruct (_ >? _); (constructor; [by repeat eexists|by apply IH]).
Qed.

(** ** [packWidgets] *)
Lemma geometry_ok ws cols : Forall (geo_ok cols) (geometry ws cols).
Proof.
  apply Forall_lookup. intros k e. unfold geometry. rewrite list_lookup_imap.
  intros (d & Hd & ->)%fmap_Some. done.
Qed.

Lemma geometry_i ws cols : geo_i <$> geometry ws cols = seq 0 (length ws).
Proof.
  apply list_eq. intros k. unfold geometry. rewrite list_lookup_fmap, list_lookup_imap.
  destruct (ws !! k) eqn:E; simpl.
  - symmetry. apply lookup_seq. split; [lia|by eapply lookup_lt_Some].
  - symmetry. apply lookup_ge_None. rewrite length_seq. by apply lookup_ge_None.
Qed.

Lemma geometry_w ws cols : geo_w <$> geometry ws cols = ws.
Proof.
  apply list_eq. intros k. unfold geometry. rewrite list_lookup_fmap, list_lookup_imap.
  by destruct (ws !! k).
Qed.

Lemma geometry_elem ws cols e :
  e ∈ geometry ws cols ↔ ws !! geo_i e = Some (geo_w e) ∧ geo_ok cols e.
Proof.
  unfold geometry. rewrite list_elem_of_lookup. split.
  - intros [k Hk]. rewrite list_lookup_imap in Hk.
    apply fmap_Some in Hk as (d & Hd & ->). done.
  - intros [Hd Ho]. exists (geo_i e). rewrite list_lookup_imap, Hd. simpl.
    unfold geo_ok in Ho. destruct e; simpl in *. by subst.
Qed.

Lemma geo_le_spec a b :
  geo_le a b ↔
  it_y (geo_g a) < it_y (geo_g b) ∨
  (it_y (geo_g a) = it_y (geo_g b) ∧
   (it_x (geo_g a) < it_x (geo_g b) ∨
    (it_x (geo_g a) = it_x (geo_g b) ∧ (geo_i a ≤ geo_i b)%nat))).
Proof.
  unfold geo_le, js_or. rewrite Is_true_true, Z.leb_le.
  repeat case_match; rewrite ?Z.eqb_eq, ?Z.eqb_neq in *; lia.
Qed.

Lemma resolve_writes ws cols :
  (resolve [] (isort geo_le (geometry ws cols))).*1 ≡ₚ seq 0 (length ws).
Proof. by rewrite resolve_fst, isort_Permutation, geometry_i. Qed.

Lemma flow_writes ws cols :
  (flow cols 0 0 0 (geometry ws cols)).*1 ≡ₚ seq 0 (length ws).
Proof. by rewrite flow_fst, geometry_i. Qed.

(** One widget of the result is the input widget of that index with new geometry. *)
Lemma scatter_same cols ws (es : list Geo) (outs : list (nat * DashboardWidget)) :
  outs.*1 ≡ₚ seq 0 (length ws) → outs.*1 = geo_i <$> es →
  Forall (λ e, ws !! geo_i e = Some (geo_w e)) es →
  Forall2 (λ e o, same_widget cols (geo_w e) o.2) es outs →
  Forall2 (same_widget cols) ws (scatter (length ws) outs).
Proof.
  intros Hp Hfst Hes Hsame. apply scatter_Forall2; [done|].
  apply Forall_lookup. intros j o Hj.
  destruct (Forall2_lookup_r _ _ _ _ _ Hsame Hj) as (e & He & Hsw).
  exists (geo_w e). split; [|done].
  assert (outs.*1 !! j = Some o.1) as H1 by (by rewrite list_lookup_fmap, Hj).
  rewrite Hfst, list_lookup_fmap, He in H1. simplify_eq/=. rewrite <-H1.
  rewrite Forall_lookup in Hes. by apply (Hes j e).
Qed.

Lemma geometry_sorted_w ws cols :
  Forall (λ e, ws !! geo_i e = Some (geo_w e)) (isort geo_le (geometry ws cols)).
Proof.
  rewrite isort_Permutation. apply Forall_forall. by intros e [? _]%geometry_elem.
Qed.

Lemma resolve_same cols placed order :
  1 ≤ cols → Forall (geo_ok cols) order →
  Forall2 (λ e o, same_widget cols (geo_w e) o.2) order (resolve placed order).
Proof.
  intros Hc Hok. apply Forall2_same_length_lookup_2.
  { by rewrite <-(length_fmap fst (resolve _ _)), resolve_fst, length_fmap. }
  intros k e o He Ho.
  destruct (Forall2_lookup_lr _ _ _ _ _ _ (resolve_kept cols placed order Hc Hok) He Ho)
    as (yy & _ & ->).
  rewrite Forall_lookup in Hok. specialize (Hok k e He). unfold geo_ok in Hok.
  unfold same_widget. rewrite Hok. by repeat eexists.
Qed.

(** The result of packing two or more widgets: which list of writes it is. *)
Lemma packWidgets_cases ws cols (P : list DashboardWidget → Prop) :
  ((length ws ≤ 1)%nat → P ws) →
  ((2 ≤ length ws)%nat →
   Forall (λ e, it_x (geo_g e) = 0 ∧ it_y (geo_g e) = 0) (geometry ws cols) →
   P (scatter (length ws) (flow cols 0 0 0 (geometry ws cols)))) →
  ((2 ≤ length ws)%nat → P (scatter (length ws) (resolve [] (isort geo_le (geometry ws cols))))) →
  P (packWidgets ws cols).
Proof.
  intros H1 Hf Hr. unfold packWidgets.
  destruct (Nat.leb_spec (length ws) 1); [by apply H1|].
  destruct (forallb _ _) eqn:E; [|apply Hr; lia].
  apply Hf; [lia|]. apply Forall_forall. intros e He.
  rewrite forallb_forall in E. specialize (E e (proj1 (list_elem_of_In _ _) He)). simpl in E. lia.
Qed.

Lemma packWidgets_same ws cols :
  1 ≤ cols → (2 ≤ length ws)%nat → Forall2 (same_widget cols) ws (packWidgets ws cols).
Proof.
  intros Hc. apply packWidgets_cases; [lia|intros _ _ _|intros _ _].
  - apply (scatter_same cols _ (geometry ws cols));
      [apply flow_writes|apply flow_fst| |apply flow_kept, geometry_ok; done].
    apply Forall_forall. by intros e [? _]%geometry_elem.
  - eapply scatter_same; [apply resolve_writes|apply resolve_fst|apply geometry_sorted_w|].
    apply (resolve_same cols); [done|]. rewrite isort_Permutation. apply geometry_ok.
Qed.

Lemma packWidgets_rects ws cols :
  1 ≤ cols → (2 ≤ length ws)%nat →
  let out := raw_rect <$> packWidgets ws cols in all_apart out ∧ Forall (in_grid cols) out.
Proof.
  intros Hc. apply packWidgets_cases; [lia|intros _ _ _|intros _ _]; simpl.
  - destruct (flow_apart cols [] 0 0 0 (geometry ws cols)) as [Ha Hg];
      [done|apply geometry_ok|by apply SSorted_nil|by apply List.Forall_nil|done..|].
    by rewrite scatter_Permutation by apply flow_writes.
  - assert (Forall (geo_ok cols) (isort geo_le (geometry ws cols))) as Hok.
    { rewrite isort_Permutation. apply geometry_ok. }
    split.
    + rewrite scatter_Permutation by apply resolve_writes.
      apply (resolve_apart cols []); [done..|by apply SSorted_nil].
    + rewrite scatter_Permutation by apply resolve_writes.
      apply Forall_fmap, Forall_fmap, Forall_lookup. intros k o Hk.
      destruct (Forall2_lookup_r _ _ _ _ _ (resolve_kept cols [] _ Hc Hok) Hk) as (e & He & yy & Hy & Ho).
      simpl. rewrite Ho. rewrite Forall_lookup in Hok. specialize (Hok k e He).
      destruct (widgetToItem_bounds (geo_w e) cols Hc) as (? & ? & ? & ? & ?).
      rewrite <-Hok in *. rewrite raw_rect_with_geometry by lia. unfold in_grid; simpl. lia.
Qed.

(** ** A layout that is already valid *)

(** The stored geometry is the clamped one: nothing is missing or out of range. *)
Definition clean (cols : Z) (d : DashboardWidget) : Prop :=
  let g := widgetToItem d cols in
  with_geometry d (it_x g) (it_y g) (it_w g) (it_h g) = d.

Lemma clean_intro cols d x y w h :
  w_x d = Some x → w_y d = Some y → w_w d = Some w → w_h d = Some h →
  1 ≤ w → 0 ≤ x → x + w ≤ cols → 1 ≤ h ≤ MAX_ROWS → 0 ≤ y ≤ MAX_ROWS →
  clean cols d ∧ rect_of_item (widgetToItem d cols) = Rect x y w h.
Proof.
  intros Hx Hy Hw Hh ?????. unfold clean, rect_of_item, widgetToItem; simpl.
  rewrite Hx, Hy, Hw, Hh, (clampInt_id w) by lia. rewrite !clampInt_id by lia.
  split; [|done]. destruct d; simpl in *. by subst.
Qed.

Lemma clean_rect cols d :
  1 ≤ cols → clean cols d → raw_rect d = rect_of_item (widgetToItem d cols).
Proof.
  intros Hc Hd. destruct (widgetToItem_bounds d cols Hc) as (? & ? & ? & ? & ?).
  rewrite <-Hd at 1. apply raw_rect_with_geometry; lia.
Qed.

Lemma resolve_id cols placed order :
  1 ≤ cols → Forall (λ e, clean cols (geo_w e) ∧ geo_ok cols e) order →
  all_apart (placed ++ (raw_rect ∘ geo_w <$> order)) →
  resolve placed order = (λ e, (geo_i e, geo_w e)) <$> order.
Proof.
  intros Hc. revert placed. induction order as [|e order IH]; intros placed Hok Hap; simpl; [done|].
  apply Forall_cons in Hok as [[Hcl He] Hok]. unfold geo_ok in He.
  assert (rect_of_item (geo_g e) = raw_rect (geo_w e)) as Hr.
  { rewrite He. symmetry. by apply clean_rect. }
  rewrite push_down_id.
  - f_equal.
    + f_equal. rewrite He. simpl. apply Hcl.
    + rewrite Hr, IH; [done..|]. simpl in Hap. rewrite cons_middle, app_assoc in Hap.
      by rewrite at_y_id.
  - rewrite Hr. apply Forall_forall. intros p Hp.
    apply StronglySorted_app in Hap as (Hap & _ & _). symmetry.
    apply Hap; [done|]. left.
Qed.

Lemma pair_not_apart_origin a b :
  1 ≤ rw a → 1 ≤ rh a → 1 ≤ rw b → 1 ≤ rh b → rx a = 0 → ry a = 0 → rx b = 0 → ry b = 0 →
  ¬ apart a b.
Proof. unfold apart. rewrite rectsIntersect_false. lia. Qed.

Lemma packWidgets_clean_id ws cols :
  1 ≤ cols → Forall (clean cols) ws → all_apart (raw_rect <$> ws) → packWidgets ws cols = ws.
Proof.
  intros Hc Hcl Hap. apply packWidgets_cases; [done|intros Hl Hor|intros _].
  - exfalso. destruct ws as [|a [|b ws]]; simpl in Hl; [lia..|].
    apply Forall_cons in Hcl as [Ha Hcl]. apply Forall_cons in Hcl as [Hb _].
    simpl in Hap. apply StronglySorted_inv in Hap as [_ [Hab _]%Forall_cons].
    apply Forall_cons in Hor as [[Hax Hay] Hor]. apply Forall_cons in Hor as [[Hbx Hby] _].
    simpl in *. rewrite !(clean_rect cols) in Hab by done.
    destruct (widgetToItem_bounds a cols Hc) as (? & ? & _).
    destruct (widgetToItem_bounds b cols Hc) as (? & ? & _).
    revert Hab.
    apply pair_not_apart_origin; simpl in *; lia.
  - rewrite (resolve_id cols); [|done|..].
    + apply scatter_eq; [|done|].
      * by rewrite <-list_fmap_compose, isort_Permutation, geometry_i.
      * intros k d (e & [= -> ->] & He)%list_elem_of_fmap.
        rewrite elem_of_isort in He. by apply geometry_elem in He as [? _].
    + rewrite isort_Permutation. apply Forall_forall. intros e [He Hok]%geometry_elem.
      split; [|done]. rewrite Forall_lookup in Hcl. eauto.
    + simpl. rewrite list_fmap_compose. rewrite isort_Permutation, geometry_w. done.
Qed.

(** A board of three widgets. *)
Definition demo_widget (i : string) (x y w h : Z) : DashboardWidget :=
  {| w_i := Some i; w_id := None; w_type := "kpi";
     w_x := Some x; w_y := Some y; w_w := Some w; w_h := Some h;
     w_minW := None; w_minH := None; w_static := None; w_options := None; w_config := None |}.

Definition demo_board : list DashboardWidget :=
  [demo_widget "a" 0 0 6 3; demo_widget "b" 6 0 6 5; demo_widget "c" 0 5 12 2].

(** ** Theorems *)

(** Packing two or more widgets never loses, duplicates, reorders or re-types one: the
    result lists the same widgets in the same order with new geometry, no two of them share
    a cell, and each lies inside the [cols]-wide grid. The [while] loop that pushes a
    widget down always ends with it clear of everything placed. *)
Theorem packWidgets_sound ws cols :
  1 ≤ cols → (2 ≤ length ws)%nat →
  Forall2 (same_widget cols) ws (packWidgets ws cols) ∧
  all_apart (raw_rect <$> packWidgets ws cols) ∧
  Forall (in_grid cols) (raw_rect <$> packWidgets ws cols).
Proof.
  intros Hc Hl. destruct (packWidgets_rects ws cols Hc Hl).
  split_and!; [by apply packWidgets_same|done..].
Qed.

Lemma packWidgets_sound_witness :
  all_apart (raw_rect <$> packWidgets [demo_widget "a" 0 0 6 3; demo_widget "b" 3 1 6 3] 12).
Proof.
  refine (proj1 (proj2 (packWidgets_sound [demo_widget "a" 0 0 6 3; demo_widget "b" 3 1 6 3] 12 _ _)));
    simpl; lia.
Defined.

(** A valid saved layout (in range, no two widgets overlapping) is returned unchanged. *)
Theorem packWidgets_respects_saved ws cols :
  1 ≤ cols → Forall (clean cols) ws → all_apart (raw_rect <$> ws) → packWidgets ws cols = ws.
Proof. apply packWidgets_clean_id. Qed.

Lemma packWidgets_respects_saved_witness : packWidgets demo_board 12 = demo_board.
Proof.
  apply (packWidgets_respects_saved demo_board 12); [lia|repeat constructor..].
Defined.
