(* ===== verification/LayoutCompact.v ===== *)
(** * Vertical compaction: termination, disjointness, support, idempotence *)

From S2P Require Import Prelude JsValue Layout LayoutPack.
Local Open Scope Z_scope.
Local Open Scope console_scope.

Lemma collides_None placed r : collides placed r = None ↔ Forall (apart r) placed.
Proof.
  unfold collides. induction placed as [|p placed IH]; simpl; [split; [constructor|done]|].
  rewrite Forall_cons, <-IH. unfold apart. destruct (rectsIntersect r p); naive_solver.
Qed.

Lemma collides_Some placed r p :
  collides placed r = Some p → p ∈ placed ∧ rectsIntersect r p = true.
Proof. intros [Hin Hi]%List.find_some. split; [by apply list_elem_of_In|done]. Qed.

Lemma collides_is_Some placed r p :
  p ∈ placed → rectsIntersect r p = true → is_Some (collides placed r).
Proof.
  intros Hp Hi. destruct (collides placed r) eqn:E; [done|].
  apply collides_None in E. rewrite Forall_forall in E.
  specialize (E p Hp). unfold apart in E. congruence.
Qed.

(** [r] sits on the bottom edge of one of [rs], under some of its columns, or at the top. *)
Definition supported (rs : list PackRect) (r : PackRect) : Prop :=
  ry r ≤ 0 ∨
  ∃ p, p ∈ rs ∧ ry p + rh p = ry r ∧ rx p < rx r + rw r ∧ rx r < rx p + rw p.

Lemma supported_mono rs rs' r : rs ⊆ rs' → supported rs r → supported rs' r.
Proof. intros Hsub [?|(p & ? & ?)]; [by left|right; exists p; set_solver]. Qed.

(** Only the row of [r] differs between [r] and [r']. *)
Definition same_column (r r' : PackRect) : Prop := r' = at_y r (ry r').

(** ** The upward loop *)
Lemma rise_spec fuel placed r :
  ry r ≤ Z.of_nat fuel →
  let r' := rise fuel placed r in
  same_column r r' ∧ ry r' ≤ ry r ∧ (0 ≤ ry r → 0 ≤ ry r') ∧
  (ry r' ≤ 0 ∨ is_Some (collides placed (at_y r' (ry r' - 1)))) ∧
  (Forall (apart r) placed → Forall (apart r') placed).
Proof.
  unfold same_column. revert r. induction fuel as [|fuel IH]; intros r Hf; simpl.
  - split_and!; [by destruct r|lia..|left; lia|done].
  - destruct (Z.gtb_spec (ry r) 0) as [Hy|Hy]; simpl; [|split_and!; [by destruct r|lia..|by left|done]].
    destruct (collides placed (at_y r (ry r - 1))) as [p|] eqn:E; simpl.
    + split_and!; [by destruct r|lia..|right; rewrite E; eauto|done].
    + destruct (IH (at_y r (ry r - 1))) as (H1 & H2 & H3 & H4 & H5); [simpl; lia|].
      simpl in *. split_and!; [done|lia|lia|done|].
      intros _. apply H5. by apply collides_None.
Qed.

Lemma rise_id fuel placed r :
  ry r ≤ 0 ∨ is_Some (collides placed (at_y r (ry r - 1))) → rise fuel placed r = r.
Proof.
  intros H. destruct fuel; simpl; [done|].
  destruct (Z.gtb_spec (ry r) 0) as [Hy|Hy]; simpl; [|done].
  destruct H as [?|[p ->]]; [lia|done].
Qed.

(** ** The downward loop *)

(** Placed rectangles that end below the row of [r]: the only ones it can still hit. *)
Definition below (placed : list PackRect) (yy : Z) : list PackRect :=
  filter (λ p, yy < ry p + rh p) placed.

Lemma below_lt placed yy p :
  p ∈ placed → yy < ry p + rh p →
  (length (below placed (ry p + rh p)) < length (below placed yy))%nat.
Proof.
  intros Hp Hy. induction placed as [|q placed IH]; [by apply elem_of_nil in Hp|].
  assert (∀ l, (length (below l (ry p + rh p)) ≤ length (below l yy))%nat) as Hmono.
  { clear -Hy. intros l. unfold below. induction l as [|a l IHl]; simpl; [done|].
    rewrite !filter_cons. repeat case_decide; simpl; lia. }
  unfold below in *. apply elem_of_cons in Hp as [<-|Hp]; rewrite !filter_cons.
  - rewrite decide_False by lia. rewrite decide_True by lia. simpl. specialize (Hmono placed). lia.
  - specialize (IH Hp). repeat case_decide; simpl; lia.
Qed.

Lemma drop_spec fuel placed r :
  (length (below placed (ry r)) ≤ fuel)%nat →
  let r' := drop_below fuel placed r in
  same_column r r' ∧ ry r ≤ ry r' ∧ Forall (apart r') placed ∧
  (r' = r ∨ (∃ p, p ∈ placed ∧ ry p + rh p = ry r' ∧ rx p < rx r' + rw r' ∧ rx r' < rx p + rw p)).
Proof.
  unfold same_column. revert r. induction fuel as [|fuel IH]; intros r Hf; simpl.
  - split_and!; [by destruct r|done| |by left].
    apply Forall_forall. intros p Hp. unfold apart. apply rectsIntersect_false.
    destruct (decide (ry r < ry p + rh p)) as [Hlt|]; [|lia].
    pose proof (below_lt placed (ry r) p Hp Hlt). lia.
  - destruct (collides placed r) as [p|] eqn:E.
    + apply collides_Some in E as [Hp Hi%rectsIntersect_true].
      destruct (IH (at_y r (ry p + rh p))) as (H1 & H2 & H3 & H4).
      { simpl. pose proof (below_lt placed (ry r) p Hp). lia. }
      simpl in *. split_and!; [done|lia|done|right].
      destruct H4 as [->|H4]; [|done]. exists p. simpl. split_and!; [done|lia..].
    + apply collides_None in E. split_and!; [by destruct r|done|done|by left].
Qed.

Lemma drop_id fuel placed r : Forall (apart r) placed → drop_below fuel placed r = r.
Proof. intros H%collides_None. destruct fuel; simpl; [done|]. by rewrite H. Qed.

(** ** One widget *)
Lemma settle_spec placed r :
  1 ≤ rh r → let r' := settle placed r in
  same_column r r' ∧ Forall (apart r') placed ∧ supported placed r' ∧
  (0 ≤ ry r → 0 ≤ ry r') ∧ ry r' ≤ bottom_edge placed.
Proof.
  intros Hh. unfold settle. set (r0 := at_y r (Z.min (bottom_edge placed) (ry r))).
  destruct (rise_spec (Z.to_nat (ry r0)) placed r0) as (Hc1 & Hle1 & Hp1 & Hend1 & _); [lia|].
  set (r1 := rise _ _ r0) in *.
  destruct (drop_spec (length placed) placed r1) as (Hc2 & Hle2 & Hap & Hend2).
  { unfold below. apply length_filter. }
  set (r2 := drop_below _ _ r1) in *. unfold same_column in *.
  pose proof (bottom_edge_nonneg placed) as Hb.
  assert (rx r1 = rx r ∧ rw r1 = rw r ∧ rh r1 = rh r) as (Ex & Ew & Eh) by (by rewrite Hc1).
  assert (rx r2 = rx r ∧ rw r2 = rw r ∧ rh r2 = rh r) as (Ex2 & Ew2 & Eh2) by (by rewrite Hc2).
  split_and!.
  - rewrite Hc2, Hc1. done.
  - done.
  - destruct Hend2 as [E2|Hs]; [|by right]. rewrite E2 in *.
    destruct Hend1 as [Hz|[p Hp]]; [by left|right].
    apply collides_Some in Hp as [Hp Hi%rectsIntersect_true]. simpl in Hi.
    rewrite Forall_forall in Hap. specialize (Hap p Hp). unfold apart in Hap.
    apply rectsIntersect_false in Hap. exists p. split_and!; [done|lia..].
  - intros Hy. assert (0 ≤ ry r0) as H0 by (unfold r0; simpl; lia).
    specialize (Hp1 H0). lia.
  - destruct Hend2 as [->|(p & Hp & Hpy & _)].
    + simpl in Hle1. unfold r0 in Hle1. simpl in Hle1. lia.
    + apply bottom_edge_elem in Hp. lia.
Qed.

(** A rectangle that touches nothing and is supported does not move. *)
Lemma settle_id placed r :
  1 ≤ rh r → Forall (λ p, 1 ≤ rh p) placed →
  Forall (apart r) placed → supported placed r → settle placed r = r.
Proof.
  intros Hh Hpos Hap Hs. unfold settle.
  assert (Z.min (bottom_edge placed) (ry r) = ry r) as ->.
  { apply Z.min_r. destruct Hs as [?|(p & Hp & <- & _)]; [|by apply bottom_edge_elem].
    pose proof (bottom_edge_nonneg placed). lia. }
  rewrite at_y_id, rise_id.
  - by apply drop_id.
  - destruct Hs as [?|(p & Hp & Hpy & Hx1 & Hx2)]; [by left|right].
    rewrite Forall_forall in Hpos. specialize (Hpos p Hp). simpl in Hpos.
    apply (collides_is_Some _ _ p Hp). apply rectsIntersect_true. simpl. lia.
Qed.

(** ** The whole pass *)
Definition order_of (ws : list DashboardWidget) : list Indexed :=
  isort indexed_le (imap (λ k d, mkIndexed d k) ws).

Lemma compact_fst placed order : (compact_loop placed order).*1 = ix_index <$> order.
Proof. revert placed. induction order; intros placed; simpl; f_equal; auto. Qed.

Lemma indexed_index ws : ix_index <$> imap (λ k d, mkIndexed d k) ws = seq 0 (length ws).
Proof.
  apply list_eq. intros k. rewrite list_lookup_fmap, list_lookup_imap.
  destruct (ws !! k) eqn:E; simpl.
  - symmetry. apply lookup_seq. split; [lia|by eapply lookup_lt_Some].
  - symmetry. apply lookup_ge_None. rewrite length_seq. by apply lookup_ge_None.
Qed.

Lemma order_elem ws e : e ∈ order_of ws ↔ ws !! ix_index e = Some (ix_w e).
Proof.
  unfold order_of. rewrite elem_of_isort, list_elem_of_lookup. split.
  - intros [k Hk]. rewrite list_lookup_imap in Hk. by apply fmap_Some in Hk as (d & Hd & ->).
  - intros Hd. exists (ix_index e). rewrite list_lookup_imap, Hd. simpl. by destruct e.
Qed.

Lemma order_index ws : ix_index <$> order_of ws ≡ₚ seq 0 (length ws).
Proof. unfold order_of. by rewrite isort_Permutation, indexed_index. Qed.

Lemma order_w ws : ix_w <$> order_of ws ≡ₚ ws.
Proof.
  unfold order_of. rewrite isort_Permutation.
  replace (ix_w <$> imap (λ k d, mkIndexed d k) ws) with ws; [done|].
  apply list_eq. intros k. rewrite list_lookup_fmap, list_lookup_imap. by destruct (ws !! k).
Qed.

Lemma compact_writes ws : (compact_loop [] (order_of ws)).*1 ≡ₚ seq 0 (length ws).
Proof. by rewrite compact_fst, order_index. Qed.

Lemma length_compactVertically ws : length (compactVertically ws) = length ws.
Proof. unfold compactVertically. apply length_scatter, compact_writes. Qed.

Lemma number_or_nonzero v d : d ≠ 0 → number_or v d ≠ 0.
Proof. unfold number_or. destruct v as [n|]; [|done]. destruct (Z.eqb_spec n 0); done. Qed.

Lemma raw_rect_with_y d yy : raw_rect (with_y d yy) = at_y (raw_rect d) yy.
Proof. unfold raw_rect, number_or; simpl. unfold at_y; simpl. f_equal. case_match eqn:E; lia. Qed.

Definition positive_heights (ws : list DashboardWidget) : Prop :=
  Forall (λ d, 1 ≤ rh (raw_rect d)) ws.

(** The rectangles one run of the loop places, in processing order. *)
Fixpoint settled_rects (placed : list PackRect) (rs : list PackRect) : list PackRect :=
  match rs with
  | [] => []
  | r :: rs' => settle placed r :: settled_rects (placed ++ [settle placed r]) rs'
  end.

Lemma settle_same_column placed r : 1 ≤ rh r → settle placed r = at_y r (ry (settle placed r)).
Proof. intros Hh. apply settle_spec, Hh. Qed.

Lemma compact_loop_zip placed order :
  compact_loop placed order =
  zip_with (λ e r, (ix_index e, with_y (ix_w e) (ry r)))
    order (settled_rects placed (raw_rect ∘ ix_w <$> order)).
Proof.
  revert placed. induction order as [|e order IH]; intros placed; simpl; [done|]. by rewrite IH.
Qed.

Lemma length_settled_rects placed rs : length (settled_rects placed rs) = length rs.
Proof. revert placed. induction rs; intros placed; simpl; auto. Qed.

Lemma settled_rects_spec placed rs :
  Forall (λ r, 1 ≤ rh r) rs → all_apart placed →
  let out := settled_rects placed rs in
  all_apart (placed ++ out) ∧ Forall (supported (placed ++ out)) out ∧
  Forall2 (λ r r', same_column r r' ∧ (0 ≤ ry r → 0 ≤ ry r')) rs out.
Proof.
  revert placed. induction rs as [|r rs IH]; intros placed Hpos Hap; simpl.
  { rewrite app_nil_r. split_and!; [done|constructor..]. }
  apply Forall_cons in Hpos as [Hr Hpos].
  destruct (settle_spec placed r Hr) as (Hc & Hapr & Hs & H0 & _).
  destruct (IH (placed ++ [settle placed r])) as (H1 & H2 & H3);
    [done|by apply all_apart_snoc|].
  rewrite cons_middle, app_assoc. split_and!; [done| |by constructor].
  constructor; [|done]. eapply supported_mono; [|exact Hs]. set_solver.
Qed.

(** What holds between each rectangle and the one it settles as, holds of the widgets. *)
Lemma compact_Forall2 (R : PackRect → PackRect → Prop) ws :
  (let rs := raw_rect ∘ ix_w <$> order_of ws in Forall2 R rs (settled_rects [] rs)) →
  Forall2 (λ d d', ∃ r', d' = with_y d (ry r') ∧ R (raw_rect d) r') ws (compactVertically ws).
Proof.
  intros HR. unfold compactVertically. apply scatter_Forall2; [apply compact_writes|].
  change (isort indexed_le _) with (order_of ws). rewrite compact_loop_zip.
  apply Forall_lookup. intros k o Ho. apply lookup_zip_with_Some in Ho as (e & r' & -> & He & Hr').
  exists (ix_w e). simpl. split; [apply order_elem; by eapply list_elem_of_lookup_2|].
  exists r'. split; [done|].
  eapply (Forall2_lookup_lr _ _ _ k _ _ HR); [by rewrite list_lookup_fmap, He|done].
Qed.

Lemma compact_kept ws :
  Forall2 (λ d d', ∃ yy, d' = with_y d yy) ws (compactVertically ws).
Proof.
  eapply Forall2_impl; [apply (compact_Forall2 (λ _ _, True))|naive_solver].
  simpl. apply Forall2_true; [done|]. by rewrite length_settled_rects.
Qed.

Lemma order_positive ws :
  positive_heights ws → Forall (λ r, 1 ≤ rh r) (raw_rect ∘ ix_w <$> order_of ws).
Proof.
  intros Hpos. rewrite list_fmap_compose, order_w. by apply Forall_fmap.
Qed.

Lemma compact_rects ws :
  positive_heights ws →
  raw_rect <$> compactVertically ws ≡ₚ settled_rects [] (raw_rect ∘ ix_w <$> order_of ws).
Proof.
  intros Hpos. unfold compactVertically. rewrite scatter_Permutation by apply compact_writes.
  change (isort indexed_le _) with (order_of ws). rewrite compact_loop_zip.
  set (rs := raw_rect ∘ ix_w <$> order_of ws).
  destruct (settled_rects_spec [] rs) as (_ & _ & H2); [by apply order_positive|constructor|].
  apply eq_Permutation, list_eq. intros k. rewrite !list_lookup_fmap, lookup_zip_with.
  destruct (order_of ws !! k) as [e|] eqn:He; simpl.
  - assert (rs !! k = Some (raw_rect (ix_w e))) as Hr by (unfold rs; by rewrite list_lookup_fmap, He).
    destruct (Forall2_lookup_l _ _ _ _ _ H2 Hr) as (r' & -> & Hc & _). simpl.
    by rewrite raw_rect_with_y, <-Hc.
  - symmetry. apply lookup_ge_None. rewrite length_settled_rects. unfold rs.
    rewrite length_fmap. by apply lookup_ge_None.
Qed.

Lemma compact_sound ws :
  positive_heights ws →
  let out := raw_rect <$> compactVertically ws in
  all_apart out ∧ Forall (supported out) out.
Proof.
  intros Hpos. simpl.
  destruct (settled_rects_spec [] _ (order_positive ws Hpos)) as (Hap & Hs & _); [by constructor|].
  simpl in *. pose proof (compact_rects ws Hpos) as Hp. split; [by rewrite Hp|].
  apply Forall_forall. intros r Hr. rewrite Hp in Hr. rewrite Forall_forall in Hs.
  eapply supported_mono; [|by apply Hs]. intros p. by rewrite Hp.
Qed.

(** ** A settled board does not move *)
Lemma indexed_le_spec a b :
  indexed_le a b ↔
  ry (raw_rect (ix_w a)) < ry (raw_rect (ix_w b)) ∨
  (ry (raw_rect (ix_w a)) = ry (raw_rect (ix_w b)) ∧
   (rx (raw_rect (ix_w a)) < rx (raw_rect (ix_w b)) ∨
    (rx (raw_rect (ix_w a)) = rx (raw_rect (ix_w b)) ∧ (ix_index a ≤ ix_index b)%nat))).
Proof.
  unfold indexed_le, js_or. rewrite Is_true_true, Z.leb_le. simpl.
  set (ya := number_or (w_y (ix_w a)) 0). set (yb := number_or (w_y (ix_w b)) 0).
  set (xa := number_or (w_x (ix_w a)) 0). set (xb := number_or (w_x (ix_w b)) 0).
  destruct (Z.eqb_spec (ya - yb) 0), (Z.eqb_spec (xa - xb) 0); simpl; 
    rewrite ?(proj2 (Z.eqb_neq _ _)) by done; try lia;
    destruct (Z.eqb_spec (ya - yb) 0); lia.
Qed.

Lemma order_sorted ws : StronglySorted indexed_le (order_of ws).
Proof.
  apply isort_sorted; intros *; rewrite !indexed_le_spec; lia.
Qed.

(** Every widget has its own [y] and supports are placed before what they support. *)
Lemma compact_loop_id ws placed order :
  positive_heights ws → all_apart (raw_rect <$> ws) →
  Forall (supported (raw_rect <$> ws)) (raw_rect <$> ws) →
  Forall (λ d, is_Some (w_y d)) ws →
  ∀ before, order_of ws = before ++ order → placed = raw_rect ∘ ix_w <$> before →
  compact_loop placed order = (λ e, (ix_index e, ix_w e)) <$> order.
Proof.
  intros Hpos Hap Hsup Hy. revert placed.
  induction order as [|e order IH]; intros placed before Hord ->; simpl; [done|].
  assert (Hin : ∀ e', e' ∈ order_of ws → ix_w e' ∈ ws).
  { intros e' He'%order_elem. by eapply list_elem_of_lookup_2. }
  assert (He : e ∈ order_of ws) by (rewrite Hord; set_solver).
  assert (Hrects : (raw_rect ∘ ix_w <$> before) ++ raw_rect (ix_w e) :: (raw_rect ∘ ix_w <$> order)
                     ≡ₚ raw_rect <$> ws).
  { rewrite <-(order_w ws), Hord. rewrite <-list_fmap_compose. by rewrite fmap_app. }
  rewrite <-Hrects in Hap.
  apply StronglySorted_app in Hap as (Hap & _ & _).
  unfold positive_heights in Hpos. rewrite !Forall_forall in Hpos, Hy.
  assert (Hs : settle (raw_rect ∘ ix_w <$> before) (raw_rect (ix_w e)) = raw_rect (ix_w e)).
  { apply settle_id.
    - by apply Hpos, Hin.
    - apply Forall_fmap, Forall_forall. intros e' He'. apply Hpos, Hin. rewrite Hord. set_solver.
    - apply Forall_forall. intros p Hp. symmetry. apply Hap; [done|left].
    - rewrite Forall_forall in Hsup.
      destruct (Hsup (raw_rect (ix_w e))) as [?|(p & Hp & Hpy & Hpx)]; [by apply list_elem_of_fmap_2, Hin|by left|].
      right. exists p. split; [|done]. rewrite <-Hrects in Hp.
      apply elem_of_app in Hp as [Hp|Hp]; [done|exfalso].
      assert (∃ e', e' ∈ e :: order ∧ p = raw_rect (ix_w e')) as (e' & He' & ->).
      { apply (list_elem_of_fmap (raw_rect ∘ ix_w) (e :: order) p) in Hp as (e' & -> & ?). eauto. }
      assert (indexed_le e e') as Hle.
      { pose proof (order_sorted ws) as Hs. rewrite Hord in Hs. apply StronglySorted_app in Hs as (_ & _ & Hs).
        apply StronglySorted_inv in Hs as [_ Hs]. apply elem_of_cons in He' as [->|He'].
        - apply indexed_le_spec. lia.
        - rewrite Forall_forall in Hs. by apply Hs. }
      apply indexed_le_spec in Hle. specialize (Hpos (ix_w e')). simpl in Hpos.
      assert (1 ≤ rh (raw_rect (ix_w e'))); [apply Hpos, Hin; rewrite Hord; set_solver|].
      simpl in *. lia. }
  rewrite Hs. f_equal.
  - f_equal. destruct (Hy (ix_w e) (Hin e He)) as [yy Hyy].
    destruct (ix_w e); simpl in *; subst. unfold with_y, number_or; simpl.
    case_match eqn:E; do 2 f_equal. lia.
  - apply (IH _ (before ++ [e])); [by rewrite <-app_assoc|by rewrite fmap_app].
Qed.

Lemma compact_settled_id ws :
  positive_heights ws → all_apart (raw_rect <$> ws) →
  Forall (supported (raw_rect <$> ws)) (raw_rect <$> ws) →
  Forall (λ d, is_Some (w_y d)) ws →
  compactVertically ws = ws.
Proof.
  intros Hpos Hap Hsup Hy. unfold compactVertically.
  change (isort indexed_le _) with (order_of ws).
  rewrite (compact_loop_id ws [] (order_of ws) Hpos Hap Hsup Hy []) by done.
  apply scatter_eq; [|done|].
  - rewrite <-list_fmap_compose. apply order_index.
  - intros k d (e & [= -> ->] & He)%list_elem_of_fmap. by apply order_elem.
Qed.

(** ** Compaction only lifts, and is idempotent *)
Lemma settle_lifts (po placed : list PackRect) r :
  1 ≤ rh r → Forall2 (λ o p, same_column o p ∧ ry p ≤ ry o) po placed →
  Forall (λ o, ry o ≤ ry r ∧ 1 ≤ rh o ∧ apart o r) po → ry (settle placed r) ≤ ry r.
Proof.
  intros Hh Hpo Hord. unfold settle. set (r0 := at_y r (Z.min (bottom_edge placed) (ry r))).
  assert (Forall (apart r0) placed) as Hap.
  { apply Forall_lookup. intros k p Hp.
    destruct (Forall2_lookup_r _ _ _ _ _ Hpo Hp) as (o & Ho & Hc & Hle).
    rewrite Forall_lookup in Hord. destruct (Hord k o Ho) as (H1 & H2 & H3).
    unfold same_column in Hc. unfold apart in *. rewrite rectsIntersect_false in H3 |- *.
    assert (rx p = rx o ∧ rw p = rw o ∧ rh p = rh o) as (Ex & Ew & Eh) by (by rewrite Hc).
    apply list_elem_of_lookup_2, bottom_edge_elem in Hp. unfold r0.
    simpl in *. lia. }
  destruct (rise_spec (Z.to_nat (ry r0)) placed r0) as (_ & Hle & _ & _ & Hk); [lia|].
  rewrite drop_id by auto. unfold r0 in *. simpl in *. lia.
Qed.

Lemma settled_rects_lift po placed rs :
  Forall (λ r, 1 ≤ rh r) (po ++ rs) → all_apart (po ++ rs) →
  StronglySorted (λ a b, ry a ≤ ry b) (po ++ rs) →
  Forall2 (λ o p, same_column o p ∧ ry p ≤ ry o) po placed →
  Forall2 (λ r r', ry r' ≤ ry r) rs (settled_rects placed rs).
Proof.
  revert po placed. induction rs as [|r rs IH]; intros po placed Hpos Hap Hsort Hpo; simpl; [constructor|].
  apply Forall_app in Hpos as Hp2. destruct Hp2 as [Hpo1 [Hr _]%Forall_cons].
  assert (ry (settle placed r) ≤ ry r) as Hle.
  { apply (settle_lifts po); [done..|]. rewrite Forall_forall in Hpo1. apply Forall_forall.
    apply StronglySorted_app in Hap as (Hap & _). apply StronglySorted_app in Hsort as (Hsort & _).
    intros o Ho. split_and!; [apply Hsort|by apply Hpo1|apply Hap]; done || left. }
  constructor; [done|]. rewrite cons_middle, app_assoc in Hpos, Hap, Hsort.
  eapply IH; [done..|]. apply Forall2_app; [done|]. repeat constructor; [|done].
  by apply settle_same_column.
Qed.

Lemma compact_lifts ws :
  positive_heights ws → all_apart (raw_rect <$> ws) →
  Forall2 (λ d d', ∃ yy, d' = with_y d yy ∧ yy ≤ ry (raw_rect d)) ws (compactVertically ws).
Proof.
  intros Hpos Hap. eapply Forall2_impl.
  - apply (compact_Forall2 (λ r r', ry r' ≤ ry r)). simpl.
    apply (settled_rects_lift [] []); simpl; [by apply order_positive| | |constructor].
    + by rewrite list_fmap_compose, order_w.
    + apply (StronglySorted_fmap _ indexed_le); [|apply order_sorted].
      intros a b Hab%indexed_le_spec. unfold compose. lia.
  - intros d d' (r' & -> & Hle). eauto.
Qed.

Lemma compact_positive ws : positive_heights ws → positive_heights (compactVertically ws).
Proof.
  unfold positive_heights. intros Hpos. apply Forall_lookup. intros k d' Hd'.
  destruct (Forall2_lookup_r _ _ _ _ _ (compact_kept ws) Hd') as (d & Hd & yy & ->).
  rewrite raw_rect_with_y. rewrite Forall_lookup in Hpos. by apply (Hpos k d).
Qed.

Lemma compact_idempotent ws :
  positive_heights ws → compactVertically (compactVertically ws) = compactVertically ws.
Proof.
  intros Hpos. destruct (compact_sound ws Hpos) as [Hap Hsup].
  apply compact_settled_id; [by apply compact_positive|done..|].
  apply Forall_lookup. intros k d' Hd'.
  destruct (Forall2_lookup_r _ _ _ _ _ (compact_kept ws) Hd') as (d & _ & yy & ->). by eexists.
Qed.

(** ** How tall a compacted board can be *)
Lemma settled_rects_bound placed rs :
  Forall (λ r, 1 ≤ rh r) rs →
  Forall (λ r, ry r + rh r ≤ bottom_edge placed + Zsum (rh <$> rs)) (settled_rects placed rs).
Proof.
  revert placed. induction rs as [|r rs IH]; intros placed Hpos; [constructor|].
  apply Forall_cons in Hpos as [Hr Hpos]. cbn [settled_rects]. rewrite fmap_cons, Zsum_cons.
  destruct (settle_spec placed r Hr) as (Hc & _ & _ & _ & Hb).
  assert (rh (settle placed r) = rh r) as Hh by (by rewrite Hc).
  assert (0 ≤ Zsum (rh <$> rs)) as H0.
  { clear -Hpos. induction Hpos as [|x l Hx _ IH]; [done|].
    rewrite fmap_cons, Zsum_cons. lia. }
  constructor; [lia|]. eapply Forall_impl; [by apply IH|].
  intros p. simpl. rewrite bottom_edge_snoc. lia.
Qed.

Lemma compact_height ws :
  positive_heights ws →
  Forall (λ d, ry (raw_rect d) + rh (raw_rect d) ≤ Zsum (rh <$> (raw_rect <$> ws)))
    (compactVertically ws).
Proof.
  intros Hpos. set (total := Zsum _).
  apply (Forall_fmap raw_rect (λ r, ry r + rh r ≤ total)). rewrite compact_rects by done.
  eapply Forall_impl; [by apply settled_rects_bound, order_positive|].
  intros r. simpl. unfold total. rewrite list_fmap_compose, order_w. unfold bottom_edge; simpl. lia.
Qed.

(** The clamped heights of the widgets, stacked. *)
Definition stacked_height (ws : list DashboardWidget) (cols : Z) : Z :=
  Zsum ((λ d, it_h (widgetToItem d cols)) <$> ws).

Lemma pack_positive ws cols :
  1 ≤ cols → (2 ≤ length ws)%nat → positive_heights (packWidgets ws cols).
Proof.
  intros Hc Hl. destruct (packWidgets_rects ws cols Hc Hl) as [_ Hg].
  rewrite Forall_fmap in Hg. eapply Forall_impl; [exact Hg|]. intros d (_ & ? & _). done.
Qed.

Lemma pack_heights ws cols :
  1 ≤ cols → (2 ≤ length ws)%nat →
  Zsum (rh <$> (raw_rect <$> packWidgets ws cols)) = stacked_height ws cols.
Proof.
  intros Hc Hl. unfold stacked_height. f_equal.
  pose proof (packWidgets_same ws cols Hc Hl) as Hs.
  apply list_eq. intros k. rewrite !list_lookup_fmap.
  destruct (ws !! k) as [a|] eqn:Ha; simpl.
  - destruct (Forall2_lookup_l _ _ _ _ _ Hs Ha) as (b & -> & xx & yy & ->).
    destruct (widgetToItem_bounds a cols Hc) as (? & ? & _).
    cbn [fmap option_fmap option_map]. by rewrite raw_rect_with_geometry by lia.
  - assert (packWidgets ws cols !! k = None) as ->; [|done].
    apply lookup_ge_None. rewrite <-(Forall2_length _ _ _ Hs). by apply lookup_ge_None.
Qed.

Lemma compact_pack_clean ws cols :
  1 ≤ cols → (2 ≤ length ws)%nat → stacked_height ws cols ≤ MAX_ROWS →
  Forall (clean cols) (compactVertically (packWidgets ws cols)).
Proof.
  intros Hc Hl Hh. destruct (packWidgets_rects ws cols Hc Hl) as [Hap Hg].
  pose proof (pack_positive ws cols Hc Hl) as Hpos. pose proof (compact_lifts _ Hpos Hap) as Hlift.
  pose proof (compact_height _ Hpos) as Hb. rewrite pack_heights in Hb by done.
  pose proof (packWidgets_same ws cols Hc Hl) as Hs.
  set (p := packWidgets ws cols) in *.
  assert (Forall2 (λ d d', ∃ r', d' = with_y d (ry r') ∧ (0 ≤ ry (raw_rect d) → 0 ≤ ry r'))
            p (compactVertically p)) as Hnn.
  { apply (compact_Forall2 (λ r r', 0 ≤ ry r → 0 ≤ ry r')). simpl.
    destruct (settled_rects_spec [] _ (order_positive p Hpos)) as (_ & _ & H2); [constructor|].
    eapply Forall2_impl; [done|]. naive_solver. }
  apply Forall_lookup. intros k d' Hd'.
  destruct (Forall2_lookup_r _ _ _ _ _ Hnn Hd') as (d & Hd & r' & -> & H0).
  destruct (Forall2_lookup_r _ _ _ _ _ Hs Hd) as (a & Ha & xx & yy & ->).
  rewrite Forall_fmap in Hg. rewrite Forall_lookup in Hg, Hb. specialize (Hg k _ Hd).
  specialize (Hb k _ Hd'). unfold compose in Hg. cbv beta in Hg, Hb.
  destruct (widgetToItem_bounds a cols Hc) as (? & ? & _).
  rewrite raw_rect_with_y in Hb. rewrite raw_rect_with_geometry in Hg, Hb, H0 by lia.
  unfold in_grid in Hg; simpl in Hg, Hb, H0.
  eapply clean_intro; [done..| | | | |]; simpl in *; lia.
Qed.

Lemma compact_pair_id ws :
  (length ws ≤ 1)%nat → compactVertically (compactVertically ws) = compactVertically ws.
Proof.
  destruct ws as [|d [|? ?]]; simpl; [done| |lia]. intros _.
  assert (∀ d, compactVertically [d] = [with_y d (Z.min 0 (ry (raw_rect d)))]) as E.
  { intros e. unfold compactVertically; simpl. unfold settle, scatter; simpl.
    f_equal. f_equal. rewrite rise_id; [done|]. left. unfold bottom_edge; simpl in *. lia. }
  rewrite !E, raw_rect_with_y. f_equal. unfold with_y; simpl. do 2 f_equal. lia.
Qed.

(** ** Theorems *)

(** C6. Compaction changes nothing but [y], and leaves a settled board: no two widgets share
    a cell, every widget is at the top or sits on another widget's bottom edge, and a second
    pass moves nothing. Both of its inner loops end. *)
Theorem compactVertically_settles ws :
  positive_heights ws →
  Forall2 (λ d d', ∃ yy, d' = with_y d yy) ws (compactVertically ws) ∧
  all_apart (raw_rect <$> compactVertically ws) ∧
  Forall (supported (raw_rect <$> compactVertically ws)) (raw_rect <$> compactVertically ws) ∧
  compactVertically (compactVertically ws) = compactVertically ws.
Proof.
  intros Hpos. destruct (compact_sound ws Hpos).
  split_and!; [apply compact_kept|done..|by apply compact_idempotent].
Qed.

Lemma compactVertically_settles_witness :
  Forall (supported (raw_rect <$> compactVertically demo_board)) (raw_rect <$> compactVertically demo_board).
Proof.
  refine (proj1 (proj2 (proj2 (compactVertically_settles demo_board _)))).
  repeat constructor; unfold compose; cbn; lia.
Defined.

(** On a board without overlaps, compaction only moves widgets up. *)
Theorem compactVertically_only_lifts ws :
  positive_heights ws → all_apart (raw_rect <$> ws) →
  Forall2 (λ d d', ∃ yy, d' = with_y d yy ∧ yy ≤ ry (raw_rect d)) ws (compactVertically ws).
Proof. apply compact_lifts. Qed.

Lemma compactVertically_only_lifts_witness :
  Forall2 (λ d d', ∃ yy, d' = with_y d yy ∧ yy ≤ ry (raw_rect d)) demo_board
    (compactVertically demo_board).
Proof.
  apply (compactVertically_only_lifts demo_board).
  - repeat constructor; unfold compose; cbn; lia.
  - repeat constructor.
Defined.

(** The geometry Edit mode works on is a fixed point: applying [editGeometry] twice is
    applying it once, for every board whose widgets stacked fit in [MAX_ROWS] rows. *)
Theorem editGeometry_idempotent ws cols :
  1 ≤ cols → stacked_height ws cols ≤ MAX_ROWS →
  editGeometry (editGeometry ws cols) cols = editGeometry ws cols.
Proof.
  intros Hc Hh. unfold editGeometry. destruct (decide (length ws ≤ 1)%nat) as [Hl|Hl].
  - assert (∀ l, (length l ≤ 1)%nat → packWidgets l cols = l) as E.
    { intros l Hl'. unfold packWidgets. by rewrite (proj2 (Nat.leb_le _ _)) by done. }
    rewrite !E; [by apply compact_pair_id|done|by rewrite length_compactVertically, E].
  - assert (2 ≤ length ws)%nat as Hl2 by lia.
    pose proof (pack_positive ws cols Hc Hl2) as Hpos.
    rewrite (packWidgets_clean_id (compactVertically _)).
    + by apply compact_idempotent.
    + done.
    + by apply compact_pack_clean.
    + by apply compact_sound.
Qed.

Lemma editGeometry_idempotent_witness :
  editGeometry (editGeometry demo_board 12) 12 = editGeometry demo_board 12.
Proof. apply (editGeometry_idempotent demo_board 12); [lia|vm_compute; discriminate]. Defined.

(** Three widgets, one of them 1000 rows tall. *)
Definition tall_board : list DashboardWidget :=
  let wd id x y w h :=
    Widget (Some id) None "kpi" (Some x) (Some y) (Some w) (Some h) None None None None None in
  [wd "n" 6 0 6 1000; wd "p" 6 999 6 1; wd "q" 0 1000 12 1].

(** Past [MAX_ROWS] the fixed point is lost: [widgetToItem] clamps a stored row of 1001
    to 1000, so a second pass reads two widgets in the other order and swaps their rows. *)
Theorem editGeometry_not_idempotent :
  editGeometry (editGeometry tall_board GRID_COLS) GRID_COLS ≠ editGeometry tall_board GRID_COLS.
Proof. intros H. apply (f_equal (fmap w_y)) in H. vm_compute in H. discriminate. Qed.
