(* ===== verification/LayoutMove.v ===== *)
(** * One-widget operations: keyboard move and resize, normalisation, the grid's layout *)

From S2P Require Import Prelude JsValue Layout LayoutPack.
Local Open Scope Z_scope.
#[local] Arguments clampInt : simpl never.

(** The opposite of a move. *)
Definition opposite (dir : MoveDir) : MoveDir :=
  match dir with MLeft => MRight | MRight => MLeft | MUp => MDown | MDown => MUp end.

Definition at_edge (it : GridItemShape) (dir : MoveDir) (cols : Z) : bool :=
  match dir with
  | MLeft => it_x it =? 0
  | MRight => it_x it + it_w it =? cols
  | MUp => it_y it =? 0
  | MDown => it_y it =? MAX_ROWS
  end.

(** The item of a widget given a position, or a size, inside the grid. *)
Lemma item_with_xy d cols x y (it := widgetToItem d cols) :
  1 ≤ cols → 0 ≤ x → x + it_w it ≤ cols → 0 ≤ y ≤ MAX_ROWS →
  widgetToItem (with_xy d x y) cols =
  GridItem (it_i it) x y (it_w it) (it_h it) (it_minW it) (it_minH it) (it_static it).
Proof.
  intros Hc Hx Hxw Hy. unfold it, widgetToItem in *. cbn in *.
  rewrite (clampInt_id x) by lia. by rewrite (clampInt_id y) by lia.
Qed.

Lemma item_with_size d cols w h (it := widgetToItem d cols) :
  1 ≤ cols → 1 ≤ w → it_x it + w ≤ cols → 1 ≤ h ≤ MAX_ROWS → it_w it ≤ w ∨ (∃ x, w_x d = Some x ∧ x = it_x it) →
  rect_of_item (widgetToItem (with_size d w h) cols) = Rect (it_x it) (it_y it) w h.
Proof.
  intros Hc Hw Hxw Hh Hx. pose proof (widgetToItem_bounds d cols Hc) as Hb. fold it in Hb.
  unfold rect_of_item, it, widgetToItem in *. cbn in *.
  rewrite (clampInt_id w), (clampInt_id h) by lia. f_equal.
  destruct Hx as [Hx|(x & Hx & Hxe)].
  - destruct Hb as (Hb & _). clear Hh. set (wc := clampInt (w_w d) 1 cols _) in *.
    clearbody wc. unfold clampInt in *. destruct (w_x d); [|done]. clear -Hx Hxw Hb Hw Hc. lia.
  - rewrite Hx in *. rewrite <-Hxe in *. apply clampInt_id. lia.
Qed.

(** ** Moving *)
Lemma move_item d dir cols (it := widgetToItem d cols) (it' := widgetToItem (moveWidget d dir cols) cols) :
  1 ≤ cols →
  rect_of_item it' = (let r := rect_of_item it in if at_edge it dir cols then r else
    match dir with
    | MLeft => Rect (rx r - 1) (ry r) (rw r) (rh r)
    | MRight => Rect (rx r + 1) (ry r) (rw r) (rh r)
    | MUp => at_y r (ry r - 1)
    | MDown => at_y r (ry r + 1)
    end) ∧
  w_x (moveWidget d dir cols) = Some (it_x it') ∧ w_y (moveWidget d dir cols) = Some (it_y it').
Proof.
  intros Hc. destruct (widgetToItem_bounds d cols Hc) as (H1 & H2 & H3 & H4 & H5).
  unfold it', moveWidget. fold it in H1, H2, H3, H4, H5 |- *.
  destruct dir; rewrite item_with_xy by (fold it; unfold MAX_ROWS in *; lia);
    unfold at_edge, rect_of_item, at_y; cbn [it_x it_y it_w it_h rx ry rw rh with_xy w_x w_y];
    (split; [|done]); (match goal with |- context [?a =? ?b] => destruct (Z.eqb_spec a b) end;
    f_equal; unfold MAX_ROWS in *; lia).
Qed.

Lemma move_back d dir cols :
  1 ≤ cols → at_edge (widgetToItem d cols) dir cols = false →
  rect_of_item (widgetToItem (moveWidget (moveWidget d dir cols) (opposite dir) cols) cols) =
  rect_of_item (widgetToItem d cols).
Proof.
  intros Hc He. destruct (widgetToItem_bounds d cols Hc) as (H1 & H2 & H3 & H4 & H5).
  destruct (move_item (moveWidget d dir cols) (opposite dir) cols Hc) as [-> _].
  destruct (move_item d dir cols Hc) as [Hm _]. rewrite Hm, He.
  pose proof (f_equal rx Hm) as Hx. pose proof (f_equal ry Hm) as Hy. pose proof (f_equal rw Hm) as Hw.
  rewrite He in Hx, Hy, Hw. unfold rect_of_item, at_edge, at_y in *.
  set (it := widgetToItem d cols) in *. set (it' := widgetToItem (moveWidget d dir cols) cols) in *.
  clearbody it it'. clear Hm.
  destruct dir; cbn [rx ry rw rh opposite] in *; rewrite ?Hx, ?Hy, ?Hw;
    (match goal with |- context [?a =? ?b] => destruct (Z.eqb_spec a b) end);
    f_equal; unfold MAX_ROWS in *; lia.
Qed.

(** ** Resizing *)
Definition min_width (d : DashboardWidget) (cols : Z) : Z := default 1 (it_minW (widgetToItem d cols)).

Lemma min_width_bounds d cols : 1 ≤ cols → 1 ≤ min_width d cols ≤ cols.
Proof.
  intros Hc. unfold min_width, widgetToItem, clampInt; cbn. destruct (w_minW d); cbn; lia.
Qed.

Definition min_height (d : DashboardWidget) (cols : Z) : Z := default 1 (it_minH (widgetToItem d cols)).

Lemma min_height_bounds d cols : 1 ≤ min_height d cols ≤ MAX_ROWS.
Proof.
  unfold min_height, widgetToItem, clampInt, MAX_ROWS; cbn. destruct (w_minH d); cbn; lia.
Qed.

Lemma resize_item d dir cols (it := widgetToItem d cols) :
  1 ≤ cols → w_x d = Some (it_x it) → (dir = RNarrower → min_width d cols ≤ cols - it_x it) →
  rect_of_item (widgetToItem (resizeWidget d dir cols) cols) =
  (let r := rect_of_item it in match dir with
   | RWider => Rect (rx r) (ry r) (Z.min (cols - rx r) (rw r + 1)) (rh r)
   | RNarrower => Rect (rx r) (ry r) (Z.max (min_width d cols) (rw r - 1)) (rh r)
   | RTaller => Rect (rx r) (ry r) (rw r) (Z.min MAX_ROWS (rh r + 1))
   | RShorter => Rect (rx r) (ry r) (rw r) (Z.max (min_height d cols) (rh r - 1))
   end).
Proof.
  intros Hc Hx Hn. destruct (widgetToItem_bounds d cols Hc) as (H1 & H2 & H3 & H4 & H5).
  pose proof (min_width_bounds d cols Hc). pose proof (min_height_bounds d cols).
  fold it in H1, H2, H3, H4, H5. unfold resizeWidget, rect_of_item at 2. fold it.
  change (default 1 (it_minW it)) with (min_width d cols).
  change (default 1 (it_minH it)) with (min_height d cols).
  destruct dir; try specialize (Hn eq_refl);
    rewrite item_with_size by (fold it; eauto; unfold MAX_ROWS in *; lia); done.
Qed.

(** Ten columns in, two wide, and not to be narrower than four. *)
Definition squeezed : DashboardWidget :=
  {| w_i := Some "a"; w_id := None; w_type := "kpi";
     w_x := Some 10; w_y := Some 0; w_w := Some 2; w_h := Some 3;
     w_minW := Some 4; w_minH := None; w_static := None; w_options := None; w_config := None |}.

(** ** The grid's layout, written back *)
Definition by_id_step (m : gmap string GridItemShape) (it : GridItemShape) := <[it_i it := it]> m.

Lemma layout_by_id_other layout m id :
  id ∉ it_i <$> layout → foldl by_id_step m layout !! id = m !! id.
Proof.
  revert m. induction layout as [|it layout IH]; intros m Hid; [done|].
  apply not_elem_of_cons in Hid as [Hne Hid]. simpl. rewrite IH by done.
  unfold by_id_step. by rewrite lookup_insert_ne by congruence.
Qed.

Lemma layout_by_id_lookup layout it :
  NoDup (it_i <$> layout) → it ∈ layout → layout_by_id layout !! it_i it = Some it.
Proof.
  unfold layout_by_id. change (λ m it, _) with by_id_step. generalize (∅ : gmap string GridItemShape).
  induction layout as [|it' layout IH]; intros m Hnd Hin; [by apply elem_of_nil in Hin|].
  apply NoDup_cons in Hnd as [Hni Hnd]. simpl. apply elem_of_cons in Hin as [->|Hin]; [|by apply IH].
  rewrite layout_by_id_other by done. apply lookup_insert_eq.
Qed.

Lemma layout_by_id_missing layout id : id ∉ it_i <$> layout → layout_by_id layout !! id = None.
Proof.
  intros Hid. unfold layout_by_id. change (λ m it, _) with by_id_step.
  rewrite layout_by_id_other by done. apply lookup_empty.
Qed.

Definition item_in_range (cols : Z) (it : GridItemShape) : Prop :=
  1 ≤ it_w it ∧ 0 ≤ it_x it ∧ it_x it + it_w it ≤ cols ∧ 1 ≤ it_h it ≤ MAX_ROWS ∧ 0 ≤ it_y it ≤ MAX_ROWS.

(** ** The theorems *)

(** A keyboard move takes the widget one cell, or leaves it where it is at that edge. *)
Theorem moveWidget_one_cell d dir cols :
  1 ≤ cols →
  rect_of_item (widgetToItem (moveWidget d dir cols) cols) =
  (let r := rect_of_item (widgetToItem d cols) in
   if at_edge (widgetToItem d cols) dir cols then r else
   match dir with
   | MLeft => Rect (rx r - 1) (ry r) (rw r) (rh r)
   | MRight => Rect (rx r + 1) (ry r) (rw r) (rh r)
   | MUp => at_y r (ry r - 1)
   | MDown => at_y r (ry r + 1)
   end) ∧
  (at_edge (widgetToItem d cols) dir cols = false →
   rect_of_item (widgetToItem (moveWidget (moveWidget d dir cols) (opposite dir) cols) cols) =
   rect_of_item (widgetToItem d cols)).
Proof. intros Hc. split; [by apply move_item|by apply move_back]. Qed.

Lemma moveWidget_one_cell_witness :
  rect_of_item (widgetToItem (moveWidget squeezed MRight 12) 12) =
  rect_of_item (widgetToItem squeezed 12) ∧
  rect_of_item (widgetToItem (moveWidget squeezed MLeft 12) 12) = Rect 9 0 2 3.
Proof.
  split.
  - destruct (moveWidget_one_cell squeezed MRight 12) as [H _]; [lia|exact H].
  - destruct (moveWidget_one_cell squeezed MLeft 12) as [H _]; [lia|exact H].
Defined.

(** A keyboard resize changes one side by one cell, within the columns to the right and
    the row limit, and never below the minimum: for "narrower" as long as the minimum width
    itself fits to the right of the widget. *)
Theorem resizeWidget_one_cell d dir cols (it := widgetToItem d cols) :
  1 ≤ cols → w_x d = Some (it_x it) → (dir = RNarrower → min_width d cols ≤ cols - it_x it) →
  rect_of_item (widgetToItem (resizeWidget d dir cols) cols) =
  (let r := rect_of_item it in match dir with
   | RWider => Rect (rx r) (ry r) (Z.min (cols - rx r) (rw r + 1)) (rh r)
   | RNarrower => Rect (rx r) (ry r) (Z.max (min_width d cols) (rw r - 1)) (rh r)
   | RTaller => Rect (rx r) (ry r) (rw r) (Z.min MAX_ROWS (rh r + 1))
   | RShorter => Rect (rx r) (ry r) (rw r) (Z.max (min_height d cols) (rh r - 1))
   end).
Proof. apply resize_item. Qed.

Lemma resizeWidget_one_cell_witness :
  rect_of_item (widgetToItem (resizeWidget squeezed RWider 14) 14) = Rect 10 0 3 3.
Proof. rewrite resizeWidget_one_cell; [reflexivity|lia|reflexivity|discriminate]. Defined.

(** A widget whose minimum width does not fit to its right: one step "narrower" gives it
    a width that runs past the last column, so the grid shows it two columns to the left. *)
Theorem resizeWidget_narrower_overflows :
  let d := resizeWidget squeezed RNarrower GRID_COLS in
  w_x d = Some 10 ∧ w_w d = Some 4 ∧ 10 + 4 > GRID_COLS ∧
  rect_of_item (widgetToItem d GRID_COLS) = Rect 8 0 4 3.
Proof. vm_compute. split_and!; reflexivity. Qed.

(** What the grid reports is what the board then shows: each widget takes the rectangle
    of the item with its id, and a widget the grid does not report is left alone. *)
Theorem applyLayout_roundtrip ws layout cols k d :
  1 ≤ cols → NoDup (it_i <$> layout) → Forall (item_in_range cols) layout → ws !! k = Some d →
  (∀ it, it ∈ layout → it_i it = widgetId d →
    rect_of_item <$> widgetsToLayout (applyLayout ws layout) cols !! k = Some (rect_of_item it)) ∧
  (widgetId d ∉ it_i <$> layout → applyLayout ws layout !! k = Some d) ∧
  widgetId <$> applyLayout ws layout = widgetId <$> ws.
Proof.
  intros Hc Hnd Hr Hd. unfold applyLayout. split_and!.
  - intros it Hin Hid. unfold widgetsToLayout. rewrite !list_lookup_fmap, Hd.
    cbn [fmap option_fmap option_map]. rewrite <-Hid, layout_by_id_lookup by done.
    rewrite Forall_forall in Hr. destruct (Hr it Hin) as (? & ? & ? & ? & ?). f_equal.
    unfold rect_of_item, widgetToItem. cbn [it_x it_y it_w it_h w_x w_y w_w w_h].
    rewrite (clampInt_id (it_w it)), !clampInt_id by lia. done.
  - intros Hid. by rewrite list_lookup_fmap, Hd; simpl; rewrite layout_by_id_missing.
  - rewrite <-list_fmap_compose. apply list_fmap_ext. intros i x _. simpl. by case_match.
Qed.

Lemma applyLayout_roundtrip_witness :
  rect_of_item <$> widgetsToLayout (applyLayout [squeezed] [GridItem "a" 3 2 5 4 None None false]) 12 !! 0%nat
  = Some (Rect 3 2 5 4).
Proof.
  refine (proj1 (applyLayout_roundtrip [squeezed] [GridItem "a" 3 2 5 4 None None false] 12 0 squeezed
    _ _ _ _) (GridItem "a" 3 2 5 4 None None false) _ _).
  - lia.
  - repeat constructor. by apply not_elem_of_nil.
  - repeat constructor; cbn; unfold MAX_ROWS; lia.
  - reflexivity.
  - left.
  - reflexivity.
Defined.
