(* ===== verification/Reorder.v ===== *)
(** * Reading order, and moving a widget through it
    (soc/dashboard/layout-utils.ts, the one-column editor) *)

From S2P Require Import Prelude JsValue Layout.
Local Open Scope Z_scope.
Local Open Scope console_scope.

(** [items[k]]'s position; the sort only ever reads indices of [items]. *)
Definition item_pos (items : list GridItemShape) (k : nat) : Z * Z :=
  match items !! k with
  | Some it => (it_x it, it_y it)
  | None => (0, 0)
  end.

(** [items[a].y - items[b].y || items[a].x - items[b].x || a - b], at most zero *)
Definition reads_le (items : list GridItemShape) (a b : nat) : bool :=
  let '(ax, ay) := item_pos items a in
  let '(bx, by_) := item_pos items b in
  (ay - by_ ||| (ax - bx) ||| (Z.of_nat a - Z.of_nat b)) <=? 0.

Definition readingOrder (ws : list DashboardWidget) (cols : Z) : list nat :=
  let items := widgetsToLayout ws cols in
  isort (reads_le items) (seq 0 (length items)).

Definition orderOfIds (ws : list DashboardWidget) (cols : Z) : list string :=
  omap (λ k, widgetId <$> ws !! k) (readingOrder ws cols).

(** [order.findIndex((i) => widgetId(base[i]) === id)] *)
Definition findWidget (ws : list DashboardWidget) (order : list nat) (id : string) : option nat :=
  fst <$> list_find (λ k, widgetId <$> ws !! k = Some id) order.

(** [readingPosition(widgets, id)]: the 1-based position, and the total. *)
Definition readingPosition (ws : list DashboardWidget) (id : string) (cols : Z)
    : option (nat * nat) :=
  let geo := editGeometry ws cols in
  (λ index, (S index, length geo)) <$> findWidget geo (readingOrder geo cols) id.

Inductive ReorderDir := RUp | RDown.

Definition readsBefore (a b : Z * Z) : bool :=
  let '(ax, ay) := a in
  let '(bx, by_) := b in
  (ay <? by_) || ((ay =? by_) && (ax <? bx)).

Definition restsOn (placed : list PackRect) (x y w : Z) : bool :=
  (y =? 0) ||
  existsb (λ p, (ry p + rh p =? y) && (rx p <? x + w) && (rx p + rw p >? x)) placed.

(** [free(x, y)] inside [placeInOrder]. *)
Definition free (prev : option (Z * Z)) (placed : list PackRect) (w h : Z) (x y : Z) : bool :=
  match prev with None => true | Some p => readsBefore p (x, y) end &&
  negb (existsb (rectsIntersect (Rect x y w h)) placed) &&
  restsOn placed x y w.

Definition candidate_rows (prev : option (Z * Z)) (placed : list PackRect) : list Z :=
  isort Z.leb
    (List.filter (λ y, match prev with None => true | Some p => p.2 <=? y end)
       (js_set (0 :: ((λ p, ry p + rh p) <$> placed)))).

(** [for (let x = 0; x + w <= cols; x += 1) if (free(x, y)) ...] *)
Definition columns (w cols : Z) : list Z := seqZ 0 (cols - w + 1).

Definition first_spot (prev : option (Z * Z)) (placed : list PackRect) (w h cols : Z)
    : option (Z * Z) :=
  snd <$> list_find (λ s : Z * Z, free prev placed w h s.1 s.2)
    (y ← candidate_rows prev placed; x ← columns w cols; [(x, y)]).

(** The loop of [placeInOrder] from position [k] on. *)
Fixpoint place_loop (items : list GridItemShape) (base next : list DashboardWidget)
    (placed : list PackRect) (prev : option (Z * Z)) (k keepFrom : nat) (rest : list nat)
    (cols : Z) : list DashboardWidget :=
  match rest with
  | [] => next
  | index :: rest' =>
      match items !! index, base !! index with
      | Some it, Some d =>
          let w := it_w it in
          let h := it_h it in
          let spot :=
            if (keepFrom <=? k)%nat && free prev placed w h (it_x it) (it_y it)
            then Some (it_x it, it_y it)
            else first_spot prev placed w h cols in
          let at_ := match spot with
                     | Some s => s
                     | None => (0, bottom_edge placed)
                     end in
          place_loop items base (<[index := with_xy d at_.1 at_.2]> next)
            (placed ++ [Rect at_.1 at_.2 w h]) (Some at_) (S k) keepFrom rest' cols
      | _, _ => next
      end
  end.

Definition placeInOrder (base : list DashboardWidget) (sequence : list nat)
    (from keepFrom : nat) (cols : Z) : list DashboardWidget :=
  let items := widgetsToLayout base cols in
  let placed := omap (λ k, rect_of_item <$> items !! k) (take from sequence) in
  let prev := match from with
              | O => None
              | S f => k ← sequence !! f; it ← items !! k; Some (it_x it, it_y it)
              end in
  place_loop items base base placed prev from keepFrom (drop from sequence) cols.

(** [editGeometry] changes no widget, and the board reads in the order [ids]. *)
Definition same_geometry (cols : Z) (a b : DashboardWidget) : bool :=
  let a := widgetToItem a cols in
  let b := widgetToItem b cols in
  (it_x a =? it_x b) && (it_y a =? it_y b) && (it_w a =? it_w b) && (it_h a =? it_h b).

Definition settledInOrder (ws : list DashboardWidget) (ids : list string) (cols : Z) : bool :=
  let again := editGeometry ws cols in
  let same := forallb (λ p, same_geometry cols p.1 p.2) (zip ws again) in
  let order := orderOfIds ws cols in
  same && bool_decide (order = ids).

Definition layoutGaps (ws : list DashboardWidget) (cols : Z) : Z :=
  let rects := rect_of_item <$> widgetsToLayout ws cols in
  bottom_edge rects * cols - foldl (λ sum r, sum + rw r * rh r) 0 rects.

Fixpoint no_overlap (rects : list PackRect) : bool :=
  match rects with
  | [] => true
  | a :: rects' => forallb (λ b, negb (rectsIntersect a b)) rects' && no_overlap rects'
  end.

Definition overlapFree (ws : list DashboardWidget) (cols : Z) : bool :=
  no_overlap (rect_of_item <$> widgetsToLayout ws cols).

(** [into(item, slot)] of [slotTrade]. *)
Definition slot_into (cols : Z) (item slot : GridItemShape) : option PackRect :=
  let w := Z.max (it_w slot) (default 1 (it_minW item)) in
  let h := Z.max (it_h slot) (default 1 (it_minH item)) in
  if it_x slot + w >? cols then None else Some (Rect (it_x slot) (it_y slot) w h).

Definition with_rect (d : DashboardWidget) (r : PackRect) : DashboardWidget :=
  with_geometry d (rx r) (ry r) (rw r) (rh r).

Definition slotTrade (base : list DashboardWidget) (aIdx bIdx : nat) (cols : Z)
    : option (list DashboardWidget) :=
  wa ← base !! aIdx;
  wb ← base !! bIdx;
  let a := widgetToItem wa cols in
  let b := widgetToItem wb cols in
  aAt ← slot_into cols a b;
  bAt ← slot_into cols b a;
  Some (<[bIdx := with_rect wb bAt]> (<[aIdx := with_rect wa aAt]> base)).

(** [{ ...w, x }] *)
Definition with_x (d : DashboardWidget) (x : Z) : DashboardWidget :=
  {| w_i := w_i d; w_id := w_id d; w_type := w_type d;
     w_x := Some x; w_y := w_y d; w_w := w_w d; w_h := w_h d;
     w_minW := w_minW d; w_minH := w_minH d; w_static := w_static d;
     w_options := w_options d; w_config := w_config d |}.

(** The two simple trades of neighbours; [None] when neither applies. *)
Definition simpleTrade (base : list DashboardWidget) (firstIdx secondIdx : nat)
    (wf ws : DashboardWidget) (cols : Z) : option (list DashboardWidget) :=
  let first := widgetToItem wf cols in
  let second := widgetToItem ws cols in
  if (it_y first =? it_y second) && (it_h first =? it_h second)
     && (it_x first + it_w first =? it_x second)
  then
    Some (<[firstIdx := with_x wf (it_x first + it_w second)]>
            (<[secondIdx := with_x ws (it_x first)]> base))
  else if (it_w first =? it_w second) && (it_h first =? it_h second)
  then
    Some (<[firstIdx := with_xy wf (it_x second) (it_y second)]>
            (<[secondIdx := with_xy ws (it_x first) (it_y first)]> base))
  else None.

(** Where the pair that trades places starts; [None] at that end of the order. *)
Definition pair_start (dir : ReorderDir) (at_ n : nat) : option nat :=
  match dir with
  | RUp => match at_ with O => None | S l => Some l end
  | RDown => if (S at_ <? n)%nat then Some at_ else None
  end.

Definition reorderWidget (ws : list DashboardWidget) (id : string) (dir : ReorderDir) (cols : Z)
    : list DashboardWidget :=
  let base := editGeometry ws cols in
  let order := readingOrder base cols in
  match findWidget base order id with
  | None => base
  | Some at_ =>
      match pair_start dir at_ (length order) with
      | None => base
      | Some lo =>
          match order !! lo, order !! S lo with
          | Some firstIdx, Some secondIdx =>
              match base !! firstIdx, base !! secondIdx with
              | Some wf, Some wsec =>
                  let sequence :=
                    take lo order ++ [secondIdx; firstIdx] ++ drop (lo + 2) order in
                  let wanted := omap (λ k, widgetId <$> base !! k) sequence in
                  let traded :=
                    match simpleTrade base firstIdx secondIdx wf wsec cols with
                    | Some trade => if settledInOrder trade wanted cols then Some trade else None
                    | None => None
                    end in
                  match traded with
                  | Some trade => trade
                  | None =>
                      let kept := placeInOrder base sequence lo (lo + 2) cols in
                      let keptGaps := layoutGaps kept cols in
                      if keptGaps <=? layoutGaps base cols then kept
                      else
                        match slotTrade base firstIdx secondIdx cols with
                        | Some swapped =>
                            if overlapFree swapped cols && settledInOrder swapped wanted cols
                               && (layoutGaps swapped cols <? keptGaps)
                            then swapped else kept
                        | None => kept
                        end
                  end
              | _, _ => base
              end
          | _, _ => base
          end
      end
  end.

(** [appendWidget]: the leftmost widget ending on the floor decides the column. *)
Definition appendWidget (ws : list DashboardWidget) (widget : DashboardWidget) (cols : Z)
    : list DashboardWidget :=
  let base := editGeometry ws cols in
  let w := it_w (widgetToItem widget cols) in
  let rects := rect_of_item <$> widgetsToLayout base cols in
  let floor := bottom_edge rects in
  let under := head (isort (λ a b, rx a - rx b <=? 0)
                      (filter (λ r, ry r + rh r = floor) rects)) in
  let x := match under with Some r => Z.min (rx r) (cols - w) | None => 0 end in
  base ++ [with_xy widget x floor].
