(* ===== verification/ReorderSpec.v ===== *)
(** * Moving a widget through the reading order: the result reads as asked and is settled *)

From S2P Require Import Prelude JsValue Layout LayoutPack LayoutCompact Reorder.
Local Open Scope Z_scope.
Local Open Scope console_scope.
#[local] Arguments widgetToItem : simpl never.
#[local] Arguments raw_rect : simpl never.

(** ** Reading order *)
Lemma reads_le_spec items a b :
  reads_le items a b ↔
  (item_pos items a).2 < (item_pos items b).2 ∨
  ((item_pos items a).2 = (item_pos items b).2 ∧
   ((item_pos items a).1 < (item_pos items b).1 ∨
    ((item_pos items a).1 = (item_pos items b).1 ∧ (a ≤ b)%nat))).
Proof.
  unfold reads_le, js_or. destruct (item_pos items a) as [ax ay], (item_pos items b) as [bx by_].
  rewrite Is_true_true, Z.leb_le. simpl.
  destruct (Z.eqb_spec (ay - by_) 0); [|destruct (Z.eqb_spec (ay - by_) 0); lia].
  destruct (Z.eqb_spec (ax - bx) 0); lia.
Qed.

Lemma reading_sorted ws cols :
  StronglySorted (reads_le (widgetsToLayout ws cols)) (readingOrder ws cols).
Proof. apply isort_sorted; intros *; rewrite !reads_le_spec; lia. Qed.

Lemma reading_perm ws cols : readingOrder ws cols ≡ₚ seq 0 (length ws).
Proof. unfold readingOrder, widgetsToLayout. by rewrite isort_Permutation, length_fmap. Qed.

(** An order sorted by [reads_le] that lists every index is the reading order. *)
Lemma reading_unique ws cols s :
  s ≡ₚ seq 0 (length ws) → StronglySorted (reads_le (widgetsToLayout ws cols)) s →
  readingOrder ws cols = s.
Proof.
  intros Hp Hs. eapply StronglySorted_unique; [|apply reading_sorted|exact Hs|].
  - intros a b. rewrite !reads_le_spec. lia.
  - by rewrite reading_perm, Hp.
Qed.

(** [a] reads strictly before [b]. *)
Definition reads_strict (a b : PackRect) : Prop := ry a < ry b ∨ (ry a = ry b ∧ rx a < rx b).

Lemma readsBefore_spec ax ay bx by_ :
  readsBefore (ax, ay) (bx, by_) = true ↔ ay < by_ ∨ (ay = by_ ∧ ax < bx).
Proof. simpl. lia. Qed.

(** ** A board laid out in a given order *)

(** Widget [k] of the board stands at [r], with its geometry in range. *)
Definition stands_at (cols : Z) (ws : list DashboardWidget) (k : nat) (r : PackRect) : Prop :=
  ∃ d, ws !! k = Some d ∧ clean cols d ∧ raw_rect d = r.

Record laid_out (cols : Z) (ws : list DashboardWidget) (s : list nat) (rs : list PackRect) := {
  lo_perm : s ≡ₚ seq 0 (length ws);
  lo_stands : Forall2 (stands_at cols ws) s rs;
  lo_reads : StronglySorted reads_strict rs;
  lo_apart : all_apart rs;
  lo_supported : Forall (supported rs) rs;
}.


Lemma stands_rects cols ws s rs :
  Forall2 (stands_at cols ws) s rs → omap (λ k, raw_rect <$> ws !! k) s = rs.
Proof. induction 1 as [|k r s rs (d & Hd & _ & <-) _ IH]; simpl; [done|].
  rewrite Hd. simpl. f_equal. apply IH.
Qed.

Lemma omap_lookup_all {A B} (f : A → B) (l : list A) :
  omap (λ k, f <$> l !! k) (seq 0 (length l)) = f <$> l.
Proof.
  assert (∀ pre, omap (λ k, f <$> (pre ++ l) !! k) (seq (length pre) (length l)) = f <$> l) as H.
  { induction l as [|a l IH]; intros pre; simpl; [done|].
    rewrite list_lookup_middle by done. simpl. f_equal.
    specialize (IH (pre ++ [a])). rewrite length_app, Nat.add_comm in IH.
    by rewrite <-app_assoc in IH. }
  apply (H []).
Qed.

Lemma laid_out_rects cols ws s rs : laid_out cols ws s rs → rs ≡ₚ raw_rect <$> ws.
Proof.
  intros [Hp Hs _ _ _]. rewrite <-(stands_rects _ _ _ _ Hs), Hp. by rewrite omap_lookup_all.
Qed.

Lemma laid_out_clean cols ws s rs : laid_out cols ws s rs → Forall (clean cols) ws.
Proof.
  intros [Hp Hs _ _ _]. apply Forall_lookup. intros k d Hd.
  assert (k ∈ s) as Hk. { rewrite Hp. apply elem_of_seq. apply lookup_lt_Some in Hd. lia. }
  apply list_elem_of_lookup in Hk as [j Hj].
  destruct (Forall2_lookup_l _ _ _ _ _ Hs Hj) as (r & _ & d' & Hd' & Hcl & _). by simplify_eq.
Qed.

Lemma clean_y cols d : clean cols d → is_Some (w_y d).
Proof. intros <-. by eexists. Qed.

Lemma clean_positive cols d :
  1 ≤ cols → clean cols d → in_grid cols (raw_rect d).
Proof.
  intros Hc Hd. rewrite (clean_rect cols) by done.
  destruct (widgetToItem_bounds d cols Hc) as (? & ? & ? & ? & ?). 
  unfold in_grid; simpl in *. lia.
Qed.

(** A board laid out in an order is Edit mode's own geometry and reads in that order. *)
Lemma laid_out_settled cols ws s rs :
  1 ≤ cols → laid_out cols ws s rs →
  editGeometry ws cols = ws ∧ readingOrder ws cols = s.
Proof.
  intros Hc Hl. pose proof (laid_out_rects _ _ _ _ Hl) as Hrs.
  pose proof (laid_out_clean _ _ _ _ Hl) as Hcl. destruct Hl as [Hp Hs Hr Ha Hsup]. split.
  - unfold editGeometry. rewrite packWidgets_clean_id; [|done..|by rewrite <-Hrs].
    apply compact_settled_id.
    + eapply Forall_impl; [exact Hcl|]. intros d Hd. by apply clean_positive in Hd as (_ & ? & _).
    + by rewrite <-Hrs.
    + apply Forall_forall. intros r Hrin. rewrite <-Hrs in Hrin. rewrite Forall_forall in Hsup.
      eapply supported_mono; [|by apply Hsup]. intros q. by rewrite Hrs.
    + eapply Forall_impl; [exact Hcl|]. apply clean_y.
  - apply reading_unique; [done|]. clear Ha Hsup Hrs Hp.
    induction Hs as [|k r s rs Hk Hs IH]; [constructor|].
    apply StronglySorted_inv in Hr as [Hr Hk']. constructor; [by apply IH|].
    apply Forall_lookup. intros j k' Hj.
    destruct (Forall2_lookup_l _ _ _ _ _ Hs Hj) as (r' & Hr' & d' & Hd' & Hcl' & <-).
    rewrite Forall_lookup in Hk'. specialize (Hk' j _ Hr'). destruct Hk as (d & Hd & Hcld & <-).
    apply reads_le_spec. unfold item_pos, widgetsToLayout. rewrite !list_lookup_fmap, Hd, Hd'.
    simpl. unfold reads_strict in Hk'. rewrite !(clean_rect cols) in Hk' by done.
    simpl in Hk'. lia.
Qed.

(** ** [placeInOrder]: the loop's invariant *)
Record placed_ok (cols : Z) (placed : list PackRect) (prev : option (Z * Z)) := {
  po_reads : StronglySorted reads_strict placed;
  po_apart : all_apart placed;
  po_supported : Forall (supported placed) placed;
  po_grid : Forall (in_grid cols) placed;
  po_prev : prev = (λ r, (rx r, ry r)) <$> last placed;
}.

Lemma free_spec prev placed w h x y :
  free prev placed w h x y = true ↔
  (∀ p, prev = Some p → p.2 < y ∨ (p.2 = y ∧ p.1 < x)) ∧
  Forall (apart (Rect x y w h)) placed ∧
  (y = 0 ∨ ∃ p, p ∈ placed ∧ ry p + rh p = y ∧ rx p < x + w ∧ x < rx p + rw p).
Proof.
  unfold free. rewrite !andb_true_iff, negb_true_iff, existsb_false_Forall.
  assert (restsOn placed x y w = true ↔
    y = 0 ∨ ∃ p, p ∈ placed ∧ ry p + rh p = y ∧ rx p < x + w ∧ x < rx p + rw p) as ->.
  { unfold restsOn. rewrite orb_true_iff, existsb_exists, Z.eqb_eq. f_equiv. f_equiv. intros p.
    rewrite !andb_true_iff, Z.eqb_eq, Z.ltb_lt, Z.gtb_lt, <-list_elem_of_In. tauto. }
  assert (match prev with None => true | Some p => readsBefore p (x, y) end = true ↔
    (∀ p, prev = Some p → p.2 < y ∨ (p.2 = y ∧ p.1 < x))) as ->; [|tauto].
  destruct prev as [[px py]|]; [|naive_solver]. rewrite readsBefore_spec. simpl.
  split; [by intros H p [= <-]|intros H; by apply (H (px, py))].
Qed.

Lemma StronglySorted_last {A} (R : relation A) (l : list A) a z :
  Transitive R → StronglySorted R l → last l = Some z → R z a → Forall (λ b, R b a) l.
Proof.
  intros HT Hs Hl Hza. apply Forall_forall. intros b Hb.
  apply last_Some in Hl as [l' ->]. apply elem_of_app in Hb as [Hb|Hb].
  - apply StronglySorted_app in Hs as (Hs & _). etrans; [|exact Hza]. apply Hs; [done|left].
  - by apply list_elem_of_singleton in Hb as ->.
Qed.

#[export] Instance reads_strict_trans : Transitive reads_strict.
Proof. intros a b c. unfold reads_strict. lia. Qed.

Lemma free_snoc cols placed prev w h x y :
  placed_ok cols placed prev → 1 ≤ w → 1 ≤ h → 0 ≤ x → x + w ≤ cols →
  free prev placed w h x y = true → placed_ok cols (placed ++ [Rect x y w h]) (Some (x, y)).
Proof.
  intros [Hr Ha Hs Hg Hp] Hw Hh Hx Hxw (Hprev & Hap & Hrest)%free_spec. split.
  - apply StronglySorted_app_2; [|done|repeat constructor].
    intros a b Hain ->%list_elem_of_singleton.
    destruct (last placed) as [z|] eqn:Hl.
    + assert (Forall (λ b, reads_strict b (Rect x y w h)) placed) as Hall.
      { apply (StronglySorted_last _ _ _ z); [apply _|done..|].
        specialize (Hprev _ Hp). simpl in Hprev. unfold reads_strict; simpl. lia. }
      rewrite Forall_forall in Hall. by apply Hall.
    + apply last_None in Hl as ->. by apply elem_of_nil in Hain.
  - by apply all_apart_snoc.
  - apply Forall_app. split.
    + eapply Forall_impl; [exact Hs|]. intros r. apply supported_mono. set_solver.
    + constructor; [|constructor]. destruct Hrest as [->|(p & Hin & Hpy & Hpx)].
      * by left.
      * right. exists p. simpl. split_and!; [set_solver|lia..].
  - apply Forall_app. split; [done|]. constructor; [|constructor]. unfold in_grid; simpl.
    destruct Hrest as [->|(p & Hin & Hpy & _)]; [lia|].
    rewrite Forall_forall in Hg. destruct (Hg p Hin) as (_ & ? & _ & _ & ?). lia.
  - by rewrite last_snoc.
Qed.

Lemma elem_of_candidate_rows prev placed y :
  y ∈ candidate_rows prev placed ↔
  (∀ p, prev = Some p → p.2 ≤ y) ∧ (y = 0 ∨ ∃ p, p ∈ placed ∧ ry p + rh p = y).
Proof.
  unfold candidate_rows. rewrite elem_of_isort, list_elem_of_In, filter_In, <-list_elem_of_In.
  rewrite elem_of_js_set, elem_of_cons, list_elem_of_fmap.
  assert (match prev with None => true | Some p => p.2 <=? y end = true ↔
          (∀ p, prev = Some p → p.2 ≤ y)) as ->.
  { destruct prev as [p|]; [|naive_solver]. rewrite Z.leb_le. naive_solver. }
  naive_solver.
Qed.

Lemma first_spot_free prev placed w h cols s :
  first_spot prev placed w h cols = Some s →
  free prev placed w h s.1 s.2 = true ∧ 0 ≤ s.1 ∧ s.1 + w ≤ cols.
Proof.
  unfold first_spot. intros ([k s'] & Hf & ->)%fmap_Some.
  apply list_find_Some in Hf as (Hk & Hfree & _). simpl in *.
  split; [by apply Is_true_true|]. apply list_elem_of_lookup_2 in Hk.
  apply list_elem_of_bind in Hk as (y & Hk & _). apply list_elem_of_bind in Hk as (x & Hk & Hx).
  apply list_elem_of_singleton in Hk as ->. simpl. apply elem_of_seqZ in Hx. lia.
Qed.

Lemma bottom_edge_witness placed :
  bottom_edge placed = 0 ∨ ∃ q, q ∈ placed ∧ ry q + rh q = bottom_edge placed.
Proof.
  induction placed as [|p placed IH] using rev_ind; [by left|].
  rewrite bottom_edge_snoc. destruct (Z.max_spec (bottom_edge placed) (ry p + rh p)) as [[? ->]|[? ->]].
  - right. exists p. set_solver.
  - destruct IH as [->|(q & Hq & <-)]; [by left|right]. exists q. set_solver.
Qed.

(** The lowest bottom edge always offers a spot: the source's fallback is unreachable. *)
Lemma lowest_spot_free cols placed prev w h :
  placed_ok cols placed prev → 1 ≤ w ≤ cols → 1 ≤ h →
  ∃ x, 0 ≤ x ∧ x + w ≤ cols ∧ free prev placed w h x (bottom_edge placed) = true.
Proof.
  intros [Hr Ha Hs Hg Hp] Hw Hh. rewrite Forall_forall in Hg.
  assert (∀ x, Forall (apart (Rect x (bottom_edge placed) w h)) placed) as Hap.
  { intros x. apply Forall_forall. intros p Hin%bottom_edge_elem.
    unfold apart. rewrite rectsIntersect_false. simpl. lia. }
  assert (∀ p, prev = Some p → p.2 < bottom_edge placed) as Hprev.
  { intros p. rewrite Hp. intros (z & Hz & ->)%fmap_Some.
    apply last_Some_elem_of in Hz. pose proof (bottom_edge_elem _ _ Hz).
    destruct (Hg z Hz) as (_ & ? & _). simpl. lia. }
  destruct (bottom_edge_witness placed) as [H0|(q & Hq & Hqb)].
  - exists 0. split_and!; [lia..|]. apply free_spec. split_and!; [|apply Hap|by left].
    intros p Hpp. left. by apply Hprev.
  - destruct (Hg q Hq) as (? & ? & ? & ? & ?).
    exists (Z.min (rx q) (cols - w)). split_and!; [lia..|]. apply free_spec.
    split_and!; [|apply Hap|right; exists q; split_and!; [done|lia..]].
    intros p Hpp. left. by apply Hprev.
Qed.

Lemma first_spot_exists cols placed prev w h :
  placed_ok cols placed prev → 1 ≤ w ≤ cols → 1 ≤ h →
  is_Some (first_spot prev placed w h cols).
Proof.
  intros Hok Hw Hh. destruct (lowest_spot_free cols placed prev w h Hok Hw Hh) as (x & Hx & Hxw & Hf).
  unfold first_spot. apply fmap_is_Some.
  eapply (list_find_elem_of _ _ (x, bottom_edge placed)); [|by apply Is_true_true].
  apply list_elem_of_bind. exists (bottom_edge placed). split.
  - apply list_elem_of_bind. exists x. split; [by apply list_elem_of_singleton|].
    apply elem_of_seqZ. lia.
  - apply elem_of_candidate_rows. apply free_spec in Hf as (Hprev & _ & Hrest). split.
    + intros p Hp. specialize (Hprev p Hp). lia.
    + naive_solver.
Qed.

(** Where the loop puts the widget it takes next. *)
Definition spot_of (items : GridItemShape) (placed : list PackRect) (prev : option (Z * Z))
    (k keepFrom : nat) (cols : Z) : Z * Z :=
  let spot :=
    if (keepFrom <=? k)%nat && free prev placed (it_w items) (it_h items) (it_x items) (it_y items)
    then Some (it_x items, it_y items)
    else first_spot prev placed (it_w items) (it_h items) cols in
  match spot with Some s => s | None => (0, bottom_edge placed) end.

Lemma spot_of_ok cols it placed prev k keepFrom (s := spot_of it placed prev k keepFrom cols) :
  placed_ok cols placed prev → 1 ≤ it_w it → 1 ≤ it_h it → 0 ≤ it_x it → it_x it + it_w it ≤ cols →
  placed_ok cols (placed ++ [Rect s.1 s.2 (it_w it) (it_h it)]) (Some s).
Proof.
  intros Hok Hw Hh Hx Hxw. assert (free prev placed (it_w it) (it_h it) s.1 s.2 = true ∧
    0 ≤ s.1 ∧ s.1 + it_w it ≤ cols) as (Hf & H0 & H1).
  { unfold s, spot_of. destruct (_ && _) eqn:E.
    - apply andb_true_iff in E as [_ E]. done.
    - destruct (first_spot_exists cols placed prev (it_w it) (it_h it)) as [s' Hs']; [done|lia|done|].
      rewrite Hs'. by apply first_spot_free in Hs'. }
  destruct s as [sx sy]; simpl in *. by apply (free_snoc _ _ prev).
Qed.

(** The rectangles the loop places, in the order of the sequence. *)
Fixpoint loop_rects (items : list GridItemShape) (placed : list PackRect)
    (prev : option (Z * Z)) (k keepFrom : nat) (rest : list nat) (cols : Z) : list PackRect :=
  match rest with
  | [] => []
  | index :: rest' =>
      match items !! index with
      | Some it =>
          let s := spot_of it placed prev k keepFrom cols in
          let r := Rect s.1 s.2 (it_w it) (it_h it) in
          r :: loop_rects items (placed ++ [r]) (Some s) (S k) keepFrom rest' cols
      | None => []
      end
  end.

Lemma layout_lookup base cols j d :
  base !! j = Some d → widgetsToLayout base cols !! j = Some (widgetToItem d cols).
Proof. intros Hd. unfold widgetsToLayout. by rewrite list_lookup_fmap, Hd. Qed.

Lemma loop_rects_ok cols base placed prev k keepFrom rest :
  1 ≤ cols → placed_ok cols placed prev → Forall (λ j, j < length base)%nat rest →
  let rs := loop_rects (widgetsToLayout base cols) placed prev k keepFrom rest cols in
  (∃ prev', placed_ok cols (placed ++ rs) prev') ∧
  Forall2 (λ j r, ∃ d, base !! j = Some d ∧
             rw r = it_w (widgetToItem d cols) ∧ rh r = it_h (widgetToItem d cols)) rest rs.
Proof.
  intros Hc. revert placed prev k. induction rest as [|j rest IH]; intros placed prev k Hok Hlt; simpl.
  { rewrite app_nil_r. split; [by exists prev|constructor]. }
  apply Forall_cons in Hlt as [Hj Hlt]. apply lookup_lt_is_Some in Hj as [d Hd].
  rewrite !(layout_lookup _ _ _ _ Hd).
  destruct (widgetToItem_bounds d cols Hc) as (? & ? & ? & ? & ?).
  set (it := widgetToItem d cols) in *. set (s := spot_of it placed prev k keepFrom cols).
  destruct (IH (placed ++ [Rect s.1 s.2 (it_w it) (it_h it)]) (Some s) (S k)) as [Hpo Hrs].
  - apply spot_of_ok; try done; lia.
  - done.
  - rewrite cons_middle, app_assoc. split; [done|]. constructor; [|done]. by exists d.
Qed.

(** The loop writes exactly those rectangles' positions, and nothing else. *)
Lemma place_loop_writes cols base next placed prev k keepFrom rest :
  Forall (λ j, j < length base)%nat rest → NoDup rest → length next = length base →
  let rs := loop_rects (widgetsToLayout base cols) placed prev k keepFrom rest cols in
  let out := place_loop (widgetsToLayout base cols) base next placed prev k keepFrom rest cols in
  length out = length base ∧ (∀ j, j ∉ rest → out !! j = next !! j) ∧
  Forall2 (λ j r, ∃ d, base !! j = Some d ∧ out !! j = Some (with_xy d (rx r) (ry r))) rest rs.
Proof.
  revert next placed prev k. induction rest as [|j rest IH]; intros next placed prev k Hlt Hnd Hlen; simpl.
  { split_and!; [done|done|constructor]. }
  apply Forall_cons in Hlt as [Hj Hlt]. apply NoDup_cons in Hnd as [Hnj Hnd].
  pose proof Hj as [d Hd]%lookup_lt_is_Some.
  rewrite !(layout_lookup _ _ _ _ Hd), !Hd.
  fold (spot_of (widgetToItem d cols) placed prev k keepFrom cols).
  set (it := widgetToItem d cols). set (s := spot_of it placed prev k keepFrom cols).
  destruct (IH (<[j := with_xy d s.1 s.2]> next)
              (placed ++ [Rect s.1 s.2 (it_w it) (it_h it)]) (Some s) (S k)) as (H1 & H2 & H3).
  - done.
  - done.
  - by rewrite length_insert.
  - split_and!.
    + exact H1.
    + intros i [Hne Hi]%not_elem_of_cons. rewrite H2 by done. by apply list_lookup_insert_ne.
    + constructor; [|exact H3]. exists d. split; [done|]. simpl.
      etrans; [apply H2, Hnj|]. apply list_lookup_insert_eq. lia.
Qed.

(** ** Edit mode's geometry is laid out in its own reading order *)
Definition rects_in (ws : list DashboardWidget) (s : list nat) : list PackRect :=
  omap (λ k, raw_rect <$> ws !! k) s.

Lemma rects_in_stands cols ws s :
  Forall (clean cols) ws → Forall (λ k, k < length ws)%nat s →
  Forall2 (stands_at cols ws) s (rects_in ws s).
Proof.
  intros Hcl. induction 1 as [|k s Hk Hs IH]; [constructor|].
  apply lookup_lt_is_Some in Hk as [d Hd]. unfold rects_in; simpl. rewrite Hd. simpl.
  constructor; [|exact IH]. exists d. rewrite Forall_lookup in Hcl. eauto.
Qed.

Lemma perm_seq_lt s n : s ≡ₚ seq 0 n → Forall (λ k, k < n)%nat s.
Proof.
  intros Hp. apply Forall_forall. intros k Hk. rewrite Hp in Hk. apply elem_of_seq in Hk. lia.
Qed.

Lemma reading_strict cols ws s :
  1 ≤ cols → Forall (clean cols) ws → Forall (λ k, k < length ws)%nat s →
  all_apart (rects_in ws s) → StronglySorted (reads_le (widgetsToLayout ws cols)) s →
  StronglySorted reads_strict (rects_in ws s).
Proof.
  intros Hc Hcl Hlt Hap Hs. pose proof (rects_in_stands cols ws s Hcl Hlt) as Hst. clear Hlt.
  induction Hst as [|k r s rs (d & Hd & Hcld & <-) Hst IH]; [constructor|].
  apply StronglySorted_inv in Hs as [Hs Hk], Hap as [Hap Hka].
  constructor; [by apply IH|]. apply Forall_lookup. intros j r' Hr'.
  rewrite Forall_lookup in Hka. specialize (Hka j r' Hr').
  destruct (Forall2_lookup_r _ _ _ _ _ Hst Hr') as (k' & Hk' & d' & Hd' & Hcld' & <-).
  rewrite Forall_lookup in Hk. specialize (Hk j k' Hk'). apply reads_le_spec in Hk.
  unfold item_pos in Hk. rewrite (layout_lookup _ _ _ _ Hd), (layout_lookup _ _ _ _ Hd') in Hk.
  destruct (widgetToItem_bounds d cols Hc) as (? & ? & _).
  destruct (widgetToItem_bounds d' cols Hc) as (? & ? & _).
  unfold apart in Hka. rewrite rectsIntersect_false in Hka.
  rewrite !(clean_rect cols) in Hka |- * by done. unfold reads_strict, rect_of_item in *.
  cbn [rx ry rw rh fst snd] in *. lia.
Qed.

Lemma laid_out_reading cols ws :
  1 ≤ cols → Forall (clean cols) ws → all_apart (raw_rect <$> ws) →
  Forall (supported (raw_rect <$> ws)) (raw_rect <$> ws) →
  laid_out cols ws (readingOrder ws cols) (rects_in ws (readingOrder ws cols)).
Proof.
  intros Hc Hcl Hap Hsup.
  assert (rects_in ws (readingOrder ws cols) ≡ₚ raw_rect <$> ws) as Hp.
  { unfold rects_in. by rewrite reading_perm, omap_lookup_all. }
  pose proof (perm_seq_lt _ _ (reading_perm ws cols)) as Hlt.
  assert (all_apart (rects_in ws (readingOrder ws cols))) as Hap' by (by rewrite Hp).
  split; [apply reading_perm|by apply rects_in_stands| |done|].
  - apply (reading_strict cols); try done. apply reading_sorted.
  - apply Forall_forall. intros r Hr. rewrite Hp in Hr. rewrite Forall_forall in Hsup.
    eapply supported_mono; [|by apply Hsup]. intros q. by rewrite Hp.
Qed.

Lemma edit_laid_out ws cols (base := editGeometry ws cols) :
  1 ≤ cols → (2 ≤ length ws)%nat → stacked_height ws cols ≤ MAX_ROWS →
  laid_out cols base (readingOrder base cols) (rects_in base (readingOrder base cols)).
Proof.
  intros Hc Hl Hh. destruct (compact_sound (packWidgets ws cols)) as [Hap Hsup];
    [by apply pack_positive|].
  apply laid_out_reading; [done|by apply compact_pack_clean|done|done].
Qed.

(** ** A prefix of a laid-out board is a good starting point *)
Lemma supported_prefix l l' :
  StronglySorted reads_strict (l ++ l') → Forall (λ r, 1 ≤ rh r) (l ++ l') →
  Forall (supported (l ++ l')) (l ++ l') → Forall (supported l) l.
Proof.
  intros (Hll & Hl & Hl')%StronglySorted_app Hh Hs. apply Forall_app in Hs as [Hs _].
  rewrite Forall_forall in Hs, Hh. apply Forall_forall. intros r Hr.
  destruct (Hs r Hr) as [?|(p & Hp & Hpy & Hpx)]; [by left|right]. exists p. split; [|done].
  pose proof (Hh p Hp) as Hph. simpl in Hph. apply elem_of_app in Hp as [Hp|Hp]; [done|exfalso].
  specialize (Hll r p Hr Hp). unfold reads_strict in Hll. lia.
Qed.

Lemma laid_out_heights cols ws s rs :
  1 ≤ cols → laid_out cols ws s rs → Forall (in_grid cols) rs.
Proof.
  intros Hc Hl. rewrite (laid_out_rects _ _ _ _ Hl). apply Forall_fmap.
  eapply Forall_impl; [by eapply laid_out_clean|]. intros d. by apply clean_positive.
Qed.

Lemma prefix_ok cols ws s rs n :
  1 ≤ cols → laid_out cols ws s rs →
  placed_ok cols (take n rs) ((λ r, (rx r, ry r)) <$> last (take n rs)).
Proof.
  intros Hc Hl. pose proof (laid_out_heights _ _ _ _ Hc Hl) as Hg. destruct Hl as [_ _ Hr Ha Hs].
  rewrite <-(take_drop n rs) in Hr, Ha, Hs, Hg. split.
  - by apply StronglySorted_app in Hr as (_ & ? & _).
  - by apply StronglySorted_app in Ha as (_ & ? & _).
  - eapply supported_prefix; [exact Hr| |exact Hs].
    eapply Forall_impl; [exact Hg|]. by intros r (_ & ? & _).
  - by apply Forall_app in Hg as [? _].
  - done.
Qed.

Lemma stands_item cols ws s rs :
  1 ≤ cols → Forall2 (stands_at cols ws) s rs →
  omap (λ k, rect_of_item <$> widgetsToLayout ws cols !! k) s = rs.
Proof.
  intros Hc. induction 1 as [|k r s rs (d & Hd & Hcl & <-) _ IH]; [done|]. simpl.
  rewrite (layout_lookup _ _ _ _ Hd). simpl. rewrite <-clean_rect by done. f_equal. apply IH.
Qed.

Lemma stands_prev cols ws s rs n :
  1 ≤ cols → Forall2 (stands_at cols ws) s rs → (n ≤ length s)%nat →
  match n with
  | O => None
  | S f => k ← s !! f; it ← widgetsToLayout ws cols !! k; Some (it_x it, it_y it)
  end = (λ r, (rx r, ry r)) <$> last (take n rs).
Proof.
  intros Hc Hst Hn. destruct n as [|f]; [done|].
  destruct (lookup_lt_is_Some_2 s f Hn) as [k Hk]. rewrite Hk. simpl.
  destruct (Forall2_lookup_l _ _ _ _ _ Hst Hk) as (r & Hr & d & Hd & Hcl & <-).
  rewrite (layout_lookup _ _ _ _ Hd), (take_S_r _ _ _ Hr), last_snoc.
  cbn [fmap option_fmap option_map mbind option_bind].
  by rewrite (clean_rect cols) by done.
Qed.

(** ** The re-placed board *)
Lemma bottom_edge_heights placed :
  StronglySorted reads_strict placed → Forall (λ r, 1 ≤ rh r) placed →
  Forall (supported placed) placed → bottom_edge placed ≤ Zsum (rh <$> placed).
Proof.
  induction placed as [|r placed IH] using rev_ind; intros Hr Hh Hs; [done|].
  pose proof (supported_prefix _ _ Hr Hh Hs) as Hs'.
  rewrite bottom_edge_snoc, fmap_app, Zsum_app. cbn [fmap list_fmap]. rewrite Zsum_cons.
  apply StronglySorted_app in Hr as (_ & Hr & _). apply Forall_app in Hh as [Hh Hhr].
  specialize (IH Hr Hh Hs'). apply Forall_app in Hs as [_ Hrs].
  rewrite Forall_singleton in Hrs, Hhr. pose proof (bottom_edge_nonneg placed).
  change (Zsum []) with 0. destruct Hrs as [Hy|(p & Hp & Hpy & _)]; [lia|].
  apply elem_of_app in Hp as [Hp|Hp%list_elem_of_singleton]; [|subst p; lia].
  pose proof (bottom_edge_elem _ _ Hp). lia.
Qed.

(** A placed widget keeps its size. *)
Definition sized_as (cols : Z) (ws : list DashboardWidget) (k : nat) (r : PackRect) : Prop :=
  ∃ d, ws !! k = Some d ∧ rw r = it_w (widgetToItem d cols) ∧ rh r = it_h (widgetToItem d cols).

Lemma stands_sized cols ws k r : 1 ≤ cols → stands_at cols ws k r → sized_as cols ws k r.
Proof.
  intros Hc (d & Hd & Hcl & <-). exists d. by rewrite (clean_rect cols) by done.
Qed.

Lemma sized_heights cols ws s rs :
  1 ≤ cols → Forall (clean cols) ws → s ≡ₚ seq 0 (length ws) →
  Forall2 (sized_as cols ws) s rs → Zsum (rh <$> rs) = Zsum (rh <$> (raw_rect <$> ws)).
Proof.
  intros Hc Hcl Hp Hs. rewrite <-(omap_lookup_all raw_rect ws), <-Hp. f_equal. clear Hp.
  induction Hs as [|k r s rs (d & Hd & _ & Hh) _ IH]; [done|]. rewrite Forall_lookup in Hcl.
  cbn [omap list_omap]. rewrite Hd. cbn [fmap option_fmap option_map list_fmap].
  rewrite Hh, (clean_rect cols) by eauto. f_equal. exact IH.
Qed.

(** Every widget of [base] is still there, with the same id and size. *)
Definition moved (d d' : DashboardWidget) : Prop := d' = d ∨ ∃ x y, d' = with_xy d x y.

Lemma placed_clean cols d r :
  1 ≤ cols → clean cols d → in_grid cols r → ry r ≤ MAX_ROWS →
  rw r = it_w (widgetToItem d cols) → rh r = it_h (widgetToItem d cols) →
  clean cols (with_xy d (rx r) (ry r)) ∧ raw_rect (with_xy d (rx r) (ry r)) = r.
Proof.
  intros Hc Hcl (H1 & H2 & H3 & H4 & H5) Hy Hw Hh.
  assert (w_w d = Some (rw r) ∧ w_h d = Some (rh r)) as [Ew Eh]
    by (rewrite Hw, Hh; rewrite <-Hcl at 1 3; done).
  destruct (widgetToItem_bounds d cols Hc) as (_ & ? & _).
  destruct (clean_intro cols (with_xy d (rx r) (ry r)) (rx r) (ry r) (rw r) (rh r))
    as [Hcl' Hr]; [done..|lia|lia|lia|lia|lia|].
  split; [done|]. rewrite (clean_rect cols), Hr by done. by destruct r.
Qed.

Lemma kept_laid_out cols base s rs sequence lo keepFrom
    (kept := placeInOrder base sequence lo keepFrom cols) :
  1 ≤ cols → laid_out cols base s rs → sequence ≡ₚ s → take lo sequence = take lo s →
  (lo ≤ length s)%nat → Zsum (rh <$> (raw_rect <$> base)) ≤ MAX_ROWS →
  (∃ rs', laid_out cols kept sequence rs') ∧ Forall2 moved base kept.
Proof.
  intros Hc Hl Hps Htk Hlo Hh. pose proof (laid_out_clean _ _ _ _ Hl) as Hcl.
  pose proof (lo_perm _ _ _ _ Hl) as Hperm. pose proof (lo_stands _ _ _ _ Hl) as Hst.
  rewrite <-Hps in Hperm. pose proof (perm_seq_lt _ _ Hperm) as Hlt.
  assert (NoDup sequence) as Hnd by (rewrite Hperm; apply NoDup_seq).
  rewrite <-(take_drop lo sequence) in Hlt, Hnd, Hperm.
  apply Forall_app in Hlt as [_ Hlt]. apply NoDup_app in Hnd as (_ & Hdisj & Hnd).
  unfold kept, placeInOrder.
  assert (omap (λ k, rect_of_item <$> widgetsToLayout base cols !! k) (take lo sequence) = take lo rs)
    as -> by (rewrite Htk; apply stands_item, Forall2_take; done).
  assert (match lo with
          | O => None
          | S f => k ← sequence !! f; it ← widgetsToLayout base cols !! k; Some (it_x it, it_y it)
          end = (λ r, (rx r, ry r)) <$> last (take lo rs)) as ->.
  { rewrite <-(stands_prev _ _ _ _ _ Hc Hst Hlo). destruct lo as [|f]; [done|].
    by rewrite <-(lookup_take_lt sequence (S f) f), Htk, lookup_take_lt by lia. }
  pose proof (prefix_ok _ _ _ _ lo Hc Hl) as Hok.
  set (prev := _ <$> last _) in *.
  destruct (loop_rects_ok cols base _ prev lo keepFrom _ Hc Hok Hlt) as [(pv & Hall) Hsz].
  destruct (place_loop_writes cols base base (take lo rs) prev lo keepFrom _ Hlt Hnd eq_refl)
    as (Hlen & Hkeep & Hput).
  set (out := place_loop _ _ _ _ _ _ _ _ _) in *. set (lr := loop_rects _ _ _ _ _ _ _) in *.
  assert (Forall2 (stands_at cols base) (take lo sequence) (take lo rs)) as Hst1
    by (rewrite Htk; by apply Forall2_take).
  assert (Forall2 (sized_as cols base) (take lo sequence ++ drop lo sequence) (take lo rs ++ lr))
    as Hsized.
  { apply Forall2_app; [|exact Hsz]. eapply Forall2_impl; [exact Hst1|].
    intros k r. by apply stands_sized. }
  pose proof (sized_heights _ _ _ _ Hc Hcl Hperm Hsized) as Hsum. destruct Hall as [Hr Ha Hs Hg _].
  assert (bottom_edge (take lo rs ++ lr) ≤ MAX_ROWS) as Hbot.
  { rewrite <-Hsum in Hh. etrans; [|exact Hh]. apply bottom_edge_heights; [done| |done].
    eapply Forall_impl; [exact Hg|]. by intros r (_ & ? & _). }
  split.
  - exists (take lo rs ++ lr). split; [|..|done|done|done].
    + by rewrite Hlen, <-(take_drop lo sequence).
    + rewrite <-(take_drop lo sequence) at 1. apply Forall2_app.
      * apply Forall2_same_length_lookup_2; [by eapply Forall2_length|].
        intros j k r Hk Hrj. destruct (Forall2_lookup_lr _ _ _ _ _ _ Hst1 Hk Hrj) as (d & Hd & ? & ?).
        exists d. rewrite Hkeep; [done|]. by eapply Hdisj, list_elem_of_lookup_2.
      * apply Forall_app in Hg as [_ Hg]. 
        apply Forall2_same_length_lookup_2; [by eapply Forall2_length|]. intros j k r Hk Hrj.
        assert (ry r ≤ MAX_ROWS).
        { pose proof (bottom_edge_elem (take lo rs ++ lr) r) as Hb.
          rewrite Forall_lookup in Hg. destruct (Hg _ _ Hrj) as (_ & ? & _).
          enough (r ∈ take lo rs ++ lr) by (specialize (Hb ltac:(done)); lia).
          apply elem_of_app. right. by eapply list_elem_of_lookup_2. }
        destruct (Forall2_lookup_lr _ _ _ _ _ _ Hput Hk Hrj) as (d & Hd & Ho).
        destruct (Forall2_lookup_lr _ _ _ _ _ _ Hsz Hk Hrj) as (d' & Hd' & Hw & Hhr).
        simplify_eq. exists (with_xy d (rx r) (ry r)). split; [exact Ho|].
        rewrite Forall_lookup in Hg. apply (placed_clean cols d r); try done; [|by eapply Hg].
        rewrite List.Forall_forall in Hcl. apply Hcl, list_elem_of_In. by eapply list_elem_of_lookup_2.
  - apply Forall2_same_length_lookup_2; [done|]. intros j d d' Hd Hd'.
    destruct (decide (j ∈ drop lo sequence)) as [[i Hi]%list_elem_of_lookup|Hj].
    + destruct (Forall2_lookup_l _ _ _ _ _ Hput Hi) as (r & _ & d2 & Hd2 & Ho). simplify_eq.
      right. by exists (rx r), (ry r).
    + left. rewrite Hkeep in Hd' by done. by simplify_eq.
Qed.

(** ** Trading two neighbours *)
Definition swap_at {A} (lo : nat) (l : list A) : list A :=
  match l !! lo, l !! S lo with
  | Some a, Some b => take lo l ++ [b; a] ++ drop (lo + 2) l
  | _, _ => l
  end.

Lemma split_pair {A} lo (l : list A) a b :
  l !! lo = Some a → l !! S lo = Some b → l = take lo l ++ [a; b] ++ drop (lo + 2) l.
Proof.
  intros Ha Hb. rewrite <-(take_drop lo l) at 1. f_equal.
  rewrite (drop_S _ _ _ Ha), (drop_S _ _ _ Hb). simpl. by rewrite Nat.add_comm.
Qed.

Lemma swap_at_perm {A} lo (l : list A) : swap_at lo l ≡ₚ l.
Proof.
  unfold swap_at. destruct (l !! lo) as [a|] eqn:Ha; [|done].
  destruct (l !! S lo) as [b|] eqn:Hb; [|done].
  rewrite (split_pair _ _ _ _ Ha Hb) at 3. f_equiv. simpl. apply perm_swap.
Qed.

Lemma swap_at_fmap {A B} (f : A → B) lo l : f <$> swap_at lo l = swap_at lo (f <$> l).
Proof.
  unfold swap_at. rewrite !list_lookup_fmap. destruct (l !! lo) as [a|]; [|done].
  destruct (l !! S lo) as [b|]; [|done]. simpl.
  by rewrite fmap_app, fmap_take, !fmap_cons, fmap_drop.
Qed.

Lemma pair_start_lt dir at_ n lo : (at_ < n)%nat → pair_start dir at_ n = Some lo → (S lo < n)%nat.
Proof.
  destruct dir; simpl; intros Hn Hp.
  - destruct at_; [done|]. simplify_eq. lia.
  - destruct (Nat.ltb_spec (S at_) n); simplify_eq. lia.
Qed.

(** The id of the widget at [k], where there is one. *)
Definition id_at (ws : list DashboardWidget) (k : nat) : string :=
  default "" (widgetId <$> ws !! k).

Lemma omap_id_at ws s :
  Forall (λ k, k < length ws)%nat s → omap (λ k, widgetId <$> ws !! k) s = id_at ws <$> s.
Proof.
  induction 1 as [|k s Hk _ IH]; [done|]. apply lookup_lt_is_Some in Hk as [d Hd].
  cbn [omap list_omap fmap list_fmap]. unfold id_at at 1. rewrite Hd. simpl. f_equal. exact IH.
Qed.

Lemma orderOfIds_id_at ws cols : orderOfIds ws cols = id_at ws <$> readingOrder ws cols.
Proof. apply omap_id_at, perm_seq_lt, reading_perm. Qed.

Lemma same_geometry_refl cols d : same_geometry cols d d = true.
Proof. unfold same_geometry. by rewrite !Z.eqb_refl. Qed.

Lemma settledInOrder_intro ws ids cols :
  editGeometry ws cols = ws → orderOfIds ws cols = ids → settledInOrder ws ids cols = true.
Proof.
  intros He Ho. unfold settledInOrder. rewrite He, Ho, bool_decide_eq_true_2, andb_true_r by done.
  clear. induction ws; simpl; [done|]. by rewrite same_geometry_refl.
Qed.

Lemma moved_id d d' : moved d d' → widgetId d' = widgetId d.
Proof. by intros [->|(x & y & ->)]. Qed.

Lemma moved_ids ws ws' : Forall2 moved ws ws' → widgetId <$> ws' = widgetId <$> ws.
Proof. induction 1; simpl; [done|]. f_equal; [by apply moved_id|done]. Qed.

Lemma id_at_ids ws ws' k : widgetId <$> ws' = widgetId <$> ws → id_at ws' k = id_at ws k.
Proof. intros H. unfold id_at. by rewrite <-!list_lookup_fmap, H. Qed.

Lemma insert_ids (ws : list DashboardWidget) (k : nat) d d' :
  ws !! k = Some d → widgetId d' = widgetId d → widgetId <$> <[k := d']> ws = widgetId <$> ws.
Proof.
  intros Hk Hd. rewrite list_fmap_insert, Hd. apply list_insert_id.
  by rewrite list_lookup_fmap, Hk.
Qed.

Lemma insert_pair_ids (ws : list DashboardWidget) (j k : nat) dj dk dj' dk' :
  ws !! j = Some dj → ws !! k = Some dk → widgetId dj' = widgetId dj → widgetId dk' = widgetId dk →
  widgetId <$> <[j := dj']> (<[k := dk']> ws) = widgetId <$> ws.
Proof.
  intros Hj Hk Hdj Hdk. rewrite list_fmap_insert, (insert_ids ws k dk dk'), Hdj by done.
  apply list_insert_id. by rewrite list_lookup_fmap, Hj.
Qed.

Lemma simpleTrade_ids base j k dj dk cols out :
  base !! j = Some dj → base !! k = Some dk → simpleTrade base j k dj dk cols = Some out →
  widgetId <$> out = widgetId <$> base.
Proof.
  intros Hj Hk. unfold simpleTrade. repeat case_match; intros; simplify_eq;
    by apply (insert_pair_ids _ _ _ dj dk).
Qed.

Lemma slotTrade_ids base j k cols out :
  slotTrade base j k cols = Some out → widgetId <$> out = widgetId <$> base.
Proof.
  unfold slotTrade. intros (dj & Hj & (dk & Hk & (ra & _ & (rb & _ & [= <-])%bind_Some)
    %bind_Some)%bind_Some)%bind_Some.
  by apply (insert_pair_ids _ _ _ dk dj).
Qed.

Lemma findWidget_lt ws order id at_ : findWidget ws order id = Some at_ → (at_ < length order)%nat.
Proof.
  unfold findWidget. intros ([k j] & Hf & ->)%fmap_Some.
  apply list_find_Some in Hf as [Hk _]. by apply lookup_lt_Some in Hk.
Qed.

Lemma edit_heights ws cols :
  1 ≤ cols → (2 ≤ length ws)%nat →
  Zsum (rh <$> (raw_rect <$> editGeometry ws cols)) = stacked_height ws cols.
Proof.
  intros Hc Hl. rewrite <-pack_heights by done. f_equal. unfold editGeometry.
  pose proof (compact_kept (packWidgets ws cols)) as Hk.
  induction Hk as [|d d' l l' (y & ->) _ IH]; [done|].
  cbn [fmap list_fmap]. rewrite IH. by rewrite raw_rect_with_y.
Qed.

(** A trade is taken only when it reads as asked; otherwise the board is laid out again. *)
Lemma reorder_swaps ws id dir cols at_ lo (base := editGeometry ws cols)
    (out := reorderWidget ws id dir cols) :
  1 ≤ cols → (2 ≤ length ws)%nat → stacked_height ws cols ≤ MAX_ROWS →
  findWidget base (readingOrder base cols) id = Some at_ →
  pair_start dir at_ (length base) = Some lo →
  settledInOrder out (swap_at lo (orderOfIds base cols)) cols = true ∧
  widgetId <$> out = widgetId <$> base.
Proof.
  intros Hc Hl Hh Hf Hp. unfold out, reorderWidget. fold base. rewrite Hf.
  pose proof (edit_laid_out ws cols Hc Hl Hh) as Hlaid. fold base in Hlaid.
  assert (length (readingOrder base cols) = length base) as Hlen
    by (by rewrite reading_perm, length_seq).
  rewrite Hlen, Hp. pose proof (findWidget_lt _ _ _ _ Hf) as Hat. rewrite Hlen in Hat.
  pose proof (pair_start_lt _ _ _ _ Hat Hp) as Hlo.
  rewrite orderOfIds_id_at. set (order := readingOrder base cols) in *.
  destruct (lookup_lt_is_Some_2 order lo) as [j Hj]; [lia|].
  destruct (lookup_lt_is_Some_2 order (S lo)) as [k Hk]; [lia|].
  pose proof (perm_seq_lt _ _ (lo_perm _ _ _ _ Hlaid)) as Hlt.
  destruct (lookup_lt_is_Some_2 base j) as [dj Hdj]; [by eapply (Forall_lookup_1 _ _ _ _ Hlt)|].
  destruct (lookup_lt_is_Some_2 base k) as [dk Hdk]; [by eapply (Forall_lookup_1 _ _ _ _ Hlt)|].
  rewrite Hj, Hk, Hdj, Hdk.
  assert (take lo order ++ [k; j] ++ drop (lo + 2) order = swap_at lo order) as ->
    by (unfold swap_at; by rewrite Hj, Hk).
  rewrite omap_id_at, swap_at_fmap by (by rewrite swap_at_perm).
  set (wanted := swap_at lo (id_at base <$> order)).
  assert (settledInOrder (placeInOrder base (swap_at lo order) lo (lo + 2) cols) wanted cols = true ∧
          widgetId <$> placeInOrder base (swap_at lo order) lo (lo + 2) cols = widgetId <$> base)
    as Hkept.
  { destruct (kept_laid_out cols base order (rects_in base order) (swap_at lo order) lo (lo + 2))
      as [(rs' & Hlaid') Hmoved]; try done.
    - apply swap_at_perm.
    - unfold swap_at. rewrite Hj, Hk, take_app_length'; [done|]. rewrite length_take. lia.
    - lia.
    - unfold base. by rewrite edit_heights.
    - split; [|by apply moved_ids]. destruct (laid_out_settled _ _ _ _ Hc Hlaid') as [He Hr].
      apply settledInOrder_intro; [done|]. rewrite orderOfIds_id_at, Hr.
      unfold wanted. rewrite <-swap_at_fmap. apply list_fmap_ext. intros i x _.
      by apply id_at_ids, moved_ids. }
  set (kept := placeInOrder _ _ _ _ _) in *.
  assert (∀ t, simpleTrade base j k dj dk cols = Some t → widgetId <$> t = widgetId <$> base)
    as Htrade by (intros t; by apply simpleTrade_ids).
  assert (∀ t, slotTrade base j k cols = Some t → widgetId <$> t = widgetId <$> base)
    as Hslot by (intros t; by apply slotTrade_ids).
  repeat case_match; simplify_eq; try done; split; auto;
    repeat match goal with H : _ && _ = true |- _ => apply andb_true_iff in H as [? ?] end; done.
Qed.

(** ** Appending a widget *)
Lemma head_isort_elem {A} (le : A → A → bool) l a : head (isort le l) = Some a → a ∈ l.
Proof.
  intros Hh. rewrite <-(elem_of_isort le). destruct (isort le l); simplify_eq/=. left.
Qed.

(** Something ends on the floor, unless the board is empty. *)
Lemma floor_widget (le : PackRect → PackRect → bool) (rects : list PackRect) cols :
  Forall (in_grid cols) rects → rects ≠ [] →
  is_Some (head (isort le (filter (λ r, ry r + rh r = bottom_edge rects) rects))).
Proof.
  intros Hg Hne. set (l := filter _ rects).
  assert (∃ a, a ∈ l) as [a Ha].
  { destruct (bottom_edge_witness rects) as [H0|(q & Hq & Hb)].
    - destruct rects as [|a rects]; [done|]. exfalso.
      pose proof (bottom_edge_elem (a :: rects) a (list_elem_of_here _ _)).
      apply Forall_cons in Hg as [(? & ? & ? & ? & ?) _]. lia.
    - exists q. by apply list_elem_of_filter. }
  rewrite <-(elem_of_isort le) in Ha. destruct (isort le l); [|by eexists].
  by apply elem_of_nil in Ha.
Qed.

Lemma rects_of_items cols ws :
  1 ≤ cols → Forall (clean cols) ws → rect_of_item <$> widgetsToLayout ws cols = raw_rect <$> ws.
Proof.
  intros Hc. unfold widgetsToLayout. induction 1 as [|d ws Hd _ IH]; [done|].
  cbn [fmap list_fmap]. f_equal; [by rewrite (clean_rect cols)|exact IH].
Qed.

Lemma laid_out_snoc cols ws s rs d :
  1 ≤ cols → laid_out cols ws s rs → clean cols d → ry (raw_rect d) = bottom_edge rs →
  (bottom_edge rs = 0 ∨ ∃ p, p ∈ rs ∧ ry p + rh p = bottom_edge rs ∧
     rx p < rx (raw_rect d) + rw (raw_rect d) ∧ rx (raw_rect d) < rx p + rw p) →
  laid_out cols (ws ++ [d]) (s ++ [length ws]) (rs ++ [raw_rect d]).
Proof.
  intros Hc Hl Hd Hy Hsup. pose proof (laid_out_heights _ _ _ _ Hc Hl) as Hg.
  destruct Hl as [Hp Hst Hr Ha Hs]. split.
  - rewrite length_app, Hp, Nat.add_1_r, seq_S. done.
  - apply Forall2_app.
    + eapply Forall2_impl; [exact Hst|]. intros k r (d' & Hd' & ?). exists d'.
      split; [by apply lookup_app_l_Some|done].
    + constructor; [|constructor]. exists d. split; [|done].
      by rewrite lookup_app_r, Nat.sub_diag by lia.
  - apply StronglySorted_app_2; [|done|repeat constructor].
    intros a b Hain ->%list_elem_of_singleton. left. rewrite Hy.
    pose proof (bottom_edge_elem _ _ Hain). rewrite Forall_forall in Hg.
    destruct (Hg _ Hain) as (_ & ? & _). lia.
  - apply all_apart_snoc; [done|]. apply Forall_forall. intros p Hpin.
    apply rectsIntersect_false. pose proof (bottom_edge_elem _ _ Hpin). lia.
  - apply Forall_app. split.
    + eapply Forall_impl; [exact Hs|]. intros r. apply supported_mono. set_solver.
    + constructor; [|constructor]. destruct Hsup as [H0|(p & Hpin & Hpy & Hpx)].
      * left. lia.
      * right. exists p. rewrite Hy. split; [set_solver|done].
Qed.

Lemma bottom_edge_mono l l' : l ⊆ l' → bottom_edge l ≤ bottom_edge l'.
Proof.
  intros Hsub. destruct (bottom_edge_witness l) as [->|(q & Hq & <-)]; [auto with console|].
  by apply bottom_edge_elem, Hsub.
Qed.

#[export] Instance bottom_edge_Permutation : Proper ((≡ₚ) ==> (=)) bottom_edge.
Proof.
  intros l l' Hp. apply Z.le_antisymm; apply bottom_edge_mono; intros q; by rewrite Hp.
Qed.

Lemma length_edit ws cols :
  1 ≤ cols → (2 ≤ length ws)%nat → length (editGeometry ws cols) = length ws.
Proof.
  intros Hc Hl. unfold editGeometry. rewrite length_compactVertically. symmetry.
  eapply Forall2_length, packWidgets_same; done.
Qed.

(** The appended widget reads last, and the board is settled as it stands. *)
Lemma append_reads_last ws d cols w h (base := editGeometry ws cols) :
  1 ≤ cols → (2 ≤ length ws)%nat → stacked_height ws cols ≤ MAX_ROWS →
  w_w d = Some w → w_h d = Some h → 1 ≤ w ≤ cols → 1 ≤ h ≤ MAX_ROWS →
  editGeometry (appendWidget ws d cols) cols = appendWidget ws d cols ∧
  orderOfIds (appendWidget ws d cols) cols = orderOfIds (editGeometry ws cols) cols ++ [widgetId d].
Proof.
  intros Hc Hl Hh Hw Hdh Hwc Hhc.
  pose proof (edit_laid_out ws cols Hc Hl Hh) as Hlaid. fold base in Hlaid.
  pose proof (laid_out_clean _ _ _ _ Hlaid) as Hcl. pose proof (laid_out_rects _ _ _ _ Hlaid) as Hrs.
  pose proof (laid_out_heights _ _ _ _ Hc Hlaid) as Hg.
  assert (it_w (widgetToItem d cols) = w) as Hiw
    by (unfold widgetToItem; cbn; rewrite Hw; apply clampInt_id; lia).
  rewrite Hrs in Hg. pose proof (length_edit ws cols Hc Hl) as Hlen. fold base in Hlen.
  destruct (floor_widget (λ a b, rx a - rx b <=? 0) (raw_rect <$> base) cols) as [u Hu]; [done| |].
  { intros E%fmap_nil_inv. rewrite E in Hlen. simpl in Hlen. lia. }
  assert (appendWidget ws d cols =
          base ++ [with_xy d (Z.min (rx u) (cols - w)) (bottom_edge (raw_rect <$> base))]) as ->.
  { unfold appendWidget. fold base. rewrite Hiw, rects_of_items by done. cbv zeta.
    by rewrite Hu. }
  apply head_isort_elem, list_elem_of_filter in Hu as [Hfl Hu].
  pose proof (proj1 (Forall_forall _ _) Hg u Hu) as (Hu1 & Hu2 & Hu3 & Hu4 & Hu5).
  assert (bottom_edge (raw_rect <$> base) ≤ MAX_ROWS) as Hb.
  { rewrite <-(edit_heights ws cols) in Hh by done. fold base in Hh. rewrite <-Hrs in Hh |- *.
    etrans; [|exact Hh].
    apply bottom_edge_heights; [by destruct Hlaid| |by destruct Hlaid].
    rewrite Hrs. eapply Forall_impl; [exact Hg|]. by intros r (_ & ? & _). }
  pose proof (bottom_edge_nonneg (raw_rect <$> base)).
  set (fl := bottom_edge (raw_rect <$> base)) in *. set (x := Z.min (rx u) (cols - w)).
  destruct (clean_intro cols (with_xy d x fl) x fl w h) as [Hcd Hrd]; [done..|lia|lia|lia|lia|lia|].
  rewrite <-clean_rect in Hrd by done.
  assert (laid_out cols (base ++ [with_xy d x fl]) (readingOrder base cols ++ [length base])
            (rects_in base (readingOrder base cols) ++ [raw_rect (with_xy d x fl)])) as Hl2.
  { apply laid_out_snoc; [done..| |]; rewrite Hrd, Hrs; [done|]. right. exists u.
    rewrite Hrs. split_and!; [done..| |]; cbn; lia. }
  destruct (laid_out_settled _ _ _ _ Hc Hl2) as [He Hr]. split; [done|].
  rewrite !orderOfIds_id_at, Hr, fmap_app. f_equal.
  - apply list_fmap_ext. intros i k Hk. unfold id_at. rewrite lookup_app_l; [done|].
    eapply (Forall_lookup_1 _ _ _ _ (perm_seq_lt _ _ (reading_perm base cols))), Hk.
  - cbn. unfold id_at. by rewrite lookup_app_r, Nat.sub_diag by lia.
Qed.

(** ** The theorems *)

(** Moving a widget one step through the reading order trades it with its neighbour and
    changes no other pair: the board the user gets is settled (Edit mode changes nothing in
    it) and reads as the old order with the two ids exchanged, whichever of the three
    strategies (in-place trade, re-placement, slot trade) produced it. No widget is lost. *)
Theorem reorderWidget_swaps ws id dir cols at_ lo (base := editGeometry ws cols)
    (out := reorderWidget ws id dir cols) :
  1 ≤ cols → (2 ≤ length ws)%nat → stacked_height ws cols ≤ MAX_ROWS →
  findWidget base (readingOrder base cols) id = Some at_ →
  pair_start dir at_ (length base) = Some lo →
  settledInOrder out (swap_at lo (orderOfIds base cols)) cols = true ∧
  widgetId <$> out = widgetId <$> base.
Proof. apply reorder_swaps. Qed.

Lemma reorderWidget_swaps_witness :
  settledInOrder (reorderWidget demo_board "c" RUp 12) ["a"; "c"; "b"] 12 = true.
Proof.
  refine (proj1 (reorderWidget_swaps demo_board "c" RUp 12 2 1 _ _ _ _ _)); vm_compute; reflexivity || (try discriminate); lia.
Defined.

(** At the end of the order, or for an id the board does not have, the move returns the
    board in Edit mode's geometry. *)
Theorem reorderWidget_stays ws id dir cols (base := editGeometry ws cols) :
  (∀ at_, findWidget base (readingOrder base cols) id = Some at_ →
     pair_start dir at_ (length (readingOrder base cols)) = None) →
  reorderWidget ws id dir cols = base.
Proof.
  intros H. unfold reorderWidget. fold base. destruct (findWidget _ _ _) as [at_|]; [|done].
  by rewrite (H at_ eq_refl).
Qed.

Lemma reorderWidget_stays_witness :
  reorderWidget demo_board "a" RUp 12 = editGeometry demo_board 12.
Proof.
  apply (reorderWidget_stays demo_board "a" RUp 12). intros at_ H.
  vm_compute in H. injection H as <-. reflexivity.
Defined.

(** Edit mode leaves the board as it stands. *)
Definition edit_fixed (cols : Z) (ws : list DashboardWidget) : Prop := editGeometry ws cols = ws.

(** A widget appended at its own size reads last, after the order the board had, and the
    board is settled as it stands: compaction does not lift the new widget past another. *)
Theorem appendWidget_reads_last ws d cols w h :
  1 ≤ cols → (2 ≤ length ws)%nat → stacked_height ws cols ≤ MAX_ROWS →
  w_w d = Some w → w_h d = Some h → 1 ≤ w ≤ cols → 1 ≤ h ≤ MAX_ROWS →
  edit_fixed cols (appendWidget ws d cols) ∧
  orderOfIds (appendWidget ws d cols) cols = orderOfIds (editGeometry ws cols) cols ++ [widgetId d].
Proof. apply append_reads_last. Qed.

Lemma appendWidget_reads_last_witness :
  orderOfIds (appendWidget demo_board (demo_widget "d" 0 0 4 2) 12) 12 = ["a"; "b"; "c"; "d"].
Proof.
  destruct (appendWidget_reads_last demo_board (demo_widget "d" 0 0 4 2) 12 4 2) as [_ H];
    [lia|cbn; lia|vm_compute; discriminate|done|done|lia|unfold MAX_ROWS; lia|].
  rewrite H. vm_compute. reflexivity.
Defined.
