(* ===== verification/Activity.v ===== *)
(** * Chat activity: the snapshot and its writers
    (soc/chat-activity/store.ts, soc/chat-activity/activity.ts) *)

From S2P Require Import Prelude.
From stdpp Require Import pretty.
Local Open Scope Z_scope.

(** ** Entries *)
Inductive ChatActivityStatus := Running | NeedsInput | Unread | Failed.
Inductive ChatActivityKind := Workspace | CaseChat.
Inductive ChatSource := Local_ | Peer | Server.
Inductive ChatActivityOutcome := ODone | ONeedsInput | OError | OStopped.
Inductive ChatOrigin :=
  | OrUser | OrFollowUp | OrStarter | OrCommand | OrContinue | OrClarify | OrRetryStep.

#[export] Instance ChatActivityStatus_eq_dec : EqDecision ChatActivityStatus.
Proof. solve_decision. Defined.
#[export] Instance ChatActivityKind_eq_dec : EqDecision ChatActivityKind.
Proof. solve_decision. Defined.
#[export] Instance ChatSource_eq_dec : EqDecision ChatSource.
Proof. solve_decision. Defined.
#[export] Instance ChatActivityOutcome_eq_dec : EqDecision ChatActivityOutcome.
Proof. solve_decision. Defined.
#[export] Instance ChatOrigin_eq_dec : EqDecision ChatOrigin.
Proof. solve_decision. Defined.

Record ChatActivity := mkActivity {
  a_scope : string;
  a_kind : ChatActivityKind;
  a_conversationId : option string;
  a_caseId : option string;
  a_turnId : option string;
  a_requestKey : option string;
  a_title : string;
  a_label : option string;
  a_lookups : Z;
  a_status : ChatActivityStatus;
  a_seen : option bool;
  a_startedAt : Z;
  a_source : ChatSource;
  a_parked : option bool;
}.

#[export] Instance ChatActivity_eq_dec : EqDecision ChatActivity.
Proof. solve_decision. Defined.

Record ChatActivitySummary := mkSummary {
  su_status : option ChatActivityStatus;
  su_text : string;
}.

#[export] Instance ChatActivitySummary_eq_dec : EqDecision ChatActivitySummary.
Proof. solve_decision. Defined.

(** A summary is an object that hosts compare by identity: [so_ref] is that identity. *)
Record SummaryObj := mkSummaryObj { so_ref : nat; so_val : ChatActivitySummary }.

Definition IDLE : ChatActivitySummary := mkSummary None "".

Record ChatActivitySnapshot := mkSnapshot {
  sn_entries : list ChatActivity;
  sn_animatedBrand : bool;
  sn_workspace : SummaryObj;
  sn_case : SummaryObj;
  sn_all : SummaryObj;
}.

(** ** Wording *)
Definition PHRASES : list (ChatActivityStatus * string * string) :=
  [(Running, "answer in progress", "answers in progress");
   (NeedsInput, "question needs your input", "questions need your input");
   (Failed, "answer failed", "answers failed");
   (Unread, "new answer", "new answers")].

Definition isNews (e : ChatActivity) : bool :=
  negb (bool_decide (a_status e = NeedsInput) && bool_decide (a_seen e = Some true)).

Definition TITLE_CHARS : nat := 120.

(** [chars.slice(0, n).join('')] *)
Fixpoint take_chars (n : nat) (s : string) : string :=
  match n, s with
  | S n', String c s' => String c (take_chars n' s')
  | _, _ => EmptyString
  end.

(** The ellipsis character. *)
Definition ellipsis : string := String (Ascii.ascii_of_nat 133) EmptyString.

Definition chatActivityTitle (e : ChatActivity) : string :=
  let text :=
    match a_kind e, a_caseId e with
    | CaseChat, Some c =>
        if String.eqb c "" then a_title e
        else "Case " +:+ c +:+ (if String.eqb (a_title e) "" then "" else ": " +:+ a_title e)
    | _, _ => a_title e
    end in
  if (TITLE_CHARS <? String.length text)%nat
  then trimEnd (take_chars (TITLE_CHARS - 1) text) +:+ ellipsis
  else text.

(** One row of the loop of [describeChatActivity] over [PHRASES]. *)
Definition phrase_part (news : list ChatActivity) (row : ChatActivityStatus * string * string)
    : option string :=
  let '(kind, one, several) := row in
  match filter (λ e, a_status e = kind) news with
  | [] => None
  | [e] =>
      let title := chatActivityTitle e in
      Some ("1 " +:+ one +:+ (if String.eqb title "" then "" else ": " +:+ title))
  | group => Some (pretty (N.of_nat (length group)) +:+ " " +:+ several)
  end.

Definition describeChatActivity (entries : list ChatActivity) (label : string)
    : ChatActivitySummary :=
  let news := List.filter isNews entries in
  let parts := omap (phrase_part news) PHRASES in
  let status :=
    head (omap (λ row, (λ _, row.1.1) <$> phrase_part news row) PHRASES) in
  mkSummary status (match parts with [] => "" | _ => label +:+ ": " +:+ join_strings "; " parts end).

(** ** This tab *)

Record SettleOptions := mkSettleOptions {
  op_unreachable : bool;
  op_prompt : option string;
  op_origin : option ChatOrigin;
  op_topic : option string;
  op_attached : bool;
  op_followed : bool;
}.

Definition no_options : SettleOptions := mkSettleOptions false None None None false false.

Inductive SeenWhere := Here | Elsewhere.

#[export] Instance SeenWhere_eq_dec : EqDecision SeenWhere.
Proof. solve_decision. Defined.

(** A followed turn waiting out its grace. [ps_timer] is the timer's id; since every timer
    has its own, it is also the identity of this object. *)
Record PendingSettle := mkPending {
  ps_turnId : option string;
  ps_seen : option SeenWhere;
  ps_timer : nat;
}.

(** What the timer's callback closed over. *)
Record GraceTimer := mkTimer {
  gt_scope : string;
  gt_outcome : ChatActivityOutcome;
  gt_local : bool;
  gt_options : SettleOptions;
  gt_after : Z;
}.

Record ChatSettlePolicy := mkPolicy {
  seenElsewhere : ChatActivity → bool;
  followedGraceMs : Z;
}.

Inductive ChatActivityMessage :=
  | MPut (a : ChatActivity)
  | MDrop (s : string)
  | MSeen (s : string)
  | MClear.

(** [event.unreachable], with what "Ask again" needs. *)
Record AskAgain := mkAskAgain {
  aa_prompt : option string;
  aa_origin : option ChatOrigin;
  aa_topic : option string;
}.

Record ChatActivitySettled := mkSettled {
  st_activity : ChatActivity;
  st_outcome : ChatActivityOutcome;
  st_viewed : bool;
  st_unreachable : option AskAgain;
}.

(** What the listeners are told. *)
Inductive Event :=
  | EvSettled (e : ChatActivitySettled)
  | EvShown (turnId : string)
  | EvClear.

(** The module state of activity.ts and store.ts, the page's visibility, the pending timers,
    and what went out: messages to other tabs, events to listeners. *)
Record Tab := mkTab {
  t_snap : ChatActivitySnapshot;
  t_nextRef : nat;
  t_pending : gmap string PendingSettle;
  t_timers : gmap nat GraceTimer;
  t_nextTimer : nat;
  t_viewing : list (nat * string);
  t_nextToken : nat;
  t_viewed : list string;
  t_caseRequest : option (string * Z);
  t_sink : bool;
  t_outbox : list ChatActivityMessage;
  t_events : list Event;
  t_policy : option ChatSettlePolicy;
  t_visible : bool;
}.

Definition with_snap (t : Tab) (s : ChatActivitySnapshot) (r : nat) : Tab :=
  mkTab s r (t_pending t) (t_timers t) (t_nextTimer t) (t_viewing t) (t_nextToken t)
    (t_viewed t) (t_caseRequest t) (t_sink t) (t_outbox t) (t_events t) (t_policy t) (t_visible t).
Definition with_pending (t : Tab) (p : gmap string PendingSettle) (ts : gmap nat GraceTimer)
    (n : nat) : Tab :=
  mkTab (t_snap t) (t_nextRef t) p ts n (t_viewing t) (t_nextToken t)
    (t_viewed t) (t_caseRequest t) (t_sink t) (t_outbox t) (t_events t) (t_policy t) (t_visible t).
Definition with_viewing (t : Tab) (v : list (nat * string)) (n : nat) (seen : list string) : Tab :=
  mkTab (t_snap t) (t_nextRef t) (t_pending t) (t_timers t) (t_nextTimer t) v n
    seen (t_caseRequest t) (t_sink t) (t_outbox t) (t_events t) (t_policy t) (t_visible t).
Definition with_case_request (t : Tab) (r : option (string * Z)) : Tab :=
  mkTab (t_snap t) (t_nextRef t) (t_pending t) (t_timers t) (t_nextTimer t) (t_viewing t)
    (t_nextToken t) (t_viewed t) r (t_sink t) (t_outbox t) (t_events t) (t_policy t) (t_visible t).
Definition with_env (t : Tab) (sink : bool) (p : option ChatSettlePolicy) (v : bool) : Tab :=
  mkTab (t_snap t) (t_nextRef t) (t_pending t) (t_timers t) (t_nextTimer t) (t_viewing t)
    (t_nextToken t) (t_viewed t) (t_caseRequest t) sink (t_outbox t) (t_events t) p v.
Definition emit (e : Event) (t : Tab) : Tab :=
  mkTab (t_snap t) (t_nextRef t) (t_pending t) (t_timers t) (t_nextTimer t) (t_viewing t)
    (t_nextToken t) (t_viewed t) (t_caseRequest t) (t_sink t) (t_outbox t) (t_events t ++ [e])
    (t_policy t) (t_visible t).

Definition send (m : ChatActivityMessage) (local : bool) (t : Tab) : Tab :=
  if local && t_sink t
  then mkTab (t_snap t) (t_nextRef t) (t_pending t) (t_timers t) (t_nextTimer t) (t_viewing t)
         (t_nextToken t) (t_viewed t) (t_caseRequest t) (t_sink t) (t_outbox t ++ [m]) (t_events t)
         (t_policy t) (t_visible t)
  else t.

Definition entries (t : Tab) : list ChatActivity := sn_entries (t_snap t).

Definition find_entry (scope : string) (t : Tab) : option ChatActivity :=
  head (filter (λ e, a_scope e = scope) (entries t)).

Definition isViewing (scope : string) (t : Tab) : bool :=
  existsb (λ token, String.eqb token.2 scope) (t_viewing t).

Definition isChatActivityViewed (scope : string) (t : Tab) : bool :=
  isViewing scope t && t_visible t.

(** [keep(previous, next)]: [next] is the object allocated at [ref]. *)
Definition keep (previous : SummaryObj) (ref : nat) (next : ChatActivitySummary) : SummaryObj :=
  if bool_decide (so_val previous = next) then previous else mkSummaryObj ref next.

Definition commit (es : list ChatActivity) (brand : bool) (t : Tab) : Tab :=
  let before := t_snap t in
  let r := t_nextRef t in
  with_snap t
    (mkSnapshot es brand
       (keep (sn_workspace before) r
          (describeChatActivity (filter (λ e, a_kind e = Workspace) es) "Chat"))
       (keep (sn_case before) (S r)
          (describeChatActivity (filter (λ e, a_kind e = CaseChat) es) "Case chat"))
       (keep (sn_all before) (S (S r)) (describeChatActivity es "Chat")))
    (r + 3).

Definition replace (entry : option ChatActivity) (scope : string) (t : Tab) : Tab :=
  let rest := filter (λ e, a_scope e ≠ scope) (entries t) in
  commit (match entry with Some e => e :: rest | None => rest end) (sn_animatedBrand (t_snap t)) t.

(** ** Writers *)

(** [cancelPending(scope)] *)
Definition cancelPending (scope : string) (t : Tab) : Tab :=
  match t_pending t !! scope with
  | Some held =>
      with_pending t (delete scope (t_pending t)) (delete (ps_timer held) (t_timers t))
        (t_nextTimer t)
  | None => t
  end.

(** [cancelPending()]: every timer a pending settle holds. *)
Definition cancelAllPending (t : Tab) : Tab :=
  with_pending t ∅
    (map_fold (λ _ held ts, delete (ps_timer held) ts) (t_timers t) (t_pending t)) (t_nextTimer t).

Definition isChatActivitySettling (scope : string) (t : Tab) : bool :=
  bool_decide (is_Some (t_pending t !! scope)).

Definition clearChatActivity (local : bool) (t : Tab) : Tab :=
  let t := cancelAllPending t in
  let t := match entries t with [] => t | _ => commit [] (sn_animatedBrand (t_snap t)) t end in
  let t := with_case_request t None in
  let t := emit EvClear t in
  send MClear local t.

Definition showChatTurns (turnIds : list (option string)) (t : Tab) : Tab :=
  foldl (λ t id, match id with
                 | Some id => if String.eqb id "" then t else emit (EvShown id) t
                 | None => t
                 end) t turnIds.

(** [setAnimatedBrand]; the browser's copy in localStorage is not modelled. *)
Definition setAnimatedBrand (value : bool) (t : Tab) : Tab :=
  if Bool.eqb (sn_animatedBrand (t_snap t)) value then t else commit (entries t) value t.

Definition putChatActivity (entry : ChatActivity) (local : bool) (t : Tab) : Tab :=
  let current := find_entry (a_scope entry) t in
  let overridden :=
    bool_decide (a_source entry = Server) &&
    match current with Some c => bool_decide (a_source c ≠ Server) | None => false end in
  if overridden then t
  else
    let t := match t_pending t !! a_scope entry with
             | Some held => if decide (ps_turnId held = a_turnId entry) then t
                            else cancelPending (a_scope entry) t
             | None => t
             end in
    send (MPut entry) local (replace (Some entry) (a_scope entry) t).

(** The default of [putChatActivity]'s second argument. *)
Definition is_local (e : ChatActivity) : bool := bool_decide (a_source e = Local_).

Definition with_scope (e : ChatActivity) (s : string) : ChatActivity :=
  mkActivity s (a_kind e) (a_conversationId e) (a_caseId e) (a_turnId e) (a_requestKey e)
    (a_title e) (a_label e) (a_lookups e) (a_status e) (a_seen e) (a_startedAt e) (a_source e)
    (a_parked e).

(** [{ ...e, seen: true }] *)
Definition with_seen (e : ChatActivity) : ChatActivity :=
  mkActivity (a_scope e) (a_kind e) (a_conversationId e) (a_caseId e) (a_turnId e)
    (a_requestKey e) (a_title e) (a_label e) (a_lookups e) (a_status e) (Some true)
    (a_startedAt e) (a_source e) (a_parked e).

(** [{ ...e, source: 'peer' }] *)
Definition as_peer (e : ChatActivity) : ChatActivity :=
  mkActivity (a_scope e) (a_kind e) (a_conversationId e) (a_caseId e) (a_turnId e)
    (a_requestKey e) (a_title e) (a_label e) (a_lookups e) (a_status e) (a_seen e)
    (a_startedAt e) Peer (a_parked e).

(** [{ ...e, status, seen, label: null, parked: false }] *)
Definition settled_as (e : ChatActivity) (status : ChatActivityStatus) (seen : bool) : ChatActivity :=
  mkActivity (a_scope e) (a_kind e) (a_conversationId e) (a_caseId e) (a_turnId e)
    (a_requestKey e) (a_title e) None (a_lookups e) status (Some seen)
    (a_startedAt e) (a_source e) (Some false).

(** [patchChatActivity]: the patch is the update it makes of the current entry. *)
Definition patchChatActivity (scope : string) (patch : ChatActivity → ChatActivity) (t : Tab) : Tab :=
  match find_entry scope t with
  | Some current => let e := with_scope (patch current) scope in putChatActivity e (is_local e) t
  | None => t
  end.

Definition dropChatActivity (scope : string) (local : bool) (t : Tab) : Tab :=
  let t := cancelPending scope t in
  match find_entry scope t with
  | None => t
  | Some _ => send (MDrop scope) local (replace None scope t)
  end.

Definition viewedChanged (t : Tab) : Tab :=
  with_viewing t (t_viewing t) (t_nextToken t) (js_set ((t_viewing t).*2)).

Definition rekeyChatActivity (from to : string) (patch : ChatActivity → ChatActivity) (t : Tab) : Tab :=
  if String.eqb from to then t
  else
    let moved := existsb (λ token, String.eqb token.2 from) (t_viewing t) in
    let t := with_viewing t
               ((λ token, if String.eqb token.2 from then (token.1, to) else token) <$> t_viewing t)
               (t_nextToken t) (t_viewed t) in
    let t := if moved then viewedChanged t else t in
    match find_entry from t with
    | None => t
    | Some current =>
        let e := with_scope (patch current) to in
        putChatActivity e (is_local e) (dropChatActivity from true t)
    end.

Definition policy_seen (e : ChatActivity) (t : Tab) : bool :=
  match t_policy t with Some p => seenElsewhere p e | None => false end.

Definition finish_status (outcome : ChatActivityOutcome) (viewed unreachable : bool)
    : option ChatActivityStatus :=
  if unreachable then None
  else
    match outcome with
    | ONeedsInput => Some NeedsInput
    | OStopped => None
    | ODone => if viewed then None else Some Unread
    | OError => if viewed then None else Some Failed
    end.

Definition finishSettle (current : ChatActivity) (outcome : ChatActivityOutcome) (local : bool)
    (options : SettleOptions) (seen : option SeenWhere) (t : Tab) : Tab :=
  let scope := a_scope current in
  let here := bool_decide (seen = Some Here) || isChatActivityViewed scope t
              || (op_attached options && t_visible t) in
  let viewed := here || bool_decide (seen = Some Elsewhere) || policy_seen current t in
  let t := match finish_status outcome viewed (op_unreachable options) with
           | Some status => putChatActivity (settled_as current status viewed) local t
           | None => dropChatActivity scope local t
           end in
  let t := if here && bool_decide (outcome ≠ OStopped)
           then showChatTurns [a_turnId current] t else t in
  emit (EvSettled (mkSettled current outcome viewed
          (if op_unreachable options
           then Some (mkAskAgain (op_prompt options) (op_origin options) (op_topic options))
           else None))) t.

(** [setTimeout(callback, after)] for the pending settle of [scope]. *)
Definition hold (scope : string) (turnId : option string) (timer : GraceTimer) (t : Tab) : Tab :=
  with_pending t (<[scope := mkPending turnId None (t_nextTimer t)]> (t_pending t))
    (<[t_nextTimer t := timer]> (t_timers t)) (S (t_nextTimer t)).

Definition settleChatActivity (scope : string) (outcome : ChatActivityOutcome) (local : bool)
    (options : SettleOptions) (t : Tab) : Tab :=
  match find_entry scope t with
  | None => t
  | Some current =>
      let t := cancelPending scope t in
      let here := isChatActivityViewed scope t || (op_attached options && t_visible t) in
      let grace :=
        if local && op_followed options && negb here && bool_decide (outcome ≠ OStopped)
        then match t_policy t with Some p => followedGraceMs p | None => 0 end
        else 0 in
      if (0 <? grace) && negb (policy_seen current t)
      then hold scope (a_turnId current) (mkTimer scope outcome local options grace) t
      else finishSettle current outcome local options (if here then Some Here else None) t
  end.

(** The grace timer [id] runs out. A cleared timer never does. *)
Definition graceElapsed (id : nat) (t : Tab) : Tab :=
  match t_timers t !! id with
  | None => t
  | Some job =>
      let scope := gt_scope job in
      let t := with_pending t (t_pending t) (delete id (t_timers t)) (t_nextTimer t) in
      match t_pending t !! scope with
      | None => t
      | Some held =>
          if (ps_timer held =? id)%nat then
            let t := with_pending t (delete scope (t_pending t)) (t_timers t) (t_nextTimer t) in
            match find_entry scope t with
            | None => t
            | Some now =>
                if bool_decide (a_status now = Running) && bool_decide (a_turnId now = ps_turnId held)
                then finishSettle now (gt_outcome job) (gt_local job) (gt_options job) (ps_seen held) t
                else t
            end
          else t
      end
  end.

Definition markChatActivitySeen (scope : string) (local elsewhere : bool) (t : Tab) : Tab :=
  match find_entry scope t with
  | None => t
  | Some current =>
      if default false (a_seen current) then t
      else
        match a_status current with
        | Running =>
            match t_pending t !! scope with
            | Some held =>
                if decide (ps_seen held = Some Here) then t
                else
                  let seen := if local && negb elsewhere then Here else Elsewhere in
                  with_pending t
                    (<[scope := mkPending (ps_turnId held) (Some seen) (ps_timer held)]> (t_pending t))
                    (t_timers t) (t_nextTimer t)
            | None => t
            end
        | NeedsInput | Unread | Failed =>
            let t := match a_status current with
                     | NeedsInput => replace (Some (with_seen current)) scope t
                     | _ => replace None scope t
                     end in
            let t := send (MSeen scope) local t in
            if local && negb elsewhere then showChatTurns [a_turnId current] t else t
        end
  end.

Definition markViewedChatActivitySeen (t : Tab) : Tab :=
  foldl (λ t scope, markChatActivitySeen scope true false t) t (js_set ((t_viewing t).*2)).

(** [viewChatActivity(scope)]: the new view's token is [t_nextToken]. *)
Definition viewChatActivity (scope : string) (t : Tab) : Tab :=
  let t := with_viewing t (t_viewing t ++ [(t_nextToken t, scope)]) (S (t_nextToken t)) (t_viewed t) in
  let t := viewedChanged t in
  if t_visible t then markChatActivitySeen scope true false t else t.

(** The release [viewChatActivity] returned, for its token; released once, it does nothing. *)
Definition releaseView (token : nat) (t : Tab) : Tab :=
  if existsb (λ tok, (tok.1 =? token)%nat) (t_viewing t)
  then viewedChanged (with_viewing t (List.filter (λ tok, negb (tok.1 =? token)%nat) (t_viewing t))
                        (t_nextToken t) (t_viewed t))
  else t.

Definition CASE_CHAT_REQUEST_MS : Z := 30000.

Definition requestCaseChat (caseId : string) (now : Z) (t : Tab) : Tab :=
  with_case_request t (Some (caseId, now)).

Definition takeCaseChatRequest (caseId : string) (now : Z) (t : Tab) : Tab * bool :=
  match t_caseRequest t with
  | Some (c, at_) =>
      if String.eqb c caseId
      then (with_case_request t None, now - at_ <=? CASE_CHAT_REQUEST_MS)
      else (t, false)
  | None => (t, false)
  end.

(** The outcome a settled entry of another tab stands for. *)
Definition outcome_of (s : ChatActivityStatus) : ChatActivityOutcome :=
  match s with Unread => ODone | Failed => OError | _ => ONeedsInput end.

Definition applyChatActivityMessage (m : ChatActivityMessage) (t : Tab) : Tab :=
  match m with
  | MClear => clearChatActivity false t
  | MDrop s => dropChatActivity s false t
  | MSeen s => markChatActivitySeen s false false t
  | MPut a =>
      let before := find_entry (a_scope a) t in
      match before with
      | Some b =>
          if decide (a_source b = Local_) then t
          else
            let entry := as_peer a in
            if bool_decide (a_status b = Running) && bool_decide (a_status entry ≠ Running)
            then settleChatActivity (a_scope entry) (outcome_of (a_status entry)) false no_options
                   (replace (Some (as_peer b)) (a_scope entry) t)
            else putChatActivity entry false t
      | None => putChatActivity (as_peer a) false t
      end
  end.

(** ** The module's life: every call that can change it, and the grace timers running out *)
Inductive op :=
  | OpPut (e : ChatActivity) (local : bool)
  | OpPatch (scope : string) (patch : ChatActivity → ChatActivity)
  | OpRekey (from to : string) (patch : ChatActivity → ChatActivity)
  | OpDrop (scope : string) (local : bool)
  | OpSettle (scope : string) (outcome : ChatActivityOutcome) (local : bool) (options : SettleOptions)
  | OpGrace (timer : nat)
  | OpSeen (scope : string) (local elsewhere : bool)
  | OpSeenViewed
  | OpView (scope : string)
  | OpRelease (token : nat)
  | OpApply (m : ChatActivityMessage)
  | OpClear (local : bool)
  | OpBrand (value : bool)
  | OpShow (turnIds : list (option string))
  | OpRequest (caseId : string) (now : Z)
  | OpTake (caseId : string) (now : Z)
  | OpEnv (sink : bool) (policy : option ChatSettlePolicy) (visible : bool).

Definition run_op (o : op) (t : Tab) : Tab :=
  match o with
  | OpPut e local => putChatActivity e local t
  | OpPatch scope patch => patchChatActivity scope patch t
  | OpRekey from to patch => rekeyChatActivity from to patch t
  | OpDrop scope local => dropChatActivity scope local t
  | OpSettle scope outcome local options => settleChatActivity scope outcome local options t
  | OpGrace timer => graceElapsed timer t
  | OpSeen scope local elsewhere => markChatActivitySeen scope local elsewhere t
  | OpSeenViewed => markViewedChatActivitySeen t
  | OpView scope => viewChatActivity scope t
  | OpRelease token => releaseView token t
  | OpApply m => applyChatActivityMessage m t
  | OpClear local => clearChatActivity local t
  | OpBrand value => setAnimatedBrand value t
  | OpShow turnIds => showChatTurns turnIds t
  | OpRequest caseId now => requestCaseChat caseId now t
  | OpTake caseId now => (takeCaseChatRequest caseId now t).1
  | OpEnv sink policy visible => with_env t sink policy visible
  end.

Definition run_ops (ops : list op) (t : Tab) : Tab := foldl (λ t o, run_op o t) t ops.

(** A fresh page: the three summaries are the one IDLE object. *)
Definition initial (brand : bool) : Tab :=
  let idle := mkSummaryObj 0 IDLE in
  mkTab (mkSnapshot [] brand idle idle idle) 1 ∅ ∅ 0 [] 0 [] None false [] [] None true.
