(* ===== verification/ActivitySpec.v ===== *)
(** * Chat activity: the invariant of the module state, and what each writer does *)

From S2P Require Import Prelude Activity.
Local Open Scope Z_scope.

(** ** Looking entries up *)
Definition find_in (s : string) (es : list ChatActivity) : option ChatActivity :=
  head (filter (λ e, a_scope e = s) es).

Lemma find_entry_in s t : find_entry s t = find_in s (entries t).
Proof. done. Qed.

Lemma find_in_Some s es e : find_in s es = Some e → e ∈ es ∧ a_scope e = s.
Proof.
  unfold find_in. intros H. assert (e ∈ filter (λ e, a_scope e = s) es) as Hin.
  { destruct (filter _ _); simplify_eq/=. left. }
  apply list_elem_of_filter in Hin. naive_solver.
Qed.

Lemma find_in_None s es : find_in s es = None ↔ s ∉ a_scope <$> es.
Proof.
  unfold find_in. induction es as [|e es IH]; simpl.
  - split; [|done]. intros _. apply not_elem_of_nil.
  - rewrite filter_cons. destruct (decide (a_scope e = s)); simpl.
    + split; [done|]. intros H. exfalso. apply H. rewrite e0. left.
    + rewrite IH, not_elem_of_cons. naive_solver.
Qed.

Lemma filter_other_scope s s' es :
  s ≠ s' → find_in s (filter (λ e, a_scope e ≠ s') es) = find_in s es.
Proof.
  intros Hne. unfold find_in. induction es as [|e es IH]; [done|].
  rewrite !filter_cons. destruct (decide (a_scope e ≠ s')) as [|Hs]; rewrite ?filter_cons.
  - by destruct (decide (a_scope e = s)).
  - destruct (decide (a_scope e = s)); [|done]. exfalso. apply Hs. congruence.
Qed.

Lemma filter_same_scope s es : find_in s (filter (λ e, a_scope e ≠ s) es) = None.
Proof.
  apply find_in_None. intros (e & He0 & He)%list_elem_of_fmap.
  apply list_elem_of_filter in He. naive_solver.
Qed.

Lemma NoDup_filter_scope (P : ChatActivity → Prop) `{∀ e, Decision (P e)} es :
  NoDup (a_scope <$> es) → NoDup (a_scope <$> filter P es).
Proof.
  induction es as [|e es IH]; [done|]. rewrite filter_cons, fmap_cons. intros [Hn Hd]%NoDup_cons.
  destruct (decide (P e)); [|by apply IH]. rewrite fmap_cons. constructor; [|by apply IH].
  intros (e' & Heq & He')%list_elem_of_fmap. apply Hn. rewrite Heq.
  apply list_elem_of_filter in He' as [_ He']. apply list_elem_of_fmap. by exists e'.
Qed.

Lemma find_in_NoDup es e : NoDup (a_scope <$> es) → e ∈ es → find_in (a_scope e) es = Some e.
Proof.
  induction es as [|e' es IH]; [by intros _ ?%elem_of_nil|]. intros [Hn Hd]%NoDup_cons Hin.
  unfold find_in in *. rewrite filter_cons. apply elem_of_cons in Hin as [<-|Hin].
  - by rewrite decide_True.
  - rewrite decide_False; [by apply IH|]. intros Heq. apply Hn. rewrite Heq.
    apply list_elem_of_fmap. by exists e.
Qed.

(** ** The invariant *)

(** The precomputed summary of each navigation destination is what its entries say. *)
Record sums_ok (s : ChatActivitySnapshot) : Prop := {
  ok_workspace : so_val (sn_workspace s) =
    describeChatActivity (filter (λ e, a_kind e = Workspace) (sn_entries s)) "Chat";
  ok_case : so_val (sn_case s) =
    describeChatActivity (filter (λ e, a_kind e = CaseChat) (sn_entries s)) "Case chat";
  ok_all : so_val (sn_all s) = describeChatActivity (sn_entries s) "Chat";
}.

(** The entry of a chat that waits out a grace, if it has one, is about the held turn. *)
Definition held_turn (t : Tab) (scope : string) (held : PendingSettle) : Prop :=
  ∀ e, find_entry scope t = Some e → a_turnId e = ps_turnId held.

Record tab_wf (t : Tab) : Prop := {
  wf_scopes : NoDup (a_scope <$> entries t);
  wf_sums : sums_ok (t_snap t);
  (** a pending settle's timer runs, and is its own *)
  wf_pending : map_Forall (λ scope held, ∃ job,
      t_timers t !! ps_timer held = Some job ∧ gt_scope job = scope) (t_pending t);
  (** no timer runs without a pending settle *)
  wf_timers : map_Forall (λ id job, ∃ held,
      t_pending t !! gt_scope job = Some held ∧ ps_timer held = id) (t_timers t);
  wf_fresh : map_Forall (λ id job, (id < t_nextTimer t)%nat ∧ gt_local job = true ∧
      op_followed (gt_options job) = true ∧ gt_outcome job ≠ OStopped) (t_timers t);
  wf_held : map_Forall (held_turn t) (t_pending t);
  wf_refs : (so_ref (sn_workspace (t_snap t)) < t_nextRef t ∧ so_ref (sn_case (t_snap t)) < t_nextRef t ∧
             so_ref (sn_all (t_snap t)) < t_nextRef t)%nat;
  wf_viewed : t_viewed t = js_set ((t_viewing t).*2);
  wf_tokens : NoDup ((t_viewing t).*1) ∧ Forall (λ tok, (tok.1 < t_nextToken t)%nat) (t_viewing t);
}.

Lemma initial_wf brand : tab_wf (initial brand).
Proof.
  split; [apply NoDup_nil_2|by split|apply map_Forall_empty..|cbn; lia|done|].
  split; [apply NoDup_nil_2|by apply List.Forall_nil].
Qed.

(** *** The parts a primitive leaves alone *)
Lemma send_eq m local t : ∃ out, send m local t =
  mkTab (t_snap t) (t_nextRef t) (t_pending t) (t_timers t) (t_nextTimer t) (t_viewing t)
    (t_nextToken t) (t_viewed t) (t_caseRequest t) (t_sink t) out (t_events t)
    (t_policy t) (t_visible t).
Proof.
  unfold send. destruct (local && t_sink t); [by eexists|]. exists (t_outbox t). by destruct t.
Qed.

Lemma send_wf m local t : tab_wf t → tab_wf (send m local t).
Proof. destruct (send_eq m local t) as [out ->]. intros []. by split. Qed.

Lemma emit_wf e t : tab_wf t → tab_wf (emit e t).
Proof. intros []. by split. Qed.

Lemma show_wf ids t : tab_wf t → tab_wf (showChatTurns ids t).
Proof.
  revert t. induction ids as [|id ids IH]; intros t Hwf; [done|]. simpl. apply IH.
  destruct id; [|done]. case_match; [done|]. by apply emit_wf.
Qed.

Lemma case_request_wf r t : tab_wf t → tab_wf (with_case_request t r).
Proof. intros []. by split. Qed.

Lemma env_wf sink p v t : tab_wf t → tab_wf (with_env t sink p v).
Proof. intros []. by split. Qed.

Lemma keep_val prev r next : so_val (keep prev r next) = next.
Proof. unfold keep. case_bool_decide; done. Qed.

Lemma commit_sums es brand t : sums_ok (t_snap (commit es brand t)).
Proof. split; apply keep_val. Qed.

(** Writing entries keeps the invariant when scopes stay distinct and held turns stay held. *)
Lemma commit_wf es brand t :
  tab_wf t → NoDup (a_scope <$> es) →
  map_Forall (λ scope held, ∀ e, find_in scope es = Some e → a_turnId e = ps_turnId held)
    (t_pending t) →
  tab_wf (commit es brand t).
Proof.
  intros [] Hnd Hheld. split; try done; [apply commit_sums|]. cbn. unfold keep.
  repeat case_bool_decide; cbn; lia.
Qed.

Lemma find_replace s o scope t :
  match o with Some e => a_scope e = scope | None => True end →
  find_entry s (replace o scope t) = if decide (s = scope) then o else find_entry s t.
Proof.
  intros Ho. change (find_entry s (replace o scope t)) with
    (find_in s (match o with
                | Some e => e :: filter (λ e, a_scope e ≠ scope) (entries t)
                | None => filter (λ e, a_scope e ≠ scope) (entries t) end)).
  destruct o as [e|].
  - unfold find_in. rewrite filter_cons. destruct (decide (s = scope)) as [->|Hne].
    + by rewrite decide_True.
    + rewrite decide_False by congruence. by apply filter_other_scope.
  - destruct (decide (s = scope)) as [->|Hne]; [apply filter_same_scope|by apply filter_other_scope].
Qed.

Lemma replace_wf o scope t :
  tab_wf t →
  match o with
  | Some e => a_scope e = scope ∧
              (∀ held, t_pending t !! scope = Some held → a_turnId e = ps_turnId held)
  | None => True
  end → tab_wf (replace o scope t).
Proof.
  intros Hwf Ho. unfold replace. apply commit_wf; [done| |].
  - pose proof (NoDup_filter_scope (λ e, a_scope e ≠ scope) _ (wf_scopes t Hwf)) as Hnd.
    destruct o as [e|]; [|done]. destruct Ho as [Hs _]. rewrite fmap_cons. constructor; [|done].
    intros (e' & He & Hin)%list_elem_of_fmap. apply list_elem_of_filter in Hin as [Hin _].
    congruence.
  - apply map_Forall_lookup. intros s held Hheld e He.
    assert (find_entry s (replace o scope t) = Some e) as Hf by exact He. clear He.
    rewrite find_replace in Hf by (destruct o; naive_solver).
    destruct (decide (s = scope)) as [->|Hne].
    + subst o. naive_solver.
    + pose proof (wf_held t Hwf) as Hh. rewrite map_Forall_lookup in Hh. by eapply Hh.
Qed.

(** *** Pending settles *)
Lemma pending_timer_inj t s s' held held' :
  tab_wf t → t_pending t !! s = Some held → t_pending t !! s' = Some held' →
  ps_timer held = ps_timer held' → s = s'.
Proof.
  intros Hwf Hs Hs' Heq. pose proof (wf_pending t Hwf) as Hp. rewrite map_Forall_lookup in Hp.
  destruct (Hp _ _ Hs) as (job & Hj & <-), (Hp _ _ Hs') as (job' & Hj' & <-).
  rewrite Heq in Hj. by simplify_eq.
Qed.

(** Dropping one pending settle together with its timer. *)
Lemma unhold_wf t scope held :
  tab_wf t → t_pending t !! scope = Some held →
  tab_wf (with_pending t (delete scope (t_pending t)) (delete (ps_timer held) (t_timers t))
            (t_nextTimer t)).
Proof.
  intros Hwf Hs. pose proof (pending_timer_inj t) as Hinj.
  destruct Hwf as [H1 H2 H3 H4 H5 H6 H7 H8 H9] eqn:E. clear E. rewrite map_Forall_lookup in H3; rewrite map_Forall_lookup in H4.
  split; cbn; try done.
  - intros s h [Hne Hh]%lookup_delete_Some. destruct (H3 _ _ Hh) as (job & Hj & Hjs).
    exists job. split; [|done]. rewrite lookup_delete_ne; [done|]. intros Heq. apply Hne.
    eapply Hinj; [by split|exact Hs|exact Hh|done].
  - intros id job [Hne Hj]%lookup_delete_Some. destruct (H4 _ _ Hj) as (h & Hh & Hid).
    exists h. split; [|done]. rewrite lookup_delete_ne; [done|]. intros Heq. apply Hne.
    rewrite <-Heq, Hs in Hh. by simplify_eq.
  - by apply map_Forall_delete.
  - apply map_Forall_delete. exact H6.
Qed.

Lemma cancel_wf scope t : tab_wf t → tab_wf (cancelPending scope t).
Proof.
  intros Hwf. unfold cancelPending. destruct (t_pending t !! scope) eqn:Hs; [|done].
  by apply unhold_wf.
Qed.

Lemma cancel_pending scope t : t_pending (cancelPending scope t) = delete scope (t_pending t).
Proof.
  unfold cancelPending. destruct (t_pending t !! scope) eqn:Hs; [done|].
  by rewrite delete_id.
Qed.

Lemma cancel_eq scope t : ∃ ts, cancelPending scope t =
  with_pending t (delete scope (t_pending t)) ts (t_nextTimer t).
Proof.
  unfold cancelPending. destruct (t_pending t !! scope) eqn:Hs; [by eexists|].
  exists (t_timers t). rewrite delete_id by done. by destruct t.
Qed.

Lemma cancel_entries scope t : entries (cancelPending scope t) = entries t.
Proof. by destruct (cancel_eq scope t) as [ts ->]. Qed.

Lemma cancelAll_wf t : tab_wf t → tab_wf (cancelAllPending t) ∧ t_timers (cancelAllPending t) = ∅.
Proof.
  intros Hwf. unfold cancelAllPending.
  assert (map_fold (λ _ held ts, delete (ps_timer held) ts) (t_timers t) (t_pending t) = ∅) as ->.
  { apply map_empty. intros id. destruct (_ !! id) as [job|] eqn:Hj; [|done]. exfalso.
    assert (∀ m : gmap string PendingSettle,
      map_fold (λ _ held ts, delete (ps_timer held) ts) (t_timers t) m !! id = Some job →
      t_timers t !! id = Some job ∧ map_Forall (λ _ held, ps_timer held ≠ id) m) as Hfold.
    { intros m. apply (map_fold_weak_ind (λ ts m, ts !! id = Some job →
        t_timers t !! id = Some job ∧ map_Forall (λ _ held, ps_timer held ≠ id) m)).
      - intros H. split; [done|apply map_Forall_empty].
      - intros s h m' ts Hm IH [Hne Hts]%lookup_delete_Some. destruct (IH Hts) as [? ?].
        split; [done|]. by apply map_Forall_insert_2. }
    destruct (Hfold _ Hj) as [Hjob Hall]. pose proof (wf_timers t Hwf) as Ht.
    rewrite map_Forall_lookup in Ht; rewrite map_Forall_lookup in Hall. destruct (Ht _ _ Hjob) as (h & Hh & Hid).
    by apply (Hall _ _ Hh). }
  split; [|done]. destruct Hwf. split; [done|done|apply map_Forall_empty..|done|done|done].
Qed.

Lemma hold_wf scope turn timer t e :
  tab_wf t → t_pending t !! scope = None → gt_scope timer = scope → gt_local timer = true →
  op_followed (gt_options timer) = true → gt_outcome timer ≠ OStopped →
  find_entry scope t = Some e → a_turnId e = turn → tab_wf (hold scope turn timer t).
Proof.
  intros [H1 H2 H3 H4 H5 H6 H7 H8 H9] Hn Hs Hl Hf Ho He Ht. rewrite map_Forall_lookup in H3; rewrite map_Forall_lookup in H4; rewrite map_Forall_lookup in H5.
  assert (t_timers t !! t_nextTimer t = None) as Hfresh.
  { destruct (t_timers t !! t_nextTimer t) as [job|] eqn:Hj; [|done]. apply H5 in Hj as [Hj _]. lia. }
  split; try done; cbn.
  - apply map_Forall_insert; [done|]. split; cbn.
    + exists timer. by rewrite lookup_insert_eq.
    + intros s h Hh. destruct (H3 _ _ Hh) as (job & Hj & Hjs). exists job. split; [|done].
      rewrite lookup_insert_ne; [done|]. intros Heq. rewrite <-Heq in Hj. congruence.
  - apply map_Forall_insert; [done|]. split; cbn.
    + rewrite Hs, lookup_insert_eq. by eexists.
    + intros id job Hj. destruct (H4 _ _ Hj) as (h & Hh & Hid). exists h. split; [|done].
      rewrite lookup_insert_ne; [done|]. intros Heq. rewrite <-Heq in Hh. congruence.
  - apply map_Forall_insert; [done|]. split; [by auto with lia|].
    intros id job Hj. destruct (H5 _ _ Hj) as [? ?]. split; [lia|done].
  - apply map_Forall_insert; [done|]. split; [|exact H6].
    intros e' He'. cbn. change (find_entry scope t = Some e') in He'. by simplify_eq.
Qed.

(** *** Every writer keeps the invariant *)
#[local] Hint Resolve send_wf emit_wf show_wf cancel_wf case_request_wf env_wf : console.

(** The pending settle [putChatActivity] leaves is about the turn it puts. *)
Lemma retire_wf scope turn t (t' := match t_pending t !! scope with
    | Some held => if decide (ps_turnId held = turn) then t else cancelPending scope t
    | None => t end) :
  tab_wf t →
  tab_wf t' ∧ entries t' = entries t ∧ ∀ held, t_pending t' !! scope = Some held → turn = ps_turnId held.
Proof.
  intros Hwf. unfold t'. destruct (t_pending t !! scope) as [held|] eqn:Hp.
  - destruct (decide (ps_turnId held = turn)) as [<-|Hne].
    + split_and!; [done|done|]. intros. by simplify_eq.
    + split_and!; [by auto with console|by rewrite cancel_entries|].
      rewrite cancel_pending, lookup_delete_eq. done.
  - split_and!; [done|done|]. intros. congruence.
Qed.

Lemma put_wf e local t : tab_wf t → tab_wf (putChatActivity e local t).
Proof.
  intros Hwf. unfold putChatActivity. destruct (_ && _); [done|].
  destruct (retire_wf (a_scope e) (a_turnId e) t Hwf) as (Hwf' & _ & Hturn).
  by apply send_wf, replace_wf.
Qed.

Lemma drop_wf scope local t : tab_wf t → tab_wf (dropChatActivity scope local t).
Proof.
  intros Hwf. unfold dropChatActivity. case_match; [|by auto with console].
  apply send_wf, replace_wf; [by auto with console|done].
Qed.

Lemma finish_wf c o local opts seen t : tab_wf t → tab_wf (finishSettle c o local opts seen t).
Proof.
  intros Hwf. unfold finishSettle. apply emit_wf.
  match goal with |- context [match ?s with Some _ => _ | None => _ end] => destruct s end;
    (case_match; [apply show_wf|]); auto using put_wf, drop_wf.
Qed.

Lemma settle_wf scope o local opts t : tab_wf t → tab_wf (settleChatActivity scope o local opts t).
Proof.
  intros Hwf. unfold settleChatActivity. destruct (find_entry scope t) as [c|] eqn:Hc; [|done].
  destruct (_ && _) eqn:Hg; [|by apply finish_wf, cancel_wf].
  apply andb_true_iff in Hg as [Hg _]. case_match eqn:Hcond; [|by rewrite Z.ltb_irrefl in Hg].
  rewrite !andb_true_iff, bool_decide_eq_true in Hcond. destruct Hcond as (((Hl & Hf) & _) & Ho).
  apply (hold_wf _ _ _ _ c); cbn; try done; [by auto with console| |].
  - by rewrite cancel_pending, lookup_delete_eq.
  - by rewrite find_entry_in, cancel_entries.
Qed.

Lemma grace_wf id t : tab_wf t → tab_wf (graceElapsed id t).
Proof.
  intros Hwf. unfold graceElapsed. destruct (t_timers t !! id) as [job|] eqn:Hj; [|done]. cbn.
  pose proof (wf_timers t Hwf) as Ht. rewrite map_Forall_lookup in Ht.
  destruct (Ht _ _ Hj) as (held & Hh & Hid). rewrite Hh, <-Hid, Nat.eqb_refl.
  pose proof (unhold_wf t _ _ Hwf Hh) as Hwf'.
  case_match; [|done]. case_match; [|done]. by apply finish_wf.
Qed.

Lemma seen_wf scope local e t : tab_wf t → tab_wf (markChatActivitySeen scope local e t).
Proof.
  intros Hwf. unfold markChatActivitySeen. destruct (find_entry scope t) as [c|] eqn:Hc; [|done].
  case_match; [done|]. pose proof (find_in_Some _ _ _ Hc) as [_ Hs].
  assert (∀ held, t_pending t !! scope = Some held → a_turnId c = ps_turnId held) as Hturn.
  { intros held Hh. pose proof (wf_held t Hwf) as H1. rewrite map_Forall_lookup in H1.
    by apply (H1 _ _ Hh). }
  destruct (a_status c) eqn:Hst.
  - destruct (t_pending t !! scope) as [held|] eqn:Hh; [|done]. case_match; [done|].
    destruct Hwf as [H1 H2 H3 H4 H5 H6 H7 H8 H9]. rewrite map_Forall_lookup in H3; rewrite map_Forall_lookup in H4.
    split; try done; cbn.
    + apply map_Forall_insert_2; [|by apply map_Forall_lookup]. by apply (H3 _ _ Hh).
    + apply map_Forall_lookup. intros id job Hj. destruct (H4 _ _ Hj) as (h & Hh' & Hid).
      destruct (decide (gt_scope job = scope)) as [<-|Hne].
      * rewrite lookup_insert_eq. simplify_eq. by eexists.
      * rewrite lookup_insert_ne by done. by exists h.
    + apply map_Forall_insert_2; [|exact H6]. intros e' He'. cbn.
      change (find_entry scope t = Some e') in He'. simplify_eq. by apply Hturn.
  - case_match; [apply show_wf|]; apply send_wf, replace_wf; try done; (split; [done|exact Hturn]).
  - case_match; [apply show_wf|]; apply send_wf, replace_wf; done.
  - case_match; [apply show_wf|]; apply send_wf, replace_wf; done.
Qed.

Lemma seen_viewed_wf t : tab_wf t → tab_wf (markViewedChatActivitySeen t).
Proof.
  unfold markViewedChatActivitySeen. generalize (js_set ((t_viewing t).*2)). intros l.
  revert t. induction l as [|s l IH]; intros t Hwf; [done|]. simpl. by apply IH, seen_wf.
Qed.

(** A new list of tokens: the viewed scopes follow. *)
Lemma tokens_wf v n t :
  tab_wf t → NoDup v.*1 → Forall (λ tok, (tok.1 < n)%nat) v →
  tab_wf (viewedChanged (with_viewing t v n (t_viewed t))).
Proof. intros [] Hv Hn. by split. Qed.

Lemma view_wf scope t : tab_wf t → tab_wf (viewChatActivity scope t).
Proof.
  intros Hwf. unfold viewChatActivity. pose proof (wf_tokens t Hwf) as [Hnd Hlt].
  assert (tab_wf (viewedChanged (with_viewing t (t_viewing t ++ [(t_nextToken t, scope)])
            (S (t_nextToken t)) (t_viewed t)))) as Hwf'.
  { apply tokens_wf; [done| |].
    - rewrite fmap_app. apply NoDup_app. split_and!; [done| |apply NoDup_singleton].
      intros i Hi ->%list_elem_of_singleton. apply list_elem_of_fmap in Hi as (tok & Heq & Hin).
      rewrite Forall_forall in Hlt. specialize (Hlt _ Hin). simpl in Heq. lia.
    - apply Forall_app. split; [|repeat constructor; simpl; lia].
      eapply Forall_impl; [exact Hlt|]. simpl. lia. }
  case_match; [by apply seen_wf|done].
Qed.

Lemma release_wf token t : tab_wf t → tab_wf (releaseView token t).
Proof.
  intros Hwf. unfold releaseView. case_match; [|done]. pose proof (wf_tokens t Hwf) as [Hnd Hlt].
  assert (sublist (List.filter (λ tok : nat * string, negb (tok.1 =? token)%nat) (t_viewing t))
            (t_viewing t)) as Hsub.
  { generalize (t_viewing t). intros l. induction l as [|a l IH]; simpl; [constructor|].
    destruct (negb _); [by apply sublist_skip|by apply sublist_cons]. }
  apply tokens_wf; [done| |].
  - eapply sublist_NoDup; [exact Hnd|]. by apply fmap_sublist.
  - rewrite Forall_forall in Hlt. apply Forall_forall. intros tok Htok%list_elem_of_In.
    apply filter_In in Htok as [Hin _]. by apply Hlt, list_elem_of_In.
Qed.

Lemma rekey_wf from to patch t : tab_wf t → tab_wf (rekeyChatActivity from to patch t).
Proof.
  intros Hwf. unfold rekeyChatActivity. destruct (String.eqb from to); [done|].
  set (v := _ <$> t_viewing t). pose proof (wf_tokens t Hwf) as [Hnd Hlt].
  assert (v.*1 = (t_viewing t).*1) as Hv.
  { unfold v. rewrite <-list_fmap_compose. apply list_fmap_ext. intros i x _. simpl. by case_match. }
  assert (tab_wf (if existsb (λ token, String.eqb token.2 from) (t_viewing t)
                  then viewedChanged (with_viewing t v (t_nextToken t) (t_viewed t))
                  else with_viewing t v (t_nextToken t) (t_viewed t))) as Hwf'.
  { destruct (existsb _ _) eqn:E.
    - apply tokens_wf; [done|by rewrite Hv|]. unfold v. apply Forall_fmap.
      eapply Forall_impl; [exact Hlt|]. intros tok. simpl. by case_match.
    - assert (v = t_viewing t) as ->; [|by destruct t].
      unfold v. clear -E. induction (t_viewing t) as [|a l IH]; [done|]. simpl in *.
      apply orb_false_iff in E as [Ea El]. rewrite Ea. f_equal. by apply IH. }
  cbv zeta. destruct (find_entry from _); [|done]. by apply put_wf, drop_wf.
Qed.

Lemma clear_wf local t : tab_wf t → tab_wf (clearChatActivity local t).
Proof.
  intros Hwf. unfold clearChatActivity. apply send_wf, emit_wf, case_request_wf.
  apply cancelAll_wf in Hwf as [Hwf _]. case_match; [done|].
  apply commit_wf; [done|apply NoDup_nil_2|]. apply map_Forall_lookup. done.
Qed.

Lemma apply_wf m t : tab_wf t → tab_wf (applyChatActivityMessage m t).
Proof.
  intros Hwf. destruct m as [a|s|s|]; cbn [applyChatActivityMessage];
    [|by apply drop_wf|by apply seen_wf|by apply clear_wf].
  destruct (find_entry (a_scope a) t) as [b|] eqn:Hb; [|by apply put_wf].
  case_match; [done|]. case_match; [|by apply put_wf]. apply settle_wf, replace_wf; [done|].
  pose proof (find_in_Some _ _ _ Hb) as [_ Hs]. split; [done|]. intros held Hh.
  pose proof (wf_held t Hwf) as H1. rewrite map_Forall_lookup in H1. by apply (H1 _ _ Hh b).
Qed.

Lemma run_op_wf o t : tab_wf t → tab_wf (run_op o t).
Proof.
  intros Hwf. destruct o; simpl; try by (apply put_wf || apply drop_wf || apply settle_wf
    || apply grace_wf || apply seen_wf || apply seen_viewed_wf || apply view_wf || apply release_wf
    || apply apply_wf || apply clear_wf || apply rekey_wf || apply show_wf || apply env_wf).
  - unfold patchChatActivity. case_match; [by apply put_wf|done].
  - unfold setAnimatedBrand. case_match; [done|]. apply commit_wf; [done|apply Hwf|apply Hwf].
  - by apply case_request_wf.
  - unfold takeCaseChatRequest. repeat case_match; simpl; try done. by apply case_request_wf.
Qed.

Lemma run_ops_wf ops t : tab_wf t → tab_wf (run_ops ops t).
Proof. revert t. induction ops as [|o ops IH]; intros t Hwf; [done|]. by apply IH, run_op_wf. Qed.

(** ** What each writer does to the entries, and what it tells *)

Definition overridden (e : ChatActivity) (t : Tab) : Prop :=
  a_source e = Server ∧ ∃ c, find_entry (a_scope e) t = Some c ∧ a_source c ≠ Server.

Lemma put_overridden e local t : overridden e t → putChatActivity e local t = t.
Proof.
  intros (Hs & c & Hc & Hn). unfold putChatActivity. rewrite Hc.
  by rewrite !bool_decide_eq_true_2 by done.
Qed.

Lemma send_fields m local t :
  entries (send m local t) = entries t ∧ t_events (send m local t) = t_events t ∧
  t_pending (send m local t) = t_pending t ∧ t_viewing (send m local t) = t_viewing t ∧
  t_visible (send m local t) = t_visible t ∧ t_policy (send m local t) = t_policy t.
Proof. by destruct (send_eq m local t) as [out ->]. Qed.

(** A state with the same screen, policy and listeners' news: only entries, pending settles
    and the outbox may differ. *)
Record quiet (t t' : Tab) : Prop := {
  q_events : t_events t' = t_events t;
  q_viewing : t_viewing t' = t_viewing t;
  q_visible : t_visible t' = t_visible t;
  q_policy : t_policy t' = t_policy t;
  q_sink : t_sink t' = t_sink t;
}.

#[export] Instance quiet_refl : Reflexive quiet.
Proof. by split. Qed.
#[export] Instance quiet_trans : Transitive quiet.
Proof. intros t1 t2 t3 [] []. split; congruence. Qed.

Lemma send_quiet m local t : quiet t (send m local t).
Proof. by destruct (send_eq m local t) as [out ->]. Qed.

Lemma cancel_quiet scope t : quiet t (cancelPending scope t).
Proof. by destruct (cancel_eq scope t) as [ts ->]. Qed.

Lemma put_quiet e local t : quiet t (putChatActivity e local t).
Proof.
  unfold putChatActivity. destruct (_ && _); [done|]. etrans; [|apply send_quiet].
  destruct (t_pending t !! a_scope e) as [held|]; [|by split].
  destruct (decide _); [by split|]. etrans; [apply cancel_quiet|by split].
Qed.

Lemma drop_quiet scope local t : quiet t (dropChatActivity scope local t).
Proof.
  unfold dropChatActivity. etrans; [apply (cancel_quiet scope)|].
  destruct (find_entry scope _); [|done]. etrans; [|apply send_quiet]. by split.
Qed.

Lemma find_send s m local t : find_entry s (send m local t) = find_entry s t.
Proof. rewrite !find_entry_in. by destruct (send_fields m local t) as [-> _]. Qed.

Lemma put_find s e local t :
  ¬ overridden e t →
  find_entry s (putChatActivity e local t) =
  if decide (s = a_scope e) then Some e else find_entry s t.
Proof.
  intros Ho. unfold putChatActivity. destruct (_ && _) eqn:E.
  { exfalso. apply Ho. apply andb_true_iff in E as [Es Ec]. apply bool_decide_eq_true in Es.
    split; [done|]. destruct (find_entry _ _) as [c|]; [|done]. exists c.
    by apply bool_decide_eq_true in Ec. }
  rewrite find_send, find_replace by done. destruct (decide _); [done|]. rewrite !find_entry_in.
  destruct (t_pending t !! a_scope e) as [held|]; [|done].
  destruct (decide _); [done|]. by rewrite cancel_entries.
Qed.

Lemma drop_find s scope local t :
  find_entry s (dropChatActivity scope local t) = if decide (s = scope) then None else find_entry s t.
Proof.
  unfold dropChatActivity.
  assert (∀ s, find_entry s (cancelPending scope t) = find_entry s t) as Hc.
  { intros s'. by rewrite !find_entry_in, cancel_entries. }
  destruct (find_entry scope (cancelPending scope t)) as [c|] eqn:E.
  - rewrite find_send, find_replace by done. by rewrite Hc.
  - rewrite Hc in E |- *. destruct (decide _) as [->|]; done.
Qed.

(** ** Finishing a turn *)

(** The chat is on this tab's screen. *)
Definition on_screen (t : Tab) (scope : string) (opts : SettleOptions) (seen : option SeenWhere) : bool :=
  bool_decide (seen = Some Here) || isChatActivityViewed scope t || (op_attached opts && t_visible t).

(** The analyst has seen the outcome, here or on another console. *)
Definition outcome_seen (t : Tab) (c : ChatActivity) (opts : SettleOptions) (seen : option SeenWhere) : bool :=
  on_screen t (a_scope c) opts seen || bool_decide (seen = Some Elsewhere) || policy_seen c t.

(** The [shown] signals of a list of turns. *)
Definition shown_events (ids : list (option string)) : list Event :=
  omap (λ id, match id with Some i => if String.eqb i "" then None else Some (EvShown i) | None => None end) ids.

Lemma show_eq ids t :
  showChatTurns ids t =
  mkTab (t_snap t) (t_nextRef t) (t_pending t) (t_timers t) (t_nextTimer t) (t_viewing t)
    (t_nextToken t) (t_viewed t) (t_caseRequest t) (t_sink t) (t_outbox t)
    (t_events t ++ shown_events ids) (t_policy t) (t_visible t).
Proof.
  revert t. induction ids as [|id ids IH]; intros t; simpl.
  - rewrite app_nil_r. by destruct t.
  - rewrite IH. destruct id as [i|]; [|done]. destruct (String.eqb i ""); [done|]. simpl.
    by rewrite <-app_assoc.
Qed.

(** What the listeners hear when the turn of [c] ends. *)
Definition finish_events (t : Tab) (c : ChatActivity) (o : ChatActivityOutcome) (opts : SettleOptions)
    (seen : option SeenWhere) : list Event :=
  (if on_screen t (a_scope c) opts seen && bool_decide (o ≠ OStopped)
   then shown_events [a_turnId c] else []) ++
  [EvSettled (mkSettled c o (outcome_seen t c opts seen)
     (if op_unreachable opts
      then Some (mkAskAgain (op_prompt opts) (op_origin opts) (op_topic opts)) else None))].

Lemma finish_spec c o local opts seen t (t' := finishSettle c o local opts seen t) :
  find_entry (a_scope c) t = Some c →
  (∀ s, find_entry s t' =
     if decide (s = a_scope c)
     then (λ status, settled_as c status (outcome_seen t c opts seen)) <$>
            finish_status o (outcome_seen t c opts seen) (op_unreachable opts)
     else find_entry s t) ∧
  t_events t' = t_events t ++ finish_events t c o opts seen.
Proof.
  intros Hc. unfold t', finishSettle.
  fold (on_screen t (a_scope c) opts seen). fold (outcome_seen t c opts seen).
  set (v := outcome_seen t c opts seen). set (here := on_screen t (a_scope c) opts seen).
  set (t1 := match finish_status o v (op_unreachable opts) with Some _ => _ | None => _ end).
  assert ((∀ s, find_entry s t1 = if decide (s = a_scope c)
      then (λ status, settled_as c status v) <$> finish_status o v (op_unreachable opts)
      else find_entry s t) ∧ quiet t t1) as [Hf Hq].
  { unfold t1. destruct (finish_status _ _ _) as [status|]; simpl.
    - split; [|apply put_quiet]. intros s. apply (put_find s (settled_as c status v)). intros (Hs & c' & Hc' & Hn).
      simpl in *. by simplify_eq.
    - split; [|apply drop_quiet]. intros s. apply drop_find. }
  pose proof (q_events _ _ Hq) as He. unfold finish_events. fold here v.
  destruct (here && _).
  - split; [intros s; rewrite <-Hf, show_eq; done|]. rewrite show_eq. cbn [emit t_events].
    by rewrite He, app_assoc.
  - split; [intros s; by rewrite <-Hf|]. cbn [emit t_events]. by rewrite He.
Qed.
