(* ===== verification/ActivityHistory.v ===== *)
(** * Chat activity: what holds across a whole history of calls *)

From S2P Require Import Prelude Activity ActivitySpec.
Local Open Scope Z_scope.

(** ** How one state grows out of another *)

(** A summary object is the old one, or a new one. *)
Definition summary_evolves (r : nat) (o o' : SummaryObj) : Prop := o' = o ∨ (r ≤ so_ref o')%nat.

(** A pending settle of [t'] started after [t], or it is one of [t]'s, with the same turn, and
    seen if it was seen then. *)
Definition pending_evolves (t t' : Tab) : Prop :=
  ∀ s h', t_pending t' !! s = Some h' → (ps_timer h' < t_nextTimer t)%nat →
  ∃ h, t_pending t !! s = Some h ∧ ps_timer h = ps_timer h' ∧ ps_turnId h = ps_turnId h' ∧
       (is_Some (ps_seen h) → is_Some (ps_seen h')).

Record evolves (t t' : Tab) : Prop := {
  ev_timer : (t_nextTimer t ≤ t_nextTimer t')%nat;
  ev_pending : pending_evolves t t';
  ev_ref : (t_nextRef t ≤ t_nextRef t')%nat;
  ev_workspace : summary_evolves (t_nextRef t) (sn_workspace (t_snap t)) (sn_workspace (t_snap t'));
  ev_case : summary_evolves (t_nextRef t) (sn_case (t_snap t)) (sn_case (t_snap t'));
  ev_all : summary_evolves (t_nextRef t) (sn_all (t_snap t)) (sn_all (t_snap t'));
}.

Lemma pending_evolves_sub t t' :
  (∀ s h', t_pending t' !! s = Some h' → t_pending t !! s = Some h') → pending_evolves t t'.
Proof. intros Hsub s h' Hh _. exists h'. naive_solver. Qed.

#[export] Instance evolves_refl : Reflexive evolves.
Proof. intros t. split; try done; try by left. by apply pending_evolves_sub. Qed.

Lemma summary_evolves_trans r r' o1 o2 o3 :
  (r ≤ r')%nat → summary_evolves r o1 o2 → summary_evolves r' o2 o3 → summary_evolves r o1 o3.
Proof. unfold summary_evolves. intros Hr [->|?] [->|?]; auto; right; lia. Qed.

#[export] Instance evolves_trans : Transitive evolves.
Proof.
  intros t1 t2 t3 [] []. split; [lia| |lia|eapply summary_evolves_trans; eassumption..].
  intros s h3 Hh3 Hlt. destruct (ev_pending1 s h3 Hh3) as (h2 & Hh2 & E2 & T2 & S2); [lia|].
  destruct (ev_pending0 s h2 Hh2) as (h1 & Hh1 & E1 & T1 & S1); [lia|].
  exists h1. split_and!; [done|congruence|congruence|auto].
Qed.

(** ** Steps that do not settle anything

    Such a step tells no one a turn settled, starts no grace, and keeps the settings. *)
Definition settled_count (evs : list Event) : nat :=
  length (List.filter (λ e, match e with EvSettled _ => true | _ => false end) evs).

#[local] Arguments settled_count : simpl never.

Lemma settled_count_app l l' : settled_count (l ++ l') = (settled_count l + settled_count l')%nat.
Proof. unfold settled_count. by rewrite List.filter_app, length_app. Qed.

Lemma settled_count_shown ids : settled_count (shown_events ids) = 0%nat.
Proof.
  induction ids as [|[i|] ids IH]; simpl; [done| |done]. by destruct (String.eqb i "").
Qed.

(** Settled events already sent, and settles still waiting to send theirs. *)
Definition weight (t : Tab) : nat := settled_count (t_events t) + size (t_pending t).

Record step_ok (k : nat) (t t' : Tab) : Prop := {
  sk_evolves : evolves t t';
  sk_weight : (weight t' ≤ weight t + k)%nat;
}.

Lemma step_refl t : step_ok 0 t t.
Proof. split; [done|lia]. Qed.

Lemma step_trans k k' t1 t2 t3 : step_ok k t1 t2 → step_ok k' t2 t3 → step_ok (k + k') t1 t3.
Proof. intros [E1 W1] [E2 W2]. split; [by etrans|lia]. Qed.

Lemma step_mono k k' t t' : (k ≤ k')%nat → step_ok k t t' → step_ok k' t t'.
Proof. intros Hk [E W]. split; [done|lia]. Qed.

Lemma step0_trans k t1 t2 t3 : step_ok 0 t1 t2 → step_ok k t2 t3 → step_ok k t1 t3.
Proof. apply (step_trans 0). Qed.

(** Same counters and summaries, same or fewer pending settles, same or other news. *)
Lemma step_intro k t t' :
  t_nextTimer t' = t_nextTimer t → t_nextRef t' = t_nextRef t → t_snap t' = t_snap t →
  t_pending t' ⊆ t_pending t →
  (settled_count (t_events t') ≤ settled_count (t_events t) + k)%nat → step_ok k t t'.
Proof.
  intros Ht Hr Hs Hp Hw. pose proof (map_subseteq_size _ _ Hp). split; [|unfold weight; lia].
  split; rewrite ?Ht, ?Hr, ?Hs; try done; try by left.
  apply pending_evolves_sub. intros s h Hh. by eapply lookup_weaken.
Qed.

Lemma send_step m local t : step_ok 0 t (send m local t).
Proof. destruct (send_eq m local t) as [out ->]. apply step_intro; try done. cbn. lia. Qed.

Lemma cancel_step scope t : step_ok 0 t (cancelPending scope t).
Proof.
  destruct (cancel_eq scope t) as [ts ->].
  apply step_intro; try done; [apply delete_subseteq|cbn; lia].
Qed.

Lemma commit_step es brand t : step_ok 0 t (commit es brand t).
Proof.
  split; [|change (weight (commit es brand t)) with (weight t); lia].
  split; [done|by apply pending_evolves_sub|cbn; lia|..]; cbn; unfold keep, summary_evolves;
    case_bool_decide; cbn; auto; right; lia.
Qed.

Lemma show_step ids t : step_ok 0 t (showChatTurns ids t).
Proof.
  rewrite show_eq. apply step_intro; try done. cbn.
  rewrite settled_count_app, settled_count_shown. lia.
Qed.

Lemma put_step e local t : step_ok 0 t (putChatActivity e local t).
Proof.
  unfold putChatActivity. destruct (_ && _); [apply step_refl|].
  eapply step0_trans; [|apply send_step]. eapply step0_trans; [|apply commit_step].
  destruct (t_pending t !! a_scope e) as [held|]; [|apply step_refl].
  destruct (decide _); [apply step_refl|apply cancel_step].
Qed.

Lemma drop_step scope local t : step_ok 0 t (dropChatActivity scope local t).
Proof.
  unfold dropChatActivity. eapply step0_trans; [apply (cancel_step scope)|].
  destruct (find_entry scope _); [|apply step_refl].
  eapply step0_trans; [apply commit_step|apply send_step].
Qed.

Lemma finish_step c o local opts seen t : step_ok 1 t (finishSettle c o local opts seen t).
Proof.
  unfold finishSettle. set (st := finish_status _ _ _).
  set (t1 := match st with Some status => putChatActivity _ local t | None => _ end).
  assert (step_ok 0 t t1) as H1 by (unfold t1; destruct st; [apply put_step|apply drop_step]).
  eapply step0_trans; [exact H1|]. clear H1. set (b := _ && bool_decide (o ≠ OStopped)). clearbody b.
  eapply step0_trans with (t2 := if b then showChatTurns [a_turnId c] t1 else t1).
  - destruct b; [apply show_step|apply step_refl].
  - apply step_intro; try done. cbn [emit t_events t_pending].
    rewrite settled_count_app. unfold settled_count at 2. cbn. lia.
Qed.

Lemma hold_step scope turn timer t :
  t_pending t !! scope = None → step_ok 1 t (hold scope turn timer t).
Proof.
  intros Hn. split.
  - split; try (cbn; lia); try by left. intros s h' Hh Hlt. cbn in Hh.
    apply lookup_insert_Some in Hh as [[<- <-]|[Hne Hh]]; cbn in *; [lia|]. exists h'. naive_solver.
  - unfold weight, hold. cbn [with_pending t_events t_pending].
    rewrite map_size_insert_None by done. lia.
Qed.

Lemma settle_step scope o local opts t : step_ok 1 t (settleChatActivity scope o local opts t).
Proof.
  unfold settleChatActivity. destruct (find_entry scope t) as [c|]; [|by apply (step_mono 0), step_refl; lia].
  eapply step0_trans; [apply (cancel_step scope)|]. cbv zeta. case_match.
  - apply hold_step. by rewrite cancel_pending, lookup_delete_eq.
  - apply finish_step.
Qed.

(** A grace that runs out turns the pending settle into its event. *)
Lemma grace_step id t : tab_wf t → step_ok 0 t (graceElapsed id t).
Proof.
  intros Hwf. unfold graceElapsed. destruct (t_timers t !! id) as [job|] eqn:Hj; [|apply step_refl].
  pose proof (wf_timers t Hwf) as Ht. rewrite map_Forall_lookup in Ht.
  destruct (Ht _ _ Hj) as (held & Hh & Hid). cbn [with_pending t_pending t_timers t_nextTimer].
  rewrite Hh, Hid, Nat.eqb_refl.
  set (t1 := with_pending _ (delete _ _) _ _).
  assert (evolves t t1 ∧ (S (weight t1) = weight t)%nat) as [He Hw].
  { split.
    - split; try done; try by left. apply pending_evolves_sub. intros s h. cbn. by intros [_ ?]%lookup_delete_Some.
    - unfold weight, t1. cbn [with_pending t_events t_pending].
      rewrite map_size_delete_Some by eauto. assert (size (t_pending t) ≠ 0%nat); [|lia].
      apply map_size_non_empty_iff. intros E. rewrite E in Hh. done. }
  assert (∀ t2, step_ok 1 t1 t2 → step_ok 0 t t2) as Hstep.
  { intros t2 [E W]. split; [by etrans|lia]. }
  destruct (find_entry _ t1) as [now|]; [|apply Hstep, (step_mono 0); [lia|apply step_refl]].
  case_match; apply Hstep; [apply finish_step|apply (step_mono 0); [lia|apply step_refl]].
Qed.

Lemma seen_step scope local e t : step_ok 0 t (markChatActivitySeen scope local e t).
Proof.
  unfold markChatActivitySeen. destruct (find_entry scope t) as [c|]; [|apply step_refl].
  destruct (default false (a_seen c)); [apply step_refl|].
  assert (∀ o, step_ok 0 t (let t1 := send (MSeen scope) local (replace o scope t) in
            if local && negb e then showChatTurns [a_turnId c] t1 else t1)) as Hmark.
  { intros o. cbv zeta. apply (step0_trans _ _ (replace o scope t)); [apply commit_step|].
    eapply step0_trans; [apply send_step|]. case_match; [apply show_step|apply step_refl]. }
  destruct (a_status c); [|apply (Hmark (Some _))|apply (Hmark None)..].
  destruct (t_pending t !! scope) as [held|] eqn:Hh; [|apply step_refl].
  destruct (decide (ps_seen held = Some Here)); [apply step_refl|]. split.
  - split; try done; try by left. intros s h' Hl _. cbn in Hl.
    apply lookup_insert_Some in Hl as [[<- <-]|[Hne Hl]]; [exists held|exists h']; naive_solver.
  - unfold weight. cbn [with_pending t_events t_pending].
    rewrite map_size_insert_Some by eauto. lia.
Qed.

Lemma clear_step local t : step_ok 0 t (clearChatActivity local t).
Proof.
  unfold clearChatActivity. eapply step0_trans; [|apply send_step].
  assert (step_ok 0 t (cancelAllPending t)) as H0.
  { apply step_intro; try done; [|cbn; lia]. cbn. apply map_empty_subseteq. }
  eapply step0_trans; [exact H0|]. set (t1 := cancelAllPending t).
  eapply (step0_trans 0 _ (match entries t1 with [] => t1 | _ :: _ => _ end)).
  - destruct (entries t1); [apply step_refl|apply commit_step].
  - apply step_intro; try done. cbn. rewrite settled_count_app. unfold settled_count at 2. cbn. lia.
Qed.

(** A message of another tab can settle one turn. *)
Definition settle_calls (o : op) : nat :=
  match o with
  | OpSettle _ _ _ _ => 1
  | OpApply (MPut _) => 1
  | _ => 0
  end.

Lemma apply_step m t : step_ok (settle_calls (OpApply m)) t (applyChatActivityMessage m t).
Proof.
  destruct m as [a|s|s|]; cbn [applyChatActivityMessage settle_calls];
    [|apply drop_step|apply seen_step|apply clear_step].
  assert (∀ e, step_ok 1 t (putChatActivity e false t)) as Hput.
  { intros e. apply (step_mono 0); [lia|apply put_step]. }
  destruct (find_entry (a_scope a) t) as [b|]; [|apply Hput].
  case_match; [apply (step_mono 0); [lia|apply step_refl]|]. case_match; [|apply Hput].
  apply (step0_trans _ _ (replace (Some (as_peer b)) (a_scope (as_peer a)) t)); [apply commit_step|].
  apply settle_step.
Qed.

Lemma run_op_step o t : tab_wf t → step_ok (settle_calls o) t (run_op o t).
Proof.
  intros Hwf. destruct o; cbn [run_op settle_calls]; try by (apply put_step || apply drop_step
    || apply settle_step || apply seen_step || apply clear_step || apply apply_step || apply show_step).
  - unfold patchChatActivity. destruct (find_entry _ _); [apply put_step|apply step_refl].
  - unfold rekeyChatActivity. destruct (String.eqb _ _); [apply step_refl|]. cbv zeta.
    set (t1 := with_viewing t _ _ _). set (t2 := if existsb _ _ then _ else t1).
    assert (step_ok 0 t t2) as H2.
    { unfold t2. case_match; apply step_intro; try done; cbn; lia. }
    eapply step0_trans; [exact H2|]. clearbody t2.
    destruct (find_entry _ _); [|apply step_refl].
    eapply step0_trans; [apply drop_step|apply put_step].
  - by apply grace_step.
  - unfold markViewedChatActivitySeen. generalize (js_set ((t_viewing t).*2)). intros l. clear Hwf.
    revert t. induction l as [|s l IH]; intros t; [apply step_refl|].
    eapply step0_trans; [apply seen_step|apply IH].
  - unfold viewChatActivity. set (t1 := with_viewing t _ _ _).
    assert (step_ok 0 t (viewedChanged t1)) as H1 by (apply step_intro; try done; cbn; lia).
    eapply step0_trans; [exact H1|]. case_match; [apply seen_step|apply step_refl].
  - unfold releaseView. case_match; [|apply step_refl]. apply step_intro; try done. cbn. lia.
  - unfold setAnimatedBrand. case_match; [apply step_refl|apply commit_step].
  - apply step_intro; try done. cbn. lia.
  - unfold takeCaseChatRequest. repeat case_match; cbn [fst]; try apply step_refl.
    apply step_intro; try done. cbn. lia.
  - apply step_intro; try done. cbn. lia.
Qed.

Definition total_settle_calls (ops : list op) : nat := sum_list (settle_calls <$> ops).

Lemma run_ops_step ops t : tab_wf t → step_ok (total_settle_calls ops) t (run_ops ops t).
Proof.
  revert t. induction ops as [|o ops IH]; intros t Hwf; [apply step_refl|].
  cbn. eapply step_trans; [by apply run_op_step|]. by apply IH, run_op_wf.
Qed.
