(* ===== verification/ActivityTheorems.v ===== *)
(** * Chat activity: the theorems *)

From S2P Require Import Prelude Activity ActivitySpec ActivityHistory.
Local Open Scope Z_scope.

(** ** An example chat *)
Definition demo_turn (scope turn : string) (status : ChatActivityStatus) (source : ChatSource)
    : ChatActivity :=
  mkActivity scope Workspace None None (Some turn) None "Hosts" None 0 status None 0 source None.

Definition demo_tab : Tab :=
  with_env (putChatActivity (demo_turn "conv:1" "t1" Running Server) false (initial true)) true
    (Some (mkPolicy (λ _, false) 2500)) true.

Definition followed : SettleOptions := mkSettleOptions false None None None false true.

(** ** Finishing a turn *)

(** [settleChatActivity] gives the turn a grace instead of settling it. *)
Definition takes_grace (t : Tab) (c : ChatActivity) (o : ChatActivityOutcome) (local : bool)
    (opts : SettleOptions) : bool :=
  local && op_followed opts && negb (on_screen t (a_scope c) opts None) && bool_decide (o ≠ OStopped)
  && (0 <? match t_policy t with Some p => followedGraceMs p | None => 0 end)
  && negb (policy_seen c t).

Lemma quiet_on_screen t t' scope opts seen :
  quiet t t' → on_screen t' scope opts seen = on_screen t scope opts seen.
Proof. intros []. unfold on_screen, isChatActivityViewed, isViewing. congruence. Qed.

Lemma quiet_policy t t' c : quiet t t' → policy_seen c t' = policy_seen c t.
Proof. intros []. unfold policy_seen. by rewrite q_policy. Qed.

(** "Here" recorded by the caller and "here" found by [finishSettle] are the same look. *)
Lemma settle_seen t t' c opts (here := on_screen t (a_scope c) opts None) :
  quiet t t' →
  on_screen t' (a_scope c) opts (if here then Some Here else None) = here ∧
  outcome_seen t' c opts (if here then Some Here else None) = outcome_seen t c opts None.
Proof.
  intros Hq. unfold outcome_seen.
  assert (on_screen t' (a_scope c) opts (if here then Some Here else None) = here) as Hh.
  { rewrite (quiet_on_screen t) by done. unfold here. unfold on_screen at 1.
    destruct (on_screen t (a_scope c) opts None) eqn:E; [done|]. exact E. }
  split; [done|]. rewrite Hh, (quiet_policy t) by done. fold here. by destruct here.
Qed.

Lemma settle_cases t scope c o local opts :
  find_entry scope t = Some c →
  settleChatActivity scope o local opts t =
  if takes_grace t c o local opts
  then hold scope (a_turnId c)
         (mkTimer scope o local opts (match t_policy t with Some p => followedGraceMs p | None => 0 end))
         (cancelPending scope t)
  else finishSettle c o local opts (if on_screen t (a_scope c) opts None then Some Here else None)
         (cancelPending scope t).
Proof.
  intros Hc. pose proof (find_in_Some _ _ _ Hc) as [_ Hs]. unfold settleChatActivity. rewrite Hc.
  cbv zeta. pose proof (cancel_quiet scope t) as Hq.
  assert (isChatActivityViewed scope (cancelPending scope t) || (op_attached opts && t_visible (cancelPending scope t))
          = on_screen t (a_scope c) opts None) as ->.
  { rewrite <-(quiet_on_screen t (cancelPending scope t)) by done. unfold on_screen. by rewrite Hs. }
  rewrite (quiet_policy t), (q_policy _ _ Hq) by done. unfold takes_grace.
  destruct (local && op_followed opts && _ && _) eqn:E; [done|]. done.
Qed.

(** A turn that ends at once: its entry becomes exactly the mark the rules give it (or
    goes), no other chat's entry changes, and the listeners hear of it once, after the
    [shown] signal if this tab's screen showed it. *)
Theorem settleChatActivity_outcome t scope c o local opts (v := outcome_seen t c opts None)
    (t' := settleChatActivity scope o local opts t) :
  find_entry scope t = Some c → takes_grace t c o local opts = false →
  (∀ s, find_entry s t' =
     if decide (s = scope)
     then (λ status, settled_as c status v) <$> finish_status o v (op_unreachable opts)
     else find_entry s t) ∧
  t_events t' = t_events t ++ finish_events t c o opts None.
Proof.
  intros Hc Hg. pose proof (find_in_Some _ _ _ Hc) as [_ Hs].
  unfold t', v. rewrite (settle_cases _ _ c), Hg by done.
  pose proof (cancel_quiet scope t) as Hq. destruct (settle_seen t _ c opts Hq) as [Hos Hseen].
  destruct (finish_spec c o local opts (if on_screen t (a_scope c) opts None then Some Here else None)
              (cancelPending scope t)) as [Hf He].
  { by rewrite find_entry_in, cancel_entries, Hs. }
  rewrite Hseen in Hf. split.
  - intros s. rewrite Hf, Hs. destruct (decide _); [done|]. by rewrite !find_entry_in, cancel_entries.
  - rewrite He, (q_events _ _ Hq). unfold finish_events. rewrite Hos, Hseen. done.
Qed.

Lemma settleChatActivity_outcome_witness :
  find_entry "conv:1" (settleChatActivity "conv:1" ODone false no_options demo_tab) =
  Some (settled_as (demo_turn "conv:1" "t1" Running Server) Unread false).
Proof.
  rewrite (proj1 (settleChatActivity_outcome demo_tab "conv:1" (demo_turn "conv:1" "t1" Running Server)
    ODone false no_options eq_refl eq_refl)). reflexivity.
Defined.

(** ** The grace *)
Lemma cancel_sub scope t : t_pending (cancelPending scope t) ⊆ t_pending t.
Proof. rewrite cancel_pending. apply delete_subseteq. Qed.

Lemma send_pending m local t : t_pending (send m local t) = t_pending t.
Proof. by destruct (send_eq m local t) as [out ->]. Qed.

Lemma put_sub e local t : t_pending (putChatActivity e local t) ⊆ t_pending t.
Proof.
  unfold putChatActivity. destruct (_ && _); [done|]. rewrite send_pending. cbn.
  destruct (t_pending t !! a_scope e) as [held|]; [|done].
  destruct (decide _); [done|apply cancel_sub].
Qed.

Lemma drop_sub scope local t : t_pending (dropChatActivity scope local t) ⊆ t_pending t.
Proof.
  unfold dropChatActivity. destruct (find_entry _ _); [rewrite send_pending|]; apply cancel_sub.
Qed.

Lemma finish_sub c o local opts seen t : t_pending (finishSettle c o local opts seen t) ⊆ t_pending t.
Proof.
  unfold finishSettle. set (b := _ && bool_decide (o ≠ OStopped)). clearbody b.
  set (st := finish_status _ _ _). clearbody st. cbn [emit t_pending].
  assert (∀ t', t_pending (if b then showChatTurns [a_turnId c] t' else t') = t_pending t') as ->.
  { intros t'. destruct b; [by rewrite show_eq|done]. }
  destruct st; [apply put_sub|apply drop_sub].
Qed.

(** The timer of a pending settle, when its chat is still the running turn it was held for. *)
Lemma grace_finishes t scope held job c (t1 := with_pending t (delete scope (t_pending t))
    (delete (ps_timer held) (t_timers t)) (t_nextTimer t)) :
  tab_wf t → t_pending t !! scope = Some held → t_timers t !! ps_timer held = Some job →
  gt_scope job = scope → find_entry scope t = Some c → a_status c = Running →
  graceElapsed (ps_timer held) t =
  finishSettle c (gt_outcome job) (gt_local job) (gt_options job) (ps_seen held) t1.
Proof.
  intros Hwf Hh Hj Hs Hc Hrun. unfold graceElapsed. rewrite Hj.
  cbn [with_pending t_pending t_timers t_nextTimer]. rewrite Hs, Hh, Nat.eqb_refl.
  match goal with |- context [find_entry scope ?x] => change (find_entry scope x) with (find_entry scope t) end.
  rewrite Hc, Hrun.
  pose proof (wf_held t Hwf) as Ht. rewrite map_Forall_lookup in Ht.
  rewrite (Ht _ _ Hh c Hc), !bool_decide_eq_true_2 by done. done.
Qed.

Lemma grace_drops t scope held job :
  tab_wf t → t_pending t !! scope = Some held → t_timers t !! ps_timer held = Some job →
  gt_scope job = scope → (∀ c, find_entry scope t = Some c → a_status c ≠ Running) →
  graceElapsed (ps_timer held) t = with_pending t (delete scope (t_pending t))
    (delete (ps_timer held) (t_timers t)) (t_nextTimer t).
Proof.
  intros Hwf Hh Hj Hs Hc. unfold graceElapsed. rewrite Hj.
  cbn [with_pending t_pending t_timers t_nextTimer]. rewrite Hs, Hh, Nat.eqb_refl.
  match goal with |- context [find_entry scope ?x] => change (find_entry scope x) with (find_entry scope t) end.
  destruct (find_entry scope t) as [c|]; [|done]. by rewrite bool_decide_eq_false_2 by auto.
Qed.

Lemma running_cases t scope :
  (∃ c, find_entry scope t = Some c ∧ a_status c = Running) ∨
  (∀ c, find_entry scope t = Some c → a_status c ≠ Running).
Proof.
  destruct (find_entry scope t) as [c|]; [|by right].
  destruct (decide (a_status c = Running)); [left; by eexists|right]. naive_solver.
Qed.

Lemma settled_not_running t c o opts seen s e :
  (λ status, settled_as c status (outcome_seen t c opts seen)) <$>
    finish_status o (outcome_seen t c opts seen) (op_unreachable opts) = Some e →
  a_scope c = s → a_status e ≠ Running.
Proof.
  intros (status & Hst & ->)%fmap_Some _. cbn. intros ->. unfold finish_status in Hst.
  by destruct (op_unreachable opts), o, (outcome_seen t c opts seen).
Qed.

(** A grace always ends: whenever a chat waits one out, its timer is running, and when it
    runs out the chat is no longer waiting and, if it was still showing the held turn as
    running, that turn is settled (its event is sent and the entry no longer reads running). *)
Theorem grace_resolves t scope :
  tab_wf t → isChatActivitySettling scope t = true →
  ∃ id job, t_timers t !! id = Some job ∧ gt_scope job = scope ∧
    let t' := graceElapsed id t in
    isChatActivitySettling scope t' = false ∧
    (∀ c, find_entry scope t = Some c → a_status c = Running →
       (∃ seen, t_events t' = t_events t ++ finish_events t c (gt_outcome job) (gt_options job) seen) ∧
       (∀ e, find_entry scope t' = Some e → a_status e ≠ Running)).
Proof.
  intros Hwf [held Hh]%bool_decide_eq_true. pose proof (wf_pending t Hwf) as Hp.
  rewrite map_Forall_lookup in Hp. destruct (Hp _ _ Hh) as (job & Hj & Hs).
  exists (ps_timer held), job. split_and!; [done|done|]. cbv zeta.
  set (t1 := with_pending t (delete scope (t_pending t)) (delete (ps_timer held) (t_timers t)) (t_nextTimer t)).
  assert (∀ t', t_pending t' ⊆ t_pending t1 → isChatActivitySettling scope t' = false) as Hfree.
  { intros t' Hsub. apply bool_decide_eq_false. intros [h Hl]. eapply lookup_weaken in Hl; [|exact Hsub].
    cbn in Hl. by rewrite lookup_delete_eq in Hl. }
  destruct (running_cases t scope) as [(c & Hc & Hrun)|Hno].
  - rewrite (grace_finishes t scope held job c) by done. fold t1. split; [apply Hfree, finish_sub|].
    intros c' Hc' _. simplify_eq. pose proof (find_in_Some _ _ _ Hc) as [_ Hsc].
    destruct (finish_spec c (gt_outcome job) (gt_local job) (gt_options job) (ps_seen held) t1)
      as [Hf He]; [by rewrite Hsc|]. split.
    + exists (ps_seen held). exact He.
    + intros e. rewrite Hf, Hsc, decide_True by done. intros Hst. by eapply settled_not_running.
  - rewrite (grace_drops t scope held job) by done.
    split; [by apply Hfree|]. intros c Hc Hrun. exfalso. by eapply Hno.
Qed.

(** The example tab, its turn ended and waiting out the grace. *)
Definition demo_waiting : Tab := settleChatActivity "conv:1" ODone true followed demo_tab.

Lemma demo_waiting_wf : tab_wf demo_waiting.
Proof. apply settle_wf, env_wf, put_wf, initial_wf. Qed.

Lemma grace_resolves_witness :
  isChatActivitySettling "conv:1" demo_waiting = true ∧
  ∃ id, isChatActivitySettling "conv:1" (graceElapsed id demo_waiting) = false.
Proof.
  split; [reflexivity|].
  destruct (grace_resolves demo_waiting "conv:1" demo_waiting_wf eq_refl) as (id & job & _ & _ & H & _).
  exists id. exact H.
Defined.

(** C8. "Seen" wins the race with the grace. Once a look at the chat (on this tab's screen or on
    another console) is recorded while its turn waits, then whatever happens in between, when
    that grace runs out nothing is announced as new and no unread or failed mark is left: every
    turn it reports was viewed, and an entry it changes is a question marked as looked at. *)
Theorem seen_during_grace_leaves_no_mark t ops scope h w h1 (t1 := run_ops ops t)
    (t2 := graceElapsed (ps_timer h) t1) :
  tab_wf t → t_pending t !! scope = Some h → ps_seen h = Some w →
  t_pending t1 !! scope = Some h1 → ps_timer h1 = ps_timer h →
  (∃ new, t_events t2 = t_events t1 ++ new ∧
     Forall (λ e, match e with EvSettled s => st_viewed s = true | _ => True end) new) ∧
  (∀ e, find_entry scope t2 = Some e →
     find_entry scope t1 = Some e ∨ (a_status e = NeedsInput ∧ a_seen e = Some true)).
Proof.
  intros Hwf Hh Hw Hh1 Hid. pose proof (run_ops_wf ops t Hwf) as Hwf1. fold t1 in Hwf1.
  destruct (run_ops_step ops t Hwf) as [Hev _]. fold t1 in Hev.
  pose proof (wf_pending t Hwf) as Hp. rewrite map_Forall_lookup in Hp.
  destruct (Hp _ _ Hh) as (job0 & Hj0 & _). pose proof (wf_fresh t Hwf) as Hfr.
  rewrite map_Forall_lookup in Hfr. destruct (Hfr _ _ Hj0) as [Hlt _].
  destruct (ev_pending _ _ Hev scope h1 Hh1) as (h' & Hh' & _ & _ & Hseen); [by rewrite Hid|].
  simplify_eq. destruct Hseen as [w1 Hw1]; [by eexists|].
  pose proof (wf_pending t1 Hwf1) as Hp1. rewrite map_Forall_lookup in Hp1.
  destruct (Hp1 _ _ Hh1) as (job & Hj & Hs). unfold t2. rewrite <-Hid.
  destruct (running_cases t1 scope) as [(c & Hc & Hrun)|Hno].
  - rewrite (grace_finishes t1 scope h1 job c) by done. set (t1' := with_pending t1 _ _ _).
    pose proof (find_in_Some _ _ _ Hc) as [_ Hsc].
    destruct (finish_spec c (gt_outcome job) (gt_local job) (gt_options job) (ps_seen h1) t1')
      as [Hf He]; [by rewrite Hsc|].
    assert (outcome_seen t1' c (gt_options job) (ps_seen h1) = true) as Hv.
    { unfold outcome_seen, on_screen. rewrite Hw1. destruct w1; [done|].
      rewrite (bool_decide_eq_true_2 (Some Elsewhere = Some Elsewhere)) by done.
      by rewrite !orb_true_r. }
    rewrite Hv in Hf. split.
    + eexists. split; [exact He|]. unfold finish_events. apply Forall_app. split.
      * case_match; [|done]. apply Forall_forall. intros e He'%list_elem_of_omap.
        destruct He' as (id & _ & Hid'). destruct id as [i|]; [|done].
        destruct (String.eqb i ""); [done|]. by simplify_eq.
      * by rewrite Hv, Forall_singleton.
    + intros e. rewrite Hf, Hsc, decide_True by done. intros (st & Hst & ->)%fmap_Some. right.
      cbn. unfold finish_status in Hst. destruct (op_unreachable _); [done|].
      destruct (gt_outcome job); naive_solver.
  - rewrite (grace_drops t1 scope h1 job) by done. split.
    + exists []. split; [by rewrite app_nil_r|constructor].
    + intros e He. left. exact He.
Qed.

(** The example, looked at on another console while it waits; then other calls. *)
Definition demo_seen : Tab := markChatActivitySeen "conv:1" true true demo_waiting.

Lemma seen_during_grace_leaves_no_mark_witness :
  ∃ new, t_events (graceElapsed 0 (run_ops [OpView "conv:2"; OpBrand false] demo_seen)) =
         t_events (run_ops [OpView "conv:2"; OpBrand false] demo_seen) ++ new ∧
         Forall (λ e, match e with EvSettled s => st_viewed s = true | _ => True end) new.
Proof.
  refine (proj1 (seen_during_grace_leaves_no_mark demo_seen [OpView "conv:2"; OpBrand false] "conv:1"
    (mkPending (Some "t1") (Some Elsewhere) 0) Elsewhere (mkPending (Some "t1") (Some Elsewhere) 0)
    _ eq_refl eq_refl eq_refl eq_refl)).
  apply seen_wf, demo_waiting_wf.
Defined.

(** ** Counting and echoes *)

(** A turn is never announced twice: over any history of a tab, at most one settled event
    is sent per call that settles a turn, however graces, looks, drops, renames and other tabs'
    messages interleave; a settle still waiting out its grace keeps its event in reserve. *)
Theorem settled_at_most_once brand ops :
  (settled_count (t_events (run_ops ops (initial brand))) + size (t_pending (run_ops ops (initial brand)))
   ≤ total_settle_calls ops)%nat.
Proof.
  destruct (run_ops_step ops (initial brand) (initial_wf brand)) as [_ Hw].
  assert (weight (initial brand) = 0%nat) as H0 by (unfold weight; cbn; by rewrite map_size_empty).
  rewrite H0 in Hw. exact Hw.
Qed.

Lemma send_false m t : send m false t = t.
Proof. done. Qed.

Lemma cancel_outbox scope t : t_outbox (cancelPending scope t) = t_outbox t.
Proof. by destruct (cancel_eq scope t) as [ts ->]. Qed.

Lemma put_outbox e t : t_outbox (putChatActivity e false t) = t_outbox t.
Proof.
  unfold putChatActivity. destruct (_ && _); [done|]. rewrite send_false. cbn.
  destruct (t_pending t !! a_scope e); [|done]. destruct (decide _); [done|apply cancel_outbox].
Qed.

Lemma drop_outbox scope t : t_outbox (dropChatActivity scope false t) = t_outbox t.
Proof.
  unfold dropChatActivity. destruct (find_entry _ _); [|apply cancel_outbox].
  rewrite send_false. cbn. apply cancel_outbox.
Qed.

Lemma finish_outbox c o opts seen t : t_outbox (finishSettle c o false opts seen t) = t_outbox t.
Proof.
  unfold finishSettle. set (b := _ && bool_decide (o ≠ OStopped)). clearbody b.
  set (st := finish_status _ _ _). clearbody st. cbn [emit t_outbox].
  assert (∀ t', t_outbox (if b then showChatTurns [a_turnId c] t' else t') = t_outbox t') as ->.
  { intros t'. destruct b; [by rewrite show_eq|done]. }
  destruct st; [apply put_outbox|apply drop_outbox].
Qed.

Lemma seen_outbox scope t : t_outbox (markChatActivitySeen scope false false t) = t_outbox t.
Proof.
  unfold markChatActivitySeen. destruct (find_entry scope t) as [c|]; [|done].
  destruct (default false (a_seen c)); [done|]. destruct (a_status c); [|done..].
  destruct (t_pending t !! scope); [|done]. by destruct (decide _).
Qed.

(** What a tab hears from another it never sends on: applying any message leaves this tab's
    outgoing messages as they were, so two tabs cannot keep answering each other. A message
    about a chat this tab streams itself changes nothing of it. *)
Theorem peer_messages_not_echoed m t :
  t_outbox (applyChatActivityMessage m t) = t_outbox t ∧
  (∀ a b, m = MPut a → find_entry (a_scope a) t = Some b → a_source b = Local_ →
     applyChatActivityMessage m t = t).
Proof.
  split.
  - destruct m as [a|s|s|]; cbn [applyChatActivityMessage];
      [|apply drop_outbox|apply seen_outbox|].
    + destruct (find_entry (a_scope a) t) as [b|]; [|apply put_outbox].
      destruct (decide _); [done|]. case_match; [|apply put_outbox].
      unfold settleChatActivity. destruct (find_entry _ _); [|done]. cbv zeta.
      cbn [andb]. rewrite Z.ltb_irrefl. cbn [andb]. rewrite finish_outbox, cancel_outbox. done.
    + unfold clearChatActivity. rewrite send_false. cbn. by case_match.
  - intros a b -> Hb Hl. cbn. rewrite Hb. by rewrite decide_True.
Qed.

Lemma peer_messages_not_echoed_witness :
  applyChatActivityMessage (MPut (demo_turn "conv:2" "t9" Unread Local_))
    (putChatActivity (demo_turn "conv:2" "t2" Running Local_) true demo_tab) =
  putChatActivity (demo_turn "conv:2" "t2" Running Local_) true demo_tab.
Proof.
  apply (proj2 (peer_messages_not_echoed (MPut (demo_turn "conv:2" "t9" Unread Local_))
    (putChatActivity (demo_turn "conv:2" "t2" Running Local_) true demo_tab))
    (demo_turn "conv:2" "t9" Unread Local_) (demo_turn "conv:2" "t2" Running Local_));
    reflexivity.
Defined.

(** ** Summaries *)
Lemma join_empty l : join_strings "; " l = "" → Forall (λ s, s ≠ "") l → l = [].
Proof.
  destruct l as [|s [|s' l]]; [done|..]; intros Hj [Hs _]%Forall_cons; [done|].
  simpl in Hj. destruct s; [done|discriminate].
Qed.

Lemma phrase_part_Some news row :
  is_Some (phrase_part news row) ↔ ∃ e, e ∈ news ∧ a_status e = row.1.1.
Proof.
  destruct row as [[kind one] several]. unfold phrase_part. cbn [fst].
  assert ((∃ e, e ∈ news ∧ a_status e = kind) ↔ ∃ e, e ∈ filter (λ e, a_status e = kind) news) as ->.
  { by setoid_rewrite list_elem_of_filter; naive_solver. }
  destruct (filter _ news) as [|e [|e' l]].
  - split; [by intros [??]|]. by intros [e ?%elem_of_nil].
  - split; [exists e; left|by eexists].
  - split; [exists e; left|by eexists].
Qed.

(** The status of a summary: the first of [PHRASES] that some news entry has. *)
Definition most_important (news : list ChatActivity) (s : ChatActivityStatus) : Prop :=
  ∃ before after one several, PHRASES = before ++ (s, one, several) :: after ∧
    (∃ e, e ∈ news ∧ a_status e = s) ∧
    Forall (λ row, ∀ e, e ∈ news → a_status e ≠ row.1.1) before.

Lemma head_omap_Some {A B} (f : A → option B) l b :
  head (omap f l) = Some b →
  ∃ before a after, l = before ++ a :: after ∧ f a = Some b ∧ Forall (λ a, f a = None) before.
Proof.
  induction l as [|a l IH]; [done|]. simpl. destruct (f a) as [b'|] eqn:Ha; simpl.
  - intros [= ->]. exists [], a, l. split_and!; [done|done|constructor].
  - intros (before & a' & after & -> & Ha' & Hb)%IH. exists (a :: before), a', after.
    split_and!; [done|done|]. by constructor.
Qed.

Lemma most_important_status es label s :
  su_status (describeChatActivity es label) = Some s → most_important (List.filter isNews es) s.
Proof.
  intros (before & row & after & Heq & Hrow & Hb)%head_omap_Some. cbv beta in *.
  apply fmap_Some in Hrow as (part & Hpart & ->). destruct row as [[kind one] several].
  exists before, after, one, several. split_and!; [done| |].
  - by apply (phrase_part_Some _ (kind, one, several)); rewrite Hpart; eexists.
  - eapply Forall_impl; [exact Hb|]. intros row' Hn e He Hs. cbn in Hn.
    destruct (phrase_part _ row') eqn:E; [done|].
    assert (is_Some (phrase_part (List.filter isNews es) row')) as [? ?] by (apply phrase_part_Some; eauto).
    congruence.
Qed.

Lemma head_None {A} (l : list A) : head l = None ↔ l = [].
Proof. by destruct l. Qed.

(** Whenever there is a glyph there is text, and the other way round. *)
Lemma glyph_iff_text es label :
  (su_status (describeChatActivity es label) = None ↔ su_text (describeChatActivity es label) = "") ∧
  (su_text (describeChatActivity es label) = "" ↔ Forall (λ e, isNews e = false) es).
Proof.
  unfold describeChatActivity; cbn [su_status su_text]. set (news := List.filter isNews es).
  assert (omap (phrase_part news) PHRASES = [] ↔ news = []) as Hp.
  { rewrite omap_nil. split.
    - intros Hall. destruct news as [|e news']; [done|exfalso].
      assert (∃ row, row ∈ PHRASES ∧ row.1.1 = a_status e) as (row & Hrow & Hst).
      { assert (∃ k row, PHRASES !! k = Some row ∧ row.1.1 = a_status e) as (k & row & Hk & Hst).
        { destruct (a_status e); [exists 0%nat|exists 1%nat|exists 3%nat|exists 2%nat];
            eexists; split; reflexivity. }
        exists row. split; [by eapply list_elem_of_lookup_2|done]. }
      rewrite Forall_forall in Hall. specialize (Hall row Hrow).
      assert (is_Some (phrase_part (e :: news') row)) as [? ?];
        [|congruence]. apply phrase_part_Some. exists e. split; [left|done].
    - intros ->. by repeat constructor. }
  assert ((match omap (phrase_part news) PHRASES with
           | [] => "" | _ :: _ => label +:+ ": " +:+ join_strings "; " (omap (phrase_part news) PHRASES) end) = ""
          ↔ omap (phrase_part news) PHRASES = []) as Ht.
  { destruct (omap (phrase_part news) PHRASES); [done|]. split; [|done].
    destruct label; done. }
  assert (news = [] ↔ Forall (λ e, isNews e = false) es) as Hn.
  { unfold news. clear. induction es as [|e es IH]; [done|]. rewrite Forall_cons. simpl.
    destruct (isNews e); [naive_solver|]. rewrite IH. naive_solver. }
  rewrite Ht, Hp, head_None, omap_nil. split; [|done]. rewrite <-Hp, omap_nil.
  f_equiv. intros row. by destruct (phrase_part news row).
Qed.

(** The navigation summaries, over any history: each is what the entries of its destination
    say now; its glyph is the most important state among the news, it has text exactly when it
    has a glyph, and exactly when some entry is news; and a host that selects a summary by
    identity misses nothing: the same object means the same content. *)
Theorem summaries_follow_entries t ops (t' := run_ops ops t) (all := so_val (sn_all (t_snap t'))) :
  tab_wf t →
  sums_ok (t_snap t') ∧
  (∀ s, su_status all = Some s → most_important (List.filter isNews (entries t')) s) ∧
  (su_status all = None ↔ su_text all = "") ∧
  (su_text all = "" ↔ Forall (λ e, isNews e = false) (entries t')) ∧
  (so_ref (sn_all (t_snap t')) = so_ref (sn_all (t_snap t)) → sn_all (t_snap t') = sn_all (t_snap t)) ∧
  (so_ref (sn_workspace (t_snap t')) = so_ref (sn_workspace (t_snap t)) →
     sn_workspace (t_snap t') = sn_workspace (t_snap t)) ∧
  (so_ref (sn_case (t_snap t')) = so_ref (sn_case (t_snap t)) → sn_case (t_snap t') = sn_case (t_snap t)).
Proof.
  intros Hwf. pose proof (run_ops_wf ops t Hwf) as Hwf'. destruct (run_ops_step ops t Hwf) as [Hev _].
  fold t' in Hwf', Hev. pose proof (wf_refs t Hwf) as (Hr1 & Hr2 & Hr3).
  assert (∀ o o', (so_ref o < t_nextRef t)%nat → summary_evolves (t_nextRef t) o o' →
            so_ref o' = so_ref o → o' = o) as Hid.
  { intros o o' Hlt [->|Hge] Heq; [done|lia]. }
  pose proof (wf_sums t' Hwf') as Hs. unfold all. rewrite (ok_all _ Hs).
  destruct (glyph_iff_text (entries t') "Chat") as [Hg1 Hg2].
  split_and!; [done|by intros s; apply most_important_status|done|done|..];
    apply Hid; try done; apply Hev.
Qed.

Lemma summaries_follow_entries_witness :
  su_status (so_val (sn_all (t_snap (run_ops [OpSettle "conv:1" OError true no_options] demo_tab)))) = Some Failed.
Proof.
  destruct (summaries_follow_entries demo_tab [OpSettle "conv:1" OError true no_options]) as ([_ _ ->] & _).
  - apply env_wf, put_wf, initial_wf.
  - reflexivity.
Defined.

(** ** Titles *)
Lemma trimEnd_length s : (String.length (trimEnd s) ≤ String.length s)%nat.
Proof.
  induction s as [|c s IH]; [done|]. simpl. destruct (trimEnd s); [|simpl in *; lia].
  destruct (is_space c); simpl; lia.
Qed.

Lemma take_chars_length n s : (String.length (take_chars n s) ≤ n)%nat.
Proof. revert s. induction n as [|n IH]; intros [|c s]; simpl; try lia. specialize (IH s). lia. Qed.

Lemma length_string_app s s' : String.length (s +:+ s') = (String.length s + String.length s')%nat.
Proof. induction s as [|c s IH]; [done|]. simpl. by rewrite IH. Qed.

(** A display title never exceeds [TITLE_CHARS] characters, whatever the case id and the
    prompt it is made of; a title that fits is shown whole. *)
Theorem chatActivityTitle_bounded e :
  (String.length (chatActivityTitle e) ≤ TITLE_CHARS)%nat ∧
  (a_kind e = Workspace → (String.length (a_title e) ≤ TITLE_CHARS)%nat → chatActivityTitle e = a_title e).
Proof.
  split.
  - unfold chatActivityTitle. set (text := match a_kind e with Workspace => _ | CaseChat => _ end).
    destruct (Nat.ltb_spec TITLE_CHARS (String.length text)) as [Hlt|Hle]; [|lia].
    rewrite length_string_app. pose proof (trimEnd_length (take_chars (TITLE_CHARS - 1) text)).
    pose proof (take_chars_length (TITLE_CHARS - 1) text). change (String.length ellipsis) with 1%nat.
    unfold TITLE_CHARS in *. lia.
  - intros Hk Hl. unfold chatActivityTitle. rewrite Hk. destruct (Nat.ltb_spec TITLE_CHARS (String.length (a_title e))); [lia|done].
Qed.

(** ** A new thread is named *)
Lemma isViewing_spec scope t : isViewing scope t = true ↔ scope ∈ (t_viewing t).*2.
Proof.
  unfold isViewing. rewrite existsb_exists, list_elem_of_fmap. split.
  - intros (tok & Hin & Heq%String.eqb_eq). exists tok. by rewrite list_elem_of_In.
  - intros (tok & -> & Hin). exists tok. rewrite <-list_elem_of_In. split; [done|apply String.eqb_refl].
Qed.

Lemma drop_viewing scope local t : t_viewing (dropChatActivity scope local t) = t_viewing t.
Proof. apply q_viewing, drop_quiet. Qed.

Lemma put_viewing e local t : t_viewing (putChatActivity e local t) = t_viewing t.
Proof. apply q_viewing, put_quiet. Qed.

(** When a new thread's turn learns its conversation id, nothing is lost: every view of the
    old scope now views the new one (at once, before any answer can land), the entry is under
    the new scope only, and every other chat is as it was. *)
Theorem rekeyChatActivity_moves from to patch t c (t' := rekeyChatActivity from to patch t) :
  from ≠ to → find_entry from t = Some c → a_source (patch c) ≠ Server →
  (isViewing from t = true → isViewing to t' = true) ∧ isViewing from t' = false ∧
  (∀ s, s ≠ from → s ≠ to → isViewing s t' = isViewing s t) ∧
  find_entry to t' = Some (with_scope (patch c) to) ∧ find_entry from t' = None ∧
  (∀ s, s ≠ from → s ≠ to → find_entry s t' = find_entry s t).
Proof.
  intros Hne Hc Hsrc. unfold t', rekeyChatActivity.
  rewrite (proj2 (String.eqb_neq from to)) by done.
  set (v := _ <$> t_viewing t). set (t1 := with_viewing t v _ _). cbv zeta.
  set (t2 := if existsb _ _ then _ else t1).
  assert (t_viewing t2 = v) as Hv by (unfold t2; by case_match).
  assert (∀ s, find_entry s t2 = find_entry s t) as Hf by (intros s; unfold t2; by case_match).
  rewrite Hf, Hc. clearbody t2.
  set (t3 := putChatActivity _ _ _).
  assert (t_viewing t3 = v) as Hv3 by (unfold t3; by rewrite put_viewing, drop_viewing).
  assert (∀ s, isViewing s t3 = true ↔ s ∈ v.*2) as Hview by (intros s; by rewrite isViewing_spec, Hv3).
  assert (∀ s, s ∈ v.*2 ↔ (s = to ∧ isViewing from t = true) ∨ (s ≠ from ∧ s ∈ (t_viewing t).*2)) as Hvs.
  { intros s. rewrite isViewing_spec. unfold v. rewrite !list_elem_of_fmap. setoid_rewrite list_elem_of_fmap.
    split.
    - intros (tok & -> & (tok' & -> & Hin)). destruct (String.eqb_spec tok'.2 from) as [E|E].
      + left. split; [done|]. exists tok'. by rewrite <-E.
      + right. split; [done|]. by exists tok'.
    - intros [[-> (tok & -> & Hin)]|[Hs (tok & -> & Hin)]].
      + exists (tok.1, to). split; [done|]. exists tok. by rewrite String.eqb_refl.
      + exists tok. split; [done|]. exists tok. destruct (String.eqb_spec tok.2 from); [done|done]. }
  assert (∀ s, find_entry s t3 = if decide (s = to) then Some (with_scope (patch c) to)
                                 else if decide (s = from) then None else find_entry s t) as Hf3.
  { intros s. unfold t3. rewrite put_find by (intros [? _]; done). rewrite drop_find, Hf. done. }
  split_and!.
  - intros Hfrom. apply Hview, Hvs. by left.
  - apply not_true_iff_false. rewrite Hview, Hvs. intros [[? _]|[? _]]; congruence.
  - intros s Hs1 Hs2. apply eq_true_iff_eq. rewrite Hview, Hvs, !isViewing_spec.
    split; [intros [[? _]|[_ ?]]; [congruence|done]|intros ?; by right].
  - by rewrite Hf3, decide_True.
  - rewrite Hf3, decide_False, decide_True by done. done.
  - intros s Hs1 Hs2. by rewrite Hf3, !decide_False by done.
Qed.

Lemma rekeyChatActivity_moves_witness :
  let t := viewChatActivity "draft:1" (putChatActivity (demo_turn "draft:1" "t3" Running Local_) true demo_tab) in
  isViewing "conv:7" (rekeyChatActivity "draft:1" "conv:7" id t) = true.
Proof.
  cbv zeta.
  refine (proj1 (rekeyChatActivity_moves "draft:1" "conv:7" id _ (demo_turn "draft:1" "t3" Running Local_)
    _ _ _) _); [discriminate|reflexivity|discriminate|reflexivity].
Defined.
