(* ===== verification/ActivityNotices.v ===== *)
(** * Chat activity: the Demo switch token, notices, and what the shell's observer reads
    (soc/chat-activity/activity.ts, soc/chat-activity/ActivityEffects.tsx) *)

From S2P Require Import Prelude JsValue Activity.
Local Open Scope Z_scope.

(** ** The Demo switch token *)
Record ChatDemoStatusView := mkDemoView {
  dv_active : bool;
  dv_confirmed : option bool;
  dv_runId : option string;
}.

Definition chatDemoIdentity (demo : ChatDemoStatusView) : option string :=
  if decide (dv_confirmed demo = Some false) then None
  else Some (if dv_active demo then "demo:" +:+ default "" (dv_runId demo) else "off").

(** [confirmedDemoIdentity] and [demoSwitches]. *)
Record DemoState := mkDemoState { confirmedDemoIdentity : option string; demoSwitches : N }.

Definition fresh_demo : DemoState := mkDemoState None 0.

Definition currentChatDemoIdentity (st : DemoState) : string :=
  "demo-identity:" +:+ pretty.pretty (demoSwitches st).

Definition noteChatDemoStatus (demo : ChatDemoStatusView) (st : DemoState) : DemoState :=
  match chatDemoIdentity demo with
  | Some seen =>
      if decide (Some seen = confirmedDemoIdentity st) then st
      else mkDemoState (Some seen)
             (match confirmedDemoIdentity st with
              | Some _ => (demoSwitches st + 1)%N
              | None => demoSwitches st
              end)
  | None => st
  end.

(** The changes in a sequence of identities, after the first. *)
Fixpoint changes_after (prev : string) (ids : list string) : N :=
  match ids with
  | [] => 0
  | id :: ids' => ((if String.eqb id prev then 0 else 1) + changes_after id ids')%N
  end.

Definition changes (ids : list string) : N :=
  match ids with [] => 0%N | id :: ids' => changes_after id ids' end.

Lemma changes_after_spec demos prev n :
  let st := foldl (λ st d, noteChatDemoStatus d st) (mkDemoState (Some prev) n) demos in
  demoSwitches st = (n + changes_after prev (omap chatDemoIdentity demos))%N ∧
  confirmedDemoIdentity st = Some (default prev (last (omap chatDemoIdentity demos))).
Proof.
  revert prev n. induction demos as [|d demos IH]; intros prev n; simpl.
  { split; [lia|done]. }
  change (list_omap _ _ chatDemoIdentity demos) with (omap chatDemoIdentity demos).
  unfold noteChatDemoStatus at 2 4. destruct (chatDemoIdentity d) as [id|]; [|apply IH].
  cbn [confirmedDemoIdentity demoSwitches changes_after].
  assert (∀ l : list string, default prev (last (id :: l)) = default id (last l)) as Hlast.
  { intros l. rewrite last_cons. by destruct (last l). }
  rewrite Hlast. destruct (decide (Some id = Some prev)) as [[= ->]|Hne].
  - rewrite String.eqb_refl. destruct (IH prev n) as [-> ->]. split; [lia|done].
  - destruct (String.eqb_spec id prev) as [->|_]; [done|].
    destruct (IH id (n + 1)%N) as [-> ->]. split; [lia|done].
Qed.

(** The Demo switch token counts exactly the confirmed switches: over any sequence of Demo
    statuses, unconfirmed reads change nothing, the first confirmed identity is no switch,
    every later confirmed change is one (also back to an identity seen before), and noting the
    same status again keeps the token. *)
Theorem demo_token_counts_switches demos
    (st := foldl (λ st d, noteChatDemoStatus d st) fresh_demo demos) :
  demoSwitches st = changes (omap chatDemoIdentity demos) ∧
  confirmedDemoIdentity st = last (omap chatDemoIdentity demos) ∧
  (∀ d, noteChatDemoStatus d (noteChatDemoStatus d st) = noteChatDemoStatus d st).
Proof.
  split_and!.
  - unfold st. clear st. induction demos as [|d demos IH]; [done|]. simpl.
    unfold fresh_demo, noteChatDemoStatus at 2.
    destruct (chatDemoIdentity d) as [id|]; [|exact IH]. cbn [confirmedDemoIdentity demoSwitches].
    rewrite decide_False by done. destruct (changes_after_spec demos id 0) as [-> _]. apply N.add_0_l.
  - unfold st. clear st. induction demos as [|d demos IH]; [done|]. simpl.
    unfold fresh_demo, noteChatDemoStatus at 2.
    destruct (chatDemoIdentity d) as [id|]; [|exact IH]. cbn [confirmedDemoIdentity demoSwitches].
    rewrite decide_False by done. destruct (changes_after_spec demos id 0) as [_ ->].
    rewrite last_cons. by destruct (last _).
  - intros d. unfold noteChatDemoStatus. destruct (chatDemoIdentity d) as [id|]; [|done].
    destruct (decide (Some id = confirmedDemoIdentity st)) as [E|E].
    + by rewrite decide_True.
    + cbn [confirmedDemoIdentity]. by rewrite decide_True.
Qed.

(** ** Notices *)
Definition titlePrefix (es : list ChatActivity) : string :=
  if existsb (λ e, bool_decide (a_status e = Running)) es then "●"
  else if existsb (λ e, bool_decide (a_status e = Unread)) es then "✓"
  else "".

Record SettledCopy := mkCopy { sc_heading : string; sc_title : string; sc_action : string }.

Definition settledCopy (event : ChatActivitySettled) : option SettledCopy :=
  if st_viewed event || bool_decide (st_outcome event = OStopped) then None
  else
    let title := let t := chatActivityTitle (st_activity event) in
                 if String.eqb t "" then "Chat" else t in
    Some match st_unreachable event with
         | Some _ =>
             mkCopy (if decide (st_outcome event = ODone) then "The answer could not be saved"
                     else "The answer could not be completed") title "Ask again"
         | None =>
             match st_outcome event with
             | ODone => mkCopy "Answer ready" title "Open"
             | ONeedsInput => mkCopy "A question needs your input" title "Open"
             | _ => mkCopy "The answer could not be completed" title "Open"
             end
         end.

(** Where "Ask again" goes: a new chat, with words put in the composer, or sent again. *)
Record ResendRequest := mkResend { rs_message : string; rs_origin : ChatOrigin; rs_topic : option string }.
Record AskAgainNav := mkNav { nav_ask : option string; nav_resend : option ResendRequest }.

Definition askAgainOpts (prompt : option string) (origin : option ChatOrigin) (topic : option string)
    : AskAgainNav :=
  match prompt with
  | None => mkNav None None
  | Some p =>
      if String.eqb p "" then mkNav None None
      else match origin with
           | Some OrUser => mkNav (Some p) None
           | None => mkNav None None
           | Some o => mkNav None (Some (mkResend p o topic))
           end
  end.

(** "Ask again" puts words back in the composer only when they are the analyst's own: it
    prefills exactly the prompt of a question of origin [user]; any other question is sent
    again with the origin and topic it had, or not at all, and never both. *)
Theorem askAgain_prefills_only_own_words prompt origin topic (nav := askAgainOpts prompt origin topic) :
  (∀ p, nav_ask nav = Some p ↔ origin = Some OrUser ∧ prompt = Some p ∧ p ≠ "") ∧
  (∀ r, nav_resend nav = Some r ↔
     prompt = Some (rs_message r) ∧ rs_message r ≠ "" ∧ origin = Some (rs_origin r) ∧
     rs_topic r = topic ∧ rs_origin r ≠ OrUser) ∧
  (nav_ask nav = None ∨ nav_resend nav = None).
Proof.
  unfold nav, askAgainOpts. destruct prompt as [p|]; cbn; [|naive_solver].
  destruct (String.eqb_spec p "") as [->|Hp]; cbn; [naive_solver|].
  destruct origin as [o|]; cbn; [|naive_solver].
  destruct o; cbn; (split_and!; [naive_solver| |auto]); intros [m o' tp]; cbn; naive_solver.
Qed.

(** ** What the observer reads *)

(** [[A-Za-z0-9._:-]] *)
Definition safe_char (c : Ascii.ascii) : bool :=
  let n := Ascii.nat_of_ascii c in
  ((65 <=? n) && (n <=? 90) || (97 <=? n) && (n <=? 122) || (48 <=? n) && (n <=? 58)
   || (n =? 46) || (n =? 95) || (n =? 45))%nat.

Fixpoint all_chars (p : Ascii.ascii → bool) (s : string) : bool :=
  match s with EmptyString => true | String c s' => p c && all_chars p s' end.

(** [SAFE_ID.test] *)
Definition SAFE_ID (s : string) : bool :=
  (1 <=? String.length s)%nat && (String.length s <=? 128)%nat && all_chars safe_char s.

Definition safeId (value : jsval) : option string :=
  match value with VStr s => if SAFE_ID s then Some s else None | _ => None end.

Record TurnScope := mkScope {
  ts_scope : string;
  ts_kind : ChatActivityKind;
  ts_conversationId : option string;
  ts_caseId : option string;
}.

Definition scopeOf (turn_id conversation_id case_id : jsval) : option TurnScope :=
  match safeId turn_id with
  | None => None
  | Some turnId =>
      match safeId case_id, safeId conversation_id with
      | Some c, _ => Some (mkScope ("case:" +:+ c) CaseChat None (Some c))
      | None, Some c => Some (mkScope ("conv:" +:+ c) Workspace (Some c) None)
      | None, None => Some (mkScope ("turn:" +:+ turnId) Workspace None None)
      end
  end.

(** A scope names one chat: whatever a server reports, two turns share a scope only when
    they run in the same case, the same conversation, or are the same turn with neither; and
    every id inside a scope fits the id grammar. *)
Theorem scopeOf_names_one_chat t1 v1 c1 t2 v2 c2 r1 r2 :
  scopeOf t1 v1 c1 = Some r1 → scopeOf t2 v2 c2 = Some r2 → ts_scope r1 = ts_scope r2 →
  r1 = r2 ∧ (ts_caseId r1 = None → ts_conversationId r1 = None → safeId t1 = safeId t2) ∧
  (∀ id, ts_caseId r1 = Some id ∨ ts_conversationId r1 = Some id → SAFE_ID id = true).
Proof.
  assert (∀ v id, safeId v = Some id → SAFE_ID id = true) as Hsafe.
  { intros v id. destruct v; simpl; try done. destruct (SAFE_ID s) eqn:E; [|done]. by intros [= <-]. }
  unfold scopeOf. intros H1 H2 Hs.
  destruct (safeId t1) as [i1|]; [|done]. destruct (safeId t2) as [i2|]; [|done].
  destruct (safeId c1) as [k1|] eqn:E1; [|destruct (safeId v1) as [w1|] eqn:F1];
    (destruct (safeId c2) as [k2|] eqn:E2; [|destruct (safeId v2) as [w2|] eqn:F2]);
    simplify_eq/=; (split_and!; [congruence|intros; congruence|intros id [?|?]; simplify_eq; eauto]).
Qed.

Lemma scopeOf_names_one_chat_witness :
  safeId (VStr "t1") = safeId (VStr "t1").
Proof.
  apply (scopeOf_names_one_chat (VStr "t1") VNull VNull (VStr "t1") VNull VUndef
    (mkScope "turn:t1" Workspace None None) (mkScope "turn:t1" Workspace None None)); reflexivity.
Defined.

Definition KNOWN_LIMIT : nat := 200.

(** [keepBounded(set, key)]: a JS Set is the list of its keys, oldest first. *)
Definition keepBounded (set_ : list string) (key : string) : list string :=
  let set_ := List.filter (λ k, negb (String.eqb k key)) set_ ++ [key] in
  if (KNOWN_LIMIT <? length set_)%nat then drop 1 set_ else set_.

(** The remembered turn ids stay bounded and duplicate-free over any number of additions,
    the newest is always remembered, and only the oldest is forgotten. *)
Theorem keepBounded_bounded set_ key :
  NoDup set_ → (length set_ ≤ KNOWN_LIMIT)%nat →
  NoDup (keepBounded set_ key) ∧ (length (keepBounded set_ key) ≤ KNOWN_LIMIT)%nat ∧
  last (keepBounded set_ key) = Some key ∧
  (∀ k, k ∈ set_ → k ∉ keepBounded set_ key → head set_ = Some k ∧ length set_ = KNOWN_LIMIT ∧ key ∉ set_).
Proof.
  intros Hnd Hlen. unfold keepBounded. set (f := List.filter _ set_).
  assert (f = filter (λ k, k ≠ key) set_) as ->.
  { unfold f. clear. induction set_ as [|k l IH]; [done|]. rewrite filter_cons. simpl.
    destruct (String.eqb_spec k key); simpl; [by rewrite decide_False by auto|].
    rewrite decide_True by done. by f_equal. }
  set (f := filter _ set_).
  assert (NoDup (f ++ [key])) as Hnd'.
  { apply NoDup_app. split_and!; [by apply NoDup_filter| |apply NoDup_singleton].
    intros k [Hk _]%list_elem_of_filter ->%list_elem_of_singleton. done. }
  assert (length f ≤ length set_)%nat as Hf by apply length_filter.
  assert (∀ k, k ∈ set_ → k ∈ f ++ [key]) as Hin.
  { intros k Hk. apply elem_of_app. destruct (decide (k = key)) as [->|]; [right; left|].
    left. by apply list_elem_of_filter. }
  destruct (Nat.ltb_spec KNOWN_LIMIT (length (f ++ [key]))) as [Hlt|Hle];
    rewrite length_app in *; cbn [length] in *.
  - assert (key ∉ set_) as Hkey.
    { intros Hk. pose proof (length_filter_lt (λ k, k ≠ key) set_ key Hk) as Hl.
      fold f in Hl. specialize (Hl ltac:(auto)). lia. }
    assert (f = set_) as Hfs.
    { unfold f. clear -Hkey. induction set_ as [|k l IH]; [done|].
      apply not_elem_of_cons in Hkey as [Hne Hkey]. rewrite filter_cons, decide_True by done.
      f_equal. by apply IH. }
    rewrite Hfs in Hnd' |- *. destruct set_ as [|k0 l]; [unfold KNOWN_LIMIT in *; simpl in *; lia|].
    change (drop 1 ((k0 :: l) ++ [key])) with (l ++ [key]).
    change ((k0 :: l) ++ [key]) with (k0 :: l ++ [key]) in Hnd'. apply NoDup_cons in Hnd' as [_ Hnd']. split_and!; [done| |by rewrite last_snoc|].
    + rewrite length_app. simpl in *. lia.
    + intros k Hk Hnk. split_and!; [|simpl in *; lia|done].
      apply elem_of_cons in Hk as [->|Hk]; [done|]. exfalso. apply Hnk, elem_of_app. by left.
  - split_and!; [done|lia|by rewrite last_snoc|].
    intros k Hk Hnk. exfalso. by apply Hnk, Hin.
Qed.

Lemma keepBounded_bounded_witness : last (keepBounded ["a"; "b"] "a") = Some "a".
Proof.
  refine (proj1 (proj2 (proj2 (keepBounded_bounded ["a"; "b"] "a" _ _)))).
  - repeat constructor; set_solver.
  - unfold KNOWN_LIMIT. simpl. lia.
Defined.

(** [readHoldMs] *)
Definition readHoldMs : Z := 30000.

(** [heldAsRead]: an expired hold is forgotten. *)
Definition heldAsRead (read : gmap string Z) (conversationId : option string) (now : Z)
    : gmap string Z * bool :=
  match conversationId with
  | None => (read, false)
  | Some c =>
      if String.eqb c "" then (read, false)
      else match read !! c with
           | None => (read, false)
           | Some at_ => if now - at_ <? readHoldMs then (read, true) else (delete c read, false)
           end
  end.

Definition unnamed (e : ChatActivity) : bool :=
  bool_decide (a_status e = Running) && match a_turnId e with None => true | Some i => String.eqb i "" end
  && bool_decide (a_kind e = Workspace) && bool_decide (a_source e ≠ Server).

Definition readsTurn (e : ChatActivity) (turnId : string) (t : Tab) : bool :=
  bool_decide (a_status e = Running) && bool_decide (a_source e ≠ Server) &&
  (bool_decide (a_turnId e = Some turnId)
   || match a_turnId e with None => true | Some i => String.eqb i "" end
   || negb (isChatActivitySettling (a_scope e) t)).
