(* ===== verification/Ndjson.v ===== *)
(** * The NDJSON reader of the chat stream (soc/chat/ndjson.ts)

    Decoded text is a list of UTF-16 code units. The parser of one line and the streaming
    [TextDecoder] are interfaces: the reader's theorems hold for every implementation. *)

From S2P Require Import Prelude JsText.
Local Open Scope Z_scope.

Definition MAX_NDJSON_LINE_CHARS : Z := 4 * 1024 * 1024.

(** ** [NdjsonLineSplitter] *)
Record Splitter := mkSplitter { sp_buffer : text; sp_discarding : bool; sp_dropped : Z }.

Definition new_splitter : Splitter := mkSplitter [] false 0.

(** [line.endsWith('\r') ? line.slice(0, -1) : line] *)
Definition strip_cr (line : text) : text :=
  if decide (last line = Some CR) then take (length line - 1) line else line.

(** The pieces of [text] that end at a newline, and the rest after the last one. *)
Fixpoint cut (t : text) : list text * text :=
  match t with
  | [] => ([], [])
  | c :: t' =>
      let '(pieces, rest) := cut t' in
      if c =? LF then ([] :: pieces, rest)
      else match pieces with
           | [] => ([], c :: rest)
           | p :: pieces' => ((c :: p) :: pieces', rest)
           end
  end.

(** One turn of the [for (;;)] loop: a piece up to its newline. *)
Definition push_piece (max : Z) (acc : list text * Splitter) (piece : text) : list text * Splitter :=
  let '(lines, s) := acc in
  if sp_discarding s then (lines, mkSplitter [] false (sp_dropped s))
  else
    let line := sp_buffer s ++ piece in
    if max <? Z.of_nat (length line) then (lines, mkSplitter [] false (sp_dropped s + 1))
    else (lines ++ [strip_cr line], mkSplitter [] false (sp_dropped s)).

Definition push (max : Z) (t : text) (s : Splitter) : list text * Splitter :=
  let '(pieces, rest) := cut t in
  let '(lines, s) := foldl (push_piece max) ([], s) pieces in
  if sp_discarding s then (lines, s)
  else if max <? Z.of_nat (length (sp_buffer s)) + Z.of_nat (length rest)
  then (lines, mkSplitter [] true (sp_dropped s + 1))
  else (lines, mkSplitter (sp_buffer s ++ rest) false (sp_dropped s)).

Definition flush (s : Splitter) : list text * Splitter :=
  let line := if sp_discarding s then [] else sp_buffer s in
  (match line with [] => [] | _ => [strip_cr line] end, mkSplitter [] false (sp_dropped s)).

(** ** The reader *)

Definition is_blank (line : text) : bool := forallb trim_space line.

Inductive EventKind := KStart | KDone | KError | KOther.

(** The parser of one line, as [readChatStream] uses it. *)
Class StreamEvents (E : Type) := {
  parseStreamEvent : text → option E;
  ev_type : E → EventKind;
}.

(** A streaming decoder: [decode(chunk, {stream: true})] and the final [decode()]. The laws say
    it decodes the stream, however it is cut into chunks. *)
Class StreamDecoder (B : Type) := {
  dec_state : Type;
  dec_init : dec_state;
  dec_push : dec_state → list B → text * dec_state;
  dec_flush : dec_state → text;
  decode_all : list B → text;
  dec_nil : ∀ s, dec_push s [] = ([], s);
  dec_app : ∀ s b b', dec_push s (b ++ b') =
    let '(t1, s1) := dec_push s b in let '(t2, s2) := dec_push s1 b' in (t1 ++ t2, s2);
  dec_all : ∀ b, decode_all b =
    let '(t, s) := dec_push dec_init b in t ++ dec_flush s;
}.

Section reader.
Context {E B : Type} `{StreamEvents E} `{StreamDecoder B} (max : Z).

(** What [handle] has seen so far. [rd_events] is what [onEvent] was called with. *)
Record Reader := mkReader {
  rd_start : option E;
  rd_malformed : Z;
  rd_terminal : option E;
  rd_events : list E;
}.

Definition new_reader : Reader := mkReader None 0 None [].

(** [handle(lines)]: [true] at the first terminal event. *)
Fixpoint handle (lines : list text) (r : Reader) : Reader * bool :=
  match lines with
  | [] => (r, false)
  | line :: lines' =>
      if is_blank line then handle lines' r
      else match parseStreamEvent line with
           | None => handle lines' (mkReader (rd_start r) (rd_malformed r + 1) (rd_terminal r) (rd_events r))
           | Some e =>
               let start := match ev_type e, rd_start r with
                            | KStart, None => Some e
                            | _, s => s
                            end in
               match ev_type e with
               | KDone | KError => (mkReader start (rd_malformed r) (Some e) (rd_events r ++ [e]), true)
               | _ => handle lines' (mkReader start (rd_malformed r) (rd_terminal r) (rd_events r ++ [e]))
               end
           end
  end.

Inductive ChatStreamOutcome :=
  | Done (event : E) (start : option E) (malformed : Z)
  | Errored (event : E) (start : option E) (malformed : Z)
  | IncompleteEof (start : option E) (malformed : Z)
  | IncompleteNetwork (start : option E) (malformed : Z)
  | Aborted (start : option E) (malformed : Z).

Definition finish (r : Reader) (s : Splitter) : ChatStreamOutcome :=
  let counted := rd_malformed r + sp_dropped s in
  match rd_terminal r with
  | Some e => match ev_type e with
              | KDone => Done e (rd_start r) counted
              | KError => Errored e (rd_start r) counted
              | _ => IncompleteEof (rd_start r) counted
              end
  | None => IncompleteEof (rd_start r) counted
  end.

(** [if (!handle(splitter.push(text))) handle(splitter.flush())] *)
Definition handle_last (t : text) (r : Reader) (s : Splitter) : Reader * Splitter :=
  let '(lines, s) := push max t s in
  let '(r, stop) := handle lines r in
  if stop then (r, s)
  else let '(lines, s) := flush s in ((handle lines r).1, s).

(** What one [await reader.read()] comes back with: a chunk, the end, or a throw (of an
    [AbortError] or not). The flag is [signal?.aborted] when it does. *)
Inductive ReadResult :=
  | RChunk (bytes : list B) (aborted : bool)
  | RDone (aborted : bool)
  | RThrow (abort_error : bool) (aborted : bool).

(** The loop over the body; [None] while the next read is still pending. *)
Fixpoint read_body (reads : list ReadResult) (d : dec_state) (s : Splitter) (r : Reader)
    : option (ChatStreamOutcome * list E) :=
  match reads with
  | [] => None
  | RThrow abort_error aborted :: _ =>
      Some (if aborted || abort_error then Aborted (rd_start r) (rd_malformed r)
            else IncompleteNetwork (rd_start r) (rd_malformed r + sp_dropped s), rd_events r)
  | RDone aborted :: _ =>
      if aborted then Some (Aborted (rd_start r) (rd_malformed r), rd_events r)
      else let '(r, s) := handle_last (dec_flush d) r s in Some (finish r s, rd_events r)
  | RChunk bytes aborted :: reads' =>
      if aborted then Some (Aborted (rd_start r) (rd_malformed r), rd_events r)
      else
        let '(t, d) := dec_push d bytes in
        let '(lines, s) := push max t s in
        let '(r, stop) := handle lines r in
        if stop then Some (finish r s, rd_events r) else read_body reads' d s r
  end.

(** The response: a streaming body, or one read whole ([text()] fails or gives the text). *)
Inductive Response :=
  | RespStream (reads : list ReadResult)
  | RespText (t : option text) (abort_error aborted : bool).

Definition readChatStream (aborted_first : bool) (response : Response)
    : option (ChatStreamOutcome * list E) :=
  if aborted_first then Some (Aborted None 0, [])
  else
    match response with
    | RespStream reads => read_body reads dec_init new_splitter new_reader
    | RespText None abort_error aborted =>
        Some (if aborted || abort_error then Aborted None 0 else IncompleteNetwork None 0, [])
    | RespText (Some t) _ aborted =>
        if aborted then Some (Aborted None 0, [])
        else let '(r, s) := handle_last t new_reader new_splitter in Some (finish r s, rd_events r)
    end.
End reader.
