(* ===== verification/NdjsonSpec.v ===== *)
(** * The NDJSON reader: chunking does not matter, memory is bounded, the end is told right *)

From S2P Require Import Prelude JsText Ndjson.
Local Open Scope Z_scope.

(** ** Lines of a text *)
Definition fits (max : Z) (p : text) : Prop := Z.of_nat (length p) ≤ max.

#[export] Instance fits_dec max p : Decision (fits max p).
Proof. unfold fits. apply _. Defined.

(** The pieces no longer than the bound, without a final carriage return; and how many are. *)
Definition kept (max : Z) (pieces : list text) : list text := strip_cr <$> filter (fits max) pieces.

Fixpoint oversized (max : Z) (pieces : list text) : Z :=
  match pieces with
  | [] => 0
  | p :: pieces' => (if decide (fits max p) then 0 else 1) + oversized max pieces'
  end.

(** The lines of a whole text that are parsed, and how many the bound drops. *)
Definition lines_of (max : Z) (t : text) : list text :=
  let '(pieces, rest) := cut t in
  kept max pieces ++ (if decide (rest = []) then [] else kept max [rest]).

Definition dropped_of (max : Z) (t : text) : Z :=
  let '(pieces, rest) := cut t in oversized max pieces + oversized max [rest].

Lemma kept_cons max p ps : kept max (p :: ps) = kept max [p] ++ kept max ps.
Proof. unfold kept. rewrite !filter_cons. by destruct (decide (fits max p)). Qed.

Lemma kept_app max ps qs : kept max (ps ++ qs) = kept max ps ++ kept max qs.
Proof. unfold kept. by rewrite filter_app, fmap_app. Qed.

Lemma oversized_app max ps qs : oversized max (ps ++ qs) = oversized max ps + oversized max qs.
Proof. induction ps as [|p ps IH]; simpl; lia. Qed.

Lemma fits_app max p q : fits max (p ++ q) → fits max p.
Proof. unfold fits. rewrite length_app. lia. Qed.

Lemma cut_app t t' :
  cut (t ++ t') =
  let '(ps, r) := cut t in let '(qs, s) := cut t' in
  match qs with [] => (ps, r ++ s) | q :: qs' => (ps ++ (r ++ q) :: qs', s) end.
Proof.
  induction t as [|c t IH]; simpl.
  { by destruct (cut t') as [[|q qs] s]. }
  rewrite IH. destruct (cut t) as [ps r], (cut t') as [qs s].
  destruct (c =? LF), ps as [|p ps], qs as [|q qs]; done.
Qed.

(** ** The splitter, after any chunks *)

(** The state with [rest] read since the last newline. *)
Definition splitter_at (max : Z) (n : Z) (rest : text) : Splitter :=
  if decide (fits max rest) then mkSplitter rest false n else mkSplitter [] true (n + 1).

(** The state that stands for the text pushed so far, and the lines it has given. *)
Definition splitter_of (max : Z) (t : text) : Splitter :=
  splitter_at max (oversized max (cut t).1) (cut t).2.

Definition complete_lines (max : Z) (t : text) : list text := kept max (cut t).1.

Lemma push_piece_spec max lines n rest q :
  push_piece max (lines, splitter_at max n rest) q =
  (lines ++ kept max [rest ++ q], mkSplitter [] false (n + oversized max [rest ++ q])).
Proof.
  unfold push_piece, splitter_at, kept. rewrite filter_cons, filter_nil. cbn [oversized].
  destruct (decide (fits max rest)) as [Hr|Hr]; cbn [sp_discarding sp_buffer sp_dropped].
  - unfold fits. destruct (Z.ltb_spec max (Z.of_nat (length (rest ++ q)))).
    + rewrite !decide_False by lia. cbn. by rewrite app_nil_r.
    + rewrite !decide_True by lia. cbn. by rewrite Z.add_0_r.
  - assert (¬ fits max (rest ++ q)) by (intros ?%fits_app; done).
    rewrite !decide_False by done. cbn. by rewrite app_nil_r.
Qed.

Lemma push_pieces max pieces lines n :
  0 ≤ max →
  foldl (push_piece max) (lines, mkSplitter [] false n) pieces =
  (lines ++ kept max pieces, mkSplitter [] false (n + oversized max pieces)).
Proof.
  intros Hmax. assert (∀ m, mkSplitter [] false m = splitter_at max m []) as Hat.
  { intros m. unfold splitter_at. by rewrite decide_True by (unfold fits; cbn; lia). }
  revert lines n. induction pieces as [|p pieces IH]; intros lines n.
  { cbn. by rewrite app_nil_r, Z.add_0_r. }
  cbn [foldl]. rewrite Hat, push_piece_spec, IH. cbn [app].
  rewrite (kept_cons _ p pieces), app_assoc. cbn [oversized]. by rewrite Z.add_0_r, Z.add_assoc.
Qed.

Lemma push_rest max n rest t :
  (let s := splitter_at max n rest in
   if sp_discarding s then s
   else if max <? Z.of_nat (length (sp_buffer s)) + Z.of_nat (length t)
   then mkSplitter [] true (sp_dropped s + 1)
   else mkSplitter (sp_buffer s ++ t) false (sp_dropped s)) = splitter_at max n (rest ++ t).
Proof.
  unfold splitter_at. cbv zeta.
  destruct (decide (fits max rest)) as [Hr|Hr]; cbn [sp_discarding sp_buffer sp_dropped].
  - rewrite <-Nat2Z.inj_add, <-length_app. unfold fits.
    destruct (Z.ltb_spec max (Z.of_nat (length (rest ++ t)))).
    + by rewrite decide_False by lia.
    + by rewrite decide_True by lia.
  - by rewrite decide_False by (intros ?%fits_app; done).
Qed.

Lemma push_spec max t t' :
  0 ≤ max →
  ∃ lines, push max t' (splitter_of max t) = (lines, splitter_of max (t ++ t')) ∧
           complete_lines max (t ++ t') = complete_lines max t ++ lines.
Proof.
  intros Hmax. unfold push, splitter_of, complete_lines. rewrite cut_app.
  destruct (cut t) as [ps r], (cut t') as [qs s]. cbn [fst snd].
  destruct qs as [|q qs]; cbn [foldl fst snd].
  - exists []. rewrite app_nil_r. split; [|done].
    rewrite <-(push_rest max (oversized max ps) r s). cbv zeta.
    destruct (sp_discarding _); [done|]. by destruct (_ <? _).
  - exists (kept max ((r ++ q) :: qs)). rewrite kept_app. split; [|done].
    rewrite push_piece_spec, push_pieces by done. cbn [app].
    rewrite <-kept_cons, oversized_app. cbn [oversized].
    rewrite <-(push_rest max _ [] s). unfold splitter_at.
    rewrite (decide_True (P := fits max [])) by (unfold fits; cbn; lia).
    cbn [sp_discarding sp_buffer sp_dropped length app]. rewrite Z.add_0_l, Z.add_0_r, !Z.add_assoc.
    by destruct (_ <? _).
Qed.

Lemma flush_spec max t :
  flush (splitter_of max t) =
  (if decide ((cut t).2 = []) then [] else kept max [(cut t).2],
   mkSplitter [] false (dropped_of max t)).
Proof.
  unfold flush, splitter_of, splitter_at, dropped_of, kept. destruct (cut t) as [ps r]. cbn [fst snd].
  rewrite filter_cons, filter_nil. cbn [oversized].
  destruct (decide (fits max r)) as [Hr|Hr]; cbn [sp_discarding sp_buffer sp_dropped].
  - rewrite !Z.add_0_r. by destruct r.
  - rewrite Z.add_0_r. by destruct r.
Qed.

Lemma lines_of_flush max t :
  lines_of max t = complete_lines max t ++ (if decide ((cut t).2 = []) then [] else kept max [(cut t).2]).
Proof. unfold lines_of, complete_lines. by destruct (cut t). Qed.

(** The splitter run over chunks: the lines it returns, and where it stands. *)
Fixpoint push_chunks (max : Z) (chunks : list text) (s : Splitter) : list text * Splitter :=
  match chunks with
  | [] => ([], s)
  | t :: chunks' =>
      let '(lines, s) := push max t s in
      let '(lines', s) := push_chunks max chunks' s in (lines ++ lines', s)
  end.

Lemma push_chunks_spec max t chunks :
  0 ≤ max →
  ∃ lines, push_chunks max chunks (splitter_of max t) = (lines, splitter_of max (t ++ concat chunks)) ∧
           complete_lines max (t ++ concat chunks) = complete_lines max t ++ lines.
Proof.
  intros Hmax. revert t. induction chunks as [|c chunks IH]; intros t; cbn [push_chunks concat].
  { exists []. by rewrite !app_nil_r. }
  destruct (push_spec max t c Hmax) as (l1 & -> & E1).
  destruct (IH (t ++ c)) as (l2 & -> & E2). exists (l1 ++ l2).
  rewrite <-app_assoc in E2 |- *. split; [done|]. by rewrite E2, E1, app_assoc.
Qed.

Lemma new_splitter_of max : 0 ≤ max → new_splitter = splitter_of max [].
Proof.
  intros Hmax. unfold splitter_of, splitter_at. cbn. by rewrite decide_True by (unfold fits; cbn; lia).
Qed.

(** The splitter never holds more than the bound. *)
Lemma splitter_bounded max t :
  0 ≤ max → Z.of_nat (length (sp_buffer (splitter_of max t))) ≤ max.
Proof.
  intros Hmax. unfold splitter_of, splitter_at. destruct (decide _) as [Hf|Hf]; [exact Hf|cbn; lia].
Qed.

(** The lines a text gives do not depend on how the network cut it: pushed in any chunks
    and flushed, the splitter returns exactly the lines of the whole text (oversized ones left
    out, a final carriage return dropped), counts each oversized line once, and between chunks
    never holds more than the bound. *)
Theorem splitter_chunking max chunks :
  0 ≤ max →
  let '(lines, s) := push_chunks max chunks new_splitter in
  lines ++ (flush s).1 = lines_of max (concat chunks) ∧
  sp_dropped (flush s).2 = dropped_of max (concat chunks) ∧
  (∀ n, Z.of_nat (length (sp_buffer (push_chunks max (take n chunks) new_splitter).2)) ≤ max).
Proof.
  intros Hmax. rewrite (new_splitter_of max) by done.
  destruct (push_chunks_spec max [] chunks Hmax) as (lines & -> & El). cbn [app] in El |- *.
  rewrite flush_spec. cbn [fst snd sp_dropped]. split_and!; [|done|].
  - rewrite lines_of_flush, El. done.
  - intros n. destruct (push_chunks_spec max [] (take n chunks) Hmax) as (l & -> & _).
    by apply splitter_bounded.
Qed.

Lemma splitter_chunking_witness :
  let '(lines, s) := push_chunks 3 [[65]; [66; 13]; [10; 67; 68; 69; 70]; [10; 71]] new_splitter in
  lines ++ (flush s).1 = [[65; 66]; [71]].
Proof.
  pose proof (splitter_chunking 3 [[65]; [66; 13]; [10; 67; 68; 69; 70]; [10; 71]]) as H.
  destruct (push_chunks _ _ _) as [lines s]. destruct H as [-> _]; [lia|]. reflexivity.
Defined.

(** ** The reader *)
Section reader.
Context {E B : Type} `{StreamEvents E} `{StreamDecoder B} (max : Z) (Hmax : 0 ≤ max).
Implicit Types (r : Reader (E := E)) (reads : list (ReadResult (B := B))).

Lemma handle_app l1 l2 r :
  handle (l1 ++ l2) r =
  (let '(r1, stop) := handle l1 r in if stop then (r1, true) else handle l2 r1).
Proof.
  revert r. induction l1 as [|line l1 IH]; intros r; simpl; [done|].
  destruct (is_blank line); [apply IH|]. destruct (parseStreamEvent line) as [e|]; [|apply IH].
  destruct (ev_type e); done || apply IH.
Qed.

(** What [rd_start], [rd_terminal] and the calls of [onEvent] mean. *)
Definition is_terminal (e : E) : Prop := ev_type e = KDone ∨ ev_type e = KError.

Definition first_start (events : list E) : option E :=
  head (List.filter (λ e, match ev_type e with KStart => true | _ => false end) events).

Record reading (r : Reader) : Prop := {
  rd_start_ok : rd_start r = first_start (rd_events r);
  rd_open : rd_terminal r = None;
  rd_none : Forall (λ e, ¬ is_terminal e) (rd_events r);
}.

Lemma first_start_snoc evs e :
  first_start (evs ++ [e]) =
  match first_start evs with
  | Some s => Some s
  | None => match ev_type e with KStart => Some e | _ => None end
  end.
Proof.
  unfold first_start. rewrite List.filter_app. destruct (List.filter _ evs); [|done].
  simpl. by destruct (ev_type e).
Qed.

Lemma new_reader_reading : reading new_reader.
Proof. split; done || constructor. Qed.

(** Handling lines: either no terminal event came and reading goes on, or the first one ends it. *)
Lemma handle_spec lines r :
  reading r →
  let '(r', stop) := handle lines r in
  if stop
  then ∃ pre e, rd_events r' = pre ++ [e] ∧ rd_terminal r' = Some e ∧ is_terminal e ∧
         Forall (λ e, ¬ is_terminal e) pre ∧ rd_start r' = first_start (rd_events r')
  else reading r'.
Proof.
  revert r. induction lines as [|line lines IH]; intros r Hr; simpl; [done|].
  destruct (is_blank line); [by apply IH|].
  destruct (parseStreamEvent line) as [e|]; [|apply IH; by destruct Hr; split].
  destruct Hr as [Hs Ht Hn].
  assert (match ev_type e with KStart => match rd_start r with Some s => Some s | None => Some e end
          | _ => rd_start r end = first_start (rd_events r ++ [e])) as Hstart.
  { rewrite first_start_snoc, Hs. by destruct (ev_type e), (first_start _). }
  destruct (ev_type e) eqn:Et.
  - apply IH. split; [|done|]; cbn.
    + rewrite <-Hstart. by destruct (rd_start r).
    + apply Forall_app. split; [done|]. repeat constructor. unfold is_terminal. rewrite Et. naive_solver.
  - exists (rd_events r), e. cbn. split_and!; [done|done|by left|done|]. by rewrite <-Hstart.
  - exists (rd_events r), e. cbn. split_and!; [done|done|by right|done|]. by rewrite <-Hstart.
  - apply IH. split; [|done|]; cbn.
    + by rewrite <-Hstart.
    + apply Forall_app. split; [done|]. repeat constructor. unfold is_terminal. rewrite Et. naive_solver.
Qed.

(** ** Chunks of the body *)
Lemma read_chunks chunks d t r :
  let '(txt, d') := dec_push d (concat chunks) in
  ∃ lines, complete_lines max (t ++ txt) = complete_lines max t ++ lines ∧
    let '(r', stop) := handle lines r in
    if stop
    then ∃ s, ∀ rest, read_body max (((λ c, RChunk c false) <$> chunks) ++ rest) d (splitter_of max t) r
              = Some (finish r' s, rd_events r')
    else ∀ rest, read_body max (((λ c, RChunk c false) <$> chunks) ++ rest) d (splitter_of max t) r
         = read_body max rest d' (splitter_of max (t ++ txt)) r'.
Proof.
  revert d t r. induction chunks as [|c chunks IH]; intros d t r; cbn [concat fmap list_fmap app].
  { rewrite dec_nil. exists []. rewrite !app_nil_r. done. }
  rewrite dec_app. destruct (dec_push d c) as [t1 d1] eqn:E1.
  specialize (IH d1 (t ++ t1)). destruct (dec_push d1 (concat chunks)) as [t2 d2].
  destruct (push_spec max t t1 Hmax) as (l1 & Hp & El1).
  pose proof (handle_app l1) as Happ. destruct (handle l1 r) as [r1 stop1] eqn:Eh1.
  destruct (IH r1) as (l2 & El2 & Hrd). exists (l1 ++ l2).
  rewrite app_assoc, El2, El1, app_assoc. split; [done|]. rewrite Happ, Eh1. destruct stop1.
  - exists (splitter_of max (t ++ t1)). intros rest. cbn [read_body]. by rewrite E1, Hp, Eh1.
  - assert (∀ rest, read_body max (RChunk c false :: ((λ c, RChunk c false) <$> chunks) ++ rest) d
        (splitter_of max t) r = read_body max (((λ c, RChunk c false) <$> chunks) ++ rest) d1
        (splitter_of max (t ++ t1)) r1) as Hstep.
    { intros rest. cbn [read_body]. by rewrite E1, Hp, Eh1. }
    destruct (handle l2 r1) as [r2 stop2]. destruct stop2.
    + destruct Hrd as [s Hrd]. exists s. intros rest. by rewrite Hstep.
    + intros rest. by rewrite Hstep.
Qed.

(** Handling a whole text, in one push and a flush, handles its lines. *)
Lemma handle_last_spec t t' r :
  reading r →
  let '(r', s) := handle_last max t' r (splitter_of max t) in
  (∃ lines, lines_of max (t ++ t') = complete_lines max t ++ lines ∧ r' = (handle lines r).1) ∧
  (reading r' → s = mkSplitter [] false (dropped_of max (t ++ t'))).
Proof.
  intros Hr. unfold handle_last. destruct (push_spec max t t' Hmax) as (l1 & -> & El).
  rewrite lines_of_flush, El. pose proof (handle_spec l1 r Hr) as Hs.
  destruct (handle l1 r) as [r1 stop] eqn:Eh. destruct stop.
  - split.
    + eexists. rewrite <-app_assoc. split; [done|]. by rewrite handle_app, Eh.
    + destruct Hs as (pre & e & _ & Ht & _). intros [_ Hn _]. congruence.
  - rewrite flush_spec. split; [|done].
    eexists. rewrite <-app_assoc. split; [done|]. by rewrite handle_app, Eh.
Qed.

Lemma handle_end lines r :
  reading r → let r' := (handle lines r).1 in
  reading r' ∨ ∃ e, rd_terminal r' = Some e ∧ is_terminal e.
Proof.
  intros Hr. pose proof (handle_spec lines r Hr) as Hs. destruct (handle lines r) as [r' stop].
  destruct stop; [|by left]. right. destruct Hs as (pre & e & _ & ? & ? & _). by exists e.
Qed.

(** The same end, but for how many lines were counted as malformed after a terminal event. *)
Definition same_end (o o' : ChatStreamOutcome (E := E)) : Prop :=
  match o, o' with
  | Done e s _, Done e' s' _ => e = e' ∧ s = s'
  | Errored e s _, Errored e' s' _ => e = e' ∧ s = s'
  | _, _ => o = o'
  end.

Lemma finish_same_end r s s' :
  reading r ∨ (∃ e, rd_terminal r = Some e ∧ is_terminal e) → (reading r → s = s') →
  same_end (finish r s) (finish r s').
Proof.
  intros [Hr|(e & He & Ht)] Hs.
  - rewrite (Hs Hr). unfold same_end. by destruct (finish r s').
  - unfold finish. rewrite He. by destruct Ht as [-> | ->].
Qed.

(** C9. How the network cuts the body does not matter: any chunks of bytes give the same events
    in the same order, the same first [turn.start] and the same end as the whole text read at
    once, namely those of its lines up to the first terminal event; only the count of malformed
    lines after a terminal event may differ. *)
Theorem readChatStream_chunking chunks (b := concat chunks) :
  ∃ o o', let events := rd_events (handle (lines_of max (decode_all b)) (new_reader (E := E))).1 in
    readChatStream max false (RespStream (((λ c, RChunk c false) <$> chunks) ++ [RDone false])) = Some (o, events) ∧
    readChatStream (B := B) max false (RespText (Some (decode_all b)) false false) = Some (o', events) ∧
    same_end o o'.
Proof.
  unfold readChatStream, b. rewrite (new_splitter_of max), dec_all by done.
  pose proof (read_chunks chunks dec_init [] new_reader) as Hrd.
  destruct (dec_push dec_init (concat chunks)) as [txt d'].
  destruct Hrd as (lines & El & Hrd). cbn [app] in El, Hrd.
  assert (∃ tl, lines_of max (txt ++ dec_flush d') = lines ++ tl) as [tl Htl].
  { rewrite lines_of_flush. destruct (push_spec max txt (dec_flush d') Hmax) as (l2 & _ & ->).
    rewrite El. eexists. cbn. by rewrite <-app_assoc. }
  pose proof (handle_last_spec [] (txt ++ dec_flush d') new_reader new_reader_reading) as Hw.
  cbn [app] in Hw.
  destruct (handle_last max _ _ _) as [r s] eqn:Ew. destruct Hw as [(lw & Elw & ->) Hws].
  cbn in Elw. subst lw. rewrite Htl in Ew, Hws |- *.
  pose proof (handle_spec lines new_reader new_reader_reading) as Hrdg.
  rewrite handle_app in Ew, Hws |- *.
  destruct (handle lines new_reader) as [r1 stop1] eqn:Eh. destruct stop1.
  - destruct Hrd as [s1 Hrd]. rewrite Hrd. destruct Hrdg as (pre & e & Hev & Hte & Het & _ & _).
    exists (finish r1 s1), (finish r1 s). split_and!; [done|done|].
    apply finish_same_end; [right; by exists e|]. intros [_ Hn _]. congruence.
  - rewrite Hrd. cbn [read_body].
    pose proof (handle_last_spec txt (dec_flush d') r1 Hrdg) as Hw2.
    destruct (handle_last max (dec_flush d') r1 _) as [r2 s2]. destruct Hw2 as [(l2 & El2 & ->) Hs2].
    rewrite Htl, El in El2. apply app_inv_head in El2 as <-.
    exists (finish (handle tl r1).1 s2), (finish (handle tl r1).1 s). split_and!; [done|done|].
    apply finish_same_end; [by apply handle_end|]. intros Hrd2. by rewrite Hs2, Hws.
Qed.

(** What the reader claims about the stream is what it saw. *)
Definition honest (o : ChatStreamOutcome (E := E)) (events : list E) : Prop :=
  match o with
  | Done e s _ => s = first_start events ∧ ev_type e = KDone ∧
      ∃ pre, events = pre ++ [e] ∧ Forall (λ e, ¬ is_terminal e) pre
  | Errored e s _ => s = first_start events ∧ ev_type e = KError ∧
      ∃ pre, events = pre ++ [e] ∧ Forall (λ e, ¬ is_terminal e) pre
  | IncompleteEof s _ | IncompleteNetwork s _ | Aborted s _ =>
      s = first_start events ∧ Forall (λ e, ¬ is_terminal e) events
  end.

Lemma finish_honest lines r s :
  reading r → honest (finish (handle lines r).1 s) (rd_events (handle lines r).1).
Proof.
  intros Hr. pose proof (handle_spec lines r Hr) as Hs. destruct (handle lines r) as [r' stop].
  cbn [fst]. unfold finish. destruct stop.
  - destruct Hs as (pre & e & Hev & Ht & [Hk|Hk] & Hpre & Hst); rewrite Ht, Hk; cbn; rewrite Hk;
      (split_and!; [done|done|by exists pre]).
  - destruct Hs as [Hst Ht Hn]. by rewrite Ht.
Qed.

Lemma handle_last_eq t r s :
  ∃ lines s', handle_last max t r s = ((handle lines r).1, s').
Proof.
  unfold handle_last. destruct (push max t s) as [l1 s1]. destruct (handle l1 r) as [r1 stop] eqn:Eh.
  destruct stop.
  - exists l1, s1. by rewrite Eh.
  - destruct (flush s1) as [l2 s2]. exists (l1 ++ l2), s2. by rewrite handle_app, Eh.
Qed.

Lemma read_body_honest reads d s r o events :
  reading r → read_body max reads d s r = Some (o, events) → honest o events.
Proof.
  revert d s r. induction reads as [|[bytes ab|ab|ae ab] reads IH]; intros d s r Hr Ho;
    cbn [read_body] in Ho; [done|..].
  - destruct ab; [simplify_eq; by destruct Hr|].
    destruct (dec_push d bytes) as [t d1], (push max t s) as [lines s1].
    pose proof (handle_spec lines r Hr) as Hs. pose proof (finish_honest lines r s1 Hr) as Hf.
    destruct (handle lines r) as [r1 stop]. destruct stop; [by simplify_eq|]. by eapply IH.
  - destruct ab; [simplify_eq; by destruct Hr|].
    destruct (handle_last_eq (dec_flush d) r s) as (lines & s' & Heq). rewrite Heq in Ho.
    simplify_eq. by apply finish_honest.
  - simplify_eq. destruct Hr. by destruct (ab || ae).
Qed.

(** C10. However the stream goes (broken, aborted, cut short), the outcome never claims more than
    was read: "done" and "error" come exactly from the first terminal event, which is the last
    event reported; every other outcome means no terminal event was reported; and [start] is
    the first [turn.start] reported. *)
Theorem readChatStream_honest aborted_first (response : Response (B := B)) o events :
  readChatStream max aborted_first response = Some (o, events) → honest o events.
Proof.
  unfold readChatStream. destruct aborted_first; [intros; by simplify_eq|].
  destruct response as [reads|[t|] ae ab].
  - apply read_body_honest, new_reader_reading.
  - destruct ab; [intros; by simplify_eq|].
    destruct (handle_last_eq t new_reader new_splitter) as (lines & s' & ->). intros [= <- <-].
    apply finish_honest, new_reader_reading.
  - intros [= <- <-]. by destruct (ab || ae).
Qed.

(** The lines complete once these chunks are read. *)
Definition lines_after (chunks : list (list B)) : list text :=
  complete_lines max (dec_push dec_init (concat chunks)).1.

(** Once a complete terminal line has arrived the answer is settled: whatever the
    connection does afterwards (more chunks, a broken read, an abort) the outcome and the
    reported events are the same, and nothing more is read. If the connection breaks before
    that, every complete line received so far has been reported. *)
Theorem readChatStream_terminal_wins chunks rest :
  let reads := (λ c, RChunk c false) <$> chunks in
  let '(r, stop) := handle (lines_after chunks) (new_reader (E := E)) in
  if stop
  then ∃ o, readChatStream (E := E) max false (RespStream (reads ++ rest)) = Some (o, rd_events r) ∧
            readChatStream (E := E) max false (RespStream reads) = Some (o, rd_events r)
  else ∃ n, readChatStream (E := E) max false (RespStream (reads ++ [RThrow false false])) =
            Some (IncompleteNetwork (rd_start r) n, rd_events r).
Proof.
  unfold readChatStream, lines_after. rewrite (new_splitter_of max) by done.
  pose proof (read_chunks chunks dec_init [] new_reader) as Hrd. cbn [app] in Hrd.
  destruct (dec_push dec_init (concat chunks)) as [txt d']. cbn [fst].
  destruct Hrd as (l1 & El & Hrd). assert (complete_lines max [] = []) as E0 by done.
  rewrite E0 in El. cbn [app] in El. rewrite El.
  destruct (handle l1 new_reader) as [r stop]. destruct stop.
  - destruct Hrd as [s Hs]. exists (finish r s). rewrite Hs. split; [done|].
    specialize (Hs []). by rewrite app_nil_r in Hs.
  - rewrite Hrd. cbn. by eexists.
Qed.
End reader.

(** ** Examples: a one-byte decoder, and lines whose first letter is their event *)
Definition byte_decoder : StreamDecoder Z :=
  Build_StreamDecoder Z unit tt (λ s b, (b, s)) (λ _, []) id
    (λ s, match s with tt => eq_refl end) (λ s b b', eq_refl) (λ b, eq_sym (app_nil_r b)).

Definition letter_events : StreamEvents text :=
  Build_StreamEvents text (λ line, if decide (head line = Some 63) then None else Some line)
    (λ line, match line with 115 :: _ => KStart | 100 :: _ => KDone | 101 :: _ => KError | _ => KOther end).

Lemma readChatStream_chunking_witness :
  let H := letter_events in let H0 := byte_decoder in
  ∃ o o', readChatStream 9 false (RespStream (((λ c, RChunk c false) <$> [[115; 10; 97]; [98; 10; 100; 49; 10]]) ++ [RDone false]))
      = Some (o, [[115]; [97; 98]; [100; 49]]) ∧
    readChatStream 9 false (RespText (Some [115; 10; 97; 98; 10; 100; 49; 10]) false false)
      = Some (o', [[115]; [97; 98]; [100; 49]]) ∧ same_end o o'.
Proof.
  cbv zeta.
  exact (@readChatStream_chunking _ _ letter_events byte_decoder 9 ltac:(lia) [[115; 10; 97]; [98; 10; 100; 49; 10]]).
Defined.

Lemma readChatStream_honest_witness :
  @honest text letter_events (IncompleteNetwork (Some [115]) 0) [[115]; [97]].
Proof.
  apply (@readChatStream_honest _ _ letter_events byte_decoder 9 false
    (RespStream [RChunk [115; 10; 97; 10; 100] false; RThrow false false])). reflexivity.
Defined.

Lemma readChatStream_terminal_wins_witness :
  ∃ o, @readChatStream _ _ letter_events byte_decoder 9 false
         (RespStream (((λ c, RChunk c false) <$> [[101; 10]]) ++ [RThrow true true])) = Some (o, [[101]]).
Proof.
  destruct (@readChatStream_terminal_wins _ _ letter_events byte_decoder 9 ltac:(lia) [[101; 10]] [RThrow true true])
    as (o & H & _). by exists o.
Defined.

(** An aborted read does not count the lines dropped for their size, as every other outcome does:
    one line over the bound, then the abort or the end. *)
Example aborted_hides_dropped :
  let H := letter_events in let H0 := byte_decoder in
  readChatStream 2 false (RespStream [RChunk [97; 97; 97; 10] false; RDone true]) = Some (Aborted None 0, []) ∧
  readChatStream 2 false (RespStream [RChunk [97; 97; 97; 10] false; RDone false]) = Some (IncompleteEof None 1, []).
Proof. vm_compute. done. Qed.
