(* ===== verification/Drafts.v ===== *)
(** * Settings drafts: what changed, what to send, and the draft hook
    (soc/pages/settings-dirty.ts, soc/hooks/useDirtyDraft.ts) *)

From S2P Require Import Prelude JsValue.
From Stdlib Require Import Ascii.
Local Open Scope Z_scope.

(** ** The changed keys *)
Definition PrefsRecord := list (string * jsval).

Definition NON_EDITABLE_KEYS : list string := ["sources"; "setup_complete"].

(** [o[k]]; an absent key reads [undefined]. The keys are the ones of a preferences document: under the name of a member
    every object inherits ([constructor], [__proto__]) the code reads that member, which is left out. *)
Definition prop_of (o : PrefsRecord) (k : string) : jsval := default VUndef (get_own o k).

Definition is_undef (v : jsval) : bool := match v with VUndef => true | _ => false end.

Definition key_changed (draft saved : PrefsRecord) (k : string) : bool :=
  let dv := prop_of draft k in
  let sv := prop_of saved k in
  negb (bool_decide (k ∈ NON_EDITABLE_KEYS)) && negb (is_undef dv && is_undef sv)
  && negb (deepEqual dv sv).

(** The result is a JS Set: its keys in insertion order. *)
Definition changedKeys (draft saved : option PrefsRecord) : list string :=
  match draft, saved with
  | Some draft, Some saved =>
      List.filter (key_changed draft saved) (js_set (draft.*1 ++ saved.*1))
  | _, _ => []
  end.

Definition changedPatch (draft saved : option PrefsRecord) : PrefsRecord :=
  match draft with
  | None => []
  | Some d =>
      omap (λ k, let v := prop_of d k in if is_undef v then None else Some (k, v))
        (changedKeys draft saved)
  end.

Definition isDirty (draft saved : option PrefsRecord) : bool :=
  (0 <? length (changedKeys draft saved))%nat.

(** [SECTION_KEYS[sectionId]] is the sections' own table, an argument here. *)
Definition sectionChangedKeys (owned : option (list string)) (changed : list string) : list string :=
  match owned with
  | None => []
  | Some owned => List.filter (λ k, bool_decide (k ∈ changed)) owned
  end.

Definition sectionIsDirty (owned : option (list string)) (changed : list string) : bool :=
  (0 <? length (sectionChangedKeys owned changed))%nat.

(** ** Counting changed values *)
Definition BOOKKEEPING_LEAVES : list string := ["created_at"; "updated_at"].

(** A JS [Map] as its entries in insertion order; [set] of a known key replaces in place. *)
Fixpoint map_set {A} (m : list (string * A)) (k : string) (v : A) : list (string * A) :=
  match m with
  | [] => [(k, v)]
  | (k', v') :: m' => if String.eqb k' k then (k, v) :: m' else (k', v') :: map_set m' k v
  end.

Fixpoint map_get {A} (m : list (string * A)) (k : string) : option A :=
  match m with
  | [] => None
  | (k', v') :: m' => if String.eqb k' k then Some v' else map_get m' k
  end.

Definition itemKey (item : jsval) : option string :=
  match item with
  | VObj fs =>
      match prop_of fs "id" with
      | VStr (String _ _ as s) => Some s
      | _ => match prop_of fs "name" with
             | VStr (String _ _ as s) => Some s
             | _ => None
             end
      end
  | _ => None
  end.

(** The keys of [keyedItems], in order: [None] when some item has none or repeats one. *)
Fixpoint item_keys (items : list jsval) : option (list string) :=
  match items with
  | [] => Some []
  | item :: items' =>
      match itemKey item, item_keys items' with
      | Some k, Some ks => if bool_decide (k ∈ ks) then None else Some (k :: ks)
      | _, _ => None
      end
  end.

Definition keyedItems (items : list jsval) : option (list (string * jsval)) :=
  match items with
  | [] => None
  | _ => (λ ks, zip ks items) <$> item_keys items
  end.

(** [path.replace(/\[[^\]]*\]/g, '')] *)
Fixpoint after_bracket (s : string) : option string :=
  match s with
  | EmptyString => None
  | String c s' => if Ascii.eqb c "]"%char then Some s' else after_bracket s'
  end.

Fixpoint strip_brackets (fuel : nat) (s : string) : string :=
  match fuel, s with
  | S fuel', String c s' =>
      if Ascii.eqb c "["%char
      then match after_bracket s' with
           | Some rest => strip_brackets fuel' rest
           | None => String c (strip_brackets fuel' s')
           end
      else String c (strip_brackets fuel' s')
  | _, _ => EmptyString
  end.

(** [s.split('.')] *)
Fixpoint split_dots (s : string) : list string :=
  match s with
  | EmptyString => [""]
  | String c s' =>
      if Ascii.eqb c "."%char then "" :: split_dots s'
      else match split_dots s' with
           | [] => [String c ""]
           | w :: ws => String c w :: ws
           end
  end.

Definition leafName (path : string) : string :=
  default "" (last (List.filter (λ w, negb (String.eqb w ""))
                      (split_dots (strip_brackets (String.length path) path)))).

Fixpoint flattenLeaves (value : jsval) (path : string) (out : list (string * jsval))
    {struct value} : list (string * jsval) :=
  match value with
  | VUndef => out
  | VObj [] => map_set out path (VObj [])
  | VObj fs =>
      (fix fields (fs : list (string * jsval)) out :=
         match fs with
         | [] => out
         | (k, v) :: fs' =>
             fields fs' (flattenLeaves v (if String.eqb path "" then k else path +:+ "." +:+ k) out)
         end) fs out
  | VArr items =>
      match items, item_keys items with
      | _ :: _, Some ks =>
          (fix walk (items : list jsval) (ks : list string) out :=
             match items, ks with
             | item :: items', k :: ks' =>
                 walk items' ks' (flattenLeaves item (path +:+ "[" +:+ k +:+ "]") out)
             | _, _ => out
             end) items ks out
      | _, _ => map_set out path value
      end
  | _ => map_set out path value
  end.

Definition isEmptyContainer (v : jsval) : bool :=
  match v with VArr [] | VObj [] => true | _ => false end.

Definition is_null (v : jsval) : bool := match v with VNull => true | _ => false end.

(** [a ?? b] *)
Definition nullish (a b : jsval) : jsval := match a with VUndef | VNull => b | _ => a end.

(** Whether the loop of [changedValueCount] counts this path. *)
Definition path_counts (before after : list (string * jsval)) (path : string) : bool :=
  let was := nullish (default VUndef (map_get before path)) VNull in
  let now := nullish (default VUndef (map_get after path)) VNull in
  if deepEqual was now then false
  else if bool_decide (leafName path ∈ BOOKKEEPING_LEAVES) then false
  else if is_null was || is_null now then
    let present := nullish was now in
    let other := if is_null was then before else after in
    negb (isEmptyContainer present &&
          existsb (λ e, String.prefix (path +:+ "[") e.1 || String.prefix (path +:+ ".") e.1) other)
  else true.

Definition key_value_count (draft saved : PrefsRecord) (key : string) : nat :=
  let before := flattenLeaves (prop_of saved key) key [] in
  let after := flattenLeaves (prop_of draft key) key [] in
  let count := length (List.filter (path_counts before after) (js_set (before.*1 ++ after.*1))) in
  Nat.max count 1.

Definition changedValueCount (draft saved : option PrefsRecord) : nat :=
  match draft, saved with
  | Some d, Some s => sum_list (key_value_count d s <$> changedKeys draft saved)
  | _, _ => 0
  end.

(** ** [useDirtyDraft]

    Each operation finds the hook rendered after the one before it: several in one batch of React, which all see the
    values of the last render, are left out. *)

(** [clone]: a JSON round trip. It drops [undefined] fields and writes [null] for an
    [undefined] item. *)
Fixpoint json_clone (v : jsval) : jsval :=
  match v with
  | VArr items =>
      VArr ((fix go (l : list jsval) :=
               match l with
               | [] => []
               | VUndef :: l' => VNull :: go l'
               | x :: l' => json_clone x :: go l'
               end) items)
  | VObj fs =>
      VObj ((fix go (fs : list (string * jsval)) :=
               match fs with
               | [] => []
               | (_, VUndef) :: fs' => go fs'
               | (k, x) :: fs' => (k, json_clone x) :: go fs'
               end) fs)
  | _ => v
  end.

Record DirtyDraft := mkDraft { dd_saved : jsval; dd_draft : jsval; dd_seeded : jsval }.

Definition useDirtyDraft_init (initial : jsval) : DirtyDraft :=
  mkDraft (json_clone initial) (json_clone initial) initial.

Definition dd_dirty (s : DirtyDraft) : bool := negb (deepEqual (dd_draft s) (dd_saved s)).

(** The effect on a new [initial]. *)
Definition reseed (initial : jsval) (s : DirtyDraft) : DirtyDraft :=
  if deepEqual initial (dd_seeded s) then s
  else mkDraft (json_clone initial)
         (if dd_dirty s then dd_draft s else json_clone initial) initial.

Definition setDraft (next : jsval) (s : DirtyDraft) : DirtyDraft :=
  mkDraft (dd_saved s) next (dd_seeded s).

(** [{ ...prev, ...patch }] *)
Definition spread (a b : list (string * jsval)) : list (string * jsval) :=
  foldl (λ m kv, map_set m kv.1 kv.2) a b.

Definition update (patch : list (string * jsval)) (s : DirtyDraft) : DirtyDraft :=
  setDraft (match dd_draft s with VObj fs => VObj (spread fs patch) | _ => VObj patch end) s.

Definition reset (s : DirtyDraft) : DirtyDraft := setDraft (json_clone (dd_saved s)) s.

Definition commit_draft (next : jsval) (s : DirtyDraft) : DirtyDraft :=
  let value := json_clone (match next with VUndef => dd_draft s | _ => next end) in
  mkDraft value (json_clone value) (dd_seeded s).

Inductive draft_op :=
  | DReseed (initial : jsval)
  | DSet (next : jsval)
  | DUpdate (patch : list (string * jsval))
  | DReset
  | DCommit (next : jsval).

Definition run_draft (o : draft_op) (s : DirtyDraft) : DirtyDraft :=
  match o with
  | DReseed i => reseed i s
  | DSet v => setDraft v s
  | DUpdate p => update p s
  | DReset => reset s
  | DCommit v => commit_draft v s
  end.
