(* ===== verification/DraftsSpec.v ===== *)
(** * Settings drafts: the patch is complete and minimal; the draft hook never loses an edit *)

From S2P Require Import Prelude JsValue Drafts.
Local Open Scope Z_scope.

(** ** Records *)
Abbreviation rec_wf fs := (js_wf (VObj fs)).

Lemma get_own_wf fs k v : rec_wf fs → get_own fs k = Some v → js_wf v.
Proof.
  intros [_ Hf]%js_wf_obj Hk%get_own_elem. rewrite Forall_forall in Hf. by apply (Hf _ Hk).
Qed.

Lemma prop_wf fs k : rec_wf fs → js_wf (prop_of fs k).
Proof.
  intros Hf. unfold prop_of. destruct (get_own fs k) eqn:E; [by eapply get_own_wf|done].
Qed.

Lemma get_own_None fs k : get_own fs k = None ↔ k ∉ (fs.*1).
Proof. rewrite get_own_is_Some, eq_None_not_Some. done. Qed.

Lemma is_undef_spec v : is_undef v = true ↔ v = VUndef.
Proof. by destruct v. Qed.

(** Two values are different for a reader of the document. *)
Definition differ (a b : jsval) : Prop := denote a ≠ denote b.

Lemma deepEqual_differ a b : js_wf a → js_wf b → deepEqual a b = false ↔ differ a b.
Proof. intros Ha Hb. unfold differ. by rewrite <-not_true_iff_false, deepEqual_iff. Qed.

Lemma same_or_differ a b : js_wf a → js_wf b → denote a = denote b ∨ differ a b.
Proof.
  intros Ha Hb. destruct (deepEqual a b) eqn:E; [left; by apply deepEqual_iff|right].
  by apply deepEqual_differ.
Qed.

Lemma deepEqual_refl a : js_wf a → deepEqual a a = true.
Proof. intros Ha. by apply deepEqual_iff. Qed.

Lemma elem_of_changedKeys d s k :
  rec_wf d → rec_wf s →
  k ∈ changedKeys (Some d) (Some s) ↔ (k ∉ NON_EDITABLE_KEYS) ∧ differ (prop_of d k) (prop_of s k).
Proof.
  intros Hd Hs. unfold changedKeys. rewrite list_elem_of_In, filter_In, <-list_elem_of_In, elem_of_js_set.
  unfold key_changed. rewrite !andb_true_iff, !negb_true_iff, bool_decide_eq_false.
  rewrite deepEqual_differ by by apply prop_wf. split; [naive_solver|].
  intros [Hn Hdiff]. split_and!; [|done| |done].
  - rewrite elem_of_app, !get_own_is_Some. unfold prop_of in Hdiff.
    destruct (get_own d k); [by left|]. destruct (get_own s k); [by right|]. by destruct Hdiff.
  - apply andb_false_iff. unfold differ in Hdiff.
    destruct (prop_of d k), (prop_of s k); auto. by destruct Hdiff.
Qed.

Lemma NoDup_changedKeys d s : NoDup (changedKeys d s).
Proof.
  unfold changedKeys. destruct d as [d|], s as [s|]; try apply NoDup_nil_2.
  apply NoDup_ListNoDup, List.NoDup_filter, NoDup_ListNoDup, NoDup_js_set.
Qed.

(** ** Spreading a patch *)
Lemma map_set_keys {A} (m : list (string * A)) k v k' : k' ∈ ((map_set m k v).*1) ↔ k' = k ∨ k' ∈ (m.*1).
Proof.
  induction m as [|[j a] m IH]; simpl; [set_solver|].
  destruct (String.eqb_spec j k) as [->|]; simpl; rewrite !elem_of_cons, ?IH; naive_solver.
Qed.

Lemma get_own_map_set fs k v k' :
  get_own (map_set fs k v) k' = if String.eqb k k' then Some v else get_own fs k'.
Proof.
  induction fs as [|[j a] fs IH]; simpl; [done|].
  destruct (String.eqb_spec j k) as [->|Hj]; simpl.
  - by destruct (String.eqb k k').
  - rewrite IH. destruct (String.eqb_spec j k'), (String.eqb_spec k k'); congruence.
Qed.

Lemma get_own_spread a b k :
  NoDup b.*1 →
  get_own (spread a b) k = match get_own b k with Some v => Some v | None => get_own a k end.
Proof.
  unfold spread. revert a. induction b as [|[j v] b IH]; intros a Hnd; simpl; [done|].
  apply NoDup_cons in Hnd as [Hj Hnd]. rewrite IH by done. rewrite get_own_map_set.
  destruct (String.eqb_spec j k) as [->|]; [|done].
  by rewrite (proj2 (get_own_None b k)).
Qed.

Lemma changedPatch_lookup d s k :
  get_own (changedPatch (Some d) s) k =
  if bool_decide (k ∈ changedKeys (Some d) s)
  then (if is_undef (prop_of d k) then None else Some (prop_of d k)) else None.
Proof.
  unfold changedPatch. pose proof (NoDup_changedKeys (Some d) s) as Hnd.
  induction (changedKeys (Some d) s) as [|j ks IH]; [done|].
  apply NoDup_cons in Hnd as [Hj Hnd]. specialize (IH Hnd). cbn [omap list_omap].
  destruct (decide (k = j)) as [->|Hne].
  - rewrite bool_decide_eq_true_2 by left. destruct (is_undef (prop_of d j)).
    + change (list_omap _ _ _ ks) with (omap (λ k, let v := prop_of d k in if is_undef v then None else Some (k, v)) ks).
      rewrite IH. by rewrite bool_decide_eq_false_2.
    + simpl. by rewrite String.eqb_refl.
  - assert (bool_decide (k ∈ j :: ks) = bool_decide (k ∈ ks)) as ->.
    { apply bool_decide_ext. rewrite elem_of_cons. naive_solver. }
    rewrite <-IH. destruct (is_undef (prop_of d j)); [done|]. simpl.
    destruct (String.eqb_spec j k); [congruence|done].
Qed.

Lemma NoDup_changedPatch d s : NoDup (changedPatch (Some d) s).*1.
Proof.
  unfold changedPatch. pose proof (NoDup_changedKeys (Some d) s) as Hnd.
  induction (changedKeys (Some d) s) as [|j ks IH]; [constructor|].
  apply NoDup_cons in Hnd as [Hj Hnd]. specialize (IH Hnd). cbn [omap list_omap].
  destruct (is_undef (prop_of d j)); [exact IH|]. constructor; [|exact IH].
  intros ([k v] & Heq & Hin)%list_elem_of_fmap. simpl in Heq. subst k.
  apply list_elem_of_omap in Hin as (k & Hk & Hkv). case_match; [done|]. by simplify_eq.
Qed.

(** C11. The Save patch is complete, minimal and safe. Merged over the saved document it gives
    every editable key the draft's value (a key the draft does not hold keeps the saved one,
    as "omitted means unchanged"); it holds no key whose value did not change and never a
    server-owned key; and a document without unsaved changes sends nothing. The keys are those of preferences documents,
    not the names of members every object inherits ([prop_of]). *)
Theorem changedPatch_saves_draft d s (patch := changedPatch (Some d) (Some s)) :
  rec_wf d → rec_wf s →
  (∀ k, denote (prop_of (spread s patch) k) =
     if bool_decide (k ∈ NON_EDITABLE_KEYS) || is_undef (prop_of d k)
     then denote (prop_of s k) else denote (prop_of d k)) ∧
  (∀ k, k ∈ (patch.*1) → (k ∉ NON_EDITABLE_KEYS) ∧ differ (prop_of d k) (prop_of s k)) ∧
  (isDirty (Some d) (Some s) = false ↔
     ∀ k, k ∉ NON_EDITABLE_KEYS → denote (prop_of d k) = denote (prop_of s k)).
Proof.
  intros Hd Hs. split_and!.
  - intros k. unfold prop_of at 1. rewrite get_own_spread by apply NoDup_changedPatch.
    unfold patch. rewrite changedPatch_lookup. case_bool_decide as Hk; rewrite elem_of_changedKeys in Hk by done.
    + destruct Hk as [Hn Hdiff]. destruct (is_undef (prop_of d k)) eqn:Eu.
      * by rewrite orb_true_r.
      * by rewrite bool_decide_eq_false_2.
    + change (denote (default VUndef (get_own s k))) with (denote (prop_of s k)).
      destruct (bool_decide _ || _) eqn:Hno; [done|]. symmetry.
      apply orb_false_iff in Hno as [Hno _]. apply bool_decide_eq_false in Hno.
      destruct (same_or_differ (prop_of d k) (prop_of s k)) as [He|He]; [by apply prop_wf..|done|].
      exfalso. by apply Hk.
  - intros k [[j v] [-> Hin]]%list_elem_of_fmap.
    unfold patch, changedPatch in Hin. apply list_elem_of_omap in Hin as (j' & Hj & Hjv).
    cbv zeta in Hjv. destruct (is_undef _); [done|]. simplify_eq. simpl. by apply elem_of_changedKeys.
  - unfold isDirty. rewrite Nat.ltb_ge. split.
    + intros Hl k Hk.
      destruct (same_or_differ (prop_of d k) (prop_of s k)) as [He|He]; [by apply prop_wf..|done|].
      assert (k ∈ changedKeys (Some d) (Some s)) as Hin by (by apply elem_of_changedKeys).
      destruct (changedKeys (Some d) (Some s)); [by apply elem_of_nil in Hin|simpl in Hl; lia].
    + intros Hall. destruct (changedKeys (Some d) (Some s)) as [|k ks] eqn:E; [done|exfalso].
      assert (k ∈ changedKeys (Some d) (Some s)) as Hin by (rewrite E; left).
      apply elem_of_changedKeys in Hin as [Hn Hdiff]; [|done..]. by apply Hdiff, Hall.
Qed.

Lemma changedPatch_saves_draft_witness :
  denote (prop_of (spread [("a", VNull); ("b", VNull)] (changedPatch (Some [("b", VBool true)]) (Some [("a", VNull); ("b", VNull)]))) "b")
  = MBool true.
Proof.
  rewrite (proj1 (changedPatch_saves_draft [("b", VBool true)] [("a", VNull); ("b", VNull)] ltac:(by repeat constructor; set_solver)
    ltac:(split; [repeat constructor; set_solver|done]))). reflexivity.
Defined.

(** The number shown beside Save is never less than the number of changed keys, and is zero
    exactly when there is nothing to save. *)
Theorem changedValueCount_bounds d s (n := changedValueCount (Some d) (Some s)) :
  (length (changedKeys (Some d) (Some s)) ≤ n)%nat ∧ (n = 0%nat ↔ isDirty (Some d) (Some s) = false).
Proof.
  assert (length (changedKeys (Some d) (Some s)) ≤ n)%nat as Hle.
  { unfold n, changedValueCount. induction (changedKeys (Some d) (Some s)) as [|k ks IH]; [done|].
    assert (1 ≤ key_value_count d s k)%nat by (apply Nat.le_max_r).
    change (sum_list (_ <$> k :: ks))
      with (key_value_count d s k + sum_list (key_value_count d s <$> ks))%nat. simpl. lia. }
  split; [done|]. unfold isDirty. rewrite Nat.ltb_ge. split; [lia|]. clear Hle.
  unfold n, changedValueCount. destruct (changedKeys (Some d) (Some s)); simpl; [done|lia].
Qed.

(** ** The draft hook *)

(** A value a JSON round trip leaves as it is. *)
Definition json_clean (v : jsval) : Prop := json_clone v = v.

Definition clone_items (l : list jsval) : list jsval :=
  (λ x, match x with VUndef => VNull | _ => json_clone x end) <$> l.

Definition clone_fields (fs : list (string * jsval)) : list (string * jsval) :=
  omap (λ kv, match kv.2 with VUndef => None | _ => Some (kv.1, json_clone kv.2) end) fs.

Lemma clone_fields_cons k v fs :
  clone_fields ((k, v) :: fs) =
  if is_undef v then clone_fields fs else (k, json_clone v) :: clone_fields fs.
Proof. by destruct v. Qed.

Lemma is_undef_clone v : is_undef (json_clone v) = is_undef v.
Proof. by destruct v. Qed.

Lemma json_clone_arr l : json_clone (VArr l) = VArr (clone_items l).
Proof. simpl. f_equal. induction l as [|[] l IH]; simpl; by rewrite ?IH. Qed.

Lemma json_clone_obj fs : json_clone (VObj fs) = VObj (clone_fields fs).
Proof. simpl. f_equal. unfold clone_fields. induction fs as [|[k []] fs IH]; simpl; by rewrite ?IH. Qed.

Lemma json_clone_undef v : json_clone v = VUndef ↔ v = VUndef.
Proof. by destruct v. Qed.

Lemma json_clone_idem v : json_clean (json_clone v).
Proof.
  unfold json_clean. induction v as [| |x|x|x|l IH|fs IH] using jsval_rec'; try done.
  - rewrite !json_clone_arr. f_equal. unfold clone_items. rewrite <-list_fmap_compose.
    apply Forall_fmap_ext_1. eapply Forall_impl; [exact IH|]. intros x Hx. unfold compose.
    destruct x; try done; cbn -[json_clone] in *; by rewrite Hx.
  - rewrite !json_clone_obj. f_equal. induction IH as [|[k v] fs Hv _ IHfs]; [done|].
    rewrite clone_fields_cons. destruct (is_undef v) eqn:Eu; [exact IHfs|].
    rewrite clone_fields_cons, is_undef_clone, Eu. cbn [snd] in Hv. by rewrite Hv, IHfs.
Qed.

Lemma clone_fields_keys fs : sublist ((clone_fields fs).*1) (fs.*1).
Proof.
  induction fs as [|[k v] fs IH]; [constructor|]. rewrite clone_fields_cons.
  destruct (is_undef v); [by apply sublist_cons|by apply sublist_skip].
Qed.

Lemma json_clone_wf v : js_wf v → js_wf (json_clone v).
Proof.
  induction v as [| |x|x|x|l IH|fs IH] using jsval_rec'; try done.
  - rewrite json_clone_arr, !js_wf_arr. intros Hl. unfold clone_items. apply Forall_fmap.
    rewrite Forall_forall in Hl, IH. apply Forall_forall. intros x Hx. unfold compose.
    specialize (IH x Hx (Hl x Hx)). by destruct x.
  - rewrite json_clone_obj, !js_wf_obj. intros [Hnd Hf]. split.
    + eapply sublist_NoDup; [exact Hnd|apply clone_fields_keys].
    + clear Hnd. induction IH as [|[k v] fs Hv _ IHfs]; [done|].
      apply Forall_cons in Hf as [Hfv Hf]. rewrite clone_fields_cons.
      destruct (is_undef v); [by apply IHfs|]. constructor; [by apply Hv|by apply IHfs].
Qed.

(** The baseline is always a clean copy of a well-formed value. *)
Record draft_ok (s : DirtyDraft) : Prop := {
  ok_clean : json_clean (dd_saved s);
  ok_saved : js_wf (dd_saved s);
  ok_draft : js_wf (dd_draft s);
  ok_seeded : js_wf (dd_seeded s);
}.

Definition op_wf (o : draft_op) : Prop :=
  match o with
  | DReseed v | DSet v | DCommit v => js_wf v
  | DUpdate p => rec_wf p
  | DReset => True
  end.

Lemma map_set_wf fs k v : rec_wf fs → js_wf v → rec_wf (map_set fs k v).
Proof.
  intros [Hnd Hf]%js_wf_obj Hv. apply js_wf_obj. induction fs as [|[j a] fs IH]; simpl.
  { split; [apply NoDup_singleton|by repeat constructor]. }
  apply NoDup_cons in Hnd as [Hj Hnd]. apply Forall_cons in Hf as [Ha Hf].
  destruct (String.eqb_spec j k) as [->|Hne].
  - split; [by constructor|by constructor].
  - destruct (IH Hnd Hf) as [IH1 IH2]. split; [|by constructor].
    constructor; [|done]. intros [?|?]%map_set_keys; [simpl in *; congruence|done].
Qed.

Lemma spread_wf a b : rec_wf a → rec_wf b → rec_wf (spread a b).
Proof.
  unfold spread. intros Ha [_ Hb]%js_wf_obj. revert a Ha.
  induction Hb as [|[k v] b Hv _ IH]; intros a Ha; [done|]. simpl. by apply IH, map_set_wf.
Qed.

Lemma run_draft_ok o s : op_wf o → draft_ok s → draft_ok (run_draft o s).
Proof.
  intros Ho [H1 H2 H3 H4]. destruct o as [i|v|p| |v]; cbn [op_wf run_draft] in *.
  - unfold reseed. destruct (deepEqual i _); [done|]. split; cbn; try done.
    + apply json_clone_idem.
    + by apply json_clone_wf.
    + destruct (dd_dirty s); [done|by apply json_clone_wf].
  - by split.
  - split; cbn; try done. destruct (dd_draft s); try done. by apply spread_wf.
  - split; cbn; try done. by apply json_clone_wf.
  - assert (js_wf (json_clone match v with VUndef => dd_draft s | _ => v end)) as Hw.
    { apply json_clone_wf. by destruct v. }
    split; cbn; [apply json_clone_idem|done|by apply json_clone_wf|done].
Qed.

Lemma run_drafts_ok ops s : Forall op_wf ops → draft_ok s → draft_ok (foldl (λ s o, run_draft o s) s ops).
Proof.
  intros Hops. revert s. induction Hops as [|o ops Ho _ IH]; intros s Hs; [done|]. by apply IH, run_draft_ok.
Qed.

Lemma init_ok v : js_wf v → draft_ok (useDirtyDraft_init v).
Proof. intros Hv. split; cbn; [apply json_clone_idem|by apply json_clone_wf..|done]. Qed.

(** C12. An edit in progress is never lost, and "dirty" is right. After any history of edits,
    saves, discards and background refreshes: saving or discarding leaves a clean draft equal
    to the saved value; a refresh moves the baseline but leaves a dirty draft exactly as it is,
    and a clean one follows it. Each operation is rendered before the next. *)
Theorem useDirtyDraft_keeps_edits initial ops v
    (s := foldl (λ s o, run_draft o s) (useDirtyDraft_init initial) ops) :
  js_wf initial → Forall op_wf ops → js_wf v →
  (dd_dirty (commit_draft v s) = false ∧
   dd_saved (commit_draft v s) = json_clone (if is_undef v then dd_draft s else v)) ∧
  (dd_dirty (reset s) = false ∧ dd_saved (reset s) = dd_saved s) ∧
  (dd_dirty s = true → dd_draft (reseed v s) = dd_draft s) ∧
  (dd_dirty s = false → dd_dirty (reseed v s) = false) ∧
  (deepEqual v (dd_seeded s) = false → dd_saved (reseed v s) = json_clone v).
Proof.
  intros Hi Hops Hv. pose proof (run_drafts_ok ops _ Hops (init_ok _ Hi)) as [H1 H2 H3 H4]. fold s in H1, H2, H3, H4.
  assert (∀ x, js_wf x → deepEqual (json_clone (json_clone x)) (json_clone x) = true) as Hcl.
  { intros x Hx. rewrite (json_clone_idem x). by apply deepEqual_refl, json_clone_wf. }
  split_and!.
  - unfold dd_dirty; cbn. rewrite Hcl; [done|by destruct v].
  - cbn. by destruct v.
  - unfold dd_dirty; cbn. rewrite H1, deepEqual_refl by done. done.
  - done.
  - intros Hd. unfold reseed. destruct (deepEqual _ _); [done|]. cbn. by rewrite Hd.
  - intros Hd. unfold reseed. destruct (deepEqual _ _); [done|]. rewrite Hd. unfold dd_dirty; cbn.
    by rewrite deepEqual_refl by by apply json_clone_wf.
  - intros Hd. unfold reseed. by rewrite Hd.
Qed.

Lemma useDirtyDraft_keeps_edits_witness :
  dd_draft (reseed (VObj [("a", VBool false)])
    (foldl (λ s o, run_draft o s) (useDirtyDraft_init (VObj [])) [DUpdate [("a", VBool true)]]))
  = VObj [("a", VBool true)].
Proof.
  refine (eq_trans (proj1 (proj2 (proj2 (useDirtyDraft_keeps_edits (VObj []) [DUpdate [("a", VBool true)]]
    (VObj [("a", VBool false)]) _ _ _))) _) _); try reflexivity.
  - apply js_wf_obj. split; constructor.
  - repeat constructor; set_solver.
  - apply js_wf_obj. repeat constructor; set_solver.
Defined.
