(* ===== verification/Csv.v ===== *)
(** * Spreadsheet-safe fields (lib/csv.ts)

    Numbers are an interface: what [Number.isFinite] and [String(n)] answer. *)

From S2P Require Import Prelude JsText.
Local Open Scope Z_scope.

Class JsNumber (N : Type) := {
  isFinite : N → bool;
  String_ : N → text;
  (** [String] of a finite number is digits, signs, a dot or an exponent. *)
  String_plain : ∀ n, isFinite n = true →
    String_ n ≠ [] ∧ Forall (λ c, c ≠ QUOTE ∧ c ≠ COMMA ∧ c ≠ CR ∧ c ≠ LF ∧ c ≠ TAB) (String_ n);
}.

Inductive CsvCell (N : Type) :=
  | CStr (s : text)
  | CNum (n : N)
  | CBool (b : bool)
  | CNull.
Arguments CStr {N} s.
Arguments CNum {N} n.
Arguments CBool {N} b.
Arguments CNull {N}.

(** [= + - @], TAB, CR, LF and the full-width [= + - @] *)
Definition formula_leads : list Z := [61; 43; 45; 64; 9; 13; 10; 65309; 65291; 65293; 65312].

(** [FORMULA_LEAD.test]: a lead after any run of spaces *)
Fixpoint isFormulaLed (t : text) : bool :=
  match t with
  | [] => false
  | c :: t' => if c =? SPACE then isFormulaLed t' else bool_decide (c ∈ formula_leads)
  end.

Definition TSV_LEAD (t : text) : bool := bool_decide (head t = Some QUOTE).

Definition defuseFormula (t : text) : text := if isFormulaLed t then APOSTROPHE :: t else t.

(** Every quote of the text doubled. *)
Definition double_quotes (t : text) : text := t ≫= λ c, if c =? QUOTE then [QUOTE; QUOTE] else [c].

Section fields.
Context {N : Type} `{JsNumber N}.

Definition csvField (value : CsvCell N) : text :=
  match value with
  | CNull => []
  | CNum n => if isFinite n then String_ n else []
  | CBool b => if b then units "true" else units "false"
  | CStr s => [QUOTE] ++ double_quotes (defuseFormula s) ++ [QUOTE]
  end.

Definition breaks (c : Z) : bool := (c =? TAB) || (c =? CR) || (c =? LF).

(** [value.replace(/[\t\r\n]+/g, ' ')]; [inside] a run already folded *)
Fixpoint fold_breaks (inside : bool) (t : text) : text :=
  match t with
  | [] => []
  | c :: t' =>
      if breaks c then (if inside then fold_breaks true t' else SPACE :: fold_breaks true t')
      else c :: fold_breaks false t'
  end.

Definition tsvField (value : CsvCell N) : text :=
  match value with
  | CNull => []
  | CNum n => if isFinite n then String_ n else []
  | CBool b => if b then units "true" else units "false"
  | CStr s =>
      let folded := fold_breaks false s in
      let dangerous := TSV_LEAD s || isFormulaLed s || isFormulaLed folded in
      if dangerous then APOSTROPHE :: folded else folded
  end.

Definition csvRow (cells : list (CsvCell N)) : text := join_with [COMMA] (csvField <$> cells).

Definition csvDocument (rows : list (list (CsvCell N))) : text :=
  join_with [CR; LF] (csvRow <$> rows).
End fields.

(** ** A reference reader of RFC 4180 records *)

(** What a reader sees: a quoted field is text, a bare one is a number, a flag or nothing. *)
Inductive field := FBare (t : text) | FText (t : text).

Inductive fstate := Bare (acc : text) | Quoted (acc : text) | QuoteSeen (acc : text) | CrSeen.

Fixpoint csv_parse (t : text) (st : fstate) (row : list field) : option (list (list field)) :=
  match t with
  | [] =>
      match st with
      | Bare acc => Some [row ++ [FBare acc]]
      | QuoteSeen acc => Some [row ++ [FText acc]]
      | Quoted _ | CrSeen => None
      end
  | c :: t' =>
      match st with
      | Quoted acc =>
          if c =? QUOTE then csv_parse t' (QuoteSeen acc) row
          else csv_parse t' (Quoted (acc ++ [c])) row
      | QuoteSeen acc =>
          if c =? QUOTE then csv_parse t' (Quoted (acc ++ [QUOTE])) row
          else if c =? COMMA then csv_parse t' (Bare []) (row ++ [FText acc])
          else if c =? CR then csv_parse t' CrSeen (row ++ [FText acc])
          else None
      | Bare acc =>
          if c =? QUOTE then match acc with [] => csv_parse t' (Quoted []) row | _ => None end
          else if c =? COMMA then csv_parse t' (Bare []) (row ++ [FBare acc])
          else if c =? CR then csv_parse t' CrSeen (row ++ [FBare acc])
          else if c =? LF then None
          else csv_parse t' (Bare (acc ++ [c])) row
      | CrSeen => if c =? LF then cons row <$> csv_parse t' (Bare []) [] else None
      end
  end.

Section theorems.
Context {N : Type} `{JsNumber N}.

(** What a reader gets for each cell. *)
Definition field_of (cell : CsvCell N) : field :=
  match cell with
  | CStr s => FText (defuseFormula s)
  | _ => FBare (csvField cell)
  end.

Definition fields_of (row : list (CsvCell N)) : list field := field_of <$> row.

Lemma defuse_safe t : isFormulaLed (defuseFormula t) = false.
Proof.
  unfold defuseFormula. by destruct (isFormulaLed t) eqn:E.
Qed.

(** Where the reader goes after a whole field. *)
Definition after_field (f : field) (rest : text) (row : list field) : option (list (list field)) :=
  match rest with
  | [] => Some [row ++ [f]]
  | c :: rest' =>
      if c =? COMMA then csv_parse rest' (Bare []) (row ++ [f])
      else csv_parse rest' CrSeen (row ++ [f])
  end.

Definition ends_field (rest : text) : Prop :=
  match rest with [] => True | c :: _ => c = COMMA ∨ c = CR end.

Lemma parse_quoted t acc rest row :
  ends_field rest →
  csv_parse (double_quotes t ++ QUOTE :: rest) (Quoted acc) row = after_field (FText (acc ++ t)) rest row.
Proof.
  intros Hr. revert acc. induction t as [|c t IH]; intros acc.
  - rewrite app_nil_r. simpl. destruct rest as [|c rest]; [done|]. by destruct Hr as [-> | ->].
  - unfold double_quotes in *. cbn [mbind list_bind]. destruct (Z.eqb_spec c QUOTE) as [->|Hc].
    + simpl. rewrite IH. by rewrite <-app_assoc.
    + simpl. destruct (Z.eqb_spec c QUOTE); [done|]. rewrite IH. by rewrite <-app_assoc.
Qed.

Lemma parse_bare t acc rest row :
  ends_field rest → Forall (λ c, c ≠ QUOTE ∧ c ≠ COMMA ∧ c ≠ CR ∧ c ≠ LF ∧ c ≠ TAB) t →
  csv_parse (t ++ rest) (Bare acc) row = after_field (FBare (acc ++ t)) rest row.
Proof.
  intros Hr Ht. revert acc. induction Ht as [|c t (H1 & H2 & H3 & H4 & _) Ht IH]; intros acc.
  - rewrite app_nil_r. simpl. destruct rest as [|c rest]; [done|]. by destruct Hr as [-> | ->].
  - simpl. rewrite !(proj2 (Z.eqb_neq _ _)) by done. rewrite IH. by rewrite <-app_assoc.
Qed.

Lemma parse_field cell rest row :
  ends_field rest → csv_parse (csvField cell ++ rest) (Bare []) row = after_field (field_of cell) rest row.
Proof.
  intros Hr. destruct cell as [s|n|b|]; cbn [field_of].
  - cbn. rewrite <-app_assoc. by apply (parse_quoted (defuseFormula s) []).
  - cbn [csvField]. destruct (isFinite n) eqn:En.
    + apply (parse_bare (String_ n) []); [done|by apply String_plain].
    + apply (parse_bare [] []); [done|apply List.Forall_nil].
  - apply (parse_bare (csvField (CBool b)) []); [done|].
    destruct b; vm_compute; rewrite !Forall_cons, Forall_nil; (split_and!; done || discriminate).
  - apply (parse_bare [] []); [done|apply List.Forall_nil].
Qed.

Lemma parse_row cells rest row :
  cells ≠ [] → (rest = [] ∨ ∃ rest', rest = CR :: LF :: rest') →
  csv_parse (csvRow cells ++ rest) (Bare []) row =
  match rest with
  | [] => Some [row ++ fields_of cells]
  | _ => cons (row ++ fields_of cells) <$> csv_parse (drop 2 rest) (Bare []) []
  end.
Proof.
  intros Hc Hr. unfold csvRow. revert row. induction cells as [|cell cells IH]; intros row; [done|].
  destruct cells as [|cell' cells].
  - cbn [fmap list_fmap join_with]. rewrite parse_field.
    + destruct Hr as [->|[rest' ->]]; done.
    + destruct Hr as [->|[rest' ->]]; simpl; auto.
  - change (join_with [COMMA] (csvField <$> cell :: cell' :: cells))
      with (csvField cell ++ [COMMA] ++ join_with [COMMA] (csvField <$> cell' :: cells)).
    rewrite <-!app_assoc, parse_field by (simpl; auto). cbn [app after_field].
    rewrite Z.eqb_refl, IH by done.
    change (fields_of (cell :: cell' :: cells)) with ([field_of cell] ++ fields_of (cell' :: cells)).
    by rewrite app_assoc.
Qed.

(** C13. A CSV document reads back as exactly its cells: an RFC 4180 reader gets every row and
    every field, text fields as the (defused) text with quotes, commas and line breaks intact,
    numbers and flags bare, null empty; and no text field it gets opens like a formula. *)
Theorem csvDocument_roundtrip (rows : list (list (CsvCell N))) :
  rows ≠ [] → Forall (λ r, r ≠ []) rows →
  csv_parse (csvDocument rows) (Bare []) [] = Some (fields_of <$> rows) ∧
  Forall (Forall (λ f, match f with FText t => isFormulaLed t = false | FBare _ => True end))
    (fields_of <$> rows).
Proof.
  intros Hne Hr. split.
  - unfold csvDocument. induction Hr as [|row rows Hrow Hrows IH]; [done|].
    destruct rows as [|row' rows].
    + cbn [fmap list_fmap join_with]. rewrite <-(app_nil_r (csvRow row)).
      by rewrite parse_row by auto.
    + change (join_with [CR; LF] (csvRow <$> row :: row' :: rows))
        with (csvRow row ++ CR :: LF :: join_with [CR; LF] (csvRow <$> row' :: rows)).
      rewrite parse_row by eauto. rewrite skipn_cons, skipn_cons, skipn_O, IH by done. done.
  - apply Forall_fmap, Forall_forall. intros row _. unfold compose.
    apply Forall_fmap, Forall_forall. intros cell _. unfold compose.
    destruct cell; cbn; [apply defuse_safe|done..].
Qed.

Lemma fold_breaks_clean inside t : Forall (λ c, breaks c = false) (fold_breaks inside t).
Proof.
  revert inside. induction t as [|c t IH]; intros inside; simpl; [constructor|].
  destruct (breaks c) eqn:E; [destruct inside; [done|by constructor]|by constructor].
Qed.

(** A copied cell stays one cell of text: no field holds a tab or a line break, and no text
    field opens like a formula or a text qualifier for the sheet it is pasted into. *)
Theorem tsvField_safe (cell : CsvCell N) :
  Forall (λ c, breaks c = false) (tsvField cell) ∧
  (∀ s, cell = CStr s → isFormulaLed (tsvField cell) = false ∧ TSV_LEAD (tsvField cell) = false).
Proof.
  split.
  - destruct cell as [s|n|b|]; cbn [tsvField].
    + case_match; [constructor; [done|]|]; apply fold_breaks_clean.
    + destruct (isFinite n) eqn:En; [|constructor]. eapply Forall_impl; [by apply String_plain|].
      intros c (_ & _ & H3 & H4 & H5). unfold breaks. by rewrite !(proj2 (Z.eqb_neq _ _)) by done.
    + destruct b; repeat constructor.
    + constructor.
  - intros s ->. cbn [tsvField]. destruct (_ || _) eqn:E; [split; [done|done]|].
    apply orb_false_iff in E as [E Hf]. apply orb_false_iff in E as [Hq Hs]. split; [done|].
    destruct s as [|c s]; [done|]. simpl in Hs |- *. destruct (breaks c) eqn:Hb; [|exact Hq].
    done.
Qed.
End theorems.

(** One number, [0], for the examples. *)
Definition zero_number : JsNumber unit.
Proof.
  refine (Build_JsNumber unit (λ _, true) (λ _, [48]) _).
  intros _ _. split; [done|]. rewrite Forall_cons, Forall_nil. unfold QUOTE, COMMA, CR, LF, TAB. lia.
Defined.

Lemma csvDocument_roundtrip_witness :
  csv_parse (@csvDocument unit zero_number [[CStr [61; 34; 49]; CNull]; [CNum tt; CBool true]]) (Bare []) []
  = Some [[FText [39; 61; 34; 49]; FBare []]; [FBare [48]; FBare (units "true")]].
Proof.
  rewrite (proj1 (@csvDocument_roundtrip unit zero_number [[CStr [61; 34; 49]; CNull]; [CNum tt; CBool true]]
    ltac:(discriminate) ltac:(repeat constructor; discriminate))). reflexivity.
Defined.

Lemma tsvField_safe_witness :
  isFormulaLed (@tsvField unit zero_number (CStr [32; 9; 61])) = false.
Proof. exact (proj1 (proj2 (@tsvField_safe unit zero_number (CStr [32; 9; 61])) _ eq_refl)). Defined.
