(* ===== verification/DisplayText.v ===== *)
(** * The display sanitiser of chat strings ([displayText] of soc/chat/stream-events.ts)

    A string is a list of UTF-16 code units. The source's patterns carry the [u] flag, so a class
    matches whole code points: a surrogate pair is one, an unpaired half is one by itself. *)

From S2P Require Import Prelude JsText Csv.
Local Open Scope Z_scope.

Definition INVISIBLE_TEXT_RANGES : list (Z * Z) :=
  [(0, 8); (11, 12); (14, 31); (127, 159); (173, 173); (847, 847); (1564, 1564); (4447, 4448); (6068, 6069);
   (6155, 6159); (8203, 8207); (8232, 8238); (8288, 8303); (12644, 12644); (65024, 65039); (65279, 65279);
   (65440, 65440); (65520, 65531); (113824, 113827); (119155, 119162); (917504, 921599)].

Definition ELLIPSIS : Z := 8230.

(** ** Code points *)
Definition point (hi lo : Z) : Z := 65536 + (hi - 55296) * 1024 + (lo - 56320).

Fixpoint code_points (t : text) : list Z :=
  match t with
  | [] => []
  | c :: t' =>
      match t' with
      | d :: t'' => if is_high c && is_low d then point c d :: code_points t'' else c :: code_points t'
      | [] => [c]
      end
  end.

Definition point_units (p : Z) : text :=
  if p <? 65536 then [p] else [55296 + (p - 65536) / 1024; 56320 + (p - 65536) mod 1024].

Definition from_points (l : list Z) : text := l ≫= point_units.

(** [text.replace(/[...]/gu, '')] *)
Definition strip (class : Z → bool) (t : text) : text := from_points (List.filter (λ p, negb (class p)) (code_points t)).

(** [INVISIBLE_RE] *)
Definition invisible (p : Z) : bool := existsb (λ '((lo, hi) : Z * Z), (lo <=? p) && (p <=? hi)) INVISIBLE_TEXT_RANGES.
(** [LONE_SURROGATE_RE] *)
Definition lone (p : Z) : bool := (55296 <=? p) && (p <=? 57343).

(** [text.replace(/\r\n?/g, '\n')] *)
Fixpoint crlf (t : text) : text :=
  match t with
  | [] => []
  | c :: t' =>
      if c =? CR then match t' with d :: t'' => if d =? LF then LF :: crlf t'' else LF :: crlf t' | [] => [LF] end
      else c :: crlf t'
  end.

(** [trim()] and [trimEnd()] on code units *)
Fixpoint text_trimStart (t : text) : text :=
  match t with
  | c :: t' => if trim_space c then text_trimStart t' else t
  | [] => []
  end.
Definition text_trimEnd (t : text) : text := reverse (text_trimStart (reverse t)).
Definition text_trim (t : text) : text := text_trimEnd (text_trimStart t).

(** ** The sanitiser *)

(** What [typeof] tells apart in an unknown value. *)
Inductive Unknown (N : Type) := UText (t : text) | UNumber (n : N) | UBoolean (b : bool) | UOther.
Arguments UText {N} t.
Arguments UNumber {N} n.
Arguments UBoolean {N} b.
Arguments UOther {N}.

(** [text.replace(INVISIBLE_RE, '').replace(LONE_SURROGATE_RE, '')] *)
Definition stripped (t : text) : text := strip lone (strip invisible t).

Definition unbroken (multiline : bool) (t : text) : text :=
  if multiline then crlf t else text_trim (fold_breaks false t).

Definition clamped (limit : Z) (t : text) : text :=
  if 0 <? limit then
    let chars := code_points t in
    if limit <? Z.of_nat (length chars)
    then text_trimEnd (from_points (take (Z.to_nat (Z.max 0 (limit - 1))) chars)) ++ [ELLIPSIS]
    else t
  else t.

Definition displayText {N} `{JsNumber N} (value : Unknown N) (limit : Z) (multiline : bool) : text :=
  let show t := clamped limit (unbroken multiline (stripped t)) in
  match value with
  | UText t => show t
  | UNumber n => show (if isFinite n then String_ n else [])
  | UBoolean b => show (units (if b then "true" else "false"))
  | UOther => []
  end.

(** A removed character may bring two surrogate halves together: the pair is a new character, and no
    pattern looks at it again. *)
Example smuggled_tag {N} `{JsNumber N} :
  let hidden := [56128; 8203; 56321] in
  displayText (UText (N:=N) hidden) 60 false = [56128; 56321] ∧ code_points [56128; 56321] = [917505] ∧ invisible 917505 = true.
Proof. vm_compute. split_and!; reflexivity. Qed.
