(* ===== verification/DisplaySpec.v ===== *)
(** * The display sanitiser is safe: bounded, unbroken, without invisible characters, and stable

    Everything is done on code points: on a text without lone halves every pass of [displayText] is
    the same pass on its code points. *)

From S2P Require Import Prelude JsText Csv DisplayText.
Local Open Scope Z_scope.

(** ** Code points and code units *)
Definition unit_ok (c : Z) : Prop := 0 ≤ c < 65536.
Definition point_ok (p : Z) : Prop := 0 ≤ p < 1114112.
(** A real character: no half of a pair. *)
Definition real (p : Z) : Prop := point_ok p ∧ lone p = false.

Lemma is_high_spec c : is_high c = true ↔ 55296 ≤ c ≤ 56319.
Proof. unfold is_high. rewrite andb_true_iff, !Z.leb_le. lia. Qed.
Lemma is_low_spec c : is_low c = true ↔ 56320 ≤ c ≤ 57343.
Proof. unfold is_low. rewrite andb_true_iff, !Z.leb_le. lia. Qed.
Lemma lone_spec p : lone p = true ↔ 55296 ≤ p ≤ 57343.
Proof. unfold lone. rewrite andb_true_iff, !Z.leb_le. lia. Qed.
Lemma real_spec p : real p ↔ point_ok p ∧ ¬ (55296 ≤ p ≤ 57343).
Proof. unfold real. rewrite <-lone_spec. destruct (lone p); naive_solver. Qed.

Lemma code_points_cons c t : is_high c = false → code_points (c :: t) = c :: code_points t.
Proof. intros Hc. destruct t as [|d t]; [done|]. cbn [code_points]. by rewrite Hc. Qed.

Lemma code_points_pair h l t : is_high h = true → is_low l = true → code_points (h :: l :: t) = point h l :: code_points t.
Proof. intros Hh Hl. cbn [code_points]. by rewrite Hh, Hl. Qed.

Lemma from_points_cons p l : from_points (p :: l) = point_units p ++ from_points l.
Proof. done. Qed.

Lemma from_points_app l l' : from_points (l ++ l') = from_points l ++ from_points l'.
Proof. apply bind_app. Qed.

(** The units of an astral character are a pair that reads back. *)
Lemma astral_pair p : real p → 65536 ≤ p →
  let h := 55296 + (p - 65536) / 1024 in let l := 56320 + (p - 65536) mod 1024 in
  is_high h = true ∧ is_low l = true ∧ point h l = p.
Proof.
  intros [[_ Hp] _] Hge. cbv zeta. rewrite is_high_spec, is_low_spec. unfold point.
  pose proof (Z.div_mod (p - 65536) 1024 ltac:(lia)). pose proof (Z.mod_pos_bound (p - 65536) 1024 ltac:(lia)).
  assert (0 ≤ (p - 65536) / 1024) by (apply Z.div_pos; lia).
  assert ((p - 65536) / 1024 < 1024) by (apply Z.div_lt_upper_bound; lia). lia.
Qed.

Lemma code_points_from l : Forall real l → code_points (from_points l) = l.
Proof.
  induction 1 as [|p l Hp Hl IH]; [done|]. rewrite from_points_cons. unfold point_units. destruct (Z.ltb_spec p 65536) as [Hlt|Hge].
  - cbn [app]. rewrite code_points_cons; [by rewrite IH|]. apply real_spec in Hp as [_ Hp].
    destruct (is_high p) eqn:E; [|done]. apply is_high_spec in E. lia.
  - destruct (astral_pair p Hp Hge) as (Hh & Hlo & Hpt). cbn [app]. by rewrite (code_points_pair _ _ _ Hh Hlo), Hpt, IH.
Qed.

Lemma point_ok_pair h l : is_high h = true → is_low l = true → point_ok (point h l).
Proof. rewrite is_high_spec, is_low_spec. unfold point_ok, point. lia. Qed.

Lemma code_points_ok t : Forall unit_ok t → Forall point_ok (code_points t).
Proof.
  assert (H : ∀ k t, (length t ≤ k)%nat → Forall unit_ok t → Forall point_ok (code_points t)); [|by apply (H (length t))].
  clear t. induction k as [|k IH]; intros [|c [|d t]] Hk Ht; try (simpl in Hk; lia); try constructor;
    try (inversion Ht as [|? ? Hc Ht']; subst; unfold unit_ok, point_ok in *; lia); try done.
  cbn [code_points]. inversion Ht as [|? ? Hc Ht']; subst. destruct (is_high c && is_low d) eqn:E.
  - apply andb_true_iff in E as [Hh Hl]. constructor; [by apply point_ok_pair|]. apply IH; [simpl in *; lia|by inversion Ht'].
  - constructor; [unfold unit_ok, point_ok in *; lia|]. apply (IH (d :: t)); [simpl in *; lia|done].
Qed.

Lemma from_points_ok l : Forall point_ok l → Forall unit_ok (from_points l).
Proof.
  induction 1 as [|p l Hp Hl IH]; [constructor|]. rewrite from_points_cons. apply Forall_app. split; [|done].
  unfold point_units, unit_ok, point_ok in *. destruct (Z.ltb_spec p 65536); [by repeat constructor; lia|].
  pose proof (Z.mod_pos_bound (p - 65536) 1024 ltac:(lia)). assert (0 ≤ (p - 65536) / 1024) by (apply Z.div_pos; lia).
  assert ((p - 65536) / 1024 < 1024) by (apply Z.div_lt_upper_bound; lia). repeat constructor; lia.
Qed.

Lemma Forall_List_filter {A} (P : A → Prop) (f : A → bool) l : Forall P l → Forall P (List.filter f l).
Proof. induction 1 as [|x l Hx Hl IH]; simpl; [constructor|]. destruct (f x); [by constructor|done]. Qed.

Lemma List_filter_spec {A} (f : A → bool) l : Forall (λ x, f x = true) (List.filter f l).
Proof. induction l as [|x l IH]; simpl; [constructor|]. destruct (f x) eqn:E; [by constructor|done]. Qed.

Lemma List_filter_id {A} (f : A → bool) l : Forall (λ x, f x = true) l → List.filter f l = l.
Proof. induction 1 as [|x l Hx Hl IH]; simpl; [done|]. by rewrite Hx, IH. Qed.

(** ** Stripping *)
Definition well_formed (t : text) : Prop := Forall unit_ok t ∧ Forall (λ p, lone p = false) (code_points t).

(** Stripping leaves whole characters, and no invisible one when the text had no lone half. *)
Lemma stripped_points t : Forall unit_ok t →
  ∃ l, stripped t = from_points l ∧ Forall real l ∧ (well_formed t → Forall (λ p, invisible p = false) l).
Proof.
  intros Ht. unfold stripped, strip at 1.
  set (l1 := List.filter (λ p, negb (invisible p)) (code_points t)).
  assert (H1 : Forall point_ok l1) by (by apply Forall_List_filter, code_points_ok).
  exists (List.filter (λ p, negb (lone p)) (code_points (from_points l1))). split; [done|]. split.
  - pose proof (List_filter_spec (λ p, negb (lone p)) (code_points (from_points l1))) as Hf.
    assert (Hok : Forall point_ok (List.filter (λ p, negb (lone p)) (code_points (from_points l1)))) by (by apply Forall_List_filter, code_points_ok, from_points_ok).
    rewrite Forall_forall in Hf, Hok |- *. intros p Hp. split; [by apply Hok|]. by apply negb_true_iff, Hf.
  - intros [_ Hw]. assert (Hr : Forall real l1).
    { apply (Forall_List_filter _ (λ p, negb (invisible p))) in Hw. fold l1 in Hw. rewrite Forall_forall in Hw, H1 |- *. intros p Hp. by split; [apply H1|apply Hw]. }
    rewrite (code_points_from l1 Hr). apply Forall_List_filter. eapply Forall_impl; [apply List_filter_spec|]. intros p. apply negb_true_iff.
Qed.

(** ** The passes on code points *)
Lemma space_not_half c : trim_space c = true → c < 55296 ∨ 57343 < c.
Proof.
  unfold trim_space. intros Hc. destruct (Z.ltb_spec c 55296); [by left|]. destruct (Z.ltb_spec 57343 c); [by right|].
  exfalso. repeat (apply orb_true_iff in Hc as [Hc|Hc]); rewrite ?andb_true_iff, ?Z.leb_le, ?Z.eqb_eq in Hc; lia.
Qed.

Lemma astral_units p : real p → 65536 ≤ p →
  ∃ h l, point_units p = [h; l] ∧ trim_space h = false ∧ trim_space l = false ∧ breaks h = false ∧ breaks l = false ∧ (h =? CR) = false ∧ (l =? CR) = false ∧ (l =? LF) = false ∧ (h =? LF) = false.
Proof.
  intros Hp Hge. destruct (astral_pair p Hp Hge) as (Hh & Hl & _). unfold point_units. destruct (Z.ltb_spec p 65536); [lia|].
  set (h := 55296 + _) in *. set (l := 56320 + _) in *. exists h, l. apply is_high_spec in Hh. apply is_low_spec in Hl.
  assert (Hs : ∀ c, 55296 ≤ c ≤ 57343 → trim_space c = false).
  { intros c Hc. destruct (trim_space c) eqn:E; [|done]. apply space_not_half in E. lia. }
  unfold breaks, CR, LF, TAB. rewrite !orb_false_iff, !Z.eqb_neq. split_and!; [done|apply Hs; lia|apply Hs; lia|lia..].
Qed.

(** An astral character is no space and no break. *)
Lemma astral_plain p : 65536 ≤ p → trim_space p = false ∧ breaks p = false ∧ (p =? CR) = false ∧ (p =? LF) = false.
Proof.
  intros Hp. unfold breaks, CR, LF, TAB. rewrite !orb_false_iff, !Z.eqb_neq. split_and!; [|lia..].
  destruct (trim_space p) eqn:E; [|done]. unfold trim_space in E. repeat (apply orb_true_iff in E as [E|E]); rewrite ?andb_true_iff, ?Z.leb_le, ?Z.eqb_eq in E; lia.
Qed.

Ltac by_size p :=
  let Hlt := fresh "Hlt" in let Hge := fresh "Hge" in
  destruct (Z.ltb_spec p 65536) as [Hlt|Hge];
  [assert (point_units p = [p]) as -> by (by unfold point_units; rewrite (proj2 (Z.ltb_lt _ _) Hlt))|].

Lemma fold_breaks_points inside l : Forall real l → fold_breaks inside (from_points l) = from_points (fold_breaks inside l).
Proof.
  intros Hl. revert inside. induction Hl as [|p l Hp Hl IH]; intros inside; [done|]. rewrite from_points_cons. by_size p.
  - cbn [app fold_breaks]. rewrite !IH. destruct (breaks p), inside; rewrite ?from_points_cons; try done;
      unfold point_units; by rewrite (proj2 (Z.ltb_lt _ _) Hlt).
  - destruct (astral_units p Hp Hge) as (h & lo & E & _ & _ & Hh & Hlo & _). destruct (astral_plain p Hge) as (_ & Hb & _).
    cbn [fold_breaks]. rewrite Hb, from_points_cons, E. cbn [app fold_breaks]. by rewrite Hh, Hlo, IH.
Qed.

Lemma trimStart_points l : Forall real l → text_trimStart (from_points l) = from_points (text_trimStart l).
Proof.
  induction 1 as [|p l Hp Hl IH]; [done|]. cbn [text_trimStart]. destruct (Z.ltb_spec p 65536) as [Hlt|Hge].
  - assert (E : point_units p = [p]) by (unfold point_units; by rewrite (proj2 (Z.ltb_lt _ _) Hlt)).
    rewrite from_points_cons, E. cbn [app text_trimStart]. rewrite IH. destruct (trim_space p); [done|]. by rewrite from_points_cons, E.
  - destruct (astral_units p Hp Hge) as (h & lo & E & Hh & _). destruct (astral_plain p Hge) as (Hs & _).
    rewrite Hs, from_points_cons, E. cbn [app text_trimStart]. by rewrite Hh.
Qed.

Lemma trimEnd_snoc t c : text_trimEnd (t ++ [c]) = if trim_space c then text_trimEnd t else t ++ [c].
Proof.
  unfold text_trimEnd. rewrite reverse_app. change (reverse [c]) with [c]. cbn [app text_trimStart]. destruct (trim_space c); [done|]. by rewrite reverse_cons, reverse_involutive.
Qed.

Lemma trimEnd_points l : Forall real l → text_trimEnd (from_points l) = from_points (text_trimEnd l).
Proof.
  induction l as [|p l IH] using rev_ind; intros Hl; [done|]. apply Forall_app in Hl as [Hl [Hp _]%Forall_cons].
  rewrite trimEnd_snoc, from_points_app. cbn [from_points mbind list_bind]. rewrite app_nil_r. destruct (Z.ltb_spec p 65536) as [Hlt|Hge].
  - assert (E : point_units p = [p]) by (unfold point_units; by rewrite (proj2 (Z.ltb_lt _ _) Hlt)).
    rewrite E, trimEnd_snoc, (IH Hl). destruct (trim_space p); [done|]. rewrite from_points_app. cbn. by rewrite E.
  - destruct (astral_units p Hp Hge) as (h & lo & E & _ & Hlo & _). destruct (astral_plain p Hge) as (Hs & _).
    rewrite E. change (from_points l ++ [h; lo]) with (from_points l ++ [h] ++ [lo]). rewrite app_assoc, trimEnd_snoc, Hlo, Hs.
    rewrite from_points_app. cbn. by rewrite app_nil_r, E, <-app_assoc.
Qed.

Lemma crlf_cons c t : (c =? CR) = false → crlf (c :: t) = c :: crlf t.
Proof. intros Hc. cbn [crlf]. by rewrite Hc. Qed.

Lemma crlf_points l : Forall real l → crlf (from_points l) = from_points (crlf l).
Proof.
  assert (H : ∀ k l, (length l ≤ k)%nat → Forall real l → crlf (from_points l) = from_points (crlf l)); [|by apply (H (length l))].
  clear l. induction k as [|k IH]; intros [|p l] Hk Hl; [done|simpl in Hk; lia|done|]. inversion Hl as [|? ? Hp Hl']; subst.
  assert (Hn : (p =? CR) = false → crlf (from_points (p :: l)) = from_points (crlf (p :: l))).
  { intros E. rewrite (crlf_cons p l E), !from_points_cons, <-IH by (done || (simpl in Hk; lia)). by_size p.
    - cbn [app]. by rewrite crlf_cons.
    - destruct (astral_units p Hp Hge) as (h & lo & -> & _ & _ & _ & _ & Hh & Hlo & _). cbn [app]. by rewrite !crlf_cons. }
  destruct (p =? CR) eqn:E; [clear Hn|by apply Hn]. apply Z.eqb_eq in E as ->. cbn [crlf]. destruct l as [|q l]; [done|].
  change (CR =? CR) with true. cbn iota. change (from_points (CR :: q :: l)) with (CR :: from_points (q :: l)).
  destruct (q =? LF) eqn:Eq.
  - apply Z.eqb_eq in Eq as ->. change (from_points (LF :: l)) with (LF :: from_points l). cbn [crlf].
    change (from_points (LF :: crlf l)) with (LF :: from_points (crlf l)). rewrite <-IH; [done|simpl in *; lia|by inversion Hl'].
  - change (from_points (LF :: crlf (q :: l))) with (LF :: from_points (crlf (q :: l))). rewrite <-IH by (done || (simpl in *; lia)).
    assert (Hu : ∃ u t, from_points (q :: l) = u :: t ∧ (u =? LF) = false).
    { rewrite from_points_cons. inversion Hl'; subst. by_size q; [by exists q, (from_points l)|].
      destruct (astral_units q ltac:(done) Hge) as (h & lo & -> & H). exists h, ([lo] ++ from_points l). split; [done|tauto]. }
    destruct Hu as (u & t & E & Hu). rewrite E. cbn [crlf]. change (CR =? CR) with true. by rewrite Hu.
Qed.

(** ** The passes keep characters and make the promises *)
Lemma trimStart_Forall (P : Z → Prop) l : Forall P l → Forall P (text_trimStart l).
Proof. induction 1 as [|p l Hp Hl IH]; cbn; [constructor|]. destruct (trim_space p); [done|by constructor]. Qed.

Lemma trimEnd_Forall (P : Z → Prop) l : Forall P l → Forall P (text_trimEnd l).
Proof. intros Hl. unfold text_trimEnd. apply Forall_reverse, trimStart_Forall. by apply Forall_reverse. Qed.

Lemma length_trimStart l : (length (text_trimStart l) ≤ length l)%nat.
Proof. induction l as [|p l IH]; cbn; [lia|]. destruct (trim_space p); cbn; lia. Qed.

Lemma length_trimEnd l : (length (text_trimEnd l) ≤ length l)%nat.
Proof. unfold text_trimEnd. rewrite length_reverse. etrans; [apply length_trimStart|]. by rewrite length_reverse. Qed.

Lemma fold_breaks_Forall (P : Z → Prop) inside l : P SPACE → Forall P l → Forall P (fold_breaks inside l).
Proof.
  intros HS Hl. revert inside. induction Hl as [|p l Hp Hl IH]; intros inside; cbn; [constructor|].
  destruct (breaks p), inside; try constructor; auto.
Qed.

Lemma crlf_Forall (P : Z → Prop) l : P LF → Forall P l → Forall P (crlf l).
Proof.
  intros HL. assert (H : ∀ k l, (length l ≤ k)%nat → Forall P l → Forall P (crlf l)); [|by apply (H (length l))].
  clear l. induction k as [|k IH]; intros [|p l] Hk Hl; [done|simpl in Hk; lia|done|]. inversion Hl as [|? ? Hp Hl']; subst. simpl in Hk.
  cbn [crlf]. destruct (p =? CR); [|constructor; [done|apply IH; [lia|done]]]. destruct l as [|q l]; [by repeat constructor|].
  destruct (q =? LF); (constructor; [done|]).
  - apply IH; [simpl in *; lia|by inversion Hl'].
  - apply (IH (q :: l)); [simpl in *; lia|done].
Qed.

Lemma crlf_no_cr l : Forall (λ p, p ≠ CR) (crlf l).
Proof.
  assert (H : ∀ k l, (length l ≤ k)%nat → Forall (λ p, p ≠ CR) (crlf l)); [|by apply (H (length l))].
  clear l. induction k as [|k IH]; intros [|p l] Hk; [constructor|simpl in Hk; lia|constructor|]. simpl in Hk.
  cbn [crlf]. destruct (p =? CR) eqn:E; [|constructor; [by apply Z.eqb_neq|apply IH; lia]]. destruct l as [|q l]; [by repeat constructor|].
  destruct (q =? LF); (constructor; [done|]); [apply IH|apply (IH (q :: l))]; simpl in *; lia.
Qed.

(** A text that neither starts nor ends with a space is left alone. *)
Definition trimmed_text (t : text) : Prop :=
  (∀ c, head t = Some c → trim_space c = false) ∧ (∀ c, last t = Some c → trim_space c = false).

Lemma trimStart_id t : (∀ c, head t = Some c → trim_space c = false) → text_trimStart t = t.
Proof. destruct t as [|c t]; [done|]. intros Hc. cbn. by rewrite (Hc c eq_refl). Qed.

Lemma trimStart_head t c : head (text_trimStart t) = Some c → trim_space c = false.
Proof. induction t as [|d t IH]; [done|]. cbn. destruct (trim_space d) eqn:E; [done|]. by intros [= <-]. Qed.

Lemma trimEnd_last t c : last (text_trimEnd t) = Some c → trim_space c = false.
Proof. unfold text_trimEnd. rewrite last_reverse. apply trimStart_head. Qed.

Lemma trimEnd_id t : (∀ c, last t = Some c → trim_space c = false) → text_trimEnd t = t.
Proof. intros Ht. unfold text_trimEnd. rewrite trimStart_id, reverse_involutive; [done|]. intros c. rewrite head_reverse. apply Ht. Qed.

(** Trimming the end keeps the start. *)
Lemma trimEnd_head t : (∀ c, head t = Some c → trim_space c = false) → ∀ c, head (text_trimEnd t) = Some c → trim_space c = false.
Proof.
  induction t as [|c t IH] using rev_ind; intros Ht; [done|]. rewrite trimEnd_snoc. destruct (trim_space c) eqn:E; [|exact Ht].
  apply IH. intros d Hd. apply Ht. destruct t; [done|done].
Qed.

Lemma trim_trimmed t : trimmed_text (text_trim t).
Proof. unfold text_trim. split; [apply trimEnd_head, trimStart_head|apply trimEnd_last]. Qed.

Lemma trim_id t : trimmed_text t → text_trim t = t.
Proof. intros [Hh Hl]. unfold text_trim. by rewrite trimStart_id, trimEnd_id. Qed.

Lemma fold_breaks_id inside l : Forall (λ c, breaks c = false) l → fold_breaks inside l = l.
Proof. intros Hl. revert inside. induction Hl as [|c l Hc Hl IH]; intros inside; [done|]. cbn. by rewrite Hc, IH. Qed.

Lemma crlf_id l : Forall (λ p, p ≠ CR) l → crlf l = l.
Proof. induction 1 as [|c l Hc Hl IH]; [done|]. rewrite crlf_cons; [by rewrite IH|]. by apply Z.eqb_neq. Qed.

(** ** The sanitiser on code points *)
Definition clamp_points (limit : Z) (l : list Z) : list Z :=
  if (0 <? limit) && (limit <? Z.of_nat (length l))
  then text_trimEnd (take (Z.to_nat (Z.max 0 (limit - 1))) l) ++ [ELLIPSIS] else l.

Lemma unbroken_points multiline l : Forall real l →
  unbroken multiline (from_points l) = from_points (unbroken multiline l) ∧ Forall real (unbroken multiline l).
Proof.
  intros Hl. assert (HLF : real LF) by (by apply real_spec; unfold point_ok, LF; lia).
  assert (HSP : real SPACE) by (by apply real_spec; unfold point_ok, SPACE; lia). unfold unbroken. destruct multiline.
  - split; [by apply crlf_points|by apply crlf_Forall].
  - pose proof (fold_breaks_Forall real false l HSP Hl) as Hf. unfold text_trim.
    rewrite fold_breaks_points, trimStart_points, trimEnd_points by (done || by apply trimStart_Forall).
    split; [done|]. by apply trimEnd_Forall, trimStart_Forall.
Qed.

Lemma clamp_points_spec limit l : Forall real l →
  clamped limit (from_points l) = from_points (clamp_points limit l) ∧ Forall real (clamp_points limit l).
Proof.
  intros Hl. unfold clamped, clamp_points. rewrite (code_points_from l Hl). destruct (0 <? limit); [|done]. cbn [andb].
  destruct (limit <? _); [|done].
  assert (Ht : Forall real (take (Z.to_nat (Z.max 0 (limit - 1))) l)) by by apply Forall_take.
  rewrite trimEnd_points, from_points_app by done. split; [done|]. apply Forall_app. split; [by apply trimEnd_Forall|].
  repeat constructor; unfold ELLIPSIS; lia.
Qed.

Lemma clamp_length limit l : 0 < limit → Z.of_nat (length (clamp_points limit l)) ≤ limit.
Proof.
  intros Hlim. unfold clamp_points. destruct (Z.ltb_spec 0 limit); [|lia]. cbn [andb]. destruct (Z.ltb_spec limit (Z.of_nat (length l))); [|lia].
  rewrite length_app. cbn [length]. pose proof (length_trimEnd (take (Z.to_nat (Z.max 0 (limit - 1))) l)). rewrite length_take in *. lia.
Qed.

Lemma clamp_Forall (P : Z → Prop) limit l : P ELLIPSIS → Forall P l → Forall P (clamp_points limit l).
Proof.
  intros HE Hl. unfold clamp_points. destruct (_ && _); [|done]. apply Forall_app. split; [by apply trimEnd_Forall, Forall_take|by repeat constructor].
Qed.

Lemma clamp_trimmed limit l : trimmed_text l → trimmed_text (clamp_points limit l).
Proof.
  intros [Hh Hl]. unfold clamp_points. destruct (_ && _); [|done]. set (k := Z.to_nat _). split.
  - intros c Hc. destruct (text_trimEnd (take k l)) as [|d t] eqn:E; [by injection Hc as <-|]. injection Hc as <-.
    apply (trimEnd_head (take k l)); [|by rewrite E]. intros e He. apply Hh. destruct l as [|f l]; [by rewrite take_nil in He|].
    destruct k; [done|exact He].
  - intros c. rewrite last_snoc. by intros [= <-].
Qed.

Lemma clamp_id limit l : (0 < limit → Z.of_nat (length l) ≤ limit) → clamp_points limit l = l.
Proof.
  intros Hl. unfold clamp_points. destruct (Z.ltb_spec 0 limit); [|done]. cbn [andb]. destruct (Z.ltb_spec limit (Z.of_nat (length l))); [lia|done].
Qed.

Lemma unbroken_no_breaks l : Forall (λ c, breaks c = false) (unbroken false l).
Proof. unfold unbroken, text_trim. apply trimEnd_Forall, trimStart_Forall, fold_breaks_clean. Qed.

(** The whole of [displayText], on code points. *)
Lemma displayed t limit multiline : Forall unit_ok t →
  ∃ l, clamped limit (unbroken multiline (stripped t)) = from_points l ∧ Forall real l ∧
    (0 < limit → Z.of_nat (length l) ≤ limit) ∧
    (multiline = false → Forall (λ c, breaks c = false) l ∧ trimmed_text l) ∧ (multiline = true → Forall (λ p, p ≠ CR) l) ∧
    (well_formed t → Forall (λ p, invisible p = false) l).
Proof.
  intros Ht. destruct (stripped_points t Ht) as (l0 & E & Hr & Hinv). destruct (unbroken_points multiline l0 Hr) as [E1 Hr1].
  destruct (clamp_points_spec limit _ Hr1) as [E2 Hr2]. exists (clamp_points limit (unbroken multiline l0)).
  rewrite E, E1, E2. split_and!; [done|done|apply clamp_length|intros ->|intros ->|].
  - split; [apply clamp_Forall; [done|apply unbroken_no_breaks]|apply clamp_trimmed, trim_trimmed].
  - apply clamp_Forall; [done|apply crlf_no_cr].
  - intros Hw. specialize (Hinv Hw). apply clamp_Forall; [done|]. unfold unbroken. destruct multiline; [by apply crlf_Forall|].
    by apply trimEnd_Forall, trimStart_Forall, fold_breaks_Forall.
Qed.

Lemma stripped_id l : Forall real l → Forall (λ p, invisible p = false) l → stripped (from_points l) = from_points l.
Proof.
  intros Hr Hi. unfold stripped, strip. rewrite (code_points_from l Hr), (List_filter_id (λ p, negb (invisible p))), (code_points_from l Hr), List_filter_id; [done| |].
  - eapply Forall_impl; [exact Hr|]. intros p [_ Hp]. by rewrite Hp.
  - eapply Forall_impl; [exact Hi|]. intros p Hp. by rewrite Hp.
Qed.

(** ** Theorems *)

(** The text [displayText] starts from. *)
Definition value_text {N} `{JsNumber N} (value : Unknown N) : text :=
  match value with
  | UText t => t
  | UNumber n => if isFinite n then String_ n else []
  | UBoolean b => units (if b then "true" else "false")
  | UOther => []
  end.

Lemma displayText_eq {N} `{JsNumber N} (v : Unknown N) limit multiline :
  displayText v limit multiline = clamped limit (unbroken multiline (stripped (value_text v))).
Proof.
  destruct v; try done. unfold displayText, value_text. assert (unbroken multiline (stripped []) = []) as -> by (by destruct multiline).
  unfold clamped. cbn [code_points length Z.of_nat]. destruct (Z.ltb_spec 0 limit); [|done]. change (Z.of_nat 0) with 0. destruct (Z.ltb_spec limit 0); [lia|done].
Qed.

(** Whatever the value, the displayed text has no unpaired surrogate and at most [limit]
    characters; on one line it has no tab or line break and no space at either end, on several no
    carriage return. From a text without unpaired surrogates it has no invisible, control or
    reordering character either, and displaying it again changes nothing. *)
Theorem displayText_safe {N} `{JsNumber N} (v : Unknown N) limit multiline :
  Forall unit_ok (value_text v) →
  let out := displayText v limit multiline in
  Forall (λ p, lone p = false) (code_points out) ∧
  (0 < limit → Z.of_nat (length (code_points out)) ≤ limit) ∧
  (multiline = false → Forall (λ p, breaks p = false) (code_points out) ∧ trimmed_text (code_points out)) ∧
  (multiline = true → Forall (λ p, p ≠ CR) (code_points out)) ∧
  (well_formed (value_text v) →
     Forall (λ p, invisible p = false) (code_points out) ∧ displayText (N:=N) (UText out) limit multiline = out).
Proof.
  intros Hv. cbv zeta. rewrite !displayText_eq. destruct (displayed (value_text v) limit multiline Hv) as (l & -> & Hr & Hlen & H1 & Hm & Hi).
  rewrite (code_points_from l Hr). split_and!; [|done..|].
  - eapply Forall_impl; [exact Hr|]. by intros p [_ ?].
  - intros Hw. specialize (Hi Hw). split; [done|]. cbn [value_text]. rewrite (stripped_id l Hr Hi).
    destruct (unbroken_points multiline l Hr) as [-> Hr1]. destruct (clamp_points_spec limit _ Hr1) as [-> _].
    assert (E : unbroken multiline l = l).
    { unfold unbroken. destruct multiline; [by apply crlf_id, Hm|]. destruct (H1 eq_refl) as [Hb Ht]. by rewrite fold_breaks_id, trim_id. }
    by rewrite E, clamp_id.
Qed.

(** ** Witness *)
#[export] Instance unit_ok_dec c : Decision (unit_ok c).
Proof. unfold unit_ok. apply _. Defined.

Lemma displayText_safe_witness :
  let N := zero_number in
  let v := UText (units "  a" ++ [8203; TAB; LF] ++ units "b" ++ [55357; 56832; 8238] ++ units " long tail") in
  displayText v 6 false = units "a b" ++ [55357; 56832; ELLIPSIS] ∧
  Forall (λ p, invisible p = false) (code_points (displayText v 6 false)) ∧ displayText (N:=unit) (UText (displayText v 6 false)) 6 false = displayText v 6 false.
Proof.
  cbv zeta. split; [vm_compute; reflexivity|].
  refine (proj2 (proj2 (proj2 (proj2 (@displayText_safe unit zero_number _ 6 false _)))) _).
  - apply (bool_decide_unpack _). vm_compute. exact I.
  - split; apply (bool_decide_unpack _); vm_compute; exact I.
Defined.
