(* ===== verification/JsonText.v ===== *)
(** * JSON strings, decimals and lines: the platform functions a textual form is written with

    [JSON.stringify] and [JSON.parse] on one string, the decimals of integers, [join] and [split], and
    what of each a reader needs to get back what a writer wrote. *)

From S2P Require Import Prelude JsText DisplayText.
Local Open Scope Z_scope.

Definition BACKSLASH : Z := 92.

(** ** Blank lines *)
(** [!line.trim()] *)
Definition blank (line : text) : bool := bool_decide (text_trim line = []).

Fixpoint drop_blank (lines : list text) : list text :=
  match lines with
  | line :: lines' => if blank line then drop_blank lines' else lines
  | [] => []
  end.

(** ** [JSON.stringify] of a string *)
Definition hex_digit (n : Z) : Z := if n <? 10 then 48 + n else 87 + n.

(** [\uXXXX] *)
Definition unicode_escape (c : Z) : text :=
  [BACKSLASH; 117; hex_digit (c / 4096 mod 16); hex_digit (c / 256 mod 16); hex_digit (c / 16 mod 16); hex_digit (c mod 16)].

Definition escape_unit (c : Z) : text :=
  if c =? QUOTE then [BACKSLASH; QUOTE]
  else if c =? BACKSLASH then [BACKSLASH; BACKSLASH]
  else if c =? 8 then [BACKSLASH; 98]
  else if c =? TAB then [BACKSLASH; 116]
  else if c =? LF then [BACKSLASH; 110]
  else if c =? 12 then [BACKSLASH; 102]
  else if c =? CR then [BACKSLASH; 114]
  else if c <? 32 then unicode_escape c
  else [c].

(** An unpaired surrogate is escaped. *)
Fixpoint quote_body (t : text) : text :=
  match t with
  | [] => []
  | c :: t' =>
      if is_high c then
        match t' with
        | d :: t'' => if is_low d then c :: d :: quote_body t'' else unicode_escape c ++ quote_body t'
        | [] => unicode_escape c
        end
      else if is_low c then unicode_escape c ++ quote_body t'
      else escape_unit c ++ quote_body t'
  end.

Definition stringify (t : text) : text := QUOTE :: quote_body t ++ [QUOTE].

(** ** [JSON.parse] of a text that opens with a quote *)
Definition hex_value (c : Z) : option Z :=
  if is_digit c then Some (c - 48)
  else if in_range 97 102 c then Some (c - 87)
  else if in_range 65 70 c then Some (c - 55)
  else None.

Definition simple_escape (e : Z) : option Z :=
  if is_one_of "/\" e || (e =? QUOTE) then Some e
  else if e =? 98 then Some 8
  else if e =? 102 then Some 12
  else if e =? 110 then Some LF
  else if e =? 114 then Some CR
  else if e =? 116 then Some TAB
  else None.

(** The string up to its closing quote, and what follows the quote. *)
Fixpoint string_chars (t : text) : option (text * text) :=
  match t with
  | [] => None
  | c :: t' =>
      if c =? QUOTE then Some ([], t')
      else if c <? 32 then None
      else if c =? BACKSLASH then
        match t' with
        | e :: t'' =>
            if e =? 117 then
              match t'' with
              | h1 :: h2 :: h3 :: h4 :: t3 =>
                  v1 ← hex_value h1; v2 ← hex_value h2; v3 ← hex_value h3; v4 ← hex_value h4;
                  '(s, rest) ← string_chars t3; Some (v1 * 4096 + v2 * 256 + v3 * 16 + v4 :: s, rest)
              | _ => None
              end
            else c' ← simple_escape e; '(s, rest) ← string_chars t''; Some (c' :: s, rest)
        | [] => None
        end
      else '(s, rest) ← string_chars t'; Some (c :: s, rest)
  end.

Definition json_space (c : Z) : bool := (c =? SPACE) || (c =? TAB) || (c =? LF) || (c =? CR).

(** [None] where [JSON.parse] throws; a text that opens with a quote is a string or nothing. *)
Definition parse_string (t : text) : option text :=
  match t with
  | c :: t' => if c =? QUOTE then '(s, rest) ← string_chars t'; if forallb json_space rest then Some s else None else None
  | [] => None
  end.

(** ** The escaped form *)

(** Plain units and escape pairs: what every scanner of quoted text steps over. *)
Inductive Escaped : text → Prop :=
  | escaped_nil : Escaped []
  | escaped_plain c t : c ≠ QUOTE → c ≠ BACKSLASH → 32 ≤ c → Escaped t → Escaped (c :: t)
  | escaped_pair e t : 32 ≤ e → Escaped t → Escaped (BACKSLASH :: e :: t).

Lemma hex_digit_plain n : 0 ≤ n < 16 → hex_digit n ≠ QUOTE ∧ hex_digit n ≠ BACKSLASH ∧ 32 ≤ hex_digit n.
Proof. unfold hex_digit, QUOTE, BACKSLASH. case (Z.ltb_spec n 10); lia. Qed.

Lemma unicode_escape_escaped c t : Escaped t → Escaped (unicode_escape c ++ t).
Proof.
  intros Ht. cbn [unicode_escape app]. constructor; [done|].
  repeat (constructor; [apply hex_digit_plain; apply Z.mod_pos_bound; lia..|]). done.
Qed.

Lemma escape_unit_escaped c t : 0 ≤ c → Escaped t → Escaped (escape_unit c ++ t).
Proof.
  intros Hc Ht. unfold escape_unit.
  repeat match goal with |- context [if ?b then _ else _] => destruct b eqn:?E end;
    first [apply unicode_escape_escaped; done | cbn [app]; constructor; [first [done|lia]..|done]].
Qed.

Lemma quote_body_escaped t : Forall (λ c, 0 ≤ c) t → Escaped (quote_body t).
Proof.
  remember (length t) as n eqn:Hn. assert (Hle : (length t <= n)%nat) by lia. clear Hn. revert t Hle.
  induction n as [|n IH]; intros [|c t] Hle Hpos; cbn in Hle; try lia; [constructor..|].
  apply Forall_cons in Hpos as [Hc Hpos]. cbn [quote_body].
  destruct (is_high c) eqn:Eh; [|destruct (is_low c); [apply unicode_escape_escaped|apply escape_unit_escaped; [done|]]; apply IH; [lia|done|lia|done]].
  assert (Hplain : c ≠ QUOTE ∧ c ≠ BACKSLASH ∧ 32 ≤ c) by (unfold is_high, QUOTE, BACKSLASH in *; lia).
  destruct t as [|d t]; [rewrite <-(app_nil_r (unicode_escape c)); apply unicode_escape_escaped; constructor|].
  destruct (is_low d) eqn:El.
  - apply Forall_cons in Hpos as [_ Hpos]. assert (d ≠ QUOTE ∧ d ≠ BACKSLASH ∧ 32 ≤ d) by (unfold is_low, QUOTE, BACKSLASH in *; lia).
    constructor; [tauto..|]. constructor; [tauto..|]. apply IH; [cbn in *; lia|done].
  - apply unicode_escape_escaped, IH; [cbn in *; lia|done].
Qed.

Lemma Escaped_printable t : Escaped t → Forall (λ c, 32 ≤ c) t.
Proof. induction 1; repeat constructor; unfold BACKSLASH; try lia; done. Qed.

(** ** Reading back *)
Lemma hex_value_digit n : 0 ≤ n < 16 → hex_value (hex_digit n) = Some n.
Proof.
  intros Hn. unfold hex_value, hex_digit, is_digit, in_range. case (Z.ltb_spec n 10); intros Hlt.
  - rewrite (proj2 (Z.leb_le 48 _)), (proj2 (Z.leb_le _ 57)) by lia. cbn. f_equal. lia.
  - rewrite (proj2 (Z.leb_gt _ 57)), andb_false_r by lia. rewrite (proj2 (Z.leb_le 97 _)), (proj2 (Z.leb_le _ 102)) by lia. cbn. f_equal. lia.
Qed.

Lemma hex_digits c : 0 ≤ c < 65536 → c / 4096 mod 16 * 4096 + c / 256 mod 16 * 256 + c / 16 mod 16 * 16 + c mod 16 = c.
Proof.
  intros Hc. rewrite (Z.mod_small (c / 4096)) by (split; [apply Z.div_pos; lia|apply Z.div_lt_upper_bound; lia]).
  pose proof (Z.div_mod c 16 ltac:(lia)) as H1. pose proof (Z.div_mod (c / 16) 16 ltac:(lia)) as H2. pose proof (Z.div_mod (c / 256) 16 ltac:(lia)) as H3.
  rewrite Z.div_div in H2 by lia. rewrite Z.div_div in H3 by lia. change (16 * 16) with 256 in *. change (256 * 16) with 4096 in *. lia.
Qed.

Lemma string_chars_unicode c t : 0 ≤ c < 65536 →
  string_chars (unicode_escape c ++ t) = '(s, rest) ← string_chars t; Some (c :: s, rest).
Proof.
  intros Hc. unfold unicode_escape. cbn [app string_chars]. change (BACKSLASH =? QUOTE) with false. change (BACKSLASH <? 32) with false.
  change (BACKSLASH =? BACKSLASH) with true. change (117 =? 117) with true. cbv beta iota.
  rewrite !hex_value_digit by (apply Z.mod_pos_bound; lia). cbn [mbind option_bind]. by rewrite hex_digits.
Qed.

Lemma string_chars_escape c t : 0 ≤ c < 65536 →
  string_chars (escape_unit c ++ t) = '(s, rest) ← string_chars t; Some (c :: s, rest).
Proof.
  intros Hc. unfold escape_unit.
  repeat match goal with |- context [if ?b then _ else _] =>
    lazymatch b with c =? _ => destruct (Z.eqb_spec c (ltac:(match b with _ =? ?k => exact k end))) as [->|]; [by cbn|]
                | _ => destruct b eqn:? end end.
  - by apply string_chars_unicode.
  - cbn [app string_chars]. rewrite (proj2 (Z.eqb_neq c QUOTE)), (proj2 (Z.eqb_neq c BACKSLASH)) by done.
    by replace (c <? 32) with false by done.
Qed.

Definition is_unit (c : Z) : Prop := 0 ≤ c < 65536.

Lemma string_chars_body t rest : Forall is_unit t → string_chars (quote_body t ++ QUOTE :: rest) = Some (t, rest).
Proof.
  remember (length t) as n eqn:Hn. assert (Hle : (length t <= n)%nat) by lia. clear Hn. revert t Hle.
  induction n as [|n IH]; intros [|c t] Hle Hu; cbn in Hle; try lia; [done..|].
  apply Forall_cons in Hu as [Hc Hu]. cbn [quote_body].
  assert (Hesc : ∀ t', string_chars (unicode_escape c ++ t') = '(s, rest) ← string_chars t'; Some (c :: s, rest))
    by (intros t'; by apply string_chars_unicode).
  destruct (is_high c) eqn:Eh; [|destruct (is_low c) eqn:El; rewrite <-app_assoc; [rewrite Hesc|rewrite string_chars_escape by done]; by rewrite IH by (done || lia)].
  destruct t as [|d t]; [by rewrite Hesc|]. destruct (is_low d) eqn:El; [|rewrite <-app_assoc, Hesc; by rewrite IH by (done || (cbn in *; lia))].
  apply Forall_cons in Hu as [Hd Hu]. cbn [app string_chars].
  assert (Hp : ∀ x, is_high x = true ∨ is_low x = true → (x =? QUOTE) = false ∧ (x <? 32) = false ∧ (x =? BACKSLASH) = false)
    by (unfold is_high, is_low, QUOTE, BACKSLASH; intros; lia).
  destruct (Hp c) as (-> & -> & ->); [by left|]. destruct (Hp d) as (-> & -> & ->); [by right|].
  by rewrite IH by (done || (cbn in *; lia)).
Qed.

Lemma parse_stringify t : Forall is_unit t → parse_string (stringify t) = Some t.
Proof. intros Ht. unfold parse_string, stringify. change (QUOTE =? QUOTE) with true. cbv iota. by rewrite string_chars_body. Qed.

Lemma stringify_escaped t : Forall is_unit t → ∃ b, stringify t = QUOTE :: b ++ [QUOTE] ∧ Escaped b.
Proof. intros Ht. exists (quote_body t). split; [done|]. apply quote_body_escaped. eapply Forall_impl; [exact Ht|]. unfold is_unit. lia. Qed.

(** ** Decimals of integers: [String(n)] below 10{^21} *)
Fixpoint digits_fuel (fuel : nat) (n : Z) : text :=
  match fuel with
  | O => []
  | S fuel' => if n <? 10 then [48 + n] else digits_fuel fuel' (n / 10) ++ [48 + n mod 10]
  end.

(** A number has no more digits than bits. *)
Definition digits (n : Z) : text := digits_fuel (S (Z.to_nat (Z.log2 n))) n.
Definition decimal (n : Z) : text := if n <? 0 then 45 :: digits (- n) else digits n.

(** [parseInt] of a run of digits *)
Definition digits_value (t : text) : Z := foldl (λ v c, 10 * v + (c - 48)) 0 t.

Lemma digits_fuel_spec fuel n : (Z.to_nat (Z.log2 n) < fuel)%nat → 0 ≤ n →
  Forall (λ c, is_digit c = true) (digits_fuel fuel n) ∧ digits_value (digits_fuel fuel n) = n ∧ digits_fuel fuel n ≠ [].
Proof.
  revert n. induction fuel as [|fuel IH]; intros n Hf Hn; [lia|]. cbn [digits_fuel]. unfold is_digit, in_range. case (Z.ltb_spec n 10); intros Hlt.
  - split_and!; [repeat constructor; lia|cbn; lia|done].
  - pose proof (Z.mod_pos_bound n 10 ltac:(lia)) as Hm. pose proof (Z.div_mod n 10 ltac:(lia)) as Hd.
    assert (Hq : 0 < n / 10) by (apply Z.div_str_pos; lia).
    assert (Z.log2 (n / 10) < Z.log2 n).
    { assert (n / 10 ≤ Z.div2 n) by (rewrite Z.div2_div; apply Z.div_le_compat_l; lia).
      assert (Z.log2 (n / 10) ≤ Z.log2 (Z.div2 n)) by (by apply Z.log2_le_mono).
      rewrite Z.div2_spec in *. rewrite Z.log2_shiftr in * by lia.
      assert (1 ≤ Z.log2 n) by (apply Z.log2_le_pow2; lia). lia. }
    pose proof (Z.log2_nonneg (n / 10)). destruct (IH (n / 10)) as (Hall & Hv & Hne); [lia..|]. split_and!.
    + apply Forall_app. split; [done|]. repeat constructor. lia.
    + unfold digits_value in *. rewrite foldl_app, Hv. cbn [foldl]. lia.
    + intros E. by destruct (digits_fuel fuel (n / 10)).
Qed.

Lemma digits_spec n : 0 ≤ n → Forall (λ c, is_digit c = true) (digits n) ∧ digits_value (digits n) = n ∧ digits n ≠ [].
Proof. intros Hn. apply digits_fuel_spec; lia. Qed.

Lemma length_digits_fuel fuel n k : 0 ≤ n < 10 ^ Z.of_nat (S k) → (length (digits_fuel fuel n) <= S k)%nat.
Proof.
  revert n k. induction fuel as [|fuel IH]; intros n k Hn; cbn [digits_fuel]; [cbn; lia|]. case (Z.ltb_spec n 10); intros Hlt; [cbn; lia|].
  rewrite length_app. cbn [length]. destruct k as [|k]; [change (10 ^ Z.of_nat 1) with 10 in *; lia|].
  specialize (IH (n / 10) k). rewrite (Nat2Z.inj_succ (S k)), Z.pow_succ_r in Hn by lia. 
  assert (0 ≤ n / 10 < 10 ^ Z.of_nat (S k)) by (split; [apply Z.div_pos; lia|apply Z.div_lt_upper_bound; lia]). specialize (IH H). lia.
Qed.
