(* ===== verification/TextLines.v ===== *)
(** * Lines, pieces and trimmed text: how joined text splits again *)

From S2P Require Import Prelude JsText DisplayText DisplaySpec JsonText.
Local Open Scope Z_scope.

(** ** Pieces *)
Lemma pieces_app sep cur a b : pieces sep cur (a ++ sep :: b) = pieces sep cur a ++ split_on sep b.
Proof.
  revert cur. induction a as [|c a IH]; intros cur; cbn; [by rewrite Z.eqb_refl|]. destruct (c =? sep); [by rewrite IH|apply IH].
Qed.

Lemma split_app sep a b : split_on sep (a ++ sep :: b) = split_on sep a ++ split_on sep b.
Proof. apply pieces_app. Qed.

Lemma pieces_one sep cur t : sep ∉ t → pieces sep cur t = [reverse cur ++ t].
Proof.
  revert cur. induction t as [|c t IH]; intros cur Ht; cbn; [by rewrite app_nil_r|]. apply not_elem_of_cons in Ht as [Hc Ht].
  rewrite (proj2 (Z.eqb_neq c sep)) by congruence. by rewrite IH, reverse_cons, <-app_assoc.
Qed.

Lemma split_one sep t : sep ∉ t → split_on sep t = [t].
Proof. intros Ht. unfold split_on. by rewrite pieces_one. Qed.

Lemma split_join sep parts : parts ≠ [] → split_on sep (join_with [sep] parts) = concat (split_on sep <$> parts).
Proof.
  induction parts as [|p [|q parts] IH]; intros Hne; [done|by cbn; rewrite app_nil_r|].
  change (join_with [sep] (p :: q :: parts)) with (p ++ sep :: join_with [sep] (q :: parts)). rewrite split_app, IH by done. done.
Qed.

Lemma concat_split_ones sep parts : Forall (λ p, sep ∉ p) parts → concat (split_on sep <$> parts) = parts.
Proof. induction 1 as [|p parts Hp _ IH]; [done|]. rewrite fmap_cons. cbn [concat]. by rewrite split_one, IH. Qed.

Lemma split_join_lines sep parts : parts ≠ [] → Forall (λ p, sep ∉ p) parts → split_on sep (join_with [sep] parts) = parts.
Proof. intros Hne Hp. by rewrite split_join, concat_split_ones. Qed.

Lemma split_not_nil sep t : split_on sep t ≠ [].
Proof. unfold split_on. generalize (@nil Z). induction t as [|c t IH]; intros cur; cbn; [done|]. by destruct (c =? sep). Qed.

Lemma join_with_cons sep p parts : parts ≠ [] → join_with sep (p :: parts) = p ++ sep ++ join_with sep parts.
Proof. by destruct parts. Qed.

Lemma join_split sep t : join_with [sep] (split_on sep t) = t.
Proof.
  unfold split_on. enough (H : ∀ cur, join_with [sep] (pieces sep cur t) = reverse cur ++ t) by apply (H []).
  induction t as [|c t IH]; intros cur; cbn; [by rewrite app_nil_r|]. destruct (Z.eqb_spec c sep) as [->|].
  - pose proof (split_not_nil sep t) as Hne. by rewrite join_with_cons, IH by exact Hne.
  - by rewrite IH, reverse_cons, <-app_assoc.
Qed.

Lemma split_no_sep sep t : Forall (λ p, sep ∉ p) (split_on sep t).
Proof.
  unfold split_on. assert (H : sep ∉ reverse (@nil Z)) by (intros H; by apply elem_of_nil in H). revert H. generalize (@nil Z).
  induction t as [|c t IH]; intros cur Hcur; cbn; [by repeat constructor|]. destruct (Z.eqb_spec c sep) as [->|Hne].
  - constructor; [done|]. apply IH. intros H. by apply elem_of_nil in H.
  - apply IH. rewrite reverse_cons, elem_of_app, list_elem_of_singleton. intros [?|?]; [done|congruence].
Qed.

Lemma join_with_app sep a b : a ≠ [] → b ≠ [] → join_with sep (a ++ b) = join_with sep a ++ sep ++ join_with sep b.
Proof.
  induction a as [|p [|q a] IH]; intros Ha Hb; [done|by apply join_with_cons|].
  change ((p :: q :: a) ++ b) with (p :: (q :: a) ++ b). rewrite join_with_cons by done. rewrite IH by done. cbn [join_with]. by rewrite <-!app_assoc.
Qed.

(** ** Trimmed text *)
Lemma trim_trimmed_iff t : text_trim t = t ↔ trimmed_text t.
Proof. split; [intros <-; apply trim_trimmed|apply trim_id]. Qed.

Lemma trim_idem t : text_trim (text_trim t) = text_trim t.
Proof. apply trim_id, trim_trimmed. Qed.

Lemma blank_false t : blank t = false ↔ text_trim t ≠ [].
Proof. unfold blank. apply bool_decide_eq_false. Qed.
Lemma blank_true t : blank t = true ↔ text_trim t = [].
Proof. unfold blank. apply bool_decide_eq_true. Qed.

Lemma trimStart_space c t : trim_space c = true → text_trimStart (c :: t) = text_trimStart t.
Proof. intros Hc. cbn. by rewrite Hc. Qed.
Lemma trimStart_plain c t : trim_space c = false → text_trimStart (c :: t) = c :: t.
Proof. intros Hc. cbn. by rewrite Hc. Qed.

Lemma trim_space_cons c t : trim_space c = true → text_trim (c :: t) = text_trim t.
Proof. intros Hc. unfold text_trim. by rewrite trimStart_space. Qed.

Lemma trimEnd_all t : Forall (λ c, trim_space c = true) t → text_trimEnd t = [].
Proof.
  intros Ht. unfold text_trimEnd. apply Forall_reverse in Ht. enough (text_trimStart (reverse t) = []) as -> by done.
  induction Ht as [|c l Hc _ IH]; [done|]. cbn. by rewrite Hc.
Qed.

Lemma trim_snoc_space t c : trim_space c = true → text_trim (t ++ [c]) = text_trim t.
Proof.
  intros Hc. unfold text_trim. induction t as [|d t IH]; [cbn; by rewrite Hc|]. cbn [app text_trimStart]. destruct (trim_space d); [done|].
  change (d :: t ++ [c]) with ((d :: t) ++ [c]). by rewrite trimEnd_snoc, Hc.
Qed.

Lemma trim_no_space t : Forall (λ c, trim_space c = false) t → text_trim t = t.
Proof.
  intros Ht. apply trim_id. split; intros c Hc.
  - destruct t; [done|]. injection Hc as <-. by inversion Ht.
  - apply last_Some_elem_of in Hc. rewrite Forall_forall in Ht. by apply Ht.
Qed.

Lemma trimmed_nonempty_not_blank t : text_trim t = t → t ≠ [] → blank t = false.
Proof. intros Ht Hne. apply blank_false. congruence. Qed.

Lemma trimEnd_cons_plain c t : trim_space c = false → text_trimEnd (c :: t) = c :: text_trimEnd t.
Proof.
  intros Hc. induction t as [|d t IH] using rev_ind; [unfold text_trimEnd; cbn; by rewrite Hc|].
  rewrite app_comm_cons, !trimEnd_snoc. by destruct (trim_space d).
Qed.

Lemma trim_cons_plain c t : trim_space c = false → text_trim (c :: t) = c :: text_trimEnd t.
Proof. intros Hc. unfold text_trim. by rewrite trimStart_plain, trimEnd_cons_plain. Qed.

(** A text that opens with a character that is no space. *)
Lemma blank_plain c t : trim_space c = false → blank (c :: t) = false.
Proof. intros Hc. apply blank_false. by rewrite trim_cons_plain. Qed.

Lemma blank_cons_space c t : trim_space c = true → blank (c :: t) = blank t.
Proof. intros Hc. unfold blank. by rewrite trim_space_cons. Qed.

(** ** Prefixes *)
Lemma starts_with_app p t : starts_with p (p ++ t) = true.
Proof. induction p as [|c p IH]; [done|]. cbn. by rewrite Z.eqb_refl. Qed.

Lemma starts_with_spec p t : starts_with p t = true → ∃ r, t = p ++ r.
Proof.
  revert t. induction p as [|c p IH]; intros t Ht; [by exists t|]. destruct t as [|d t]; [done|]. cbn in Ht.
  apply andb_true_iff in Ht as [->%Z.eqb_eq Ht]. apply IH in Ht as [r ->]. by exists r.
Qed.

(** ** Text without a line break *)
Definition on_line (t : text) : Prop := LF ∉ t ∧ CR ∉ t.

Lemma on_line_app a b : on_line (a ++ b) ↔ on_line a ∧ on_line b.
Proof. unfold on_line. rewrite !not_elem_of_app. tauto. Qed.
Lemma on_line_cons c b : on_line (c :: b) ↔ (c ≠ LF ∧ c ≠ CR) ∧ on_line b.
Proof. unfold on_line. rewrite !not_elem_of_cons. intuition congruence. Qed.

Lemma on_line_nil : on_line [].
Proof. split; apply not_elem_of_nil. Qed.

Lemma join_on_line sep parts : on_line sep → Forall on_line parts → on_line (join_with sep parts).
Proof.
  intros Hs. induction 1 as [|p parts Hp Hps IH]; [apply on_line_nil|]. destruct parts as [|q parts]; [done|].
  rewrite join_with_cons by done. rewrite !on_line_app. done.
Qed.

Lemma units_on_line s : bool_decide (LF ∉ units s ∧ CR ∉ units s) = true → on_line (units s).
Proof. intros H. by apply bool_decide_eq_true in H. Qed.
Ltac on_line_units := apply units_on_line; vm_compute; reflexivity.

Lemma on_lines_no_cr ls : Forall on_line ls → Forall (λ c, c ≠ CR) (join_with [LF] ls).
Proof.
  intros Hl. apply Forall_forall. intros c Hin ->. clear -Hl Hin. induction Hl as [|x xs [_ Hx] _ IH]; [by apply elem_of_nil in Hin|].
  destruct xs as [|y xs]; [done|]. rewrite join_with_cons, !elem_of_app, list_elem_of_singleton in Hin by done.
  destruct Hin as [?|[?|?]]; [done|done|by apply IH].
Qed.

Lemma split_on_lines ls : ls ≠ [] → Forall on_line ls → split_on LF (join_with [LF] ls) = ls.
Proof. intros Hne Hl. apply split_join_lines; [done|]. eapply Forall_impl; [exact Hl|]. by intros x [? _]. Qed.

Lemma on_line_Forall t : on_line t ↔ Forall (λ c, c ≠ LF ∧ c ≠ CR) t.
Proof.
  unfold on_line. rewrite Forall_forall. split.
  - intros [H1 H2] c Hc. split; intros ->; done.
  - intros H. split; intros Hc; destruct (H _ Hc); done.
Qed.
Lemma on_line_trimStart t : on_line t → on_line (text_trimStart t).
Proof. rewrite !on_line_Forall. apply trimStart_Forall. Qed.
Lemma on_line_trimEnd t : on_line t → on_line (text_trimEnd t).
Proof. rewrite !on_line_Forall. apply trimEnd_Forall. Qed.

Lemma last_trimStart t c : last (text_trimStart t) = Some c → last t = Some c.
Proof. induction t as [|d t IH]; [done|]. cbn. destruct (trim_space d); [|done]. intros H%IH. by rewrite last_cons, H. Qed.

(** A piece of a joined text holds only characters of it. *)
Lemma elem_of_join c sep l ls : l ∈ ls → c ∈ l → c ∈ join_with sep ls.
Proof.
  induction ls as [|x ls IH]; intros Hl Hc; [by apply elem_of_nil in Hl|]. apply elem_of_cons in Hl as [->|Hl].
  - destruct ls; [done|]. rewrite join_with_cons by done. rewrite elem_of_app. by left.
  - destruct ls; [by apply elem_of_nil in Hl|]. rewrite join_with_cons by done. rewrite !elem_of_app. right. right. by apply IH.
Qed.
