(* ===== verification/StreamParse.v ===== *)
(** * The parser of one stream line (soc/chat/stream-events.ts): untrusted JSON to typed events

    Every field is checked by itself: a wrong one becomes its fallback, a part without what makes it
    useful is dropped, every displayed string goes through the sanitiser, and nothing throws. The host's
    [JSON.parse] and [String(number)] are an interface; the page ids of the navigation registry are an
    argument. *)

From S2P Require Import Prelude JsText JsMap Csv DisplayText Ndjson.
From Stdlib Require Import QArith Qcanon.
Local Close Scope Qc_scope.
Local Close Scope Q_scope.
Local Open Scope Z_scope.

(** ** JSON values *)

(** A number of JSON: finite, or past the range of a double. *)
Inductive jnum := Fin (q : Qc) | Inf (negative : bool).

(** Object keys are distinct, in the order of [Object.entries]. *)
Inductive jv :=
  | JvNull
  | JvBool (b : bool)
  | JvNum (n : jnum)
  | JvStr (t : text)
  | JvArr (items : list jv)
  | JvObj (fields : list (text * jv)).

Abbreviation Obj := (list (text * jv)).

Fixpoint all_units (v : jv) : Prop :=
  match v with
  | JvStr t => Forall (λ c, 0 ≤ c < 65536) t
  | JvArr l => (fix go l := match l with [] => True | x :: l' => all_units x ∧ go l' end) l
  | JvObj f => (fix go f := match f with [] => True | e :: f' => all_units e.2 ∧ go f' end) f
  | _ => True
  end.

Class JsonHost := {
  (** [None] where [JSON.parse] throws. *)
  json_parse : text → option jv;
  number_text : Qc → text;
  number_text_plain : ∀ q,
    number_text q ≠ [] ∧ Forall (λ c, c ≠ QUOTE ∧ c ≠ COMMA ∧ c ≠ CR ∧ c ≠ LF ∧ c ≠ TAB) (number_text q);
  (** Strings hold 16-bit code units. *)
  number_text_units : ∀ q, Forall (λ c, 0 ≤ c < 65536) (number_text q);
  json_parse_units : ∀ t v, json_parse t = Some v → all_units v;
}.

Definition num_String `{JsonHost} (n : jnum) : text :=
  match n with Fin q => number_text q | Inf false => units "Infinity" | Inf true => units "-Infinity" end.

#[export] Instance num_JsNumber `{JsonHost} : JsNumber jnum.
Proof.
  refine (Build_JsNumber jnum (λ n, match n with Fin _ => true | Inf _ => false end) num_String _).
  intros [q|b] Hq; [apply number_text_plain|done].
Defined.

(** [raw.key]; [None] is [undefined]. *)
Definition prop (raw : Obj) (key : string) : option jv := jm_get raw (units key).

(** [isObj] *)
Definition isObj (v : option jv) : option Obj := match v with Some (JvObj f) => Some f | _ => None end.
Definition as_text (v : option jv) : option text := match v with Some (JvStr t) => Some t | _ => None end.
Definition as_array (v : option jv) : option (list jv) := match v with Some (JvArr l) => Some l | _ => None end.
(** [v === true] and [v !== false] *)
Definition is_true (v : option jv) : bool := match v with Some (JvBool true) => true | _ => false end.
Definition not_false (v : option jv) : bool := match v with Some (JvBool false) => false | _ => true end.

(** ** Vocabularies and limits *)
Definition TURN_ERROR_CODES : list string := ["provider_unavailable"; "budget_blocked"; "breaker_open"; "history_unavailable"; "internal"].
Definition CHAT_STREAM_MODES : list string := ["steps"; "text"].
Definition CHAT_STEP_KINDS : list string := ["tool"; "model"].
Definition CHAT_STEP_STATUSES : list string := ["ok"; "error"; "denied"; "timeout"; "skipped"; "cancelled"].
Definition CHAT_STEP_BASES : list string := ["exact"; "newest_n"; "sample"; "cached"].
Definition CHAT_ANSWER_KINDS : list string := ["data"; "product_help"; "mixed"; "conversation"].
Definition CHAT_COMMANDS : list string := ["compact"].
Definition TURN_NOTICE_KINDS : list string :=
  ["partial"; "cap"; "budget"; "provider"; "breaker"; "denied"; "timeout"; "cancelled"; "unsupported"; "not_saved"; "limited"; "stopped_repeating"; "compacted"].
Definition CHAT_CITATION_KINDS : list string := ["doc"; "case"; "knowledge"; "mitre"; "query"].
Definition MEMORY_PROPOSAL_OPS : list string := ["add"; "remove"].
Definition SEVERITY_KEYS : list string := ["critical"; "high"; "medium"; "low"; "info"].
Definition REPORT_SAVE_ERROR_CODES : list string := ["report_limit"; "report_unavailable"; "report_empty"].
Definition CASE_RESULT_STATUSES : list string :=
  ["active"; "new"; "open"; "needs_human"; "investigating"; "escalated"; "on_hold"; "resolved"; "closed"].

(** ** Patterns *)
Definition PARAM_KEY_RE : text → bool := all_of (λ c, alnum c || is_one_of "_.:-" c) 1 40.
Definition TOOL_NAME_RE (t : text) : bool :=
  match t with c :: t' => is_lower c && all_of (λ c, is_lower c || is_digit c || is_one_of "_" c) 0 63 t' | [] => false end.
Definition CITATION_ID_RE (t : text) : bool := match t with c :: t' => is_upper c && all_of is_digit 1 3 t' | [] => false end.

Definition CONSOLE_LINK_ID_RE (t : text) : bool :=
  match split_at COLON t with
  | (a, Some b) => all_of (λ c, is_lower c || is_digit c || is_one_of "_" c) 1 40 a &&
                   all_of (λ c, is_lower c || is_digit c || is_one_of "_.-" c) 1 80 b
  | _ => false
  end.
Definition GRANT_RE (t : text) : bool :=
  match split_at COLON t with
  | (a, Some b) => all_of (λ c, is_lower c || is_one_of "_" c) 1 40 a && all_of (λ c, is_lower c || is_one_of "_" c) 1 40 b
  | _ => false
  end.
Definition SAFE_ID_RE : text → bool := all_of (λ c, alnum c || is_one_of "._:-" c) 1 128.
Definition CASE_ID_RE : text → bool := all_of (λ c, alnum c || is_one_of "_.:@ /-" c) 1 128.
Definition ROUTE_TOKEN_RE : text → bool := all_of (λ c, alnum c || is_one_of "_.:@ -" c) 1 128.

Definition doc_word (t : text) : bool := forallb (λ c, is_lower c || is_digit c || is_one_of "_-" c) t && (1 <=? length t)%nat.
(** [[a-z0-9_-]+(?:\.[a-z0-9_-]+)*] *)
Definition doc_segment (t : text) : bool := forallb doc_word (pieces DOT [] t).
(** The version directory and the path under it; the trailing slash is optional. *)
Definition doc_path (t : text) : bool :=
  match t with
  | [] => true
  | _ => forallb doc_segment (pieces SLASH [] (if decide (last t = Some SLASH) then take (length t - 1) t else t))
  end.
Definition doc_version (t : text) : bool :=
  match split_at DOT t with (a, Some b) => all_of is_digit 1 4 a && all_of is_digit 1 4 b | _ => false end.

Definition DOC_REF_RE (t : text) : bool :=
  let '(path, fragment) := split_at HASH t in
  let root := units "/docs/" in
  bool_decide (take (length root) path = root) &&
  match split_at SLASH (drop (length root) path) with
  | (version, Some rest) => doc_version version && doc_path rest
  | _ => false
  end && match fragment with Some f => doc_word f | None => true end.

(** [/^T\d{4}(\.\d{3})?$/] *)
Definition TECHNIQUE_RE (t : text) : bool :=
  match t with
  | c :: t' => (c =? 84) &&
      match split_at DOT t' with
      | (a, None) => all_of is_digit 4 4 a
      | (a, Some b) => all_of is_digit 4 4 a && all_of is_digit 3 3 b
      end
  | [] => false
  end.

(** ** Field helpers *)

(** [toUpperCase()] as far as the technique pattern can match: a to z; no other character gives T, a
    digit or a dot. *)
Definition upper_unit (c : Z) : Z := if is_lower c then c - 32 else c.

Definition enumOr (value : option jv) (allowed : list string) : option string :=
  t ← as_text value;
  let v := lower_unit <$> text_trim t in
  List.find (λ a, bool_decide (units a = v)) allowed.

(** A finite non-negative integer. *)
Definition count (value : option jv) : option Z :=
  match value with
  | Some (JvNum (Fin q)) => if Pos.eqb (Qden q) 1 && (0 <=? Qnum q) then Some (Qnum q) else None
  | _ => None
  end.

(** A finite non-negative number, else [0]. *)
Definition amount (value : option jv) : Qc :=
  match value with
  | Some (JvNum (Fin q)) => if 0 <=? Qnum q then q else 0%Qc
  | _ => 0%Qc
  end.

(** [Math.trunc] of a number, anything else as it is. *)
Definition truncated (value : option jv) : option jv :=
  match value with
  | Some (JvNum (Fin q)) => Some (JvNum (Fin (Q2Qc (inject_Z (Z.quot (Qnum q) (Zpos (Qden q)))))))
  | v => v
  end.

Definition optId (value : option jv) : option text :=
  t ← as_text value; if ((0 <? length t) && (length t <=? 256))%nat then Some t else None.

(** [typeof v === 'string' && re.test(v) ? v : null] *)
Definition matching (re : text → bool) (value : option jv) : option text := t ← as_text value; if re t then Some t else None.

Inductive scalar := ScText (t : text) | ScNum (q : Qc) | ScBool (b : bool) | ScNull.

Section parser.
Context `{JsonHost} (PAGE_IDS : list text).

Definition unknown (v : option jv) : Unknown jnum :=
  match v with
  | Some (JvStr t) => UText t
  | Some (JvNum n) => UNumber n
  | Some (JvBool b) => UBoolean b
  | _ => UOther
  end.
Definition show (v : option jv) (limit : Z) (multiline : bool) : text := displayText (unknown v) limit multiline.

Definition optText (value : option jv) (limit : Z) (multiline : bool) : option text :=
  t ← as_text value;
  match displayText (N:=jnum) (UText t) limit multiline with [] => None | s => Some s end.

(** [Object.keys(out).length >= 12] stops; [chars] and [stringsOnly] as the option object gives them.
    Assigning [__proto__] makes no own key. (An engine lists integer-like keys first; that order is
    left out.) *)
Fixpoint params_loop (chars : Z) (stringsOnly : bool) (entries : Obj) (out : list (text * scalar)) : list (text * scalar) :=
  match entries with
  | [] => out
  | (key, raw) :: rest =>
      if (12 <=? length out)%nat then out
      else if negb (PARAM_KEY_RE key) || bool_decide (key = units "__proto__") then params_loop chars stringsOnly rest out
      else
        let put v := params_loop chars stringsOnly rest (jm_set out key v) in
        let skip := params_loop chars stringsOnly rest out in
        match raw with
        | JvStr t => put (ScText (displayText (N:=jnum) (UText t) chars false))
        | JvNum (Fin q) => if stringsOnly then put (ScText (displayText (N:=jnum) (UText (number_text q)) chars false)) else put (ScNum q)
        | JvNull => if stringsOnly then skip else put ScNull
        | JvBool b => if stringsOnly then skip else put (ScBool b)
        | _ => skip
        end
  end.

Definition displayParams (value : option jv) (chars : Z) (stringsOnly : bool) : list (text * scalar) :=
  match isObj value with Some f => params_loop chars stringsOnly f [] | None => [] end.

(** The loop shared by [stringList] and [list]: push what [f] gives, stop at [limit]. *)
Fixpoint collect {A} (f : jv → option A) (limit : nat) (items : list jv) (out : list A) : list A :=
  match items with
  | [] => out
  | item :: rest =>
      let out' := match f item with Some a => out ++ [a] | None => out end in
      if (limit <=? length out')%nat then out' else collect f limit rest out'
  end.

(** [stringList] skips a non-text item before it looks at the limit, which the items before it have
    not reached. *)
Definition stringList (value : option jv) (limit : nat) (chars : Z) : list text :=
  match as_array value with
  | Some items => collect (λ item, optText (Some item) chars false) limit items []
  | None => []
  end.

Definition list_of {A} (value : option jv) (f : option jv → option A) (limit : nat) : list A :=
  match as_array value with Some items => collect (λ item, f (Some item)) limit items [] | None => [] end.

Definition Count0 (v : option jv) : Z := default 0 (count v).
Definition some_ordinal (v : option jv) : option Z := n ← count v; if 1 <=? n then Some n else None.

(** ** Parts of an answer *)
Record StepUsage := mkStepUsage {
  su_input_tokens : Z; su_cache_read_tokens : Z; su_cache_write_tokens : Z; su_output_tokens : Z; su_cost : Qc;
  su_latency_ms : Z; su_estimated : bool; su_embedding_calls : Z; su_embedding_tokens : Z; su_embedding_cost : Qc }.

Definition normaliseStepUsage (raw : option jv) : option StepUsage :=
  o ← isObj raw;
  Some (mkStepUsage (Count0 (prop o "input_tokens")) (Count0 (prop o "cache_read_tokens")) (Count0 (prop o "cache_write_tokens"))
    (Count0 (prop o "output_tokens")) (amount (prop o "cost")) (Count0 (prop o "latency_ms")) (is_true (prop o "estimated"))
    (Count0 (prop o "embedding_calls")) (Count0 (prop o "embedding_tokens")) (amount (prop o "embedding_cost"))).

Record TurnUsage := mkTurnUsage {
  tu_calls : Z; tu_embedding_calls : Z; tu_input_tokens : Z; tu_cache_read_tokens : Z; tu_cache_write_tokens : Z;
  tu_output_tokens : Z; tu_total_tokens : Z; tu_cost : Qc; tu_latency_ms : Z; tu_model : option text;
  tu_pricing_source : option text; tu_simulated : bool; tu_estimated : bool; tu_context_window : option Z;
  tu_peak_prompt_tokens : Z }.

Definition normaliseTurnUsage (raw : option jv) : option TurnUsage :=
  o ← isObj raw;
  Some (mkTurnUsage (Count0 (prop o "calls")) (Count0 (prop o "embedding_calls")) (Count0 (prop o "input_tokens"))
    (Count0 (prop o "cache_read_tokens")) (Count0 (prop o "cache_write_tokens")) (Count0 (prop o "output_tokens"))
    (Count0 (prop o "total_tokens")) (amount (prop o "cost")) (Count0 (prop o "latency_ms")) (optText (prop o "model") 120 false)
    (optText (prop o "pricing_source") 60 false) (is_true (prop o "simulated")) (is_true (prop o "estimated"))
    (count (prop o "context_window")) (Count0 (prop o "peak_prompt_tokens"))).

Record StepProgress := mkStepProgress { sp_done : Z; sp_total : option Z; sp_unit : text }.

(** [step.start]'s fields, which a finished step has too. *)
Record StepStartInfo := mkStepStart {
  si_index : Z; si_ordinal : option Z; si_kind : string; si_tool : option text; si_label : text;
  si_params : list (text * scalar); si_group : option Z }.

Record ChatStep := mkChatStep {
  cs_start : StepStartInfo; cs_status : string; cs_duration_ms : Z; cs_summary : text;
  cs_untrusted_params : list (text * scalar); cs_query : option text; cs_rows : option Z; cs_basis : option string;
  cs_coverage : option text; cs_sources : list text; cs_usage : option StepUsage;
  cs_observation_ref : option text; cs_progress : option StepProgress }.

Definition normaliseStepStart (raw : option jv) : option StepStartInfo :=
  o ← isObj raw; index ← count (prop o "index");
  Some (mkStepStart index (some_ordinal (prop o "ordinal")) (default "tool" (enumOr (prop o "kind") CHAT_STEP_KINDS))
    (matching TOOL_NAME_RE (prop o "tool")) (show (prop o "label") 120 false) (displayParams (prop o "params") 120 false)
    (count (prop o "group"))).

Definition step_progress (raw : option jv) : option StepProgress :=
  p ← isObj raw; Some (mkStepProgress (Count0 (prop p "done")) (count (prop p "total")) (show (prop p "unit") 40 false)).

Definition observation_ref (v : option jv) : option text :=
  t ← as_text v; if ((0 <? length t) && (length t <=? 200))%nat then Some t else None.

Definition normaliseChatStep (raw : option jv) : option ChatStep :=
  o ← isObj raw; start ← normaliseStepStart raw;
  Some (mkChatStep start (default "error" (enumOr (prop o "status") CHAT_STEP_STATUSES))
    (Count0 (truncated (prop o "duration_ms"))) (show (prop o "summary") 600 false)
    (displayParams (prop o "untrusted_params") 200 true) (optText (prop o "query") 4096 true) (count (prop o "rows"))
    (enumOr (prop o "basis") CHAT_STEP_BASES) (optText (prop o "coverage") 200 false) (stringList (prop o "sources") 20 120)
    (normaliseStepUsage (prop o "usage")) (observation_ref (prop o "observation_ref")) (step_progress (prop o "progress"))).

Record TurnNotice := mkNotice { tn_kind : string; tn_message : text; tn_retryable : bool }.

Definition normaliseNotice (raw : option jv) : option TurnNotice :=
  o ← isObj raw;
  Some (mkNotice (default "partial" (enumOr (prop o "kind") TURN_NOTICE_KINDS)) (show (prop o "message") 400 false) (is_true (prop o "retryable"))).

Record ChatCitation := mkCitation {
  ci_id : text; ci_kind : string; ci_title : text; ci_untrusted : bool; ci_doc : option text; ci_case_id : option text;
  ci_technique : option text; ci_snippet : option text }.

Definition technique (v : option jv) : option text :=
  t ← as_text v; let u := upper_unit <$> text_trim t in if TECHNIQUE_RE u then Some u else None.

Definition normaliseCitation (raw : option jv) : option ChatCitation :=
  o ← isObj raw;
  let title := show (prop o "title") 200 false in
  id ← matching CITATION_ID_RE (prop o "id"); kind ← enumOr (prop o "kind") CHAT_CITATION_KINDS;
  let doc := matching DOC_REF_RE (prop o "doc") in
  let caseId := matching CASE_ID_RE (prop o "case_id") in
  let tech := technique (prop o "technique") in
  if decide (title = []) then None
  else if decide ((kind = "doc" ∧ doc = None) ∨ (kind = "case" ∧ caseId = None) ∨ (kind = "mitre" ∧ tech = None)) then None
  else Some (mkCitation id kind title (not_false (prop o "untrusted")) doc caseId tech (optText (prop o "snippet") 280 true)).

(** [opts]: [tab], [section] and [anchor] by the same token rule, then the four others. *)
Record NavOpts := mkNavOpts {
  no_tab : option text; no_section : option text; no_anchor : option text; no_status : option text; no_severity : option text;
  no_caseId : option text; no_window : option Z }.

Record ConsoleLink := mkConsoleLink {
  cl_id : text; cl_label : text; cl_page : text; cl_opts : NavOpts; cl_allowed : bool; cl_requires : option text }.

Definition isSafeCaseResultStatus (t : text) : bool := bool_decide (t ∈ units <$> CASE_RESULT_STATUSES).
Definition isPageId (t : text) : bool := bool_decide (t ∈ PAGE_IDS).

Definition nav_opts (raw : option jv) : NavOpts :=
  match isObj raw with
  | None => mkNavOpts None None None None None None None
  | Some o =>
      mkNavOpts (matching ROUTE_TOKEN_RE (prop o "tab")) (matching ROUTE_TOKEN_RE (prop o "section")) (matching ROUTE_TOKEN_RE (prop o "anchor"))
        (matching isSafeCaseResultStatus (prop o "status")) (matching (λ t, bool_decide (t ∈ units <$> SEVERITY_KEYS)) (prop o "severity"))
        (matching CASE_ID_RE (prop o "caseId"))
        (w ← count (prop o "window"); if (1 <=? w) && (w <=? 720) then Some w else None)
  end.

Definition normaliseConsoleLink (raw : option jv) : option ConsoleLink :=
  o ← isObj raw;
  let label := show (prop o "label") 80 false in
  id ← matching CONSOLE_LINK_ID_RE (prop o "id"); page ← matching isPageId (prop o "page");
  if decide (label = []) then None
  else Some (mkConsoleLink id label page (nav_opts (prop o "opts")) (is_true (prop o "allowed")) (matching GRANT_RE (prop o "requires"))).

(** [filter(...).slice(0, 20)] *)
Definition safe_ids (v : option jv) : option (list text) :=
  l ← as_array v; Some (take 20 (omap (λ i, matching SAFE_ID_RE (Some i)) l)).

Record MemoryProposal := mkProposal { mp_op : string; mp_text : option text; mp_ids : list text }.

Definition normaliseMemoryProposal (raw : option jv) : option MemoryProposal :=
  o ← isObj raw; op ← enumOr (prop o "op") MEMORY_PROPOSAL_OPS;
  let t := optText (prop o "text") 500 false in
  let ids := default [] (safe_ids (prop o "ids")) in
  if decide (op = "add" ∧ t = None) then None
  else if decide (op = "remove" ∧ ids = []) then None
  else Some (mkProposal op t ids).

Record MemoryAction := mkMemoryAction { ma_op : text; ma_text : option text; ma_ids : option (list text) }.

Definition normaliseMemoryAction (raw : option jv) : option MemoryAction :=
  o ← isObj raw; opText ← as_text (prop o "op");
  match show (Some (JvStr opText)) 20 false with
  | [] => None
  | op => Some (mkMemoryAction op (optText (prop o "text") 500 false) (safe_ids (prop o "ids")))
  end.

Record MemorySuggestion := mkSuggestion { ms_text : text; ms_reason : option text }.

Definition normaliseMemorySuggestion (raw : option jv) : option MemorySuggestion :=
  o ← isObj raw; t ← optText (prop o "text") 500 false; Some (mkSuggestion t (optText (prop o "reason") 500 false)).

Record ChatClarify := mkClarify { cc_question : text; cc_options : list text; cc_allow_custom : bool }.

(** Options in order, each once, at most four. *)
Fixpoint clarify_options (items : list jv) (options : list text) : list text :=
  match items with
  | [] => options
  | item :: rest =>
      let t := match item with JvStr s => displayText (N:=jnum) (UText s) 80 false | _ => [] end in
      let options' := if bool_decide (t = []) || bool_decide (t ∈ options) then options else options ++ [t] in
      if (4 <=? length options')%nat then options' else clarify_options rest options'
  end.

Definition normaliseClarify (raw : option jv) : option ChatClarify :=
  o ← isObj raw; q ← as_text (prop o "question");
  match show (Some (JvStr q)) 200 false with
  | [] => None
  | question =>
      Some (mkClarify question (clarify_options (default [] (as_array (prop o "options"))) []) (not_false (prop o "allow_custom")))
  end.

Record SavedReport := mkSavedReport { sv_id : text; sv_title : text; sv_items : Z; sv_skipped : Z }.

Definition normaliseSavedReport (raw : option jv) : option SavedReport :=
  o ← isObj raw; id ← matching SAFE_ID_RE (prop o "id");
  Some (mkSavedReport id (show (prop o "title") 200 false) (Count0 (prop o "items")) (Count0 (prop o "skipped"))).

Record ReportSaveError := mkReportSaveError { rv_code : string; rv_message : text; rv_retryable : bool }.

Definition normaliseReportSaveError (raw : option jv) : option ReportSaveError :=
  o ← isObj raw; code ← enumOr (prop o "code") REPORT_SAVE_ERROR_CODES;
  Some (mkReportSaveError code (show (prop o "message") 300 false) (is_true (prop o "retryable"))).

(** ** The answer *)

(** [if ('key' in raw) out.key = f(raw.key)]: [None] when the key is absent. *)
Definition when_in {A} (o : Obj) (key : string) (f : option jv → A) : option A :=
  match prop o key with Some v => Some (f (Some v)) | None => None end.

(** [cr_raw]'s other members are copied as they are ([table], [discover], [truncated]). *)
Record ChatResponse := mkChatResponse {
  cr_raw : Obj;
  cr_answer : text;
  cr_conversation_title : option (option text);
  cr_effective_model : option (option text);
  cr_effective_source_id : option (option text);
  cr_effective_source_name : option (option text);
  cr_query : option (option text);
  cr_case_id : option (option text);
  cr_idempotency_key : option (option text);
  cr_conversation_id : option (option text);
  cr_memory_action : option (option MemoryAction);
  cr_memory_suggestion : option (option MemorySuggestion);
  cr_blocks : list jv;
  cr_blocks_version : Z;
  cr_steps : list ChatStep;
  cr_usage : option TurnUsage;
  cr_citations : list ChatCitation;
  cr_console_links : list ConsoleLink;
  cr_follow_ups : list text;
  cr_answer_kind : string;
  cr_notice : option TurnNotice;
  cr_stream_mode : option string;
  cr_turn_id : option text;
  cr_message_id : option text;
  cr_user_message_id : option text;
  cr_memory_proposal : option MemoryProposal;
  cr_case_saved : option bool;
  cr_case_save_notice : option TurnNotice;
  cr_cost : Qc;
  cr_clarify : option ChatClarify;
  cr_saved_report : option SavedReport;
  cr_saved_report_error : option ReportSaveError;
  cr_continued : Z;
  cr_compacted : bool;
  cr_command : option string;
}.

(** [count(raw.blocks_version, 1) || 1] *)
Definition version_of (v : option jv) : Z := let n := default 1 (count v) in if n =? 0 then 1 else n.

Definition normaliseChatResponse (raw : option jv) : option ChatResponse :=
  o ← isObj raw; answer ← as_text (prop o "answer");
  let line limit v := optText v limit false in
  let usage := normaliseTurnUsage (prop o "usage") in
  Some {|
    cr_raw := o;
    cr_answer := displayText (N:=jnum) (UText answer) 0 true;
    cr_conversation_title := when_in o "conversation_title" (line 120);
    cr_effective_model := when_in o "effective_model" (line 120);
    cr_effective_source_id := when_in o "effective_source_id" (line 128);
    cr_effective_source_name := when_in o "effective_source_name" (line 120);
    cr_query := when_in o "query" (λ v, optText v 4096 true);
    cr_case_id := when_in o "case_id" (matching CASE_ID_RE);
    cr_idempotency_key := when_in o "idempotency_key" optId;
    cr_conversation_id := when_in o "conversation_id" optId;
    cr_memory_action := when_in o "memory_action" normaliseMemoryAction;
    cr_memory_suggestion := when_in o "memory_suggestion" normaliseMemorySuggestion;
    cr_blocks := take 12 (default [] (as_array (prop o "blocks")));
    cr_blocks_version := version_of (prop o "blocks_version");
    cr_steps := list_of (prop o "steps") normaliseChatStep 64;
    cr_usage := usage;
    cr_citations := list_of (prop o "citations") normaliseCitation 40;
    cr_console_links := list_of (prop o "console_links") normaliseConsoleLink 12;
    cr_follow_ups := stringList (prop o "follow_ups") 3 140;
    cr_answer_kind := default "conversation" (enumOr (prop o "answer_kind") CHAT_ANSWER_KINDS);
    cr_notice := normaliseNotice (prop o "notice");
    cr_stream_mode := enumOr (prop o "stream_mode") CHAT_STREAM_MODES;
    cr_turn_id := optId (prop o "turn_id");
    cr_message_id := optId (prop o "message_id");
    cr_user_message_id := optId (prop o "user_message_id");
    cr_memory_proposal := normaliseMemoryProposal (prop o "memory_proposal");
    cr_case_saved := match prop o "case_saved" with Some (JvBool b) => Some b | _ => None end;
    cr_case_save_notice := normaliseNotice (prop o "case_save_notice");
    cr_cost := match usage with Some u => tu_cost u | None => amount (prop o "cost") end;
    cr_clarify := normaliseClarify (prop o "clarify");
    cr_saved_report := normaliseSavedReport (prop o "saved_report");
    cr_saved_report_error := normaliseReportSaveError (prop o "saved_report_error");
    cr_continued := Count0 (prop o "continued");
    cr_compacted := is_true (prop o "compacted");
    cr_command := enumOr (prop o "command") CHAT_COMMANDS;
  |}.

(** ** Events *)
Record TurnStartEvent := mkTurnStart {
  ts_turn_id : text; ts_conversation_id : option text; ts_model : option text; ts_stream_mode : string;
  ts_replayed : bool; ts_estimate : Z }.

Record TurnErrorEvent := mkTurnError { te_code : string; te_message : text; te_retryable : bool; te_notice : option TurnNotice }.

Inductive ChatStreamEvent :=
  | TurnStart (e : TurnStartEvent)
  | StepStart (step : StepStartInfo)
  | StepEnd (step : ChatStep)
  | Usage (totals : TurnUsage)
  | TextDelta (t : text)
  | TextReset
  | TurnDone (response : ChatResponse)
  | TurnError (e : TurnErrorEvent)
  | Ping
  | StepProgressed (index done : Z) (total : option Z) (noun : text)
  | TextContinued (part : Z).

Definition toEvent (payload : Obj) : option ChatStreamEvent :=
  t ← as_text (prop payload "type");
  let named s := bool_decide (t = units s) in
  if named "turn.start" then
    turnId ← optId (prop payload "turn_id");
    Some (TurnStart (mkTurnStart turnId (optId (prop payload "conversation_id")) (optText (prop payload "model") 120 false)
      (default "steps" (enumOr (prop payload "stream_mode") CHAT_STREAM_MODES)) (is_true (prop payload "replayed"))
      (match isObj (prop payload "estimate") with Some e => Count0 (prop e "prompt_tokens") | None => 0 end)))
  else if named "step.start" then StepStart <$> normaliseStepStart (prop payload "step")
  else if named "step.end" then StepEnd <$> normaliseChatStep (prop payload "step")
  else if named "usage" then Usage <$> normaliseTurnUsage (prop payload "totals")
  else if named "text.delta" then (λ t, TextDelta (displayText (N:=jnum) (UText t) 0 true)) <$> as_text (prop payload "text")
  else if named "text.reset" then Some TextReset
  else if named "turn.done" then TurnDone <$> normaliseChatResponse (prop payload "response")
  else if named "turn.error" then
    Some (TurnError (mkTurnError (default "internal" (enumOr (prop payload "code") TURN_ERROR_CODES))
      (show (prop payload "message") 400 false) (is_true (prop payload "retryable")) (normaliseNotice (prop payload "notice"))))
  else if named "ping" then Some Ping
  else if named "step.progress" then
    index ← count (prop payload "index");
    Some (StepProgressed index (Count0 (prop payload "done")) (count (prop payload "total")) (show (prop payload "unit") 40 false))
  else if named "text.continued" then part ← count (prop payload "part"); if 2 <=? part then Some (TextContinued part) else None
  else None.

(** One line; [JSON.parse] throwing is the [catch]. *)
Definition parse_line (line : text) : option ChatStreamEvent :=
  match text_trim line with
  | [] => None
  | t => payload ← json_parse t; o ← isObj (Some payload); toEvent o
  end.

Definition event_kind (e : ChatStreamEvent) : EventKind :=
  match e with TurnStart _ => KStart | TurnDone _ => KDone | TurnError _ => KError | _ => KOther end.

(** The reader's interface, implemented: the reader's theorems hold of this parser. *)
#[export] Instance chat_stream_events : StreamEvents ChatStreamEvent := {| parseStreamEvent := parse_line; ev_type := event_kind |}.
End parser.

Example DOC_REF_RE_cases :
  (DOC_REF_RE ∘ units <$> ["/docs/1.2/"; "/docs/1.2/a-b/c.d/#top"; "/docs/1.2/a"; "/docs/1.2//"; "/docs/1.2/a//b"; "/docs/1.2"; "/docs/12345.1/"; "/docs/1.2/a#"; "/docs/1.2/a.#x"]) =
  [true; true; true; false; false; false; false; false; false].
Proof. vm_compute. reflexivity. Qed.
