(* ===== verification/StreamParseSpec.v ===== *)
(** * The line parser: every field of every event is checked

    Whatever a line says, an event that comes out of it has only vocabulary words where words are
    expected, non-negative counts, bounded lists, targets that its kind names, identifiers of their
    pattern, and displayed strings that are outputs of the sanitiser within their limits. Read through
    the stream reader, so is every event the turn runner gets. *)

From S2P Require Import Prelude JsText JsMap Csv DisplayText DisplaySpec Ndjson NdjsonSpec StreamParse.
From Stdlib Require Import QArith Qcanon.
Local Close Scope Qc_scope.
Local Close Scope Q_scope.
Local Open Scope Z_scope.

(** ** What a parsed event promises *)
Section promises.
Context `{JsonHost}.

(** A displayed string: an output of the sanitiser under this limit and mode. It has no unpaired surrogate, keeps the
    limit, and has no line break on a single line and no carriage return on several. An invisible character is left only
    where the sanitiser's input had an unpaired surrogate ([DisplayText.smuggled_tag]). *)
Definition Displayed (limit : Z) (multiline : bool) (t : text) : Prop :=
  (∃ s, Forall unit_ok s ∧ t = displayText (N:=jnum) (UText s) limit multiline ∧
     (well_formed s → Forall (λ p, invisible p = false) (code_points t))) ∧
  Forall (λ p, lone p = false) (code_points t) ∧ (0 < limit → Z.of_nat (length (code_points t)) ≤ limit) ∧
  (multiline = false → Forall (λ p, breaks p = false) (code_points t) ∧ trimmed_text (code_points t)) ∧
  (multiline = true → Forall (λ p, p ≠ CR) (code_points t)).

Definition opt {A} (P : A → Prop) (o : option A) : Prop := match o with Some a => P a | None => True end.

(** An optional displayed string is never an empty one. *)
Definition shown_text (limit : Z) (multiline : bool) (t : text) : Prop := t ≠ [] ∧ Displayed limit multiline t.
Definition nonneg (n : Z) : Prop := 0 ≤ n.
Definition id_ok (t : text) : Prop := (0 < length t ≤ 256)%nat.

Definition params_ok (chars : Z) (strings : bool) (ps : list (text * scalar)) : Prop :=
  (length ps ≤ 12)%nat ∧
  Forall (λ e, PARAM_KEY_RE e.1 = true ∧ match e.2 with ScText t => Displayed chars false t | _ => strings = false end) ps.

Definition step_usage_ok (u : StepUsage) : Prop :=
  nonneg (su_input_tokens u) ∧ nonneg (su_cache_read_tokens u) ∧ nonneg (su_cache_write_tokens u) ∧ nonneg (su_output_tokens u) ∧
  nonneg (su_latency_ms u) ∧ nonneg (su_embedding_calls u) ∧ nonneg (su_embedding_tokens u) ∧
  nonneg (Qnum (su_cost u)) ∧ nonneg (Qnum (su_embedding_cost u)).

Definition turn_usage_ok (u : TurnUsage) : Prop :=
  nonneg (tu_calls u) ∧ nonneg (tu_embedding_calls u) ∧ nonneg (tu_input_tokens u) ∧ nonneg (tu_cache_read_tokens u) ∧
  nonneg (tu_cache_write_tokens u) ∧ nonneg (tu_output_tokens u) ∧ nonneg (tu_total_tokens u) ∧ nonneg (tu_latency_ms u) ∧
  nonneg (tu_peak_prompt_tokens u) ∧ opt nonneg (tu_context_window u) ∧ nonneg (Qnum (tu_cost u)) ∧
  opt (shown_text 120 false) (tu_model u) ∧ opt (shown_text 60 false) (tu_pricing_source u).

Definition step_start_ok (s : StepStartInfo) : Prop :=
  nonneg (si_index s) ∧ opt (λ n, 1 ≤ n) (si_ordinal s) ∧ si_kind s ∈ CHAT_STEP_KINDS ∧ Displayed 120 false (si_label s) ∧
  opt (λ t, TOOL_NAME_RE t = true) (si_tool s) ∧ params_ok 120 false (si_params s) ∧ opt nonneg (si_group s).

Definition chat_step_ok (s : ChatStep) : Prop :=
  step_start_ok (cs_start s) ∧ cs_status s ∈ CHAT_STEP_STATUSES ∧ nonneg (cs_duration_ms s) ∧ Displayed 600 false (cs_summary s) ∧
  params_ok 200 true (cs_untrusted_params s) ∧ opt (shown_text 4096 true) (cs_query s) ∧ opt nonneg (cs_rows s) ∧
  opt (λ b, b ∈ CHAT_STEP_BASES) (cs_basis s) ∧ opt (shown_text 200 false) (cs_coverage s) ∧
  (length (cs_sources s) ≤ 20)%nat ∧ Forall (shown_text 120 false) (cs_sources s) ∧ opt step_usage_ok (cs_usage s) ∧
  opt (λ t, (0 < length t ≤ 200)%nat) (cs_observation_ref s) ∧
  opt (λ p, nonneg (sp_done p) ∧ opt nonneg (sp_total p) ∧ Displayed 40 false (sp_unit p)) (cs_progress s).

Definition notice_ok (n : TurnNotice) : Prop := tn_kind n ∈ TURN_NOTICE_KINDS ∧ Displayed 400 false (tn_message n).

(** A citation has the target its kind names. *)
Definition citation_ok (c : ChatCitation) : Prop :=
  CITATION_ID_RE (ci_id c) = true ∧ ci_kind c ∈ CHAT_CITATION_KINDS ∧ shown_text 200 false (ci_title c) ∧
  (ci_kind c = "doc" → is_Some (ci_doc c)) ∧ (ci_kind c = "case" → is_Some (ci_case_id c)) ∧ (ci_kind c = "mitre" → is_Some (ci_technique c)) ∧
  opt (λ t, DOC_REF_RE t = true) (ci_doc c) ∧ opt (λ t, CASE_ID_RE t = true) (ci_case_id c) ∧
  opt (λ t, TECHNIQUE_RE t = true) (ci_technique c) ∧ opt (shown_text 280 true) (ci_snippet c).

Definition nav_opts_ok (n : NavOpts) : Prop :=
  Forall (opt (λ t, ROUTE_TOKEN_RE t = true)) [no_tab n; no_section n; no_anchor n] ∧
  opt (λ t, t ∈ units <$> CASE_RESULT_STATUSES) (no_status n) ∧ opt (λ t, t ∈ units <$> SEVERITY_KEYS) (no_severity n) ∧
  opt (λ t, CASE_ID_RE t = true) (no_caseId n) ∧ opt (λ w, 1 ≤ w ≤ 720) (no_window n).

Definition link_ok (pages : list text) (l : ConsoleLink) : Prop :=
  CONSOLE_LINK_ID_RE (cl_id l) = true ∧ (cl_page l ∈ pages) ∧ shown_text 80 false (cl_label l) ∧ nav_opts_ok (cl_opts l) ∧
  opt (λ t, GRANT_RE t = true) (cl_requires l).

Definition clarify_ok (c : ChatClarify) : Prop :=
  shown_text 200 false (cc_question c) ∧ (length (cc_options c) ≤ 4)%nat ∧ NoDup (cc_options c) ∧ Forall (shown_text 80 false) (cc_options c).

Definition ids_ok (ids : list text) : Prop := (length ids ≤ 20)%nat ∧ Forall (λ t, SAFE_ID_RE t = true) ids.

Definition proposal_ok (p : MemoryProposal) : Prop :=
  mp_op p ∈ MEMORY_PROPOSAL_OPS ∧ (mp_op p = "add" → is_Some (mp_text p)) ∧ (mp_op p = "remove" → mp_ids p ≠ []) ∧
  ids_ok (mp_ids p) ∧ opt (shown_text 500 false) (mp_text p).
Definition action_ok (a : MemoryAction) : Prop :=
  shown_text 20 false (ma_op a) ∧ opt (shown_text 500 false) (ma_text a) ∧ opt ids_ok (ma_ids a).
Definition suggestion_ok (m : MemorySuggestion) : Prop := shown_text 500 false (ms_text m) ∧ opt (shown_text 500 false) (ms_reason m).

Definition saved_report_ok (v : SavedReport) : Prop :=
  SAFE_ID_RE (sv_id v) = true ∧ Displayed 200 false (sv_title v) ∧ nonneg (sv_items v) ∧ nonneg (sv_skipped v).
Definition save_error_ok (e : ReportSaveError) : Prop := rv_code e ∈ REPORT_SAVE_ERROR_CODES ∧ Displayed 300 false (rv_message e).

(** Every member [normaliseChatResponse] writes; [blocks] (at most 12), [table], [discover] and [truncated] keep the
    server's values, for the readers of their own. *)
Definition response_ok (pages : list text) (r : ChatResponse) : Prop :=
  Displayed 0 true (cr_answer r) ∧
  opt (opt (shown_text 120 false)) (cr_conversation_title r) ∧ opt (opt (shown_text 120 false)) (cr_effective_model r) ∧
  opt (opt (shown_text 128 false)) (cr_effective_source_id r) ∧ opt (opt (shown_text 120 false)) (cr_effective_source_name r) ∧
  opt (opt (shown_text 4096 true)) (cr_query r) ∧ opt (opt (λ t, CASE_ID_RE t = true)) (cr_case_id r) ∧
  opt (opt id_ok) (cr_idempotency_key r) ∧ opt (opt id_ok) (cr_conversation_id r) ∧
  opt (opt action_ok) (cr_memory_action r) ∧ opt (opt suggestion_ok) (cr_memory_suggestion r) ∧
  (length (cr_blocks r) ≤ 12)%nat ∧ 1 ≤ cr_blocks_version r ∧
  (length (cr_steps r) ≤ 64)%nat ∧ Forall chat_step_ok (cr_steps r) ∧ opt turn_usage_ok (cr_usage r) ∧
  (length (cr_citations r) ≤ 40)%nat ∧ Forall citation_ok (cr_citations r) ∧
  (length (cr_console_links r) ≤ 12)%nat ∧ Forall (link_ok pages) (cr_console_links r) ∧
  (length (cr_follow_ups r) ≤ 3)%nat ∧ Forall (shown_text 140 false) (cr_follow_ups r) ∧
  cr_answer_kind r ∈ CHAT_ANSWER_KINDS ∧ opt notice_ok (cr_notice r) ∧ opt (λ m, m ∈ CHAT_STREAM_MODES) (cr_stream_mode r) ∧
  opt id_ok (cr_turn_id r) ∧ opt id_ok (cr_message_id r) ∧ opt id_ok (cr_user_message_id r) ∧
  opt proposal_ok (cr_memory_proposal r) ∧ opt notice_ok (cr_case_save_notice r) ∧ nonneg (Qnum (cr_cost r)) ∧
  opt clarify_ok (cr_clarify r) ∧ opt saved_report_ok (cr_saved_report r) ∧ opt save_error_ok (cr_saved_report_error r) ∧
  nonneg (cr_continued r) ∧ opt (λ c, c ∈ CHAT_COMMANDS) (cr_command r).

Definition event_ok (pages : list text) (e : ChatStreamEvent) : Prop :=
  match e with
  | TurnStart e =>
      id_ok (ts_turn_id e) ∧ opt id_ok (ts_conversation_id e) ∧ opt (shown_text 120 false) (ts_model e) ∧
      ts_stream_mode e ∈ CHAT_STREAM_MODES ∧ nonneg (ts_estimate e)
  | StepStart s => step_start_ok s
  | StepEnd s => chat_step_ok s
  | Usage u => turn_usage_ok u
  | TextDelta t => Displayed 0 true t
  | TurnDone r => response_ok pages r
  | TurnError e => te_code e ∈ TURN_ERROR_CODES ∧ Displayed 400 false (te_message e) ∧ opt notice_ok (te_notice e)
  | StepProgressed i d total noun => nonneg i ∧ nonneg d ∧ opt nonneg total ∧ Displayed 40 false noun
  | TextContinued p => 2 ≤ p
  | TextReset | Ping => True
  end.
End promises.

(** ** Reading a value *)
Definition valid (v : option jv) : Prop := opt all_units v.
Definition valid_obj (o : Obj) : Prop := all_units (JvObj o).

Lemma valid_prop o k : valid_obj o → valid (prop o k).
Proof.
  unfold valid, valid_obj, prop. intros Ho. induction o as [|[key v] o IH]; [done|]. destruct Ho as [Hv Ho].
  cbn [jm_get]. destruct (decide (key = units k)); [exact Hv|]. by apply IH.
Qed.

Lemma isObj_valid v o : valid v → isObj v = Some o → valid_obj o.
Proof. destruct v as [[]|]; cbn; try done. by intros Hv [= ->]. Qed.

Lemma as_text_valid v t : valid v → as_text v = Some t → Forall unit_ok t.
Proof. destruct v as [[]|]; cbn; try done. by intros Hv [= ->]. Qed.

Lemma as_array_valid v l : valid v → as_array v = Some l → Forall (λ x, valid (Some x)) l.
Proof.
  destruct v as [[]|]; cbn; try done. intros Hv [= ->]. induction l as [|x l IH]; [constructor|]. destruct Hv as [Hx Hv]. constructor; [done|by apply IH].
Qed.

Lemma enumOr_in v l s : enumOr v l = Some s → s ∈ l.
Proof.
  unfold enumOr. destruct (as_text v) as [t|]; [|done]. cbn. intros Hf. apply List.find_some in Hf as [Hf _]. by apply list_elem_of_In.
Qed.

Lemma enumOr_default v l d : d ∈ l → default d (enumOr v l) ∈ l.
Proof. intros Hd. destruct (enumOr v l) as [s|] eqn:E; [by eapply enumOr_in|done]. Qed.

Lemma enumOr_opt v l : opt (λ s, s ∈ l) (enumOr v l).
Proof. destruct (enumOr v l) as [s|] eqn:E; [by eapply enumOr_in|done]. Qed.

Lemma count_nonneg v n : count v = Some n → nonneg n.
Proof.
  unfold count, nonneg. destruct v as [[| |[q|]| | |]|]; try done. destruct (Pos.eqb _ _); cbn [andb]; [|done].
  destruct (Z.leb_spec 0 (Qnum q)); [|done]. by intros [= <-].
Qed.

Lemma count_opt v : opt nonneg (count v).
Proof. destruct (count v) as [n|] eqn:E; [by eapply count_nonneg|done]. Qed.

Lemma Count0_nonneg v : nonneg (Count0 v).
Proof. unfold Count0, nonneg. destruct (count v) as [n|] eqn:E; [by eapply count_nonneg|done]. Qed.

Lemma sized_opt n (t : text) :
  opt (λ t : text, (0 < length t ≤ n)%nat) (if ((0 <? length t) && (length t <=? n))%nat then Some t else None).
Proof. destruct (Nat.ltb_spec 0 (length t)), (Nat.leb_spec (length t) n); cbn [andb opt]; (done || lia). Qed.

Lemma optId_opt v : opt id_ok (optId v).
Proof. unfold optId. destruct (as_text v) as [t|]; [apply (sized_opt 256)|done]. Qed.

Lemma optId_ok v t : optId v = Some t → id_ok t.
Proof. intros E. pose proof (optId_opt v) as Hv. by rewrite E in Hv. Qed.

Lemma amount_nonneg v : nonneg (Qnum (amount v)).
Proof. unfold amount, nonneg. destruct v as [[| |[q|]| | |]|]; try done. by destruct (Z.leb_spec 0 (Qnum q)). Qed.

Lemma matching_opt re v : opt (λ t, re t = true) (matching re v).
Proof. unfold matching. destruct (as_text v) as [t|]; [|done]. cbn. by destruct (re t) eqn:E. Qed.

Lemma matching_Some re v t : matching re v = Some t → re t = true.
Proof. intros E. pose proof (matching_opt re v) as H. by rewrite E in H. Qed.

Lemma collect_ok {A} (P : A → Prop) (f : jv → option A) limit items out :
  (length out < limit)%nat → Forall P out → Forall (λ x, opt P (f x)) items →
  (length (collect f limit items out) ≤ limit)%nat ∧ Forall P (collect f limit items out).
Proof.
  intros Hlen Hout Hi. revert out Hlen Hout. induction Hi as [|x items Hx Hi IH]; intros out Hlen Hout; cbn [collect]; [split; [lia|done]|].
  set (out' := match f x with Some a => out ++ [a] | None => out end).
  assert (H' : (length out' ≤ limit)%nat ∧ Forall P out').
  { unfold out'. destruct (f x) as [a|]; [|split; [lia|done]]. rewrite length_app. cbn [length]. split; [lia|]. apply Forall_app. by repeat constructor. }
  destruct H' as [H1 H2]. destruct (Nat.leb_spec limit (length out')); [done|]. apply IH; [lia|done].
Qed.

Lemma jm_set_length (m : list (text * scalar)) k v : (length (jm_set m k v) ≤ S (length m))%nat.
Proof. induction m as [|[k' v'] m IH]; cbn; [lia|]. destruct (decide (k' = k)); cbn; lia. Qed.

Lemma jm_set_Forall (P : text * scalar → Prop) m k v : Forall P m → P (k, v) → Forall P (jm_set m k v).
Proof. intros Hm Hv. induction Hm as [|[k' v'] m Hk Hm IH]; cbn; [by constructor|]. destruct (decide (k' = k)); by constructor. Qed.

(** ** The parts *)
Section parts.
Context `{JsonHost} (PAGE_IDS : list text).

Lemma Displayed_show v limit multiline : valid v → Displayed limit multiline (show v limit multiline).
Proof.
  intros Hv. unfold show. assert (Ht : Forall unit_ok (value_text (unknown v))).
  { destruct v as [[| |n|t| |]|]; cbn; try constructor; [|destruct n; [apply number_text_units|constructor]|exact Hv].
    destruct b; apply (bool_decide_unpack _); vm_compute; exact I. }
  destruct (displayText_safe (unknown v) limit multiline Ht) as (H1 & H2 & H3 & H4 & H5). split_and!; try done.
  exists (value_text (unknown v)). split_and!; [done|by rewrite !displayText_eq|]. intros Hw. by apply H5.
Qed.

Lemma Displayed_text t limit multiline : Forall unit_ok t → Displayed limit multiline (displayText (N:=jnum) (UText t) limit multiline).
Proof. intros Ht. exact (Displayed_show (Some (JvStr t)) limit multiline Ht). Qed.

Lemma optText_Some v limit multiline t : valid v → optText v limit multiline = Some t → shown_text limit multiline t.
Proof.
  unfold optText. destruct (as_text v) as [s|] eqn:E; [|done]. cbn [mbind option_bind]. intros Hv. pose proof (Displayed_text s limit multiline (as_text_valid v s Hv E)) as Hd.
  destruct (displayText _ _ _) as [|c t'] eqn:Et; [done|]. intros [= <-]. by split.
Qed.

Lemma optText_opt v limit multiline : valid v → opt (shown_text limit multiline) (optText v limit multiline).
Proof. intros Hv. destruct (optText v limit multiline) as [t|] eqn:E; [|done]. by eapply optText_Some. Qed.

Lemma displayParams_ok v chars strings : valid v → params_ok chars strings (displayParams v chars strings).
Proof.
  intros Hv. unfold displayParams. destruct (isObj v) as [o|] eqn:E; [|split; [cbn; lia|constructor]]. pose proof (isObj_valid v o Hv E) as Ho. clear E Hv v.
  assert (Hgo : ∀ out, params_ok chars strings out → params_ok chars strings (params_loop chars strings o out)); [|apply Hgo; split; [cbn; lia|constructor]].
  induction o as [|[key raw] o IH]; intros out Hout; [done|]. destruct Ho as [Hraw Ho]. specialize (IH Ho). cbn [params_loop].
  destruct (Nat.leb_spec 12 (length out)); [done|]. destruct (negb (PARAM_KEY_RE key) || _) eqn:Ek; [by apply IH|].
  apply orb_false_iff in Ek as [Ek _]. apply negb_false_iff in Ek.
  assert (Hput : ∀ v, match v with ScText t => Displayed chars false t | _ => strings = false end → params_ok chars strings (jm_set out key v)).
  { intros v Hv. destruct Hout as [H1 H2]. split; [pose proof (jm_set_length out key v); lia|]. by apply jm_set_Forall. }
  destruct raw as [| |[q|]|t| |]; try destruct strings; try (by apply IH); apply IH, Hput; try done.
  - apply Displayed_text, number_text_units.
  - by apply Displayed_text.
  - by apply Displayed_text.
Qed.

Lemma stringList_ok v limit chars : (0 < limit)%nat → valid v →
  (length (stringList v limit chars) ≤ limit)%nat ∧ Forall (shown_text chars false) (stringList v limit chars).
Proof.
  intros Hl Hv. unfold stringList. destruct (as_array v) as [l|] eqn:E; [|split; [cbn; lia|constructor]].
  apply collect_ok; [done|constructor|]. eapply Forall_impl; [exact (as_array_valid v l Hv E)|]. intros x Hx. by apply optText_opt.
Qed.

Lemma list_of_ok {A} (P : A → Prop) v (f : option jv → option A) limit :
  (0 < limit)%nat → valid v → (∀ x a, valid x → f x = Some a → P a) →
  (length (list_of v f limit) ≤ limit)%nat ∧ Forall P (list_of v f limit).
Proof.
  intros Hl Hv Hf. unfold list_of. destruct (as_array v) as [l|] eqn:E; [|split; [cbn; lia|constructor]].
  apply collect_ok; [done|constructor|]. eapply Forall_impl; [exact (as_array_valid v l Hv E)|]. intros x Hx. cbn beta.
  destruct (f (Some x)) as [a|] eqn:Ef; [|done]. by apply (Hf (Some x)).
Qed.

(** Opens [x ← a; ...] = [Some _] and reads what an object's fields are. *)
Ltac parse_inv :=
  repeat match goal with
  | Hm : (_ ≫= _) = Some _ |- _ => apply bind_Some in Hm as (? & ? & Hm); cbv zeta beta in Hm
  | Hm : (if decide ?P then None else _) = Some _ |- _ => destruct (decide P); [discriminate Hm|]
  | Hm : Some _ = Some _ |- _ => injection Hm as <-
  | Hv : valid ?v, Ho : isObj ?v = Some ?o |- _ =>
      lazymatch goal with _ : valid_obj o |- _ => fail | _ => pose proof (isObj_valid v o Hv Ho) end
  end.

(** A field on its own: read by one of the helpers from a valid object. *)
Ltac parse_field :=
  first [ apply Count0_nonneg | apply amount_nonneg | apply count_opt | apply enumOr_opt | apply matching_opt | apply optId_opt
        | by apply optText_opt, valid_prop | by apply Displayed_show, valid_prop | by apply displayParams_ok, valid_prop ].

Lemma step_usage_parsed v u : normaliseStepUsage v = Some u → step_usage_ok u.
Proof. unfold normaliseStepUsage. intros E. parse_inv. split_and!; parse_field. Qed.

Lemma turn_usage_parsed v u : valid v → normaliseTurnUsage v = Some u → turn_usage_ok u.
Proof.
  unfold normaliseTurnUsage. intros Hv E. parse_inv.
  split_and!; cbn; parse_field.
Qed.

Lemma some_ordinal_ok v : opt (λ n, 1 ≤ n) (some_ordinal v).
Proof. unfold some_ordinal. destruct (count v) as [n|]; [|done]. cbn. by destruct (Z.leb_spec 1 n). Qed.

Lemma step_start_parsed v s : valid v → normaliseStepStart v = Some s → step_start_ok s.
Proof.
  unfold normaliseStepStart. intros Hv E. parse_inv. split_and!; cbn; try parse_field.
  - by eapply count_nonneg.
  - apply some_ordinal_ok.
  - apply enumOr_default. by left.
Qed.

Lemma chat_step_parsed v s : valid v → normaliseChatStep v = Some s → chat_step_ok s.
Proof.
  unfold normaliseChatStep. intros Hv E. parse_inv. unfold chat_step_ok. cbn.
  assert (Hp : ∀ k, valid (prop x k)) by (intros k; by apply valid_prop).
  split_and!; try parse_field.
  - by eapply step_start_parsed.
  - apply enumOr_default. by right; left.
  - apply stringList_ok; [lia|done].
  - apply stringList_ok; [lia|done].
  - destruct (normaliseStepUsage _) eqn:Eu; [by eapply step_usage_parsed|done].
  - unfold observation_ref. destruct (as_text _) as [t|]; [apply (sized_opt 200)|done].
  - unfold step_progress. destruct (isObj (prop x "progress")) as [p|] eqn:Ep; [|done]. cbn. split_and!; [apply Count0_nonneg|apply count_opt|].
    apply Displayed_show, valid_prop. exact (isObj_valid _ _ (Hp "progress") Ep).
Qed.

Lemma notice_parsed v n : valid v → normaliseNotice v = Some n → notice_ok n.
Proof.
  unfold normaliseNotice. intros Hv E. parse_inv. split; [apply enumOr_default; by left|by apply Displayed_show, valid_prop].
Qed.

Lemma citation_parsed v c : valid v → normaliseCitation v = Some c → citation_ok c.
Proof.
  unfold normaliseCitation. intros Hv E. parse_inv. unfold citation_ok. cbn.
  match goal with Hn : ¬ (_ ∨ _) |- _ => rename Hn into Htarget end.
  assert (Hp : ∀ k, valid (prop x k)) by (intros k; by apply valid_prop).
  split_and!; try parse_field; try done.
  - by eapply matching_Some.
  - by eapply enumOr_in.
  - split; [done|parse_field].
  - intros ->. apply not_eq_None_Some. intros En. apply Htarget. by left.
  - intros ->. apply not_eq_None_Some. intros En. apply Htarget. by right; left.
  - intros ->. apply not_eq_None_Some. intros En. apply Htarget. by right; right.
  - unfold technique. destruct (as_text _); [|done]. cbn. by destruct (TECHNIQUE_RE _) eqn:Et.
Qed.

Lemma matching_in v (l : list text) : opt (λ t, t ∈ l) (matching (λ t, bool_decide (t ∈ l)) v).
Proof. pose proof (matching_opt (λ t, bool_decide (t ∈ l)) v) as Hm. destruct (matching _ v); [by apply bool_decide_eq_true in Hm|done]. Qed.

Lemma nav_opts_parsed raw : nav_opts_ok (nav_opts raw).
Proof.
  unfold nav_opts. destruct (isObj raw) as [o|]; [|split_and!; by repeat constructor]. unfold nav_opts_ok. cbn. split_and!.
  - repeat constructor; apply matching_opt.
  - apply matching_in.
  - apply matching_in.
  - apply matching_opt.
  - destruct (count _) as [w|]; [|done]. cbn. destruct (Z.leb_spec 1 w), (Z.leb_spec w 720); cbn; (done || lia).
Qed.

Lemma link_parsed v l : valid v → normaliseConsoleLink PAGE_IDS v = Some l → link_ok PAGE_IDS l.
Proof.
  unfold normaliseConsoleLink. intros Hv E. parse_inv. unfold link_ok. cbn.
  split_and!; try apply matching_opt; try done.
  - by eapply matching_Some.
  - match goal with Hm : matching (isPageId _) _ = Some _ |- _ => apply matching_Some in Hm; by apply bool_decide_eq_true in Hm end.
  - split; [done|parse_field].
  - apply nav_opts_parsed.
Qed.

Lemma safe_ids_ok v l : safe_ids v = Some l → ids_ok l.
Proof.
  unfold safe_ids. intros E. parse_inv. split; [rewrite length_take; lia|]. apply Forall_take, Forall_forall. intros t Ht.
  apply list_elem_of_omap in Ht as (i & _ & Ht). by eapply matching_Some.
Qed.

Lemma proposal_parsed v p : valid v → normaliseMemoryProposal v = Some p → proposal_ok p.
Proof.
  unfold normaliseMemoryProposal. intros Hv E. parse_inv. unfold proposal_ok. cbn. split_and!.
  - by eapply enumOr_in.
  - intros ->. apply not_eq_None_Some. naive_solver.
  - intros ->. naive_solver.
  - destruct (safe_ids _) eqn:Ei; [by eapply safe_ids_ok|split; [cbn; lia|constructor]].
  - by apply optText_opt, valid_prop.
Qed.

Lemma clarify_options_ok items out :
  Forall (λ x, valid (Some x)) items → (length out < 4)%nat → NoDup out → Forall (shown_text 80 false) out →
  (length (clarify_options items out) ≤ 4)%nat ∧ NoDup (clarify_options items out) ∧ Forall (shown_text 80 false) (clarify_options items out).
Proof.
  intros Hi. revert out. induction Hi as [|x items Hx Hi IH]; intros out Hlen Hn Ho; cbn [clarify_options]; [split_and!; [lia|done|done]|].
  set (t := match x with JvStr s => displayText (UText s) 80 false | _ => [] end).
  set (out' := if bool_decide (t = []) || bool_decide (t ∈ out) then out else out ++ [t]).
  assert (H' : (length out' ≤ 4)%nat ∧ NoDup out' ∧ Forall (shown_text 80 false) out').
  { unfold out'. destruct (bool_decide (t = []) || _) eqn:Eb; [split_and!; [lia|done|done]|].
    apply orb_false_iff in Eb as [Et Ein]. apply bool_decide_eq_false in Et, Ein. rewrite length_app. cbn [length]. split_and!; [lia| |].
    - apply NoDup_app. split_and!; [done|by intros y Hy ->%list_elem_of_singleton|apply NoDup_singleton].
    - apply Forall_app. split; [done|]. constructor; [|constructor]. split; [done|]. unfold t in *. destruct x; try done. by apply Displayed_text. }
  destruct H' as (H1 & H2 & H3). destruct (Nat.leb_spec 4 (length out')); [done|]. by apply IH; [lia|..].
Qed.

Lemma clarify_parsed v c : valid v → normaliseClarify v = Some c → clarify_ok c.
Proof.
  unfold normaliseClarify. intros Hv E. parse_inv.
  destruct (show _ 200 false) as [|ch q] eqn:Es; [discriminate E|]. injection E as <-. unfold clarify_ok. cbn [cc_question cc_options].
  assert (Ho : Forall (λ x, valid (Some x)) (default [] (as_array (prop x "options")))).
  { destruct (as_array _) as [l|] eqn:El; [|constructor]. eapply as_array_valid; [|exact El]. by apply valid_prop. }
  destruct (clarify_options_ok _ [] Ho) as (H1' & H2' & H3'); [cbn; lia|constructor|constructor|].
  rewrite <-Es. split_and!; [split; [by rewrite Es|]|done..].
  apply Displayed_show. cbn. eapply as_text_valid; [|done]. by apply valid_prop.
Qed.

Lemma action_parsed v m : valid v → normaliseMemoryAction v = Some m → action_ok m.
Proof.
  unfold normaliseMemoryAction. intros Hv E. parse_inv. destruct (show _ 20 false) as [|c op] eqn:Es; [discriminate E|]. injection E as <-.
  unfold action_ok. cbn [ma_op ma_text ma_ids]. split_and!; try parse_field.
  - rewrite <-Es. split; [by rewrite Es|]. apply Displayed_show. cbn. eapply as_text_valid; [|done]. by apply valid_prop.
  - destruct (safe_ids _) eqn:Ei; [by eapply safe_ids_ok|done].
Qed.

Lemma suggestion_parsed v m : valid v → normaliseMemorySuggestion v = Some m → suggestion_ok m.
Proof.
  unfold normaliseMemorySuggestion. intros Hv E. parse_inv. split; cbn; [|parse_field]. eapply optText_Some; [|done]. by apply valid_prop.
Qed.

Lemma saved_report_parsed v r : valid v → normaliseSavedReport v = Some r → saved_report_ok r.
Proof. unfold normaliseSavedReport. intros Hv E. parse_inv. split_and!; cbn; try parse_field. by eapply matching_Some. Qed.

Lemma save_error_parsed v r : valid v → normaliseReportSaveError v = Some r → save_error_ok r.
Proof. unfold normaliseReportSaveError. intros Hv E. parse_inv. split; cbn; [by eapply enumOr_in|parse_field]. Qed.

Lemma opt_parsed {A} (P : A → Prop) (f : option jv → option A) v :
  (∀ v a, valid v → f v = Some a → P a) → valid v → opt P (f v).
Proof. intros Hf Hv. destruct (f v) as [a|] eqn:E; [|done]. by apply (Hf v). Qed.

Lemma when_in_ok {A} (P : A → Prop) o key (f : option jv → A) :
  valid_obj o → (∀ v, valid v → P (f v)) → opt P (when_in o key f).
Proof. intros Ho Hf. unfold when_in. pose proof (valid_prop o key Ho) as Hv. destruct (prop o key); [by apply Hf|done]. Qed.

Lemma version_positive v : 1 ≤ version_of v.
Proof.
  unfold version_of. destruct (count v) as [n|] eqn:E; [|cbn; lia]. apply count_nonneg in E. unfold nonneg in E. cbn. destruct (Z.eqb_spec n 0); lia.
Qed.

Hint Resolve optText_opt matching_opt optId_opt action_parsed suggestion_parsed saved_report_parsed save_error_parsed
  notice_parsed proposal_parsed clarify_parsed turn_usage_parsed opt_parsed when_in_ok : core.

(** A member written when its key is there, and one that is an object of its own *)
Ltac parse_member := first
  [ parse_field | apply when_in_ok; [assumption|]; eauto | eapply opt_parsed; [eauto|by apply valid_prop] ].

Lemma response_parsed v r : valid v → normaliseChatResponse PAGE_IDS v = Some r → response_ok PAGE_IDS r.
Proof.
  unfold normaliseChatResponse. intros Hv E. parse_inv.
  assert (Hp : ∀ k, valid (prop x k)) by (intros k; by apply valid_prop).
  destruct (list_of_ok chat_step_ok (prop x "steps") normaliseChatStep 64 ltac:(lia) (Hp _) chat_step_parsed) as [S1 S2].
  destruct (list_of_ok citation_ok (prop x "citations") normaliseCitation 40 ltac:(lia) (Hp _) citation_parsed) as [C1 C2].
  destruct (list_of_ok (link_ok PAGE_IDS) (prop x "console_links") (normaliseConsoleLink PAGE_IDS) 12 ltac:(lia) (Hp _) link_parsed) as [L1 L2].
  destruct (stringList_ok (prop x "follow_ups") 3 140 ltac:(lia) (Hp _)) as [F1 F2].
  unfold response_ok. cbn -[displayText]. split_and!; try done; try parse_member.
  - refine (Displayed_text x0 0 true _). eapply as_text_valid; [apply (Hp "answer")|done].
  - rewrite length_take. lia.
  - apply version_positive.
  - apply enumOr_default. by right; right; right; left.
  - destruct (normaliseTurnUsage (prop x "usage")) as [u|] eqn:Eu; [|apply amount_nonneg]. by apply (turn_usage_parsed _ u (Hp "usage") Eu).
Qed.

Lemma event_parsed o e : valid_obj o → toEvent PAGE_IDS o = Some e → event_ok PAGE_IDS e.
Proof.
  intros Ho E. assert (Hp : ∀ k, valid (prop o k)) by (intros k; by apply valid_prop). unfold toEvent in E.
  apply bind_Some in E as (kind & _ & E). cbv zeta in E.
  repeat match type of E with (if ?b then _ else _) = _ => destruct b end;
    try (apply fmap_Some in E as (a & Ea & ->)); cbn [event_ok].
  - cbn. split_and!; try parse_field.
    + by eapply optId_ok.
    + apply enumOr_default. by left.
    + destruct (isObj _); [apply Count0_nonneg|done].
  - by apply (step_start_parsed _ _ (Hp "step")).
  - by apply (chat_step_parsed _ _ (Hp "step")).
  - by apply (turn_usage_parsed _ _ (Hp "totals")).
  - apply Displayed_text. by apply (as_text_valid _ _ (Hp "text")).
  - by injection E as <-.
  - by apply (response_parsed _ _ (Hp "response")).
  - injection E as <-. cbn. split_and!; [apply enumOr_default; by right; right; right; right; left|by apply Displayed_show|].
    apply opt_parsed; [apply notice_parsed|done].
  - by injection E as <-.
  - split_and!; [by eapply count_nonneg|parse_field..].
  - apply bind_Some in E as (part & _ & E). destruct (Z.leb_spec 2 part); [|done]. by injection E as <-.
  - done.
Qed.

Lemma line_parsed line e : parse_line PAGE_IDS line = Some e → event_ok PAGE_IDS e.
Proof.
  unfold parse_line. destruct (text_trim line) as [|c t]; [done|]. intros E. apply bind_Some in E as (v & Hv & E). apply bind_Some in E as (o & Ho & E).
  apply (event_parsed o); [|done]. apply (isObj_valid (Some v)); [by apply json_parse_units in Hv|done].
Qed.
End parts.

(** ** Through the reader *)
Section reader.
Context {E B : Type} `{StreamEvents E} `{StreamDecoder B} (P : E → Prop).
Context (parsed : ∀ line e, parseStreamEvent line = Some e → P e).

Lemma handle_events lines r : Forall P (rd_events r) → Forall P (rd_events (handle lines r).1).
Proof using parsed.
  revert r. induction lines as [|line lines IH]; intros r Hr; [done|]. cbn [handle]. destruct (is_blank line); [by apply IH|].
  destruct (parseStreamEvent line) as [e|] eqn:Ee; [|by apply IH]. assert (He : Forall P (rd_events r ++ [e])).
  { apply Forall_app. split; [done|]. repeat constructor. by eapply parsed. }
  destruct (ev_type e); cbn [fst rd_events]; try done; by apply IH.
Qed.

Lemma read_body_events max reads d s r o events :
  Forall P (rd_events r) → read_body max reads d s r = Some (o, events) → Forall P events.
Proof using parsed.
  revert d s r. induction reads as [|rd reads IH]; intros d s r Hr; [done|]. cbn [read_body]. destruct rd as [bytes ab|ab|ae ab].
  - destruct ab; [by intros [= _ <-]|]. destruct (dec_push d bytes) as [t d']. destruct (push max t s) as [lines s'].
    pose proof (handle_events lines r Hr) as Hh. destruct (handle lines r) as [r' stop]. destruct stop; [by intros [= _ <-]|]. by apply IH.
  - destruct ab; [by intros [= _ <-]|]. unfold handle_last. destruct (push max (dec_flush d) s) as [lines s'].
    pose proof (handle_events lines r Hr) as Hh. destruct (handle lines r) as [r' stop]. destruct stop; [by intros [= _ <-]|].
    destruct (flush s') as [lines2 s2]. pose proof (handle_events lines2 r' Hh) as Hh2. by intros [= _ <-].
  - by intros [= _ <-].
Qed.

Lemma readChatStream_events max aborted (response : Response (B := B)) o events :
  readChatStream max aborted response = Some (o, events) → Forall P events.
Proof using parsed.
  unfold readChatStream. destruct aborted; [by intros [= _ <-]|]. destruct response as [reads|[t|] ae ab].
  - apply read_body_events. constructor.
  - destruct ab; [by intros [= _ <-]|]. unfold handle_last. destruct (push max t new_splitter) as [lines s'].
    pose proof (handle_events lines new_reader ltac:(constructor)) as Hh. destruct (handle lines new_reader) as [r' stop]. destruct stop; [by intros [= _ <-]|].
    destruct (flush s') as [lines2 s2]. pose proof (handle_events lines2 r' Hh) as Hh2. by intros [= _ <-].
  - by intros [= _ <-].
Qed.
End reader.

(** C19. Every event the stream reader hands over is checked field by field, whatever bytes came and however the network cut
    or broke them: words from their vocabularies; counts and costs not negative; lists within their limits; identifiers,
    link options and targets of their patterns; links to pages that exist, citations with the target their kind names; and
    every displayed string, the saved report's title and the notices included, an output of the sanitiser: at most its
    limit long, without an unpaired surrogate, on one line without a line break. Such a string is free of invisible and
    reordering characters unless the server's string had unpaired surrogates, which the sanitiser can join
    ([DisplayText.smuggled_tag]). [blocks], [table], [discover] and [truncated] of an answer are the server's values. *)
Theorem stream_events_checked `{JsonHost} {B} `{StreamDecoder B} pages max aborted (response : Response (B := B)) o events :
  let P := chat_stream_events pages in
  readChatStream max aborted response = Some (o, events) → Forall (event_ok pages) events.
Proof.
  cbv zeta. apply readChatStream_events. intros line e. apply line_parsed.
Qed.

(** ** Witness *)

(** A host that knows three documents. *)
Definition demo_documents : list (text * jv) :=
  [(units "1", JvObj [(units "type", JvStr (units "turn.start")); (units "turn_id", JvStr (units "t1")); (units "stream_mode", JvStr (units " TEXT "))]);
   (units "2", JvObj [(units "type", JvStr (units "step.start"));
      (units "step", JvObj [(units "index", JvNum (Fin 1%Qc)); (units "kind", JvStr (units "spell")); (units "label", JvStr (units "Searched" ++ [LF] ++ units "logs"))])]);
   (units "3", JvObj [(units "type", JvStr (units "turn.error")); (units "message", JvStr ([8238] ++ units "stopped"))])].

Definition demo_host : JsonHost.
Proof.
  refine {| json_parse := λ t, jm_get demo_documents t; number_text := λ _, [48] |}.
  - intros q. split; [done|]. repeat constructor; done.
  - intros q. repeat constructor; lia.
  - assert (H : Forall (λ e, all_units e.2) demo_documents) by (repeat (apply Forall_cons; split; [cbn; repeat split; apply (bool_decide_unpack _); vm_compute; exact I|]); constructor).
    intros t v Hv. apply jm_get_Some_elem in Hv. rewrite Forall_forall in H. exact (H _ Hv).
Defined.

Lemma stream_events_checked_witness :
  let host := demo_host in let dec := byte_decoder in let P := chat_stream_events [units "cases"] in
  let response := RespStream [RChunk (units "1" ++ [LF] ++ units "2") false; RChunk ([LF] ++ units "x" ++ [LF] ++ units "3") false; RDone false] in
  ∃ o, readChatStream 1000 false response =
    Some (o, [TurnStart (mkTurnStart (units "t1") None None "text" false 0);
              StepStart (mkStepStart 1 None "tool" None (units "Searched logs") [] None);
              TurnError (mkTurnError "internal" (units "stopped") false None)]) ∧
  Forall (event_ok [units "cases"])
    [TurnStart (mkTurnStart (units "t1") None None "text" false 0);
     StepStart (mkStepStart 1 None "tool" None (units "Searched logs") [] None);
     TurnError (mkTurnError "internal" (units "stopped") false None)].
Proof.
  cbv zeta. eexists. split; [vm_compute; reflexivity|].
  eapply (@stream_events_checked demo_host Z byte_decoder [units "cases"] 1000 false
    (RespStream [RChunk (units "1" ++ [LF] ++ units "2") false; RChunk ([LF] ++ units "x" ++ [LF] ++ units "3") false; RDone false])).
  vm_compute. reflexivity.
Defined.
