(* ===== verification/Zip.v ===== *)
(** * The store-only ZIP writer (soc/chat/report/export/zip.ts) *)

From S2P Require Import Prelude JsText.
Local Open Scope Z_scope.

Definition bytes := list Z.

(** ** [TextEncoder.encode] *)
(** UTF-8 of one code point. *)
Definition utf8_point (c : Z) : bytes :=
  if c <? 128 then [c]
  else if c <? 2048 then [192 + c / 64; 128 + c mod 64]
  else if c <? 65536 then [224 + c / 4096; 128 + (c / 64) mod 64; 128 + c mod 64]
  else [240 + c / 262144; 128 + (c / 4096) mod 64; 128 + (c / 64) mod 64; 128 + c mod 64].

(** A lone surrogate is written as U+FFFD. *)
Fixpoint encode (t : text) : bytes :=
  match t with
  | [] => []
  | c :: t' =>
      if is_high c then
        match t' with
        | d :: t'' =>
            if is_low d then utf8_point (65536 + (c - 55296) * 1024 + (d - 56320)) ++ encode t''
            else utf8_point 65533 ++ encode t'
        | [] => utf8_point 65533
        end
      else if is_low c then utf8_point 65533 ++ encode t'
      else utf8_point c ++ encode t'
  end.

(** ** CRC-32 *)

(** [c & 1 ? 0xedb88320 ^ (c >>> 1) : c >>> 1] *)
Definition crc_step (c : Z) : Z :=
  if js_and c 1 =? 0 then js_shru c 1 else js_xor 0xedb88320 (js_shru c 1).

Definition CRC_TABLE : list Z :=
  (λ n, to_uint32 (Nat.iter 8 crc_step (Z.of_nat n))) <$> seq 0 256.

Definition crc32_byte (crc b : Z) : Z :=
  js_xor (CRC_TABLE !!! Z.to_nat (js_and (js_xor crc b) 0xff)) (js_shru crc 8).

Definition crc32 (bs : bytes) : Z := to_uint32 (js_xor (foldl crc32_byte 0xffffffff bs) 0xffffffff).

(** ** DOS timestamps *)

(** The UTC fields of a [Date]. *)
Record UtcDate := mkUtc {
  getUTCFullYear : Z; getUTCMonth : Z; getUTCDate : Z;
  getUTCHours : Z; getUTCMinutes : Z; getUTCSeconds : Z;
}.

(** [{ date, time }] *)
Definition dosDateTime (at_ : UtcDate) : Z * Z :=
  let year := Z.min 2107 (Z.max 1980 (getUTCFullYear at_)) in
  let date := js_bor (js_bor (js_shl (year - 1980) 9) (js_shl (getUTCMonth at_ + 1) 5)) (getUTCDate at_) in
  let time := js_bor (js_bor (js_shl (getUTCHours at_) 11) (js_shl (getUTCMinutes at_) 5))
                (getUTCSeconds at_ / 2) in
  (js_and date 0xffff, js_and time 0xffff).

(** ** Entry names *)
Definition BACKSLASH : Z := 92.

(** What [.] does not match. *)
Definition line_terminator (c : Z) : bool := (c =? 10) || (c =? 13) || (c =? 8232) || (c =? 8233).

(** [\.\.(?:\/|$)] at the start of the text *)
Definition dotdot_here (t : text) : bool :=
  match t with
  | a :: b :: rest => (a =? DOT) && (b =? DOT) && match rest with [] => true | c :: _ => c =? SLASH end
  | _ => false
  end.

(** [.*\/\.\.(?:\/|$)] *)
Fixpoint dotdot_after_slash (t : text) : bool :=
  match t with
  | [] => false
  | c :: t' =>
      ((c =? SLASH) && dotdot_here t') || (negb (line_terminator c) && dotdot_after_slash t')
  end.

Definition SAFE_NAME (t : text) : bool :=
  negb (bool_decide (head t = Some SLASH)) &&
  negb (dotdot_here t || dotdot_after_slash t) &&
  forallb (λ c, negb (c =? BACKSLASH) && negb (c =? 0)) t &&
  (1 <=? length t)%nat && (length t <=? 240)%nat.

(** ** The archive *)
Inductive ZipData := DText (t : text) | DBytes (bs : bytes).
Record ZipEntry := mkEntry { ze_name : text; ze_data : ZipData }.

Inductive ZipError := InvalidName (name : text) | DuplicateName (name : text).

Record Prepared := mkPrepared { pr_name : bytes; pr_data : bytes; pr_crc : Z }.

Definition data_bytes (d : ZipData) : bytes := match d with DText t => encode t | DBytes bs => bs end.

(** [entries.map(...)] with the names seen so far. *)
Fixpoint prepare (entries : list ZipEntry) (seen : list text) : ZipError + list Prepared :=
  match entries with
  | [] => inr []
  | e :: entries' =>
      if negb (SAFE_NAME (ze_name e)) then inl (InvalidName (ze_name e))
      else if bool_decide (ze_name e ∈ seen) then inl (DuplicateName (ze_name e))
      else
        match prepare entries' (ze_name e :: seen) with
        | inl err => inl err
        | inr rest =>
            let data := data_bytes (ze_data e) in
            inr (mkPrepared (encode (ze_name e)) data (crc32 data) :: rest)
        end
  end.

(** [view.setUint16(p, v, true)] and [view.setUint32(p, v >>> 0, true)] *)
Definition u16 (v : Z) : bytes := [v mod 256; (v / 256) mod 256].
Definition u32 (v : Z) : bytes :=
  let v := to_uint32 v in [v mod 256; (v / 256) mod 256; (v / 65536) mod 256; (v / 16777216) mod 256].

Definition len (bs : bytes) : Z := Z.of_nat (length bs).

Definition local_header (date time : Z) (e : Prepared) : bytes :=
  u32 0x04034b50 ++ u16 20 ++ u16 0x0800 ++ u16 0 ++ u16 time ++ u16 date ++ u32 (pr_crc e) ++
  u32 (len (pr_data e)) ++ u32 (len (pr_data e)) ++ u16 (len (pr_name e)) ++ u16 0 ++
  pr_name e ++ pr_data e.

Definition central_header (date time : Z) (e : Prepared) (offset : Z) : bytes :=
  u32 0x02014b50 ++ u16 20 ++ u16 20 ++ u16 0x0800 ++ u16 0 ++ u16 time ++ u16 date ++
  u32 (pr_crc e) ++ u32 (len (pr_data e)) ++ u32 (len (pr_data e)) ++ u16 (len (pr_name e)) ++
  u16 0 ++ u16 0 ++ u16 0 ++ u16 0 ++ u32 0 ++ u32 offset ++ pr_name e.

Definition end_record (count centralLength centralStart : Z) : bytes :=
  u32 0x06054b50 ++ u16 0 ++ u16 0 ++ u16 count ++ u16 count ++ u32 centralLength ++
  u32 centralStart ++ u16 0.

(** The two loops: local headers with their offsets, then the central directory. *)
Fixpoint write_locals (date time p : Z) (es : list Prepared) : bytes * list Z :=
  match es with
  | [] => ([], [])
  | e :: es' =>
      let h := local_header date time e in
      let '(rest, offsets) := write_locals date time (p + len h) es' in
      (h ++ rest, p :: offsets)
  end.

Fixpoint write_central (date time : Z) (es : list Prepared) (offsets : list Z) : bytes :=
  match es, offsets with
  | e :: es', o :: offsets' => central_header date time e o ++ write_central date time es' offsets'
  | _, _ => []
  end.

(** The allocated size of [out]. *)
Definition archive_size (es : list Prepared) : Z :=
  foldl (λ n e, n + 30 + len (pr_name e) + len (pr_data e)) 0 es +
  foldl (λ n e, n + 46 + len (pr_name e)) 0 es + 22.

Definition zipStore (entries : list ZipEntry) (at_ : UtcDate) : ZipError + bytes :=
  let '(date, time) := dosDateTime at_ in
  match prepare entries [] with
  | inl err => inl err
  | inr prepared =>
      let '(locals, offsets) := write_locals date time 0 prepared in
      let central := write_central date time prepared offsets in
      inr (locals ++ central ++
           end_record (Z.of_nat (length prepared)) (len central) (len locals))
  end.
