(* ===== verification/ZipSpec.v ===== *)
(** * The ZIP writer: a reader that gets the entries back, the CRC and the name rules

    [zip_read] is an independent reader of stored archives: it finds the end record, walks the
    central directory, follows each offset to its local header and checks every CRC. *)

From S2P Require Import Prelude JsText Zip.
Local Open Scope Z_scope.

(** ** The CRC, bit by bit *)
Definition POLY : Z := 0xedb88320.

Definition lfsr (c : Z) : Z := Z.lxor (if Z.testbit c 0 then POLY else 0) (Z.shiftr c 1).

(** The textbook CRC: eight shifts of the register for each byte. *)
Definition crc32_ref (bs : bytes) : Z :=
  Z.lxor (foldl (λ c b, Nat.iter 8 lfsr (Z.lxor c b)) 0xffffffff bs) 0xffffffff.

Lemma lfsr_lxor a b : lfsr (Z.lxor a b) = Z.lxor (lfsr a) (lfsr b).
Proof.
  unfold lfsr. rewrite Z.lxor_spec, Z.shiftr_lxor. apply Z.bits_inj'. intros i _.
  rewrite !Z.lxor_spec. destruct (Z.testbit a 0), (Z.testbit b 0); simpl;
    rewrite ?Z.bits_0; destruct (Z.testbit POLY i), (Z.testbit (Z.shiftr a 1) i), (Z.testbit (Z.shiftr b 1) i);
    done.
Qed.

Lemma iter_lfsr_lxor n a b :
  Nat.iter n lfsr (Z.lxor a b) = Z.lxor (Nat.iter n lfsr a) (Nat.iter n lfsr b).
Proof. induction n as [|n IH]; [done|]. simpl. by rewrite IH, lfsr_lxor. Qed.

(** Shifting out zero bits never meets the polynomial. *)
Lemma iter_lfsr_shiftl n k a : (n ≤ k)%nat → Nat.iter n lfsr (Z.shiftl a (Z.of_nat k)) = Z.shiftl a (Z.of_nat (k - n)).
Proof.
  induction n as [|n IH]; intros Hn; simpl; [by rewrite Nat.sub_0_r|].
  rewrite IH by lia. unfold lfsr.
  rewrite Z.shiftl_spec_low by lia. rewrite Z.lxor_0_l, Z.shiftr_shiftl_l by lia. f_equal. lia.
Qed.

Lemma split_low_byte c : c = Z.lxor (Z.shiftl (Z.shiftr c 8) 8) (Z.land c 255).
Proof.
  apply Z.bits_inj'. intros i Hi. rewrite Z.lxor_spec.
  change 255 with (Z.ones 8). destruct (decide (i < 8)).
  - rewrite Z.shiftl_spec_low, Z.land_spec, Z.ones_spec_low by lia. by rewrite andb_true_r, xorb_false_l.
  - rewrite Z.shiftl_spec_high, Z.shiftr_spec, Z.land_spec, Z.ones_spec_high by lia.
    rewrite andb_false_r, xorb_false_r. f_equal. lia.
Qed.

Lemma iter8_lfsr c : Nat.iter 8 lfsr c = Z.lxor (Nat.iter 8 lfsr (Z.land c 255)) (Z.shiftr c 8).
Proof.
  rewrite (split_low_byte c) at 1. rewrite iter_lfsr_lxor, Z.lxor_comm. f_equal.
  change 8 with (Z.of_nat 8) at 2. by rewrite iter_lfsr_shiftl, Z.shiftl_0_r by lia.
Qed.

Lemma lfsr_range c : 0 ≤ c < 2 ^ 32 → 0 ≤ lfsr c < 2 ^ 32.
Proof.
  intros Hc. apply lxor_range; [done|by case_match|].
  rewrite Z.shiftr_div_pow2 by done. change (2 ^ 1) with 2.
  split; [apply Z.div_pos; lia|apply Z.div_lt_upper_bound; lia].
Qed.

Lemma iter_lfsr_range n c : 0 ≤ c < 2 ^ 32 → 0 ≤ Nat.iter n lfsr c < 2 ^ 32.
Proof. intros Hc. induction n; simpl; [done|]. by apply lfsr_range. Qed.

Lemma CRC_TABLE_lookup n : 0 ≤ n < 256 → CRC_TABLE !!! Z.to_nat n = Nat.iter 8 lfsr n.
Proof.
  intros Hn.
  assert (Forall (λ n, CRC_TABLE !!! n = Nat.iter 8 lfsr (Z.of_nat n)) (seq 0 256)) as Hall.
  { apply (bool_decide_unpack _). vm_compute. exact I. }
  rewrite Forall_forall in Hall. rewrite Hall by (apply elem_of_seq; lia). f_equal. lia.
Qed.

Lemma to_int32_small v : 0 ≤ v < 2 ^ 31 → to_int32 v = v.
Proof.
  intros Hv. unfold to_int32. rewrite to_uint32_id by lia. by destruct (Z.ltb_spec v (2 ^ 31)); [|lia].
Qed.

Lemma land_uint32_byte c : Z.land (to_uint32 c) 255 = Z.land c 255.
Proof.
  change 255 with (Z.ones 8). rewrite !Z.land_ones by done. unfold to_uint32.
  apply Z.mod_mod_divide. by exists (2 ^ 24).
Qed.

Lemma js_and_byte c : js_and c 255 = Z.land c 255.
Proof.
  unfold js_and. rewrite (to_uint32_id 255), land_uint32_byte by done. apply to_int32_small.
  change 255 with (Z.ones 8). rewrite Z.land_ones by done.
  pose proof (Z.mod_pos_bound c (2 ^ 8) ltac:(done)). lia.
Qed.

(** One table step is eight register shifts. *)
Lemma crc32_byte_ref c b :
  0 ≤ b < 256 → to_uint32 (crc32_byte c b) = Nat.iter 8 lfsr (Z.lxor (to_uint32 c) b).
Proof.
  intros Hb. unfold crc32_byte. rewrite js_xor_uint, js_and_byte.
  assert (Hx : Z.land (js_xor c b) 255 = Z.land (Z.lxor (to_uint32 c) b) 255).
  { rewrite <-land_uint32_byte, js_xor_uint, (to_uint32_id b) by lia. done. }
  assert (Hs : Z.shiftr (Z.lxor (to_uint32 c) b) 8 = js_shru c 8).
  { rewrite Z.shiftr_lxor. unfold js_shru. replace (Z.shiftr b 8) with 0; [apply Z.lxor_0_r|].
    symmetry. rewrite Z.shiftr_div_pow2 by done. by apply Z.div_small. }
  assert (Hl : 0 ≤ Z.land (Z.lxor (to_uint32 c) b) 255 < 256).
  { change 255 with (Z.ones 8). rewrite Z.land_ones by done. by apply Z.mod_pos_bound. }
  rewrite Hx, CRC_TABLE_lookup, (iter8_lfsr (Z.lxor _ _)), Hs by done. f_equal.
  - apply to_uint32_id, iter_lfsr_range. lia.
  - apply to_uint32_id. unfold js_shru. rewrite Z.shiftr_div_pow2 by done.
    pose proof (to_uint32_range c). split; [apply Z.div_pos; lia|].
    apply Z.div_lt_upper_bound; [done|]. change (2 ^ 8 * 2 ^ 32) with (2 ^ 40). lia.
Qed.

Definition is_bytes (bs : bytes) : Prop := Forall (λ b, 0 ≤ b < 256) bs.

Lemma crc32_fold_ref bs c :
  is_bytes bs →
  to_uint32 (foldl crc32_byte c bs) = foldl (λ c b, Nat.iter 8 lfsr (Z.lxor c b)) (to_uint32 c) bs.
Proof.
  intros Hbs. revert c. induction Hbs as [|b bs Hb Hbs IH]; intros c; [done|].
  cbn [foldl]. by rewrite IH, crc32_byte_ref.
Qed.

(** The table-driven CRC computes the reflected CRC-32 of every byte string, bit for bit. *)
Theorem crc32_bitwise (bs : bytes) : is_bytes bs → crc32 bs = crc32_ref bs.
Proof.
  intros Hbs. unfold crc32, crc32_ref. rewrite js_xor_uint, crc32_fold_ref by done. done.
Qed.

Lemma crc32_bitwise_witness :
  crc32 (units "123456789") = 0xcbf43926 ∧ crc32_ref (units "123456789") = 0xcbf43926.
Proof.
  split; [by vm_compute|]. rewrite <-crc32_bitwise; [by vm_compute|].
  apply (bool_decide_unpack _). by vm_compute.
Defined.

(** ** Reading an archive back *)
Definition parser (A : Type) : Type := bytes → option (A * bytes).

Definition p_bind {A B} (p : parser A) (k : A → parser B) : parser B :=
  λ bs, '(a, bs') ← p bs; k a bs'.
Definition p_ret {A} (a : A) : parser A := λ bs, Some (a, bs).

Declare Scope parser_scope.
Delimit Scope parser_scope with parser.
Notation "x <- p ;; k" := (p_bind p (λ x, k)) (at level 100, p at next level, right associativity) : parser_scope.
Local Open Scope parser_scope.

Definition get16 : parser Z := λ bs,
  match bs with a :: b :: bs' => Some (a + 256 * b, bs') | _ => None end.
Definition get32 : parser Z := lo <- get16;; hi <- get16;; p_ret (lo + 65536 * hi).
Definition get_bytes (n : Z) : parser bytes := λ bs,
  if n <=? len bs then Some (take (Z.to_nat n) bs, drop (Z.to_nat n) bs) else None.
Definition expect (ok : bool) : parser unit := λ bs, if ok then Some (tt, bs) else None.

(** A local header with its name and data. *)
Definition get_local : parser Prepared :=
  sig <- get32;; _ <- expect (sig =? 0x04034b50);;
  _ <- get16;; flags <- get16;; method <- get16;; _ <- get16;; _ <- get16;;
  _ <- expect ((flags =? 0x0800) && (method =? 0));;
  crc <- get32;; csize <- get32;; usize <- get32;; nlen <- get16;; xlen <- get16;;
  _ <- expect (csize =? usize);;
  name <- get_bytes nlen;; _ <- get_bytes xlen;; data <- get_bytes csize;;
  p_ret (mkPrepared name data crc).

(** A central header: the CRC, the size, the local header's offset and the name. *)
Definition get_central : parser (Z * Z * Z * bytes) :=
  sig <- get32;; _ <- expect (sig =? 0x02014b50);;
  _ <- get16;; _ <- get16;; _ <- get16;; method <- get16;; _ <- get16;; _ <- get16;;
  _ <- expect (method =? 0);;
  crc <- get32;; csize <- get32;; usize <- get32;;
  nlen <- get16;; xlen <- get16;; clen <- get16;; _ <- get16;; _ <- get16;; _ <- get32;; offset <- get32;;
  _ <- expect (csize =? usize);;
  name <- get_bytes nlen;; _ <- get_bytes xlen;; _ <- get_bytes clen;;
  p_ret (crc, csize, offset, name).

(** The end record: the count, the directory's length and its start. *)
Definition get_end : parser (Z * Z * Z) :=
  sig <- get32;; _ <- expect (sig =? 0x06054b50);; _ <- get16;; _ <- get16;;
  count <- get16;; total <- get16;; _ <- expect (count =? total);;
  length_ <- get32;; start <- get32;; clen <- get16;; _ <- expect (clen =? 0);;
  p_ret (count, length_, start).

(** One entry: the central header must agree with the local one, and the CRC with the data. *)
Definition read_entry (out : bytes) (c : Z * Z * Z * bytes) : option (bytes * bytes) :=
  let '(crc, csize, offset, name) := c in
  '(l, _) ← get_local (drop (Z.to_nat offset) out);
  if bool_decide (pr_name l = name) && (len (pr_data l) =? csize) && (pr_crc l =? crc) &&
     (crc32 (pr_data l) =? crc)
  then Some (name, pr_data l) else None.

Fixpoint read_entries (out : bytes) (n : nat) : parser (list (bytes * bytes)) :=
  match n with
  | O => p_ret []
  | S n' =>
      c <- get_central;;
      match read_entry out c with
      | Some e => rest <- read_entries out n';; p_ret (e :: rest)
      | None => λ _, None
      end
  end.

Definition zip_read (out : bytes) : option (list (bytes * bytes)) :=
  '((count, length_, start), _) ← get_end (drop (length out - 22) out);
  '(entries, rest) ← read_entries out (Z.to_nat count) (take (Z.to_nat length_) (drop (Z.to_nat start) out));
  if bool_decide (rest = []) then Some entries else None.

Lemma get16_u16 v bs : 0 ≤ v < 65536 → get16 (u16 v ++ bs) = Some (v, bs).
Proof.
  intros Hv. unfold u16, get16. cbn [app]. do 2 f_equal.
  rewrite (Z.mod_small (v / 256)); [pose proof (Z.div_mod v 256); lia|].
  split; [apply Z.div_pos; lia|apply Z.div_lt_upper_bound; lia].
Qed.

Lemma u32_u16 v : 0 ≤ v < 2 ^ 32 → u32 v = u16 (v mod 65536) ++ u16 (v / 65536).
Proof.
  intros Hv. unfold u32, u16. rewrite to_uint32_id by done. cbn [app].
  rewrite Z.div_div by done. change (65536 * 256) with 16777216.
  f_equal; [|f_equal].
  - symmetry. apply Z.mod_mod_divide. by exists 256.
  - change 65536 with (256 * 256) at 1. rewrite Z.rem_mul_r by done.
    rewrite Z.mul_comm, Z.div_add by done. rewrite (Z.div_small (v mod 256)) by (by apply Z.mod_pos_bound).
    rewrite Z.add_0_l. symmetry. by apply Z.mod_mod.
Qed.

Lemma get32_u32 v bs : 0 ≤ v < 2 ^ 32 → get32 (u32 v ++ bs) = Some (v, bs).
Proof.
  intros Hv. rewrite u32_u16, <-app_assoc by done. unfold get32, p_bind.
  pose proof (Z.mod_pos_bound v 65536 ltac:(done)).
  rewrite get16_u16 by done. cbn [mbind option_bind].
  rewrite get16_u16; [|split; [apply Z.div_pos; lia|apply Z.div_lt_upper_bound; lia]].
  cbn [mbind option_bind]. unfold p_ret. do 2 f_equal. pose proof (Z.div_mod v 65536). lia.
Qed.

Lemma get_bytes_app b bs : get_bytes (len b) (b ++ bs) = Some (b, bs).
Proof.
  unfold get_bytes, len. rewrite length_app. destruct (Z.leb_spec (Z.of_nat (length b)) (Z.of_nat (length b + length bs))); [|lia].
  by rewrite Nat2Z.id, take_app_length, drop_app_length.
Qed.

Lemma bind_get16 {A} v (k : Z → parser A) bs : 0 ≤ v < 65536 → p_bind get16 k (u16 v ++ bs) = k v bs.
Proof. intros Hv. unfold p_bind. by rewrite get16_u16. Qed.
Lemma bind_get32 {A} v (k : Z → parser A) bs : 0 ≤ v < 2 ^ 32 → p_bind get32 k (u32 v ++ bs) = k v bs.
Proof. intros Hv. unfold p_bind. by rewrite get32_u32. Qed.
Lemma bind_get_bytes {A} b (k : bytes → parser A) bs : p_bind (get_bytes (len b)) k (b ++ bs) = k b bs.
Proof. unfold p_bind. by rewrite get_bytes_app. Qed.
Lemma bind_get_none {A} (k : bytes → parser A) bs : p_bind (get_bytes 0) k bs = k [] bs.
Proof. change 0 with (len []). by rewrite <-(bind_get_bytes [] k bs). Qed.
Lemma bind_expect {A} (b : bool) (k : unit → parser A) bs : b = true → p_bind (expect b) k bs = k tt bs.
Proof. by intros ->. Qed.

Ltac parse_step :=
  first
    [ rewrite bind_get16 by lia | rewrite bind_get32 by lia
    | rewrite bind_get_bytes | rewrite bind_get_none
    | rewrite bind_expect by (by rewrite ?andb_true_iff, ?Z.eqb_eq) ].

(** ** What the writer lays out *)
#[global] Arguments u16 : simpl never.
#[global] Arguments u32 : simpl never.
#[global] Arguments local_header : simpl never.
#[global] Arguments central_header : simpl never.
#[global] Arguments end_record : simpl never.

Section layout.
Context (date time : Z) (Hdate : 0 ≤ date < 65536) (Htime : 0 ≤ time < 65536).

Definition fits (e : Prepared) : Prop :=
  len (pr_name e) < 65536 ∧ len (pr_data e) < 2 ^ 32 ∧ pr_crc e = crc32 (pr_data e).

Lemma len_nonneg b : 0 ≤ len b.
Proof. unfold len. lia. Qed.

Lemma len_app a b : len (a ++ b) = len a + len b.
Proof. unfold len. rewrite length_app. lia. Qed.

Lemma len_u16 v : len (u16 v) = 2.
Proof. done. Qed.
Lemma len_u32 v : len (u32 v) = 4.
Proof. done. Qed.

Lemma len_local e : len (local_header date time e) = 30 + len (pr_name e) + len (pr_data e).
Proof. unfold local_header. rewrite !len_app, !len_u16, !len_u32. lia. Qed.

Lemma len_central e o : len (central_header date time e o) = 46 + len (pr_name e).
Proof. unfold central_header. rewrite !len_app, !len_u16, !len_u32. lia. Qed.

Lemma crc32_range bs : 0 ≤ crc32 bs < 2 ^ 32.
Proof. apply to_uint32_range. Qed.

Lemma get_local_header e rest :
  fits e → get_local (local_header date time e ++ rest) = Some (e, rest).
Proof using Hdate Htime.
  intros (Hn & Hd & Hc). unfold get_local, local_header.
  pose proof (len_nonneg (pr_name e)). pose proof (len_nonneg (pr_data e)).
  pose proof (crc32_range (pr_data e)) as Hr. rewrite <-Hc in Hr.
  rewrite <-!app_assoc. repeat parse_step. unfold p_ret. by destruct e.
Qed.

Lemma get_central_header e o rest :
  fits e → 0 ≤ o < 2 ^ 32 →
  get_central (central_header date time e o ++ rest) = Some ((pr_crc e, len (pr_data e), o, pr_name e), rest).
Proof using Hdate Htime.
  intros (Hn & Hd & Hc) Ho. unfold get_central, central_header.
  pose proof (len_nonneg (pr_name e)). pose proof (len_nonneg (pr_data e)).
  pose proof (crc32_range (pr_data e)) as Hr. rewrite <-Hc in Hr.
  rewrite <-!app_assoc. repeat parse_step. done.
Qed.

#[local] Opaque local_header central_header.

(** Each offset is where its local header was written. *)
Definition locals_size (es : list Prepared) : Z :=
  Zsum ((λ e, 30 + len (pr_name e) + len (pr_data e)) <$> es).
Definition central_size (es : list Prepared) : Z := Zsum ((λ e, 46 + len (pr_name e)) <$> es).

Lemma locals_size_nonneg es : 0 ≤ locals_size es.
Proof.
  unfold locals_size. induction es as [|e es IH]; [done|]. rewrite fmap_cons, Zsum_cons.
  pose proof (len_nonneg (pr_name e)). pose proof (len_nonneg (pr_data e)). lia.
Qed.

Definition at_offset (out : bytes) (e : Prepared) (o : Z) : Prop :=
  0 ≤ o ∧ ∃ rest, drop (Z.to_nat o) out = local_header date time e ++ rest.

Lemma write_locals_spec es p pre locals offsets rest :
  write_locals date time p es = (locals, offsets) → p = len pre →
  len locals = locals_size es ∧ length offsets = length es ∧
  Forall (λ o, o < p + locals_size es) offsets ∧
  Forall2 (at_offset (pre ++ locals ++ rest)) es offsets.
Proof.
  revert p pre locals offsets rest. induction es as [|e es IH]; intros p pre locals offsets rest Hw ->; simpl in Hw.
  { apply pair_equal_spec in Hw as [<- <-]. split_and!; [done|done|by apply List.Forall_nil|by apply Forall2_nil]. }
  destruct (write_locals date time _ es) as [locals' offsets'] eqn:He. apply pair_equal_spec in Hw as [<- <-].
  destruct (IH _ (pre ++ local_header date time e) _ _ rest He) as (Hl & Hlen & Hlt & Hat).
  { by rewrite len_app. }
  assert (Hsz : locals_size (e :: es) = 30 + len (pr_name e) + len (pr_data e) + locals_size es) by done.
  pose proof (locals_size_nonneg es). pose proof (len_nonneg (pr_name e)). pose proof (len_nonneg (pr_data e)).
  rewrite len_local in Hlt. split_and!.
  - rewrite len_app, len_local, Hl. lia.
  - cbn [length]. by rewrite Hlen.
  - apply List.Forall_cons; [lia|]. eapply Forall_impl; [done|]. simpl. lia.
  - rewrite <-!app_assoc in Hat |- *. apply List.Forall2_cons; [|done].
    split; [apply len_nonneg|]. exists (locals' ++ rest). unfold len. by rewrite Nat2Z.id, drop_app_length.
Qed.

Lemma write_central_len es offsets :
  length offsets = length es → len (write_central date time es offsets) = central_size es.
Proof.
  revert offsets. induction es as [|e es IH]; intros [|o offsets] Hl; simplify_eq/=; [done|].
  rewrite len_app, len_central, IH by done. done.
Qed.

(** Walking the directory gives every entry. *)
Lemma read_entries_central out es offsets :
  Forall fits es → Forall (λ o, o < 2 ^ 32) offsets → Forall2 (at_offset out) es offsets →
  read_entries out (length es) (write_central date time es offsets) =
  Some ((λ e, (pr_name e, pr_data e)) <$> es, []).
Proof using Hdate Htime.
  intros Hf Ho Hat. induction Hat as [|e o es offsets [Hp (rest & Hr)] Hat IH]; [done|].
  apply Forall_cons in Hf as [Hfe Hf], Ho as [Hoe Ho]. cbn [length read_entries write_central].
  unfold p_bind at 1. rewrite get_central_header by done. cbn [mbind option_bind].
  unfold read_entry. rewrite Hr, get_local_header by done. cbn [mbind option_bind].
  destruct Hfe as (_ & _ & Hc). rewrite <-Hc. rewrite bool_decide_true, !Z.eqb_refl by done. cbn [andb].
  unfold p_bind. rewrite IH by done. done.
Qed.

(** The end record is found and read. *)
Lemma get_end_record pre count cl cs :
  0 ≤ count < 65536 → 0 ≤ cl < 2 ^ 32 → 0 ≤ cs < 2 ^ 32 →
  get_end (drop (length (pre ++ end_record count cl cs) - 22) (pre ++ end_record count cl cs)) =
  Some ((count, cl, cs), []).
Proof.
  intros Hc Hl Hs.
  replace (length (pre ++ end_record count cl cs) - 22)%nat with (length pre) by (rewrite length_app; simpl; lia).
  rewrite drop_app_length. unfold get_end, end_record.
  rewrite <-(app_nil_r (u16 0)) at 3. repeat parse_step. done.
Qed.
End layout.

(** ** Accepted entries *)
Definition safe_name (t : text) : Prop := SAFE_NAME t = true.

Lemma length_utf8_point c : (length (utf8_point c) ≤ 4)%nat.
Proof. unfold utf8_point. repeat case_match; simpl; lia. Qed.

Lemma length_utf8_unit c : c < 65536 → (length (utf8_point c) ≤ 3)%nat.
Proof. intros Hc. unfold utf8_point. repeat case_match; simpl; lia. Qed.

Definition unit16 (c : Z) : Prop := 0 ≤ c < 65536.

(** UTF-8 needs at most three bytes a code unit. *)
Lemma encode_bound t : Forall unit16 t → (length (encode t) ≤ 3 * length t)%nat.
Proof.
  remember (length t) as n eqn:Hn. assert (Hle : (length t ≤ n)%nat) by lia.
  assert (∀ t, (length t ≤ n)%nat → Forall unit16 t → (length (encode t) ≤ 3 * length t)%nat) as Hall.
  { clear. induction n as [|n IH]; intros [|c t] Hle Ht; cbn [length] in Hle; [simpl; lia|lia|simpl; lia|].
    apply Forall_cons in Ht as [Hc Ht]. unfold unit16 in Hc.
    pose proof (length_utf8_unit 65533 ltac:(done)) as Hbad. pose proof (length_utf8_unit c ltac:(lia)) as Hu.
    cbn [encode]. destruct (is_high c).
    - destruct t as [|d t]; [cbn [length]; lia|]. cbn [length] in Hle.
      destruct (is_low d).
      + apply Forall_cons in Ht as [_ Ht]. rewrite length_app. pose proof (IH t ltac:(lia) Ht).
        pose proof (length_utf8_point (65536 + (c - 55296) * 1024 + (d - 56320))). cbn [length]. lia.
      + rewrite length_app. pose proof (IH (d :: t) ltac:(cbn [length]; lia) Ht). cbn [length] in *. lia.
    - destruct (is_low c); rewrite length_app; pose proof (IH t ltac:(lia) Ht); cbn [length]; lia. }
  intros Ht. subst n. by apply Hall.
Qed.

Lemma SAFE_NAME_length t : SAFE_NAME t = true → (1 ≤ length t ≤ 240)%nat.
Proof.
  unfold SAFE_NAME. rewrite !andb_true_iff, !Nat.leb_le. lia.
Qed.

(** ** [prepare]: checks in entry order, the first failure wins *)
Definition prepared_of (e : ZipEntry) : Prepared :=
  mkPrepared (encode (ze_name e)) (data_bytes (ze_data e)) (crc32 (data_bytes (ze_data e))).

Lemma prepare_ok entries seen ps :
  prepare entries seen = inr ps →
  ps = prepared_of <$> entries ∧ Forall (λ e, SAFE_NAME (ze_name e) = true) entries ∧
  NoDup (ze_name <$> entries) ∧ Forall (λ n, n ∉ seen) (ze_name <$> entries).
Proof.
  revert seen ps. induction entries as [|e entries IH]; intros seen ps Hp; cbn [prepare] in Hp.
  { simplify_eq. split_and!; [done|by apply List.Forall_nil|by apply NoDup_nil_2|by apply List.Forall_nil]. }
  destruct (SAFE_NAME (ze_name e)) eqn:Hs; cbn [negb] in Hp; [|done].
  case_bool_decide as Hseen; [done|].
  destruct (prepare entries (ze_name e :: seen)) as [err|rest] eqn:Hrest; [done|].
  destruct (IH _ _ Hrest) as (-> & Hsafe & Hnd & Hfresh). simplify_eq. rewrite !fmap_cons.
  rewrite Forall_forall in Hfresh.
  assert (Hno : ze_name e ∉ ze_name <$> entries).
  { intros Hin. apply Hfresh in Hin. apply Hin. left. }
  split_and!; [done|by apply List.Forall_cons|by apply NoDup_cons|].
  apply List.Forall_cons; [done|]. apply Forall_forall. intros n Hn Hin. apply (Hfresh n Hn). by right.
Qed.

Lemma prepare_complete entries seen :
  Forall (λ e, SAFE_NAME (ze_name e) = true) entries → NoDup (ze_name <$> entries) →
  Forall (λ n, n ∉ seen) (ze_name <$> entries) → prepare entries seen = inr (prepared_of <$> entries).
Proof.
  revert seen. induction entries as [|e entries IH]; intros seen Hs Hnd Hf; [done|].
  rewrite fmap_cons in Hnd, Hf.
  apply Forall_cons in Hs as [Hse Hs], Hf as [Hfe Hf]. apply NoDup_cons in Hnd as [Hne Hnd].
  cbn [prepare]. rewrite Hse. cbn [negb]. rewrite bool_decide_false by done.
  rewrite IH; [done..|]. rewrite Forall_forall in Hf |- *. intros n Hn.
  rewrite elem_of_cons. intros [->|Hin]; [done|]. by apply (Hf n).
Qed.

(** The archive the writer returns for accepted entries. *)
Lemma zipStore_inr entries at_ out :
  zipStore entries at_ = inr out →
  prepare entries [] = inr (prepared_of <$> entries) ∧
  ∃ locals offsets, write_locals (dosDateTime at_).1 (dosDateTime at_).2 0 (prepared_of <$> entries) = (locals, offsets) ∧
    out = locals ++ write_central (dosDateTime at_).1 (dosDateTime at_).2 (prepared_of <$> entries) offsets ++
      end_record (Z.of_nat (length (prepared_of <$> entries)))
        (len (write_central (dosDateTime at_).1 (dosDateTime at_).2 (prepared_of <$> entries) offsets)) (len locals).
Proof.
  unfold zipStore. destruct (dosDateTime at_) as [date time]. cbn [fst snd].
  destruct (prepare entries []) as [err|ps] eqn:Hp; [done|].
  destruct (prepare_ok _ _ _ Hp) as (-> & _).
  destruct (write_locals date time 0 (prepared_of <$> entries)) as [locals offsets] eqn:Hw.
  intros [= <-]. split; [done|]. by exists locals, offsets.
Qed.

Lemma land_u16_range v : 0 ≤ js_and v 0xffff < 65536.
Proof.
  assert (0 ≤ Z.land (to_uint32 v) 65535 < 65536).
  { change 65535 with (Z.ones 16). rewrite Z.land_ones by done. by apply Z.mod_pos_bound. }
  unfold js_and. rewrite (to_uint32_id 65535), to_int32_small by lia. done.
Qed.

Lemma foldl_size {A} (f : A → Z) (l : list A) n : foldl (λ n e, n + f e) n l = n + Zsum (f <$> l).
Proof. revert n. induction l as [|e l IH]; intros n; cbn [foldl]; [rewrite Z.add_comm; done|]. rewrite IH, fmap_cons, Zsum_cons. lia. Qed.

Lemma archive_size_eq es : archive_size es = locals_size es + central_size es + 22.
Proof.
  unfold archive_size, locals_size, central_size.
  assert (foldl (λ n e, n + 30 + len (pr_name e) + len (pr_data e)) 0 es =
          foldl (λ n e, n + (30 + len (pr_name e) + len (pr_data e))) 0 es) as ->.
  { generalize 0. induction es as [|e es IH]; intros n; [done|]. cbn [foldl]. rewrite IH. f_equal. lia. }
  assert (foldl (λ n e, n + 46 + len (pr_name e)) 0 es = foldl (λ n e, n + (46 + len (pr_name e))) 0 es) as ->.
  { generalize 0. induction es as [|e es IH]; intros n; [done|]. cbn [foldl]. rewrite IH. f_equal. lia. }
  rewrite !foldl_size. lia.
Qed.

Lemma central_size_nonneg es : 0 ≤ central_size es.
Proof.
  unfold central_size. induction es as [|e es IH]; [done|]. rewrite fmap_cons, Zsum_cons.
  pose proof (len_nonneg (pr_name e)). lia.
Qed.

Lemma locals_size_data e es : e ∈ es → len (pr_data e) ≤ locals_size es.
Proof.
  unfold locals_size. induction 1 as [e es|e e' es He IH]; rewrite fmap_cons, Zsum_cons;
    pose proof (locals_size_nonneg es) as Hn; unfold locals_size in Hn.
  - pose proof (len_nonneg (pr_name e)). lia.
  - pose proof (len_nonneg (pr_name e')). pose proof (len_nonneg (pr_data e')). lia.
Qed.

Lemma prepared_fits entries :
  Forall (λ e, Forall unit16 (ze_name e)) entries → Forall (λ e, SAFE_NAME (ze_name e) = true) entries →
  locals_size (prepared_of <$> entries) < 2 ^ 32 → Forall fits (prepared_of <$> entries).
Proof.
  intros Hu Hs Hsize. apply Forall_forall. intros p Hp.
  pose proof (locals_size_data _ _ Hp) as Hdata. split_and!; [|lia|].
  - apply list_elem_of_fmap in Hp as (e & -> & He). rewrite Forall_forall in Hu, Hs.
    pose proof (encode_bound _ (Hu e He)). pose proof (SAFE_NAME_length _ (Hs e He)).
    unfold len, prepared_of. cbn [pr_name]. lia.
  - by apply list_elem_of_fmap in Hp as (e & -> & _).
Qed.

(** The writes fill the allocated array exactly: no byte is left zero and none falls outside. *)
Theorem zipStore_fills_array (entries : list ZipEntry) (at_ : UtcDate) (out : bytes) :
  zipStore entries at_ = inr out → len out = archive_size (prepared_of <$> entries).
Proof.
  intros (Hp & locals & offsets & Hw & ->)%zipStore_inr.
  destruct (write_locals_spec _ _ _ _ [] _ _ [] Hw ltac:(done)) as (Hl & Hlen & _).
  rewrite archive_size_eq, !len_app, write_central_len, Hl by done.
  change (len (end_record _ _ _)) with 22. lia.
Qed.

(** C14. An archive of accepted entries reads back as exactly those entries, in order, through the
    central directory, its offsets and the CRCs. The bounds are the format's own: fewer than
    65536 entries and less than 4 GiB, since the writer has no ZIP64. *)
Theorem zipStore_reads_back (entries : list ZipEntry) (at_ : UtcDate) (out : bytes) :
  Forall (λ e, Forall unit16 (ze_name e)) entries →
  zipStore entries at_ = inr out → Z.of_nat (length entries) < 65536 → len out < 2 ^ 32 →
  zip_read out = Some ((λ e, (encode (ze_name e), data_bytes (ze_data e))) <$> entries).
Proof.
  intros Hu Hz Hcount Hsize. pose proof (zipStore_fills_array _ _ _ Hz) as Hfill.
  destruct (zipStore_inr _ _ _ Hz) as (Hp & locals & offsets & Hw & Hout).
  destruct (prepare_ok _ _ _ Hp) as (_ & Hsafe & _).
  set (es := prepared_of <$> entries) in *.
  assert (Hd : 0 ≤ (dosDateTime at_).1 < 65536) by apply land_u16_range.
  assert (Ht : 0 ≤ (dosDateTime at_).2 < 65536) by apply land_u16_range.
  rewrite Hfill, archive_size_eq in Hsize.
  pose proof (locals_size_nonneg es) as Hln. pose proof (central_size_nonneg es) as Hcn.
  destruct (write_locals_spec _ _ _ _ [] _ _
    (write_central (dosDateTime at_).1 (dosDateTime at_).2 es offsets ++
     end_record (Z.of_nat (length es)) (len (write_central (dosDateTime at_).1 (dosDateTime at_).2 es offsets)) (len locals))
    Hw ltac:(done)) as (Hl & Hlen & Hlt & Hat).
  cbn [app] in Hat. rewrite <-Hout in Hat.
  pose proof (write_central_len (dosDateTime at_).1 (dosDateTime at_).2 _ _ Hlen) as Hcl.
  set (central := write_central _ _ _ _) in *. unfold zip_read.
  assert (Hes : length es = length entries) by apply length_fmap.
  assert (Hend : get_end (drop (length out - 22) out) = Some ((Z.of_nat (length es), len central, len locals), [])).
  { rewrite Hout, !(app_assoc locals). apply get_end_record; lia. }
  rewrite Hend. cbn [mbind option_bind]. rewrite Nat2Z.id. unfold len. rewrite !Nat2Z.id.
  assert (take (length central) (drop (length locals) out) = central) as ->.
  { by rewrite Hout, drop_app_length, take_app_length. }
  unfold central. rewrite (read_entries_central _ _ Hd Ht); [| | |done].
  - cbn [mbind option_bind]. rewrite bool_decide_true by done. unfold es. by rewrite <-list_fmap_compose.
  - apply (prepared_fits entries); [done..|]. fold es. lia.
  - eapply Forall_impl; [done|]. simpl. lia.
Qed.

Definition at_noon : UtcDate := mkUtc 2026 0 31 12 30 59.
Definition two_entries : list ZipEntry :=
  [mkEntry (units "word/document.xml") (DText (units "<w/>")); mkEntry (233 :: units ".bin") (DBytes [1; 0; 255])].

Lemma zipStore_fills_array_witness :
  ∃ out, zipStore two_entries at_noon = inr out ∧ len out = archive_size (prepared_of <$> two_entries).
Proof.
  destruct (zipStore two_entries at_noon) as [err|out] eqn:Hz; [by vm_compute in Hz|].
  exists out. split; [done|]. exact (zipStore_fills_array _ _ _ Hz).
Defined.

Lemma zipStore_reads_back_witness :
  ∃ out, zipStore two_entries at_noon = inr out ∧
    zip_read out = Some [(units "word/document.xml", units "<w/>"); ([195; 169] ++ units ".bin", [1; 0; 255])].
Proof.
  destruct (zipStore two_entries at_noon) as [err|out] eqn:Hz; [by vm_compute in Hz|].
  exists out. split; [done|].
  refine (zipStore_reads_back _ _ _ _ Hz _ _).
  - apply (bool_decide_unpack _). by vm_compute.
  - done.
  - vm_compute in Hz. by injection Hz as <-.
Defined.

(** ** Errors *)

Definition fails_at (seen : list text) (pre : list ZipEntry) (e : ZipEntry) (err : ZipError) : Prop :=
  Forall (λ e, SAFE_NAME (ze_name e) = true) pre ∧ NoDup (ze_name <$> pre) ∧
  Forall (λ n, n ∉ seen) (ze_name <$> pre) ∧
  match err with
  | InvalidName n => n = ze_name e ∧ SAFE_NAME n = false
  | DuplicateName n => n = ze_name e ∧ SAFE_NAME n = true ∧ (n ∈ ze_name <$> pre ∨ n ∈ seen)
  end.

Lemma fails_at_cons seen x pre e err :
  fails_at seen (x :: pre) e err ↔
  SAFE_NAME (ze_name x) = true ∧ (ze_name x ∉ seen) ∧ fails_at (ze_name x :: seen) pre e err.
Proof.
  unfold fails_at. rewrite !fmap_cons, !Forall_cons, NoDup_cons.
  assert (Hf : Forall (λ n, n ∉ ze_name x :: seen) (ze_name <$> pre) ↔
               (ze_name x ∉ ze_name <$> pre) ∧ Forall (λ n, n ∉ seen) (ze_name <$> pre)).
  { rewrite !Forall_forall. setoid_rewrite not_elem_of_cons. split.
    - intros H. split; [intros Hin; by destruct (H _ Hin)|]. intros n Hn. by destruct (H n Hn).
    - intros [Hx H] n Hn. split; [intros ->; by apply Hx|by apply H]. }
  rewrite Hf. destruct err; [naive_solver|]. rewrite !elem_of_cons. naive_solver.
Qed.

Lemma prepare_fails_at seen pre e post err :
  fails_at seen pre e err → prepare (pre ++ e :: post) seen = inl err.
Proof.
  revert seen. induction pre as [|x pre IH]; intros seen Hf; cbn [app prepare].
  - destruct Hf as (_ & _ & _ & Hf). destruct err as [n|n]; [by destruct Hf as [-> ->]|].
    destruct Hf as (-> & -> & [Hin|Hin]); [by apply elem_of_nil in Hin|].
    cbn [negb]. by rewrite bool_decide_true.
  - apply fails_at_cons in Hf as (-> & Hx & Hf). cbn [negb]. rewrite bool_decide_false by done.
    by rewrite IH.
Qed.

Lemma prepare_inl entries seen err :
  prepare entries seen = inl err → ∃ pre e post, entries = pre ++ e :: post ∧ fails_at seen pre e err.
Proof.
  revert seen. induction entries as [|e entries IH]; intros seen Hp; cbn [prepare] in Hp; [done|].
  destruct (SAFE_NAME (ze_name e)) eqn:Hs; cbn [negb] in Hp.
  - case_bool_decide as Hseen.
    + simplify_eq. exists [], e, entries. split; [done|]. unfold fails_at.
      split_and!; [by apply List.Forall_nil|by apply NoDup_nil_2|by apply List.Forall_nil|done|done|by right].
    + destruct (prepare entries (ze_name e :: seen)) as [err'|rest] eqn:Hrest; [|done].
      assert (err' = err) as -> by congruence.
      destruct (IH _ Hrest) as (pre & e' & post & -> & Hf).
      exists (e :: pre), e', post. split; [done|]. by apply fails_at_cons.
  - simplify_eq. exists [], e, entries. split; [done|]. unfold fails_at.
    split_and!; [by apply List.Forall_nil|by apply NoDup_nil_2|by apply List.Forall_nil|done|done].
Qed.

(** [zipStore] throws exactly when an entry has a bad name or repeats an earlier one; it reports
    the first such entry, and a bad name before a duplicate. *)
Theorem zipStore_errors (entries : list ZipEntry) (at_ : UtcDate) (err : ZipError) :
  zipStore entries at_ = inl err ↔
  ∃ pre e post, entries = pre ++ e :: post ∧
    Forall (λ e, SAFE_NAME (ze_name e) = true) pre ∧ NoDup (ze_name <$> pre) ∧
    match err with
    | InvalidName n => n = ze_name e ∧ SAFE_NAME n = false
    | DuplicateName n => n = ze_name e ∧ SAFE_NAME n = true ∧ n ∈ ze_name <$> pre
    end.
Proof.
  assert (Hz : zipStore entries at_ = inl err ↔ prepare entries [] = inl err).
  { unfold zipStore. destruct (dosDateTime at_) as [date time].
    destruct (prepare entries []) as [err'|ps]; [naive_solver|].
    by destruct (write_locals date time 0 ps) as [locals offsets]. }
  rewrite Hz. split.
  - intros (pre & e & post & -> & Hs & Hnd & _ & He)%prepare_inl. exists pre, e, post.
    split_and!; [done..|]. destruct err; [done|]. by destruct He as (-> & ? & [?|[]%elem_of_nil]).
  - intros (pre & e & post & -> & Hs & Hnd & He). apply prepare_fails_at.
    split_and!; [done..| |].
    + apply Forall_forall. intros n _. apply not_elem_of_nil.
    + destruct err; [done|]. naive_solver.
Qed.

(** ** Entry names *)

(** The path's segments. *)
Fixpoint segments (t : text) : list text :=
  match t with
  | [] => [[]]
  | c :: t' =>
      if c =? SLASH then [] :: segments t'
      else match segments t' with [] => [[c]] | s :: ss => (c :: s) :: ss end
  end.

Definition DOTDOT : text := [DOT; DOT].

Lemma segments_nonempty t : ∃ s ss, segments t = s :: ss.
Proof.
  destruct t as [|c t]; simpl; [by eexists _, _|]. case_match; [by eexists _, _|].
  case_match; by eexists _, _.
Qed.

(** The first segment. *)
Lemma dotdot_here_segments t : dotdot_here t = true ↔ head (segments t) = Some DOTDOT.
Proof.
  unfold DOTDOT. destruct t as [|a [|b [|c t]]]; cbn [dotdot_here segments].
  - done.
  - by destruct (a =? SLASH).
  - destruct (Z.eqb_spec a SLASH) as [Ha|Ha], (Z.eqb_spec b SLASH) as [Hb|Hb];
      destruct (Z.eqb_spec a DOT), (Z.eqb_spec b DOT); subst; cbn; naive_solver.
  - destruct (segments_nonempty t) as (s & ss & ->).
    destruct (Z.eqb_spec a SLASH) as [Ha|Ha], (Z.eqb_spec b SLASH) as [Hb|Hb], (Z.eqb_spec c SLASH) as [Hc|Hc];
      destruct (Z.eqb_spec a DOT), (Z.eqb_spec b DOT); subst; cbn; naive_solver.
Qed.

Lemma dotdot_after_slash_segments t :
  Forall (λ c, line_terminator c = false) t →
  dotdot_after_slash t = true ↔ DOTDOT ∈ tail (segments t).
Proof.
  induction t as [|c t IH]; intros Ht; cbn [dotdot_after_slash segments].
  { simpl. by rewrite elem_of_nil. }
  apply Forall_cons in Ht as [Hc Ht]. rewrite Hc, orb_true_iff, !andb_true_iff, IH by done.
  cbn [negb]. destruct (segments_nonempty t) as (s & ss & Hs).
  pose proof (dotdot_here_segments t) as Hd. rewrite Hs in Hd |- *. cbn [head tail] in *.
  destruct (Z.eqb_spec c SLASH) as [->|Hn]; cbn [tail].
  - rewrite Hd, elem_of_cons. naive_solver.
  - naive_solver.
Qed.

(** A name without line terminators that passes the guard is a relative path with no [..]
    segment, no backslash, no NUL and at most 240 code units. *)
Theorem SAFE_NAME_sound (t : text) :
  SAFE_NAME t = true → Forall (λ c, line_terminator c = false) t →
  head t ≠ Some SLASH ∧ (DOTDOT ∉ segments t) ∧ (BACKSLASH ∉ t) ∧ (0 ∉ t) ∧ (1 ≤ length t ≤ 240)%nat.
Proof.
  intros Hs Ht. pose proof (SAFE_NAME_length _ Hs). unfold SAFE_NAME in Hs.
  rewrite !andb_true_iff, !negb_true_iff, orb_false_iff in Hs. destruct Hs as [[[[Hh [Hd Ha]] Hf] _] _].
  rewrite bool_decide_eq_false in Hh. rewrite forallb_forall in Hf.
  assert (Hno : ∀ c, c ∈ t → c ≠ BACKSLASH ∧ c ≠ 0).
  { intros c Hc%list_elem_of_In. apply Hf in Hc. rewrite andb_true_iff, !negb_true_iff, !Z.eqb_neq in Hc. done. }
  split_and!; [done| |by intros []%Hno|by intros []%Hno|lia..].
  pose proof (dotdot_here_segments t) as Hdh. pose proof (dotdot_after_slash_segments t Ht) as Hda.
  destruct (segments_nonempty t) as (s & ss & Hss). rewrite Hss in *. cbn [head tail] in *.
  rewrite elem_of_cons. intros [<-|Hin]; [by rewrite (proj2 Hdh) in Hd|by rewrite (proj2 Hda) in Ha].
Qed.

Lemma SAFE_NAME_sound_witness :
  let t := units "word/..x/document.xml" in SAFE_NAME t = true ∧ DOTDOT ∉ segments t.
Proof.
  intros t. split; [by vm_compute|].
  destruct (SAFE_NAME_sound t) as (_ & H & _); [by vm_compute|apply (bool_decide_unpack _); by vm_compute|done].
Defined.

(** A name with a newline slips past the [..] check: [.] does not cross the line terminator. *)
Definition newline_name : text := [97; LF] ++ units "/../b".

(** The guard accepts a path with a [..] segment when a line terminator precedes it, and the
    archive is written with it. *)
Theorem SAFE_NAME_newline :
  SAFE_NAME newline_name = true ∧ DOTDOT ∈ segments newline_name ∧
  ∃ out, zipStore [mkEntry newline_name (DText [])] at_noon = inr out ∧
         zip_read out = Some [(newline_name, [])].
Proof.
  split; [by vm_compute|]. split; [apply (bool_decide_unpack _); by vm_compute|].
  destruct (zipStore [mkEntry newline_name (DText [])] at_noon) as [err|out] eqn:Hz; [by vm_compute in Hz|].
  exists out. split; [done|]. vm_compute in Hz. injection Hz as <-. by vm_compute.
Qed.

(** ** Timestamps *)
Definition valid_utc (d : UtcDate) : Prop :=
  0 ≤ getUTCMonth d < 12 ∧ 1 ≤ getUTCDate d < 32 ∧ 0 ≤ getUTCHours d < 24 ∧ 0 ≤ getUTCMinutes d < 60 ∧
  0 ≤ getUTCSeconds d < 60.

(** The fields of the two words as a reader unpacks them: year, month, day; hour, minute, second. *)
Definition dos_decode (w : Z * Z) : (Z * Z * Z) * (Z * Z * Z) :=
  let '(date, time) := w in
  ((1980 + date / 512, (date / 32) mod 16, date mod 32), (time / 2048, (time / 32) mod 64, 2 * (time mod 32))).

Lemma js_shl_small a k : 0 ≤ k → 0 ≤ a → a * 2 ^ k < 2 ^ 31 → js_shl a k = a * 2 ^ k.
Proof.
  intros Hk Ha Hr. assert (a ≤ a * 2 ^ k) by (assert (0 < 2 ^ k) by lia; nia).
  unfold js_shl. rewrite (to_uint32_id a), Z.shiftl_mul_pow2 by lia. apply to_int32_small. lia.
Qed.

(** Disjoint bit fields add up. *)
Lemma bor_fields a k b : 0 ≤ k → 0 ≤ a → 0 ≤ b < 2 ^ k → a * 2 ^ k + b < 2 ^ 31 →
  js_bor (a * 2 ^ k) b = a * 2 ^ k + b.
Proof.
  intros Hk Ha Hb Hr. assert (0 ≤ a * 2 ^ k) by (apply Z.mul_nonneg_nonneg; lia).
  assert (Hland : Z.land (a * 2 ^ k) b = 0).
  { apply Z.bits_inj'. intros i Hi. rewrite Z.land_spec, Z.bits_0.
    destruct (decide (i < k)); [by rewrite Z.mul_pow2_bits_low by lia|].
    apply bits_range in Hb as [_ Hb]; [|done]. rewrite Hb by lia. apply andb_false_r. }
  unfold js_bor. rewrite !to_uint32_id by lia.
  rewrite <-Z.lxor_lor, <-Z.add_nocarry_lxor by done. apply to_int32_small. lia.
Qed.

Lemma js_and_u16 v : 0 ≤ v < 65536 → js_and v 65535 = v.
Proof.
  intros Hv. unfold js_and. rewrite !to_uint32_id by lia. change 65535 with (Z.ones 16).
  rewrite Z.land_ones by done. rewrite Z.mod_small by done. apply to_int32_small. lia.
Qed.

(** The two DOS words hold every field of the instant: the year clamped to 1980..2107, the seconds
    rounded down to an even number, nothing lost to a neighbouring field. *)
Theorem dosDateTime_decodes (d : UtcDate) :
  valid_utc d →
  dos_decode (dosDateTime d) =
  ((Z.min 2107 (Z.max 1980 (getUTCFullYear d)), getUTCMonth d + 1, getUTCDate d),
   (getUTCHours d, getUTCMinutes d, 2 * (getUTCSeconds d / 2))).
Proof.
  intros (Hmo & Hd & Hh & Hmi & Hs). unfold dosDateTime.
  set (year := Z.min 2107 (Z.max 1980 (getUTCFullYear d))).
  set (y := year - 1980). assert (Hy : 0 ≤ y < 128) by lia.
  assert (Hsec : 0 ≤ getUTCSeconds d / 2 < 30).
  { split; [apply Z.div_pos; lia|apply Z.div_lt_upper_bound; lia]. }
  rewrite !js_shl_small by lia.
  rewrite (bor_fields y 9) by lia.
  replace (y * 2 ^ 9 + (getUTCMonth d + 1) * 2 ^ 5) with ((y * 16 + getUTCMonth d + 1) * 2 ^ 5) by lia.
  rewrite (bor_fields _ 5) by lia.
  rewrite (bor_fields (getUTCHours d) 11) by lia.
  replace (getUTCHours d * 2 ^ 11 + getUTCMinutes d * 2 ^ 5) with ((getUTCHours d * 64 + getUTCMinutes d) * 2 ^ 5) by lia.
  rewrite (bor_fields _ 5) by lia. rewrite !js_and_u16 by lia.
  unfold dos_decode. change (2 ^ 5) with 32. fold year.
  repeat match goal with |- (_, _) = (_, _) => f_equal end; Z.to_euclidean_division_equations; lia.
Qed.

Lemma dosDateTime_decodes_witness :
  valid_utc at_noon ∧ dos_decode (dosDateTime at_noon) = ((2026, 1, 31), (12, 30, 58)).
Proof.
  assert (H : valid_utc at_noon) by (unfold valid_utc; simpl; lia). split; [done|].
  by rewrite (dosDateTime_decodes at_noon H).
Defined.
