(* ===== verification/Turn.v ===== *)
(** * Chat turns: the data of soc/chat/turn-runner.ts and its pure parts

    The transcript model, the live projection that stream events build, and the helpers that
    read a settled run. The runs themselves are in Runner. *)

From S2P Require Import Prelude JsValue Activity.
From Stdlib Require Import QArith Qcanon.
Local Close Scope Qc_scope.
Local Close Scope Q_scope.
Local Open Scope Z_scope.

(** A string or [null]; [''] is falsy too. *)
Definition truthy (s : option string) : bool :=
  match s with Some s => negb (String.eqb s "") | None => false end.

Definition or_string (a b : option string) : option string := if truthy a then a else b.

(** ** Steps and usage *)
Inductive ChatStreamMode := ModeSteps | ModeText.
Inductive Transport := Stream | Blocking.
Inductive ChatStepKind := StepTool | StepModel.
Inductive ChatStepStatus := StOk | StError | StDenied | StTimeout | StSkipped | StCancelled.

#[export] Instance Transport_eq_dec : EqDecision Transport.
Proof. solve_decision. Defined.
#[export] Instance ChatStepKind_eq_dec : EqDecision ChatStepKind.
Proof. solve_decision. Defined.

(** What a step announces before it runs. *)
Record StepStartInfo := mkStepInfo {
  si_index : Z;
  si_ordinal : option Z;
  si_kind : ChatStepKind;
  si_tool : option string;
  si_label : string;
  si_params : list (string * jsval);
  si_group : option Z;
}.

(** A finished step: the announced fields, its status, and what the runner only carries. *)
Record ChatStep := mkStep { cs_info : StepStartInfo; cs_status : ChatStepStatus; cs_more : jsval }.

Record TurnUsage := mkUsage { tu_calls : Z; tu_cost : Qc; tu_more : jsval }.

Inductive TurnNoticeKind :=
  | NPartial | NCap | NBudget | NProvider | NBreaker | NDenied | NTimeout | NCancelled
  | NUnsupported | NNotSaved | NLimited | NStoppedRepeating | NCompacted.

#[export] Instance TurnNoticeKind_eq_dec : EqDecision TurnNoticeKind.
Proof. solve_decision. Defined.

Record TurnNotice := mkNotice { tn_kind : TurnNoticeKind; tn_message : string; tn_retryable : bool }.

Inductive ChatAnswerKind := AData | AProductHelp | AMixed | AConversation.

(** The response of a turn: the fields this module reads or writes; [re_more] is the rest. *)
Record ChatResponse := mkResponse {
  re_answer : string;
  re_cost : Qc;
  re_blocks : list jsval;
  re_steps : list ChatStep;
  re_usage : option TurnUsage;
  re_citations : list jsval;
  re_console_links : list jsval;
  re_follow_ups : list string;
  re_answer_kind : ChatAnswerKind;
  re_notice : option TurnNotice;
  re_stream_mode : option ChatStreamMode;
  re_turn_id : option string;
  re_message_id : option string;
  re_user_message_id : option string;
  re_conversation_id : option string;
  re_clarify : option jsval;
  re_command : option string;
  re_effective_model : option string;
  re_effective_source_name : option string;
  re_effective_source_id : option string;
  re_more : jsval;
}.

Record ChatRequest := mkRequest {
  rq_message : string;
  rq_model : option string;
  rq_source_id : option string;
  rq_conversation_id : option string;
  rq_persist : bool;
  rq_idempotency_key : option string;
  rq_stream_mode : option ChatStreamMode;
  rq_origin : option ChatOrigin;
  rq_topic : option string;
  rq_more : jsval;
}.

(** ** Stream events (the types of soc/chat/stream-events.ts) *)
Record TurnStartEvent := mkTurnStart {
  ts_turn_id : string;
  ts_conversation_id : option string;
  ts_model : option string;
  ts_stream_mode : ChatStreamMode;
  ts_replayed : bool;
  ts_estimate : Z;
}.

Inductive TurnErrorCode :=
  | ProviderUnavailable | BudgetBlocked | BreakerOpen | HistoryUnavailable | InternalError.

Record TurnErrorEvent := mkTurnError {
  te_code : TurnErrorCode;
  te_message : string;
  te_retryable : bool;
  te_notice : option TurnNotice;
}.

Inductive ChatStreamEvent :=
  | TurnStart (e : TurnStartEvent)
  | StepStart (step : StepStartInfo)
  | StepEnd (step : ChatStep)
  | StepProgress (index done : Z) (total : option Z) (unit_ : string)
  | UsageTotals (totals : TurnUsage)
  | TextDelta (text : string)
  | TextReset
  | TextContinued (part : Z)
  | TurnDone (response : ChatResponse)
  | TurnError (e : TurnErrorEvent)
  | Ping.

(** ** The live turn *)
Record ChatLiveStepProgress := mkProgress { pg_done : Z; pg_total : option Z; pg_unit : string }.

(** [ls_status] is [None] while the step runs. *)
Record ChatLiveStep := mkLiveStep {
  ls_info : StepStartInfo;
  ls_status : option ChatStepStatus;
  ls_result : option ChatStep;
  ls_startedAt : Z;
  ls_progress : option ChatLiveStepProgress;
}.

Inductive Connection := Open | Recovering.

#[export] Instance Connection_eq_dec : EqDecision Connection.
Proof. solve_decision. Defined.

Record ChatLiveTurn := mkLive {
  lv_transport : Transport;
  lv_turnId : option string;
  lv_model : option string;
  lv_streamMode : ChatStreamMode;
  lv_replayed : bool;
  lv_estimate : Z;
  lv_steps : list ChatLiveStep;
  lv_usage : option TurnUsage;
  lv_text : string;
  lv_stopping : bool;
  lv_connection : Connection;
  lv_waiting : bool;
  lv_startedAt : Z;
  lv_continued : option Z;
}.

(** [{ ...live, field: v }] *)
Definition live_transport (v : Transport) (l : ChatLiveTurn) : ChatLiveTurn :=
  mkLive v (lv_turnId l) (lv_model l) (lv_streamMode l) (lv_replayed l) (lv_estimate l) (lv_steps
    l) (lv_usage l) (lv_text l) (lv_stopping l) (lv_connection l) (lv_waiting l) (lv_startedAt l)
    (lv_continued l).
Definition live_steps (v : list ChatLiveStep) (l : ChatLiveTurn) : ChatLiveTurn :=
  mkLive (lv_transport l) (lv_turnId l) (lv_model l) (lv_streamMode l) (lv_replayed l)
    (lv_estimate l) v (lv_usage l) (lv_text l) (lv_stopping l) (lv_connection l) (lv_waiting l)
    (lv_startedAt l) (lv_continued l).
Definition live_usage (v : option TurnUsage) (l : ChatLiveTurn) : ChatLiveTurn :=
  mkLive (lv_transport l) (lv_turnId l) (lv_model l) (lv_streamMode l) (lv_replayed l)
    (lv_estimate l) (lv_steps l) v (lv_text l) (lv_stopping l) (lv_connection l) (lv_waiting l)
    (lv_startedAt l) (lv_continued l).
Definition live_text (v : string) (l : ChatLiveTurn) : ChatLiveTurn :=
  mkLive (lv_transport l) (lv_turnId l) (lv_model l) (lv_streamMode l) (lv_replayed l)
    (lv_estimate l) (lv_steps l) (lv_usage l) v (lv_stopping l) (lv_connection l) (lv_waiting l)
    (lv_startedAt l) (lv_continued l).
Definition live_stopping (v : bool) (l : ChatLiveTurn) : ChatLiveTurn :=
  mkLive (lv_transport l) (lv_turnId l) (lv_model l) (lv_streamMode l) (lv_replayed l)
    (lv_estimate l) (lv_steps l) (lv_usage l) (lv_text l) v (lv_connection l) (lv_waiting l)
    (lv_startedAt l) (lv_continued l).
Definition live_connection (v : Connection) (l : ChatLiveTurn) : ChatLiveTurn :=
  mkLive (lv_transport l) (lv_turnId l) (lv_model l) (lv_streamMode l) (lv_replayed l)
    (lv_estimate l) (lv_steps l) (lv_usage l) (lv_text l) (lv_stopping l) v (lv_waiting l)
    (lv_startedAt l) (lv_continued l).
Definition live_waiting (v : bool) (l : ChatLiveTurn) : ChatLiveTurn :=
  mkLive (lv_transport l) (lv_turnId l) (lv_model l) (lv_streamMode l) (lv_replayed l)
    (lv_estimate l) (lv_steps l) (lv_usage l) (lv_text l) (lv_stopping l) (lv_connection l) v
    (lv_startedAt l) (lv_continued l).
Definition live_continued (v : option Z) (l : ChatLiveTurn) : ChatLiveTurn :=
  mkLive (lv_transport l) (lv_turnId l) (lv_model l) (lv_streamMode l) (lv_replayed l)
    (lv_estimate l) (lv_steps l) (lv_usage l) (lv_text l) (lv_stopping l) (lv_connection l)
    (lv_waiting l) (lv_startedAt l) v.

Definition step_index (s : ChatLiveStep) : Z := si_index (ls_info s).

(** [steps.sort((a, b) => a.index - b.index)] *)
Definition sort_steps (l : list ChatLiveStep) : list ChatLiveStep :=
  isort (λ a b, step_index a <=? step_index b) l.

Definition has_step (index : Z) (l : list ChatLiveStep) : bool :=
  existsb (λ s, step_index s =? index) l.

(** The 'step.start' case: a step already listed is ignored. *)
Definition add_step (step : StepStartInfo) (now : Z) (l : list ChatLiveStep) : list ChatLiveStep :=
  sort_steps (l ++ [mkLiveStep step None None now None]).

(** The 'step.end' case: [findIndex], then the merged row in its place or at the end. *)
Fixpoint merge_step (result : ChatStep) (now : Z) (l : list ChatLiveStep) : list ChatLiveStep :=
  match l with
  | [] => [mkLiveStep (cs_info result) (Some (cs_status result)) (Some result) now None]
  | s :: l' =>
      if step_index s =? si_index (cs_info result)
      then mkLiveStep (cs_info result) (Some (cs_status result)) (Some result) (ls_startedAt s) None :: l'
      else s :: merge_step result now l'
  end.

Definition end_step (result : ChatStep) (now : Z) (l : list ChatLiveStep) : list ChatLiveStep :=
  sort_steps (merge_step result now l).

Definition progress_step (index : Z) (p : ChatLiveStepProgress) (l : list ChatLiveStep) : list ChatLiveStep :=
  (λ s, if step_index s =? index
        then mkLiveStep (ls_info s) (ls_status s) (ls_result s) (ls_startedAt s) (Some p) else s) <$> l.

Definition lookupsOf (l : ChatLiveTurn) : Z :=
  Z.of_nat (length (List.filter (λ s, bool_decide (si_kind (ls_info s) = StepTool) &&
                                     bool_decide (is_Some (ls_status s))) (lv_steps l))).

(** What [turn.start] makes of the live state. *)
Definition live_started (e : TurnStartEvent) (l : ChatLiveTurn) : ChatLiveTurn :=
  mkLive (lv_transport l) (Some (ts_turn_id e)) (ts_model e) (ts_stream_mode e) (ts_replayed e)
    (ts_estimate e) [] None "" (lv_stopping l) Open false (lv_startedAt l) (lv_continued l).

(** ** Failures *)
Inductive ChatFailureKind := FHttp | FTurnError | FConnectionLost | FNetwork | FUnreadable.

(** A [code] is an HTTP [detail.code] or the code of a [turn.error]. *)
Inductive FailureCode := CodeHttp (code : string) | CodeTurn (code : TurnErrorCode).

Record ChatTurnFailure := mkFailure {
  fa_kind : ChatFailureKind;
  fa_message : string;
  fa_code : option FailureCode;
  fa_status : option Z;
  fa_retryable : bool;
  fa_notice : option TurnNotice;
}.

(** What a throw carries: an [ApiError] with its status and body, another [Error] with a message,
    or anything else. *)
Inductive Thrown :=
  | ApiError (status : Z) (message : string) (body : jsval)
  | PlainError (message : string)
  | OtherThrow.

Definition js_get (v : jsval) (k : string) : jsval :=
  match v with VObj fs => default VUndef (get_own fs k) | _ => VUndef end.

Definition isObj (v : jsval) : bool := match v with VObj _ => true | _ => false end.

Definition js_string (v : jsval) : option string := match v with VStr s => Some s | _ => None end.

(** chat-api.ts *)
Definition apiErrorCode (e : Thrown) : option string :=
  match e with
  | ApiError _ _ body =>
      if isObj body then
        match js_string (js_get (js_get body "detail") "code") with
        | Some code => Some code
        | None => js_string (js_get body "code")
        end
      else None
  | _ => None
  end.

Definition isStreamUnsupportedError (e : Thrown) : bool :=
  match e with
  | ApiError status _ body =>
      (status =? 405) || (status =? 501) ||
      ((status =? 404) && isObj body &&
       bool_decide (js_string (js_get body "detail") = Some "Not Found"))
  | _ => false
  end.

(** [v in o] *)
Definition js_has (v : jsval) (k : string) : bool :=
  match v with VObj fs => bool_decide (is_Some (get_own fs k)) | _ => false end.

Section numbers.
(** [Number(s)] of a non-blank string, when it is finite. *)
Context (parse_number : string → option Qc).

Definition all_space (s : string) : bool := String.eqb (trimEnd s) "".

Definition apiRetryAfterSeconds (e : Thrown) : option Qc :=
  match e with
  | ApiError _ _ body =>
      if isObj body then
        let detail := js_get body "detail" in
        let raw := if isObj detail && js_has detail "retry_after"
                   then js_get detail "retry_after" else js_get body "retry_after" in
        let value := match raw with
                     | VStr s => if all_space s then None else parse_number s
                     | VNum n => Some n
                     | _ => None
                     end in
        match value with
        | Some n => if Qle_bool 0 n then Some n else None
        | None => None
        end
      else None
  | _ => None
  end.
End numbers.

(** [/^[A-Za-z0-9._:-]{1,128}$/] *)
Definition safe_id_char (c : Ascii.ascii) : bool :=
  let n := Ascii.nat_of_ascii c in
  ((48 <=? n) && (n <=? 58) || (65 <=? n) && (n <=? 90) || (97 <=? n) && (n <=? 122)
   || (n =? 45) || (n =? 46) || (n =? 95))%nat.

Fixpoint all_chars (f : Ascii.ascii → bool) (s : string) : bool :=
  match s with EmptyString => true | String c s' => f c && all_chars f s' end.

Definition isSafeChatId (id : option string) : bool :=
  match id with
  | Some s => all_chars safe_id_char s && (1 <=? String.length s)%nat && (String.length s <=? 128)%nat
  | None => false
  end.

(** The turn a 409 names. *)
Definition holderTurnId (e : Thrown) : option string :=
  match e with
  | ApiError _ _ body =>
      let id := js_string (js_get (js_get body "detail") "turn_id") in
      if isSafeChatId id then id else None
  | _ => None
  end.

Definition transient_status (status : Z) : bool :=
  (status =? 0) || (status =? 409) || (status =? 429) || (status =? 502) || (status =? 503) || (status =? 504).

Definition failureFromError (e : Thrown) (fallback : string) : ChatTurnFailure :=
  match e with
  | ApiError status message _ =>
      let code := apiErrorCode e in
      mkFailure (if status =? 0 then FNetwork else FHttp)
        (if String.eqb message "" then fallback else message) (CodeHttp <$> code) (Some status)
        (negb (bool_decide (code = Some "chat_idempotency_conflict")) &&
         negb (bool_decide (code = Some "chat_request_failed")) && transient_status status)
        None
  | PlainError message =>
      mkFailure FNetwork (if String.eqb message "" then fallback else message) None None true None
  | OtherThrow => mkFailure FNetwork fallback None None true None
  end.

Definition failureFromTurnError (e : TurnErrorEvent) : ChatTurnFailure :=
  mkFailure FTurnError
    (default "The assistant could not answer."
       (or_string (Some (te_message e)) (or_string (tn_message <$> te_notice e) None)))
    (Some (CodeTurn (te_code e))) None (te_retryable e) (te_notice e).

Definition connectionLost (message : string) (status : option Z) : ChatTurnFailure :=
  mkFailure FConnectionLost message None status true None.

(** ** Pure helpers *)
Definition unsaved_kind (k : TurnNoticeKind) : bool :=
  match k with NBudget | NBreaker | NProvider => true | _ => false end.

Definition isUnsavedTurn (r : ChatResponse) : bool :=
  match re_notice r with
  | Some n =>
      unsaved_kind (tn_kind n) && negb (truthy (re_message_id r)) &&
      match re_usage r with None => true | Some u => tu_calls u =? 0 end
  | None => false
  end.

Definition RECOVERY_BACKOFF_MS : list Z := [1500; 3000; 5000; 8000].
Definition RECOVERY_MIN_DELAY_MS : Z := 250.
Definition RECOVERY_MAX_DELAY_MS : Z := 15000.
Definition MAX_REATTACH_ATTEMPTS : Z := 6.
Definition MAX_SETTLED_RUNS : nat := 30.
Definition MAX_CASE_SESSIONS : nat := 20.
Definition MAX_CASE_SESSION_ITEMS : nat := 50.

Definition Qc_of_Z (z : Z) : Qc := Q2Qc (inject_Z z).
Definition Qc_min (a b : Qc) : Qc := if Qle_bool a b then a else b.
Definition Qc_max (a b : Qc) : Qc := if Qle_bool a b then b else a.

Definition recoveryDelayMs (attempt : Z) (retryAfterSeconds : option Qc) : Qc :=
  let ms := match retryAfterSeconds with
            | Some s => Qcmult s (Qc_of_Z 1000)
            | None => Qc_of_Z (nth (Z.to_nat (Z.min (Z.max 0 attempt) (Z.of_nat (length RECOVERY_BACKOFF_MS) - 1)))
                                 RECOVERY_BACKOFF_MS 0)
            end in
  Qc_min (Qc_of_Z RECOVERY_MAX_DELAY_MS) (Qc_max (Qc_of_Z RECOVERY_MIN_DELAY_MS) ms).

(** What a turn looks like once Stop abandoned its stream. *)
Definition stoppedResponse (live : option ChatLiveTurn) : ChatResponse :=
  let usage := live ≫= lv_usage in
  mkResponse (from_option lv_text "" live) (from_option tu_cost (Qc_of_Z 0) usage) []
    (omap ls_result (from_option lv_steps [] live)) usage [] [] [] AConversation
    (Some (mkNotice NCancelled "Stopped before the answer finished." false))
    (lv_streamMode <$> live) (live ≫= lv_turnId) None None None None None None None None VUndef.
