(* ===== verification/Runner.v ===== *)
(** * The turn runner (soc/chat/turn-runner.ts): runs, their registry and what settles them

    A world holds every run by identity, the [runs] map from scopes to runs, the activity store's
    tab, the case sessions and the effects sent out. Every operation is a function on worlds. The
    reads of one run (its [drive] loop) are in RunnerDrive. *)

From S2P Require Import Prelude JsValue JsMap Activity ActivityNotices Turn.
From Stdlib Require Import QArith Qcanon.
Local Close Scope Qc_scope.
Local Close Scope Q_scope.
Local Open Scope Z_scope.

(** ** Transcript *)
Record ChatUserItem := mkUserItem {
  ui_key : string;
  ui_messageId : option string;
  ui_content : string;
  ui_prompt : string;
  ui_origin : ChatOrigin;
  ui_at : Z;
  ui_requestKey : option string;
  ui_failed : bool;
}.

Inductive AssistantStatus := ItemRunning | ItemDone | ItemError.

Record ChatAssistantItem := mkAssistantItem {
  ai_key : string;
  ai_messageId : option string;
  ai_at : Z;
  ai_requestKey : option string;
  ai_status : AssistantStatus;
  ai_response : option ChatResponse;
  ai_live : option ChatLiveTurn;
  ai_failure : option ChatTurnFailure;
  ai_restored : bool;
  ai_model : option string;
  ai_source : option string;
  ai_request : option ChatRequest;
}.

Inductive ChatTranscriptItem := UserItem (u : ChatUserItem) | AssistantItem (a : ChatAssistantItem).

Definition item_requestKey (i : ChatTranscriptItem) : option string :=
  match i with UserItem u => ui_requestKey u | AssistantItem a => ai_requestKey a end.

(** A history turn: an assistant's has no origin. *)
Record HistoryEntry := mkHistory {
  he_user : bool;
  he_content : string;
  he_origin : option ChatOrigin;
  he_requestKey : option string;
}.

Record CaseSession := mkSession { se_items : list ChatTranscriptItem; se_history : list HistoryEntry }.

(** ** Runs *)
Inductive TurnRunState := SRunning | SDone | SError | SStopped | SLost.

#[export] Instance TurnRunState_eq_dec : EqDecision TurnRunState.
Proof. solve_decision. Defined.

(** The fields of a run that never change. *)
Record RunInfo := mkRunInfo {
  ri_id : nat;
  ri_kind : ChatActivityKind;
  ri_caseId : option string;
  ri_request : option ChatRequest;
  ri_requestKey : option string;
  ri_persisted : bool;
  ri_userItem : option ChatUserItem;
  ri_assistantKey : string;
  ri_startedAt : Z;
  ri_demo : string;
}.

Inductive Mode := MPost | MEvents | MBlocking.

#[export] Instance Mode_eq_dec : EqDecision Mode.
Proof. solve_decision. Defined.

(** Where the [drive] loop waits: at its head, for a read, for a timer, parked, or returned. *)
Inductive Pc := PcTop | PcReading | PcSleeping | PcParked | PcEnded.

#[export] Instance Pc_eq_dec : EqDecision Pc.
Proof. solve_decision. Defined.

(** The variables of [drive]. *)
Record Drive := mkDrive {
  d_body : option ChatRequest;
  d_canResend : bool;
  d_mode : Mode;
  d_after : Z;
  d_postEvents : Z;
  d_resent : bool;
  d_waits : Z;
  d_busySince : option Z;
  d_busyWaits : Z;
  d_drops : Z;
  d_gone : bool;
  d_pc : Pc;
}.

(** [variable = v] *)
Definition dr_mode (v : Mode) (d : Drive) : Drive :=
  mkDrive (d_body d) (d_canResend d) v (d_after d) (d_postEvents d) (d_resent d) (d_waits d)
    (d_busySince d) (d_busyWaits d) (d_drops d) (d_gone d) (d_pc d).
Definition dr_after (v : Z) (d : Drive) : Drive :=
  mkDrive (d_body d) (d_canResend d) (d_mode d) v (d_postEvents d) (d_resent d) (d_waits d)
    (d_busySince d) (d_busyWaits d) (d_drops d) (d_gone d) (d_pc d).
Definition dr_postEvents (v : Z) (d : Drive) : Drive :=
  mkDrive (d_body d) (d_canResend d) (d_mode d) (d_after d) v (d_resent d) (d_waits d)
    (d_busySince d) (d_busyWaits d) (d_drops d) (d_gone d) (d_pc d).
Definition dr_resent (v : bool) (d : Drive) : Drive :=
  mkDrive (d_body d) (d_canResend d) (d_mode d) (d_after d) (d_postEvents d) v (d_waits d)
    (d_busySince d) (d_busyWaits d) (d_drops d) (d_gone d) (d_pc d).
Definition dr_waits (v : Z) (d : Drive) : Drive :=
  mkDrive (d_body d) (d_canResend d) (d_mode d) (d_after d) (d_postEvents d) (d_resent d) v
    (d_busySince d) (d_busyWaits d) (d_drops d) (d_gone d) (d_pc d).
Definition dr_busySince (v : option Z) (d : Drive) : Drive :=
  mkDrive (d_body d) (d_canResend d) (d_mode d) (d_after d) (d_postEvents d) (d_resent d)
    (d_waits d) v (d_busyWaits d) (d_drops d) (d_gone d) (d_pc d).
Definition dr_busyWaits (v : Z) (d : Drive) : Drive :=
  mkDrive (d_body d) (d_canResend d) (d_mode d) (d_after d) (d_postEvents d) (d_resent d)
    (d_waits d) (d_busySince d) v (d_drops d) (d_gone d) (d_pc d).
Definition dr_drops (v : Z) (d : Drive) : Drive :=
  mkDrive (d_body d) (d_canResend d) (d_mode d) (d_after d) (d_postEvents d) (d_resent d)
    (d_waits d) (d_busySince d) (d_busyWaits d) v (d_gone d) (d_pc d).
Definition dr_gone (v : bool) (d : Drive) : Drive :=
  mkDrive (d_body d) (d_canResend d) (d_mode d) (d_after d) (d_postEvents d) (d_resent d)
    (d_waits d) (d_busySince d) (d_busyWaits d) (d_drops d) v (d_pc d).
Definition dr_pc (v : Pc) (d : Drive) : Drive :=
  mkDrive (d_body d) (d_canResend d) (d_mode d) (d_after d) (d_postEvents d) (d_resent d)
    (d_waits d) (d_busySince d) (d_busyWaits d) (d_drops d) (d_gone d) v.

Record Run := mkRun {
  r_info : RunInfo;
  r_scope : string;
  r_state : TurnRunState;
  r_live : ChatLiveTurn;
  r_response : option ChatResponse;
  r_failure : option ChatTurnFailure;
  r_turnId : option string;
  r_conversationId : option string;
  r_transport : Transport;
  r_streamUnsupported : bool;
  r_consumed : bool;
  r_attached : nat;
  r_aborted : bool;
  r_stopRequested : bool;
  r_cancelWhenStarted : bool;
  r_forcedStop : bool;
  r_text : string;
  r_frame : bool;
  r_read : option bool;
  r_parkRequested : bool;
  r_parked : bool;
  r_parkTimer : bool;
  r_drive : Drive;
}.

(** [run.field = v] *)
Definition set_scope (v : string) (r : Run) : Run :=
  mkRun (r_info r) v (r_state r) (r_live r) (r_response r) (r_failure r) (r_turnId r)
    (r_conversationId r) (r_transport r) (r_streamUnsupported r) (r_consumed r) (r_attached r)
    (r_aborted r) (r_stopRequested r) (r_cancelWhenStarted r) (r_forcedStop r) (r_text r)
    (r_frame r) (r_read r) (r_parkRequested r) (r_parked r) (r_parkTimer r) (r_drive r).
Definition set_state (v : TurnRunState) (r : Run) : Run :=
  mkRun (r_info r) (r_scope r) v (r_live r) (r_response r) (r_failure r) (r_turnId r)
    (r_conversationId r) (r_transport r) (r_streamUnsupported r) (r_consumed r) (r_attached r)
    (r_aborted r) (r_stopRequested r) (r_cancelWhenStarted r) (r_forcedStop r) (r_text r)
    (r_frame r) (r_read r) (r_parkRequested r) (r_parked r) (r_parkTimer r) (r_drive r).
Definition set_live (v : ChatLiveTurn) (r : Run) : Run :=
  mkRun (r_info r) (r_scope r) (r_state r) v (r_response r) (r_failure r) (r_turnId r)
    (r_conversationId r) (r_transport r) (r_streamUnsupported r) (r_consumed r) (r_attached r)
    (r_aborted r) (r_stopRequested r) (r_cancelWhenStarted r) (r_forcedStop r) (r_text r)
    (r_frame r) (r_read r) (r_parkRequested r) (r_parked r) (r_parkTimer r) (r_drive r).
Definition set_response (v : option ChatResponse) (r : Run) : Run :=
  mkRun (r_info r) (r_scope r) (r_state r) (r_live r) v (r_failure r) (r_turnId r)
    (r_conversationId r) (r_transport r) (r_streamUnsupported r) (r_consumed r) (r_attached r)
    (r_aborted r) (r_stopRequested r) (r_cancelWhenStarted r) (r_forcedStop r) (r_text r)
    (r_frame r) (r_read r) (r_parkRequested r) (r_parked r) (r_parkTimer r) (r_drive r).
Definition set_failure (v : option ChatTurnFailure) (r : Run) : Run :=
  mkRun (r_info r) (r_scope r) (r_state r) (r_live r) (r_response r) v (r_turnId r)
    (r_conversationId r) (r_transport r) (r_streamUnsupported r) (r_consumed r) (r_attached r)
    (r_aborted r) (r_stopRequested r) (r_cancelWhenStarted r) (r_forcedStop r) (r_text r)
    (r_frame r) (r_read r) (r_parkRequested r) (r_parked r) (r_parkTimer r) (r_drive r).
Definition set_turnId (v : option string) (r : Run) : Run :=
  mkRun (r_info r) (r_scope r) (r_state r) (r_live r) (r_response r) (r_failure r) v
    (r_conversationId r) (r_transport r) (r_streamUnsupported r) (r_consumed r) (r_attached r)
    (r_aborted r) (r_stopRequested r) (r_cancelWhenStarted r) (r_forcedStop r) (r_text r)
    (r_frame r) (r_read r) (r_parkRequested r) (r_parked r) (r_parkTimer r) (r_drive r).
Definition set_conversationId (v : option string) (r : Run) : Run :=
  mkRun (r_info r) (r_scope r) (r_state r) (r_live r) (r_response r) (r_failure r) (r_turnId r) v
    (r_transport r) (r_streamUnsupported r) (r_consumed r) (r_attached r) (r_aborted r)
    (r_stopRequested r) (r_cancelWhenStarted r) (r_forcedStop r) (r_text r) (r_frame r) (r_read
    r) (r_parkRequested r) (r_parked r) (r_parkTimer r) (r_drive r).
Definition set_transport (v : Transport) (r : Run) : Run :=
  mkRun (r_info r) (r_scope r) (r_state r) (r_live r) (r_response r) (r_failure r) (r_turnId r)
    (r_conversationId r) v (r_streamUnsupported r) (r_consumed r) (r_attached r) (r_aborted r)
    (r_stopRequested r) (r_cancelWhenStarted r) (r_forcedStop r) (r_text r) (r_frame r) (r_read
    r) (r_parkRequested r) (r_parked r) (r_parkTimer r) (r_drive r).
Definition set_streamUnsupported (v : bool) (r : Run) : Run :=
  mkRun (r_info r) (r_scope r) (r_state r) (r_live r) (r_response r) (r_failure r) (r_turnId r)
    (r_conversationId r) (r_transport r) v (r_consumed r) (r_attached r) (r_aborted r)
    (r_stopRequested r) (r_cancelWhenStarted r) (r_forcedStop r) (r_text r) (r_frame r) (r_read
    r) (r_parkRequested r) (r_parked r) (r_parkTimer r) (r_drive r).
Definition set_consumed (v : bool) (r : Run) : Run :=
  mkRun (r_info r) (r_scope r) (r_state r) (r_live r) (r_response r) (r_failure r) (r_turnId r)
    (r_conversationId r) (r_transport r) (r_streamUnsupported r) v (r_attached r) (r_aborted r)
    (r_stopRequested r) (r_cancelWhenStarted r) (r_forcedStop r) (r_text r) (r_frame r) (r_read
    r) (r_parkRequested r) (r_parked r) (r_parkTimer r) (r_drive r).
Definition set_attached (v : nat) (r : Run) : Run :=
  mkRun (r_info r) (r_scope r) (r_state r) (r_live r) (r_response r) (r_failure r) (r_turnId r)
    (r_conversationId r) (r_transport r) (r_streamUnsupported r) (r_consumed r) v (r_aborted r)
    (r_stopRequested r) (r_cancelWhenStarted r) (r_forcedStop r) (r_text r) (r_frame r) (r_read
    r) (r_parkRequested r) (r_parked r) (r_parkTimer r) (r_drive r).
Definition set_aborted (v : bool) (r : Run) : Run :=
  mkRun (r_info r) (r_scope r) (r_state r) (r_live r) (r_response r) (r_failure r) (r_turnId r)
    (r_conversationId r) (r_transport r) (r_streamUnsupported r) (r_consumed r) (r_attached r) v
    (r_stopRequested r) (r_cancelWhenStarted r) (r_forcedStop r) (r_text r) (r_frame r) (r_read
    r) (r_parkRequested r) (r_parked r) (r_parkTimer r) (r_drive r).
Definition set_stopRequested (v : bool) (r : Run) : Run :=
  mkRun (r_info r) (r_scope r) (r_state r) (r_live r) (r_response r) (r_failure r) (r_turnId r)
    (r_conversationId r) (r_transport r) (r_streamUnsupported r) (r_consumed r) (r_attached r)
    (r_aborted r) v (r_cancelWhenStarted r) (r_forcedStop r) (r_text r) (r_frame r) (r_read r)
    (r_parkRequested r) (r_parked r) (r_parkTimer r) (r_drive r).
Definition set_cancelWhenStarted (v : bool) (r : Run) : Run :=
  mkRun (r_info r) (r_scope r) (r_state r) (r_live r) (r_response r) (r_failure r) (r_turnId r)
    (r_conversationId r) (r_transport r) (r_streamUnsupported r) (r_consumed r) (r_attached r)
    (r_aborted r) (r_stopRequested r) v (r_forcedStop r) (r_text r) (r_frame r) (r_read r)
    (r_parkRequested r) (r_parked r) (r_parkTimer r) (r_drive r).
Definition set_forcedStop (v : bool) (r : Run) : Run :=
  mkRun (r_info r) (r_scope r) (r_state r) (r_live r) (r_response r) (r_failure r) (r_turnId r)
    (r_conversationId r) (r_transport r) (r_streamUnsupported r) (r_consumed r) (r_attached r)
    (r_aborted r) (r_stopRequested r) (r_cancelWhenStarted r) v (r_text r) (r_frame r) (r_read r)
    (r_parkRequested r) (r_parked r) (r_parkTimer r) (r_drive r).
Definition set_text (v : string) (r : Run) : Run :=
  mkRun (r_info r) (r_scope r) (r_state r) (r_live r) (r_response r) (r_failure r) (r_turnId r)
    (r_conversationId r) (r_transport r) (r_streamUnsupported r) (r_consumed r) (r_attached r)
    (r_aborted r) (r_stopRequested r) (r_cancelWhenStarted r) (r_forcedStop r) v (r_frame r)
    (r_read r) (r_parkRequested r) (r_parked r) (r_parkTimer r) (r_drive r).
Definition set_frame (v : bool) (r : Run) : Run :=
  mkRun (r_info r) (r_scope r) (r_state r) (r_live r) (r_response r) (r_failure r) (r_turnId r)
    (r_conversationId r) (r_transport r) (r_streamUnsupported r) (r_consumed r) (r_attached r)
    (r_aborted r) (r_stopRequested r) (r_cancelWhenStarted r) (r_forcedStop r) (r_text r) v
    (r_read r) (r_parkRequested r) (r_parked r) (r_parkTimer r) (r_drive r).
Definition set_read (v : option bool) (r : Run) : Run :=
  mkRun (r_info r) (r_scope r) (r_state r) (r_live r) (r_response r) (r_failure r) (r_turnId r)
    (r_conversationId r) (r_transport r) (r_streamUnsupported r) (r_consumed r) (r_attached r)
    (r_aborted r) (r_stopRequested r) (r_cancelWhenStarted r) (r_forcedStop r) (r_text r)
    (r_frame r) v (r_parkRequested r) (r_parked r) (r_parkTimer r) (r_drive r).
Definition set_parkRequested (v : bool) (r : Run) : Run :=
  mkRun (r_info r) (r_scope r) (r_state r) (r_live r) (r_response r) (r_failure r) (r_turnId r)
    (r_conversationId r) (r_transport r) (r_streamUnsupported r) (r_consumed r) (r_attached r)
    (r_aborted r) (r_stopRequested r) (r_cancelWhenStarted r) (r_forcedStop r) (r_text r)
    (r_frame r) (r_read r) v (r_parked r) (r_parkTimer r) (r_drive r).
Definition set_parked (v : bool) (r : Run) : Run :=
  mkRun (r_info r) (r_scope r) (r_state r) (r_live r) (r_response r) (r_failure r) (r_turnId r)
    (r_conversationId r) (r_transport r) (r_streamUnsupported r) (r_consumed r) (r_attached r)
    (r_aborted r) (r_stopRequested r) (r_cancelWhenStarted r) (r_forcedStop r) (r_text r)
    (r_frame r) (r_read r) (r_parkRequested r) v (r_parkTimer r) (r_drive r).
Definition set_parkTimer (v : bool) (r : Run) : Run :=
  mkRun (r_info r) (r_scope r) (r_state r) (r_live r) (r_response r) (r_failure r) (r_turnId r)
    (r_conversationId r) (r_transport r) (r_streamUnsupported r) (r_consumed r) (r_attached r)
    (r_aborted r) (r_stopRequested r) (r_cancelWhenStarted r) (r_forcedStop r) (r_text r)
    (r_frame r) (r_read r) (r_parkRequested r) (r_parked r) v (r_drive r).
Definition set_drive (v : Drive) (r : Run) : Run :=
  mkRun (r_info r) (r_scope r) (r_state r) (r_live r) (r_response r) (r_failure r) (r_turnId r)
    (r_conversationId r) (r_transport r) (r_streamUnsupported r) (r_consumed r) (r_attached r)
    (r_aborted r) (r_stopRequested r) (r_cancelWhenStarted r) (r_forcedStop r) (r_text r)
    (r_frame r) (r_read r) (r_parkRequested r) (r_parked r) (r_parkTimer r) v.

(** What goes out; a request names the run that sent it. *)
Inductive Effect :=
  | EPost (run : nat) (body : ChatRequest)
  | EPostBlocking (run : nat) (request : ChatRequest)
  | EGetEvents (run : nat) (turnId : option string) (after : Z)
  | ECancel (turnId : string)
  | EHistory
  | ESleep (ms : Qc)
  | EPoll.

(** [w_views] are the attachments not yet released: each token's run. *)
Record World := mkWorld {
  w_heap : gmap nat Run;
  w_runs : list (string * nat);
  w_tab : Tab;
  w_nextRun : nat;
  w_nextKey : nat;
  w_sessions : list (string * CaseSession);
  w_sessionsDemo : option string;
  w_demo : DemoState;
  w_pollTimer : bool;
  w_polling : bool;
  w_views : gmap nat nat;
  w_nextView : nat;
  w_effects : list Effect;
  w_now : Z;
}.

(** Module state assigned. *)
Definition ww_heap (v : gmap nat Run) (w : World) : World :=
  mkWorld v (w_runs w) (w_tab w) (w_nextRun w) (w_nextKey w) (w_sessions w) (w_sessionsDemo w)
    (w_demo w) (w_pollTimer w) (w_polling w) (w_views w) (w_nextView w) (w_effects w) (w_now w).
Definition ww_runs (v : list (string * nat)) (w : World) : World :=
  mkWorld (w_heap w) v (w_tab w) (w_nextRun w) (w_nextKey w) (w_sessions w) (w_sessionsDemo w)
    (w_demo w) (w_pollTimer w) (w_polling w) (w_views w) (w_nextView w) (w_effects w) (w_now w).
Definition ww_tab (v : Tab) (w : World) : World :=
  mkWorld (w_heap w) (w_runs w) v (w_nextRun w) (w_nextKey w) (w_sessions w) (w_sessionsDemo w)
    (w_demo w) (w_pollTimer w) (w_polling w) (w_views w) (w_nextView w) (w_effects w) (w_now w).
Definition ww_nextRun (v : nat) (w : World) : World :=
  mkWorld (w_heap w) (w_runs w) (w_tab w) v (w_nextKey w) (w_sessions w) (w_sessionsDemo w)
    (w_demo w) (w_pollTimer w) (w_polling w) (w_views w) (w_nextView w) (w_effects w) (w_now w).
Definition ww_nextKey (v : nat) (w : World) : World :=
  mkWorld (w_heap w) (w_runs w) (w_tab w) (w_nextRun w) v (w_sessions w) (w_sessionsDemo w)
    (w_demo w) (w_pollTimer w) (w_polling w) (w_views w) (w_nextView w) (w_effects w) (w_now w).
Definition ww_sessions (v : list (string * CaseSession)) (w : World) : World :=
  mkWorld (w_heap w) (w_runs w) (w_tab w) (w_nextRun w) (w_nextKey w) v (w_sessionsDemo w)
    (w_demo w) (w_pollTimer w) (w_polling w) (w_views w) (w_nextView w) (w_effects w) (w_now w).
Definition ww_sessionsDemo (v : option string) (w : World) : World :=
  mkWorld (w_heap w) (w_runs w) (w_tab w) (w_nextRun w) (w_nextKey w) (w_sessions w) v (w_demo w)
    (w_pollTimer w) (w_polling w) (w_views w) (w_nextView w) (w_effects w) (w_now w).
Definition ww_demo (v : DemoState) (w : World) : World :=
  mkWorld (w_heap w) (w_runs w) (w_tab w) (w_nextRun w) (w_nextKey w) (w_sessions w)
    (w_sessionsDemo w) v (w_pollTimer w) (w_polling w) (w_views w) (w_nextView w) (w_effects w)
    (w_now w).
Definition ww_pollTimer (v : bool) (w : World) : World :=
  mkWorld (w_heap w) (w_runs w) (w_tab w) (w_nextRun w) (w_nextKey w) (w_sessions w)
    (w_sessionsDemo w) (w_demo w) v (w_polling w) (w_views w) (w_nextView w) (w_effects w) (w_now
    w).
Definition ww_polling (v : bool) (w : World) : World :=
  mkWorld (w_heap w) (w_runs w) (w_tab w) (w_nextRun w) (w_nextKey w) (w_sessions w)
    (w_sessionsDemo w) (w_demo w) (w_pollTimer w) v (w_views w) (w_nextView w) (w_effects w)
    (w_now w).
Definition ww_views (v : gmap nat nat) (w : World) : World :=
  mkWorld (w_heap w) (w_runs w) (w_tab w) (w_nextRun w) (w_nextKey w) (w_sessions w)
    (w_sessionsDemo w) (w_demo w) (w_pollTimer w) (w_polling w) v (w_nextView w) (w_effects w)
    (w_now w).
Definition ww_nextView (v : nat) (w : World) : World :=
  mkWorld (w_heap w) (w_runs w) (w_tab w) (w_nextRun w) (w_nextKey w) (w_sessions w)
    (w_sessionsDemo w) (w_demo w) (w_pollTimer w) (w_polling w) (w_views w) v (w_effects w)
    (w_now w).
Definition ww_effects (v : list Effect) (w : World) : World :=
  mkWorld (w_heap w) (w_runs w) (w_tab w) (w_nextRun w) (w_nextKey w) (w_sessions w)
    (w_sessionsDemo w) (w_demo w) (w_pollTimer w) (w_polling w) (w_views w) (w_nextView w) v
    (w_now w).
Definition ww_now (v : Z) (w : World) : World :=
  mkWorld (w_heap w) (w_runs w) (w_tab w) (w_nextRun w) (w_nextKey w) (w_sessions w)
    (w_sessionsDemo w) (w_demo w) (w_pollTimer w) (w_polling w) (w_views w) (w_nextView w)
    (w_effects w) v.

Definition upd (id : nat) (f : Run → Run) (w : World) : World := ww_heap (alter f id (w_heap w)) w.
Definition with_tab (f : Tab → Tab) (w : World) : World := ww_tab (f (w_tab w)) w.
Definition effect (e : Effect) (w : World) : World := ww_effects (w_effects w ++ [e]) w.

(** An operation on the run [id]: [f] gets the run as it is now. *)
Definition on_run (id : nat) (f : Run → World → World) (w : World) : World :=
  match w_heap w !! id with Some r => f r w | None => w end.

Definition setLive (id : nat) (f : ChatLiveTurn → ChatLiveTurn) (w : World) : World :=
  upd id (λ r, set_live (f (r_live r)) r) w.

Definition cancelFrame (r : Run) : Run := set_frame false r.
Definition clearParkTimer (r : Run) : Run := set_parkTimer false r.

Definition r_kind (r : Run) : ChatActivityKind := ri_kind (r_info r).
Definition r_request (r : Run) : option ChatRequest := ri_request (r_info r).
Definition r_id (r : Run) : nat := ri_id (r_info r).
Definition running (r : Run) : bool := bool_decide (r_state r = SRunning).

(** [runs.get(scope)] *)
Definition run_at (scope : string) (w : World) : option Run :=
  jm_get (w_runs w) scope ≫= λ id, w_heap w !! id.

(** [runs.get(scope) === run] *)
Definition is_at (scope : string) (id : nat) (w : World) : bool :=
  bool_decide (jm_get (w_runs w) scope = Some id).

(** [Array.from(runs.values())] *)
Definition run_values (w : World) : list Run := omap (λ p : string * nat, w_heap w !! p.2) (w_runs w).

Definition findRun (scope : option string) (w : World) : option Run :=
  if truthy scope then scope ≫= λ s, run_at s w else None.

Definition consumeRun (id : nat) (w : World) : World :=
  on_run id (λ r w,
    let w := upd id (set_consumed true) w in
    if is_at (r_scope r) id w then ww_runs (jm_delete (w_runs w) (r_scope r)) w else w) w.

(** ** Item keys *)
Definition digit36 (n : Z) : string :=
  String (Ascii.ascii_of_nat (Z.to_nat (if n <? 10 then 48 + n else 87 + n))) EmptyString.

(** [n.toString(36)] of a time; fourteen digits hold every [Date.now()]. *)
Fixpoint toString36 (fuel : nat) (n : Z) : string :=
  match fuel with
  | O => ""
  | S fuel' => (if n <? 36 then "" else toString36 fuel' (n / 36)) +:+ digit36 (n mod 36)
  end.

Definition nextItemKey (prefix : string) (w : World) : string * World :=
  let n := S (w_nextKey w) in
  (prefix +:+ "-" +:+ toString36 14 (w_now w) +:+ "-" +:+ pretty.pretty (N.of_nat n), ww_nextKey n w).

(** ** The activity entries the runner writes *)
Definition patch_fields (e : ChatActivity) (conversationId turnId : option string) (label : option string)
    (lookups : Z) (parked : option bool) : ChatActivity :=
  mkActivity (a_scope e) (a_kind e) conversationId (a_caseId e) turnId (a_requestKey e) (a_title e)
    label lookups (a_status e) (a_seen e) (a_startedAt e) (a_source e) parked.

(** [{ label, lookups }], [{ parked }], [{ turnId, conversationId }] and [{ conversationId }] *)
Definition patch_progress (label : option string) (lookups : Z) (e : ChatActivity) : ChatActivity :=
  patch_fields e (a_conversationId e) (a_turnId e) label lookups (a_parked e).
Definition patch_parked (b : bool) (e : ChatActivity) : ChatActivity :=
  patch_fields e (a_conversationId e) (a_turnId e) (a_label e) (a_lookups e) (Some b).
Definition patch_turn (turnId conversationId : option string) (e : ChatActivity) : ChatActivity :=
  patch_fields e conversationId turnId (a_label e) (a_lookups e) (a_parked e).
Definition patch_conversation (conversationId : option string) (e : ChatActivity) : ChatActivity :=
  patch_fields e conversationId (a_turnId e) (a_label e) (a_lookups e) (a_parked e).

(** ** Registry *)

(** [runs.set(run.scope, run)] and the bound on settled runs nobody opened. *)
Definition drop_stale (r : Run) (w : World) : World :=
  let w := upd (r_id r) (set_consumed true) w in
  ww_runs (jm_delete (w_runs w) (r_scope r)) w.

Definition register (id : nat) (w : World) : World :=
  on_run id (λ r w,
    let w := match jm_get (w_runs w) (r_scope r) with
             | Some previous => if decide (previous = id) then w else upd previous (set_consumed true) w
             | None => w
             end in
    let w := ww_runs (jm_set (w_runs w) (r_scope r) id) w in
    let settled := List.filter (λ r, negb (running r)) (run_values w) in
    foldl (λ w stale, drop_stale stale w) w (take (length settled - MAX_SETTLED_RUNS) settled)) w.

(** ** Parking *)
Definition scheduleParkCheck (id : nat) (w : World) : World :=
  on_run id (λ r w,
    if negb (running r) || (0 <? r_attached r)%nat || r_parked r || r_parkTimer r then w
    else upd id (set_parkTimer true) w) w.

Definition requestPark (id : nat) (w : World) : World :=
  on_run id (λ r w,
    if negb (running r) || (0 <? r_attached r)%nat || r_parked r || r_parkRequested r then w
    else if negb (truthy (r_turnId r)) || bool_decide (r_read r = None)
            || bool_decide (r_transport r = Blocking) || lv_waiting (r_live r) then w
    else upd id (λ r, set_read (Some true) (set_parkRequested true r)) w) w.

(** The timer of [scheduleParkCheck] runs out. *)
Definition parkTimerFires (id : nat) (w : World) : World :=
  on_run id (λ r w,
    if r_parkTimer r then requestPark id (upd id (set_parkTimer false) w) else w) w.

Definition parkedRuns (w : World) : list Run :=
  List.filter (λ r, r_parked r && running r) (run_values w).

Definition scheduleParkPoll (w : World) : World :=
  if w_pollTimer w || w_polling w || bool_decide (parkedRuns w = []) then w else ww_pollTimer true w.

(** [await parkedWait(run)]: parked, or straight on to the head of the loop. *)
Definition set_pc (pc : Pc) (r : Run) : Run := set_drive (dr_pc pc (r_drive r)) r.

Definition parkedWait (id : nat) (w : World) : World :=
  let w := upd id (set_parkRequested false) w in
  on_run id (λ r w,
    if (0 <? r_attached r)%nat || negb (running r) || r_aborted r then upd id (set_pc PcTop) w
    else
      let w := upd id (set_parked true) w in
      let w := with_tab (patchChatActivity (r_scope r) (patch_parked true)) w in
      let w := scheduleParkPoll w in
      upd id (set_pc PcParked) w) w.

(** [run.wake?.()] ends the parked wait. *)
Definition wake (r : Run) : Run :=
  if decide (d_pc (r_drive r) = PcParked) then set_pc PcTop r else r.

Definition unpark (id : nat) (w : World) : World :=
  on_run id (λ r w,
    if negb (r_parked r) then w
    else
      let w := upd id (set_parked false) w in
      let w := if running r then with_tab (patchChatActivity (r_scope r) (patch_parked false)) w else w in
      upd id wake w) w.

Definition wakeParkedRun (turnId : string) (w : World) : World :=
  foldl (λ w r, if decide (r_turnId r = Some turnId) then unpark (r_id r) w else w) w (parkedRuns w).

(** ** Views *)
Definition attachRun (id : nat) (w : World) : World :=
  on_run id (λ _ w,
    let w := upd id (λ r, clearParkTimer (set_attached (S (r_attached r)) r)) w in
    let w := unpark id w in
    ww_nextView (S (w_nextView w)) (ww_views (<[w_nextView w := id]> (w_views w)) w)) w.

(** The function [attachRun] returned; called again it does nothing. *)
Definition detachRun (token : nat) (w : World) : World :=
  match w_views w !! token with
  | None => w
  | Some id =>
      let w := ww_views (delete token (w_views w)) w in
      on_run id (λ r w,
        let w := upd id (set_attached (r_attached r - 1)) w in
        if (r_attached r - 1 =? 0)%nat then scheduleParkCheck id w else w) w
  end.

(** ** Stop and sign-out *)

(** [controller.abort()]: the open read, the parked wait and a sleep all end. *)
Definition abort_run (r : Run) : Run :=
  let r := set_read ((λ _, true) <$> r_read r) (set_aborted true r) in
  match d_pc (r_drive r) with PcParked | PcSleeping => set_pc PcTop r | _ => r end.

Definition cancelChatTurn (turnId : string) (w : World) : World :=
  if isSafeChatId (Some turnId) then effect (ECancel turnId) w else w.

Definition stopRun (id : nat) (force : bool) (w : World) : World :=
  on_run id (λ r w,
    if negb (running r) || bool_decide (r_transport r = Blocking) then w
    else if force || r_stopRequested r || lv_waiting (r_live r)
    then upd id (λ r, abort_run (set_forcedStop true r)) w
    else
      let w := upd id (set_stopRequested true) w in
      let w := setLive id (live_stopping true) w in
      if truthy (r_turnId r) then cancelChatTurn (default "" (r_turnId r)) w
      else upd id (set_cancelWhenStarted true) w) w.

Definition abort_one (r : Run) : Run :=
  let r := abort_run (clearParkTimer (cancelFrame (set_consumed true r))) in
  if running r then set_state SLost r else r.

Definition abortAllRuns (w : World) : World :=
  let w := ww_pollTimer false w in
  let w := foldl (λ w p, upd p.2 abort_one w) w (w_runs w) in
  ww_sessions [] (ww_runs [] w).

(** ** What a settled run shows *)
Definition settledUserItem (r : Run) : option ChatUserItem :=
  match ri_userItem (r_info r) with
  | None => None
  | Some u =>
      let failed := match r_state r with
                    | SDone => match r_response r with Some re => isUnsavedTurn re | None => false end
                    | _ => true
                    end in
      let saved := match r_state r with
                   | SDone => if failed then None else r_response r ≫= re_user_message_id
                   | _ => None
                   end in
      Some (mkUserItem (ui_key u)
              (match ui_messageId u with Some m => Some m | None => saved end)
              (ui_content u) (ui_prompt u) (ui_origin u) (ui_at u) (ui_requestKey u) failed)
  end.

(** [s?.trim()] as the fallback chain reads it *)
Definition trimmed (s : option string) : option string := trim <$> s.

(** [a || null] *)
Definition or_null (a : option string) : option string := if truthy a then a else None.

Definition runAssistantItem (r : Run) : ChatAssistantItem :=
  let request := r_request r in
  let base := mkAssistantItem (ri_assistantKey (r_info r)) None (ri_startedAt (r_info r))
                (ri_requestKey (r_info r)) ItemRunning None (Some (r_live r)) None false
                (request ≫= rq_model) (request ≫= rq_source_id) request in
  let settled response :=
    mkAssistantItem (ai_key base) (response ≫= re_message_id) (ai_at base) (ai_requestKey base) ItemDone
      response None None false
      (or_null (or_string (trimmed (response ≫= re_effective_model)) (request ≫= rq_model)))
      (or_null (or_string (trimmed (response ≫= re_effective_source_name))
                  (or_string (trimmed (response ≫= re_effective_source_id)) (request ≫= rq_source_id))))
      request in
  match r_state r with
  | SRunning | SLost => base
  | SError =>
      mkAssistantItem (ai_key base) None (ai_at base) (ai_requestKey base) ItemError None None (r_failure r)
        false (ai_model base) (ai_source base) request
  | SStopped => settled (Some (stoppedResponse (Some (live_text (r_text r) (r_live r)))))
  | SDone => settled (r_response r)
  end.

Definition runExchange (r : Run) : list HistoryEntry :=
  match r_state r, r_response r, r_request r with
  | SDone, Some response, Some request =>
      if isUnsavedTurn response || truthy (re_command response) then []
      else [mkHistory true (rq_message request) (Some (default OrUser (rq_origin request))) (ri_requestKey (r_info r));
            mkHistory false (re_answer response) None (ri_requestKey (r_info r))]
  | _, _, _ => []
  end.

(** ** Case sessions *)
Definition noteCaseSessionsDemoIdentity (identity : string) (w : World) : World :=
  if decide (Some identity = w_sessionsDemo w) then w
  else
    let w := match w_sessionsDemo w with Some _ => ww_sessions [] w | None => w end in
    ww_sessionsDemo (Some identity) w.

Definition isCaseRunOfAnotherDemo (r : Run) (w : World) : bool :=
  bool_decide (r_kind r = CaseChat) && negb (String.eqb (ri_demo (r_info r)) (currentChatDemoIdentity (w_demo w))).

(** Read and moved to the end: the most recently used. *)
Definition readCaseSession (caseId : string) (w : World) : option CaseSession * World :=
  match jm_get (w_sessions w) caseId with
  | None => (None, w)
  | Some s => (Some s, ww_sessions (jm_set (jm_delete (w_sessions w) caseId) caseId s) w)
  end.

(** [while (items.length && items[0].kind !== 'user') items = items.slice(1)] *)
Fixpoint from_prompt (items : list ChatTranscriptItem) : list ChatTranscriptItem :=
  match items with
  | AssistantItem _ :: items' => from_prompt items'
  | _ => items
  end.

(** Delete the oldest keys while there are more than [MAX_CASE_SESSIONS]. *)
Fixpoint evict (keys : list string) (m : list (string * CaseSession)) : list (string * CaseSession) :=
  match keys with
  | [] => m
  | k :: keys' => if (length m <=? MAX_CASE_SESSIONS)%nat then m else evict keys' (jm_delete m k)
  end.

Definition bounded_items (items : list ChatTranscriptItem) : list ChatTranscriptItem :=
  if (MAX_CASE_SESSION_ITEMS <? length items)%nat
  then from_prompt (drop (length items - MAX_CASE_SESSION_ITEMS) items) else items.

Definition writeCaseSession (caseId : string) (s : CaseSession) (w : World) : World :=
  let m := jm_delete (w_sessions w) caseId in
  match se_items s, se_history s with
  | [], [] => ww_sessions m w
  | _, _ =>
      let m := jm_set m caseId (mkSession (bounded_items (se_items s)) (se_history s)) in
      ww_sessions (evict m.*1 m) w
  end.

Definition appendToCaseSession (caseId : string) (r : Run) (w : World) : World :=
  let s := default (mkSession [] []) (jm_get (w_sessions w) caseId) in
  let key := ri_requestKey (r_info r) in
  let items := List.filter (λ i, negb (bool_decide (item_requestKey i = key)) || negb (truthy key)) (se_items s) in
  writeCaseSession caseId
    (mkSession (items ++ option_list (UserItem <$> settledUserItem r) ++ [AssistantItem (runAssistantItem r)])
       (List.filter (λ e, negb (bool_decide (he_requestKey e = key))) (se_history s) ++ runExchange r)) w.

(** ** Settling *)
Definition starts_with (p s : string) : bool := String.prefix p s.

Definition rekeyRun (id : nat) (conversationId : string) (w : World) : World :=
  on_run id (λ r w,
    let to := "conv:" +:+ conversationId in
    if String.eqb (r_scope r) to || (match run_at to w with Some r' => running r' | None => false end) then w
    else
      let from := r_scope r in
      let w := if is_at from id w then ww_runs (jm_delete (w_runs w) from) w else w in
      let w := upd id (λ r, set_conversationId (Some conversationId) (set_scope to r)) w in
      let w := ww_runs (jm_set (w_runs w) to id) w in
      with_tab (rekeyChatActivity from to (patch_conversation (Some conversationId))) w) w.

(** The outcome the activity store hears. *)
Definition settle_outcome (st : TurnRunState) (stopRequested : bool) (response : option ChatResponse)
    : ChatActivityOutcome :=
  if bool_decide (st = SStopped) || stopRequested ||
     bool_decide (tn_kind <$> (response ≫= re_notice) = Some NCancelled)
  then OStopped
  else match response with
       | None => OError
       | Some re => if isUnsavedTurn re then OError
                    else match re_clarify re with Some _ => ONeedsInput | None => ODone end
       end.

Definition unreachable_run (r : Run) (saved : bool) : bool :=
  bool_decide (r_kind r = Workspace) &&
  match r_request r with
  | Some rq => negb (truthy (rq_conversation_id rq)) && negb saved
  | None => false
  end.

Definition settle_options (r : Run) (unreachable : bool) : SettleOptions :=
  mkSettleOptions unreachable
    (if unreachable then rq_message <$> r_request r else None)
    (if unreachable then
       Some (match r_request r ≫= rq_origin with
             | Some o => o
             | None => from_option ui_origin OrUser (ri_userItem (r_info r))
             end)
     else None)
    (if unreachable then r_request r ≫= rq_topic else None)
    (0 <? r_attached r)%nat (match r_request r with None => true | Some _ => false end).

Definition finish_settle (id : nat) (st : TurnRunState) (w : World) : World :=
  on_run id (λ r w,
    let response := if decide (st = SDone) then r_response r else None in
    let saved := truthy (response ≫= re_message_id) in
    let conv := response ≫= re_conversation_id in
    let w := if saved && bool_decide (r_kind r = Workspace) && ri_persisted (r_info r) && truthy conv &&
                starts_with "draft:" (r_scope r)
             then rekeyRun id (default "" conv) w else w in
    on_run id (λ r w,
      let outcome := settle_outcome st (r_stopRequested r) response in
      let unreachable := unreachable_run r saved in
      let w := with_tab (settleChatActivity (r_scope r) outcome true (settle_options r unreachable)) w in
      if unreachable && (r_attached r =? 0)%nat then consumeRun id w else w) w) w.

(** [finish(run, state, fields)]: [fields] assigns the given fields. *)
Definition finish (id : nat) (st : TurnRunState) (fields : Run → Run) (w : World) : World :=
  on_run id (λ r w,
    if negb (running r) then w
    else
      let w := upd id (λ r, set_state st (fields (set_parked false (clearParkTimer (cancelFrame r))))) w in
      let w := if bool_decide (st = SLost) || starts_with "turn:" (r_scope r)
               then with_tab (dropChatActivity (r_scope r) true) w
               else finish_settle id st w in
      let w := if decide (r_kind r = Workspace) then effect EHistory w else w in
      on_run id (λ r w,
        if bool_decide (r_kind r = CaseChat) && truthy (ri_caseId (r_info r)) && (r_attached r =? 0)%nat then
          let w := if isCaseRunOfAnotherDemo r w then w
                   else appendToCaseSession (default "" (ri_caseId (r_info r))) r
                          (noteCaseSessionsDemoIdentity (ri_demo (r_info r)) w) in
          consumeRun id w
        else w) w) w.

(** ** Events *)

(** The scheduled frame runs. *)
Definition flushText (id : nat) (w : World) : World :=
  on_run id (λ r w,
    if negb (r_frame r) then w
    else
      let w := upd id (set_frame false) w in
      if running r then setLive id (live_text (r_text r)) w else w) w.

Definition noteStep (id : nat) (label : string) (w : World) : World :=
  on_run id (λ r w, with_tab (patchChatActivity (r_scope r) (patch_progress (Some label) (lookupsOf (r_live r)))) w) w.

Definition onTurnStart (id : nat) (e : TurnStartEvent) (w : World) : World :=
  on_run id (λ r w,
    let w := upd id (set_turnId (Some (ts_turn_id e))) w in
    let w := if truthy (ts_conversation_id e) then upd id (set_conversationId (ts_conversation_id e)) w else w in
    let w := if r_cancelWhenStarted r ||
                (r_stopRequested r && bool_decide (is_Some (r_turnId r)) &&
                 negb (bool_decide (r_turnId r = Some (ts_turn_id e))))
             then cancelChatTurn (ts_turn_id e) (upd id (set_cancelWhenStarted false) w) else w in
    let w := upd id (λ r, cancelFrame (set_text "" r)) w in
    let w := setLive id (live_started e) w in
    on_run id (λ r w,
      let w := with_tab (patchChatActivity (r_scope r) (patch_turn (Some (ts_turn_id e)) (r_conversationId r))) w in
      let w := if bool_decide (r_kind r = Workspace) && ri_persisted (r_info r) && truthy (ts_conversation_id e) &&
                  starts_with "draft:" (r_scope r)
               then rekeyRun id (default "" (ts_conversation_id e)) w else w in
      if (r_attached r =? 0)%nat then scheduleParkCheck id w else w) w) w.

Definition handleEvent (id : nat) (e : ChatStreamEvent) (w : World) : World :=
  on_run id (λ r w,
    if negb (running r) then w
    else
      match e with
      | TurnStart e => onTurnStart id e w
      | StepStart step =>
          if has_step (si_index step) (lv_steps (r_live r)) then w
          else noteStep id (si_label step)
                 (setLive id (λ l, live_steps (add_step step (w_now w) (lv_steps l)) l) w)
      | StepEnd result =>
          noteStep id (si_label (cs_info result))
            (setLive id (λ l, live_steps (end_step result (w_now w) (lv_steps l)) l) w)
      | StepProgress index done total unit_ =>
          setLive id (λ l, if has_step index (lv_steps l)
                           then live_steps (progress_step index (mkProgress done total unit_) (lv_steps l)) l
                           else l) w
      | UsageTotals totals => setLive id (live_usage (Some totals)) w
      | TextDelta text => upd id (λ r, set_frame true (set_text (r_text r +:+ text) r)) w
      | TextReset => setLive id (live_text "") (upd id (λ r, cancelFrame (set_text "" r)) w)
      | TextContinued part => setLive id (live_continued (Some part)) w
      | TurnDone _ | TurnError _ | Ping => w
      end) w.
