(* ===== verification/RunnerDrive.v ===== *)
(** * The turn runner: one run's [drive] loop, starting runs, and every operation as a step
    (soc/chat/turn-runner.ts)

    [drive_top] is the head of the [for (;;)] loop; the loop then waits for its read
    ([drive_event], [drive_result]), a timer ([sleepEnds]) or a park. *)

From S2P Require Import Prelude JsValue JsMap Activity ActivityNotices Turn Runner.
From Stdlib Require Import QArith Qcanon.
Local Close Scope Qc_scope.
Local Close Scope Q_scope.
Local Open Scope Z_scope.

(** [TURN_RUNNER_TIMING.busyWaitLimitMs] *)
Definition busyWaitLimitMs : Z := 300000.

(** The display sanitiser (soc/chat/stream-events.ts): value, limit, multiline. *)
Class Display := { displayText : string → Z → bool → string }.

(** [Number(s)], when finite. *)
Class ParseNumber := { parse_number : string → option Qc }.

Section drive.
Context `{Display} `{ParseNumber}.

Definition on_drive (f : Drive → Drive) (r : Run) : Run := set_drive (f (r_drive r)) r.

(** [between()] and the [finally] clause: no read is open. *)
Definition no_read (r : Run) : Run := set_read None r.

(** [return] *)
Definition drive_ends (id : nat) (w : World) : World := upd id (set_pc PcEnded) w.

(** [if (run.forcedStop) finish(run, 'stopped'); return;] *)
Definition end_aborted (id : nat) (w : World) : World :=
  on_run id (λ r w, drive_ends id (if r_forcedStop r then finish id SStopped (λ r, r) w else w)) w.

Definition end_failed (id : nat) (f : ChatTurnFailure) (w : World) : World :=
  drive_ends id (finish id SError (set_failure (Some f)) w).

(** The head of the loop: the next read. *)
Definition drive_top (id : nat) (w : World) : World :=
  on_run id (λ r w,
    let d := r_drive r in
    if negb (bool_decide (d_pc d = PcTop)) then w
    else if r_aborted r then end_aborted id w
    else if negb (running r) then drive_ends id w
    else
      let w := upd id (λ r, set_read (Some false) (set_parkRequested false r)) w in
      let w := if (r_attached r =? 0)%nat then scheduleParkCheck id w else w in
      let w := match d_mode d, r_request r, d_body d with
               | MBlocking, Some request, _ =>
                   let w := upd id (set_transport Blocking) w in
                   effect (EPostBlocking id request) (setLive id (live_transport Blocking) w)
               | MPost, _, Some body => effect (EPost id body) w
               | _, _, _ => effect (EGetEvents id (r_turnId r) (d_after d)) w
               end in
      upd id (set_pc PcReading) w) w.

Definition is_ping (e : ChatStreamEvent) : bool := match e with Ping => true | _ => false end.
Definition is_start (e : ChatStreamEvent) : bool := match e with TurnStart _ => true | _ => false end.

(** The counters of [onPostEvent] (a POST line carries no [seq]) and of [onEvent]. *)
Definition note_event (e : ChatStreamEvent) (seq : option Z) (d : Drive) : Drive :=
  let post := bool_decide (d_mode d = MPost) in
  let d := if post && negb (is_ping e) then dr_postEvents (d_postEvents d + 1) d else d in
  let d := match (if post then None else seq) with
           | Some seq => dr_after (Z.max (d_after d) seq) d
           | None => d
           end in
  if is_ping e then d else dr_drops 0 d.

Definition reconnects (e : ChatStreamEvent) (r : Run) : bool :=
  negb (is_ping e) && negb (bool_decide (lv_connection (r_live r) = Open)) && negb (is_start e).

Definition drive_event (id : nat) (e : ChatStreamEvent) (seq : option Z) (w : World) : World :=
  on_run id (λ r w,
    let w := upd id (on_drive (note_event e seq)) w in
    let w := if reconnects e r then setLive id (live_connection Open) w else w in
    handleEvent id e w) w.

(** [resend()] *)
Definition resend (id : nat) (w : World) : World :=
  upd id (λ r,
    let r := on_drive (λ d, dr_pc PcTop (dr_postEvents 0 (dr_mode MPost (dr_resent true d)))) r in
    let r := no_read (cancelFrame (set_text "" r)) in
    set_live (live_text "" (live_connection Recovering (r_live r))) r) w.

(** [await sleep(ms, signal)]: an aborted run does not wait. *)
Definition sleep (id : nat) (ms : Qc) (w : World) : World :=
  on_run id (λ r w,
    if r_aborted r then upd id (set_pc PcTop) w
    else effect (ESleep ms) (upd id (set_pc PcSleeping) w)) w.

Definition sleepEnds (id : nat) (w : World) : World :=
  on_run id (λ r w, if decide (d_pc (r_drive r) = PcSleeping) then upd id (set_pc PcTop) w else w) w.

(** [await reattach()] *)
Definition reattach (id : nat) (w : World) : World :=
  on_run id (λ r w,
    let drops := d_drops (r_drive r) + 1 in
    let w := upd id (λ r,
      let r := on_drive (λ d,
        let d := if decide (d_mode d = MEvents) then d else dr_after 0 d in
        dr_drops drops (dr_mode MEvents d)) r in
      let r := no_read r in
      set_live (live_connection Recovering (r_live r)) r) w in
    if 1 <? drops then sleep id (recoveryDelayMs (drops - 2) None) w
    else upd id (set_pc PcTop) w) w.

(** [await park(malformed)] *)
Definition park (id : nat) (malformed : option Z) (w : World) : World :=
  let w := upd id (λ r,
    no_read (on_drive (λ d,
      let d := if decide (d_mode d = MPost)
               then dr_after (if decide (malformed = Some 0) then d_postEvents d else 0) d else d in
      dr_mode MEvents d) r)) w in
  parkedWait id w.

(** How a read ends: an outcome, the response of a blocking call, or a throw. *)
Inductive ReadOutcome :=
  | OutDone (response : ChatResponse)
  | OutError (e : TurnErrorEvent)
  | OutAborted (malformed : Z)
  | OutIncomplete
  | OutThrow (e : Thrown).

Definition lost_message (resent : bool) : string :=
  if resent then "Connection lost and the saved answer could not be confirmed. Retry to check again."
  else "Connection lost before the answer arrived.".

(** A stream that ended without a terminal event. *)
Definition drive_incomplete (id : nat) (w : World) : World :=
  on_run id (λ r w,
    let d := r_drive r in
    if truthy (r_turnId r) && negb (d_gone d) && (d_drops d <? MAX_REATTACH_ATTEMPTS) then reattach id w
    else if d_canResend d && negb (d_resent d) then resend id w
    else end_failed id (connectionLost (lost_message (d_resent d)) None) w) w.

(** 429 [chat_busy]: wait for capacity, for a while. *)
Definition drive_busy (id : nat) (e : Thrown) (w : World) : World :=
  on_run id (λ r w,
    let since := default (w_now w) (d_busySince (r_drive r)) in
    let w := upd id (on_drive (dr_busySince (Some since))) w in
    if busyWaitLimitMs <=? w_now w - since
    then end_failed id (failureFromError e "Chat is busy with other answers. Try again in a moment.") w
    else
      let w := setLive id (live_waiting true) w in
      let w := upd id no_read w in
      let w := sleep id (recoveryDelayMs (d_busyWaits (r_drive r)) (apiRetryAfterSeconds parse_number e)) w in
      upd id (on_drive (λ d, dr_busyWaits (d_busyWaits d + 1) d)) w) w.

(** 404 of the event ring: the turn is gone. *)
Definition drive_gone (id : nat) (w : World) : World :=
  on_run id (λ r w,
    let d := r_drive r in
    let w := upd id (on_drive (dr_gone true)) w in
    if d_canResend d && negb (d_resent d) then resend id w
    else match d_body d with
         | None => drive_ends id (finish id SLost (λ r, r) w)
         | Some _ =>
             end_failed id (connectionLost
               "Connection lost and the answer could not be found. Retry to ask again." (Some 404)) w
         end) w.

(** The 409 branch: [None] when it falls through. *)
Definition drive_in_progress (id : nat) (e : Thrown) (r : Run) (w : World) : option World :=
  match holderTurnId e with
  | Some holder =>
      Some (reattach id (upd id (λ r, on_drive (λ d, dr_gone false (dr_drops 0 d)) (set_turnId (Some holder) r)) w))
  | None =>
      if d_resent (r_drive r) then
        let w := upd id no_read w in
        let w := sleep id (recoveryDelayMs (d_waits (r_drive r)) (apiRetryAfterSeconds parse_number e)) w in
        Some (upd id (on_drive (λ d, dr_waits (d_waits d + 1) d)) w)
      else None
  end.

(** The [catch] clause. [read_aborted] is [read.signal.aborted]. *)
Definition drive_catch (id : nat) (read_aborted : bool) (e : Thrown) (w : World) : World :=
  on_run id (λ r w,
    let d := r_drive r in
    let code := apiErrorCode e in
    let fails := end_failed id (failureFromError e "Unexpected error contacting the assistant.") w in
    if r_aborted r || negb (running r) then end_aborted id w
    else if r_parkRequested r && read_aborted then park id None w
    else if bool_decide (d_mode d = MPost) && negb (d_resent d) && isStreamUnsupportedError e then
      upd id (λ r, on_drive (λ d, dr_pc PcTop (dr_mode MBlocking d)) (set_streamUnsupported true r)) w
    else
      match e with
      | ApiError status _ _ =>
          if negb (bool_decide (d_mode d = MEvents)) && (status =? 429) && bool_decide (code = Some "chat_busy")
          then drive_busy id e w
          else
            let in_progress :=
              if bool_decide (d_mode d = MPost) && d_canResend d && (status =? 409) &&
                 bool_decide (code = Some "chat_request_in_progress")
              then drive_in_progress id e r w else None in
            match in_progress with
            | Some w => w
            | None =>
                if bool_decide (d_mode d = MEvents) && (status =? 404) then drive_gone id w
                else if bool_decide (d_mode d = MEvents) && (status =? 0) && (d_drops d <? MAX_REATTACH_ATTEMPTS)
                then reattach id w
                else fails
            end
      | _ => fails
      end) w.

(** What the loop does with the end of its read. *)
Definition drive_result (id : nat) (o : ReadOutcome) (w : World) : World :=
  on_run id (λ r w,
    if negb (bool_decide (d_pc (r_drive r) = PcReading)) then w
    else
      let read_aborted := default false (r_read r) in
      let w := upd id no_read w in
      match o with
      | OutThrow e => drive_catch id read_aborted e w
      | OutDone response =>
          if negb (running r) then drive_ends id w
          else drive_ends id (finish id SDone (set_response (Some response)) w)
      | OutError e =>
          if negb (running r) then drive_ends id w else end_failed id (failureFromTurnError e) w
      | OutAborted malformed =>
          if negb (running r) then drive_ends id w
          else if r_aborted r then end_aborted id w
          else if r_parkRequested r then park id (Some malformed) w
          else drive_ends id w
      | OutIncomplete => if negb (running r) then drive_ends id w else drive_incomplete id w
      end) w.

(** ** Starting runs *)

(** [drive(run, body, blocking, startParked)], up to its first wait. *)
Definition new_drive (kind : ChatActivityKind) (body : option ChatRequest) (blocking : bool) : Drive :=
  mkDrive body
    (match body with
     | Some b => rq_persist b && truthy (rq_idempotency_key b) && bool_decide (kind = Workspace)
     | None => false
     end)
    (match body with None => MEvents | Some _ => if blocking then MBlocking else MPost end)
    0 0 false 0 None 0 0 false PcTop.

Record RunFields := mkFields {
  mf_scope : string;
  mf_kind : ChatActivityKind;
  mf_caseId : option string;
  mf_request : option ChatRequest;
  mf_userItem : option ChatUserItem;
  mf_transport : Transport;
  mf_streamMode : ChatStreamMode;
  mf_conversationId : option string;
  mf_turnId : option string;
  mf_startedAt : Z;
}.

(** [makeRun(fields)], with the [drive] it is about to run. *)
Definition makeRun (f : RunFields) (d : Drive) (w : World) : nat * World :=
  let id := S (w_nextRun w) in
  let '(key, w) := nextItemKey "assistant" (ww_nextRun id w) in
  let info := mkRunInfo id (mf_kind f) (mf_caseId f) (mf_request f) (mf_request f ≫= rq_idempotency_key)
                (from_option rq_persist false (mf_request f)) (mf_userItem f) key (mf_startedAt f)
                (currentChatDemoIdentity (w_demo w)) in
  let live := mkLive (mf_transport f) (mf_turnId f) (mf_request f ≫= rq_model) (mf_streamMode f) false 0 [] None ""
                false Open false (mf_startedAt f) None in
  (id, ww_heap (<[id := mkRun info (mf_scope f) SRunning live None None (mf_turnId f) (mf_conversationId f)
                          (mf_transport f) false false 0 false false false false "" false None false false false d]>
         (w_heap w)) w).

Record StartRunOptions := mkStart {
  so_scope : string;
  so_kind : ChatActivityKind;
  so_caseId : option string;
  so_request : ChatRequest;
  so_origin : ChatOrigin;
  so_transport : Transport;
  so_streamMode : ChatStreamMode;
}.

Definition with_stream_mode (m : ChatStreamMode) (q : ChatRequest) : ChatRequest :=
  mkRequest (rq_message q) (rq_model q) (rq_source_id q) (rq_conversation_id q) (rq_persist q)
    (rq_idempotency_key q) (Some m) (rq_origin q) (rq_topic q) (rq_more q).

Definition startRun (o : StartRunOptions) (w : World) : nat * World :=
  let request := so_request o in
  let '(key, w) := nextItemKey "user" w in
  let user := mkUserItem key None (displayText (rq_message request) 0 true) (rq_message request) (so_origin o)
                (w_now w) (rq_idempotency_key request) false in
  let '(id, w) := makeRun
    (mkFields (so_scope o) (so_kind o) (so_caseId o) (Some request) (Some user) (so_transport o)
       (so_streamMode o) (rq_conversation_id request) None (w_now w))
    (new_drive (so_kind o) (Some (with_stream_mode (so_streamMode o) request))
       (bool_decide (so_transport o = Blocking))) w in
  let w := register id w in
  let w := with_tab (putChatActivity
    (mkActivity (so_scope o) (so_kind o) (rq_conversation_id request) (so_caseId o) None
       (rq_idempotency_key request) (displayText (rq_message request) 80 false) None 0 Running None (w_now w)
       Local_ None) true) w in
  (id, drive_top id w).

Record ReattachOptions := mkReattach {
  ro_scope : string;
  ro_kind : ChatActivityKind;
  ro_turnId : string;
  ro_conversationId : option string;
  ro_caseId : option string;
  ro_title : option string;
  ro_startedAt : option Z;
  ro_label : option string;
  ro_lookups : option Z;
}.

(** The part [reattachRun] and [trackRun] share; [tracked] is [trackRun]'s. *)
Definition follow (o : ReattachOptions) (tracked : bool) (w : World) : nat * World :=
  let startedAt := default (w_now w) (ro_startedAt o) in
  let '(id, w) := makeRun
    (mkFields (ro_scope o) (ro_kind o) (ro_caseId o) None None Stream ModeSteps (ro_conversationId o)
       (Some (ro_turnId o)) startedAt)
    (new_drive (ro_kind o) None false) w in
  let w := register id w in
  let w := with_tab (putChatActivity
    (mkActivity (ro_scope o) (ro_kind o) (ro_conversationId o) (ro_caseId o) (Some (ro_turnId o)) None
       (default "" (ro_title o)) (if tracked then ro_label o else None)
       (if tracked then default 0 (ro_lookups o) else 0) Running None startedAt Local_
       (if tracked then Some true else None)) true) w in
  (id, if tracked then parkedWait id w else drive_top id w).

Definition reattachRun (o : ReattachOptions) (w : World) : option nat * World :=
  match run_at (ro_scope o) w with
  | Some existing => (Some (r_id existing), w)
  | None =>
      if isSafeChatId (Some (ro_turnId o)) then let '(id, w) := follow o false w in (Some id, w)
      else (None, w)
  end.

Definition trackRun (o : ReattachOptions) (w : World) : option nat * World :=
  match run_at (ro_scope o) w with
  | Some existing =>
      if running existing then (Some (r_id existing), w)
      else if isSafeChatId (Some (ro_turnId o)) then let '(id, w) := follow o true w in (Some id, w)
      else (None, w)
  | None =>
      if isSafeChatId (Some (ro_turnId o)) then let '(id, w) := follow o true w in (Some id, w)
      else (None, w)
  end.

(** ** The park poll *)

(** [pollParkedRuns()], up to its request. *)
Definition pollParkedRuns (w : World) : World :=
  if w_polling w then w
  else
    let w := ww_pollTimer false w in
    if bool_decide (parkedRuns w = []) then w else effect EPoll (ww_polling true w).

Definition pollTimerFires (w : World) : World :=
  if w_pollTimer w then pollParkedRuns (ww_pollTimer false w) else w.

Definition lookupCount (v : jsval) : Z :=
  match v with
  | VNum n => if Qle_bool 0 n then (Qnum n / Z.pos (Qden n))%Z else 0
  | _ => 0
  end.

(** The turns the server lists, by id; a later row of the same id wins. *)
Definition listed_turns (response : jsval) : list (string * jsval) :=
  match response with
  | VArr turns =>
      foldl (λ m turn, match js_string (js_get turn "turn_id") with
                       | Some id => if isSafeChatId (Some id) then jm_set m id turn else m
                       | None => m
                       end) [] turns
  | _ => []
  end.

Definition poll_one (listed : list (string * jsval)) (w : World) (r : Run) : World :=
  match (if truthy (r_turnId r) then r_turnId r ≫= jm_get listed else None) with
  | None => unpark (r_id r) w
  | Some turn =>
      let label := match js_string (js_get turn "label") with Some l => displayText l 120 false | None => "" end in
      with_tab (patchChatActivity (r_scope r)
                  (patch_progress (or_null (Some label)) (lookupCount (js_get turn "lookups")))) w
  end.

(** The request comes back ([None]: it failed). *)
Definition pollEnds (response : option jsval) (w : World) : World :=
  if negb (w_polling w) then w
  else
    let w := ww_polling false w in
    let w := match response with
             | Some response => foldl (poll_one (listed_turns response)) w (parkedRuns w)
             | None => w
             end in
    scheduleParkPoll w.

(** ** The module's life: every call, every timer and everything the network does *)
Inductive rop :=
  | RoStart (o : StartRunOptions)
  | RoReattach (o : ReattachOptions)
  | RoTrack (o : ReattachOptions)
  | RoAttach (id : nat)
  | RoDetach (token : nat)
  | RoConsume (id : nat)
  | RoStop (id : nat) (force : bool)
  | RoWake (turnId : string)
  | RoParkTimer (id : nat)
  | RoPoll
  | RoPollTimer
  | RoPollEnds (response : option jsval)
  | RoFrame (id : nat)
  | RoTop (id : nat)
  | RoEvent (id : nat) (e : ChatStreamEvent) (seq : option Z)
  | RoResult (id : nat) (o : ReadOutcome)
  | RoSleepEnds (id : nat)
  | RoReadSession (caseId : string)
  | RoWriteSession (caseId : string) (s : CaseSession)
  | RoNoteDemo (identity : string)
  | RoDemo (demo : ChatDemoStatusView)
  | RoActivity (o : op)
  | RoTick (now : Z).

(** [onChatActivity('clear', abortAllRuns)]: sign-out here or in another tab. *)
Definition clears (o : op) : bool :=
  match o with OpClear _ | OpApply MClear => true | _ => false end.

Definition run_rop (o : rop) (w : World) : World :=
  match o with
  | RoStart o => (startRun o w).2
  | RoReattach o => (reattachRun o w).2
  | RoTrack o => (trackRun o w).2
  | RoAttach id => attachRun id w
  | RoDetach token => detachRun token w
  | RoConsume id => consumeRun id w
  | RoStop id force => stopRun id force w
  | RoWake turnId => wakeParkedRun turnId w
  | RoParkTimer id => parkTimerFires id w
  | RoPoll => pollParkedRuns w
  | RoPollTimer => pollTimerFires w
  | RoPollEnds response => pollEnds response w
  | RoFrame id => flushText id w
  | RoTop id => drive_top id w
  | RoEvent id e seq => drive_event id e seq w
  | RoResult id o => drive_result id o w
  | RoSleepEnds id => sleepEnds id w
  | RoReadSession caseId => (readCaseSession caseId w).2
  | RoWriteSession caseId s => writeCaseSession caseId s w
  | RoNoteDemo identity => noteCaseSessionsDemoIdentity identity w
  | RoDemo demo => ww_demo (noteChatDemoStatus demo (w_demo w)) w
  | RoActivity o =>
      let w := with_tab (run_op o) w in if clears o then abortAllRuns w else w
  | RoTick now => ww_now now w
  end.

Definition run_rops (ops : list rop) (w : World) : World := foldl (λ w o, run_rop o w) w ops.

(** What the browser and the network can do: only a view's own code consumes a settled run; events
    come from an open read that was not closed; a read is aborted only when it was closed; a
    response without an error comes from a blocking call or the terminal event. *)
Definition rop_ok (o : rop) (w : World) : Prop :=
  match o with
  | RoEvent id e seq =>
      ∃ r, w_heap w !! id = Some r ∧ d_pc (r_drive r) = PcReading ∧ r_read r = Some false ∧
           d_mode (r_drive r) ≠ MBlocking
  | RoResult id (OutAborted _) => ∃ r, w_heap w !! id = Some r ∧ r_read r = Some true
  | RoTick now => w_now w ≤ now
  | _ => True
  end.

Fixpoint rops_ok (ops : list rop) (w : World) : Prop :=
  match ops with
  | [] => True
  | o :: ops' => rop_ok o w ∧ rops_ok ops' (run_rop o w)
  end.

Definition initial_world (tab : Tab) : World :=
  mkWorld ∅ [] tab 0 0 [] None fresh_demo false false ∅ 0 [] 0.
End drive.
