(* ===== verification/RunnerInv.v ===== *)
(** * The turn runner's invariant: what holds of every run and of the registry, kept by every step *)

From S2P Require Import Prelude JsValue JsMap Activity ActivityNotices Turn Runner RunnerDrive.
From Stdlib Require Import QArith Qcanon.
Local Close Scope Qc_scope.
Local Close Scope Q_scope.
Local Open Scope Z_scope.

(** ** Step rows *)
Definition steps_sorted (l : list ChatLiveStep) : Prop := StronglySorted Z.lt (step_index <$> l).

Lemma step_le_total (a b : ChatLiveStep) :
  Is_true (step_index a <=? step_index b) ∨ Is_true (step_index b <=? step_index a).
Proof. rewrite !Is_true_true, !Z.leb_le. lia. Qed.

Lemma step_le_trans (a b c : ChatLiveStep) :
  Is_true (step_index a <=? step_index b) → Is_true (step_index b <=? step_index c) →
  Is_true (step_index a <=? step_index c).
Proof. rewrite !Is_true_true, !Z.leb_le. lia. Qed.

Lemma sort_steps_Permutation l : sort_steps l ≡ₚ l.
Proof. apply isort_Permutation. Qed.

Lemma has_step_spec i l : has_step i l = true ↔ i ∈ step_index <$> l.
Proof.
  unfold has_step. rewrite existsb_exists, list_elem_of_fmap.
  setoid_rewrite Z.eqb_eq. setoid_rewrite list_elem_of_In. naive_solver.
Qed.

(** Sorting rows of distinct indices gives strictly increasing rows. *)
Lemma sort_steps_sorted l : NoDup (step_index <$> l) → steps_sorted (sort_steps l).
Proof.
  intros Hnd. unfold steps_sorted.
  assert (Hs : StronglySorted (λ a b, step_index a <=? step_index b) (sort_steps l)).
  { apply isort_sorted; [apply step_le_total|apply step_le_trans]. }
  assert (Hnd' : NoDup (step_index <$> sort_steps l)) by (by rewrite sort_steps_Permutation).
  revert Hnd'. induction Hs as [|a s Hs IH Ha]; intros Hnd'; [constructor|].
  rewrite fmap_cons in *. apply NoDup_cons in Hnd' as [Hna Hnd']. constructor; [by apply IH|].
  rewrite Forall_forall in Ha. apply Forall_forall. intros i Hi.
  pose proof Hi as Hi'. apply list_elem_of_fmap in Hi as (b & -> & Hb).
  specialize (Ha b Hb). rewrite Is_true_true, Z.leb_le in Ha.
  assert (step_index a ≠ step_index b) by (intros He; by rewrite He in Hna). lia.
Qed.

Lemma StronglySorted_lt_NoDup (l : list Z) : StronglySorted Z.lt l → NoDup l.
Proof.
  induction 1 as [|x l Hs IH Hx]; [by apply NoDup_nil_2|]. apply NoDup_cons. split; [|done].
  intros Hin. rewrite Forall_forall in Hx. specialize (Hx x Hin). lia.
Qed.

Lemma add_step_sorted step now l :
  steps_sorted l → has_step (si_index step) l = false → steps_sorted (add_step step now l).
Proof.
  intros Hs%StronglySorted_lt_NoDup Hh. apply sort_steps_sorted. rewrite fmap_app. apply NoDup_app.
  split_and!; [done| |apply NoDup_singleton]. intros i Hi ->%list_elem_of_singleton.
  apply has_step_spec in Hi. unfold step_index in Hi. simpl in Hi. congruence.
Qed.

Lemma merge_step_indices result now l :
  step_index <$> merge_step result now l =
  if has_step (si_index (cs_info result)) l then step_index <$> l
  else (step_index <$> l) ++ [si_index (cs_info result)].
Proof.
  induction l as [|s l IH]; [done|]. cbn [merge_step has_step existsb].
  destruct (Z.eqb_spec (step_index s) (si_index (cs_info result))) as [He|Hne]; cbn [orb].
  - rewrite !fmap_cons. f_equal. by rewrite He.
  - rewrite !fmap_cons, IH. unfold has_step. by destruct (existsb _ l).
Qed.

Lemma end_step_sorted result now l : steps_sorted l → steps_sorted (end_step result now l).
Proof.
  intros Hs%StronglySorted_lt_NoDup. apply sort_steps_sorted. rewrite merge_step_indices.
  destruct (has_step _ l) eqn:Hh; [done|]. apply NoDup_app.
  split_and!; [done| |apply NoDup_singleton]. intros i Hi ->%list_elem_of_singleton.
  apply has_step_spec in Hi. congruence.
Qed.

Lemma progress_step_indices i p l : step_index <$> progress_step i p l = step_index <$> l.
Proof.
  unfold progress_step. rewrite <-list_fmap_compose. apply list_fmap_ext. intros _ s _. simpl.
  by destruct (step_index s =? i).
Qed.

Lemma progress_step_sorted i p l : steps_sorted l → steps_sorted (progress_step i p l).
Proof. unfold steps_sorted. by rewrite progress_step_indices. Qed.

(** ** One run *)
Record run_core (id : nat) (r : Run) : Prop := {
  rc_id : r_id r = id;
  rc_events : d_mode (r_drive r) = MEvents → r_turnId r ≠ None;
  rc_unviewed : r_parked r = true → r_state r = SRunning → r_attached r = 0%nat;
  rc_aborted : r_aborted r = true → r_state r = SRunning → r_forcedStop r = true;
  rc_closed : r_read r = Some true → r_aborted r = true ∨ r_parkRequested r = true;
  rc_open : r_read r = Some false → r_state r = SRunning;
  rc_named : r_parkRequested r = true → r_turnId r ≠ None;
  rc_steps : steps_sorted (lv_steps (r_live r));
  rc_resent : d_resent (r_drive r) = true → d_canResend (r_drive r) = true;
  rc_resend : d_canResend (r_drive r) = true →
    r_kind r = Workspace ∧ ri_persisted (r_info r) = true ∧ d_body (r_drive r) ≠ None;
  rc_drops : 0 ≤ d_drops (r_drive r) ≤ MAX_REATTACH_ATTEMPTS;
  rc_body : d_body (r_drive r) = None ↔ r_request r = None;
  rc_mode : d_mode (r_drive r) ≠ MEvents → d_body (r_drive r) ≠ None;
  rc_done : r_state r = SDone ↔ r_response r ≠ None;
  rc_error : r_state r = SError ↔ r_failure r ≠ None;
}.

(** What holds between the steps of [drive]: a read is open exactly while the loop waits for it,
    a running parked run waits to be woken (or was stopped), a loop that returned has settled. *)
Record run_pc (r : Run) : Prop := {
  rp_read : d_pc (r_drive r) = PcReading ↔ r_read r ≠ None;
  rp_parked : r_parked r = true → r_state r = SRunning →
    d_pc (r_drive r) = PcParked ∨ (r_aborted r = true ∧ d_pc (r_drive r) = PcTop);
  rp_wait : d_pc (r_drive r) = PcParked → r_parked r = true ∧ r_state r = SRunning;
  rp_end : d_pc (r_drive r) = PcEnded → r_state r ≠ SRunning;
}.

(** Inside a step of [drive]: the read is closed and the run is not parked, unless it was stopped. *)
Definition run_flux (r : Run) : Prop :=
  r_read r = None ∧ (r_parked r = true → r_state r = SRunning → r_aborted r = true).

Definition phase_ok (flux : option nat) (id : nat) (r : Run) : Prop :=
  if decide (flux = Some id) then run_flux r else run_pc r.
#[global] Arguments phase_ok : simpl never.

Definition run_ok (flux : option nat) (id : nat) (r : Run) : Prop := run_core id r ∧ phase_ok flux id r.

Lemma phase_flux id r : phase_ok (Some id) id r ↔ run_flux r.
Proof. unfold phase_ok. by rewrite decide_True. Qed.
Lemma phase_pc fl id r : fl ≠ Some id → phase_ok fl id r ↔ run_pc r.
Proof. intros Hne. unfold phase_ok. by rewrite decide_False. Qed.

(** ** The registry *)
Record world_inv (flux : option nat) (w : World) : Prop := {
  wi_runs : ∀ id r, w_heap w !! id = Some r → run_ok flux id r;
  wi_fresh : ∀ id r, w_heap w !! id = Some r → (id ≤ w_nextRun w)%nat;
  wi_keys : NoDup (w_runs w).*1;
  wi_map : ∀ s id, (s, id) ∈ w_runs w → ∃ r, w_heap w !! id = Some r ∧ r_scope r = s;
  (** every parked run of the registry is followed *)
  wi_poll : ∀ s id r, (s, id) ∈ w_runs w → w_heap w !! id = Some r →
    r_parked r = true → r_state r = SRunning → w_pollTimer w = true ∨ w_polling w = true;
}.

Lemma lookup_upd id f w id' r' :
  w_heap (upd id f w) !! id' = Some r' →
  (id' = id ∧ ∃ r, w_heap w !! id = Some r ∧ r' = f r) ∨ (id' ≠ id ∧ w_heap w !! id' = Some r').
Proof.
  unfold upd. cbn [w_heap ww_heap]. destruct (decide (id = id')) as [<-|Hne].
  - rewrite lookup_alter_eq. destruct (w_heap w !! id) as [r|] eqn:Hr; [|done].
    intros [= <-]. left. eauto.
  - rewrite lookup_alter_ne by done. eauto.
Qed.

Lemma lookup_upd_eq id f w r : w_heap w !! id = Some r → w_heap (upd id f w) !! id = Some (f r).
Proof. intros Hr. unfold upd. cbn [w_heap ww_heap]. by rewrite lookup_alter_eq, Hr. Qed.

Lemma lookup_upd_ne id id' f w : id ≠ id' → w_heap (upd id f w) !! id' = w_heap w !! id'.
Proof. intros Hne. unfold upd. cbn [w_heap ww_heap]. by rewrite lookup_alter_ne. Qed.

Definition followed (id : nat) (w : World) : Prop :=
  ∀ s, (s, id) ∈ w_runs w → w_pollTimer w = true ∨ w_polling w = true.

(** An update of one run that keeps its scope and parks it only when the poll follows it. *)
Lemma inv_upd_gen fl fl' id f w :
  world_inv fl w → (∀ j, j ≠ id → (fl = Some j ↔ fl' = Some j)) →
  (∀ r, w_heap w !! id = Some r → run_ok fl id r →
     run_ok fl' id (f r) ∧ r_scope (f r) = r_scope r ∧
     (r_parked (f r) = true → r_state (f r) = SRunning →
      (r_parked r = true ∧ r_state r = SRunning) ∨ followed id w)) →
  world_inv fl' (upd id f w).
Proof.
  intros [Hruns Hfresh Hkeys Hmap Hpoll] Hfl Hf. split; cbn [w_runs w_nextRun w_pollTimer w_polling upd ww_heap].
  - intros id' r' [(-> & r & Hr & ->)|[Hne Hr]]%lookup_upd.
    + by apply (Hf r Hr), Hruns.
    + destruct (Hruns _ _ Hr) as [Hc Hp]. split; [done|].
      destruct (decide (fl' = Some id')) as [E|E].
      * rewrite E, phase_flux. assert (fl = Some id') as Hf' by (by apply Hfl).
        by rewrite Hf', phase_flux in Hp.
      * apply phase_pc; [done|]. apply phase_pc in Hp; [done|]. by rewrite Hfl.
  - intros id' r' [(-> & r & Hr & ->)|[Hne Hr]]%lookup_upd; eauto.
  - done.
  - intros s id' Hin. destruct (Hmap s id' Hin) as (r & Hr & Hs).
    destruct (decide (id = id')) as [<-|Hne].
    + exists (f r). split; [by apply lookup_upd_eq|]. by destruct (Hf r Hr (Hruns _ _ Hr)) as (_ & -> & _).
    + exists r. by rewrite lookup_upd_ne.
  - intros s id' r' Hin [(-> & r & Hr & ->)|[Hne Hr]]%lookup_upd; [|eauto].
    intros Hp Hs. destruct (Hf r Hr (Hruns _ _ Hr)) as (_ & _ & Hpark).
    destruct (Hpark Hp Hs) as [[Hp' Hs']|Hfw]; [|unfold followed in Hfw]; eauto.
Qed.

Lemma inv_upd fl id f w :
  world_inv fl w →
  (∀ r, w_heap w !! id = Some r → run_ok fl id r →
     run_ok fl id (f r) ∧ r_scope (f r) = r_scope r ∧
     (r_parked (f r) = true → r_state (f r) = SRunning → r_parked r = true ∧ r_state r = SRunning)) →
  world_inv fl (upd id f w).
Proof.
  intros Hw Hf. eapply inv_upd_gen; [done|done|]. intros r Hr Hok. destruct (Hf r Hr Hok) as (H1 & H2 & H3).
  split_and!; [done|done|]. intros Hp Hs. left. by apply H3.
Qed.

(** The parts of a world the invariant does not read. *)
Definition same_core (w w' : World) : Prop :=
  w_heap w = w_heap w' ∧ w_runs w = w_runs w' ∧ w_nextRun w = w_nextRun w' ∧
  w_pollTimer w = w_pollTimer w' ∧ w_polling w = w_polling w'.

Lemma inv_same fl w w' : same_core w w' → world_inv fl w → world_inv fl w'.
Proof.
  intros (H1 & H2 & H3 & H4 & H5) [Ha Hb Hc Hd He].
  split; rewrite <-?H1, <-?H2, <-?H3, <-?H4, <-?H5; assumption.
Qed.

Lemma inv_on_run fl id f w :
  world_inv fl w → (∀ r, w_heap w !! id = Some r → run_ok fl id r → world_inv fl w → world_inv fl (f r w)) →
  world_inv fl (on_run id f w).
Proof.
  intros Hw Hf. unfold on_run. destruct (w_heap w !! id) as [r|] eqn:Hr; [|done].
  apply Hf; [done| |done]. by apply (wi_runs _ _ Hw).
Qed.

Lemma inv_tab fl f w : world_inv fl w → world_inv fl (with_tab f w).
Proof. by apply inv_same. Qed.
Lemma inv_effect fl e w : world_inv fl w → world_inv fl (effect e w).
Proof. by apply inv_same. Qed.
Lemma inv_sessions fl s w : world_inv fl w → world_inv fl (ww_sessions s w).
Proof. by apply inv_same. Qed.
Lemma inv_cancel fl t w : world_inv fl w → world_inv fl (cancelChatTurn t w).
Proof. intros Hw. unfold cancelChatTurn. destruct (isSafeChatId _); [by apply inv_effect|done]. Qed.

#[export] Hint Resolve inv_tab inv_effect inv_sessions inv_cancel : console.

(** Proves what an update of one run must keep. *)
Ltac run_case :=
  match goal with
  | H : run_ok _ _ ?r |- _ =>
      let Hc := fresh "Hc" in let Hp := fresh "Hp" in
      destruct H as [Hc Hp]; split; [split|split; [reflexivity|]]; simpl in *; try done; try tauto;
      [destruct Hc; constructor; simpl in *; try done; try lia; try tauto; try naive_solver
      |unfold phase_ok in *; case_decide; [unfold run_flux in *|destruct Hp; constructor];
       simpl in *; try done; try tauto; try naive_solver..]
  end.

Lemma inv_consume_upd fl id w : world_inv fl w → world_inv fl (upd id (set_consumed true) w).
Proof. intros Hw. apply inv_upd; [done|]. intros r Hr Hok. run_case. Qed.

(** A row of the registry dropped. *)
Lemma inv_runs_delete fl s w : world_inv fl w → world_inv fl (ww_runs (jm_delete (w_runs w) s) w).
Proof.
  intros [Ha Hb Hc Hd He]. split; cbn [w_runs w_heap w_nextRun w_pollTimer w_polling ww_runs]; [done..| | |].
  - by apply jm_NoDup_delete.
  - intros s' id' Hin. unfold jm_delete in Hin. apply list_elem_of_filter in Hin as [_ Hin]. eauto.
  - intros s' id' r Hin. unfold jm_delete in Hin. apply list_elem_of_filter in Hin as [_ Hin]. eauto.
Qed.

Lemma jm_set_elem {K V} `{EqDecision K} (m : list (K * V)) k v k' v' :
  (k', v') ∈ jm_set m k v → (k' = k ∧ v' = v) ∨ (k', v') ∈ m.
Proof.
  induction m as [|[k0 v0] m IH]; cbn [jm_set].
  - intros [= -> ->]%list_elem_of_singleton. by left.
  - destruct (decide (k0 = k)) as [->|Hne]; rewrite !elem_of_cons; naive_solver.
Qed.

(** A run registered under its scope; it is not parked and running, or it is followed. *)
Lemma inv_runs_set fl s id r w :
  world_inv fl w → w_heap w !! id = Some r → r_scope r = s →
  (r_parked r = true → r_state r ≠ SRunning) →
  world_inv fl (ww_runs (jm_set (w_runs w) s id) w).
Proof.
  intros [Ha Hb Hc Hd He] Hr Hs Hp. split; cbn [w_runs w_heap w_nextRun w_pollTimer w_polling ww_runs]; [done..| | |].
  - by apply jm_NoDup_set.
  - intros s' id' [[-> ->]|Hin]%jm_set_elem; eauto.
  - intros s' id' r' [[-> ->]|Hin]%jm_set_elem; [|by eauto].
    intros Hr' Hpk Hst. simplify_eq. by destruct (Hp Hpk).
Qed.

Lemma inv_consumeRun fl id w : world_inv fl w → world_inv fl (consumeRun id w).
Proof.
  intros Hw. unfold consumeRun. apply inv_on_run; [done|]. intros r Hr _ _.
  destruct (is_at _ _ _); [|by apply inv_consume_upd].
  apply inv_runs_delete. by apply inv_consume_upd.
Qed.

Lemma inv_drop_stale fl r w : world_inv fl w → world_inv fl (drop_stale r w).
Proof. intros Hw. unfold drop_stale. apply inv_runs_delete. by apply inv_consume_upd. Qed.

Lemma inv_foldl {A} fl (f : World → A → World) (l : list A) w :
  (∀ w a, world_inv fl w → world_inv fl (f w a)) → world_inv fl w → world_inv fl (foldl f w l).
Proof. intros Hf. revert w. induction l as [|a l IH]; intros w Hw; simpl; auto. Qed.

Lemma inv_register fl id w :
  world_inv fl w → (∀ r, w_heap w !! id = Some r → r_parked r = true → r_state r ≠ SRunning) →
  world_inv fl (register id w).
Proof.
  intros Hw Hp. unfold register. apply inv_on_run; [done|]. intros r Hr Hok _.
  apply inv_foldl; [by intros; apply inv_drop_stale|].
  destruct (jm_get (w_runs w) (r_scope r)) as [previous|] eqn:Hprev; [destruct (decide (previous = id)) as [->|Hne]|].
  - eapply inv_runs_set; eauto.
  - eapply (inv_runs_set _ _ _ r); [by apply inv_consume_upd| |done|by eauto].
    by rewrite lookup_upd_ne.
  - eapply inv_runs_set; eauto.
Qed.

Lemma inv_scheduleParkCheck fl id w : world_inv fl w → world_inv fl (scheduleParkCheck id w).
Proof.
  intros Hw. unfold scheduleParkCheck. apply inv_on_run; [done|]. intros r Hr _ _.
  destruct (_ || _); [done|]. apply inv_upd; [done|]. intros r' Hr' Hok. run_case.
Qed.

Lemma inv_setLive fl id f w :
  (∀ l, steps_sorted (lv_steps l) → steps_sorted (lv_steps (f l))) →
  world_inv fl w → world_inv fl (setLive id f w).
Proof.
  intros Hf Hw. unfold setLive. apply inv_upd; [done|]. intros r Hr Hok.
  assert (Hs : steps_sorted (lv_steps (f (r_live r)))) by (destruct Hok as [[] _]; auto). run_case.
Qed.

Lemma running_true r : running r = true ↔ r_state r = SRunning.
Proof. apply bool_decide_eq_true. Qed.
Lemma running_false r : running r = false ↔ r_state r ≠ SRunning.
Proof. apply bool_decide_eq_false. Qed.

Lemma inv_requestPark fl id w : fl ≠ Some id → world_inv fl w → world_inv fl (requestPark id w).
Proof.
  intros Hfl Hw. unfold requestPark. apply inv_on_run; [done|]. intros r Hr _ _.
  destruct (_ || _) eqn:E1; [done|]. destruct (negb (truthy _) || _ || _ || _) eqn:E2; [done|].
  rewrite !orb_false_iff in E2. destruct E2 as (((Ht & Hread) & _) & _). apply bool_decide_eq_false in Hread.
  assert (Hturn : r_turnId r ≠ None) by (by destruct (r_turnId r)).
  apply inv_upd; [done|]. intros r' Hr' Hok. simplify_eq. run_case.
Qed.

Lemma parkedRuns_spec w r :
  r ∈ parkedRuns w ↔ r_parked r = true ∧ r_state r = SRunning ∧ ∃ s id, (s, id) ∈ w_runs w ∧ w_heap w !! id = Some r.
Proof.
  unfold parkedRuns. rewrite list_elem_of_In, filter_In, <-list_elem_of_In.
  rewrite andb_true_iff, running_true.
  unfold run_values. rewrite list_elem_of_omap. split.
  - intros [([s id] & Hin & Hr) [Hp Hs]]. eauto 10.
  - intros (Hp & Hs & s & id & Hin & Hr). split; [by exists (s, id)|done].
Qed.

Lemma inv_parkTimerFires id w : world_inv None w → world_inv None (parkTimerFires id w).
Proof.
  intros Hw. unfold parkTimerFires. apply inv_on_run; [done|]. intros r Hr _ _.
  destruct (r_parkTimer r); [|done]. apply inv_requestPark; [done|].
  apply inv_upd; [done|]. intros r' Hr' Hok. run_case.
Qed.

Lemma inv_pollTimer fl w : world_inv fl w → world_inv fl (ww_pollTimer true w).
Proof.
  intros [Ha Hb Hc Hd He]. split; cbn [w_runs w_heap w_nextRun w_pollTimer w_polling ww_pollTimer]; eauto.
Qed.

Lemma inv_scheduleParkPoll fl w : world_inv fl w → world_inv fl (scheduleParkPoll w).
Proof. intros Hw. unfold scheduleParkPoll. destruct (_ || _); [done|by apply inv_pollTimer]. Qed.

Lemma scheduleParkPoll_followed w r id :
  w_heap w !! id = Some r → r_parked r = true → r_state r = SRunning → followed id (scheduleParkPoll w).
Proof.
  intros Hr Hp Hs s Hin. unfold scheduleParkPoll in *.
  destruct (w_pollTimer w) eqn:Et; [by left|]. destruct (w_polling w) eqn:Ep; [by right|].
  cbn [orb] in *. case_bool_decide as Hnil; [|by left].
  exfalso. assert (Hin' : r ∈ parkedRuns w).
  { apply parkedRuns_spec. eauto 10. }
  rewrite Hnil in Hin'. by apply elem_of_nil in Hin'.
Qed.

Lemma upd_upd_core id f g w : same_core (upd id (λ r, g (f r)) w) (upd id g (upd id f w)).
Proof. unfold same_core, upd; cbn. split_and!; try done. by rewrite alter_alter_eq. Qed.

Lemma scheduleParkPoll_fields w :
  w_heap (scheduleParkPoll w) = w_heap w ∧ w_runs (scheduleParkPoll w) = w_runs w ∧
  w_nextRun (scheduleParkPoll w) = w_nextRun w ∧ w_polling (scheduleParkPoll w) = w_polling w.
Proof. unfold scheduleParkPoll. by destruct (_ || _). Qed.

Lemma flux_close (id j : nat) : j ≠ id → Some id = Some j ↔ None = Some j.
Proof. intros Hne. split; [congruence|done]. Qed.
Lemma flux_open (id j : nat) : j ≠ id → None = Some j ↔ Some id = Some j.
Proof. intros Hne. by rewrite flux_close. Qed.

(** Parked at last, or straight back to the head of the loop. *)
Lemma inv_parkedWait id w :
  world_inv (Some id) w → (∃ r, w_heap w !! id = Some r) → world_inv None (parkedWait id w).
Proof.
  intros Hw [r Hr]. unfold parkedWait.
  assert (Hw1 : world_inv (Some id) (upd id (set_parkRequested false) w)).
  { apply inv_upd; [done|]. intros r' Hr' [Hc' Hf']. rewrite phase_flux in Hf'. destruct Hf' as [Hread Hnp].
    split_and!; [|done|by auto]. split; [|by rewrite phase_flux; split].
    destruct Hc'. constructor; simpl; try done. by rewrite Hread. }
  unfold on_run. rewrite (lookup_upd_eq id _ w r Hr).
  destruct (wi_runs _ _ Hw _ _ Hr) as [Hc Hflux]. rewrite phase_flux in Hflux.
  destruct (_ || _) eqn:E.
  - eapply inv_upd_gen; [done|apply flux_close|]. intros r' Hr' Hok. split_and!; [|done|by simpl; left].
    destruct Hok as [Hc' Hf']. rewrite phase_flux in Hf'.
    split; [destruct Hc'; by constructor|]. rewrite phase_pc by done.
    destruct Hf' as [Hread Hnp]. constructor; simpl; try done; try tauto; try naive_solver.
  - rewrite !orb_false_iff in E. destruct E as [[E1 E2] E3].
    apply Nat.ltb_ge in E1. apply negb_false_iff, running_true in E2. simpl in *.
    match goal with |- world_inv _ (upd _ _ (scheduleParkPoll (with_tab ?f ?w2))) =>
      set (wp := scheduleParkPoll (with_tab f w2)) end.
    assert (Hfw : followed id wp).
    { eapply (scheduleParkPoll_followed _ (set_parked true (set_parkRequested false r))); [|done|done].
      unfold with_tab. cbn [w_heap ww_tab]. by rewrite (lookup_upd_eq id _ _ (set_parkRequested false r)) by by apply lookup_upd_eq. }
    destruct (scheduleParkPoll_fields (with_tab (patchChatActivity (r_scope r) (patch_parked true))
      (upd id (set_parked true) (upd id (set_parkRequested false) w)))) as (H1 & H2 & H3 & H4). fold wp in H1, H2, H3, H4.
    set (w1 := upd id (set_parkRequested false) w) in *.
    set (wq := mkWorld (w_heap w1) (w_runs w1) (w_tab w1) (w_nextRun w1) (w_nextKey w1) (w_sessions w1)
      (w_sessionsDemo w1) (w_demo w1) (w_pollTimer wp) (w_polling w1) (w_views w1) (w_nextView w1) (w_effects w1) (w_now w1)).
    apply (inv_same _ (upd id (λ r, set_pc PcParked (set_parked true r)) wq)).
    { unfold same_core, upd, wq; cbn [w_heap w_runs w_nextRun w_pollTimer w_polling ww_heap]. rewrite H1, H2, H3, H4.
      split_and!; try done. unfold w1 at 2, with_tab, upd. cbn [w_heap ww_tab ww_heap].
      by rewrite alter_alter_eq. }
    assert (Hwq : world_inv (Some id) wq).
    { destruct Hw1 as [Ha Hb Hc1 Hd He]. split; try done. intros s id' r' Hin Hr' Hp Hs.
      cbn [w_pollTimer w_polling wq]. destruct (He s id' r' Hin Hr' Hp Hs) as [Ht|Ht]; [|by right].
      left. subst wp. unfold scheduleParkPoll, with_tab. cbn [w_pollTimer w_polling ww_tab upd ww_heap].
      rewrite Ht. cbn [orb]. exact Ht. }
    eapply inv_upd_gen; [exact Hwq|apply flux_close|]. intros r' Hr' Hok. split_and!; [|done|].
    + assert (r' = set_parkRequested false r) as ->.
      { pose proof (lookup_upd_eq id (set_parkRequested false) w r Hr) as Hl.
        change (w_heap wq) with (w_heap w1) in Hr'. unfold w1 in Hr'. rewrite Hl in Hr'. by simplify_eq. }
      destruct Hok as [Hc' Hf']. rewrite phase_flux in Hf'. destruct Hf' as [Hread Hnp].
      split; [destruct Hc'; constructor; simpl in *; try done; lia|]. rewrite phase_pc by done.
      constructor; simpl in *; try done; try tauto.
    + intros _ _. right. intros s Hin. cbn [w_runs w_pollTimer w_polling wq] in *.
      destruct (Hfw s) as [?|?]; [by rewrite H2|by left|right; by rewrite H4 in *].
Qed.

(** [unpark] after an update that leaves [parked], the scope and the loop alone. *)
Lemma inv_unpark_upd id f w :
  world_inv None w →
  (∀ r, w_heap w !! id = Some r →
     run_core id (set_parked false (f r)) ∧ r_scope (f r) = r_scope r ∧ r_parked (f r) = r_parked r ∧
     r_state (f r) = r_state r ∧ r_drive (f r) = r_drive r ∧ r_read (f r) = r_read r) →
  world_inv None (unpark id (upd id f w)).
Proof.
  intros Hw Hf. unfold unpark, on_run. destruct (w_heap w !! id) as [r|] eqn:Hr.
  - rewrite (lookup_upd_eq id f w r Hr). destruct (Hf r eq_refl) as (Hc & Hsc & Hpk & Hst & Hdr & Hread).
    destruct (wi_runs _ _ Hw _ _ Hr) as [Hc0 Hp0]. apply phase_pc in Hp0; [|done]. destruct Hp0 as [H1 H2 H3 H4].
    destruct (r_parked (f r)) eqn:Hp; cbn [negb].
    + assert (Hw' : world_inv None (upd id (λ r, wake (set_parked false (f r))) w)).
      { apply inv_upd; [done|]. intros r' Hr' _. assert (r' = r) as -> by congruence.
        assert (Hpc : run_pc (wake (set_parked false (f r)))).
        { unfold wake. simpl. rewrite Hdr. case_decide as Hd; constructor; simpl; rewrite ?Hdr, ?Hread, ?Hst; try done.
          rewrite Hd in H1. split; [done|]. intros Hne. by apply H1 in Hne. }
        split_and!; [split; [|by apply phase_pc]|unfold wake; by case_decide|unfold wake; by case_decide].
        unfold wake. case_decide; [|done]. destruct Hc; by constructor. }
      eapply (inv_same None (upd id (λ r, wake (set_parked false (f r))) w)); [|done].
      destruct (running (f r)); unfold same_core, upd; cbn; rewrite !alter_alter_eq; done.
    + apply inv_upd; [done|]. intros r' Hr' _. assert (r' = r) as -> by congruence.
      split_and!; [split|done|by rewrite Hp].
      * destruct Hc. constructor; simpl in *; try done. by rewrite Hp.
      * apply phase_pc; [done|]. constructor; rewrite ?Hdr, ?Hread, ?Hst, ?Hp; try done.
        intros Hd. destruct (H3 Hd) as [Hx _]. congruence.
  - unfold upd. cbn [w_heap ww_heap]. rewrite lookup_alter_eq, Hr. cbn.
    apply inv_upd; [done|]. intros r' Hr'. congruence.
Qed.

Lemma inv_unpark id w : world_inv None w → world_inv None (unpark id w).
Proof.
  intros Hw. assert (Hid : same_core (unpark id (upd id (λ r, r) w)) (unpark id w)).
  { assert (Hid : upd id (λ r, r) w = w).
    { unfold upd, ww_heap. rewrite alter_id by done. by destruct w. }
    by rewrite Hid. }
  eapply inv_same; [exact Hid|]. apply inv_unpark_upd; [done|]. intros r Hr. split_and!; try done.
  destruct (wi_runs _ _ Hw _ _ Hr) as [Hc _]. destruct Hc. by constructor.
Qed.

Lemma inv_wakeParkedRun t w : world_inv None w → world_inv None (wakeParkedRun t w).
Proof.
  apply inv_foldl. intros w' r Hw'. destruct (decide _); [by apply inv_unpark|done].
Qed.

Lemma inv_attachRun id w : world_inv None w → world_inv None (attachRun id w).
Proof.
  intros Hw. unfold attachRun. apply inv_on_run; [done|]. intros r Hr Hok _.
  eapply (inv_same None (unpark id (upd id (λ r, clearParkTimer (set_attached (S (r_attached r)) r)) w))); [done|].
  apply inv_unpark_upd; [done|]. intros r' Hr'. split_and!; try done.
  destruct (wi_runs _ _ Hw _ _ Hr') as [Hc _]. destruct Hc. by constructor.
Qed.

Lemma inv_detachRun token w : world_inv None w → world_inv None (detachRun token w).
Proof.
  intros Hw. unfold detachRun. destruct (w_views w !! token) as [id|]; [|done].
  apply inv_on_run; [by apply (inv_same _ w)|]. intros r Hr Hok Hw1.
  assert (world_inv None (upd id (set_attached (r_attached r - 1)) (ww_views (delete token (w_views w)) w))) as Hw2.
  { apply inv_upd; [done|]. intros r' Hr' [Hc Hp]. assert (r' = r) as -> by congruence.
    apply phase_pc in Hp; [|done]. split_and!; [split; [|apply phase_pc; [done|]]|done|done].
    - destruct Hc. constructor; simpl; try done. intros Hpk Hst. rewrite rc_unviewed0 by done. done.
    - destruct Hp. by constructor. }
  destruct (_ =? _)%nat; [by apply inv_scheduleParkCheck|done].
Qed.

Lemma fmap_some_ne {A B} (f : A → B) (o : option A) : f <$> o ≠ None ↔ o ≠ None.
Proof. by destruct o. Qed.

Lemma run_pc_abort r : run_pc r → run_pc (abort_run r).
Proof.
  intros [H1 H2 H3 H4]. unfold abort_run. simpl. destruct (d_pc (r_drive r)) eqn:Hpc; constructor; simpl; rewrite ?Hpc, ?fmap_some_ne;
    try done.
  - intros _ _. by right.
  - intros Hp Hs. by destruct (H2 Hp Hs) as [?|[_ ?]].
  - split; [done|]. intros Hr. by apply H1 in Hr.
  - intros _ _. by right.
  - split; [done|]. intros Hr. by apply H1 in Hr.
  - intros _ _. by right.
  - intros Hp Hs. by destruct (H4 eq_refl).
Qed.

Lemma abort_run_fields r :
  r_info (abort_run r) = r_info r ∧ r_scope (abort_run r) = r_scope r ∧ r_state (abort_run r) = r_state r ∧
  r_live (abort_run r) = r_live r ∧ r_response (abort_run r) = r_response r ∧ r_failure (abort_run r) = r_failure r ∧
  r_parked (abort_run r) = r_parked r.
Proof. unfold abort_run. simpl. by destruct (d_pc (r_drive r)). Qed.

Lemma run_core_abort id r :
  run_core id r → (r_state r = SRunning → r_forcedStop r = true) → run_core id (abort_run r).
Proof.
  intros Hc Hf. unfold abort_run. simpl. destruct (d_pc (r_drive r)); destruct Hc; constructor; simpl in *; try done; auto.
  all: by destruct (r_read r).
Qed.

Lemma inv_stopRun id force w : world_inv None w → world_inv None (stopRun id force w).
Proof.
  intros Hw. unfold stopRun. apply inv_on_run; [done|]. intros r Hr Hok _.
  destruct (_ || _) eqn:E; [done|]. destruct (force || _ || _).
  - apply inv_upd; [done|]. intros r' Hr' [Hc Hp]. apply phase_pc in Hp; [|done].
    destruct (abort_run_fields (set_forcedStop true r')) as (_ & Hsc & Hst & _ & _ & _ & Hpk).
    split_and!; [split|done|by rewrite Hpk, Hst].
    + apply run_core_abort; [|done]. destruct Hc. by constructor.
    + apply phase_pc; [done|]. apply run_pc_abort. destruct Hp. by constructor.
  - assert (Hw1 : world_inv None (setLive id (live_stopping true) (upd id (set_stopRequested true) w))).
    { apply inv_setLive; [done|]. apply inv_upd; [done|]. intros r' Hr' Hok'. run_case. }
    destruct (truthy _); [by apply inv_cancel|]. apply inv_upd; [done|]. intros r' Hr' Hok'. run_case.
Qed.

Lemma abort_one_fields r :
  r_info (abort_one r) = r_info r ∧ r_scope (abort_one r) = r_scope r ∧ r_state (abort_one r) ≠ SRunning.
Proof.
  unfold abort_one. set (r1 := clearParkTimer (cancelFrame (set_consumed true r))).
  destruct (abort_run_fields r1) as (Hi & Hsc & Hst & _).
  destruct (running (abort_run r1)) eqn:Hrun; [by split_and!|]. by apply running_false in Hrun.
Qed.

Lemma core_nothing id r : run_core id r → r_state r = SRunning → r_response r = None ∧ r_failure r = None.
Proof.
  intros Hc Hs. destruct (r_response r) eqn:E1.
  { exfalso. assert (r_state r = SDone) by (apply (rc_done _ _ Hc); by rewrite E1). congruence. }
  destruct (r_failure r) eqn:E2; [|done].
  exfalso. assert (r_state r = SError) by (apply (rc_error _ _ Hc); by rewrite E2). congruence.
Qed.

Lemma abort_one_ok id r : run_core id r → run_pc r → run_core id (abort_one r) ∧ run_pc (abort_one r).
Proof.
  intros Hc Hp. unfold abort_one. set (r1 := clearParkTimer (cancelFrame (set_consumed true r))).
  assert (Hc1 : run_core id r1) by (destruct Hc; by constructor).
  assert (Hp1 : run_pc r1) by (destruct Hp; by constructor).
  pose proof (run_pc_abort r1 Hp1) as Hpa.
  destruct (abort_run_fields r1) as (Hi & Hsc & Hst & Hl & Hre & Hfa & Hpk).
  destruct (running (abort_run r1)) eqn:Hrun.
  - apply running_true in Hrun. rewrite Hst in Hrun.
    assert (Hnone : r_response r1 = None ∧ r_failure r1 = None).
    { by apply (core_nothing id). }
    split.
    + assert (Hc2 : run_core id (abort_run (set_forcedStop true r1))).
      { apply run_core_abort; [|done]. destruct Hc1. by constructor. }
      unfold abort_run in *. simpl in *.
      destruct (d_pc (r_drive r)); destruct Hc2; destruct Hnone as [Hn1 Hn2]; constructor; simpl in *; try done.
      all: try (by rewrite ?Hn1, ?Hn2). all: by destruct (r_read r).
    + destruct Hpa as [H1 H2 H3 H4]. constructor; simpl; try done.
      intros Hpc. unfold abort_run in Hpc. simpl in Hpc. destruct (d_pc (r_drive r)) eqn:E; simpl in Hpc; congruence.
  - apply running_false in Hrun. rewrite Hst in Hrun. split; [|done]. by apply run_core_abort.
Qed.

Lemma inv_abort_one id w : world_inv None w → world_inv None (upd id abort_one w).
Proof.
  intros Hw. apply inv_upd; [done|]. intros r Hr [Hc Hp]. apply phase_pc in Hp; [|done].
  destruct (abort_one_ok _ _ Hc Hp). destruct (abort_one_fields r) as (_ & Hsc & Hst).
  split_and!; [split; [done|by apply phase_pc]|done|done].
Qed.

Lemma inv_abortAllRuns w : world_inv None w → world_inv None (abortAllRuns w).
Proof.
  intros Hw. unfold abortAllRuns.
  assert (Hf : world_inv None (foldl (λ w (p : string * nat), upd p.2 abort_one w) w (w_runs w))).
  { by apply inv_foldl; [intros w' p; apply inv_abort_one|]. }
  assert (Hcomm : ∀ l w, foldl (λ w (p : string * nat), upd p.2 abort_one w) (ww_pollTimer false w) l =
    ww_pollTimer false (foldl (λ w (p : string * nat), upd p.2 abort_one w) w l)).
  { intros l. induction l as [|p l IH]; intros w'; [done|]. cbn [foldl]. by rewrite <-IH. }
  change (w_runs (ww_pollTimer false w)) with (w_runs w). rewrite Hcomm.
  destruct Hf as [Ha Hb Hc Hd He]. split; cbn [w_runs w_heap w_nextRun w_pollTimer w_polling ww_runs ww_sessions ww_pollTimer].
  - exact Ha.
  - exact Hb.
  - by apply NoDup_nil_2.
  - intros s id Hin. by apply elem_of_nil in Hin.
  - intros s id r Hin. by apply elem_of_nil in Hin.
Qed.
