(* ===== verification/RunnerFrozen.v ===== *)
(** * The turn runner: a settled run never changes again

    [world_le]: no run vanishes, its read-only fields stay, and once settled its outcome and what
    its transcript item shows stay too. *)

From S2P Require Import Prelude JsValue JsMap Activity ActivityNotices Turn Runner RunnerDrive RunnerInv.
From Stdlib Require Import QArith Qcanon.
Local Close Scope Qc_scope.
Local Close Scope Q_scope.
Local Open Scope Z_scope.

Definition run_le (r r' : Run) : Prop :=
  r_info r' = r_info r ∧
  (r_state r ≠ SRunning →
     r_state r' = r_state r ∧ r_response r' = r_response r ∧ r_failure r' = r_failure r ∧
     r_live r' = r_live r ∧ r_text r' = r_text r).

Definition world_le (w w' : World) : Prop :=
  ∀ id r, w_heap w !! id = Some r → ∃ r', w_heap w' !! id = Some r' ∧ run_le r r'.

#[export] Instance run_le_preorder : PreOrder run_le.
Proof.
  split.
  - intros r. done.
  - intros r1 r2 r3 [Hi H1] [Hi' H2]. split; [congruence|]. intros Hs.
    destruct (H1 Hs) as (E1 & E2 & E3 & E4 & E5). rewrite E1 in H2.
    destruct (H2 Hs) as (F1 & F2 & F3 & F4 & F5). split_and!; congruence.
Qed.

#[export] Instance world_le_preorder : PreOrder world_le.
Proof.
  split.
  - intros w id r Hr. exists r. by split.
  - intros w1 w2 w3 H1 H2 id r Hr. destruct (H1 id r Hr) as (r2 & Hr2 & Hle).
    destruct (H2 id r2 Hr2) as (r3 & Hr3 & Hle'). exists r3. split; [done|by etrans].
Qed.

Lemma le_heap w w' : w_heap w' = w_heap w → world_le w w'.
Proof. intros Hh id r Hr. exists r. by rewrite Hh. Qed.

(** Extends a chain by an update of one run. *)
Lemma le_upd id f w0 w :
  world_le w0 w → (∀ r, w_heap w !! id = Some r → run_le r (f r)) → world_le w0 (upd id f w).
Proof.
  intros Hle Hf. etrans; [exact Hle|]. intros id' r Hr. destruct (decide (id = id')) as [<-|Hne].
  - exists (f r). split; [by apply lookup_upd_eq|by apply Hf].
  - exists r. by rewrite lookup_upd_ne.
Qed.

Lemma le_on_run id f w0 w :
  world_le w0 w → (∀ r, w_heap w !! id = Some r → world_le w0 w → world_le w0 (f r w)) → world_le w0 (on_run id f w).
Proof. intros Hle Hf. unfold on_run. destruct (w_heap w !! id); [by apply Hf|done]. Qed.

Lemma le_heap' w0 w w' : w_heap w' = w_heap w → world_le w0 w → world_le w0 w'.
Proof. intros Hh Hle. etrans; [exact Hle|by apply le_heap]. Qed.

Lemma le_foldl {A} (f : World → A → World) (l : list A) w0 w :
  (∀ w a, world_le w0 w → world_le w0 (f w a)) → world_le w0 w → world_le w0 (foldl f w l).
Proof. intros Hf. revert w. induction l as [|a l IH]; intros w Hw; simpl; auto. Qed.

(** The steps of a chain: parts of the world outside the heap, and updates that freeze. *)
Ltac le_step :=
  match goal with
  | H : world_le ?a ?b |- world_le ?a ?b => exact H
  | |- world_le ?a ?a => reflexivity
  | |- world_le _ (on_run _ _ _) => apply le_on_run; [|intros ? ? ?]
  | |- world_le _ (upd _ _ _) => apply le_upd; [|by intros ? ?]
  | |- world_le _ (with_tab _ ?w) => apply (le_heap' _ w _ eq_refl)
  | |- world_le _ (effect _ ?w) => apply (le_heap' _ w _ eq_refl)
  | |- world_le _ (ww_runs _ ?w) => apply (le_heap' _ w _ eq_refl)
  | |- world_le _ (ww_sessions _ ?w) => apply (le_heap' _ w _ eq_refl)
  | |- world_le _ (ww_sessionsDemo _ ?w) => apply (le_heap' _ w _ eq_refl)
  | |- world_le _ (ww_pollTimer _ ?w) => apply (le_heap' _ w _ eq_refl)
  | |- world_le _ (ww_polling _ ?w) => apply (le_heap' _ w _ eq_refl)
  | |- world_le _ (ww_views _ ?w) => apply (le_heap' _ w _ eq_refl)
  | |- world_le _ (ww_nextView _ ?w) => apply (le_heap' _ w _ eq_refl)
  | |- world_le _ (ww_demo _ ?w) => apply (le_heap' _ w _ eq_refl)
  | |- world_le _ (ww_now _ ?w) => apply (le_heap' _ w _ eq_refl)
  | |- world_le _ (cancelChatTurn _ _) => unfold cancelChatTurn
  | |- world_le _ (if ?b then _ else _) => destruct b eqn:?
  | |- world_le _ (match ?o with _ => _ end) => destruct o eqn:?
  end.
Ltac le_steps := repeat (cbv zeta; le_step).

Lemma le_consumeRun id w0 w : world_le w0 w → world_le w0 (consumeRun id w).
Proof. intros H. unfold consumeRun. le_steps. Qed.

Lemma le_register id w0 w : world_le w0 w → world_le w0 (register id w).
Proof.
  intros H. unfold register. apply le_on_run; [done|]. intros r Hr _. cbv zeta.
  apply le_foldl; [intros w' r' H'; unfold drop_stale; le_steps|le_steps].
Qed.

Lemma le_scheduleParkCheck id w0 w : world_le w0 w → world_le w0 (scheduleParkCheck id w).
Proof. intros H. unfold scheduleParkCheck. le_steps. Qed.

Lemma le_requestPark id w0 w : world_le w0 w → world_le w0 (requestPark id w).
Proof. intros H. unfold requestPark. le_steps. Qed.

Lemma le_parkTimerFires id w0 w : world_le w0 w → world_le w0 (parkTimerFires id w).
Proof. intros H. unfold parkTimerFires. le_steps. apply le_requestPark. le_steps. Qed.

Lemma le_scheduleParkPoll w0 w : world_le w0 w → world_le w0 (scheduleParkPoll w).
Proof. intros H. unfold scheduleParkPoll. le_steps. Qed.

Lemma le_parkedWait id w0 w : world_le w0 w → world_le w0 (parkedWait id w).
Proof.
  intros H. unfold parkedWait. le_steps. apply le_scheduleParkPoll. le_steps.
Qed.

Lemma run_le_wake r : run_le r (wake r).
Proof. unfold wake. by case_decide. Qed.

Lemma le_unpark id w0 w : world_le w0 w → world_le w0 (unpark id w).
Proof.
  intros H. unfold unpark. le_steps; (apply le_upd; [le_steps|intros; apply run_le_wake]).
Qed.

Lemma le_wakeParkedRun t w0 w : world_le w0 w → world_le w0 (wakeParkedRun t w).
Proof. intros H. apply le_foldl; [|done]. intros w' r H'. case_decide; [by apply le_unpark|done]. Qed.

Lemma le_attachRun id w0 w : world_le w0 w → world_le w0 (attachRun id w).
Proof. intros H. unfold attachRun. le_steps. apply le_unpark. le_steps. Qed.

Lemma le_detachRun token w0 w : world_le w0 w → world_le w0 (detachRun token w).
Proof. intros H. unfold detachRun. le_steps. apply le_scheduleParkCheck. le_steps. Qed.

Lemma run_le_abort r : run_le r (abort_run r).
Proof. destruct (abort_run_fields r) as (Hi & _ & Hs & Hl & Hr & Hf & _). unfold run_le. split; [done|]. intros _.
  split_and!; try done. unfold abort_run. simpl. by destruct (d_pc (r_drive r)). Qed.

Lemma run_le_abort_one r : run_le r (abort_one r).
Proof.
  unfold abort_one. set (r1 := clearParkTimer (cancelFrame (set_consumed true r))).
  destruct (run_le_abort r1) as [Hi Hle]. destruct (running (abort_run r1)) eqn:E; split; try done.
  intros Hs. destruct (Hle Hs) as (E1 & _). apply running_true in E. by rewrite E1 in E.
Qed.

Lemma le_stopRun id force w0 w : world_le w0 w → world_le w0 (stopRun id force w).
Proof.
  intros H. unfold stopRun. apply le_on_run; [done|]. intros r Hr _.
  destruct (negb (running r) || _) eqn:E; [done|].
  apply orb_false_iff in E as [E _]. apply negb_false_iff, running_true in E.
  destruct (force || _ || _).
  - apply le_upd; [done|]. intros r' Hr'. etrans; [|apply run_le_abort]. done.
  - cbv zeta. unfold setLive.
    assert (world_le w0 (upd id (λ r, set_live (live_stopping true (r_live r)) r) (upd id (set_stopRequested true) w))) as H1.
    { apply le_upd; [le_steps|]. intros r' Hr'. rewrite (lookup_upd_eq id _ w r Hr) in Hr'. simplify_eq.
      split; [done|]. intros Hs. done. }
    le_steps.
Qed.

Lemma le_abortAllRuns w0 w : world_le w0 w → world_le w0 (abortAllRuns w).
Proof.
  intros H. unfold abortAllRuns. le_steps. apply le_foldl; [|le_steps].
  intros w' p H'. apply le_upd; [done|]. intros r _. apply run_le_abort_one.
Qed.

Lemma le_noteCaseSessions i w0 w : world_le w0 w → world_le w0 (noteCaseSessionsDemoIdentity i w).
Proof. intros H. unfold noteCaseSessionsDemoIdentity. le_steps. Qed.

Lemma le_writeCaseSession c s w0 w : world_le w0 w → world_le w0 (writeCaseSession c s w).
Proof. intros H. unfold writeCaseSession. le_steps. Qed.

Lemma le_rekeyRun id c w0 w : world_le w0 w → world_le w0 (rekeyRun id c w).
Proof. intros H. unfold rekeyRun. le_steps. Qed.

Lemma le_finish_settle id st w0 w : world_le w0 w → world_le w0 (finish_settle id st w).
Proof.
  intros H. unfold finish_settle. apply le_on_run; [done|]. intros r Hr _. cbv zeta.
  apply le_on_run; [le_steps; by apply le_rekeyRun|]. intros r' Hr' H'.
  match goal with |- world_le _ (if _ then _ else with_tab ?f ?w1) =>
    assert (world_le w0 (with_tab f w1)) as H2 by (by apply (le_heap' _ w1 _ eq_refl)) end.
  le_steps. by apply le_consumeRun.
Qed.

Definition settled_at (id : nat) (w : World) : Prop :=
  ∀ r, w_heap w !! id = Some r → r_state r ≠ SRunning.

Lemma settled_le id w w' :
  world_le w w' → (∀ r', w_heap w' !! id = Some r' → ∃ r, w_heap w !! id = Some r) → settled_at id w → settled_at id w'.
Proof.
  intros Hle Hdom Hs r' Hr'. destruct (Hdom r' Hr') as [r Hr]. destruct (Hle id r Hr) as (r2 & Hr2 & _ & Hst).
  simplify_eq. destruct (Hst (Hs r Hr)) as [-> _]. by apply Hs.
Qed.

(** What follows the assignment of a settled state. *)
Definition after_settle (id : nat) (st : TurnRunState) (r0 : Run) (w : World) : World :=
  let w := if bool_decide (st = SLost) || starts_with "turn:" (r_scope r0)
           then with_tab (dropChatActivity (r_scope r0) true) w
           else finish_settle id st w in
  let w := if decide (r_kind r0 = Workspace) then effect EHistory w else w in
  on_run id (λ r w,
    if bool_decide (r_kind r = CaseChat) && truthy (ri_caseId (r_info r)) && (r_attached r =? 0)%nat then
      let w := if isCaseRunOfAnotherDemo r w then w
               else appendToCaseSession (default "" (ri_caseId (r_info r))) r
                      (noteCaseSessionsDemoIdentity (ri_demo (r_info r)) w) in
      consumeRun id w
    else w) w.

Lemma finish_eq id st fields w :
  finish id st fields w =
  on_run id (λ r w, if negb (running r) then w else
    after_settle id st r (upd id (λ r, set_state st (fields (set_parked false (clearParkTimer (cancelFrame r))))) w)) w.
Proof. done. Qed.

Lemma le_after_settle id st r0 w0 w : world_le w0 w → world_le w0 (after_settle id st r0 w).
Proof.
  intros H. unfold after_settle.
  assert (H1 : world_le w0 (if bool_decide (st = SLost) || starts_with "turn:" (r_scope r0)
           then with_tab (dropChatActivity (r_scope r0) true) w else finish_settle id st w)).
  { destruct (_ || _); [le_steps|by apply le_finish_settle]. }
  cbv zeta. apply le_on_run; [destruct (decide _); [by apply (le_heap' _ _ _ eq_refl)|done]|].
  intros r Hr H2. destruct (_ && _); [|done]. apply le_consumeRun.
  destruct (isCaseRunOfAnotherDemo _ _); [done|]. apply le_writeCaseSession, le_noteCaseSessions. done.
Qed.

Lemma le_finish id st fields w0 w :
  (∀ r, r_info (fields r) = r_info r) → world_le w0 w → world_le w0 (finish id st fields w).
Proof.
  intros Hi H. rewrite finish_eq. apply le_on_run; [done|]. intros r Hr _.
  destruct (running r) eqn:Hrun; cbn [negb]; [|done]. apply running_true in Hrun.
  apply le_after_settle, le_upd; [done|]. intros r' Hr'. simplify_eq. split; [simpl; by rewrite Hi|done].
Qed.

(** ** Events *)
Definition running_at (id : nat) (w : World) : Prop :=
  ∀ r, w_heap w !! id = Some r → r_state r = SRunning.

Lemma running_upd id f w :
  running_at id w → (∀ r, r_state (f r) = r_state r) → running_at id (upd id f w).
Proof. intros Hw Hf r [(_ & r0 & Hr0 & ->)|[? _]]%lookup_upd; [|done]. rewrite Hf. by apply Hw. Qed.

Lemma running_heap id w w' : w_heap w' = w_heap w → running_at id w → running_at id w'.
Proof. intros Hh Hw r. rewrite Hh. apply Hw. Qed.

Lemma le_upd_running id f w0 w :
  world_le w0 w → running_at id w → (∀ r, r_info (f r) = r_info r) → world_le w0 (upd id f w).
Proof.
  intros Hle Hrun Hf. apply le_upd; [done|]. intros r Hr. split; [apply Hf|]. intros Hs. by destruct (Hs (Hrun r Hr)).
Qed.

Lemma le_flushText id w0 w : world_le w0 w → world_le w0 (flushText id w).
Proof.
  intros H. unfold flushText. apply le_on_run; [done|]. intros r Hr _. destruct (r_frame r); [|done]. cbn [negb].
  assert (world_le w0 (upd id (set_frame false) w)) as H1 by le_steps.
  destruct (running r) eqn:Hrun; [|done]. apply running_true in Hrun.
  apply le_upd_running; [done| |done]. apply running_upd; [|done]. intros r' Hr'. congruence.
Qed.

Lemma running_cancel id t w : running_at id w → running_at id (cancelChatTurn t w).
Proof. intros Hw. unfold cancelChatTurn. by destruct (isSafeChatId _). Qed.

Lemma running_setLive id f w : running_at id w → running_at id (setLive id f w).
Proof. intros Hw. by apply running_upd. Qed.

Lemma le_setLive_running id f w0 w : world_le w0 w → running_at id w → world_le w0 (setLive id f w).
Proof. intros H Hrun. by apply le_upd_running. Qed.

Lemma le_noteStep id l w0 w : world_le w0 w → world_le w0 (noteStep id l w).
Proof. intros H. unfold noteStep. le_steps. Qed.

Lemma le_onTurnStart id e w0 w : world_le w0 w → running_at id w → world_le w0 (onTurnStart id e w).
Proof.
  intros H Hrun. unfold onTurnStart. apply le_on_run; [done|]. intros r Hr _.
  set (w1 := upd id (set_turnId (Some (ts_turn_id e))) w).
  assert (H1 : world_le w0 w1 ∧ running_at id w1) by (split; [unfold w1; le_steps|by apply running_upd]).
  set (w2 := if truthy (ts_conversation_id e) then upd id (set_conversationId (ts_conversation_id e)) w1 else w1).
  assert (H2 : world_le w0 w2 ∧ running_at id w2).
  { unfold w2. destruct (truthy _); [|done]. destruct H1. split; [le_steps|by apply running_upd]. }
  set (w3 := if _ || _ then cancelChatTurn (ts_turn_id e) (upd id (set_cancelWhenStarted false) w2) else w2).
  assert (H3 : world_le w0 w3 ∧ running_at id w3).
  { unfold w3. destruct (_ || _); [|done]. destruct H2. split; [le_steps|by apply running_cancel, running_upd]. }
  set (w4 := upd id (λ r, cancelFrame (set_text "" r)) w3).
  assert (H4 : world_le w0 w4 ∧ running_at id w4).
  { unfold w4. destruct H3. split; [by apply le_upd_running|by apply running_upd]. }
  assert (H5 : world_le w0 (setLive id (live_started e) w4)) by (destruct H4; by apply le_setLive_running).
  clearbody w4. clear w1 H1 w2 H2 w3 H3. cbv zeta. apply le_on_run; [done|]. intros r' Hr' _.
  match goal with |- context [with_tab ?f ?w5] =>
    assert (H6 : world_le w0 (with_tab f w5)) by (by apply (le_heap' _ w5 _ eq_refl)) end.
  destruct (_ =? _)%nat; [apply le_scheduleParkCheck|]; destruct (_ && starts_with _ _); try apply le_rekeyRun; exact H6.
Qed.

Lemma le_handleEvent id e w0 w : world_le w0 w → world_le w0 (handleEvent id e w).
Proof.
  intros H. unfold handleEvent. apply le_on_run; [done|]. intros r Hr _.
  destruct (running r) eqn:Hrun; cbn [negb]; [|done].
  apply running_true in Hrun. assert (Hat : running_at id w) by (intros r' Hr'; congruence).
  destruct e; try done.
  - by apply le_onTurnStart.
  - destruct (has_step _ _); [done|]. by apply le_noteStep, le_setLive_running.
  - by apply le_noteStep, le_setLive_running.
  - by apply le_setLive_running.
  - by apply le_setLive_running.
  - by apply le_upd_running.
  - apply le_setLive_running; [by apply le_upd_running|by apply running_upd].
  - by apply le_setLive_running.
Qed.

(** ** [drive] *)
Section drive.
Context `{Display} `{ParseNumber}.

Lemma le_drive_ends id w0 w : world_le w0 w → world_le w0 (drive_ends id w).
Proof. intros Hw. unfold drive_ends. le_steps. Qed.

Lemma le_end_aborted id w0 w : world_le w0 w → world_le w0 (end_aborted id w).
Proof.
  intros Hw. unfold end_aborted. apply le_on_run; [done|]. intros r Hr _. apply le_drive_ends.
  destruct (r_forcedStop r); [by apply le_finish|done].
Qed.

Lemma le_end_failed id f w0 w : world_le w0 w → world_le w0 (end_failed id f w).
Proof. intros Hw. by apply le_drive_ends, le_finish. Qed.

Lemma le_drive_top id w0 w : world_le w0 w → world_le w0 (drive_top id w).
Proof.
  intros Hw. unfold drive_top. apply le_on_run; [done|]. intros r Hr _. cbv zeta.
  destruct (negb (bool_decide _)); [done|]. destruct (r_aborted r); [by apply le_end_aborted|].
  destruct (running r) eqn:Hrun; cbn [negb]; [|by apply le_drive_ends]. apply running_true in Hrun.
  assert (Hat : running_at id w) by (intros r' Hr'; congruence).
  set (w1 := upd id (λ r, set_read (Some false) (set_parkRequested false r)) w).
  assert (H1 : world_le w0 w1 ∧ running_at id w1) by (split; [unfold w1; le_steps|by apply running_upd]).
  set (w2 := if (r_attached r =? 0)%nat then scheduleParkCheck id w1 else w1).
  assert (H2 : world_le w0 w2 ∧ running_at id w2).
  { unfold w2. destruct H1. destruct (_ =? _)%nat; [|done]. split; [by apply le_scheduleParkCheck|].
    unfold scheduleParkCheck, on_run. destruct (w_heap w1 !! id); [|done]. destruct (_ || _); [done|].
    by apply running_upd. }
  apply le_upd; [|done]. destruct H2.
  assert (Hb : ∀ q, world_le w0 (effect (EPostBlocking id q) (setLive id (live_transport Blocking) (upd id (set_transport Blocking) w2)))).
  { intros q. apply (le_heap' _ _ _ eq_refl). apply le_setLive_running; [le_steps|by apply running_upd]. }
  destruct (d_mode (r_drive r)), (r_request r), (d_body (r_drive r)); first [apply Hb|by apply (le_heap' _ w2 _ eq_refl)].
Qed.

Lemma le_drive_event id e seq w0 w : world_le w0 w → running_at id w → world_le w0 (drive_event id e seq w).
Proof.
  intros Hw Hat. unfold drive_event. apply le_on_run; [done|]. intros r Hr _. cbv zeta. apply le_handleEvent.
  match goal with |- world_le _ (if _ then setLive _ _ ?w1 else _) =>
    assert (H1 : world_le w0 w1 ∧ running_at id w1) by (split; [le_steps|by apply running_upd]) end.
  destruct H1. destruct (reconnects _ _); [by apply le_setLive_running|done].
Qed.

Lemma le_resend id w0 w : world_le w0 w → running_at id w → world_le w0 (resend id w).
Proof. intros Hw Hat. by apply le_upd_running. Qed.

Lemma le_sleep id ms w0 w : world_le w0 w → world_le w0 (sleep id ms w).
Proof. intros Hw. unfold sleep. le_steps. Qed.

Lemma le_reattach id w0 w : world_le w0 w → running_at id w → world_le w0 (reattach id w).
Proof.
  intros Hw Hat. unfold reattach. apply le_on_run; [done|]. intros r Hr _. cbv zeta.
  match goal with |- world_le _ (if _ then sleep _ _ ?w1 else _) =>
    assert (H1 : world_le w0 w1) by (by apply le_upd_running) end.
  destruct (_ <? _); [by apply le_sleep|le_steps].
Qed.

Lemma le_park id m w0 w : world_le w0 w → world_le w0 (park id m w).
Proof. intros Hw. unfold park. apply le_parkedWait. le_steps. Qed.

Lemma le_drive_incomplete id w0 w : world_le w0 w → running_at id w → world_le w0 (drive_incomplete id w).
Proof.
  intros Hw Hat. unfold drive_incomplete. apply le_on_run; [done|]. intros r Hr _. cbv zeta.
  destruct (_ && _ && _); [by apply le_reattach|]. destruct (_ && _); [by apply le_resend|by apply le_end_failed].
Qed.

Lemma le_drive_busy id e w0 w : world_le w0 w → running_at id w → world_le w0 (drive_busy id e w).
Proof.
  intros Hw Hat. unfold drive_busy. apply le_on_run; [done|]. intros r Hr _. cbv zeta.
  set (w1 := upd id (on_drive (dr_busySince _)) w).
  assert (H1 : world_le w0 w1 ∧ running_at id w1) by (split; [unfold w1; le_steps|by apply running_upd]).
  destruct H1. destruct (_ <=? _); [by apply le_end_failed|].
  apply le_upd; [|done]. apply le_sleep. apply le_upd; [|done]. by apply le_setLive_running.
Qed.

Lemma le_drive_gone id w0 w : world_le w0 w → running_at id w → world_le w0 (drive_gone id w).
Proof.
  intros Hw Hat. unfold drive_gone. apply le_on_run; [done|]. intros r Hr _. cbv zeta.
  set (w1 := upd id (on_drive (dr_gone true)) w).
  assert (H1 : world_le w0 w1 ∧ running_at id w1) by (split; [unfold w1; le_steps|by apply running_upd]).
  destruct H1. destruct (_ && _); [by apply le_resend|]. destruct (d_body _); [by apply le_end_failed|].
  by apply le_drive_ends, le_finish.
Qed.

Lemma le_drive_in_progress id e r w0 w w' :
  world_le w0 w → running_at id w → drive_in_progress id e r w = Some w' → world_le w0 w'.
Proof.
  intros Hw Hat. unfold drive_in_progress. destruct (holderTurnId e) as [h|].
  - intros [= <-]. apply le_reattach; [le_steps|by apply running_upd].
  - destruct (d_resent _); [|done]. intros [= <-]. apply le_upd; [|done]. apply le_sleep. le_steps.
Qed.

Lemma le_drive_catch id b e w0 w : world_le w0 w → world_le w0 (drive_catch id b e w).
Proof.
  intros Hw. unfold drive_catch. apply le_on_run; [done|]. intros r Hr _. cbv zeta.
  destruct (r_aborted r || _) eqn:E; [by apply le_end_aborted|].
  apply orb_false_iff in E as [_ E]. apply negb_false_iff, running_true in E.
  assert (Hat : running_at id w) by (intros r' Hr'; congruence).
  destruct (_ && b); [by apply le_park|]. destruct (_ && isStreamUnsupportedError e); [le_steps|].
  pose proof (le_end_failed id (failureFromError e "Unexpected error contacting the assistant.") w0 w Hw) as Hf.
  destruct e as [status msg body|m|]; [|done..].
  destruct (_ && bool_decide (apiErrorCode _ = Some "chat_busy")); [by apply le_drive_busy|].
  match goal with |- world_le _ (match ?o with Some w => w | None => _ end) => destruct o as [w'|] eqn:Ho end.
  - destruct (_ && bool_decide (apiErrorCode _ = Some "chat_request_in_progress")); [|done].
    exact (le_drive_in_progress _ _ _ _ _ _ Hw Hat Ho).
  - destruct (_ && (status =? 404)); [by apply le_drive_gone|]. clear Ho. destruct (_ && (_ <? _)); [by apply le_reattach|done].
Qed.

Lemma le_drive_result id o w0 w : world_le w0 w → world_le w0 (drive_result id o w).
Proof.
  intros Hw. unfold drive_result. apply le_on_run; [done|]. intros r Hr _. cbv zeta.
  destruct (negb _); [done|]. set (w1 := upd id no_read w).
  assert (H1 : world_le w0 w1) by (unfold w1; le_steps).
  destruct o as [re|e|m| |e]; [| | | |by apply le_drive_catch];
    destruct (running r) eqn:Hrun; cbn [negb]; try by apply le_drive_ends.
  - by apply le_drive_ends, le_finish.
  - by apply le_end_failed.
  - destruct (r_aborted r); [by apply le_end_aborted|]. destruct (r_parkRequested r); [by apply le_park|by apply le_drive_ends].
  - apply running_true in Hrun. apply le_drive_incomplete; [done|]. apply running_upd; [|done].
    intros r' Hr'. congruence.
Qed.

(** ** Starting, following, polling *)
Lemma le_sleepEnds id w0 w : world_le w0 w → world_le w0 (sleepEnds id w).
Proof. intros Hw. unfold sleepEnds. le_steps. Qed.

Definition fresh_ids (w : World) : Prop := ∀ id r, w_heap w !! id = Some r → (id ≤ w_nextRun w)%nat.

Lemma le_makeRun f d w0 w : fresh_ids w → world_le w0 w → world_le w0 (makeRun f d w).2.
Proof.
  intros Hf Hw. unfold makeRun, nextItemKey. cbn [snd]. etrans; [exact Hw|]. intros id r Hr.
  exists r. split; [|done]. cbn. rewrite lookup_insert_ne; [done|]. apply Hf in Hr. cbn in Hr. lia.
Qed.

Lemma le_startRun o w0 w : fresh_ids w → world_le w0 w → world_le w0 (startRun o w).2.
Proof.
  intros Hf Hw. unfold startRun. destruct (nextItemKey "user" w) as [key w1] eqn:Hk.
  assert (H1 : world_le w0 w1 ∧ fresh_ids w1) by (unfold nextItemKey in Hk; simplify_eq; done). destruct H1 as [H1 Hf1].
  match goal with |- context [makeRun ?f ?d w1] => pose proof (le_makeRun f d w0 w1 Hf1 H1) as H2 end.
  destruct (makeRun _ _ w1) as [id w2]. cbn [snd] in *. apply le_drive_top.
  apply (le_heap' _ (register id w2) _ eq_refl). by apply le_register.
Qed.

Lemma le_follow o tracked w0 w : fresh_ids w → world_le w0 w → world_le w0 (follow o tracked w).2.
Proof.
  intros Hf Hw. unfold follow.
  match goal with |- context [makeRun ?f ?d w] => pose proof (le_makeRun f d w0 w Hf Hw) as H2 end.
  destruct (makeRun _ _ w) as [id w2]. cbn [snd] in *.
  match goal with |- context [with_tab ?f (register id w2)] =>
    assert (H3 : world_le w0 (with_tab f (register id w2)))
      by (apply (le_heap' _ (register id w2) _ eq_refl); by apply le_register) end.
  destruct tracked; [by apply le_parkedWait|by apply le_drive_top].
Qed.

Lemma le_reattachRun o w0 w : fresh_ids w → world_le w0 w → world_le w0 (reattachRun o w).2.
Proof.
  intros Hf Hw. unfold reattachRun. destruct (run_at _ w); [done|]. destruct (isSafeChatId _); [|done].
  pose proof (le_follow o false w0 w Hf Hw). by destruct (follow o false w).
Qed.

Lemma le_trackRun o w0 w : fresh_ids w → world_le w0 w → world_le w0 (trackRun o w).2.
Proof.
  intros Hf Hw. pose proof (le_follow o true w0 w Hf Hw) as Hfo. unfold trackRun.
  destruct (follow o true w) as [id w'] eqn:Hfol. cbn [snd] in Hfo.
  destruct (run_at _ w) as [r|]; [destruct (running r); [exact Hw|]|];
    (destruct (isSafeChatId _); [exact Hfo|exact Hw]).
Qed.

Lemma le_pollParkedRuns w0 w : world_le w0 w → world_le w0 (pollParkedRuns w).
Proof. intros Hw. unfold pollParkedRuns. le_steps. Qed.

Lemma le_pollEnds response w0 w : world_le w0 w → world_le w0 (pollEnds response w).
Proof.
  intros Hw. unfold pollEnds. destruct (negb _); [done|]. cbv zeta. apply le_scheduleParkPoll.
  destruct response as [v|]; [|by apply (le_heap' _ w _ eq_refl)].
  apply le_foldl; [|by apply (le_heap' _ w _ eq_refl)]. intros w' r Hw'. unfold poll_one.
  destruct (if truthy _ then _ else _); [|by apply le_unpark]. by apply (le_heap' _ w' _ eq_refl).
Qed.

(** One step of the module. *)
Lemma le_run_rop o w : world_inv None w → rop_ok o w → world_le w (run_rop o w).
Proof.
  intros Hw Hok. pose proof (wi_fresh _ _ Hw : fresh_ids w) as Hf.
  destruct o; cbn [run_rop].
  - by apply le_startRun.
  - by apply le_reattachRun.
  - by apply le_trackRun.
  - by apply le_attachRun.
  - by apply le_detachRun.
  - by apply le_consumeRun.
  - by apply le_stopRun.
  - by apply le_wakeParkedRun.
  - by apply le_parkTimerFires.
  - by apply le_pollParkedRuns.
  - unfold pollTimerFires. destruct (w_pollTimer w); [|done]. by apply le_pollParkedRuns, (le_heap' _ w _ eq_refl).
  - by apply le_pollEnds.
  - by apply le_flushText.
  - by apply le_drive_top.
  - destruct Hok as (r & Hr & _ & Hread & _). apply le_drive_event; [done|].
    intros r' Hr'. simplify_eq. destruct (wi_runs _ _ Hw _ _ Hr) as [Hc _]. exact (rc_open _ _ Hc Hread).
  - by apply le_drive_result.
  - by apply le_sleepEnds.
  - unfold readCaseSession. destruct (jm_get _ _); [by apply (le_heap' _ w _ eq_refl)|done].
  - by apply le_writeCaseSession.
  - by apply le_noteCaseSessions.
  - by apply (le_heap' _ w _ eq_refl).
  - cbv zeta. destruct (clears o); [apply le_abortAllRuns|]; by apply (le_heap' _ w _ eq_refl).
  - by apply (le_heap' _ w _ eq_refl).
Qed.
End drive.
