(* ===== verification/RunnerDriveInv.v ===== *)
(** * The turn runner: every step of the module keeps the invariant *)

From S2P Require Import Prelude JsValue JsMap Activity ActivityNotices Turn Runner RunnerDrive RunnerInv RunnerFrozen.
From Stdlib Require Import QArith Qcanon.
Local Close Scope Qc_scope.
Local Close Scope Q_scope.
Local Open Scope Z_scope.

Lemma inv_upd2 fl id f g w : world_inv fl (upd id (λ r, g (f r)) w) → world_inv fl (upd id g (upd id f w)).
Proof. apply inv_same. apply upd_upd_core. Qed.

Lemma inv_run fl w id r : world_inv fl w → w_heap w !! id = Some r → run_ok fl id r.
Proof. intros Hw. apply (wi_runs _ _ Hw). Qed.

(** ** [rekeyRun] *)
Lemma inv_rekeyRun fl id c w :
  world_inv fl w → (∀ r, w_heap w !! id = Some r → r_parked r = true → r_state r ≠ SRunning) →
  world_inv fl (rekeyRun id c w).
Proof.
  intros Hw Hp. unfold rekeyRun. apply inv_on_run; [done|]. intros r Hr Hok _. cbv zeta.
  destruct (_ || _); [done|]. apply inv_tab.
  set (to := "conv:" +:+ c). set (f := λ r, set_conversationId (Some c) (set_scope to r)).
  set (w1 := if is_at (r_scope r) id w then ww_runs (jm_delete (w_runs w) (r_scope r)) w else w).
  assert (H1 : world_inv fl w1) by (unfold w1; destruct (is_at _ _ _); [by apply inv_runs_delete|done]).
  assert (Hh1 : w_heap w1 = w_heap w) by (unfold w1; by destruct (is_at _ _ _)).
  assert (Hgone : ∀ s, (s, id) ∉ w_runs w1).
  { intros s Hin. destruct (wi_map _ _ H1 _ _ Hin) as (r' & Hr' & <-). rewrite Hh1, Hr in Hr'. simplify_eq.
    assert (Hin0 : (r_scope r', id) ∈ w_runs w).
    { unfold w1 in Hin. destruct (is_at _ _ _); [|done]. cbn in Hin. unfold jm_delete in Hin.
      by apply list_elem_of_filter in Hin as [_ Hin]. }
    pose proof (jm_elem_get _ _ _ (wi_keys _ _ Hw) Hin0) as Hget.
    unfold w1, is_at in Hin. rewrite bool_decide_true in Hin by done. cbn in Hin. unfold jm_delete in Hin.
    by apply list_elem_of_filter in Hin as [? _]. }
  destruct H1 as [Ha Hb Hc Hd He].
  assert (Hokf : ∀ r, run_ok fl id r → run_ok fl id (f r)).
  { intros r' [Hc' Hp']. split; [destruct Hc'; by constructor|]. unfold phase_ok in *. case_decide; [done|].
    destruct Hp'. by constructor. }
  split; cbn [w_runs w_heap w_nextRun w_pollTimer w_polling ww_runs].
  - intros id' r' [(-> & r0 & Hr0 & ->)|[Hne Hr']]%lookup_upd; eauto.
  - intros id' r' [(-> & r0 & Hr0 & ->)|[Hne Hr']]%lookup_upd; eauto.
  - by apply jm_NoDup_set.
  - intros s id' [[-> ->]|Hin]%jm_set_elem.
    + exists (f r). split; [apply lookup_upd_eq; by rewrite Hh1|done].
    + destruct (decide (id = id')) as [<-|Hne]; [by destruct (Hgone s)|].
      rewrite lookup_upd_ne by done. eauto.
  - intros s id' r' [[-> ->]|Hin]%jm_set_elem.
    + intros [(_ & r0 & Hr0 & ->)|[? _]]%lookup_upd; [|done]. rewrite Hh1, Hr in Hr0. simplify_eq.
      intros Hpk Hst. by destruct (Hp r0 Hr Hpk).
    + destruct (decide (id = id')) as [<-|Hne]; [by destruct (Hgone s)|].
      rewrite lookup_upd_ne by done. eauto.
Qed.

(** ** [finish] *)
Lemma inv_finish_settle fl id st w : world_inv fl w → settled_at id w → world_inv fl (finish_settle id st w).
Proof.
  intros Hw Hs. unfold finish_settle. apply inv_on_run; [done|]. intros r Hr _ _. cbv zeta.
  apply inv_on_run.
  - destruct (_ && starts_with _ _); [|done]. apply inv_rekeyRun; [done|]. intros r' Hr' _. by apply Hs.
  - intros r' Hr' _ H1.
    match goal with |- world_inv _ (if _ then _ else with_tab ?f ?w1) =>
      assert (H2 : world_inv fl (with_tab f w1)) by by apply inv_tab end.
    destruct (_ && (_ =? _)%nat); [by apply inv_consumeRun|done].
Qed.

Lemma inv_writeCaseSession fl c s w : world_inv fl w → world_inv fl (writeCaseSession c s w).
Proof. intros Hw. unfold writeCaseSession. destruct (se_items s), (se_history s); by apply inv_sessions. Qed.

Lemma inv_noteCaseSessions fl i w : world_inv fl w → world_inv fl (noteCaseSessionsDemoIdentity i w).
Proof.
  intros Hw. unfold noteCaseSessionsDemoIdentity. destruct (decide _); [done|].
  destruct (w_sessionsDemo w); by apply (inv_same _ w).
Qed.

Lemma inv_after_settle fl id st r0 w :
  world_inv fl w → settled_at id w → world_inv fl (after_settle id st r0 w).
Proof.
  intros Hw Hs. unfold after_settle. cbv zeta.
  assert (H1 : world_inv fl (if bool_decide (st = SLost) || starts_with "turn:" (r_scope r0)
           then with_tab (dropChatActivity (r_scope r0) true) w else finish_settle id st w)).
  { destruct (_ || _); [by apply inv_tab|by apply inv_finish_settle]. }
  apply inv_on_run; [destruct (decide _); [by apply inv_effect|done]|]. intros r Hr _ H2.
  destruct (_ && _); [|done]. apply inv_consumeRun. destruct (isCaseRunOfAnotherDemo _ _); [done|].
  unfold appendToCaseSession. by apply inv_writeCaseSession, inv_noteCaseSessions.
Qed.

(** The fields [finish] is given fit the state it sets. *)
Definition finish_fits (st : TurnRunState) (fields : Run → Run) : Prop :=
  st ≠ SRunning ∧
  ∀ id r, run_core id r → r_state r = SRunning → r_read r = None → r_parked r = false →
    run_core id (set_state st (fields r)) ∧ r_scope (fields r) = r_scope r ∧ r_read (fields r) = None ∧
    r_parked (fields r) = false ∧ r_drive (fields r) = r_drive r ∧ r_info (fields r) = r_info r ∧
    r_aborted (fields r) = r_aborted r.

Lemma fits_done response : finish_fits SDone (set_response (Some response)).
Proof.
  split; [done|]. intros id r Hc Hs Hr Hp. destruct (core_nothing _ _ Hc Hs) as [_ Hf]. split_and!; try done.
  destruct Hc. constructor; simpl; try done; try (by rewrite Hr); try (by rewrite Hf).
Qed.
Lemma fits_error f : finish_fits SError (set_failure (Some f)).
Proof.
  split; [done|]. intros id r Hc Hs Hr Hp. destruct (core_nothing _ _ Hc Hs) as [Hre _]. split_and!; try done.
  destruct Hc. constructor; simpl; try done; try (by rewrite Hr); try (by rewrite Hre).
Qed.
Lemma fits_plain st : st = SStopped ∨ st = SLost → finish_fits st (λ r, r).
Proof.
  intros Hst. split; [by destruct Hst as [-> | ->]|]. intros id r Hc Hs Hr Hp.
  destruct (core_nothing _ _ Hc Hs) as [Hre Hf]. split_and!; try done.
  destruct Hc. destruct Hst as [-> | ->]; constructor; simpl; try done;
    try (by rewrite Hr); try (by rewrite Hre); try (by rewrite Hf).
Qed.

Lemma inv_finish id st fields w :
  finish_fits st fields → world_inv (Some id) w → world_inv (Some id) (finish id st fields w).
Proof.
  intros [Hst Hfits] Hw. rewrite finish_eq. apply inv_on_run; [done|]. intros r Hr Hok _.
  destruct (running r) eqn:Hrun; cbn [negb]; [|done]. apply running_true in Hrun. apply inv_after_settle.
  - apply inv_upd; [done|]. intros r' Hr' [Hc Hp]. assert (r' = r) as -> by congruence.
    apply phase_flux in Hp as [Hread _].
    assert (Hc1 : run_core id (set_parked false (clearParkTimer (cancelFrame r)))) by (destruct Hc; by constructor).
    destruct (Hfits id _ Hc1 Hrun Hread eq_refl) as (Hc2 & Hsc & Hread2 & Hp2 & _).
    split_and!; [split; [done|]|done|done]. apply phase_flux. split; [done|]. done.
  - intros r' [(_ & r1 & _ & ->)|[? _]]%lookup_upd; [done|done].
Qed.

(** [finish] leaves the run settled. *)
Lemma finish_settled id st fields w : st ≠ SRunning → settled_at id (finish id st fields w).
Proof.
  intros Hst. rewrite finish_eq. unfold on_run. destruct (w_heap w !! id) as [r|] eqn:Hr.
  - destruct (running r) eqn:Hrun; cbn [negb].
    + set (w1 := upd id _ w).
      assert (Hin : ∃ r1, w_heap w1 !! id = Some r1 ∧ r_state r1 = st).
      { eexists. split; [by apply lookup_upd_eq|done]. }
      destruct Hin as (r1 & Hr1 & Hs1).
      destruct (le_after_settle id st r w1 w1 ltac:(done) id r1 Hr1) as (r2 & Hr2 & _ & Hle).
      intros r' Hr'. simplify_eq. destruct Hle as [-> _]; done.
    + intros r' Hr'. simplify_eq. by apply running_false.
  - intros r' Hr'. congruence.
Qed.

Section drive.
Context `{Display} `{ParseNumber}.

Lemma inv_drive_ends id w : world_inv (Some id) w → settled_at id w → world_inv None (drive_ends id w).
Proof.
  intros Hw Hs. eapply inv_upd_gen; [exact Hw|apply flux_close|]. intros r Hr [Hc Hp].
  apply phase_flux in Hp as [Hread Hp]. specialize (Hs r Hr). split_and!; [split|done|by left].
  - destruct Hc. constructor; simpl; done.
  - apply phase_pc; [done|]. constructor; simpl; rewrite ?Hread; done.
Qed.

Lemma inv_end_aborted id w :
  world_inv (Some id) w → (∀ r, w_heap w !! id = Some r → r_state r = SRunning → r_forcedStop r = true) →
  world_inv None (end_aborted id w).
Proof.
  intros Hw Ha. unfold end_aborted, on_run. destruct (w_heap w !! id) as [r|] eqn:Hr.
  - destruct (r_forcedStop r) eqn:Hf; apply inv_drive_ends.
    + apply inv_finish; [apply fits_plain; by left|done].
    + by apply finish_settled.
    + done.
    + intros r' Hr' Hs. simplify_eq. rewrite (Ha _ eq_refl Hs) in Hf. done.
  - replace w with (drive_ends id w); [apply inv_drive_ends; [done|]; intros r; congruence|].
    unfold drive_ends, upd, ww_heap. destruct w as [h ? ? ? ? ? ? ? ? ? ? ? ? ?]. cbn in *. f_equal.
    apply map_eq. intros j. destruct (decide (id = j)) as [<-|]; [by rewrite lookup_alter_eq, Hr|by rewrite lookup_alter_ne].
Qed.

Lemma inv_end_failed id f w : world_inv (Some id) w → world_inv None (end_failed id f w).
Proof.
  intros Hw. apply inv_drive_ends; [|by apply finish_settled]. apply inv_finish; [apply fits_error|done].
Qed.

(** Entering and leaving a step. *)
Lemma inv_open id w :
  world_inv None w → (∀ r, w_heap w !! id = Some r → run_pc r → run_flux r) → world_inv (Some id) w.
Proof.
  intros Hw Hf. eapply (inv_same _ (upd id (λ r, r) w)).
  { unfold same_core, upd; cbn. by rewrite alter_id. }
  eapply inv_upd_gen; [exact Hw|apply flux_open|]. intros r Hr [Hc Hp]. apply phase_pc in Hp; [|done].
  split_and!; [split; [done|]|done|by left]. apply phase_flux. by apply Hf.
Qed.

(** Closing with the loop at its head. *)
Lemma inv_close_top id f w :
  world_inv (Some id) w →
  (∀ r, w_heap w !! id = Some r → run_core id r → run_flux r →
     run_core id (f r) ∧ r_scope (f r) = r_scope r ∧ r_read (f r) = None ∧ d_pc (r_drive (f r)) = PcTop ∧
     r_parked (f r) = r_parked r ∧ r_state (f r) = r_state r ∧ r_aborted (f r) = r_aborted r) →
  world_inv None (upd id f w).
Proof.
  intros Hw Hf. eapply inv_upd_gen; [exact Hw|apply flux_close|]. intros r Hr [Hc Hp].
  apply phase_flux in Hp. destruct (Hf r Hr Hc Hp) as (Hc' & Hsc & Hread & Hpc & Hpk & Hst & Hab).
  destruct Hp as [Hread0 Hp]. split_and!; [split; [done|]|done|rewrite Hpk, Hst; by left].
  apply phase_pc; [done|]. constructor; rewrite ?Hread, ?Hpc, ?Hpk, ?Hst, ?Hab; try done. right. auto.
Qed.

Lemma inv_flux_upd id f w :
  world_inv (Some id) w →
  (∀ r, w_heap w !! id = Some r → run_core id r → run_flux r →
     run_core id (f r) ∧ r_scope (f r) = r_scope r ∧ r_read (f r) = None ∧
     r_parked (f r) = r_parked r ∧ r_state (f r) = r_state r ∧ r_aborted (f r) = r_aborted r) →
  world_inv (Some id) (upd id f w).
Proof.
  intros Hw Hf. apply inv_upd; [done|]. intros r Hr [Hc Hp].
  apply phase_flux in Hp. destruct (Hf r Hr Hc Hp) as (Hc' & Hsc & Hread & Hpk & Hst & Hab).
  split_and!; [split; [done|]|done|by rewrite Hpk, Hst].
  apply phase_flux. split; [done|]. rewrite Hpk, Hst, Hab. apply Hp.
Qed.

Lemma scheduleParkCheck_cases id w :
  scheduleParkCheck id w = w ∨ scheduleParkCheck id w = upd id (set_parkTimer true) w.
Proof.
  unfold scheduleParkCheck, on_run. destruct (w_heap w !! id); [|by left]. destruct (_ || _); [by left|by right].
Qed.

(** What [drive_top] makes of a running run. *)
Lemma reading_ok id r f :
  run_core id r → r_state r = SRunning → r_aborted r = false → r_parked r = false → d_pc (r_drive r) = PcTop →
  (∀ r, r_info (f r) = r_info r ∧ r_state (f r) = r_state r ∧ r_drive (f r) = r_drive r ∧ r_turnId (f r) = r_turnId r ∧
     r_parked (f r) = r_parked r ∧ r_attached (f r) = r_attached r ∧ r_aborted (f r) = r_aborted r ∧ r_read (f r) = r_read r ∧
     lv_steps (r_live (f r)) = lv_steps (r_live r) ∧ r_response (f r) = r_response r ∧ r_failure (f r) = r_failure r ∧
     r_parkRequested (f r) = r_parkRequested r) →
  let r' := set_pc PcReading (f (set_read (Some false) (set_parkRequested false r))) in
  run_core id r' ∧ run_pc r'.
Proof.
  intros Hc Hs Ha Hp Hpc Hf. set (r1 := set_read (Some false) (set_parkRequested false r)).
  destruct (Hf r1) as (F1 & F2 & F3 & F4 & F5 & F6 & F7 & F8 & F9 & F10 & F11 & F12).
  simpl in *. split.
  - destruct Hc. constructor; unfold r_id, r_kind, r_request in *; simpl;
      rewrite ?F1, ?F2, ?F3, ?F4, ?F5, ?F6, ?F7, ?F8, ?F9, ?F10, ?F11, ?F12; try done; simpl; by rewrite Ha || done.
  - constructor; simpl; rewrite ?F2, ?F3, ?F5, ?F7, ?F8; simpl; rewrite ?Hp, ?Hs; try done.
Qed.

Lemma inv_reading id r f w :
  world_inv None w → w_heap w !! id = Some r → r_state r = SRunning → r_aborted r = false →
  d_pc (r_drive r) = PcTop →
  (∀ r, r_info (f r) = r_info r ∧ r_state (f r) = r_state r ∧ r_drive (f r) = r_drive r ∧ r_turnId (f r) = r_turnId r ∧
     r_parked (f r) = r_parked r ∧ r_attached (f r) = r_attached r ∧ r_aborted (f r) = r_aborted r ∧ r_read (f r) = r_read r ∧
     lv_steps (r_live (f r)) = lv_steps (r_live r) ∧ r_response (f r) = r_response r ∧ r_failure (f r) = r_failure r ∧
     r_parkRequested (f r) = r_parkRequested r) →
  (∀ r, r_scope (f r) = r_scope r) →
  world_inv None (upd id (λ r, set_pc PcReading (f (set_read (Some false) (set_parkRequested false r)))) w).
Proof.
  intros Hw Hr Hs Ha Hpc Hf Hsc. apply inv_upd; [done|]. intros r' Hr' [Hc Hp]. assert (r' = r) as -> by congruence.
  apply phase_pc in Hp; [|done].
  assert (Hpk : r_parked r = false).
  { destruct (r_parked r) eqn:E; [|done]. destruct (rp_parked _ Hp E Hs) as [?|[? _]]; congruence. }
  destruct (reading_ok id r f Hc Hs Ha Hpk Hpc Hf) as [Hc' Hp'].
  destruct (Hf (set_read (Some false) (set_parkRequested false r))) as (_ & F2 & _ & _ & F5 & _).
  split_and!; [split; [exact Hc'|by apply phase_pc]|exact (Hsc (set_read (Some false) (set_parkRequested false r)))|].
  simpl in *. rewrite F5. congruence.
Qed.

Lemma inv_drive_top id w : world_inv None w → world_inv None (drive_top id w).
Proof.
  intros Hw. unfold drive_top. apply inv_on_run; [done|]. intros r Hr [Hc Hp] _. cbv zeta.
  apply phase_pc in Hp; [|done].
  case_bool_decide as Hpc; cbn [negb]; [|done].
  assert (Hread : r_read r = None).
  { destruct (r_read r) eqn:E; [|done]. assert (d_pc (r_drive r) = PcReading) by (apply (rp_read _ Hp); by rewrite E). congruence. }
  assert (Hopen : world_inv (Some id) w).
  { apply inv_open; [done|]. intros r' Hr' Hp'. assert (r' = r) as -> by congruence. split; [done|].
    intros Hpk Hst. destruct (rp_parked _ Hp' Hpk Hst) as [?|[? _]]; [congruence|done]. }
  destruct (r_aborted r) eqn:Ha.
  { apply inv_end_aborted; [done|]. intros r' Hr' Hs. assert (r' = r) as -> by congruence. by apply (rc_aborted _ _ Hc). }
  destruct (running r) eqn:Hs; cbn [negb].
  2:{ apply inv_drive_ends; [done|]. intros r' Hr'. assert (r' = r) as -> by congruence. by apply running_false. }
  apply running_true in Hs.
  set (w1 := upd id (λ r, set_read (Some false) (set_parkRequested false r)) w).
  set (w2 := if (r_attached r =? 0)%nat then scheduleParkCheck id w1 else w1).
  assert (Hw2 : w2 = w1 ∨ w2 = upd id (set_parkTimer true) w1).
  { unfold w2. destruct (_ =? _)%nat; [apply scheduleParkCheck_cases|by left]. }
  assert (Hread2 : world_inv None (upd id (set_pc PcReading) w2)).
  { destruct Hw2 as [-> | ->]; unfold w1; repeat apply inv_upd2.
    - by apply (inv_reading id r (λ r, r)).
    - by apply (inv_reading id r (set_parkTimer true)). }
  assert (Hblock : world_inv None (upd id (set_pc PcReading) (setLive id (live_transport Blocking) (upd id (set_transport Blocking) w2)))).
  { destruct Hw2 as [-> | ->]; unfold w1, setLive; repeat apply inv_upd2.
    - by apply (inv_reading id r (λ r, set_live (live_transport Blocking (r_live r)) (set_transport Blocking r))).
    - by apply (inv_reading id r (λ r, set_live (live_transport Blocking (r_live r)) (set_transport Blocking (set_parkTimer true r)))). }
  destruct (d_mode (r_drive r)), (r_request r), (d_body (r_drive r));
    first [by (eapply inv_same; [|exact Hread2])|by (eapply inv_same; [|exact Hblock])].
Qed.

(** ** Events *)
Lemma inv_noteStep fl id l w : world_inv fl w → world_inv fl (noteStep id l w).
Proof. intros Hw. unfold noteStep. apply inv_on_run; [done|]. intros. by apply inv_tab. Qed.

(** An update that touches nothing the invariant reads. *)
Lemma inv_upd_plain fl id f w :
  (∀ r, r_info (f r) = r_info r ∧ r_scope (f r) = r_scope r ∧ r_state (f r) = r_state r ∧ r_drive (f r) = r_drive r ∧
     (r_turnId r ≠ None → r_turnId (f r) ≠ None) ∧
     r_parked (f r) = r_parked r ∧ r_attached (f r) = r_attached r ∧ r_aborted (f r) = r_aborted r ∧ r_read (f r) = r_read r ∧
     r_forcedStop (f r) = r_forcedStop r ∧ r_parkRequested (f r) = r_parkRequested r ∧
     r_live (f r) = r_live r ∧ r_response (f r) = r_response r ∧ r_failure (f r) = r_failure r) →
  world_inv fl w → world_inv fl (upd id f w).
Proof.
  intros Hf Hw. apply inv_upd; [done|]. intros r Hr [Hc Hp].
  destruct (Hf r) as (F1 & F2 & F3 & F4 & F5 & F6 & F7 & F8 & F9 & F10 & F11 & F12 & F13 & F14).
  split_and!; [split|done|by rewrite F6, F3].
  - destruct Hc. constructor; unfold r_id, r_kind, r_request in *;
      rewrite ?F1, ?F2, ?F3, ?F4, ?F6, ?F7, ?F8, ?F9, ?F10, ?F11, ?F12, ?F13, ?F14; try done; auto.
  - unfold phase_ok in *. case_decide.
    + unfold run_flux in *. by rewrite F9, F6, F3, F8.
    + destruct Hp. constructor; rewrite ?F3, ?F4, ?F6, ?F8, ?F9; done.
Qed.

Lemma not_parked_reading id w r :
  world_inv None w → w_heap w !! id = Some r → d_pc (r_drive r) = PcReading → r_parked r = true → r_state r ≠ SRunning.
Proof.
  intros Hw Hr Hpc Hp Hs. destruct (wi_runs _ _ Hw _ _ Hr) as [_ Hph]. apply phase_pc in Hph; [|done].
  destruct (rp_parked _ Hph Hp Hs) as [?|[_ ?]]; congruence.
Qed.

Definition reading_at (id : nat) (w : World) : Prop := ∀ r, w_heap w !! id = Some r → d_pc (r_drive r) = PcReading.

Lemma reading_upd id f w :
  reading_at id w → (∀ r, d_pc (r_drive (f r)) = d_pc (r_drive r)) → reading_at id (upd id f w).
Proof. intros Hw Hf r [(_ & r0 & Hr0 & ->)|[? _]]%lookup_upd; [|done]. rewrite Hf. by apply Hw. Qed.

Lemma reading_cancel id t w : reading_at id w → reading_at id (cancelChatTurn t w).
Proof. intros Hw. unfold cancelChatTurn. by destruct (isSafeChatId _). Qed.

Lemma inv_onTurnStart id e w : world_inv None w → reading_at id w → world_inv None (onTurnStart id e w).
Proof.
  intros Hw Hrd. unfold onTurnStart. apply inv_on_run; [done|]. intros r Hr _ _.
  set (w1 := upd id (set_turnId (Some (ts_turn_id e))) w).
  assert (H1 : world_inv None w1 ∧ reading_at id w1) by (split; [by apply inv_upd_plain|by apply reading_upd]).
  set (w2 := if truthy (ts_conversation_id e) then upd id (set_conversationId (ts_conversation_id e)) w1 else w1).
  assert (H2 : world_inv None w2 ∧ reading_at id w2).
  { unfold w2. destruct (truthy _); [|done]. destruct H1. split; [by apply inv_upd_plain|by apply reading_upd]. }
  set (w3 := if _ || _ then cancelChatTurn (ts_turn_id e) (upd id (set_cancelWhenStarted false) w2) else w2).
  assert (H3 : world_inv None w3 ∧ reading_at id w3).
  { unfold w3. destruct (_ || _); [|done]. destruct H2.
    split; [by apply inv_cancel, inv_upd_plain|by apply reading_cancel, reading_upd]. }
  set (w4 := upd id (λ r, cancelFrame (set_text "" r)) w3).
  assert (H4 : world_inv None w4 ∧ reading_at id w4).
  { unfold w4. destruct H3. split; [by apply inv_upd_plain|by apply reading_upd]. }
  set (w5 := setLive id (live_started e) w4).
  assert (H5 : world_inv None w5 ∧ reading_at id w5).
  { destruct H4. split; [apply inv_setLive; [|done]; intros; constructor|by apply reading_upd]. }
  clearbody w5. clear w1 H1 w2 H2 w3 H3 w4 H4. destruct H5 as [H5 Hrd5].
  cbv zeta. apply inv_on_run; [done|]. intros r' Hr' _ _.
  assert (H6 : world_inv None (with_tab (patchChatActivity (r_scope r') (patch_turn (Some (ts_turn_id e)) (r_conversationId r'))) w5))
    by by apply inv_tab.
  assert (H7 : ∀ c, world_inv None (rekeyRun id c
    (with_tab (patchChatActivity (r_scope r') (patch_turn (Some (ts_turn_id e)) (r_conversationId r'))) w5))).
  { intros c. apply inv_rekeyRun; [done|]. intros r2 Hr2. apply (not_parked_reading id _ _ H5 Hr2). by apply Hrd5. }
  destruct (_ =? _)%nat; [apply inv_scheduleParkCheck|]; (destruct (_ && starts_with _ _); [apply H7|exact H6]).
Qed.

Lemma inv_handleEvent id e w : world_inv None w → reading_at id w → world_inv None (handleEvent id e w).
Proof.
  intros Hw Hrd. unfold handleEvent. apply inv_on_run; [done|]. intros r Hr [Hc _] _.
  destruct (negb (running r)); [done|].
  destruct e; try done.
  - by apply inv_onTurnStart.
  - destruct (has_step _ _) eqn:Hh; [done|]. apply inv_noteStep.
    unfold setLive. apply inv_upd; [done|]. intros r' Hr' [Hc' Hp']. assert (r' = r) as -> by congruence.
    split_and!; [split|done|by auto].
    + pose proof (add_step_sorted step (w_now w) _ (rc_steps _ _ Hc') Hh). destruct Hc'. by constructor.
    + unfold phase_ok in *. case_decide; [done|]. destruct Hp'. by constructor.
  - apply inv_noteStep, inv_setLive; [|done]. intros l Hl. by apply end_step_sorted.
  - apply inv_setLive; [|done]. intros l Hl. destruct (has_step _ _); [by apply progress_step_sorted|done].
  - by apply inv_setLive.
  - by apply inv_upd_plain.
  - apply inv_setLive; [done|]. by apply inv_upd_plain.
  - by apply inv_setLive.
Qed.

Lemma note_event_fields e seq d :
  d_mode (note_event e seq d) = d_mode d ∧ d_pc (note_event e seq d) = d_pc d ∧ d_body (note_event e seq d) = d_body d ∧
  d_canResend (note_event e seq d) = d_canResend d ∧ d_resent (note_event e seq d) = d_resent d ∧
  d_gone (note_event e seq d) = d_gone d ∧
  (d_drops (note_event e seq d) = 0 ∨ d_drops (note_event e seq d) = d_drops d).
Proof.
  unfold note_event. destruct (is_ping e), (bool_decide _), seq; cbn; split_and!; try done; by (left + right).
Qed.

Lemma inv_drive_event id e seq w :
  world_inv None w → reading_at id w → world_inv None (drive_event id e seq w).
Proof.
  intros Hw Hrd. unfold drive_event. apply inv_on_run; [done|]. intros r Hr _ _. cbv zeta.
  assert (H1 : world_inv None (upd id (on_drive (note_event e seq)) w)).
  { apply inv_upd; [done|]. intros r' Hr' [Hc Hp]. split_and!; [split|done|by auto].
    - destruct (note_event_fields e seq (r_drive r')) as (F1 & F2 & F3 & F4 & F5 & F6 & F7).
      destruct Hc. constructor; simpl; rewrite ?F1, ?F2, ?F3, ?F4, ?F5; try done.
      unfold MAX_REATTACH_ATTEMPTS in *. destruct F7 as [-> | ->]; lia.
    - apply phase_pc; [done|]. apply phase_pc in Hp; [|done].
      destruct (note_event_fields e seq (r_drive r')) as (_ & F2 & _). destruct Hp. constructor; simpl; rewrite ?F2; done. }
  assert (R1 : reading_at id (upd id (on_drive (note_event e seq)) w)).
  { apply reading_upd; [done|]. intros r'. simpl. by destruct (note_event_fields e seq (r_drive r')) as (_ & -> & _). }
  destruct (reconnects e r); apply inv_handleEvent; try done; [by apply inv_setLive|by apply reading_upd].
Qed.

Lemma inv_flushText id w : world_inv None w → world_inv None (flushText id w).
Proof.
  intros Hw. unfold flushText. apply inv_on_run; [done|]. intros r Hr _ _. destruct (negb _); [done|]. cbv zeta.
  assert (H1 : world_inv None (upd id (set_frame false) w)) by by apply inv_upd_plain.
  destruct (running r); [by apply inv_setLive|done].
Qed.
End drive.
