(* ===== verification/RunnerSafe.v ===== *)
(** * The turn runner: the invariant over every history, and what it promises *)

From S2P Require Import Prelude JsValue JsMap Activity ActivityNotices Turn Runner RunnerDrive RunnerInv RunnerFrozen RunnerDriveInv.
From Stdlib Require Import QArith Qcanon.
Local Close Scope Qc_scope.
Local Close Scope Q_scope.
Local Open Scope Z_scope.

Section drive.
Context `{Display} `{ParseNumber}.

(** ** The end of a read *)
Lemma flux_run id w r : world_inv (Some id) w → w_heap w !! id = Some r → run_core id r ∧ run_flux r.
Proof. intros Hw Hr. destruct (wi_runs _ _ Hw _ _ Hr) as [Hc Hp]. by apply phase_flux in Hp. Qed.

Lemma inv_no_read id w : world_inv None w → reading_at id w → world_inv (Some id) (upd id no_read w).
Proof.
  intros Hw Hrd. eapply inv_upd_gen; [exact Hw|apply flux_open|]. intros r Hr [Hc Hp]. apply phase_pc in Hp; [|done].
  split_and!; [split|done|by left].
  - destruct Hc. by constructor.
  - apply phase_flux. split; [done|]. intros Hpk Hs. simpl in *.
    destruct (rp_parked _ Hp Hpk Hs) as [?|[? _]]; [|done]. rewrite (Hrd r Hr) in *. congruence.
Qed.

Lemma inv_sleep id ms w : world_inv (Some id) w → world_inv None (sleep id ms w) ∨ w_heap w !! id = None.
Proof.
  intros Hw. unfold sleep, on_run. destruct (w_heap w !! id) as [r|] eqn:Hr; [left|by right].
  destruct (r_aborted r) eqn:Ha.
  - apply inv_close_top; [done|]. intros r' Hr' Hc [Hread Hp]. split_and!; try done. destruct Hc. by constructor.
  - apply inv_effect. eapply inv_upd_gen; [exact Hw|apply flux_close|]. intros r' Hr' [Hc Hp].
    assert (r' = r) as -> by congruence. apply phase_flux in Hp as [Hread Hp].
    split_and!; [split; [destruct Hc; by constructor|]|done|by left].
    apply phase_pc; [done|]. constructor; simpl; rewrite ?Hread; try done. intros Hpk Hs.
    by rewrite (Hp Hpk Hs) in Ha.
Qed.

Lemma inv_close_none fl id w : w_heap w !! id = None → world_inv (Some id) w → world_inv fl w → world_inv None w.
Proof.
  intros Hn Hw _. destruct Hw as [Ha Hb Hc Hd He]. split; try done. intros j r Hr. destruct (Ha j r Hr) as [Hco Hp].
  split; [done|]. apply phase_pc; [done|]. apply phase_pc in Hp; [done|]. congruence.
Qed.

Lemma inv_sleep' id ms w : world_inv (Some id) w → world_inv None (sleep id ms w).
Proof.
  intros Hw. destruct (inv_sleep id ms w Hw) as [|Hn]; [done|].
  unfold sleep, on_run. rewrite Hn. by apply (inv_close_none (Some id) id).
Qed.

Lemma inv_resend id w :
  world_inv (Some id) w → (∀ r, w_heap w !! id = Some r → d_canResend (r_drive r) = true) → world_inv None (resend id w).
Proof.
  intros Hw Hcan. unfold resend. apply inv_close_top; [done|]. intros r Hr Hc [Hread Hp]. split_and!; try done.
  specialize (Hcan r Hr). destruct (rc_resend _ _ Hc Hcan) as (H1 & H2 & H3). destruct Hc. by constructor.
Qed.

Definition turn_at (id : nat) (w : World) : Prop := ∀ r, w_heap w !! id = Some r → r_turnId r ≠ None.

Lemma inv_reattach id w :
  world_inv (Some id) w → turn_at id w →
  (∀ r, w_heap w !! id = Some r → d_drops (r_drive r) < MAX_REATTACH_ATTEMPTS) → world_inv None (reattach id w).
Proof.
  intros Hw Ht Hd. unfold reattach, on_run. destruct (w_heap w !! id) as [r|] eqn:Hr; [|by apply (inv_close_none (Some id) id)].
  specialize (Ht r Hr). specialize (Hd r eq_refl). cbv zeta.
  assert (Hcore : ∀ r', r' = r → run_core id r' → run_core id
    (set_live (live_connection Recovering (r_live (no_read (on_drive (λ d, dr_drops (d_drops (r_drive r) + 1)
       (dr_mode MEvents (if decide (d_mode d = MEvents) then d else dr_after 0 d))) r'))))
      (no_read (on_drive (λ d, dr_drops (d_drops (r_drive r) + 1)
       (dr_mode MEvents (if decide (d_mode d = MEvents) then d else dr_after 0 d))) r')))).
  { intros r' -> Hc. pose proof (rc_drops _ _ Hc) as Hdr.
    destruct Hc. constructor; simpl; try done; try (by destruct (decide (d_mode (r_drive r) = MEvents))).
    unfold MAX_REATTACH_ATTEMPTS in *. lia. }
  assert (H1 : world_inv (Some id) (upd id (λ r0, set_live (live_connection Recovering (r_live (no_read (on_drive (λ d, dr_drops (d_drops (r_drive r) + 1)
       (dr_mode MEvents (if decide (d_mode d = MEvents) then d else dr_after 0 d))) r0))))
      (no_read (on_drive (λ d, dr_drops (d_drops (r_drive r) + 1)
       (dr_mode MEvents (if decide (d_mode d = MEvents) then d else dr_after 0 d))) r0))) w)).
  { apply inv_flux_upd; [done|]. intros r' Hr' Hc _. split_and!; try done. apply Hcore; [congruence|done]. }
  destruct (_ <? _); [by apply inv_sleep'|].
  apply inv_close_top; [done|]. intros r' Hr' Hc [Hread Hp]. split_and!; try done. destruct Hc. by constructor.
Qed.

Lemma inv_park id m w : world_inv (Some id) w → turn_at id w → world_inv None (park id m w).
Proof.
  intros Hw Ht. unfold park. destruct (w_heap w !! id) as [r|] eqn:Hr.
  - apply inv_parkedWait; [|eexists; by apply lookup_upd_eq].
    apply inv_flux_upd; [done|]. intros r' Hr' Hc [Hread Hp]. split_and!; try done.
    specialize (Ht r' Hr'). destruct Hc. constructor; simpl; try done; by destruct (decide (d_mode (r_drive r') = MPost)).
  - set (w1 := upd id _ w). assert (Hn : w_heap w1 !! id = None) by (unfold w1, upd; cbn; by rewrite lookup_alter_eq, Hr).
    assert (H1 : world_inv (Some id) w1) by (apply inv_flux_upd; [done|]; intros r'; congruence).
    clearbody w1. unfold parkedWait. set (w2 := upd id _ w1).
    assert (Hn2 : w_heap w2 !! id = None) by (unfold w2, upd; cbn; by rewrite lookup_alter_eq, Hn).
    assert (H2 : world_inv (Some id) w2) by (apply inv_flux_upd; [done|]; intros r'; congruence).
    unfold on_run. rewrite Hn2. by apply (inv_close_none (Some id) id).
Qed.

Lemma inv_drive_incomplete id w : world_inv (Some id) w → world_inv None (drive_incomplete id w).
Proof.
  intros Hw. unfold drive_incomplete, on_run. destruct (w_heap w !! id) as [r|] eqn:Hr; [|by apply (inv_close_none (Some id) id)].
  cbv zeta. destruct (truthy _ && _ && _) eqn:E1.
  - rewrite !andb_true_iff in E1. destruct E1 as [[Ht _] Hd]. apply Z.ltb_lt in Hd.
    apply inv_reattach; [done| |]; intros r' Hr'; assert (r' = r) as -> by congruence; [by destruct (r_turnId r)|done].
  - clear E1. destruct (d_canResend _ && _) eqn:E2.
    + apply andb_true_iff in E2 as [Hcan _]. apply inv_resend; [done|]. intros r' Hr'. by assert (r' = r) as -> by congruence.
    + by apply inv_end_failed.
Qed.

(** An update of counters of [drive] the invariant does not read. *)
Lemma inv_counter fl id f w :
  (∀ d, d_mode (f d) = d_mode d ∧ d_pc (f d) = d_pc d ∧ d_body (f d) = d_body d ∧ d_canResend (f d) = d_canResend d ∧
     d_resent (f d) = d_resent d ∧ (d_drops (f d) = d_drops d ∨ d_drops (f d) = 0)) →
  world_inv fl w → world_inv fl (upd id (on_drive f) w).
Proof.
  intros Hf Hw. apply inv_upd; [done|]. intros r Hr [Hc Hp]. destruct (Hf (r_drive r)) as (F1 & F2 & F3 & F4 & F5 & F6).
  split_and!; [split|done|by auto].
  - destruct Hc. constructor; simpl; rewrite ?F1, ?F3, ?F4, ?F5; try done.
    unfold MAX_REATTACH_ATTEMPTS in *. destruct F6 as [-> | ->]; lia.
  - unfold phase_ok in *. case_decide; [done|]. destruct Hp. constructor; simpl; rewrite ?F2; done.
Qed.

Lemma inv_drive_busy id e w : world_inv (Some id) w → world_inv None (drive_busy id e w).
Proof.
  intros Hw. unfold drive_busy, on_run. destruct (w_heap w !! id) as [r|] eqn:Hr; [|by apply (inv_close_none (Some id) id)].
  cbv zeta. set (w1 := upd id (on_drive (dr_busySince _)) w).
  assert (H1 : world_inv (Some id) w1) by (apply inv_counter; [intros d; split_and!; by try left|done]).
  destruct (_ <=? _); [by apply inv_end_failed|].
  apply inv_counter; [intros d; split_and!; by try left|]. apply inv_sleep'.
  apply inv_flux_upd; [by apply inv_setLive|]. intros r' Hr' Hc [Hread Hp]. split_and!; try done. destruct Hc. by constructor.
Qed.

Lemma inv_drive_gone id w : world_inv (Some id) w → world_inv None (drive_gone id w).
Proof.
  intros Hw. unfold drive_gone, on_run. destruct (w_heap w !! id) as [r|] eqn:Hr; [|by apply (inv_close_none (Some id) id)].
  cbv zeta. set (w1 := upd id (on_drive (dr_gone true)) w).
  assert (H1 : world_inv (Some id) w1) by (apply inv_counter; [intros d; split_and!; by try left|done]).
  destruct (_ && _) eqn:E.
  - apply andb_true_iff in E as [Hcan _]. apply inv_resend; [done|].
    intros r' [(_ & r0 & Hr0 & ->)|[? _]]%lookup_upd; [|done]. by assert (r0 = r) as -> by congruence.
  - destruct (d_body _); [by apply inv_end_failed|].
    apply inv_drive_ends; [|by apply finish_settled]. apply inv_finish; [apply fits_plain; by right|done].
Qed.

Lemma inv_drive_in_progress id e r w w' :
  world_inv (Some id) w → w_heap w !! id = Some r → drive_in_progress id e r w = Some w' → world_inv None w'.
Proof.
  intros Hw Hr. unfold drive_in_progress. destruct (holderTurnId e) as [h|].
  - intros [= <-]. apply inv_reattach.
    + apply inv_flux_upd; [done|]. intros r' Hr' Hc [Hread Hp]. split_and!; try done.
      destruct Hc. constructor; simpl; try done; auto.
    + intros r' [(_ & r0 & Hr0 & ->)|[? _]]%lookup_upd; done.
    + intros r' [(_ & r0 & Hr0 & ->)|[? _]]%lookup_upd; done.
  - destruct (d_resent _); [|done]. intros [= <-].
    apply inv_counter; [intros d; split_and!; by try left|]. apply inv_sleep'.
    apply inv_flux_upd; [done|]. intros r' Hr' Hc [Hread Hp]. split_and!; try done. destruct Hc. by constructor.
Qed.

Lemma inv_drive_catch id b e w : world_inv (Some id) w → world_inv None (drive_catch id b e w).
Proof.
  intros Hw. unfold drive_catch, on_run. destruct (w_heap w !! id) as [r|] eqn:Hr; [|by apply (inv_close_none (Some id) id)].
  destruct (flux_run _ _ _ Hw Hr) as [Hc Hfl]. cbv zeta.
  destruct (r_aborted r || negb (running r)) eqn:E.
  { apply inv_end_aborted; [done|]. intros r' Hr' Hs. assert (r' = r) as -> by congruence.
    apply orb_true_iff in E as [E|E]; [by apply (rc_aborted _ _ Hc)|]. by apply negb_true_iff, running_false in E. }
  destruct (r_parkRequested r && b) eqn:Ep.
  { apply inv_park; [done|]. intros r' Hr'. assert (r' = r) as -> by congruence.
    apply andb_true_iff in Ep as [Ep _]. by apply (rc_named _ _ Hc). }
  destruct (_ && isStreamUnsupportedError e) eqn:Eu.
  { rewrite !andb_true_iff in Eu. destruct Eu as [[Em _] _]. apply bool_decide_eq_true in Em.
    apply inv_close_top; [done|]. intros r' Hr' _ _. assert (r' = r) as -> by congruence.
    destruct Hfl as [Hread _]. split_and!; try done.
    assert (Hb : d_body (r_drive r) ≠ None) by (apply (rc_mode _ _ Hc); by rewrite Em). destruct Hc. by constructor. }
  pose proof (inv_end_failed id (failureFromError e "Unexpected error contacting the assistant.") w Hw) as Hf.
  destruct e as [status msg body|m|]; [|done..].
  destruct (_ && bool_decide (apiErrorCode _ = Some "chat_busy")); [by apply inv_drive_busy|].
  match goal with |- world_inv _ (match ?o with Some w => w | None => _ end) => destruct o as [w'|] eqn:Ho end.
  - destruct (_ && bool_decide (apiErrorCode _ = Some "chat_request_in_progress")); [|done].
    exact (inv_drive_in_progress _ _ _ _ _ Hw Hr Ho).
  - clear Ho. destruct (_ && (status =? 404)); [by apply inv_drive_gone|].
    destruct (_ && (_ <? _)) eqn:Ea; [|done]. rewrite !andb_true_iff in Ea. destruct Ea as [[Em _] Hd].
    apply bool_decide_eq_true in Em. apply Z.ltb_lt in Hd.
    apply inv_reattach; [done| |]; intros r' Hr'; assert (r' = r) as -> by congruence; [by apply (rc_events _ _ Hc)|done].
Qed.

Lemma inv_drive_result id o w : world_inv None w → rop_ok (RoResult id o) w → world_inv None (drive_result id o w).
Proof.
  intros Hw Hok. unfold drive_result. apply inv_on_run; [done|]. intros r Hr [Hc _] _. cbv zeta.
  case_bool_decide as Hpc; cbn [negb]; [|done].
  assert (H1 : world_inv (Some id) (upd id no_read w)) by (apply inv_no_read; [done|]; intros r' Hr'; congruence).
  assert (Hlk : ∀ r', w_heap (upd id no_read w) !! id = Some r' → r' = no_read r).
  { intros r' Hr'. rewrite (lookup_upd_eq id _ w r Hr) in Hr'. congruence. }
  assert (Hset : running r = false → settled_at id (upd id no_read w)).
  { intros Hs r' ->%Hlk. by apply running_false. }
  destruct o as [re|e|m| |e]; [| | | |by apply inv_drive_catch];
    (destruct (running r) eqn:Hrun; cbn [negb]; [|by apply inv_drive_ends, Hset]).
  - apply inv_drive_ends; [|by apply finish_settled]. apply inv_finish; [apply fits_done|done].
  - by apply inv_end_failed.
  - destruct Hok as (r0 & Hr0 & Hread). assert (r0 = r) as -> by congruence.
    destruct (r_aborted r) eqn:Ha.
    + apply inv_end_aborted; [done|]. intros r' ->%Hlk Hs. simpl in *. by apply (rc_aborted _ _ Hc).
    + destruct (rc_closed _ _ Hc Hread) as [?|Hpr]; [congruence|]. rewrite Hpr.
      apply inv_park; [done|]. intros r' ->%Hlk. by apply (rc_named _ _ Hc).
  - by apply inv_drive_incomplete.
Qed.

(** ** Starting runs *)
Definition new_run (f : RunFields) (key : string) (id : nat) (demo : string) (d : Drive) : Run :=
  mkRun (mkRunInfo id (mf_kind f) (mf_caseId f) (mf_request f) (mf_request f ≫= rq_idempotency_key)
           (from_option rq_persist false (mf_request f)) (mf_userItem f) key (mf_startedAt f) demo)
    (mf_scope f) SRunning
    (mkLive (mf_transport f) (mf_turnId f) (mf_request f ≫= rq_model) (mf_streamMode f) false 0 [] None ""
       false Open false (mf_startedAt f) None)
    None None (mf_turnId f) (mf_conversationId f) (mf_transport f) false false 0 false false false false "" false None
    false false false d.

Lemma makeRun_eq f d w :
  ∃ key w', makeRun f d w = (S (w_nextRun w), w') ∧
    w_heap w' = <[S (w_nextRun w) := new_run f key (S (w_nextRun w)) (currentChatDemoIdentity (w_demo w)) d]> (w_heap w) ∧
    w_runs w' = w_runs w ∧ w_nextRun w' = S (w_nextRun w) ∧ w_pollTimer w' = w_pollTimer w ∧ w_polling w' = w_polling w ∧
    w_effects w' = w_effects w.
Proof. unfold makeRun, nextItemKey. by eexists _, _. Qed.

Lemma new_core f key id demo body blocking d :
  d = new_drive (mf_kind f) body blocking →
  (body = None ↔ mf_request f = None) → (body = None → mf_turnId f ≠ None) →
  (∀ b q, body = Some b → mf_request f = Some q → rq_persist b = rq_persist q) →
  run_core id (new_run f key id demo d) ∧ run_pc (new_run f key id demo d).
Proof.
  intros -> Hb Ht Hper. split.
  - constructor; unfold new_run, new_drive, r_id, r_kind, r_request; cbn; try done.
    + intros Hm. apply Ht. destruct body; [by destruct blocking|done].
    + constructor.
    + destruct body as [b|] eqn:Eb; [|done]. rewrite !andb_true_iff, bool_decide_eq_true. intros [[Hp _] Hk].
      destruct (mf_request f) as [q|] eqn:Eq; [|by pose proof (proj2 Hb eq_refl)].
      split_and!; [done| |done]. cbn. by rewrite <-(Hper b q).
    + by destruct body.
  - by constructor.
Qed.

Lemma inv_makeRun f d body blocking w :
  world_inv None w → d = new_drive (mf_kind f) body blocking →
  (body = None ↔ mf_request f = None) → (body = None → mf_turnId f ≠ None) →
  (∀ b q, body = Some b → mf_request f = Some q → rq_persist b = rq_persist q) →
  ∃ r, (makeRun f d w).1 = S (w_nextRun w) ∧ world_inv None (makeRun f d w).2 ∧
    w_heap (makeRun f d w).2 !! S (w_nextRun w) = Some r ∧ r_parked r = false ∧ d_pc (r_drive r) = PcTop ∧ r_read r = None.
Proof.
  intros Hw Hd Hb Ht Hper. destruct (makeRun_eq f d w) as (key & w' & -> & Hh & Hr & Hn & Hpt & Hpo & _). cbn [fst snd].
  set (id := S (w_nextRun w)) in *. eexists. split; [done|]. split; [|by rewrite Hh, lookup_insert_eq, Hd].
  pose proof (new_core f key id (currentChatDemoIdentity (w_demo w)) body blocking d Hd Hb Ht Hper) as [Hc Hp].
  assert (Hnew : ∀ j r, w_heap w !! j = Some r → j ≠ id).
  { intros j r Hj ->. apply (wi_fresh _ _ Hw) in Hj. unfold id in Hj. lia. }
  destruct Hw as [Ha Hbb Hcc Hdd He]. split; rewrite ?Hh, ?Hr, ?Hn, ?Hpt, ?Hpo; try done.
  - intros j r. destruct (decide (j = id)) as [->|Hne].
    + rewrite lookup_insert_eq. intros [= <-]. split; [done|by apply phase_pc].
    + rewrite lookup_insert_ne by done. apply Ha.
  - intros j r. destruct (decide (j = id)) as [->|Hne]; [done|].
    rewrite lookup_insert_ne by done. intros Hj. apply Hbb in Hj. unfold id. lia.
  - intros s j Hin. destruct (Hdd s j Hin) as (r & Hr' & Hs). exists r.
    rewrite lookup_insert_ne; [done|]. symmetry. by eapply Hnew.
  - intros s j r Hin. destruct (Hdd s j Hin) as (r' & Hr' & Hs).
    rewrite lookup_insert_ne by (symmetry; by eapply Hnew). intros Hr2. by eapply He.
Qed.

(** Registering keeps every run but marks some consumed. *)
Lemma register_lookup id j w r :
  w_heap w !! j = Some r → ∃ r', w_heap (register id w) !! j = Some r' ∧ r_parked r' = r_parked r ∧ r_drive r' = r_drive r ∧
    r_read r' = r_read r ∧ r_state r' = r_state r.
Proof.
  set (P := λ w', ∃ r', w_heap w' !! j = Some r' ∧ r_parked r' = r_parked r ∧ r_drive r' = r_drive r ∧
    r_read r' = r_read r ∧ r_state r' = r_state r).
  assert (Hup : ∀ i w', P w' → P (upd i (set_consumed true) w')).
  { intros i w' (r' & Hr' & H1). destruct (decide (i = j)) as [<-|Hne].
    - exists (set_consumed true r'). split; [by apply lookup_upd_eq|done].
    - exists r'. by rewrite lookup_upd_ne. }
  intros Hr. assert (Hw : P w) by by exists r. change (P (register id w)). unfold register, on_run.
  destruct (w_heap w !! id) as [r0|]; [|done]. cbv zeta.
  match goal with |- P (foldl _ _ ?l) => generalize l end. intros l.
  match goal with |- P (foldl _ ?w1 l) => assert (Hw1 : P w1) end.
  { destruct (jm_get _ _) as [pr|]; [destruct (decide (pr = id))|]; [exact Hw|exact (Hup _ _ Hw)|exact Hw]. }
  revert Hw1. match goal with |- P ?w1 → _ => generalize w1 end. clear Hw.
  induction l as [|a l IH]; intros w1 Hw1; [done|]. apply IH. exact (Hup _ _ Hw1).
Qed.

Lemma inv_startRun o w : world_inv None w → world_inv None (startRun o w).2.
Proof.
  intros Hw. unfold startRun. destruct (nextItemKey "user" w) as [key w1] eqn:Hk.
  assert (H1 : world_inv None w1) by (unfold nextItemKey in Hk; simplify_eq; by apply (inv_same _ w)).
  match goal with |- context [makeRun ?f (new_drive ?k (Some ?b) ?bl) w1] =>
    destruct (inv_makeRun f _ (Some b) bl w1 H1 eq_refl) as (r & Hid & H2 & Hr & Hp & _); [done|done|by intros ?? [= <-] [= <-]|] end.
  destruct (makeRun _ _ w1) as [id w2]. cbn [fst snd] in *. subst id.
  apply inv_drive_top, inv_tab, inv_register; [done|]. intros r' Hr'. simplify_eq. congruence.
Qed.

Lemma inv_follow o tracked w : world_inv None w → world_inv None (follow o tracked w).2.
Proof.
  intros Hw. unfold follow.
  match goal with |- context [makeRun ?f (new_drive ?k None ?bl) w] =>
    destruct (inv_makeRun f _ None bl w Hw eq_refl) as (r & Hid & H2 & Hr & Hp & Hpc & Hread); [done|done|done|] end.
  destruct (makeRun _ _ w) as [id w2]. cbn [fst snd] in *. subst id.
  match goal with |- context [with_tab ?f (register ?i w2)] =>
    assert (H3 : world_inv None (with_tab f (register i w2))) end.
  { apply inv_tab, inv_register; [done|]. intros r' Hr'. simplify_eq. congruence. }
  destruct tracked; [|by apply inv_drive_top].
  destruct (register_lookup (S (w_nextRun w)) _ _ _ Hr) as (r' & Hr' & Hp' & Hd' & Hread' & _).
  apply inv_parkedWait; [|by exists r']. apply inv_open; [done|]. intros r2 Hr2 _.
  assert (r2 = r') as -> by (cbn in Hr2; congruence). split; congruence.
Qed.

Lemma inv_reattachRun o w : world_inv None w → world_inv None (reattachRun o w).2.
Proof.
  intros Hw. unfold reattachRun. destruct (run_at _ w); [done|]. destruct (isSafeChatId _); [|done].
  pose proof (inv_follow o false w Hw). by destruct (follow o false w).
Qed.

Lemma inv_trackRun o w : world_inv None w → world_inv None (trackRun o w).2.
Proof.
  intros Hw. pose proof (inv_follow o true w Hw) as Hfo. unfold trackRun.
  destruct (follow o true w) as [id w'] eqn:Hfol. cbn [snd] in Hfo.
  destruct (run_at _ w) as [r|]; [destruct (running r); [exact Hw|]|];
    (destruct (isSafeChatId _); [exact Hfo|exact Hw]).
Qed.

(** ** The poll *)
Lemma inv_pollParkedRuns w : world_inv None w → world_inv None (pollParkedRuns w).
Proof.
  intros Hw. unfold pollParkedRuns. destruct (w_polling w) eqn:Hpo; [done|]. cbv zeta.
  change (parkedRuns (ww_pollTimer false w)) with (parkedRuns w).
  destruct Hw as [Ha Hb Hc Hd He]. case_bool_decide as Hnil.
  - split; try done. intros s id r Hin Hr Hp Hs. exfalso.
    assert (Hel : r ∈ parkedRuns w) by (apply parkedRuns_spec; eauto 10). rewrite Hnil in Hel. by apply elem_of_nil in Hel.
  - split; try done. intros s id r Hin Hr Hp Hs. by right.
Qed.

Lemma pollTimer_off w : pollParkedRuns (ww_pollTimer false w) = if w_polling w then ww_pollTimer false w else pollParkedRuns w.
Proof. unfold pollParkedRuns. by destruct (w_polling w) eqn:E; cbn; rewrite E. Qed.

Lemma inv_pollTimerFires w : world_inv None w → world_inv None (pollTimerFires w).
Proof.
  intros Hw. unfold pollTimerFires. destruct (w_pollTimer w) eqn:Ht; [|done]. rewrite pollTimer_off.
  destruct (w_polling w) eqn:Hpo; [|by apply inv_pollParkedRuns].
  destruct Hw as [Ha Hb Hc Hd He]. split; try done. intros s id r Hin Hr Hp Hs. by right.
Qed.

(** The invariant but for the poll's own flag, which [pollEnds] has just cleared. *)
Definition polled (w : World) : World := ww_polling true w.

Lemma inv_polled_unpark id w : world_inv None (polled w) → world_inv None (polled (unpark id w)).
Proof.
  intros Hw. apply (inv_same _ (unpark id (polled w))); [|by apply inv_unpark].
  unfold unpark, on_run. change (w_heap (polled w)) with (w_heap w).
  destruct (w_heap w !! id) as [r|]; [|done]. destruct (r_parked r); [|done]. by destruct (running r).
Qed.

Lemma inv_pollEnds response w : world_inv None w → world_inv None (pollEnds response w).
Proof.
  intros Hw. unfold pollEnds. destruct (w_polling w) eqn:Hpo; [|done]. cbn [negb]. cbv zeta.
  set (w1 := match response with Some _ => _ | None => _ end).
  assert (H1 : world_inv None (polled w1) ∧ w_polling w1 = false).
  { assert (Hw0 : world_inv None (polled (ww_polling false w)) ∧ w_polling (ww_polling false w) = false)
      by (split; [apply (inv_same _ w); [|done]; by split_and!|done]).
    unfold w1. destruct response as [v|]; [|done].
    match goal with |- context [foldl (poll_one ?l) _ ?rs] => generalize l, rs end.
    revert Hw0. generalize (ww_polling false w). clear -H. intros w0 Hw0 l rs. revert w0 Hw0.
    induction rs as [|r rs IH]; intros w0 [Hw0 Hp0]; [done|]. apply IH. unfold poll_one.
    destruct (if truthy _ then _ else _) as [t|]; [split; [by apply (inv_same _ (polled w0))|done]|]. split; [by apply inv_polled_unpark|].
    unfold unpark, on_run. destruct (w_heap w0 !! _) as [r0|]; [|done]. destruct (r_parked r0); [|done].
    by destruct (running r0). }
  clearbody w1. destruct H1 as [[Ha Hb Hc Hd He] Hp1]. unfold scheduleParkPoll. rewrite Hp1, orb_false_r.
  destruct (w_pollTimer w1) eqn:Ht; cbn [orb].
  - split; try done. intros s id r Hin Hr Hpk Hs. by left.
  - case_bool_decide as Hnil.
    + split; try done. intros s id r Hin Hr Hp Hs. exfalso.
      assert (Hel : r ∈ parkedRuns w1) by (apply parkedRuns_spec; eauto 10). rewrite Hnil in Hel. by apply elem_of_nil in Hel.
    + split; try done. intros s id r Hin Hr Hpk Hs. by left.
Qed.

Lemma inv_sleepEnds id w : world_inv None w → world_inv None (sleepEnds id w).
Proof.
  intros Hw. unfold sleepEnds. apply inv_on_run; [done|]. intros r Hr _ _. destruct (decide _) as [Hpc|]; [|done].
  apply inv_upd; [done|]. intros r' Hr' [Hc Hp]. assert (r' = r) as -> by congruence. apply phase_pc in Hp; [|done].
  split_and!; [split; [destruct Hc; by constructor|]|done|by auto]. apply phase_pc; [done|].
  destruct Hp as [P1 P2 P3 P4]. rewrite Hpc in *. constructor; simpl; try done.
  - split; [done|]. intros Hne. by apply P1 in Hne.
  - intros Hpk Hs. by destruct (P2 Hpk Hs) as [?|[_ ?]].
Qed.

Lemma inv_run_rop o w : world_inv None w → rop_ok o w → world_inv None (run_rop o w).
Proof.
  intros Hw Hok. destruct o; cbn [run_rop].
  - by apply inv_startRun.
  - by apply inv_reattachRun.
  - by apply inv_trackRun.
  - by apply inv_attachRun.
  - by apply inv_detachRun.
  - by apply inv_consumeRun.
  - by apply inv_stopRun.
  - by apply inv_wakeParkedRun.
  - by apply inv_parkTimerFires.
  - by apply inv_pollParkedRuns.
  - by apply inv_pollTimerFires.
  - by apply inv_pollEnds.
  - by apply inv_flushText.
  - by apply inv_drive_top.
  - destruct Hok as (r & Hr & Hpc & _). apply inv_drive_event; [done|]. intros r' Hr'. congruence.
  - by apply inv_drive_result.
  - by apply inv_sleepEnds.
  - unfold readCaseSession. destruct (jm_get _ _); [by apply inv_sessions|done].
  - by apply inv_writeCaseSession.
  - by apply inv_noteCaseSessions.
  - by apply (inv_same _ w).
  - cbv zeta. destruct (clears o); [apply inv_abortAllRuns|]; by apply inv_tab.
  - by apply (inv_same _ w).
Qed.

Lemma inv_run_rops ops w : world_inv None w → rops_ok ops w → world_inv None (run_rops ops w).
Proof.
  revert w. induction ops as [|o ops IH]; intros w Hw Hok; [done|]. destruct Hok as [Ho Hok].
  apply IH; [by apply inv_run_rop|done].
Qed.

Lemma inv_initial tab : world_inv None (initial_world tab).
Proof.
  split; cbn; try done.
  - by apply NoDup_nil_2.
  - intros s id Hin. by apply elem_of_nil in Hin.
Qed.
End drive.
