(* ===== verification/RunnerSends.v ===== *)
(** * The turn runner: how often a question is sent

    A run's POST goes out once. It goes out again only after the server refused it before anything
    started, or for the one re-send that recovery allows. *)

From S2P Require Import Prelude JsValue JsMap Activity ActivityNotices Turn Runner RunnerDrive RunnerInv RunnerFrozen RunnerSafe.
From Stdlib Require Import QArith Qcanon.
Local Close Scope Qc_scope.
Local Close Scope Q_scope.
Local Open Scope Z_scope.

Definition is_post (id : nat) (e : Effect) : bool :=
  match e with EPost i _ | EPostBlocking i _ => (i =? id)%nat | _ => false end.

(** The POSTs (streamed or blocking) a run sent. *)
Definition posts (id : nat) (w : World) : nat := length (List.filter (is_post id) (w_effects w)).

(** A refusal before anything started: at capacity, already running under this key, or a backend
    without the stream route. *)
Definition refused (o : ReadOutcome) : bool :=
  match o with
  | OutThrow e =>
      match e with
      | ApiError status _ _ =>
          ((status =? 429) && bool_decide (apiErrorCode e = Some "chat_busy")) ||
          ((status =? 409) && bool_decide (apiErrorCode e = Some "chat_request_in_progress")) ||
          isStreamUnsupportedError e
      | _ => false
      end
  | _ => false
  end.

Definition refusal (id : nat) (o : rop) : bool :=
  match o with RoResult i out => (i =? id)%nat && refused out | _ => false end.

(** The loop is on its way to a POST. *)
Definition waiting (pc : Pc) : bool := match pc with PcReading | PcEnded => false | _ => true end.
Definition pending (r : Run) : bool := waiting (d_pc (r_drive r)) && negb (bool_decide (d_mode (r_drive r) = MEvents)).

Definition same_body (r r' : Run) : Prop :=
  d_body (r_drive r') = d_body (r_drive r) ∧ (d_resent (r_drive r) = true → d_resent (r_drive r') = true).

Definition drive_le (r r' : Run) : Prop := same_body r r' ∧ (pending r' = true → pending r = true).

(** A step that sends nothing and brings no run but [loud] closer to a POST. *)
Record quiet (loud : option nat) (w w' : World) : Prop := {
  qu_posts : ∀ id, posts id w' = posts id w;
  qu_runs : ∀ id r', w_heap w' !! id = Some r' →
    ∃ r, w_heap w !! id = Some r ∧ same_body r r' ∧ (loud ≠ Some id → pending r' = true → pending r = true);
  qu_dom : ∀ id, w_heap w' !! id = None → w_heap w !! id = None;
}.

Lemma quiet_refl l w : quiet l w w.
Proof. split; [done| |done]. intros id r' Hr'. exists r'. done. Qed.

Lemma quiet_trans l w1 w2 w3 : quiet l w1 w2 → quiet l w2 w3 → quiet l w1 w3.
Proof.
  intros [P1 R1 D1] [P2 R2 D2]. split; [intros id; by rewrite P2| |by auto].
  intros id r3 Hr3. destruct (R2 id r3 Hr3) as (r2 & Hr2 & [B2 S2] & Q2). destruct (R1 id r2 Hr2) as (r1 & Hr1 & [B1 S1] & Q1).
  exists r1. split_and!; [done|split; [congruence|auto]|auto].
Qed.

Lemma quiet_same l w0 w w' : w_heap w' = w_heap w → w_effects w' = w_effects w → quiet l w0 w → quiet l w0 w'.
Proof.
  intros Hh He Hq. eapply quiet_trans; [exact Hq|]. split.
  - intros id. unfold posts. by rewrite He.
  - intros id r'. rewrite Hh. intros Hr'. by exists r'.
  - intros id. by rewrite Hh.
Qed.

Lemma quiet_effect l e w0 w : (∀ id, is_post id e = false) → quiet l w0 w → quiet l w0 (effect e w).
Proof.
  intros He Hq. eapply quiet_trans; [exact Hq|]. split; [|intros id r' Hr'; by exists r'|done].
  intros id. unfold posts, effect; cbn. rewrite List.filter_app. simpl. rewrite He. by rewrite app_nil_r.
Qed.

Lemma quiet_upd l id f w0 w :
  quiet l w0 w → (∀ r, w_heap w !! id = Some r → same_body r (f r) ∧ (l ≠ Some id → pending (f r) = true → pending r = true)) →
  quiet l w0 (upd id f w).
Proof.
  intros Hq Hf. eapply quiet_trans; [exact Hq|]. split; [done| |].
  - intros id' r' [(-> & r & Hr & ->)|[Hne Hr]]%lookup_upd; [destruct (Hf r Hr); by exists r|by exists r'].
  - intros id'. unfold upd; cbn. destruct (decide (id = id')) as [<-|Hne].
    + rewrite lookup_alter_eq. by destruct (w_heap w !! id).
    + by rewrite lookup_alter_ne.
Qed.

Lemma quiet_on_run l id f w0 w :
  quiet l w0 w → (∀ r, w_heap w !! id = Some r → quiet l w0 (f r w)) → quiet l w0 (on_run id f w).
Proof. intros Hq Hf. unfold on_run. destruct (w_heap w !! id); [by apply Hf|done]. Qed.

Lemma quiet_foldl {A} l (f : World → A → World) (xs : list A) w0 w :
  (∀ w a, quiet l w0 w → quiet l w0 (f w a)) → quiet l w0 w → quiet l w0 (foldl f w xs).
Proof. intros Hf. revert w. induction xs as [|a xs IH]; intros w Hw; simpl; auto. Qed.

Ltac q_step :=
  match goal with
  | H : quiet ?l ?a ?b |- quiet ?l ?a ?b => exact H
  | |- quiet _ ?a ?a => apply quiet_refl
  | |- quiet _ _ (on_run _ _ _) => apply quiet_on_run; [|intros ? ?]
  | |- quiet _ _ (upd _ _ _) => apply quiet_upd; [|intros ? ?; split; [split; [reflexivity|intros Hx; exact Hx]|intros _ Hx; exact Hx]]
  | |- quiet _ _ (effect _ _) => apply quiet_effect; [done|]
  | |- quiet _ _ (with_tab _ ?w) => apply (quiet_same _ _ w); [reflexivity|reflexivity|]
  | |- quiet _ _ (ww_runs _ ?w) => apply (quiet_same _ _ w); [reflexivity|reflexivity|]
  | |- quiet _ _ (ww_sessions _ ?w) => apply (quiet_same _ _ w); [reflexivity|reflexivity|]
  | |- quiet _ _ (ww_sessionsDemo _ ?w) => apply (quiet_same _ _ w); [reflexivity|reflexivity|]
  | |- quiet _ _ (ww_pollTimer _ ?w) => apply (quiet_same _ _ w); [reflexivity|reflexivity|]
  | |- quiet _ _ (ww_polling _ ?w) => apply (quiet_same _ _ w); [reflexivity|reflexivity|]
  | |- quiet _ _ (ww_views _ ?w) => apply (quiet_same _ _ w); [reflexivity|reflexivity|]
  | |- quiet _ _ (ww_nextView _ ?w) => apply (quiet_same _ _ w); [reflexivity|reflexivity|]
  | |- quiet _ _ (setLive _ _ _) => unfold setLive
  | |- quiet _ _ (cancelChatTurn _ _) => unfold cancelChatTurn
  | |- quiet _ _ (if ?b then _ else _) => destruct b eqn:?
  | |- quiet _ _ (match ?o with _ => _ end) => destruct o eqn:?
  end.
Ltac q_steps := repeat (cbv zeta; q_step).

Section quiet.
Context (l : option nat).
Implicit Types w : World.

Lemma q_consumeRun id w0 w : quiet l w0 w → quiet l w0 (consumeRun id w).
Proof. intros Hq. unfold consumeRun. q_steps. Qed.

Lemma q_register id w0 w : quiet l w0 w → quiet l w0 (register id w).
Proof.
  intros Hq. unfold register. apply quiet_on_run; [done|]. intros r Hr. cbv zeta.
  apply quiet_foldl; [intros w' r' H'; unfold drop_stale; q_steps|q_steps].
Qed.

Lemma q_scheduleParkCheck id w0 w : quiet l w0 w → quiet l w0 (scheduleParkCheck id w).
Proof. intros Hq. unfold scheduleParkCheck. q_steps. Qed.

Lemma q_requestPark id w0 w : quiet l w0 w → quiet l w0 (requestPark id w).
Proof. intros Hq. unfold requestPark. q_steps. Qed.

Lemma q_parkTimerFires id w0 w : quiet l w0 w → quiet l w0 (parkTimerFires id w).
Proof. intros Hq. unfold parkTimerFires. q_steps. apply q_requestPark. q_steps. Qed.

Lemma q_scheduleParkPoll w0 w : quiet l w0 w → quiet l w0 (scheduleParkPoll w).
Proof. intros Hq. unfold scheduleParkPoll. q_steps. Qed.

Lemma wake_quiet r : same_body r (wake r) ∧ (pending (wake r) = true → pending r = true).
Proof. unfold wake. case_decide as E; [|done]. split; [done|]. unfold pending. by rewrite E. Qed.

Lemma q_unpark id w0 w : quiet l w0 w → quiet l w0 (unpark id w).
Proof.
  intros Hq. unfold unpark. q_steps; (apply quiet_upd; [q_steps|]); intros r' _; destruct (wake_quiet r'); split; auto.
Qed.

Lemma q_wakeParkedRun t w0 w : quiet l w0 w → quiet l w0 (wakeParkedRun t w).
Proof. intros Hq. apply quiet_foldl; [|done]. intros w' r H'. case_decide; [by apply q_unpark|done]. Qed.

Lemma q_attachRun id w0 w : quiet l w0 w → quiet l w0 (attachRun id w).
Proof. intros Hq. unfold attachRun. q_steps. apply q_unpark. q_steps. Qed.

Lemma q_detachRun token w0 w : quiet l w0 w → quiet l w0 (detachRun token w).
Proof. intros Hq. unfold detachRun. q_steps. apply q_scheduleParkCheck. q_steps. Qed.

Lemma abort_quiet r : same_body r (abort_run r) ∧ (pending (abort_run r) = true → pending r = true).
Proof. unfold abort_run, pending, same_body. simpl. destruct (d_pc (r_drive r)) eqn:E; simpl; rewrite ?E; done. Qed.

Lemma abort_one_quiet r : same_body r (abort_one r) ∧ (pending (abort_one r) = true → pending r = true).
Proof.
  unfold abort_one. set (r1 := clearParkTimer (cancelFrame (set_consumed true r))).
  destruct (abort_quiet r1) as [H1 H2]. by destruct (running (abort_run r1)).
Qed.

Lemma q_stopRun id force w0 w : quiet l w0 w → quiet l w0 (stopRun id force w).
Proof.
  intros Hq. unfold stopRun. q_steps. apply quiet_upd; [done|]. intros r' _.
  destruct (abort_quiet (set_forcedStop true r')). split; auto.
Qed.

Lemma q_abortAllRuns w0 w : quiet l w0 w → quiet l w0 (abortAllRuns w).
Proof.
  intros Hq. unfold abortAllRuns. q_steps. apply quiet_foldl; [|q_steps].
  intros w' p H'. apply quiet_upd; [done|]. intros r _. destruct (abort_one_quiet r). split; auto.
Qed.

Lemma q_noteCaseSessions i w0 w : quiet l w0 w → quiet l w0 (noteCaseSessionsDemoIdentity i w).
Proof. intros Hq. unfold noteCaseSessionsDemoIdentity. q_steps. Qed.

Lemma q_writeCaseSession c s w0 w : quiet l w0 w → quiet l w0 (writeCaseSession c s w).
Proof. intros Hq. unfold writeCaseSession. q_steps. Qed.

Lemma q_rekeyRun id c w0 w : quiet l w0 w → quiet l w0 (rekeyRun id c w).
Proof. intros Hq. unfold rekeyRun. q_steps. Qed.

Lemma q_finish_settle id st w0 w : quiet l w0 w → quiet l w0 (finish_settle id st w).
Proof.
  intros Hq. unfold finish_settle. apply quiet_on_run; [done|]. intros r Hr. cbv zeta.
  apply quiet_on_run; [q_steps; by apply q_rekeyRun|]. intros r' Hr'.
  match goal with |- quiet _ _ (if _ then _ else with_tab ?f ?w1) =>
    assert (H2 : quiet l w0 (with_tab f w1)) end.
  { q_step. destruct (_ && starts_with _ _); [by apply q_rekeyRun|done]. }
  destruct (_ && (_ =? _)%nat); [by apply q_consumeRun|done].
Qed.

Lemma q_after_settle id st r0 w0 w : quiet l w0 w → quiet l w0 (after_settle id st r0 w).
Proof.
  intros Hq. unfold after_settle. cbv zeta.
  assert (H1 : quiet l w0 (if bool_decide (st = SLost) || starts_with "turn:" (r_scope r0)
           then with_tab (dropChatActivity (r_scope r0) true) w else finish_settle id st w)).
  { destruct (_ || _); [q_steps|by apply q_finish_settle]. }
  assert (H2 : quiet l w0 (if decide (r_kind r0 = Workspace) then effect EHistory
     (if bool_decide (st = SLost) || starts_with "turn:" (r_scope r0)
           then with_tab (dropChatActivity (r_scope r0) true) w else finish_settle id st w) else
     (if bool_decide (st = SLost) || starts_with "turn:" (r_scope r0)
           then with_tab (dropChatActivity (r_scope r0) true) w else finish_settle id st w))).
  { destruct (decide _); [by apply quiet_effect|done]. }
  apply quiet_on_run; [done|]. intros r Hr.
  destruct (_ && (_ =? _)%nat); [|done]. apply q_consumeRun.
  destruct (isCaseRunOfAnotherDemo _ _); [done|]. by apply q_writeCaseSession, q_noteCaseSessions.
Qed.

Lemma q_finish id st fields w0 w :
  (∀ r, r_drive (fields r) = r_drive r) → quiet l w0 w → quiet l w0 (finish id st fields w).
Proof.
  intros Hd Hq. rewrite finish_eq. apply quiet_on_run; [done|]. intros r Hr.
  destruct (negb (running r)); [done|]. apply q_after_settle, quiet_upd; [done|]. intros r' Hr'.
  unfold same_body, pending. cbn [r_drive set_state]. by rewrite Hd.
Qed.

Lemma q_flushText id w0 w : quiet l w0 w → quiet l w0 (flushText id w).
Proof. intros Hq. unfold flushText. q_steps. Qed.

Lemma q_onTurnStart id e w0 w : quiet l w0 w → quiet l w0 (onTurnStart id e w).
Proof.
  intros Hq. unfold onTurnStart. apply quiet_on_run; [done|]. intros r Hr. cbv zeta.
  apply quiet_on_run; [q_steps|]. intros r' Hr'.
  match goal with |- context [with_tab ?f ?w5] => assert (H5 : quiet l w0 w5) by q_steps; revert H5; generalize w5 end.
  intros w5 H5. destruct (_ =? _)%nat; [apply q_scheduleParkCheck|]; (destruct (_ && starts_with _ _); [apply q_rekeyRun|]); q_steps.
Qed.

Lemma q_noteStep id lb w0 w : quiet l w0 w → quiet l w0 (noteStep id lb w).
Proof. intros Hq. unfold noteStep. q_steps. Qed.

Lemma q_handleEvent id e w0 w : quiet l w0 w → quiet l w0 (handleEvent id e w).
Proof.
  intros Hq. unfold handleEvent. apply quiet_on_run; [done|]. intros r Hr. destruct (negb _); [done|].
  destruct e; try (by q_steps).
  - by apply q_onTurnStart.
  - destruct (has_step _ _); [done|]. apply q_noteStep. q_steps.
  - apply q_noteStep. q_steps.
Qed.

Lemma q_drive_event `{Display} id e seq w0 w : quiet l w0 w → quiet l w0 (drive_event id e seq w).
Proof.
  intros Hq. unfold drive_event. apply quiet_on_run; [done|]. intros r Hr. cbv zeta. apply q_handleEvent.
  assert (H1 : quiet l w0 (upd id (on_drive (note_event e seq)) w)).
  { apply quiet_upd; [done|]. intros r' _. unfold same_body, pending, on_drive. cbn [r_drive set_drive].
    unfold note_event. destruct (is_ping e), (bool_decide _), seq; done. }
  destruct (reconnects e r); [|done]. q_steps.
Qed.
End quiet.

(** ** The loop's own steps *)
Section drive_quiet.
Context `{Display} `{ParseNumber}.
Implicit Types w : World.

Definition events_at (id : nat) w : Prop := ∀ r, w_heap w !! id = Some r → d_mode (r_drive r) = MEvents.

Lemma pending_events r : d_mode (r_drive r) = MEvents → pending r = false.
Proof. intros E. unfold pending. rewrite bool_decide_eq_true_2 by done. by rewrite andb_false_r. Qed.

Lemma q_set_pc l id pc w0 w : l = Some id ∨ waiting pc = false ∨ events_at id w → quiet l w0 w → quiet l w0 (upd id (set_pc pc) w).
Proof.
  intros Hl Hq. apply quiet_upd; [done|]. intros r Hr. split; [done|]. intros Hne Hp.
  destruct Hl as [->|[Hpc|He]]; [done| |].
  - unfold pending, set_pc in Hp. cbn in Hp. by rewrite Hpc in Hp.
  - rewrite pending_events in Hp; [done|]. exact (He r Hr).
Qed.

Lemma q_parkedWait l id w0 w : l = Some id ∨ events_at id w → quiet l w0 w → quiet l w0 (parkedWait id w).
Proof.
  intros Hl Hq. unfold parkedWait. cbv zeta.
  assert (H1 : quiet l w0 (upd id (set_parkRequested false) w)) by q_steps.
  apply quiet_on_run; [done|]. intros r Hr.
  assert (Hl' : l = Some id ∨ events_at id (upd id (set_parkRequested false) w)).
  { destruct Hl as [->|He]; [by left|right]. intros r' [(_ & r0 & Hr0 & ->)|[]]%lookup_upd; [exact (He r0 Hr0)|done]. }
  destruct (_ || _ || _); [apply q_set_pc; [tauto|done]|].
  apply q_set_pc; [|apply q_scheduleParkPoll; q_steps].
  destruct Hl' as [->|He]; [by left|right; right]. intros r' Hr'.
  rewrite (proj1 (scheduleParkPoll_fields _)) in Hr'. apply lookup_upd in Hr' as [(_ & r0 & Hr0 & ->)|[]]; [exact (He r0 Hr0)|done].
Qed.

Lemma q_drive_ends l id w0 w : quiet l w0 w → quiet l w0 (drive_ends id w).
Proof. intros Hq. apply q_set_pc; auto. Qed.

Lemma q_end_aborted l id w0 w : quiet l w0 w → quiet l w0 (end_aborted id w).
Proof.
  intros Hq. unfold end_aborted. apply quiet_on_run; [done|]. intros r _. apply q_drive_ends.
  destruct (r_forcedStop r); [by apply q_finish|done].
Qed.

Lemma q_end_failed l id f w0 w : quiet l w0 w → quiet l w0 (end_failed id f w).
Proof. intros Hq. by apply q_drive_ends, q_finish. Qed.

Lemma q_sleep l id ms w0 w : l = Some id ∨ events_at id w → quiet l w0 w → quiet l w0 (sleep id ms w).
Proof.
  intros Hl Hq. unfold sleep. apply quiet_on_run; [done|]. intros r _.
  destruct (r_aborted r); [|apply quiet_effect; [done|]]; (apply q_set_pc; [tauto|done]).
Qed.

Lemma q_reattach l id w0 w : quiet l w0 w → quiet l w0 (reattach id w).
Proof.
  intros Hq. unfold reattach. apply quiet_on_run; [done|]. intros r Hr. cbv zeta.
  match goal with |- context [upd id ?f w] => set (g := f); set (w1 := upd id g w) end.
  assert (He : events_at id w1) by (intros r' [(_ & r0 & _ & ->)|[]]%lookup_upd; done).
  assert (H1 : quiet l w0 w1).
  { apply quiet_upd; [done|]. intros r0 _. split; [by unfold g, same_body; cbn; case_decide|].
    intros _. by rewrite pending_events. }
  destruct (1 <? _); [by apply q_sleep; auto|by apply q_set_pc; auto].
Qed.

Lemma q_park l id m w0 w : quiet l w0 w → quiet l w0 (park id m w).
Proof.
  intros Hq. unfold park. cbv zeta.
  match goal with |- context [upd id ?f w] => set (g := f) end. apply q_parkedWait.
  - right. intros r [(_ & r0 & _ & ->)|[]]%lookup_upd; done.
  - apply quiet_upd; [done|]. intros r0 _. split; [by unfold g, same_body; cbn; case_decide|].
    intros _. by rewrite pending_events.
Qed.

Lemma q_resend id w0 w : quiet (Some id) w0 w → quiet (Some id) w0 (resend id w).
Proof. intros Hq. unfold resend. apply quiet_upd; [done|]. intros r _. by split. Qed.

Lemma q_no_read l id w0 w : quiet l w0 w → quiet l w0 (upd id no_read w).
Proof. intros Hq. by apply quiet_upd. Qed.
End drive_quiet.

(** ** What the end of a read leads to: no new POST, or a cause for one *)
Section causes.
Context `{Display} `{ParseNumber}.
Implicit Types w : World.

Definition resent_at (b : bool) (id : nat) w : Prop := ∃ r, w_heap w !! id = Some r ∧ d_resent (r_drive r) = b.

(** From [w] to [w']: quiet, or refused, or the run's only re-send. *)
Definition caused (id : nat) (cause : bool) w w' : Prop :=
  quiet None w w' ∨
  (quiet (Some id) w w' ∧ (cause = true ∨ (resent_at false id w ∧ resent_at true id w'))).

Lemma quiet_loud id w w' : quiet None w w' → quiet (Some id) w w'.
Proof.
  intros [P R D]. split; [done| |done]. intros j r' Hr'. destruct (R j r' Hr') as (r & Hr & Hb & Hp). exists r.
  split_and!; [done|done|]. intros _. by apply Hp.
Qed.

Lemma caused_resend id c w0 w :
  quiet None w0 w → (∀ r, w_heap w !! id = Some r → d_resent (r_drive r) = false) → is_Some (w_heap w !! id) →
  caused id c w0 (resend id w).
Proof.
  intros Hq Hres [r Hr]. right. split; [apply q_resend; by apply quiet_loud|]. right. split.
  - destruct (qu_runs _ _ _ Hq id r Hr) as (r0 & Hr0 & [_ Hs] & _). exists r0. split; [done|].
    destruct (d_resent (r_drive r0)) eqn:E; [|done]. specialize (Hres r Hr). by rewrite Hs in Hres.
  - unfold resend. eexists. split; [by apply lookup_upd_eq|done].
Qed.

Lemma c_drive_incomplete id c w0 w : quiet None w0 w → caused id c w0 (drive_incomplete id w).
Proof.
  intros Hq. unfold drive_incomplete, on_run. destruct (w_heap w !! id) as [r|] eqn:Hr; [|by left]. cbv zeta.
  destruct (truthy _ && _ && _); [left; by apply q_reattach|].
  destruct (d_canResend _ && _) eqn:E; [|left; by apply q_end_failed]. apply andb_true_iff in E as [_ E%negb_true_iff].
  apply caused_resend; [done| |by rewrite Hr]. intros r' Hr'. by assert (r' = r) as -> by congruence.
Qed.

Lemma c_drive_gone id c w0 w : quiet None w0 w → caused id c w0 (drive_gone id w).
Proof.
  intros Hq. unfold drive_gone, on_run. destruct (w_heap w !! id) as [r|] eqn:Hr; [|by left]. cbv zeta.
  assert (H1 : quiet None w0 (upd id (on_drive (dr_gone true)) w)) by q_steps.
  destruct (d_canResend _ && _) eqn:E.
  - apply andb_true_iff in E as [_ E%negb_true_iff].
    assert (Hl : w_heap (upd id (on_drive (dr_gone true)) w) !! id = Some (on_drive (dr_gone true) r)) by by apply lookup_upd_eq.
    apply caused_resend; [done| |by rewrite Hl]. intros r' Hr'. rewrite Hl in Hr'. by injection Hr' as <-.
  - left. destruct (d_body _); [by apply q_end_failed|]. apply q_drive_ends. by apply q_finish.
Qed.

Lemma q_busy_wait l id f g ms w0 w :
  l = Some id → (∀ r, same_body r (f r)) → (∀ r, same_body r (g r)) → quiet l w0 w →
  quiet l w0 (upd id g (sleep id ms (upd id f w))).
Proof.
  intros -> Hf Hg Hq. apply quiet_upd; [|intros r _; split; [apply Hg|done]].
  apply q_sleep; [by left|]. apply quiet_upd; [done|]. intros r _. split; [apply Hf|done].
Qed.

Lemma q_drive_busy id e w0 w : quiet (Some id) w0 w → quiet (Some id) w0 (drive_busy id e w).
Proof.
  intros Hq. unfold drive_busy. apply quiet_on_run; [done|]. intros r Hr. cbv zeta.
  assert (H1 : quiet (Some id) w0 (upd id (on_drive (dr_busySince (Some (default (w_now w) (d_busySince (r_drive r)))))) w)) by q_steps.
  destruct (_ <=? _); [by apply q_end_failed|]. apply q_busy_wait; [done|done|done|]. q_steps.
Qed.

Lemma q_drive_in_progress id e r w0 w w' :
  quiet (Some id) w0 w → drive_in_progress id e r w = Some w' → quiet (Some id) w0 w'.
Proof.
  intros Hq. unfold drive_in_progress. destruct (holderTurnId e); [intros [= <-]; apply q_reattach; q_steps|].
  destruct (d_resent _); [|done]. intros [= <-]. by apply q_busy_wait.
Qed.

Lemma c_drive_catch id b e w0 w : quiet None w0 w → caused id (refused (OutThrow e)) w0 (drive_catch id b e w).
Proof.
  intros Hq. pose proof (quiet_loud id _ _ Hq) as Hl.
  unfold drive_catch, on_run. destruct (w_heap w !! id) as [r|] eqn:Hr; [|by left]. cbv zeta.
  destruct (r_aborted r || _); [left; by apply q_end_aborted|].
  destruct (r_parkRequested r && b); [left; by apply q_park|].
  assert (Hf : caused id (refused (OutThrow e)) w0
    (end_failed id (failureFromError e "Unexpected error contacting the assistant.") w)) by (left; by apply q_end_failed).
  destruct (_ && isStreamUnsupportedError e) eqn:E1.
  { right. split; [apply quiet_upd; [done|by split]|left]. apply andb_true_iff in E1 as [_ E1].
    destruct e; try discriminate E1. cbn [refused]. rewrite E1. by rewrite !orb_true_r. }
  destruct e as [status code det| |]; [|exact Hf..].
  destruct (_ && (status =? 429) && _) eqn:E2.
  { right. split; [by apply q_drive_busy|left]. rewrite !andb_true_iff in E2. destruct E2 as [[_ E2] E3]. cbn [refused]. by rewrite E2, E3. }
  destruct (_ && _ && (status =? 409) && _) eqn:E3.
  - rewrite !andb_true_iff in E3. destruct E3 as [[_ E3] E4].
    destruct (drive_in_progress _ _ _ _) as [w'|] eqn:Ep.
    + right. split; [by eapply q_drive_in_progress|left]. cbn [refused]. rewrite E3, E4. by rewrite orb_true_r.
    + destruct (_ && (status =? 404)); [by apply c_drive_gone|].
      destruct (_ && (status =? 0) && _); [left; by apply q_reattach|exact Hf].
  - destruct (_ && (status =? 404)); [by apply c_drive_gone|].
    destruct (_ && (status =? 0) && _); [left; by apply q_reattach|exact Hf].
Qed.

Lemma c_drive_result id o w : caused id (refused o) w (drive_result id o w).
Proof.
  unfold drive_result, on_run. destruct (w_heap w !! id) as [r|] eqn:Hr; [|left; apply quiet_refl].
  destruct (negb (bool_decide _)); [left; apply quiet_refl|]. cbv zeta.
  assert (H1 : quiet None w (upd id no_read w)) by (apply q_no_read, quiet_refl).
  assert (He : quiet None w (drive_ends id (upd id no_read w))) by by apply q_drive_ends.
  destruct o as [response|ev|malformed| |e].
  - left. destruct (negb (running r)); [done|]. by apply q_drive_ends, q_finish.
  - left. destruct (negb (running r)); [done|]. by apply q_end_failed.
  - left. destruct (negb (running r)); [done|]. destruct (r_aborted r); [by apply q_end_aborted|].
    destruct (r_parkRequested r); [by apply q_park|done].
  - destruct (negb (running r)); [by left|by apply c_drive_incomplete].
  - by apply c_drive_catch.
Qed.
End causes.

(** ** The budget of POSTs *)
Section budget.
Context `{Display} `{ParseNumber}.
Implicit Types w : World.
Implicit Types k : nat → nat.

Definition flag (b : bool) : nat := if b then 1 else 0.

(** One POST for a question, one more per refusal, one for the re-send; a followed turn has none. *)
Definition allowance (r : Run) (refusals : nat) : nat :=
  match d_body (r_drive r) with None => 0 | Some _ => S refusals + flag (d_resent (r_drive r)) end.

Record sends k w : Prop := {
  se_runs : ∀ id r, w_heap w !! id = Some r → (posts id w + flag (pending r) ≤ allowance r (k id))%nat;
  se_none : ∀ id, w_heap w !! id = None → posts id w = 0%nat;
}.

Lemma allowance_mono r r' m n :
  same_body r r' → (m ≤ n)%nat → (allowance r m ≤ allowance r' n)%nat.
Proof.
  intros [Hb Hs] Hmn. unfold allowance. rewrite Hb. destruct (d_body (r_drive r)); [|lia].
  destruct (d_resent (r_drive r)); [rewrite Hs by done|]; destruct (d_resent (r_drive r')); simpl; lia.
Qed.

Lemma flag_le (b c : bool) : (b = true → c = true) → (flag b ≤ flag c)%nat.
Proof. destruct b, c; simpl; auto. intros Hbc. by specialize (Hbc eq_refl). Qed.

Lemma sends_quiet k k' w w' : quiet None w w' → (∀ id, (k id ≤ k' id)%nat) → sends k w → sends k' w'.
Proof.
  intros [P R D] Hk [Hr Hn]. split; [|intros id Hid; rewrite P; auto].
  intros id r' Hr'. destruct (R id r' Hr') as (r & Hrr & Hb & Hp). specialize (Hr id r Hrr).
  pose proof (allowance_mono r r' (k id) (k' id) Hb (Hk id)). pose proof (flag_le _ _ (Hp ltac:(done))). rewrite P. lia.
Qed.

(** A step that may bring [id] back to a POST. *)
Lemma sends_loud k k' id w w' :
  quiet (Some id) w w' → (∀ j, (k j ≤ k' j)%nat) →
  (∀ r r', w_heap w !! id = Some r → w_heap w' !! id = Some r' → pending r' = true →
    pending r = true ∨ (d_body (r_drive r) ≠ None ∧
      ((k id < k' id)%nat ∨ (d_resent (r_drive r) = false ∧ d_resent (r_drive r') = true)))) →
  sends k w → sends k' w'.
Proof.
  intros [P R D] Hk Hid [Hr Hn]. split; [|intros j Hj; rewrite P; auto].
  intros j r' Hr'. destruct (R j r' Hr') as (r & Hrr & Hb & Hp). specialize (Hr j r Hrr). rewrite P.
  pose proof (allowance_mono r r' (k j) (k' j) Hb (Hk j)) as Ha.
  destruct (decide (j = id)) as [->|Hne]; [|pose proof (flag_le _ _ (Hp ltac:(congruence))); lia].
  destruct (pending r') eqn:E; [|simpl; lia].
  destruct (Hid r r' Hrr Hr' E) as [E'|(Hbody & Hc)]; [rewrite E' in Hr; simpl in *; lia|].
  destruct Hb as [Hb Hs]. unfold allowance in *. rewrite Hb in *. destruct (d_body (r_drive r)); [|done].
  specialize (Hk id). destruct Hc as [Hc|[E1 E2]]; [|rewrite E1, E2 in *; simpl in *; lia].
  destruct (d_resent (r_drive r)); [rewrite Hs by done; simpl in *; lia|]. destruct (d_resent (r_drive r')); simpl in *; lia.
Qed.

Lemma posts_effect id e w : posts id (effect e w) = (posts id w + flag (is_post id e))%nat.
Proof.
  unfold posts, effect. cbn [w_effects ww_effects]. rewrite List.filter_app, length_app. simpl.
  by destruct (is_post id e).
Qed.

(** A POST goes out. *)
Lemma sends_post k id e r w w1 :
  w_heap w !! id = Some r → pending r = true → quiet None w w1 → (∀ j, is_post j e = (id =? j)%nat) →
  sends k w → sends k (upd id (set_pc PcReading) (effect e w1)).
Proof.
  intros Hr Hp Hq He Hs.
  assert (Hq2 : quiet None w1 (upd id (set_pc PcReading) w1)) by (apply q_set_pc; [by right; left|apply quiet_refl]).
  pose proof (quiet_trans _ _ _ _ Hq Hq2) as [P R D].
  assert (Hposts : ∀ j, posts j (upd id (set_pc PcReading) (effect e w1)) = (posts j w + flag (id =? j)%nat)%nat).
  { intros j. change (posts j (effect e w1) = (posts j w + flag (id =? j)%nat)%nat). rewrite posts_effect, He. f_equal. apply (qu_posts _ _ _ Hq). }
  destruct Hs as [Hs Hn]. split; [|intros j Hj; rewrite Hposts].
  - intros j r' Hr'. rewrite Hposts. destruct (R j r' Hr') as (r0 & Hr0 & Hb & Hp'). specialize (Hs j r0 Hr0).
    pose proof (allowance_mono r0 r' (k j) (k j) Hb ltac:(lia)). destruct (Nat.eqb_spec id j) as [->|Hne].
    + assert (r0 = r) as -> by congruence. rewrite Hp in Hs.
      assert (pending r' = false) as ->; [|simpl in *; lia].
      apply lookup_upd in Hr' as [(_ & r1 & _ & ->)|[]]; done.
    + pose proof (flag_le _ _ (Hp' ltac:(congruence))). simpl. lia.
  - assert (w_heap w !! j = None) as Hj' by (apply D; exact Hj). rewrite (Hn j Hj').
    destruct (Nat.eqb_spec id j) as [->|]; [congruence|done].
Qed.

Lemma sends_drive_top k id w : world_inv None w → sends k w → sends k (drive_top id w).
Proof.
  intros Hw Hs. assert (Hid : ∀ j, (k j ≤ k j)%nat) by (intros; lia).
  unfold drive_top, on_run. destruct (w_heap w !! id) as [r|] eqn:Hr; [|done].
  destruct (d_pc (r_drive r)) eqn:Epc; try exact Hs. rewrite bool_decide_eq_true_2 by done. cbn [negb].
  destruct (r_aborted r); [by apply (sends_quiet k k _ _ (q_end_aborted _ _ _ _ (quiet_refl _ _)))|].
  destruct (negb (running r)); [by apply (sends_quiet k k _ _ (q_drive_ends _ _ _ _ (quiet_refl _ _)))|]. cbv zeta.
  match goal with |- sends k (upd id (set_pc PcReading) (match _ with MPost => _ | MEvents => _ | MBlocking => match _ with Some _ => effect _ (setLive _ _ (upd _ _ ?w)) | None => _ end end)) => set (w1 := w) end.
  assert (H1 : quiet None w w1).
  { unfold w1. destruct (_ =? 0)%nat; [apply q_scheduleParkCheck|]; (apply quiet_upd; [apply quiet_refl|by split]). }
  assert (Hev : ∀ e, (∀ j, is_post j e = false) → sends k (upd id (set_pc PcReading) (effect e w1))).
  { intros e He. apply (sends_quiet k k w); [|done|done]. apply q_set_pc; [by right; left|]. by apply quiet_effect. }
  assert (Hpend : d_mode (r_drive r) ≠ MEvents → pending r = true).
  { intros Hm. unfold pending. by rewrite Epc, bool_decide_eq_false_2. }
  destruct (d_mode (r_drive r)) eqn:Em.
  - destruct (d_body (r_drive r)); [|by apply Hev]. by eapply sends_post; [exact Hr|apply Hpend| | |].
  - by apply Hev.
  - destruct (r_request r); [|by apply Hev]. eapply sends_post; [exact Hr|by apply Hpend| |by intros j|done]. q_steps.
Qed.

Lemma sends_makeRun k f body blocking w :
  world_inv None w → sends k w → sends k (makeRun f (new_drive (mf_kind f) body blocking) w).2.
Proof.
  intros Hw [Hs Hn]. destruct (makeRun_eq f (new_drive (mf_kind f) body blocking) w) as (key & w' & -> & Hh & _ & _ & _ & _ & He).
  cbn [snd]. assert (Hp : ∀ j, posts j w' = posts j w) by (intros j; unfold posts; by rewrite He).
  assert (Hf : w_heap w !! S (w_nextRun w) = None).
  { destruct (w_heap w !! S (w_nextRun w)) eqn:E; [|done]. apply (wi_fresh _ _ Hw) in E. lia. }
  split.
  - intros j r. rewrite Hh, Hp. destruct (decide (S (w_nextRun w) = j)) as [<-|Hne].
    + rewrite lookup_insert_eq. intros [= <-]. rewrite (Hn _ Hf). unfold pending, allowance. simpl.
      destruct body; [destruct blocking; simpl; lia|done].
    + rewrite lookup_insert_ne by done. apply Hs.
  - intros j. rewrite Hh, Hp. rewrite lookup_insert_None. intros [Hj _]. by apply Hn.
Qed.

Lemma sends_startRun k o w : world_inv None w → sends k w → sends k (startRun o w).2.
Proof.
  intros Hw Hs. unfold startRun. destruct (nextItemKey "user" w) as [key w1] eqn:Hk.
  assert (H1 : world_inv None w1) by (unfold nextItemKey in Hk; simplify_eq; by apply (inv_same _ w)).
  assert (Hs1 : sends k w1).
  { unfold nextItemKey in Hk. simplify_eq. apply (sends_quiet k k w); [|done|done]. by apply (quiet_same _ _ w), quiet_refl. }
  match goal with |- context [makeRun ?f (new_drive _ (Some ?b) ?bl) w1] =>
    destruct (inv_makeRun f _ (Some b) bl w1 H1 eq_refl) as (r & Hid & H2 & Hr & Hp & _); [done|done|by intros ?? [= <-] [= <-]|];
    pose proof (sends_makeRun k f (Some b) bl w1 H1 Hs1) as Hm end.
  cbn [mf_kind] in Hm. destruct (makeRun _ _ w1) as [id w2]. cbn [fst snd] in *. subst id.
  apply sends_drive_top.
  - apply inv_tab, inv_register; [done|]. intros r' Hr'. simplify_eq. congruence.
  - apply (sends_quiet k k w2); [|done|done]. q_step. apply q_register, quiet_refl.
Qed.

Lemma sends_follow k o tracked w : world_inv None w → sends k w → sends k (follow o tracked w).2.
Proof.
  intros Hw Hs. unfold follow.
  match goal with |- context [makeRun ?f (new_drive _ None ?bl) w] =>
    destruct (inv_makeRun f _ None bl w Hw eq_refl) as (r & Hid & H2 & Hr & Hp & Hpc & Hread); [done|done|done|];
    pose proof (sends_makeRun k f None bl w Hw Hs) as Hm;
    destruct (makeRun_eq f (new_drive (mf_kind f) None bl) w) as (key & w' & Heq & Hh & _) end.
  cbn [mf_kind] in *. destruct (makeRun _ _ w) as [id w2]. cbn [fst snd] in *. subst id. injection Heq as <-.
  rewrite Hh, lookup_insert_eq in Hr. injection Hr as Hr.
  match goal with |- context [with_tab ?f (register ?i w2)] => set (w3 := with_tab f (register i w2)) end.
  assert (Hq : quiet None w2 w3) by (unfold w3; q_step; apply q_register, quiet_refl).
  assert (H3 : world_inv None w3).
  { apply inv_tab, inv_register; [done|]. intros r' Hr'. rewrite Hh, lookup_insert_eq in Hr'. congruence. }
  assert (Hs3 : sends k w3) by by apply (sends_quiet k k w2).
  destruct tracked; [|by apply sends_drive_top].
  apply (sends_quiet k k w3); [|done|done]. apply q_parkedWait; [right|apply quiet_refl].
  intros r' Hr'. destruct (qu_runs _ _ _ Hq _ _ Hr') as (r0 & Hr0 & [Hb _] & _).
  rewrite Hh, lookup_insert_eq in Hr0. injection Hr0 as <-. cbn in Hb.
  destruct (d_mode (r_drive r')) eqn:Em; [exfalso|done|exfalso];
    (apply (rc_mode _ _ (proj1 (wi_runs _ _ H3 _ _ Hr'))); [by rewrite Em|exact Hb]).
Qed.

Lemma sends_result k id o w :
  world_inv None w → rop_ok (RoResult id o) w → sends k w →
  sends (λ j, (k j + flag (refusal j (RoResult id o)))%nat) (drive_result id o w).
Proof.
  intros Hw Hok Hs. pose proof (inv_drive_result id o w Hw Hok) as Hw'.
  assert (Hk : ∀ j, (k j ≤ k j + flag (refusal j (RoResult id o)))%nat) by (intros; lia).
  destruct (w_heap w !! id) as [r|] eqn:Hr.
  2:{ unfold drive_result, on_run. rewrite Hr. by apply (sends_quiet k _ w); [apply quiet_refl| |]. }
  destruct (decide (d_pc (r_drive r) = PcReading)) as [Epc|Epc].
  2:{ unfold drive_result, on_run. rewrite Hr, bool_decide_eq_false_2 by done. by apply (sends_quiet k _ w); [apply quiet_refl| |]. }
  destruct (c_drive_result id o w) as [Hq|[Hq Hc]]; [by apply (sends_quiet k _ w)|].
  apply (sends_loud k _ id w); [done|done| |done]. intros r0 r' Hr0 Hr' Hp. right.
  destruct (qu_runs _ _ _ Hq id r' Hr') as (r1 & Hr1 & [Hb _] & _). assert (r1 = r0) as -> by congruence. split.
  - rewrite <-Hb. apply (rc_mode _ _ (proj1 (wi_runs _ _ Hw' _ _ Hr'))). intros Em. by rewrite pending_events in Hp.
  - destruct Hc as [Hc|[(r2 & Hr2 & E2) (r3 & Hr3 & E3)]]; [left|right; split; congruence].
    cbn [refusal]. rewrite Nat.eqb_refl, Hc. simpl. lia.
Qed.

Definition refusals (id : nat) (ops : list rop) : nat := length (List.filter (refusal id) ops).

Lemma sends_run_rop k o w :
  world_inv None w → rop_ok o w → sends k w → sends (λ j, (k j + flag (refusal j o))%nat) (run_rop o w).
Proof.
  intros Hw Hok Hs.
  assert (Hk : ∀ j, (k j ≤ k j + flag (refusal j o))%nat) by (intros; lia).
  assert (Hquiet : ∀ w', quiet None w w' → sends (λ j, (k j + flag (refusal j o))%nat) w') by (intros w' Hq; by apply (sends_quiet k _ w)).
  assert (Hsame : ∀ w', sends k w' → sends (λ j, (k j + flag (refusal j o))%nat) w').
  { intros w' H'. apply (sends_quiet k _ w'); [apply quiet_refl|done|done]. }
  assert (Hr : quiet None w w) by apply quiet_refl.
  destruct o; cbn [run_rop]; try (apply Hquiet; by q_steps).
  - by apply Hsame, sends_startRun.
  - apply Hsame. unfold reattachRun. destruct (run_at _ w); [done|]. destruct (isSafeChatId _); [|done].
    pose proof (sends_follow k o false w Hw Hs). by destruct (follow o false w).
  - apply Hsame. pose proof (sends_follow k o true w Hw Hs) as Hf. unfold trackRun.
    destruct (follow o true w) as [id w'] eqn:E. cbn [snd] in Hf.
    destruct (run_at _ w) as [r|]; [destruct (running r); [exact Hs|]|]; (destruct (isSafeChatId _); [exact Hf|exact Hs]).
  - by apply Hquiet, q_attachRun.
  - by apply Hquiet, q_detachRun.
  - by apply Hquiet, q_consumeRun.
  - by apply Hquiet, q_stopRun.
  - by apply Hquiet, q_wakeParkedRun.
  - by apply Hquiet, q_parkTimerFires.
  - apply Hquiet. unfold pollParkedRuns. q_steps.
  - apply Hquiet. unfold pollTimerFires, pollParkedRuns. q_steps.
  - apply Hquiet. unfold pollEnds. destruct (negb (w_polling w)); [done|]. cbv zeta. apply q_scheduleParkPoll.
    destruct response; [|q_steps]. apply quiet_foldl; [|q_steps]. intros w' r H'. unfold poll_one.
    destruct (if truthy _ then _ else _); [q_steps|by apply q_unpark].
  - by apply Hquiet, q_flushText.
  - by apply Hsame, sends_drive_top.
  - by apply Hquiet, q_drive_event.
  - by apply sends_result.
  - apply Hquiet. unfold sleepEnds. apply quiet_on_run; [done|]. intros r Hrr. case_decide as E; [|done].
    apply quiet_upd; [done|]. intros r0 Hr0. split; [done|]. intros _. assert (r0 = r) as -> by congruence.
    unfold pending. by rewrite E.
  - apply Hquiet. unfold readCaseSession. destruct (jm_get _ _); cbn [snd]; q_steps.
  - by apply Hquiet, q_writeCaseSession.
  - by apply Hquiet, q_noteCaseSessions.
  - apply Hquiet. by apply (quiet_same _ _ w).
  - apply Hquiet. cbv zeta. destruct (clears o); [apply q_abortAllRuns|]; q_steps.
  - apply Hquiet. by apply (quiet_same _ _ w).
Qed.

Lemma sends_run_rops ops k w :
  world_inv None w → rops_ok ops w → sends k w → sends (λ j, (k j + refusals j ops)%nat) (run_rops ops w).
Proof.
  revert k w. induction ops as [|o ops IH]; intros k w Hw Hok Hs.
  - apply (sends_quiet k _ w); [apply quiet_refl|intros; lia|done].
  - destruct Hok as [Ho Hok]. pose proof (inv_run_rop o w Hw Ho) as Hw'.
    pose proof (IH _ _ Hw' Hok (sends_run_rop k o w Hw Ho Hs)) as H'.
    apply (sends_quiet (λ j, (k j + flag (refusal j o) + refusals j ops)%nat) _ (run_rops (o :: ops) w)); [apply quiet_refl| |exact H'].
    intros j. unfold refusals. simpl. destruct (refusal j o); simpl; lia.
Qed.

Lemma sends_initial tab : sends (λ _, 0%nat) (initial_world tab).
Proof. by split. Qed.
End budget.
