(* ===== verification/RunnerTheorems.v ===== *)
(** * The turn runner: its theorems

    Over every history of calls, timers and network answers: the state of a run and of the registry
    stays coherent, a settled run never changes, a question is sent once, and a run whose reads keep
    dying settles. *)

From S2P Require Import Prelude JsValue JsMap Activity ActivityNotices Turn Runner RunnerDrive RunnerInv RunnerFrozen RunnerDriveInv RunnerSafe RunnerSends.
From Stdlib Require Import QArith Qcanon.
Local Close Scope Qc_scope.
Local Close Scope Q_scope.
Local Open Scope Z_scope.

Section theorems.
Context `{Dis : Display} `{Num : ParseNumber}.

(** The state after a history that begins with a fresh page. *)
Definition after (tab : Tab) (ops : list rop) : World := run_rops ops (initial_world tab).
Definition honest (tab : Tab) (ops : list rop) : Prop := rops_ok ops (initial_world tab).

Lemma inv_after tab ops : honest tab ops → world_inv None (after tab ops).
Proof. intros Hok. apply inv_run_rops; [apply inv_initial|done]. Qed.

Lemma run_rops_app ops1 ops2 w : run_rops (ops1 ++ ops2) w = run_rops ops2 (run_rops ops1 w).
Proof. unfold run_rops. by rewrite foldl_app. Qed.

Lemma rops_ok_app ops1 ops2 w : rops_ok (ops1 ++ ops2) w ↔ rops_ok ops1 w ∧ rops_ok ops2 (run_rops ops1 w).
Proof. revert w. induction ops1 as [|o ops1 IH]; intros w; simpl; [tauto|]. rewrite IH. tauto. Qed.

Lemma le_run_rops ops w : world_inv None w → rops_ok ops w → world_le w (run_rops ops w).
Proof.
  revert w. induction ops as [|o ops IH]; intros w Hw Hok; [reflexivity|]. destruct Hok as [Ho Hok].
  transitivity (run_rop o w); [by apply le_run_rop|]. apply IH; [by apply inv_run_rop|done].
Qed.

(** C1. In every history the registry and its runs stay coherent: a key names one run, whose scope
    it is; a run's steps stay in strictly increasing order; it is done exactly when it has its
    answer and failed exactly when it has its failure; a read is open only while the run is running
    and its loop waits for it; a parked run has no viewer, no read, a turn id, and is followed by
    the park poll; a loop that returned left its run settled. *)
Theorem runner_coherent tab ops id r :
  honest tab ops → w_heap (after tab ops) !! id = Some r →
  steps_sorted (lv_steps (r_live r)) ∧
  (r_state r = SDone ↔ is_Some (r_response r)) ∧ (r_state r = SError ↔ is_Some (r_failure r)) ∧
  (r_read r = Some false → r_state r = SRunning ∧ d_pc (r_drive r) = PcReading) ∧
  (d_pc (r_drive r) = PcParked → r_parked r = true ∧ r_state r = SRunning ∧ r_attached r = 0%nat ∧ r_read r = None) ∧
  (d_mode (r_drive r) = MEvents → is_Some (r_turnId r)) ∧
  (d_pc (r_drive r) = PcEnded → r_state r ≠ SRunning) ∧
  NoDup (w_runs (after tab ops)).*1 ∧
  (∀ s, (s, id) ∈ w_runs (after tab ops) → r_scope r = s ∧
     (r_parked r = true → r_state r = SRunning → w_pollTimer (after tab ops) = true ∨ w_polling (after tab ops) = true)).
Proof.
  intros Hok Hr. pose proof (inv_after tab ops Hok) as Hw. destruct (wi_runs _ _ Hw _ _ Hr) as [Hc Hp].
  apply phase_pc in Hp; [|done]. split_and!.
  - by apply (rc_steps id r).
  - rewrite (rc_done id r Hc). by rewrite not_eq_None_Some.
  - rewrite (rc_error id r Hc). by rewrite not_eq_None_Some.
  - intros Hread. split; [by apply (rc_open id r)|]. apply (rp_read r Hp). congruence.
  - intros Hpc. destruct (rp_wait r Hp Hpc) as [H1 H2]. split_and!; [done|done|by apply (rc_unviewed id r)|].
    destruct (r_read r) eqn:E; [|done]. assert (d_pc (r_drive r) = PcReading) by (apply (rp_read r Hp); congruence). congruence.
  - intros Hm. apply not_eq_None_Some. by apply (rc_events id r).
  - apply (rp_end r Hp).
  - apply (wi_keys _ _ Hw).
  - intros s Hin. destruct (wi_map _ _ Hw s id Hin) as (r' & Hr' & Hs). assert (r' = r) as -> by congruence.
    split; [done|]. intros Hpk Hst. by apply (wi_poll _ _ Hw s id r).
Qed.

(** C2. A settled run never changes again: whatever is called, whichever timer fires and whatever
    the network still delivers, its state, the item and user message it shows and the exchange it
    adds to the history stay what they were. *)
Theorem settled_run_is_final tab ops1 ops2 id r :
  honest tab (ops1 ++ ops2) → w_heap (after tab ops1) !! id = Some r → r_state r ≠ SRunning →
  ∃ r', w_heap (after tab (ops1 ++ ops2)) !! id = Some r' ∧ r_state r' = r_state r ∧
    runAssistantItem r' = runAssistantItem r ∧ settledUserItem r' = settledUserItem r ∧ runExchange r' = runExchange r.
Proof.
  unfold honest, after. rewrite rops_ok_app, run_rops_app. intros [Hok1 Hok2] Hr Hst.
  assert (Hw : world_inv None (run_rops ops1 (initial_world tab))) by by apply inv_after.
  destruct (le_run_rops ops2 _ Hw Hok2 id r Hr) as (r' & Hr' & Hle). exists r'. split; [done|].
  destruct Hle as [Hi Hle]. destruct (Hle Hst) as (E1 & E2 & E3 & E4 & E5). split; [done|].
  unfold runAssistantItem, settledUserItem, runExchange, r_request. by rewrite Hi, E1, E2, E3, E4, E5.
Qed.

(** C3. A question is sent once. It goes out again only after the server refused it before anything
    started (at capacity, already running under its key, no stream route), and once more as the
    re-send that recovery allows, which only a saved workspace turn gets. A followed turn sends
    nothing. *)
Theorem question_sent_once tab ops id r :
  honest tab ops → w_heap (after tab ops) !! id = Some r →
  (posts id (after tab ops) ≤
     match r_request r with None => 0 | Some _ => S (refusals id ops) + flag (d_resent (r_drive r)) end)%nat ∧
  (d_resent (r_drive r) = true → r_kind r = Workspace ∧ ri_persisted (r_info r) = true).
Proof.
  intros Hok Hr. pose proof (inv_after tab ops Hok) as Hw. destruct (wi_runs _ _ Hw _ _ Hr) as [Hc _].
  pose proof (sends_run_rops ops _ _ (inv_initial tab) Hok (sends_initial tab)) as [Hs _].
  specialize (Hs id r Hr). unfold allowance in Hs. pose proof (rc_body id r Hc) as Hb.
  unfold after in *. split.
  - destruct (r_request r), (d_body (r_drive r)); simpl in Hs; [lia|by destruct Hb as [Hb _]; specialize (Hb eq_refl)|
      by destruct Hb as [_ Hb]; specialize (Hb eq_refl)|lia].
  - intros Hre. destruct (rc_resend id r Hc (rc_resent id r Hc Hre)) as (H1 & H2 & _). done.
Qed.

(** ** Patience: a run whose reads keep dying settles *)

(** The run reads: its loop waits for a read of a run that goes on. *)
Definition reads (id : nat) (w : World) (r : Run) : Prop :=
  w_heap w !! id = Some r ∧ d_pc (r_drive r) = PcReading ∧ r_state r = SRunning ∧ r_aborted r = false.

(** A read ends without a word, the timer of the retry fires, and the loop goes round. *)
Definition silent_drop (id : nat) (w : World) : World := run_rops [RoResult id OutIncomplete; RoSleepEnds id; RoTop id] w.

Lemma silent_drop_eq id w : silent_drop id w = drive_top id (sleepEnds id (drive_result id OutIncomplete w)).
Proof. done. Qed.

(** The reads a run may still lose. *)
Definition rounds (r : Run) : nat :=
  Z.to_nat (MAX_REATTACH_ATTEMPTS - d_drops (r_drive r)) + flag (d_canResend (r_drive r) && negb (d_resent (r_drive r))).

Lemma drive_top_reads id w r :
  w_heap w !! id = Some r → d_pc (r_drive r) = PcTop → r_state r = SRunning → r_aborted r = false →
  ∃ r', reads id (drive_top id w) r' ∧ r_drive r' = dr_pc PcReading (r_drive r).
Proof.
  intros Hr Hpc Hst Hab. unfold drive_top, on_run. rewrite Hr, Hpc, bool_decide_eq_true_2, Hab by done.
  unfold running. rewrite Hst, bool_decide_eq_true_2 by done. cbn [negb]. cbv zeta.
  set (w1 := upd id (λ r0, set_read (Some false) (set_parkRequested false r0)) w).
  match goal with |- context [effect (EGetEvents _ _ _) ?w] => set (w2 := w) end.
  assert (H2 : ∃ r2, w_heap w2 !! id = Some r2 ∧ r_drive r2 = r_drive r ∧ r_state r2 = SRunning ∧ r_aborted r2 = false).
  { assert (Hr1 : w_heap w1 !! id = Some (set_read (Some false) (set_parkRequested false r))) by exact (lookup_upd_eq id _ w r Hr).
    unfold w2. destruct (_ =? 0)%nat; [|by eexists]. destruct (scheduleParkCheck_cases id w1) as [->| ->]; [by eexists|].
    eexists. split; [exact (lookup_upd_eq id _ w1 _ Hr1)|done]. }
  destruct H2 as (r2 & Hr2 & Hd & Hst2 & Hab2). rewrite <-Hd.
  assert (Hend : ∀ w3 r3, w_heap w3 !! id = Some r3 → r_drive r3 = r_drive r2 → r_state r3 = SRunning → r_aborted r3 = false →
    ∃ r', reads id (upd id (set_pc PcReading) w3) r' ∧ r_drive r' = dr_pc PcReading (r_drive r2)).
  { intros w3 r3 H3 E3 E4 E5. eexists. split; [split; [by apply lookup_upd_eq|done]|]. cbn. by rewrite E3. }
  destruct (d_mode (r_drive r2)); [destruct (d_body (r_drive r2)); by apply (Hend _ r2)|by apply (Hend _ r2)|].
  destruct (r_request r); [|by apply (Hend _ r2)].
  eapply Hend; [unfold setLive, effect; cbn [w_heap ww_effects]; by erewrite lookup_upd_eq by by apply lookup_upd_eq|done|done|done].
Qed.

Lemma sleepEnds_top id w r : w_heap w !! id = Some r → d_pc (r_drive r) = PcTop → sleepEnds id w = w.
Proof. intros Hr Hpc. unfold sleepEnds, on_run. rewrite Hr. by rewrite decide_False by congruence. Qed.

Lemma sleepEnds_slept id ms w r :
  w_heap w !! id = Some r → r_aborted r = false →
  w_heap (sleepEnds id (sleep id ms w)) !! id = Some (set_pc PcTop (set_pc PcSleeping r)).
Proof.
  intros Hr Hab. unfold sleep, on_run. rewrite Hr, Hab. unfold sleepEnds, on_run, effect. cbn [w_heap ww_effects].
  rewrite (lookup_upd_eq id _ w r Hr). cbn [d_pc r_drive set_pc set_drive dr_pc]. rewrite decide_True by done.
  rewrite (lookup_upd_eq id _ _ (set_pc PcSleeping r)); [done|]. cbn [w_heap ww_effects]. by apply lookup_upd_eq.
Qed.

Lemma end_failed_settles id f w r :
  w_heap w !! id = Some r → r_state r = SRunning →
  ∃ r', w_heap (end_failed id f w) !! id = Some r' ∧ r_state r' = SError ∧ r_failure r' = Some f ∧ d_pc (r_drive r') = PcEnded.
Proof.
  intros Hr Hst. unfold end_failed, drive_ends. rewrite finish_eq. unfold on_run. rewrite Hr.
  unfold running. rewrite Hst, bool_decide_eq_true_2 by done. cbn [negb].
  set (w1 := upd id _ w).
  assert (Hin : ∃ r1, w_heap w1 !! id = Some r1 ∧ r_state r1 = SError ∧ r_failure r1 = Some f) by (eexists; split; [by apply lookup_upd_eq|done]).
  destruct Hin as (r1 & Hr1 & Hs1 & Hf1).
  destruct (le_after_settle id SError r w1 w1 ltac:(done) id r1 Hr1) as (r2 & Hr2 & _ & Hle).
  destruct Hle as (E1 & _ & E3 & _); [by rewrite Hs1|]. eexists. split; [by apply lookup_upd_eq|]. cbn. split_and!; congruence.
Qed.

Lemma silent_drop_step id w r :
  reads id w r →
  (∃ r', w_heap (silent_drop id w) !! id = Some r' ∧ r_state r' = SError ∧ is_Some (r_failure r') ∧ d_pc (r_drive r') = PcEnded) ∨
  (∃ r', reads id (silent_drop id w) r' ∧ (rounds r' < rounds r)%nat).
Proof.
  intros (Hr & Hpc & Hst & Hab). rewrite silent_drop_eq. unfold drive_result, on_run. rewrite Hr, Hpc, bool_decide_eq_true_2 by done.
  unfold running. rewrite Hst, bool_decide_eq_true_2 by done. cbn [negb]. cbv zeta.
  set (w1 := upd id no_read w). assert (Hr1 : w_heap w1 !! id = Some (no_read r)) by by apply lookup_upd_eq.
  unfold drive_incomplete, on_run. rewrite Hr1. cbv zeta.
  change (r_drive (no_read r)) with (r_drive r). change (r_turnId (no_read r)) with (r_turnId r).
  destruct (truthy _ && _ && _) eqn:E1; [|clear E1; destruct (d_canResend _ && _) eqn:E2].
  - right. rewrite !andb_true_iff in E1. destruct E1 as [_ Hd]. apply Z.ltb_lt in Hd.
    unfold reattach, on_run. rewrite Hr1. cbv zeta. change (r_drive (no_read r)) with (r_drive r).
    match goal with |- context [upd id ?f w1] => set (g := f); set (w2 := upd id g w1) end.
    assert (Hr2 : w_heap w2 !! id = Some (g (no_read r))) by by apply lookup_upd_eq.
    assert (Hdrops : d_drops (r_drive (g (no_read r))) = d_drops (r_drive r) + 1) by done.
    assert (Hrest : d_canResend (r_drive (g (no_read r))) = d_canResend (r_drive r) ∧ d_resent (r_drive (g (no_read r))) = d_resent (r_drive r)).
    { cbn. by destruct (decide _). }
    assert (Hkeep : r_state (g (no_read r)) = SRunning ∧ r_aborted (g (no_read r)) = false) by done.
    clearbody g. destruct Hrest as [Hcan Hres], Hkeep as [Hst2 Hab2].
    assert (Hrounds : ∀ r', r_drive r' = dr_pc PcReading (dr_pc PcTop (r_drive (g (no_read r)))) → (rounds r' < rounds r)%nat).
    { intros r' E. unfold rounds. rewrite E. cbn [dr_pc d_drops d_canResend d_resent]. rewrite Hdrops, Hcan, Hres. lia. }
    destruct (1 <? _).
    + edestruct drive_top_reads as (r' & Hrd & Hd'); [by eapply sleepEnds_slept|done..|]. exists r'. split; [done|]. by apply Hrounds.
    + assert (Hr3 : w_heap (upd id (set_pc PcTop) w2) !! id = Some (set_pc PcTop (g (no_read r)))) by by apply lookup_upd_eq.
      rewrite (sleepEnds_top id _ _ Hr3) by done. destruct (drive_top_reads id _ _ Hr3) as (r' & Hrd & Hd'); [done..|].
      exists r'. split; [done|]. by apply Hrounds.
  - right. unfold resend. match goal with |- context [upd id ?f w1] => set (g := f); set (w2 := upd id g w1) end.
    assert (Hr2 : w_heap w2 !! id = Some (g (no_read r))) by by apply lookup_upd_eq.
    rewrite (sleepEnds_top id _ _ Hr2) by done. destruct (drive_top_reads id _ _ Hr2) as (r' & Hrd & Hd'); [done..|].
    exists r'. split; [done|]. unfold rounds. rewrite Hd', E2. cbn. rewrite andb_false_r. simpl. lia.
  - left. destruct (end_failed_settles id (connectionLost (lost_message (d_resent (r_drive r))) None) w1 _ Hr1 Hst) as (r' & Hr' & Hs' & Hf' & Hp').
    exists r'. assert (Hs : sleepEnds id (end_failed id (connectionLost (lost_message (d_resent (r_drive r))) None) w1) =
                       end_failed id (connectionLost (lost_message (d_resent (r_drive r))) None) w1).
    { unfold sleepEnds, on_run. rewrite Hr'. by rewrite decide_False by congruence. }
    rewrite Hs. split_and!; [|done|by rewrite Hf'|done]. unfold drive_top, on_run. by rewrite Hr', bool_decide_eq_false_2 by congruence.
Qed.

(** C4. Recovery ends: a running run whose reads keep ending without any event settles as failed
    after at most eight of them, whatever its mode, viewers or earlier drops were. *)
Theorem recovery_terminates tab ops id r :
  honest tab ops → reads id (after tab ops) r →
  ∃ n r', (n ≤ 8)%nat ∧ w_heap (Nat.iter n (silent_drop id) (after tab ops)) !! id = Some r' ∧
    r_state r' = SError ∧ is_Some (r_failure r') ∧ d_pc (r_drive r') = PcEnded.
Proof.
  intros Hok Hr. assert (Hb : (rounds r ≤ 7)%nat).
  { destruct (wi_runs _ _ (inv_after tab ops Hok) _ _ (proj1 Hr)) as [Hc _]. pose proof (rc_drops id r Hc).
    unfold rounds, MAX_REATTACH_ATTEMPTS in *. destruct (_ && _); simpl; lia. }
  assert (Hgen : ∀ m w r, (rounds r < m)%nat → reads id w r → ∃ n r', (n ≤ m)%nat ∧
    w_heap (Nat.iter n (silent_drop id) w) !! id = Some r' ∧ r_state r' = SError ∧ is_Some (r_failure r') ∧ d_pc (r_drive r') = PcEnded).
  { clear. intros m. induction m as [|m IH]; intros w r Hm Hrd; [lia|].
    destruct (silent_drop_step id w r Hrd) as [(r' & Hs)|(r' & Hrd' & Hlt)]; [exists 1%nat, r'; split; [lia|exact Hs]|].
    destruct (IH _ r' ltac:(lia) Hrd') as (n & r2 & Hn & Hs). exists (S n), r2. split; [lia|]. by rewrite Nat.iter_succ_r. }
  apply (Hgen 8%nat _ r); [lia|done].
Qed.

(** ** Resuming after a park *)

(** The live text a sequence of events leads to. *)
Definition text_step (t : string) (e : ChatStreamEvent) : string :=
  match e with
  | TurnStart _ | TextReset => ""
  | TextDelta part => t +:+ part
  | _ => t
  end.
Definition text_of (t : string) (es : list ChatStreamEvent) : string := foldl text_step t es.

(** Events of one read, with the sequence numbers of the event ring when it carries them. *)
Definition feed (id : nat) (es : list (ChatStreamEvent * option Z)) (w : World) : World :=
  foldl (λ w p, drive_event id p.1 p.2 w) w es.

Definition from_post (es : list ChatStreamEvent) : list (ChatStreamEvent * option Z) := (λ e, (e, None)) <$> es.

(** What reading an event keeps of a run. *)
Definition same_read (r r' : Run) : Prop :=
  r_state r' = r_state r ∧ r_aborted r' = r_aborted r ∧ r_read r' = r_read r.

(** The run at [id] has the text and the loop variables given, and is read as [r0] is. *)
Definition holds (id : nat) (r0 : Run) (t : string) (d : Drive) (w : World) : Prop :=
  ∃ r, w_heap w !! id = Some r ∧ r_text r = t ∧ r_drive r = d ∧ same_read r0 r.

Lemma holds_upd id r0 t t' d f w :
  (∀ r, r_text r = t → r_text (f r) = t' ∧ r_drive (f r) = r_drive r ∧ same_read r (f r)) →
  holds id r0 t d w → holds id r0 t' d (upd id f w).
Proof.
  intros Hf (r & Hr & Ht & Hd & (S1 & S2 & S3)). exists (f r). destruct (Hf r Ht) as (H1 & H2 & (E1 & E2 & E3)).
  split; [by apply lookup_upd_eq|]. unfold same_read. rewrite H1, H2, E1, E2, E3. done.
Qed.

Lemma holds_keep id r0 t d f w :
  (∀ r, r_text (f r) = r_text r ∧ r_drive (f r) = r_drive r ∧ same_read r (f r)) → holds id r0 t d w → holds id r0 t d (upd id f w).
Proof. intros Hf. apply holds_upd. intros r <-. apply Hf. Qed.

Lemma holds_same id r0 t d w w' : w_heap w' = w_heap w → holds id r0 t d w → holds id r0 t d w'.
Proof. intros Hh (r & Hr & Hrest). exists r. by rewrite Hh. Qed.

Lemma holds_cancel id r0 t d turn w : holds id r0 t d w → holds id r0 t d (cancelChatTurn turn w).
Proof. intros Hw. unfold cancelChatTurn. by destruct (isSafeChatId _). Qed.

Lemma holds_rekey id r0 t d c w : holds id r0 t d w → holds id r0 t d (rekeyRun id c w).
Proof.
  intros Hw. unfold rekeyRun, on_run. destruct (w_heap w !! id) as [r|]; [|done]. cbv zeta.
  destruct (_ || _); [done|]. match goal with |- holds _ _ _ _ (with_tab ?f (ww_runs ?m (upd _ _ ?w1))) => set (w2 := w1) end.
  eapply (holds_same _ _ _ _ (upd id _ w2)); [reflexivity|]. apply holds_keep; [done|].
  unfold w2. by destruct (is_at _ _ _).
Qed.

Lemma holds_parkCheck id r0 t d w : holds id r0 t d w → holds id r0 t d (scheduleParkCheck id w).
Proof. intros Hw. destruct (scheduleParkCheck_cases id w) as [->| ->]; [done|]. apply holds_keep; [done|done]. Qed.

Lemma holds_onTurnStart id r0 t d e w : holds id r0 t d w → holds id r0 "" d (onTurnStart id e w).
Proof.
  intros Hw. unfold onTurnStart. unfold on_run at 1. destruct (w_heap w !! id) as [r|] eqn:Hr; [|by destruct Hw as (?&?&?); congruence]. cbv zeta.
  match goal with |- holds _ _ _ _ (on_run _ _ ?w) => assert (H1 : holds id r0 "" d w); [|set (w1 := w) in *; clearbody w1] end.
  { unfold setLive. apply holds_keep; [done|]. apply (holds_upd id r0 t ""); [by intros r' _|].
    destruct (_ || _); [apply holds_cancel, holds_keep; [done|]|]; (destruct (truthy _); [apply holds_keep; [done|]|]; by apply holds_keep). }
  unfold on_run. destruct (w_heap w1 !! id) as [r1|] eqn:Hr1; [|done].
  destruct (_ =? 0)%nat; [apply holds_parkCheck|]; (destruct (_ && starts_with _ _); [apply holds_rekey|]); exact H1.
Qed.

Lemma holds_noteStep id r0 t d lb w : holds id r0 t d w → holds id r0 t d (noteStep id lb w).
Proof. intros Hw. unfold noteStep, on_run. by destruct (w_heap w !! id). Qed.

Lemma holds_event id e seq r0 t d w :
  r_state r0 = SRunning → holds id r0 t d w → holds id r0 (text_step t e) (note_event e seq d) (drive_event id e seq w).
Proof.
  intros Hrun (r & Hr & Ht & Hd & Hs). unfold drive_event. unfold on_run at 1. rewrite Hr. cbv zeta.
  match goal with |- context [handleEvent id e ?w] => assert (H1 : holds id r0 t (note_event e seq d) w); [|set (w1 := w) in *; clearbody w1] end.
  { assert (H1 : holds id r0 t (note_event e seq d) (upd id (on_drive (note_event e seq)) w)).
    { eexists. split; [by apply lookup_upd_eq|]. split_and!; [done|cbn; by rewrite Hd|apply Hs..]. }
    destruct (reconnects e r); [|exact H1]. apply holds_keep; [done|exact H1]. }
  unfold handleEvent. unfold on_run at 1. destruct H1 as (r1 & Hr1 & Hrest). 
  assert (H1 : holds id r0 t (note_event e seq d) w1) by (by exists r1). rewrite Hr1.
  assert (running r1 = true) as ->. { apply running_true. destruct Hrest as (_ & _ & Hs1 & _). congruence. }
  cbn [negb]. destruct e; cbn [text_step]; try exact H1.
  - by apply (holds_onTurnStart _ _ t).
  - destruct (has_step _ _); [exact H1|]. apply holds_noteStep. apply holds_keep; [done|exact H1].
  - apply holds_noteStep. apply holds_keep; [done|exact H1].
  - apply holds_keep; [done|exact H1].
  - apply holds_keep; [done|exact H1].
  - eapply holds_upd; [|exact H1]. by intros r' ->.
  - unfold setLive. apply holds_keep; [done|]. eapply holds_upd; [|exact H1]. by intros r' _.
  - apply holds_keep; [done|exact H1].
Qed.

Lemma holds_feed id es r0 t d w :
  r_state r0 = SRunning → holds id r0 t d w →
  holds id r0 (text_of t es.*1) (foldl (λ d p, note_event p.1 p.2 d) d es) (feed id es w).
Proof.
  intros Hrun. revert t d w. induction es as [|[e seq] es IH]; intros t d w Hw; [exact Hw|].
  cbn. apply IH. by apply holds_event.
Qed.

Lemma from_post_events es : (from_post es).*1 = es.
Proof. induction es as [|e es IH]; [done|]. cbn. f_equal. exact IH. Qed.

(** The events a POST counts. *)
Definition posted (es : list ChatStreamEvent) : Z := Z.of_nat (length (List.filter (λ e, negb (is_ping e)) es)).

Lemma note_posted es d :
  d_mode d = MPost →
  let d' := foldl (λ d p, note_event p.1 p.2 d) d (from_post es) in
  d_mode d' = MPost ∧ d_postEvents d' = d_postEvents d + posted es ∧ d_pc d' = d_pc d.
Proof.
  revert d. induction es as [|e es IH]; intros d Hm; cbn; [split_and!; [done|unfold posted; simpl; lia|done]|].
  assert (Hn : d_mode (note_event e None d) = MPost ∧
    d_postEvents (note_event e None d) = d_postEvents d + (if is_ping e then 0 else 1) ∧ d_pc (note_event e None d) = d_pc d).
  { unfold note_event. rewrite Hm, bool_decide_eq_true_2 by done. destruct (is_ping e); cbn; split_and!; (done || lia). }
  destruct Hn as (H1 & H2 & H3). destruct (IH _ H1) as (I1 & I2 & I3). split_and!; [exact I1| |by etrans].
  etrans; [exact I2|]. rewrite H2. unfold posted. cbn. destruct (is_ping e); cbn [negb length]; lia.
Qed.

Lemma parkedWait_parks id w r :
  w_heap w !! id = Some r → r_attached r = 0%nat → r_state r = SRunning → r_aborted r = false →
  w_heap (parkedWait id w) !! id = Some (set_pc PcParked (set_parked true (set_parkRequested false r))).
Proof.
  intros Hr Hat Hst Hab. unfold parkedWait. cbv zeta.
  assert (Hr1 : w_heap (upd id (set_parkRequested false) w) !! id = Some (set_parkRequested false r)) by exact (lookup_upd_eq id _ w r Hr).
  unfold on_run. rewrite Hr1. unfold running. cbn [r_attached r_state r_aborted set_parkRequested].
  rewrite Hat, Hst, Hab, bool_decide_eq_true_2 by done. cbn [Nat.ltb Nat.leb negb orb].
  apply (lookup_upd_eq id (set_pc PcParked)). rewrite (proj1 (scheduleParkPoll_fields _)).
  exact (lookup_upd_eq id (set_parked true) _ _ Hr1).
Qed.

Lemma unpark_wakes id w r :
  w_heap w !! id = Some r → r_parked r = true → r_state r = SRunning →
  w_heap (unpark id w) !! id = Some (wake (set_parked false r)).
Proof.
  intros Hr Hp Hst. unfold unpark, on_run. rewrite Hr, Hp. unfold running. rewrite Hst, bool_decide_eq_true_2 by done. cbn [negb].
  apply (lookup_upd_eq id wake). exact (lookup_upd_eq id (set_parked false) w r Hr).
Qed.

Lemma drive_top_get id w r :
  w_heap w !! id = Some r → d_pc (r_drive r) = PcTop → r_state r = SRunning → r_aborted r = false →
  d_mode (r_drive r) = MEvents → (0 < r_attached r)%nat →
  drive_top id w = upd id (set_pc PcReading) (effect (EGetEvents id (r_turnId r) (d_after (r_drive r)))
    (upd id (λ r, set_read (Some false) (set_parkRequested false r)) w)).
Proof.
  intros Hr Hpc Hst Hab Hm Hat. unfold drive_top, on_run. rewrite Hr, Hpc, bool_decide_eq_true_2, Hab by done.
  unfold running. rewrite Hst, bool_decide_eq_true_2 by done. cbn [negb]. cbv zeta. rewrite Hm.
  by destruct (Nat.eqb_spec (r_attached r) 0) as [E|_]; [lia|].
Qed.

(** A closed POST of a run nobody views parks it after the events it counted, or at the start of the ring. *)
Lemma closed_post_parks id n w r :
  w_heap w !! id = Some r → d_pc (r_drive r) = PcReading → r_state r = SRunning → r_aborted r = false →
  r_attached r = 0%nat → r_parkRequested r = true → d_mode (r_drive r) = MPost →
  ∃ r', w_heap (drive_result id (OutAborted n) w) !! id = Some r' ∧ r_parked r' = true ∧ d_pc (r_drive r') = PcParked ∧
    r_state r' = SRunning ∧ r_aborted r' = false ∧ r_text r' = r_text r ∧ d_mode (r_drive r') = MEvents ∧
    d_after (r_drive r') = if decide (n = 0) then d_postEvents (r_drive r) else 0.
Proof.
  intros Hr Hpc Hst Hab Hat Hpk Hm. unfold drive_result, on_run. rewrite Hr, Hpc, bool_decide_eq_true_2 by done.
  cbv zeta. unfold running. rewrite Hst, Hab, Hpk, bool_decide_eq_true_2 by done. cbn [negb]. unfold park. cbv zeta.
  match goal with |- context [upd id ?f (upd id no_read w)] => set (g := f); set (w2 := upd id g (upd id no_read w)) end.
  assert (Hr2 : w_heap w2 !! id = Some (g (no_read r))).
  { apply (lookup_upd_eq id g). exact (lookup_upd_eq id no_read w r Hr). }
  eexists. split; [apply parkedWait_parks; [exact Hr2|done..]|]. unfold g. cbn. rewrite !decide_True by done. split_and!; try done.
  destruct (decide (n = 0)) as [->|Hn]; [by rewrite decide_True|by rewrite decide_False by congruence].
Qed.

(** The next viewer of a parked run wakes it: its loop reads the rest of the event ring. *)
Lemma view_resumes id w r :
  w_heap w !! id = Some r → r_parked r = true → d_pc (r_drive r) = PcParked → r_state r = SRunning →
  r_aborted r = false → d_mode (r_drive r) = MEvents →
  ∃ r' sent, reads id (drive_top id (attachRun id w)) r' ∧ d_mode (r_drive r') = MEvents ∧
    d_after (r_drive r') = d_after (r_drive r) ∧ r_text r' = r_text r ∧
    w_effects (drive_top id (attachRun id w)) = sent ++ [EGetEvents id (r_turnId r') (d_after (r_drive r))].
Proof.
  intros Hr Hp Hpc Hst Hab Hm. set (r4 := clearParkTimer (set_attached (S (r_attached r)) r)).
  set (w4 := upd id (λ r, clearParkTimer (set_attached (S (r_attached r)) r)) w).
  assert (Hr4 : w_heap w4 !! id = Some r4) by exact (lookup_upd_eq id _ w r Hr).
  pose proof (unpark_wakes id w4 r4 Hr4 Hp Hst) as Hr5. set (r5 := wake _) in Hr5.
  assert (Hc : d_pc (r_drive r5) = PcTop ∧ r_state r5 = SRunning ∧ r_aborted r5 = false ∧ d_mode (r_drive r5) = MEvents ∧
    (0 < r_attached r5)%nat ∧ d_after (r_drive r5) = d_after (r_drive r) ∧ r_text r5 = r_text r).
  { unfold r5, wake. rewrite decide_True by done. cbn. split_and!; (done || lia). }
  assert (Hv : ∃ w5, attachRun id w = w5 ∧ w_heap w5 !! id = Some r5).
  { eexists. split; [done|]. unfold attachRun, on_run. by rewrite Hr. }
  destruct Hv as (w5 & -> & Hr5'). clearbody r5. destruct Hc as (C1 & C2 & C3 & C4 & C5 & C6 & C7).
  rewrite (drive_top_get id w5 r5) by done. rewrite C6.
  match goal with |- context [upd id ?f w5] => set (g5 := f) end.
  assert (Hr6 : w_heap (upd id g5 w5) !! id = Some (g5 r5)) by exact (lookup_upd_eq id g5 w5 r5 Hr5').
  exists (set_pc PcReading (g5 r5)). eexists. split_and!; [split_and!; [exact (lookup_upd_eq id _ _ _ Hr6)|done..]|done|done|done|reflexivity].
Qed.

(** A park that closed the read: nobody views the run. *)
Lemma requestPark_closes id w ra r1 :
  w_heap w !! id = Some ra → r_read ra = Some false → w_heap (requestPark id w) !! id = Some r1 → r_read r1 = Some true →
  r1 = set_read (Some true) (set_parkRequested true ra) ∧ r_attached ra = 0%nat.
Proof.
  intros Hra Hread Hr1 Hread1. unfold requestPark, on_run in Hr1. rewrite Hra in Hr1.
  destruct (_ || _ || _ || _) eqn:E1 in Hr1; [assert (r1 = ra) as -> by congruence; congruence|].
  rewrite !orb_false_iff in E1. destruct E1 as [[[_ E1] _] _]. apply Nat.ltb_ge in E1.
  destruct (_ || _ || _ || _) in Hr1; [assert (r1 = ra) as -> by congruence; congruence|].
  rewrite (lookup_upd_eq id _ _ ra Hra) in Hr1. split; [congruence|lia].
Qed.

(** ** The lines of a turn's stream, and the ring the server keeps of them *)

(** A line an event is read from, a line none is read from (counted as malformed), and a line over the size limit,
    which the splitter drops. *)
Inductive StreamLine := LineEvent (e : ChatStreamEvent) | LineBroken | LineTooLong.

Definition line_event (l : StreamLine) : option ChatStreamEvent := match l with LineEvent e => Some e | _ => None end.
Definition line_events (ls : list StreamLine) : list ChatStreamEvent := omap line_event ls.
Definition in_ring (l : StreamLine) : bool := match l with LineEvent e => negb (is_ping e) | _ => true end.
Definition ring_size (ls : list StreamLine) : Z := Z.of_nat (length (List.filter in_ring ls)).
(** What the reader of a POST counts when the read is closed *)
Definition malformed_lines (ls : list StreamLine) : Z := Z.of_nat (length (List.filter (λ l, match l with LineBroken => true | _ => false end) ls)).

(** *** [TurnEventRing] of the server (backend/app/api/routes_chat.py)

    Every line but the pings gets the next number. Texts that follow each other are merged into entries that remember
    where each ended, a reset drops the texts before it, of the usage and of a step's progress only the newest stays. The
    entries are kept newest first here. An event stands for the line it is read from: a merged text is taken to read as
    the texts it merges. The bounds past which the ring drops its oldest entries (a million characters, 2,000 entries) and
    the cut inside a text of more than 4,000 characters, which no event has, are left out. *)
Inductive RingEntry := RingText (first : Z) (deltas : list string) | RingLine (seq : Z) (l : StreamLine).

(** The number of characters of a string *)
Class RingHost := { characters : string → Z }.

Section ring.
Context `{RingHost}.

(** The texts of an entry are merged until it holds a sixteenth of the bounds. *)
Definition segment_open (deltas : list string) : bool :=
  (characters (String.concat "" deltas) <? 62500) && (Z.of_nat (length deltas) <? 15625).

Definition ring_append (seq : Z) (l : StreamLine) (entries : list RingEntry) : list RingEntry :=
  match l with
  | LineEvent (TextDelta t) =>
      match entries with
      | RingText first deltas :: older => if segment_open deltas then RingText first (deltas ++ [t]) :: older else RingText seq [t] :: entries
      | _ => RingText seq [t] :: entries
      end
  | LineEvent TextReset => RingLine seq l :: List.filter (λ e, match e with RingText _ _ => false | _ => true end) entries
  | LineEvent (UsageTotals _) => RingLine seq l :: List.filter (λ e, match e with RingLine _ (LineEvent (UsageTotals _)) => false | _ => true end) entries
  | LineEvent (StepProgress index _ _ _) =>
      RingLine seq l :: List.filter (λ e, match e with RingLine _ (LineEvent (StepProgress i _ _ _)) => negb (i =? index) | _ => true end) entries
  | _ => RingLine seq l :: entries
  end.

(** The number of the last line and the entries, once these lines were relayed *)
Definition ring (ls : list StreamLine) : Z * list RingEntry :=
  foldl (λ p l, (p.1 + 1, ring_append (p.1 + 1) l p.2)) (0, []) (List.filter in_ring ls).

(** A text entry goes out in pieces of at most 4,000 characters, cut between its texts, each under the number of the last. *)
Fixpoint chunks (seq : Z) (held : string) (deltas : list string) : list (ChatStreamEvent * option Z) :=
  match deltas with
  | [] => [(TextDelta held, Some seq)]
  | d :: deltas' =>
      if characters held + characters d <=? 4000 then chunks (seq + 1) (held +:+ d) deltas'
      else (TextDelta held, Some seq) :: chunks (seq + 1) d deltas'
  end.

Definition entry_after (after : Z) (e : RingEntry) : list (ChatStreamEvent * option Z) :=
  match e with
  | RingLine seq l => if after <? seq then match line_event l with Some ev => [(ev, Some seq)] | None => [] end else []
  | RingText first deltas =>
      match drop (Z.to_nat (after - first + 1)) deltas with [] => [] | d :: deltas' => chunks (Z.max first (after + 1)) d deltas' end
  end.
Fixpoint ring_after (after : Z) (entries : list RingEntry) : list (ChatStreamEvent * option Z) :=
  match entries with [] => [] | e :: older => ring_after after older ++ entry_after after e end.

(** What a reader of the ring gets with [?after=] *)
Definition ring_events (after : Z) (ls : list StreamLine) : list (ChatStreamEvent * option Z) := ring_after after (ring ls).2.
End ring.

(** The first line of the ring is the turn's start. *)
Definition starts_turn (ls : list StreamLine) : Prop := ∃ s tail, List.filter in_ring ls = LineEvent (TurnStart s) :: tail.

Lemma text_of_app t a b : text_of t (a ++ b) = text_of (text_of t a) b.
Proof. apply foldl_app. Qed.

(** A ping changes no text: the ring's events build the text the lines build. *)
Lemma text_of_ring ls t : text_of t (line_events (List.filter in_ring ls)) = text_of t (line_events ls).
Proof.
  revert t. induction ls as [|l ls IH]; intros t; [done|]. cbn [List.filter]. destruct l as [e| |]; cbn [in_ring].
  - destruct (is_ping e) eqn:Ep; cbn [negb]; [|cbn; apply IH]. destruct e; try done; apply IH.
  - exact (IH t).
  - exact (IH t).
Qed.

Section ring_text.
Context `{RingHost}.

Lemma chunks_text t seq held deltas : text_of t (chunks seq held deltas).*1 = text_of t (TextDelta <$> held :: deltas).
Proof.
  revert t seq held. induction deltas as [|d deltas IH]; intros t seq held; [done|]. cbn [chunks]. destruct (_ <=? 4000).
  - rewrite IH. cbn. by rewrite app_assoc_string.
  - change (((TextDelta held, Some seq) :: chunks (seq + 1) d deltas).*1) with (TextDelta held :: (chunks (seq + 1) d deltas).*1). exact (IH (t +:+ held) _ _).
Qed.

Lemma entry_text t after first deltas :
  text_of t (entry_after after (RingText first deltas)).*1 = text_of t (TextDelta <$> drop (Z.to_nat (after - first + 1)) deltas).
Proof. unfold entry_after. destruct (drop _ deltas); [done|apply chunks_text]. Qed.

(** Events that change no text can be dropped from the ring. *)
Definition silent (e : RingEntry) : Prop :=
  match e with RingLine _ l => match line_event l with Some ev => ∀ t, text_step t ev = t | None => True end | RingText _ _ => False end.

Lemma filter_silent keep after entries t : (∀ e, keep e = false → silent e) →
  text_of t (ring_after after (List.filter keep entries)).*1 = text_of t (ring_after after entries).*1.
Proof.
  intros Hk. induction entries as [|e entries IH]; [done|]. cbn [List.filter ring_after]. rewrite fmap_app, text_of_app. destruct (keep e) eqn:Ek.
  - cbn [ring_after]. rewrite fmap_app, text_of_app. by rewrite IH.
  - rewrite IH. specialize (Hk e Ek). destruct e as [first deltas|seq l]; [done|]. cbn in *. destruct (after <? seq); [|done].
    destruct (line_event l) as [ev|]; [|done]. cbn. by rewrite Hk.
Qed.

(** The last number an entry holds *)
Definition entry_last (e : RingEntry) : Z := match e with RingText first deltas => first + Z.of_nat (length deltas) - 1 | RingLine seq _ => seq end.

Lemma entry_below after e : entry_last e ≤ after → entry_after after e = [].
Proof.
  destruct e as [first deltas|seq l]; cbn; intros He; [by rewrite drop_ge by lia|]. by assert ((after <? seq) = false) as -> by lia.
Qed.
Lemma ring_below after entries : Forall (λ e, entry_last e ≤ after) entries → ring_after after entries = [].
Proof. induction 1 as [|e entries He _ IH]; [done|]. cbn. by rewrite IH, entry_below. Qed.

(** The ring after some lines: its numbers count them, its newest entry ends at the last, and above any number it holds
    the text of the lines above. *)
Record ring_ok (L : list StreamLine) (p : Z * list RingEntry) : Prop := {
  ro_seq : p.1 = Z.of_nat (length L);
  ro_last : Forall (λ e, entry_last e ≤ p.1) p.2;
  ro_head : match p.2 with RingText first deltas :: _ => entry_last (RingText first deltas) = p.1 | _ => True end;
  ro_text : ∀ n t, 0 ≤ n → text_of t (ring_after n p.2).*1 = text_of t (line_events (drop (Z.to_nat n) L))
}.

(** What appending a line has to give *)
Definition appended (L : list StreamLine) (l : StreamLine) (p : Z * list RingEntry) (entries : list RingEntry) : Prop :=
  Forall (λ e, entry_last e ≤ p.1 + 1) entries ∧
  match entries with RingText first deltas :: _ => entry_last (RingText first deltas) = p.1 + 1 | _ => True end ∧
  ∀ n t, 0 ≤ n ≤ p.1 → text_of t (ring_after n entries).*1 = text_of (text_of t (ring_after n p.2).*1) (line_events [l]).

Lemma append_ok L l p : ring_ok L p → appended L l p (ring_append (p.1 + 1) l p.2) → ring_ok (L ++ [l]) (p.1 + 1, ring_append (p.1 + 1) l p.2).
Proof.
  intros [Hs Hl Hh Ht] (H1 & H2 & H3). split; cbn [fst snd]; [rewrite length_app; cbn; lia|done|done|].
  intros n t Hn. destruct (Z.le_gt_cases n p.1) as [Hle|Hgt].
  - rewrite H3, Ht, drop_app_le by lia. unfold line_events. by rewrite omap_app, text_of_app.
  - rewrite ring_below by (eapply Forall_impl; [exact H1|]; cbn; lia). by rewrite drop_ge by (rewrite length_app; cbn; lia).
Qed.

Lemma append_line L l p entries : ring_ok L p →
  Forall (λ e, entry_last e ≤ p.1) entries →
  (∀ n t, text_of (text_of t (ring_after n entries).*1) (line_events [l]) = text_of (text_of t (ring_after n p.2).*1) (line_events [l])) →
  appended L l p (RingLine (p.1 + 1) l :: entries).
Proof.
  intros _ He Ht. split_and!; [constructor; [done|]; eapply Forall_impl; [exact He|]; cbn; lia|done|].
  intros n t Hn. cbn [ring_after]. rewrite fmap_app, text_of_app, <-Ht. f_equal. cbn. assert ((n <? p.1 + 1) = true) as -> by lia. by destruct (line_event l).
Qed.

Lemma Forall_filter_keep (P : RingEntry → Prop) keep entries : Forall P entries → Forall P (List.filter keep entries).
Proof. rewrite !Forall_forall. intros Hf e He. apply Hf. apply list_elem_of_In, filter_In in He as [He _]. by apply list_elem_of_In. Qed.

Lemma append_text L t p : ring_ok L p → appended L (LineEvent (TextDelta t)) p (ring_append (p.1 + 1) (LineEvent (TextDelta t)) p.2).
Proof.
  intros [Hs Hl Hh Ht]. assert (Hnew : appended L (LineEvent (TextDelta t)) p (RingText (p.1 + 1) [t] :: p.2)).
  { split_and!; [constructor; [cbn; lia|]; eapply Forall_impl; [exact Hl|]; cbn; lia|cbn; lia|]. intros n u Hn. cbn [ring_after].
    rewrite fmap_app, text_of_app, entry_text. by replace (Z.to_nat (n - (p.1 + 1) + 1)) with 0%nat by lia. }
  cbn [ring_append]. destruct p.2 as [|[first deltas|s l'] older] eqn:Ee; [exact Hnew| |exact Hnew]. destruct (segment_open deltas); [|exact Hnew].
  cbn in Hh. apply Forall_cons in Hl as [_ Hl]. split_and!.
  - constructor; [cbn; rewrite length_app; cbn; lia|]. eapply Forall_impl; [exact Hl|]. cbn; lia.
  - cbn. rewrite length_app. cbn. lia.
  - intros n u Hn. cbn [ring_after]. rewrite Ee. cbn [ring_after]. rewrite !fmap_app, !text_of_app, !entry_text.
    rewrite drop_app_le by lia. by rewrite fmap_app, text_of_app.
Qed.

Lemma append_any L l p : ring_ok L p → appended L l p (ring_append (p.1 + 1) l p.2).
Proof.
  intros Hr. pose proof Hr as [Hs Hl Hh Ht]. destruct l as [ev| |]; [|by apply append_line..].
  destruct ev as [e|st|st|index d tot un|tot|t| |part|r|e|]; cbn [ring_append]; try (by apply append_line).
  - apply append_line; [done|by apply Forall_filter_keep|]. intros n u. f_equal. apply filter_silent. intros [|s [[]| |]]; try done.
  - apply append_line; [done|by apply Forall_filter_keep|]. intros n u. f_equal. apply filter_silent. intros [|s [[]| |]]; try done.
  - by apply append_text.
  - apply append_line; [done|by apply Forall_filter_keep|]. done.
Qed.

Lemma ring_correct ls : ring_ok (List.filter in_ring ls) (ring ls).
Proof.
  unfold ring. induction (List.filter in_ring ls) as [|l L IH] using rev_ind.
  - split; [done|constructor|done|]. intros n t _. by rewrite drop_nil.
  - rewrite foldl_app. cbn [foldl]. by apply append_ok, append_any.
Qed.

(** Above a number the ring holds the text of the lines above it. *)
Lemma ring_events_above n ls t : 0 ≤ n → text_of t (ring_events n ls).*1 = text_of t (line_events (drop (Z.to_nat n) (List.filter in_ring ls))).
Proof. apply ro_text, ring_correct. Qed.
End ring_text.

(** A closed POST that dropped no line for its size counted the ring's lines, when it read them all. *)
Lemma posted_lines ls : LineTooLong ∉ ls → malformed_lines ls = 0 → posted (line_events ls) = ring_size ls.
Proof.
  unfold posted, ring_size, malformed_lines. induction ls as [|l ls IH]; [done|]. rewrite not_elem_of_cons. intros [Hl Hls]. destruct l as [e| |]; [|cbn; lia|done].
  intros Hm. specialize (IH Hls Hm). change (line_events (LineEvent e :: ls)) with (e :: line_events ls).
  cbn [List.filter in_ring]. destruct (is_ping e); cbn [negb length]; lia.
Qed.

Section park.
Context `{RingHost}.

Lemma ring_events_text ls rest t :
  LineTooLong ∉ ls → malformed_lines ls = 0 → text_of t (ring_events (posted (line_events ls)) (ls ++ rest)).*1 = text_of t (line_events rest).
Proof.
  intros Hl Hm. rewrite posted_lines, ring_events_above by (done || unfold ring_size; lia). unfold ring_size. rewrite Nat2Z.id, List.filter_app, drop_app_length.
  apply text_of_ring.
Qed.

Lemma ring_start_text ls t t' : starts_turn ls → text_of t (ring_events 0 ls).*1 = text_of t' (line_events ls).
Proof. intros (s & tail & E). rewrite ring_events_above, <-(text_of_ring ls) by lia. by rewrite E. Qed.

(** C5. A park loses and repeats nothing. A question's stream is closed after any number of its lines because nobody views
    the run; the next viewer reads the ring the server keeps of that stream ([ring]), after the last event where every line was
    read, from its start where a line was malformed; and once the ring is read the text is the one the uninterrupted
    stream builds. Left out are streams with a line the splitter drops for its size: the drop is not counted, and the
    text repeats ([lost_line_repeats_text]). *)
Theorem park_resumes_exactly id w r seen rest r1 :
  reads id w r → r_read r = Some false → d_mode (r_drive r) = MPost → d_postEvents (r_drive r) = 0 →
  starts_turn (seen ++ rest) → LineTooLong ∉ seen →
  let w1 := requestPark id (feed id (from_post (line_events seen)) w) in
  w_heap w1 !! id = Some r1 → r_read r1 = Some true →
  let w2 := run_rops [RoResult id (OutAborted (malformed_lines seen)); RoAttach id; RoTop id] w1 in
  ∃ r2 sent after, reads id w2 r2 ∧ d_mode (r_drive r2) = MEvents ∧
    w_effects w2 = sent ++ [EGetEvents id (r_turnId r2) after] ∧
    after = (if decide (malformed_lines seen = 0) then ring_size seen else 0) ∧
    ∃ r3, w_heap (feed id (ring_events after (seen ++ rest)) w2) !! id = Some r3 ∧ r_text r3 = text_of (r_text r) (line_events (seen ++ rest)).
Proof.
  intros (Hr & Hpc & Hst & Hab) Hread Hm Hz Hstart Hlong w1 Hr1 Hread1 w2. set (evs := line_events seen) in *.
  destruct (holds_feed id (from_post evs) r (r_text r) (r_drive r) w Hst) as (ra & Hra & Ht & Hd & (S1 & S2 & S3)); [by exists r|].
  rewrite from_post_events in Ht. destruct (note_posted evs (r_drive r) Hm) as (N1 & N2 & N3). rewrite <-Hd in N1, N2, N3.
  assert (Hcl : r1 = set_read (Some true) (set_parkRequested true ra) ∧ r_attached ra = 0%nat) by (apply (requestPark_closes id (feed id (from_post evs) w) ra); congruence || done).
  destruct Hcl as [-> Hat].
  destruct (closed_post_parks id (malformed_lines seen) w1 _ Hr1) as (rp & Hrp & P1 & P2 & P3 & P4 & P5 & P6 & P7); [cbn; congruence..|].
  destruct (view_resumes id _ rp Hrp) as (r2 & sent & Hrd & V1 & V2 & V3 & V4); [done..|].
  change (drive_top id (attachRun id (drive_result id (OutAborted _) w1))) with w2 in *.
  exists r2, sent, (d_after (r_drive rp)). split_and!; [done..| |].
  - rewrite P7. case_decide; [|done]. cbn. rewrite N2, Hz. unfold evs. by rewrite posted_lines.
  - destruct Hrd as (Hr2 & _ & Hst2 & _).
    destruct (holds_feed id (ring_events (d_after (r_drive rp)) (seen ++ rest)) r2 (r_text r2) (r_drive r2) w2 Hst2) as (r3 & Hr3 & Ht3 & _); [by exists r2|].
    exists r3. split; [done|]. rewrite Ht3. destruct (decide (malformed_lines seen = 0)) as [E|E].
    + assert (Hn : d_after (r_drive rp) = posted evs) by (rewrite P7; cbn; lia). rewrite Hn. unfold evs. rewrite ring_events_text by done.
      unfold line_events. rewrite omap_app, text_of_app. f_equal. rewrite V3, P5. exact Ht.
    + rewrite P7. by apply ring_start_text.
Qed.
End park.
End theorems.

(** Every retry waits between a quarter of a second and fifteen seconds, whatever the server
    asks for and however often the run tried before. *)
Theorem recoveryDelayMs_bounds attempt retryAfter :
  (Qle 250 (recoveryDelayMs attempt retryAfter) ∧ Qle (recoveryDelayMs attempt retryAfter) 15000)%Z.
Proof.
  unfold recoveryDelayMs. set (ms := match retryAfter with Some _ => _ | None => _ end). clearbody ms.
  assert (H1 : ∀ a b : Qc, Qle (Qc_min a b) a ∧ (Qle (Qc_min a b) b ∧ (Qc_min a b = a ∨ Qc_min a b = b))).
  { intros a b. unfold Qc_min. destruct (Qle_bool a b) eqn:E; [apply Qle_bool_iff in E|]; (split_and!; auto using Qle_refl).
    apply Qlt_le_weak, Qnot_le_lt. intros Hle%Qle_bool_iff. congruence. }
  assert (H2 : ∀ a b : Qc, Qle a (Qc_max a b)).
  { intros a b. unfold Qc_max. destruct (Qle_bool a b) eqn:E; [by apply Qle_bool_iff|apply Qle_refl]. }
  destruct (H1 (Qc_of_Z RECOVERY_MAX_DELAY_MS) (Qc_max (Qc_of_Z RECOVERY_MIN_DELAY_MS) ms)) as (Ha & _ & [E|E]).
  - rewrite E. split; by apply Qle_bool_iff.
  - split; [rewrite E; eapply Qle_trans; [|apply H2]; by apply Qle_bool_iff|].
    eapply Qle_trans; [exact Ha|]. by apply Qle_bool_iff.
Qed.

(** ** Witnesses: one question, streamed, parked and answered *)
Section witnesses.
#[local] Instance plain_display : Display := { displayText := λ s _ _, s }.
#[local] Instance no_numbers : ParseNumber := { parse_number := λ _, None }.
#[local] Instance byte_characters : RingHost := { characters := λ s, Z.of_nat (String.length s) }.

Definition demo_request : ChatRequest :=
  mkRequest "Which hosts beacon?" None None None true (Some "key-1") None None None (VObj []).
Definition demo_start : StartRunOptions := mkStart "draft:1" Workspace None demo_request OrUser Stream ModeText.
Definition demo_turn_start : ChatStreamEvent := TurnStart (mkTurnStart "turn-1" (Some "7") None ModeText false 0).
Definition demo_step : ChatStreamEvent := StepStart (mkStepInfo 1 None StepTool (Some "search") "Searching" [] None).
Definition demo_response : ChatResponse :=
  mkResponse "Two hosts." (Qc_of_Z 0) [] [] None [] [] [] AData None None (Some "turn-1") (Some "m2") (Some "m1")
    (Some "7") None None None None None (VObj []).

(** Asked, streamed and answered with nobody looking. *)
Definition demo_answered : list rop :=
  [RoStart demo_start; RoEvent 1 demo_turn_start None; RoEvent 1 demo_step None; RoEvent 1 (TextDelta "Two ") None;
   RoResult 1 (OutDone demo_response)].

(** The same question parks after two events, and its loop reads the event ring. *)
Definition demo_reading : list rop := [RoStart demo_start].
Definition demo_ring : list rop :=
  [RoStart demo_start; RoEvent 1 demo_turn_start None; RoResult 1 OutIncomplete; RoTop 1].

Definition run_one (w : World) : Run :=
  match w_heap w !! 1%nat with
  | Some r => r
  | None => mkRun (mkRunInfo 0 Workspace None None None false None "" 0 "") "" SLost
              (mkLive Stream None None ModeSteps false 0 [] None "" false Open false 0 None) None None None None Stream
              false false 0 false false false false "" false None false false false
              (mkDrive None false MEvents 0 0 false 0 None 0 0 false PcEnded)
  end.

(** [rop_ok], decided. *)
Definition rop_okb (o : rop) (w : World) : bool :=
  match o with
  | RoEvent id _ _ =>
      match w_heap w !! id with
      | Some r => bool_decide (d_pc (r_drive r) = PcReading) && bool_decide (r_read r = Some false) &&
                  negb (bool_decide (d_mode (r_drive r) = MBlocking))
      | None => false
      end
  | RoResult id (OutAborted _) =>
      match w_heap w !! id with Some r => bool_decide (r_read r = Some true) | None => false end
  | RoTick now => w_now w <=? now
  | _ => true
  end.

Fixpoint rops_okb (ops : list rop) (w : World) : bool :=
  match ops with [] => true | o :: ops' => rop_okb o w && rops_okb ops' (run_rop o w) end.

Lemma rops_okb_ok ops w : rops_okb ops w = true → rops_ok ops w.
Proof.
  revert w. induction ops as [|o ops IH]; intros w; [done|]. simpl. rewrite andb_true_iff. intros [Ho Hops].
  split; [|by apply IH]. clear Hops IH. destruct o; try exact I; simpl in *.
  - destruct (w_heap w !! id) as [r|]; [|done]. rewrite !andb_true_iff, negb_true_iff, !bool_decide_eq_true, bool_decide_eq_false in Ho.
    exists r. tauto.
  - destruct o; try exact I. destruct (w_heap w !! id) as [r|]; [|done]. apply bool_decide_eq_true in Ho. by exists r.
  - by apply Z.leb_le.
Qed.

Lemma demo_answered_honest : honest (initial false) demo_answered.
Proof. apply rops_okb_ok. vm_compute. reflexivity. Defined.

Lemma demo_answered_run :
  w_heap (after (initial false) demo_answered) !! 1%nat = Some (run_one (after (initial false) demo_answered)).
Proof. vm_compute. reflexivity. Defined.

Lemma runner_coherent_witness :
  let w := after (initial false) demo_answered in
  r_state (run_one w) = SDone ∧ steps_sorted (lv_steps (r_live (run_one w))) ∧ NoDup (w_runs w).*1.
Proof.
  split; [vm_compute; reflexivity|].
  destruct (runner_coherent _ _ _ _ demo_answered_honest demo_answered_run) as (H1 & _ & _ & _ & _ & _ & _ & H8 & _).
  split; [exact H1|exact H8].
Defined.

Lemma settled_run_is_final_witness :
  ∃ r', w_heap (after (initial false) (demo_answered ++ [RoAttach 1; RoStop 1 true; RoFrame 1])) !! 1%nat = Some r' ∧
    r_state r' = SDone.
Proof.
  destruct (settled_run_is_final (Dis := plain_display) (Num := no_numbers) (initial false) demo_answered [RoAttach 1; RoStop 1 true; RoFrame 1] 1%nat
    (run_one (after (initial false) demo_answered))) as (r' & Hr' & Hs & _).
  - apply rops_okb_ok. vm_compute. reflexivity.
  - vm_compute; reflexivity.
  - vm_compute; discriminate.
  - exists r'. split; [exact Hr'|rewrite Hs; vm_compute; reflexivity].
Defined.

Lemma question_sent_once_witness :
  posts 1 (after (initial false) demo_answered) = 1%nat ∧ refusals 1 demo_answered = 0%nat ∧
  (posts 1 (after (initial false) demo_answered) ≤ 1)%nat.
Proof.
  split_and!; [vm_compute; reflexivity|vm_compute; reflexivity|].
  exact (proj1 (question_sent_once _ _ _ _ demo_answered_honest demo_answered_run)).
Defined.

Lemma recovery_terminates_witness :
  ∃ n r', (n ≤ 8)%nat ∧ w_heap (Nat.iter n (silent_drop 1) (after (initial false) demo_ring)) !! 1%nat = Some r' ∧
    r_state r' = SError.
Proof.
  destruct (recovery_terminates (Dis := plain_display) (Num := no_numbers) (initial false) demo_ring 1%nat (run_one (after (initial false) demo_ring))) as (n & r' & Hn & Hr' & Hs & _).
  - apply rops_okb_ok. vm_compute. reflexivity.
  - unfold reads. split_and!; vm_compute; reflexivity.
  - exists n, r'. split_and!; [exact Hn|exact Hr'|exact Hs].
Defined.

(** The start, a ping, half of an answer; then the rest of the answer *)
Definition demo_seen : list StreamLine := [LineEvent demo_turn_start; LineEvent Ping; LineEvent (TextDelta "Two ")].
Definition demo_rest : list StreamLine := [LineEvent (TextDelta "ho"); LineEvent Ping; LineEvent (TextDelta "sts.")].

Lemma park_resumes_exactly_witness :
  let w := after (initial false) demo_reading in
  let w1 := requestPark 1 (feed 1 (from_post (line_events demo_seen)) w) in
  let w2 := run_rops [RoResult 1 (OutAborted (malformed_lines demo_seen)); RoAttach 1; RoTop 1] w1 in
  ∃ r2 sent r3, reads 1 w2 r2 ∧ w_effects w2 = sent ++ [EGetEvents 1 (r_turnId r2) 2] ∧
    w_heap (feed 1 (ring_events 2 (demo_seen ++ demo_rest)) w2) !! 1%nat = Some r3 ∧ r_text r3 = "Two hosts."%string.
Proof.
  destruct (park_resumes_exactly (Dis := plain_display) (Num := no_numbers) 1 (after (initial false) demo_reading) (run_one (after (initial false) demo_reading))
    demo_seen demo_rest
    (run_one (requestPark 1 (feed 1 (from_post (line_events demo_seen)) (after (initial false) demo_reading)))))
    as (r2 & sent & n & Hr & _ & He & Hn & r3 & Hr3 & Ht).
  - unfold reads. split_and!; vm_compute; reflexivity.
  - vm_compute; reflexivity.
  - vm_compute; reflexivity.
  - vm_compute; reflexivity.
  - eexists _, _. vm_compute. reflexivity.
  - unfold demo_seen. set_solver.
  - vm_compute; reflexivity.
  - vm_compute; reflexivity.
  - assert (H2 : n = 2) by (rewrite Hn; vm_compute; reflexivity). rewrite H2 in He, Hr3. exists r2, sent, r3. split_and!; [exact Hr|exact He|exact Hr3|]. rewrite Ht. vm_compute. reflexivity.
Defined.

(** A line the reader dropped for its size is missing from the count an aborted read reports
    ([OutAborted 0], see [Ndjson]), so the park resumes one event early: the ring's events are the
    start, the dropped line and the text, and the text is read a second time. *)
Example lost_line_repeats_text :
  let seen := [LineEvent demo_turn_start; LineTooLong; LineEvent (TextDelta "Two ")] in
  let w1 := requestPark 1 (feed 1 (from_post (line_events seen)) (after (initial false) demo_reading)) in
  let w2 := run_rops [RoResult 1 (OutAborted (malformed_lines seen)); RoAttach 1; RoTop 1] w1 in
  d_after (r_drive (run_one w2)) = 2 ∧ ring_size seen = 3 ∧
  r_text (run_one (feed 1 (ring_events 2 (seen ++ demo_rest)) w2)) = "Two Two hosts."%string.
Proof. vm_compute. done. Qed.
End witnesses.
