(* ===== verification/Runbook.v ===== *)
(** * Runbooks: the definition and the editor's working copy
    (lib/types-runbooks.ts, soc/runbooks/editor/draft.ts)

    A definition is a record with the fields of the type; every edit returns a new one. Strings are
    compared as wholes, so their encoding does not matter, except in [slugify], which reads bytes
    after the Unicode folding of the platform. *)

From S2P Require Import Prelude.
From stdpp Require Import pretty strings.
From Stdlib Require Import Ascii.
From Stdlib Require String.
Local Open Scope Z_scope.

(** ** The data *)
Inductive StepKind := KCheck | KLookup | KDecision | KAction | KRecord.
Inductive PhaseId := Triage | Investigate | Contain | Eradicate | Recover | Close.
Inductive LookupTool := LogStats | LogSearch | Enrich | RelatedCases | Campaign | Mitre.
Inductive LookupRunMode := OnAttach | OnDemand.
Inductive StepEvidenceRule := EvNone | EvNote | EvNoteOrAttachment.

#[export] Instance StepKind_eq_dec : EqDecision StepKind.
Proof. solve_decision. Defined.
#[export] Instance PhaseId_eq_dec : EqDecision PhaseId.
Proof. solve_decision. Defined.
#[export] Instance LookupTool_eq_dec : EqDecision LookupTool.
Proof. solve_decision. Defined.
#[export] Instance LookupRunMode_eq_dec : EqDecision LookupRunMode.
Proof. solve_decision. Defined.
#[export] Instance StepEvidenceRule_eq_dec : EqDecision StepEvidenceRule.
Proof. solve_decision. Defined.

(** A document's strings are of any type [T]: [string] in the editor, which compares them, code units in
    its Markdown form, which reads them. Phases are of any type [P], since the parser's may not be phases.
    Entity types, severities and verdicts are closed vocabularies nothing here reads: strings. *)
Record AppliesWhenOf {T : Type} := mkApplies {
  aw_rule_ids : list T;
  aw_mitre : list T;
  aw_entity_types : list T;
  aw_severity_at_least : option T;
  aw_sources : list T;
  aw_verdicts : list T;
  aw_statuses : list T;
  aw_any_tags : list T;
  aw_min_event_count : option Z;
  aw_always : bool;
}.
Arguments AppliesWhenOf : clear implicits.
Arguments mkApplies {T}.
Abbreviation AppliesWhen := (AppliesWhenOf string).

(** [filter] keeps its keys in order, as the object does. *)
Record LookupTemplateOf {T : Type} := mkLookup {
  lk_tool : LookupTool;
  lk_filter : list (T * T);
  lk_group_by : list T;
  lk_indicator : option T;
  lk_window : T;
  lk_limit : Z;
  lk_run : LookupRunMode;
}.
Arguments LookupTemplateOf : clear implicits.
Arguments mkLookup {T}.
Abbreviation LookupTemplate := (LookupTemplateOf string).

Record DecisionOptionOf {T : Type} := mkOption { do_id : T; do_label : T; do_marks : list T }.
Arguments DecisionOptionOf : clear implicits.
Arguments mkOption {T}.
Abbreviation DecisionOption := (DecisionOptionOf string).

Record RunbookStepOf {T P : Type} := mkRunbookStep {
  rs_id : T;
  rs_phase : P;
  rs_kind : StepKind;
  rs_title : T;
  rs_instructions : T;
  rs_focus : option T;
  rs_escalate_if : option T;
  rs_benign_if : option T;
  rs_required : bool;
  rs_evidence : StepEvidenceRule;
  rs_owner_role : option T;
  rs_approval_role : option T;
  rs_target_minutes : option Z;
  rs_lookup : option (LookupTemplateOf T);
  rs_options : list (DecisionOptionOf T);
  rs_react : option T;
  rs_d3fend : option T;
}.
Arguments RunbookStepOf : clear implicits.
Arguments mkRunbookStep {T P}.
Abbreviation RunbookStep := (RunbookStepOf string PhaseId).

Record RunbookDefinitionOf {T P : Type} := mkDefinition {
  rd_id : T;
  rd_title : T;
  rd_summary : T;
  rd_use_when : T;
  rd_prerequisites : T;
  rd_applies_when : AppliesWhenOf T;
  rd_priority : Z;
  rd_mitre : list T;
  rd_phases : list P;
  rd_steps : list (RunbookStepOf T P);
  rd_retrieval_queries : list T;
  rd_owner : option T;
  rd_review_every_days : Z;
  rd_references : list T;
}.
Arguments RunbookDefinitionOf : clear implicits.
Arguments mkDefinition {T P}.
Abbreviation RunbookDefinition := (RunbookDefinitionOf string PhaseId).

#[export] Instance AppliesWhenOf_eq_dec `{EqDecision T} : EqDecision (AppliesWhenOf T).
Proof. solve_decision. Defined.
#[export] Instance LookupTemplateOf_eq_dec `{EqDecision T} : EqDecision (LookupTemplateOf T).
Proof. solve_decision. Defined.
#[export] Instance DecisionOptionOf_eq_dec `{EqDecision T} : EqDecision (DecisionOptionOf T).
Proof. solve_decision. Defined.
#[export] Instance RunbookStepOf_eq_dec `{EqDecision T, EqDecision P} : EqDecision (RunbookStepOf T P).
Proof. solve_decision. Defined.
#[export] Instance RunbookDefinitionOf_eq_dec `{EqDecision T, EqDecision P} : EqDecision (RunbookDefinitionOf T P).
Proof. solve_decision. Defined.

(** [{ ...step, field: v }] *)
Definition st_id (v : string) (s : RunbookStep) : RunbookStep :=
  mkRunbookStep v (rs_phase s) (rs_kind s) (rs_title s) (rs_instructions s) (rs_focus s) (rs_escalate_if s)
    (rs_benign_if s) (rs_required s) (rs_evidence s) (rs_owner_role s) (rs_approval_role s) (rs_target_minutes s)
    (rs_lookup s) (rs_options s) (rs_react s) (rs_d3fend s).
Definition st_phase (v : PhaseId) (s : RunbookStep) : RunbookStep :=
  mkRunbookStep (rs_id s) v (rs_kind s) (rs_title s) (rs_instructions s) (rs_focus s) (rs_escalate_if s)
    (rs_benign_if s) (rs_required s) (rs_evidence s) (rs_owner_role s) (rs_approval_role s) (rs_target_minutes s)
    (rs_lookup s) (rs_options s) (rs_react s) (rs_d3fend s).
Definition st_options (v : list DecisionOption) (s : RunbookStep) : RunbookStep :=
  mkRunbookStep (rs_id s) (rs_phase s) (rs_kind s) (rs_title s) (rs_instructions s) (rs_focus s) (rs_escalate_if s)
    (rs_benign_if s) (rs_required s) (rs_evidence s) (rs_owner_role s) (rs_approval_role s) (rs_target_minutes s)
    (rs_lookup s) v (rs_react s) (rs_d3fend s).
Definition st_lookup (v : option LookupTemplate) (s : RunbookStep) : RunbookStep :=
  mkRunbookStep (rs_id s) (rs_phase s) (rs_kind s) (rs_title s) (rs_instructions s) (rs_focus s) (rs_escalate_if s)
    (rs_benign_if s) (rs_required s) (rs_evidence s) (rs_owner_role s) (rs_approval_role s) (rs_target_minutes s)
    v (rs_options s) (rs_react s) (rs_d3fend s).
(** The fields a step's kind decides: the kind, the guidance, the approval role, the lookup and the options. *)
Definition st_fields (kind : StepKind) (escalate benign approval : option string) (lookup : option LookupTemplate)
    (options : list DecisionOption) (s : RunbookStep) : RunbookStep :=
  mkRunbookStep (rs_id s) (rs_phase s) kind (rs_title s) (rs_instructions s) (rs_focus s) escalate benign
    (rs_required s) (rs_evidence s) (rs_owner_role s) approval (rs_target_minutes s) lookup options (rs_react s)
    (rs_d3fend s).

(** [{ ...defn, steps }] and [{ ...defn, steps, phases }] *)
Definition with_steps_phases (steps : list RunbookStep) (phases : list PhaseId) (d : RunbookDefinition) : RunbookDefinition :=
  mkDefinition (rd_id d) (rd_title d) (rd_summary d) (rd_use_when d) (rd_prerequisites d) (rd_applies_when d)
    (rd_priority d) (rd_mitre d) phases steps (rd_retrieval_queries d) (rd_owner d) (rd_review_every_days d)
    (rd_references d).
Definition set_steps (steps : list RunbookStep) (d : RunbookDefinition) : RunbookDefinition :=
  with_steps_phases steps (rd_phases d) d.

(** ** Slugs *)

Definition is_slug_char (c : ascii) : bool :=
  let n := nat_of_ascii c in
  ((97 <=? n) && (n <=? 122) || (48 <=? n) && (n <=? 57))%nat.

Definition dash : ascii := "-".

(** [.replace(/[^a-z0-9]+/g, '-')] *)
Fixpoint dash_runs (in_run : bool) (s : list ascii) : list ascii :=
  match s with
  | [] => []
  | c :: s' => if is_slug_char c then c :: dash_runs false s'
               else if in_run then dash_runs true s' else dash :: dash_runs true s'
  end.

(** [.replace(/^-+/, '')] and [.replace(/-+$/, '')] *)
Fixpoint drop_dashes (s : list ascii) : list ascii :=
  match s with
  | c :: s' => if decide (c = dash) then drop_dashes s' else s
  | [] => []
  end.
Definition trim_end_dashes (s : list ascii) : list ascii := reverse (drop_dashes (reverse s)).

Definition chars (s : string) : list ascii := String.list_ascii_of_string s.
Definition of_chars (s : list ascii) : string := String.string_of_list_ascii s.

(** [text.normalize('NFKD')], the combining marks removed, in lower case: Unicode tables, of which
    the law says that lower-case ASCII letters, digits and dashes stay as they are. *)
Class Folding := {
  fold_text : string → string;
  fold_plain : ∀ s, Forall (λ c, is_slug_char c = true ∨ c = dash) (chars s) → fold_text s = s;
}.

Section slugs.
Context `{Folding}.

Definition slugify (text : string) (max : nat) (fallback : string) : string :=
  let slug := trim_end_dashes (take max (trim_end_dashes (drop_dashes (dash_runs false (chars (fold_text text)))))) in
  if decide (slug = []) then fallback else of_chars slug.

(** [slice(0, max - length)]: a negative end counts from the end. *)
Definition slice_to (max : nat) (cut : nat) (s : list ascii) : list ascii :=
  if (cut <=? max)%nat then take (max - cut) s else take (length s - (cut - max)) s.

Definition candidate (base : string) (max n : nat) : string :=
  let suffix := dash :: chars (pretty (N.of_nat n)) in
  of_chars (trim_end_dashes (slice_to max (length suffix) (chars base)) ++ suffix).

(** [while (used.has(candidate))], from the suffix [n]; [None] when the fuel runs out. *)
Fixpoint unique_from (fuel : nat) (base : string) (max : nat) (used : list string) (n : nat) : option string :=
  match fuel with
  | O => None
  | S fuel' =>
      let c := candidate base max n in
      if bool_decide (c ∈ used) then unique_from fuel' base max used (S n) else Some c
  end.

Definition uniqueSlug (fuel : nat) (text : string) (taken : list string) (max : nat) (fallback : string) : option string :=
  let base := slugify text max fallback in
  if bool_decide (base ∈ taken) then unique_from fuel base max taken 2 else Some base.

(** ** Runbook ids (soc/runbooks/shared/labels.ts) *)
Definition RESERVED_RUNBOOK_IDS : list string :=
  ["new"; "metrics"; "validate"; "import"; "progress"; "match-preview"; "lookup-test"; "reindex"; "readme"; "index"].

(** [/^[a-z0-9][a-z0-9_-]{0,63}$/] *)
Definition is_id_char (c : ascii) : bool := is_slug_char c || bool_decide (c = dash) || bool_decide (c = "_"%char).
Definition RUNBOOK_ID_PATTERN (id : string) : bool :=
  match chars id with
  | c :: rest => is_slug_char c && forallb is_id_char rest && (length rest <=? 63)%nat
  | [] => false
  end.
Definition isValidRunbookId (id : string) : bool :=
  RUNBOOK_ID_PATTERN id && negb (bool_decide (id ∈ RESERVED_RUNBOOK_IDS)).

(** The loop of [runbookIdFromTitle]. *)
Fixpoint valid_from (rounds fuel : nat) (id : string) (taken : list string) : option string :=
  if isValidRunbookId id then Some id
  else match rounds with
       | O => None
       | S rounds' => uniqueSlug fuel (id +:+ "-runbook") taken 64 "runbook" ≫= λ id, valid_from rounds' fuel id taken
       end.

Definition runbookIdFromTitle (rounds fuel : nat) (title : string) (taken : list string) : option string :=
  uniqueSlug fuel title taken 64 "runbook" ≫= λ id, valid_from rounds fuel id taken.
End slugs.

(** ** Blank documents (soc/runbooks/editor/markdown.ts) *)
Definition DEFAULT_LOOKUP_WINDOW : string := "case_first_seen-1h..case_last_seen+1h".

Definition emptyAppliesWhen {T} : AppliesWhenOf T := mkApplies [] [] [] None [] [] [] [] None false.
Definition defaultLookup : LookupTemplate := mkLookup LogStats [] [] None DEFAULT_LOOKUP_WINDOW 20 OnAttach.

Definition blankStep (id : string) (phase : PhaseId) (kind : StepKind) (title : string) : RunbookStep :=
  mkRunbookStep id phase kind title "" None None None true EvNone None None None
    (if decide (kind = KLookup) then Some defaultLookup else None) [] None None.

Definition blankDefinition (reviewEveryDays : Z) : RunbookDefinition :=
  mkDefinition "" "" "" "" "" emptyAppliesWhen 50 [] [Triage] [blankStep "first-check" Triage KCheck ""] [] None
    reviewEveryDays [].

(** ** Phases *)
Definition PHASE_ORDER : list PhaseId := [Triage; Investigate; Contain; Eradicate; Recover; Close].

Definition PHASE_LABEL (p : PhaseId) : string :=
  match p with
  | Triage => "Triage" | Investigate => "Investigate" | Contain => "Contain"
  | Eradicate => "Eradicate" | Recover => "Recover" | Close => "Close and learn"
  end.

(** [PHASE_ORDER.indexOf(phase)] *)
Definition phaseRank (phase : PhaseId) : Z :=
  match list_find (λ p, p = phase) PHASE_ORDER with Some (i, _) => Z.of_nat i | None => -1 end.

(** [phaseRank(a) - phaseRank(b) || a.index - b.index] is not positive *)
Definition by_phase (a b : nat * RunbookStep) : bool :=
  js_or (phaseRank (rs_phase a.2) - phaseRank (rs_phase b.2)) (Z.of_nat a.1 - Z.of_nat b.1) <=? 0.

Definition regroup (steps : list RunbookStep) : list RunbookStep := (isort by_phase (imap pair steps)).*2.

Definition phasesOf (steps : list RunbookStep) : list PhaseId :=
  filter (λ p, Exists (λ s, rs_phase s = p) steps) PHASE_ORDER.

Definition stepsInPhase (d : RunbookDefinition) (phase : PhaseId) : list RunbookStep :=
  filter (λ s, rs_phase s = phase) (rd_steps d).

(** [steps.findIndex(s => s.id === id)] *)
Definition step_at (id : string) (steps : list RunbookStep) : option nat := fst <$> list_find (λ s, rs_id s = id) steps.
(** [steps.find(s => s.id === id)] *)
Definition find_step (id : string) (steps : list RunbookStep) : option RunbookStep := snd <$> list_find (λ s, rs_id s = id) steps.

Definition stepNumber (d : RunbookDefinition) (id : string) : nat := match step_at id (rd_steps d) with Some i => S i | None => 0 end.

Definition withSteps (d : RunbookDefinition) (steps : list RunbookStep) : RunbookDefinition :=
  let grouped := regroup steps in with_steps_phases grouped (phasesOf grouped) d.

(** [steps.map(s => s.id === id ? f(s) : s)] *)
Definition map_step (id : string) (f : RunbookStep → RunbookStep) (steps : list RunbookStep) : list RunbookStep :=
  (λ s, if decide (rs_id s = id) then f s else s) <$> steps.

(** ** Kinds *)
Definition default_options : list DecisionOption := [mkOption "yes" "" []; mkOption "no" "" []].

Definition guided (kind : StepKind) : bool := match kind with KCheck | KDecision => true | _ => false end.
Definition approved (kind : StepKind) : bool := match kind with KAction | KRecord => true | _ => false end.

Definition kindDefaults (s : RunbookStep) (kind : StepKind) : RunbookStep :=
  st_fields kind
    (if guided kind then rs_escalate_if s else None)
    (if guided kind then rs_benign_if s else None)
    (if approved kind then rs_approval_role s else None)
    (if decide (kind = KLookup) then Some (default defaultLookup (rs_lookup s)) else None)
    (if decide (kind = KDecision) then match rs_options s with [] => default_options | o => o end else []) s.

Section add.
Context `{Folding}.

(** [String(kind)] *)
Definition kind_name (kind : StepKind) : string :=
  match kind with KCheck => "check" | KLookup => "lookup" | KDecision => "decision" | KAction => "action" | KRecord => "record" end.

(** The slug loop never needs more tries than there are steps, and one. *)
Definition addStep (d : RunbookDefinition) (phase : PhaseId) (kind : StepKind) : option (RunbookDefinition * string) :=
  uniqueSlug (S (length (rd_steps d))) (kind_name kind) (rs_id <$> rd_steps d) 64 "step" ≫= λ id,
    Some (withSteps d (rd_steps d ++ [kindDefaults (blankStep id phase kind "") kind]), id).

Definition addPhase (d : RunbookDefinition) (phase : PhaseId) : option (RunbookDefinition * string) := addStep d phase KCheck.
End add.

(** ** Edits *)
Definition drop_mark (id : string) (o : DecisionOption) : DecisionOption :=
  mkOption (do_id o) (do_label o) (filter (λ m, m ≠ id) (do_marks o)).

(** A step is copied only when one of its options marks [id]. *)
Definition unmark (id : string) (s : RunbookStep) : RunbookStep :=
  if decide (Exists (λ o, id ∈ do_marks o) (rs_options s)) then st_options (drop_mark id <$> rs_options s) s else s.

Definition removeStep (d : RunbookDefinition) (id : string) : RunbookDefinition :=
  withSteps d (unmark id <$> filter (λ s, rs_id s ≠ id) (rd_steps d)).

(** [Partial<RunbookStep>]: the fields given. *)
Record StepPatch := mkPatch {
  sp_id : option string;
  sp_phase : option PhaseId;
  sp_kind : option StepKind;
  sp_title : option string;
  sp_instructions : option string;
  sp_focus : option (option string);
  sp_escalate_if : option (option string);
  sp_benign_if : option (option string);
  sp_required : option bool;
  sp_evidence : option StepEvidenceRule;
  sp_owner_role : option (option string);
  sp_approval_role : option (option string);
  sp_target_minutes : option (option Z);
  sp_lookup : option (option LookupTemplate);
  sp_options : option (list DecisionOption);
  sp_react : option (option string);
  sp_d3fend : option (option string);
}.

Definition apply_patch (p : StepPatch) (s : RunbookStep) : RunbookStep :=
  mkRunbookStep (default (rs_id s) (sp_id p)) (default (rs_phase s) (sp_phase p)) (default (rs_kind s) (sp_kind p))
    (default (rs_title s) (sp_title p)) (default (rs_instructions s) (sp_instructions p)) (default (rs_focus s) (sp_focus p))
    (default (rs_escalate_if s) (sp_escalate_if p)) (default (rs_benign_if s) (sp_benign_if p))
    (default (rs_required s) (sp_required p)) (default (rs_evidence s) (sp_evidence p))
    (default (rs_owner_role s) (sp_owner_role p)) (default (rs_approval_role s) (sp_approval_role p))
    (default (rs_target_minutes s) (sp_target_minutes p)) (default (rs_lookup s) (sp_lookup p))
    (default (rs_options s) (sp_options p)) (default (rs_react s) (sp_react p)) (default (rs_d3fend s) (sp_d3fend p)).

Definition updateStep (d : RunbookDefinition) (id : string) (p : StepPatch) : RunbookDefinition :=
  let steps := map_step id (apply_patch p) (rd_steps d) in
  match sp_phase p with Some _ => withSteps d steps | None => set_steps steps d end.

Definition changeKind (d : RunbookDefinition) (id : string) (kind : StepKind) : RunbookDefinition :=
  set_steps (map_step id (λ s, kindDefaults s kind) (rd_steps d)) d.

(** The fields set aside: [None] is a field not set aside. *)
Record KindFields := mkKindFields {
  kf_lookup : option (option LookupTemplate);
  kf_escalate_if : option (option string);
  kf_benign_if : option (option string);
  kf_options : option (list DecisionOption);
  kf_approval_role : option (option string);
}.

Definition no_fields : KindFields := mkKindFields None None None None None.

(** A non-empty string ([''] and [null] are falsy), and [x || null] *)
Definition filled (s : option string) : bool := match s with Some t => negb (String.eqb t "") | None => false end.
Definition or_null (s : option string) : option string := if filled s then s else None.

(** [a ?? b ?? null] of a field of the step and one set aside *)
Definition restore (s : option string) (aside : option (option string)) : option string :=
  match s with Some t => Some t | None => default None aside end.

Definition set_aside (step : RunbookStep) (aside : KindFields) : KindFields :=
  let k := rs_kind step in
  mkKindFields
    (if bool_decide (k = KLookup) || bool_decide (is_Some (rs_lookup step)) then Some (rs_lookup step) else kf_lookup aside)
    (if guided k || filled (rs_escalate_if step) then Some (or_null (rs_escalate_if step)) else kf_escalate_if aside)
    (if guided k || filled (rs_benign_if step) then Some (or_null (rs_benign_if step)) else kf_benign_if aside)
    (if bool_decide (k = KDecision) || negb (bool_decide (rs_options step = [])) then Some (rs_options step) else kf_options aside)
    (if approved k || filled (rs_approval_role step) then Some (or_null (rs_approval_role step)) else kf_approval_role aside).

Definition restore_fields (kind : StepKind) (kept : KindFields) (step : RunbookStep) : RunbookStep :=
  let options := match kf_options kept with Some (o :: os) => o :: os | _ => rs_options step end in
  let changed := kindDefaults (if decide (kind = KDecision) then st_options options step else step) kind in
  st_fields kind
    (if guided kind then restore (rs_escalate_if changed) (kf_escalate_if kept) else rs_escalate_if changed)
    (if guided kind then restore (rs_benign_if changed) (kf_benign_if kept) else rs_benign_if changed)
    (if approved kind then restore (rs_approval_role changed) (kf_approval_role kept) else rs_approval_role changed)
    (match (if decide (kind = KLookup) then kf_lookup kept else None) with
     | Some (Some l) => Some l
     | _ => rs_lookup changed
     end) (rs_options changed) changed.

Definition switchStepKind (d : RunbookDefinition) (id : string) (kind : StepKind) (aside : option KindFields)
    : RunbookDefinition * KindFields :=
  let aside := default no_fields aside in
  match find_step id (rd_steps d) with
  | None => (d, aside)
  | Some step =>
      if decide (rs_kind step = kind) then (d, aside)
      else
        let kept := set_aside step aside in
        (set_steps (map_step id (λ _, restore_fields kind kept step) (rd_steps d)) d, kept)
  end.

Definition rename_mark (from to m : string) : string := if decide (m = from) then to else m.

Definition renameStepId (d : RunbookDefinition) (from to : string) : RunbookDefinition :=
  if decide (from = to) then d
  else set_steps ((λ s, st_options
                          ((λ o, mkOption (do_id o) (do_label o) (rename_mark from to <$> do_marks o)) <$> rs_options s)
                          (st_id (rename_mark from to (rs_id s)) s)) <$> rd_steps d) d.

(** ** Moves *)

(** [steps.splice(at, 0, s)] *)
Definition splice (i : nat) (s : RunbookStep) (steps : list RunbookStep) : list RunbookStep := take i steps ++ s :: drop i steps.

Inductive Direction := MoveUp | MoveDown.

(** [steps[index + direction]] *)
Definition beside (i : nat) (dir : Direction) : option nat :=
  match dir with MoveDown => Some (S i) | MoveUp => match i with O => None | S j => Some j end end.

Definition moveStep (d : RunbookDefinition) (id : string) (dir : Direction) : RunbookDefinition :=
  match step_at id (rd_steps d) with
  | None => d
  | Some index =>
      match rd_steps d !! index, beside index dir ≫= λ j, (pair j) <$> rd_steps d !! j with
      | Some step, Some (j, neighbour) =>
          if decide (rs_phase neighbour = rs_phase step)
          then set_steps (<[j := step]> (<[index := neighbour]> (rd_steps d))) d
          else
            let steps := filter (λ s, rs_id s ≠ id) (rd_steps d) in
            let moved := st_phase (rs_phase neighbour) step in
            let found := step_at (rs_id neighbour) steps in
            let at_ := match dir, found with
                       | MoveUp, Some i => S i
                       | MoveUp, None => O
                       | MoveDown, Some i => i
                       | MoveDown, None => (length steps - 1)%nat
                       end in
            withSteps d (splice at_ moved steps)
      | _, _ => d
      end
  end.

(** [phases.lastIndexOf(phase)] *)
Fixpoint last_in_phase (phase : PhaseId) (steps : list RunbookStep) : option nat :=
  match steps with
  | [] => None
  | s :: steps' =>
      match last_in_phase phase steps' with
      | Some i => Some (S i)
      | None => if decide (rs_phase s = phase) then Some O else None
      end
  end.

Definition moveStepBefore (d : RunbookDefinition) (id : string) (beforeId : option string) (phase : PhaseId) : RunbookDefinition :=
  if decide (Some id = beforeId) then d
  else match find_step id (rd_steps d) with
  | None => d
  | Some step =>
      let steps := filter (λ s, rs_id s ≠ id) (rd_steps d) in
      let at_ := match beforeId with
                 | None => from_option S (length steps) (last_in_phase phase steps)
                 | Some b => default (length steps) (step_at b steps)
                 end in
      withSteps d (splice at_ (st_phase phase step) steps)
  end.

(** [Partial<LookupTemplate>] *)
Record LookupPatch := mkLookupPatch {
  lp_tool : option LookupTool;
  lp_filter : option (list (string * string));
  lp_group_by : option (list string);
  lp_indicator : option (option string);
  lp_window : option string;
  lp_limit : option Z;
  lp_run : option LookupRunMode;
}.

Definition patch_lookup (p : LookupPatch) (l : LookupTemplate) : LookupTemplate :=
  mkLookup (default (lk_tool l) (lp_tool p)) (default (lk_filter l) (lp_filter p)) (default (lk_group_by l) (lp_group_by p))
    (default (lk_indicator l) (lp_indicator p)) (default (lk_window l) (lp_window p)) (default (lk_limit l) (lp_limit p))
    (default (lk_run l) (lp_run p)).

Definition updateLookup (d : RunbookDefinition) (id : string) (p : LookupPatch) : RunbookDefinition :=
  set_steps (map_step id (λ s, match rs_lookup s with Some l => st_lookup (Some (patch_lookup p l)) s | None => s end)
    (rd_steps d)) d.

Definition setOptions (d : RunbookDefinition) (id : string) (options : list DecisionOption) : RunbookDefinition :=
  set_steps (map_step id (st_options options) (rd_steps d)) d.

Definition laterSteps (d : RunbookDefinition) (id : string) : list RunbookStep :=
  match step_at id (rd_steps d) with Some i => drop (S i) (rd_steps d) | None => [] end.

(** [JSON.stringify(a) === JSON.stringify(b)]; [null] is no definition. *)
Definition sameDefinition (a b : option RunbookDefinition) : bool := bool_decide (a = b).
