(* ===== verification/RunbookSpec.v ===== *)
(** * Runbooks: regrouping, and the shape every edit keeps

    The steps of a working copy stay grouped by phase in the phase order, the phases are the ones
    the steps use, and step ids stay unique. *)

From S2P Require Import Prelude StableSort Runbook.
Local Open Scope Z_scope.

Lemma Forall_filter {A} (Q : A → Prop) (P : A → Prop) `{∀ x, Decision (P x)} l : Forall Q l → Forall Q (filter P l).
Proof. rewrite !Forall_forall. intros HQ x [_ Hx]%list_elem_of_filter. by apply HQ. Qed.

(** ** Regrouping *)
Definition in_phase (p : PhaseId) (s : RunbookStep) : Prop := rs_phase s = p.
#[export] Instance in_phase_dec p s : Decision (in_phase p s).
Proof. unfold in_phase. apply _. Defined.

Lemma stepsInPhase_eq d p : stepsInPhase d p = filter (in_phase p) (rd_steps d).
Proof. by apply list_filter_iff. Qed.

(** The steps in the order of their phases. *)
Definition grouped (steps : list RunbookStep) : Prop :=
  StronglySorted (λ a b, phaseRank (rs_phase a) ≤ phaseRank (rs_phase b)) steps.

Lemma phaseRank_inj p q : phaseRank p = phaseRank q → p = q.
Proof. by destruct p, q. Qed.

Lemma by_phase_spec a b :
  by_phase a b = true ↔ phaseRank (rs_phase a.2) < phaseRank (rs_phase b.2) ∨
    (rs_phase a.2 = rs_phase b.2 ∧ (a.1 ≤ b.1)%nat).
Proof.
  unfold by_phase, js_or. destruct (Z.eqb_spec (phaseRank (rs_phase a.2) - phaseRank (rs_phase b.2)) 0) as [E|E].
  - assert (rs_phase a.2 = rs_phase b.2) as -> by (apply phaseRank_inj; lia). rewrite Z.leb_le. split; [right|intros [?|[_ ?]]]; (lia || (split; [done|lia])).
  - rewrite Z.leb_le. split; [left; lia|]. intros [?|[E' _]]; [lia|]. rewrite E' in E. lia.
Qed.

Definition rank_of (s : RunbookStep) : Z := phaseRank (rs_phase s).

Lemma by_phase_rank a b :
  by_phase a b = true ↔ rank_of a.2 < rank_of b.2 ∨ (rank_of a.2 = rank_of b.2 ∧ (a.1 ≤ b.1)%nat).
Proof.
  rewrite by_phase_spec. unfold rank_of. split; intros [?|[E ?]]; [by left|right; by rewrite E|by left|right; split; [by apply phaseRank_inj|done]].
Qed.

Lemma regroup_Permutation steps : regroup steps ≡ₚ steps.
Proof. apply sort_by_Permutation. Qed.

Lemma regroup_grouped steps : grouped (regroup steps).
Proof. exact (sort_by_sorted rank_of by_phase by_phase_rank steps). Qed.

(** Steps keep their order inside a phase. *)
Lemma regroup_phase p steps : filter (in_phase p) (regroup steps) = filter (in_phase p) steps.
Proof.
  assert (E : ∀ l : list RunbookStep, filter (in_phase p) l = filter (λ s, rank_of s = phaseRank p) l).
  { intros l. apply list_filter_iff. intros s. unfold in_phase, rank_of. split; [congruence|apply phaseRank_inj]. }
  rewrite !E. exact (sort_by_stable rank_of by_phase by_phase_rank (phaseRank p) steps).
Qed.

Lemma regroup_id steps : grouped steps → regroup steps = steps.
Proof. exact (sort_by_id rank_of by_phase by_phase_rank steps). Qed.

(** ** The shape of a working copy *)
Definition ids (d : RunbookDefinition) : list string := rs_id <$> rd_steps d.

Record wf (d : RunbookDefinition) : Prop := {
  wf_grouped : grouped (rd_steps d);
  wf_phases : rd_phases d = phasesOf (rd_steps d);
  wf_ids : NoDup (ids d);
}.

Lemma wf_withSteps d steps : NoDup (rs_id <$> steps) → wf (withSteps d steps).
Proof.
  intros Hn. split; [apply regroup_grouped|done|]. unfold ids, withSteps. cbn. by rewrite regroup_Permutation.
Qed.

Lemma grouped_phases l l' : rs_phase <$> l = rs_phase <$> l' → grouped l → grouped l'.
Proof.
  intros E Hg. revert l' E. induction Hg as [|s l Hs IH Hle]; intros [|s' l'] E; try done; [constructor|].
  rewrite !fmap_cons in E. apply (inj2 cons) in E as [Es El]. constructor; [by apply IH|]. apply Forall_forall. intros t' Ht'.
  assert (rs_phase t' ∈ rs_phase <$> l) as Hin by (rewrite El; by apply list_elem_of_fmap_2).
  apply list_elem_of_fmap in Hin as (t & -> & Ht). rewrite Forall_forall in Hle. rewrite <-Es. by apply Hle.
Qed.

Lemma phasesOf_phases l l' : (∀ p, p ∈ rs_phase <$> l ↔ p ∈ rs_phase <$> l') → phasesOf l = phasesOf l'.
Proof.
  intros E. unfold phasesOf. apply list_filter_iff. intros p. rewrite !Exists_exists.
  specialize (E p). rewrite !list_elem_of_fmap in E. split.
  - intros (s & Hin & Hp). destruct (proj1 E) as (t & -> & Ht); [by exists s|by exists t].
  - intros (s & Hin & Hp). destruct (proj2 E) as (t & -> & Ht); [by exists s|by exists t].
Qed.

(** An edit that leaves the phase of every place, and the ids, as they are. *)
Lemma wf_set_steps d steps :
  wf d → rs_phase <$> steps = rs_phase <$> rd_steps d → (rs_id <$> steps) ≡ₚ ids d → wf (set_steps steps d).
Proof.
  intros [Hg Hp Hi] Eph Eid. split; unfold ids, set_steps; cbn.
  - by eapply grouped_phases.
  - rewrite Hp. apply phasesOf_phases. intros p. by rewrite Eph.
  - by rewrite Eid.
Qed.

Lemma map_step_id id f steps : (∀ s, rs_id (f s) = rs_id s) → rs_id <$> map_step id f steps = rs_id <$> steps.
Proof. intros Hf. unfold map_step. rewrite <-list_fmap_compose. apply list_fmap_ext. intros i s _. cbn. case_decide; [apply Hf|done]. Qed.

Lemma map_step_phase id f steps :
  (∀ s, s ∈ steps → rs_id s = id → rs_phase (f s) = rs_phase s) → rs_phase <$> map_step id f steps = rs_phase <$> steps.
Proof.
  intros Hf. unfold map_step. rewrite <-list_fmap_compose. apply list_fmap_ext. intros i s Hs. cbn.
  case_decide; [|done]. apply Hf; [by eapply list_elem_of_lookup_2|done].
Qed.

Lemma map_step_id_in id f steps :
  (∀ s, s ∈ steps → rs_id s = id → rs_id (f s) = rs_id s) → rs_id <$> map_step id f steps = rs_id <$> steps.
Proof.
  intros Hf. unfold map_step. rewrite <-list_fmap_compose. apply list_fmap_ext. intros i s Hs. cbn.
  case_decide; [|done]. apply Hf; [by eapply list_elem_of_lookup_2|done].
Qed.

(** A field edit of one step. *)
Lemma wf_map_step d id f :
  wf d → (∀ s, s ∈ rd_steps d → rs_id s = id → rs_phase (f s) = rs_phase s ∧ rs_id (f s) = rs_id s) →
  wf (set_steps (map_step id f (rd_steps d)) d).
Proof.
  intros Hw Hf. apply wf_set_steps; [done| |].
  - apply map_step_phase. intros s Hin Hs. by destruct (Hf s Hin Hs).
  - rewrite map_step_id_in; [done|]. intros s Hin Hs. by destruct (Hf s Hin Hs).
Qed.

(** ** Finding steps *)
Lemma find_step_Some id steps s :
  find_step id steps = Some s → s ∈ steps ∧ rs_id s = id.
Proof.
  unfold find_step. destruct (list_find _ steps) as [[i t]|] eqn:E; [|done]. intros [= ->].
  apply list_find_Some in E as (Hi & Hid & _). split; [by eapply list_elem_of_lookup_2|done].
Qed.

Lemma find_step_None id steps : find_step id steps = None ↔ id ∉ rs_id <$> steps.
Proof.
  unfold find_step. rewrite fmap_None, list_find_None, list_elem_of_fmap. rewrite Forall_forall. split.
  - intros Hf (s & -> & Hin). by apply (Hf s).
  - intros Hn s Hin Hid. apply Hn. by exists s.
Qed.

Lemma NoDup_id_eq (steps : list RunbookStep) s t : NoDup (rs_id <$> steps) → s ∈ steps → t ∈ steps → rs_id s = rs_id t → s = t.
Proof.
  intros Hn Hs Ht Hid. apply list_elem_of_lookup in Hs as [i Hi]. apply list_elem_of_lookup in Ht as [j Hj].
  assert (i = j) as ->; [|congruence]. eapply (NoDup_lookup _ _ _ (rs_id s) Hn); rewrite list_lookup_fmap.
  - by rewrite Hi.
  - by rewrite Hj, Hid.
Qed.

Lemma step_at_Some id steps i :
  step_at id steps = Some i → ∃ s, steps !! i = Some s ∧ rs_id s = id.
Proof.
  unfold step_at. destruct (list_find _ steps) as [[j t]|] eqn:E; [|done]. intros [= <-].
  apply list_find_Some in E as (Hi & Hid & _). by exists t.
Qed.

Lemma splice_Permutation i s steps : splice i s steps ≡ₚ s :: steps.
Proof. unfold splice. rewrite <-Permutation_middle. by rewrite take_drop. Qed.

(** ** Every edit keeps the shape *)
Lemma wf_removeStep d id : wf d → wf (removeStep d id).
Proof.
  intros [_ _ Hi]. apply wf_withSteps. rewrite <-list_fmap_compose.
  rewrite (list_fmap_ext _ rs_id) by (intros i s _; cbn; unfold unmark; by case_decide).
  unfold ids in Hi. revert Hi. generalize (rd_steps d) as l. induction l as [|s l IH]; intros Hi; [constructor|].
  rewrite fmap_cons, NoDup_cons in Hi. destruct Hi as [Hs Hi]. rewrite filter_cons. case_decide; [|by apply IH].
  rewrite fmap_cons. constructor; [|by apply IH]. intros Hin. apply Hs. apply list_elem_of_fmap in Hin as (t & -> & [_ Ht]%list_elem_of_filter).
  by apply list_elem_of_fmap_2.
Qed.

Lemma wf_updateStep d id p : wf d → sp_id p = None → wf (updateStep d id p).
Proof.
  intros Hw Hp. unfold updateStep. destruct (sp_phase p) eqn:Eph.
  - apply wf_withSteps. rewrite map_step_id; [apply (wf_ids d Hw)|]. intros s. cbn. by rewrite Hp.
  - apply wf_map_step; [done|]. intros s _ _. cbn. by rewrite Hp, Eph.
Qed.

Lemma wf_changeKind d id kind : wf d → wf (changeKind d id kind).
Proof. intros Hw. by apply wf_map_step. Qed.

Lemma wf_switchStepKind d id kind aside : wf d → wf (switchStepKind d id kind aside).1.
Proof.
  intros Hw. unfold switchStepKind. destruct (find_step id (rd_steps d)) as [step|] eqn:E; [|done]. case_decide; [done|].
  apply find_step_Some in E as [Hin Hid]. apply wf_map_step; [done|]. intros s Hs Hsid.
  assert (s = step) as -> by (eapply (NoDup_id_eq (rd_steps d)); [apply (wf_ids d Hw)|done|done|congruence]).
  unfold restore_fields. cbn. by destruct (decide (kind = KDecision)).
Qed.

Lemma rename_mark_inj from to m m' :
  m ≠ to → m' ≠ to → rename_mark from to m = rename_mark from to m' → m = m'.
Proof. unfold rename_mark. repeat case_decide; congruence. Qed.

Lemma wf_renameStepId d from to : wf d → to ∉ ids d → wf (renameStepId d from to).
Proof.
  intros [Hg Hp Hi] Hto. unfold renameStepId. case_decide; [done|].
  assert (Eph : rs_phase <$> ((λ s, st_options ((λ o, mkOption (do_id o) (do_label o) (rename_mark from to <$> do_marks o)) <$> rs_options s)
                          (st_id (rename_mark from to (rs_id s)) s)) <$> rd_steps d) = rs_phase <$> rd_steps d).
  { rewrite <-list_fmap_compose. by apply list_fmap_ext. }
  split; unfold ids, set_steps; cbn [rd_steps rd_phases with_steps_phases].
  - eapply grouped_phases; [symmetry; exact Eph|done].
  - rewrite Hp. apply phasesOf_phases. intros p. by rewrite Eph.
  - rewrite <-list_fmap_compose. rewrite (list_fmap_ext _ (rename_mark from to ∘ rs_id)) by done.
    rewrite list_fmap_compose. unfold ids in *. revert Hi Hto. generalize (rs_id <$> rd_steps d) as l. clear.
    induction l as [|m l IH]; intros Hn Hto; cbn; [constructor|]. apply NoDup_cons in Hn as [Hm Hn].
    apply not_elem_of_cons in Hto as [Hto1 Hto2]. constructor; [|by apply IH].
    intros (m' & E & Hm')%list_elem_of_fmap. apply rename_mark_inj in E; [by subst|congruence|]. by intros ->.
Qed.

Lemma NoDup_filter_ids (P : RunbookStep → Prop) `{∀ s, Decision (P s)} steps :
    NoDup (rs_id <$> steps) → NoDup (rs_id <$> filter P steps).
Proof.
  induction steps as [|s l IH]; intros Hn; [constructor|]. rewrite fmap_cons, NoDup_cons in Hn. destruct Hn as [Hs Hn]. rewrite filter_cons.
  case_decide; [|by apply IH]. rewrite fmap_cons. constructor; [|by apply IH].
  intros Hin. apply Hs. apply list_elem_of_fmap in Hin as (t & -> & [_ Ht]%list_elem_of_filter). by apply list_elem_of_fmap_2.
Qed.

(** A step taken out and put back elsewhere, in any phase. *)
Lemma ids_replaced i p step steps :
  NoDup (rs_id <$> steps) → step ∈ steps →
  NoDup (rs_id <$> splice i (st_phase p step) (filter (λ s, rs_id s ≠ rs_id step) steps)).
Proof.
  intros Hn Hin. rewrite splice_Permutation, fmap_cons. constructor; [|by apply NoDup_filter_ids].
  intros (t & E & [Ht _]%list_elem_of_filter)%list_elem_of_fmap. cbn in E. congruence.
Qed.

Lemma wf_moveStepBefore d id b p : wf d → wf (moveStepBefore d id b p).
Proof.
  intros Hw. unfold moveStepBefore. case_decide; [done|]. destruct (find_step id _) as [step|] eqn:E; [|done].
  apply find_step_Some in E as [Hin <-]. apply wf_withSteps, ids_replaced; [apply (wf_ids d Hw)|done].
Qed.

Definition swapped (l : list RunbookStep) (i j : nat) (a b : RunbookStep) : list RunbookStep := <[j := a]> (<[i := b]> l).

Lemma swap_phases (l : list RunbookStep) i j a b :
  l !! i = Some a → l !! j = Some b → rs_phase b = rs_phase a → rs_phase <$> swapped l i j a b = rs_phase <$> l.
Proof.
  intros Ha Hb E. unfold swapped. rewrite !list_fmap_insert. rewrite E.
  rewrite (list_insert_id (rs_phase <$> l) i); [|by rewrite list_lookup_fmap, Ha].
  apply list_insert_id. rewrite list_lookup_fmap, Hb. cbn. by rewrite E.
Qed.

Lemma swap_Permutation (l : list RunbookStep) i j a b :
  l !! i = Some a → l !! j = Some b → i ≠ j → swapped l i j a b ≡ₚ l.
Proof. intros Ha Hb Hne. unfold swapped. rewrite list_insert_insert_ne by done. by apply Permutation_insert_swap. Qed.

Lemma beside_ne i dir j : beside i dir = Some j → i ≠ j.
Proof. destruct dir; simpl; [destruct i; [done|]|]; intros [= <-]; lia. Qed.

(** What [moveStep] found. *)
Lemma moveStep_cases d id dir :
  moveStep d id dir = d ∨
  ∃ i j step next, rd_steps d !! i = Some step ∧ rs_id step = id ∧ beside i dir = Some j ∧ rd_steps d !! j = Some next ∧
    step_at id (rd_steps d) = Some i ∧
    ((rs_phase next = rs_phase step ∧ moveStep d id dir = set_steps (swapped (rd_steps d) i j step next) d) ∨
     (rs_phase next ≠ rs_phase step ∧ ∃ k,
        moveStep d id dir = withSteps d (splice k (st_phase (rs_phase next) step) (filter (λ s, rs_id s ≠ id) (rd_steps d))))).
Proof.
  unfold moveStep. destruct (step_at id (rd_steps d)) as [i|] eqn:Ei; [|by left].
  destruct (step_at_Some _ _ _ Ei) as (step & Hi & Hid). rewrite Hi.
  destruct (beside i dir) as [j|] eqn:Ej; cbn [mbind option_bind]; [|by left].
  destruct (rd_steps d !! j) as [next|] eqn:Hj; cbn [fmap option_fmap option_map]; [|by left].
  right. exists i, j, step, next. split_and!; [done..|]. destruct (decide (rs_phase next = rs_phase step)) as [E|E].
  - left. done.
  - right. split; [done|]. by eexists.
Qed.

Lemma wf_moveStep d id dir : wf d → wf (moveStep d id dir).
Proof.
  intros Hw. destruct (moveStep_cases d id dir) as [->|(i & j & step & next & Hi & <- & Hb & Hj & _ & [[E ->]|[E [k ->]]])]; [done| |].
  - apply wf_set_steps; [done|by apply swap_phases|]. unfold ids. apply fmap_Permutation. apply swap_Permutation; [done|done|by eapply beside_ne].
  - apply wf_withSteps, ids_replaced; [apply (wf_ids d Hw)|by eapply list_elem_of_lookup_2].
Qed.

Lemma wf_updateLookup d id p : wf d → wf (updateLookup d id p).
Proof. intros Hw. apply wf_map_step; [done|]. intros s _ _. by destruct (rs_lookup s). Qed.

Lemma wf_setOptions d id o : wf d → wf (setOptions d id o).
Proof. intros Hw. by apply wf_map_step. Qed.

Lemma wf_blank n : wf (blankDefinition n).
Proof. split; [repeat constructor|reflexivity|apply NoDup_singleton]. Qed.

(** ** Steps of every kind carry their kind's fields *)
Record typed (s : RunbookStep) : Prop := {
  ty_lookup : is_Some (rs_lookup s) ↔ rs_kind s = KLookup;
  ty_options : rs_options s ≠ [] ↔ rs_kind s = KDecision;
  ty_escalate : guided (rs_kind s) = false → rs_escalate_if s = None;
  ty_benign : guided (rs_kind s) = false → rs_benign_if s = None;
  ty_approval : approved (rs_kind s) = false → rs_approval_role s = None;
}.

Lemma kindDefaults_typed s kind : typed (kindDefaults s kind).
Proof.
  unfold kindDefaults. constructor; cbn [rs_lookup rs_kind rs_options rs_escalate_if rs_benign_if rs_approval_role st_fields].
  - destruct (decide (kind = KLookup)); [done|]. by split; [intros [? ?]|].
  - destruct (decide (kind = KDecision)); [|done]. by destruct (rs_options s).
  - by intros ->.
  - by intros ->.
  - by intros ->.
Qed.

Lemma kindDefaults_id s : typed s → kindDefaults s (rs_kind s) = s.
Proof.
  intros [Hl Ho He Hb Ha]. unfold kindDefaults, st_fields. destruct s as [a1 a2 k a4 a5 a6 esc ben a9 a10 a11 app a13 lk opts a16 a17]. cbn in *. f_equal.
  - destruct (guided k); [done|by rewrite He].
  - destruct (guided k); [done|by rewrite Hb].
  - destruct (approved k); [done|by rewrite Ha].
  - destruct (decide (k = KLookup)) as [->|Hk]; [destruct lk; [done|]|destruct lk; [|done]].
    + by destruct (proj2 Hl eq_refl).
    + by destruct Hk; apply Hl.
  - destruct (decide (k = KDecision)) as [->|Hk]; [destruct opts; [|done]|destruct opts; [done|]].
    + by destruct (proj2 Ho eq_refl).
    + by destruct Hk; apply Ho.
Qed.

Lemma restore_fields_typed kind kept step : typed (restore_fields kind kept step).
Proof.
  unfold restore_fields. set (s0 := if decide (kind = KDecision) then _ else step).
  pose proof (kindDefaults_typed s0 kind) as [Hl Ho He Hb Ha].
  constructor; cbn [rs_lookup rs_kind rs_options rs_escalate_if rs_benign_if rs_approval_role st_fields].
  - change (rs_kind (kindDefaults s0 kind)) with kind in *. destruct (decide (kind = KLookup)) as [->|Hk].
    + by destruct (kf_lookup kept) as [[l|]|].
    + exact Hl.
  - exact Ho.
  - intros Hg. rewrite Hg. by apply He.
  - intros Hg. rewrite Hg. by apply Hb.
  - intros Hg. rewrite Hg. by apply Ha.
Qed.
