(* ===== verification/RunbookSlug.v ===== *)
(** * Runbooks: slugs and runbook ids (soc/runbooks/editor/draft.ts, soc/runbooks/shared/labels.ts)

    The loops that make an id unique end, and the id they end with is new and valid. *)

From S2P Require Import Prelude Runbook.
From stdpp Require Import pretty.
From Stdlib Require Import Ascii.
From Stdlib Require String.

Lemma chars_of_chars l : chars (of_chars l) = l.
Proof. apply String.list_ascii_of_string_of_list_ascii. Qed.

Lemma of_chars_chars s : of_chars (chars s) = s.
Proof. apply String.string_of_list_ascii_of_string. Qed.

Lemma chars_inj s t : chars s = chars t → s = t.
Proof. intros E. by rewrite <-(of_chars_chars s), E, of_chars_chars. Qed.

Lemma chars_app s t : chars (s +:+ t) = chars s ++ chars t.
Proof. induction s as [|c s IH]; [done|]. change (c :: chars (s +:+ t) = c :: chars s ++ chars t). by rewrite IH. Qed.

(** ** The suffix *)
Definition digit (c : ascii) : Prop := is_slug_char c = true ∧ c ≠ dash.

Lemma pretty_char_digit n : digit (pretty_N_char n).
Proof. unfold pretty_N_char, digit. by repeat case_match. Qed.

Lemma pretty_go_spec n s k :
  Forall digit (chars s) → (n < 10 ^ N.of_nat k)%N →
  Forall digit (chars (pretty_N_go n s)) ∧ length (chars (pretty_N_go n s)) ≤ k + length (chars s).
Proof.
  revert n s. induction k as [|k IH]; intros n s Hs Hn.
  { assert (n = 0%N) as -> by (simpl in Hn; lia). rewrite pretty_N_go_0. split; [done|lia]. }
  destruct (decide (n = 0)%N) as [->|Hne]; [rewrite pretty_N_go_0; split; [done|lia]|].
  rewrite pretty_N_go_step by lia.
  destruct (IH (n `div` 10)%N (String.String (pretty_N_char (n `mod` 10)) s)) as [H1 H2].
  - cbn. constructor; [apply pretty_char_digit|done].
  - apply N.Div0.div_lt_upper_bound. rewrite Nat2N.inj_succ, N.pow_succ_r' in Hn. done.
  - split; [done|]. unfold chars in *. simpl in H2. lia.
Qed.

Lemma pretty_spec (n : N) k : (n < 10 ^ N.of_nat k)%N → k ≠ 0 → Forall digit (chars (pretty n)) ∧ length (chars (pretty n)) ≤ k.
Proof.
  intros Hn Hk. unfold pretty, pretty_N. case_decide; [split; [by repeat constructor|simpl; lia]|].
  destruct (pretty_go_spec n "" k) as [H1 H2]; [constructor|done|]. split; [done|]. unfold chars in *. simpl in H2. lia.
Qed.

Lemma pretty_digits (n : N) : Forall digit (chars (pretty n)).
Proof.
  destruct (decide (n = 0)%N) as [->|Hn]; [by repeat constructor|].
  apply (pretty_spec n (N.to_nat n)); [|lia]. rewrite N2Nat.id. by apply N.pow_gt_lin_r.
Qed.

Definition suffix_of (n : nat) : list ascii := dash :: chars (pretty (N.of_nat n)).

Lemma digits_no_dash l : Forall digit l → dash ∉ l.
Proof. rewrite Forall_forall. intros Hl Hin. by destruct (Hl _ Hin). Qed.

Lemma suffix_inj x y n m : x ++ suffix_of n = y ++ suffix_of m → n = m.
Proof.
  unfold suffix_of. intros E.
  assert (Hcut : ∀ a b d e : list ascii, dash ∉ e → a ++ dash :: d = b ++ dash :: e → dash ∉ d → d = e).
  { intros a b d e He Hab Hd. apply app_eq_inv in Hab as [([|c k] & -> & E')|([|c k] & -> & E')]; cbn in E'.
    - by injection E'.
    - injection E' as <- ->. destruct He. set_solver.
    - by injection E'.
    - injection E' as <- ->. destruct Hd. set_solver. }
  apply Hcut in E; [|apply digits_no_dash, pretty_digits..].
  apply chars_inj in E. apply (inj pretty) in E. lia.
Qed.

Lemma candidate_inj base max n m : candidate base max n = candidate base max m → n = m.
Proof.
  unfold candidate. intros E%(f_equal chars). rewrite !chars_of_chars in E. by apply suffix_inj in E.
Qed.

(** ** The loop ends: among more candidates than ids taken, one is new *)
Lemma unique_from_fresh fuel base max used n c :
  unique_from fuel base max used n = Some c → (c ∉ used) ∧ ∃ m, n ≤ m < n + fuel ∧ c = candidate base max m.
Proof.
  revert n. induction fuel as [|fuel IH]; intros n; [done|]. simpl. case_bool_decide as Hin.
  - intros (Hc & m & Hm & ->)%IH. split; [done|]. exists m. split; [lia|done].
  - intros [= <-]. split; [done|]. exists n. split; [lia|done].
Qed.

Lemma unique_from_None fuel base max used n :
  unique_from fuel base max used n = None → ∀ m, n ≤ m < n + fuel → candidate base max m ∈ used.
Proof.
  revert n. induction fuel as [|fuel IH]; intros n; [intros _ m Hm; lia|]. simpl. case_bool_decide as Hin; [|done].
  intros Hnone m Hm. destruct (decide (m = n)) as [->|Hne]; [done|]. apply (IH (S n) Hnone). lia.
Qed.

Lemma unique_from_total base max used n fuel :
  length used < fuel → is_Some (unique_from fuel base max used n).
Proof.
  intros Hf. destruct (unique_from fuel base max used n) as [c|] eqn:E; [done|exfalso].
  pose proof (unique_from_None _ _ _ _ _ E) as Hall.
  assert (Hsub : (candidate base max <$> seq n fuel) ⊆ used).
  { intros c (m & -> & Hm)%list_elem_of_fmap. apply elem_of_seq in Hm. apply Hall. lia. }
  assert (Hnd : NoDup (candidate base max <$> seq n fuel)).
  { apply NoDup_fmap_2; [intros x y; apply candidate_inj|apply NoDup_seq]. }
  pose proof (submseteq_length _ _ (NoDup_submseteq _ _ Hnd Hsub)) as Hle. rewrite length_fmap, length_seq in Hle. lia.
Qed.

Section slugs.
Context `{Folding}.

Lemma uniqueSlug_total fuel text taken max fallback :
  length taken < fuel → ∃ id, uniqueSlug fuel text taken max fallback = Some id ∧ (id ∉ taken).
Proof.
  intros Hf. unfold uniqueSlug. case_bool_decide as Hin; [|by eexists].
  destruct (unique_from_total (slugify text max fallback) max taken 2 fuel Hf) as [c Hc].
  exists c. split; [done|]. by apply unique_from_fresh in Hc as [? _].
Qed.

(** ** The grammar of slugs *)
Definition plain (c : ascii) : Prop := is_slug_char c = true ∨ c = dash.

(** Letters, digits and dashes, from a letter or digit on. *)
Definition slug_like (l : list ascii) : Prop := ∃ c rest, l = c :: rest ∧ is_slug_char c = true ∧ Forall plain rest.

Lemma slug_not_dash : is_slug_char dash = false.
Proof. done. Qed.

Lemma dash_runs_plain b l : Forall plain (dash_runs b l).
Proof.
  revert b. induction l as [|c l IH]; intros b; simpl; [constructor|].
  destruct (is_slug_char c) eqn:E; [constructor; [by left|done]|]. destruct b; [done|]. constructor; [by right|done].
Qed.

Lemma drop_dashes_plain l : Forall plain l → drop_dashes l = [] ∨ slug_like (drop_dashes l).
Proof.
  induction 1 as [|c l Hc Hl IH]; simpl; [by left|]. case_decide as E; [done|]. right. exists c, l.
  destruct Hc; done.
Qed.

Lemma drop_dashes_suffix l : ∃ k, l = replicate k dash ++ drop_dashes l.
Proof.
  induction l as [|c l [k IH]]; [by exists 0|]. simpl. case_decide as E; [subst c; exists (S k); simpl; by f_equal|by exists 0].
Qed.

Lemma trim_end_prefix l : ∃ k, l = trim_end_dashes l ++ replicate k dash.
Proof.
  unfold trim_end_dashes. destruct (drop_dashes_suffix (reverse l)) as [k E]. exists k.
  rewrite <-(reverse_involutive l) at 1. rewrite E at 1. rewrite reverse_app, reverse_replicate. done.
Qed.

Lemma trim_end_slug l : slug_like l → slug_like (trim_end_dashes l).
Proof.
  intros (c & rest & -> & Hc & Hr). destruct (trim_end_prefix (c :: rest)) as [k E].
  destruct (trim_end_dashes (c :: rest)) as [|d t] eqn:Et.
  - destruct k; [done|]. simpl in E. injection E as -> _. by rewrite slug_not_dash in Hc.
  - simpl in E. injection E as <- E. exists c, t. split_and!; [done|done|]. rewrite E in Hr. by apply Forall_app in Hr as [? _].
Qed.

Lemma length_trim_end l : length (trim_end_dashes l) ≤ length l.
Proof. destruct (trim_end_prefix l) as [k E]. rewrite E at 2. rewrite length_app. lia. Qed.

Lemma take_slug n l : slug_like l → take n l = [] ∨ slug_like (take n l).
Proof.
  intros (c & rest & -> & Hc & Hr). destruct n as [|n]; [by left|right]. exists c, (take n rest). split_and!; [done|done|by apply Forall_take].
Qed.

Lemma take_slug_pos n l : slug_like l → n ≠ 0 → slug_like (take n l).
Proof. intros Hl Hn. destruct (take_slug n l Hl) as [E|Hs]; [|done]. destruct Hl as (c & r & -> & _), n; done. Qed.

Lemma slugify_slug text max fallback :
  slug_like (chars fallback) → length (chars fallback) ≤ max →
  slug_like (chars (slugify text max fallback)) ∧ length (chars (slugify text max fallback)) ≤ max.
Proof.
  intros Hf Hlen. unfold slugify. set (l := trim_end_dashes (drop_dashes (dash_runs false (chars (fold_text text))))).
  assert (Hl : l = [] ∨ slug_like l).
  { destruct (drop_dashes_plain (dash_runs false (chars (fold_text text)))) as [E|Hs]; [apply dash_runs_plain| |].
    - left. unfold l. by rewrite E.
    - right. by apply trim_end_slug. }
  case_decide as E; [done|]. rewrite chars_of_chars. pose proof (length_trim_end (take max l)). pose proof (length_take l max).
  split; [|lia]. destruct Hl as [->|Hl]; [by rewrite take_nil in E|].
  destruct (take_slug max l Hl) as [E'|Hs]; [by rewrite E' in E|by apply trim_end_slug].
Qed.

Lemma candidate_slug base max n :
  slug_like (chars base) → length (suffix_of n) < max →
  slug_like (chars (candidate base max n)) ∧ length (chars (candidate base max n)) ≤ max.
Proof.
  intros Hb Hs. unfold candidate. fold (suffix_of n). rewrite chars_of_chars. unfold slice_to. rewrite (proj2 (Nat.leb_le _ _)) by lia.
  pose proof (trim_end_slug _ (take_slug_pos (max - length (suffix_of n)) (chars base) Hb ltac:(lia))) as (c & r & E & Hc & Hr).
  pose proof (length_trim_end (take (max - length (suffix_of n)) (chars base))) as Hlen. rewrite length_take in Hlen. rewrite E in *.
  split; [|rewrite length_app; lia]. exists c, (r ++ suffix_of n). split_and!; [done|done|]. apply Forall_app. split; [done|].
  constructor; [by right|]. eapply Forall_impl; [apply pretty_digits|]. intros d [Hd _]. by left.
Qed.

Lemma slug_pattern id : slug_like (chars id) → length (chars id) ≤ 64 → RUNBOOK_ID_PATTERN id = true.
Proof.
  intros (c & r & E & Hc & Hr) Hlen. unfold RUNBOOK_ID_PATTERN. rewrite E in *. rewrite Hc, !andb_true_iff. split_and!; [done| |].
  - apply Is_true_true, forallb_True. eapply Forall_impl; [exact Hr|]. intros d Hd. unfold is_id_char.
    apply Is_true_true. destruct Hd as [->| ->]; [done|reflexivity].
  - apply Nat.leb_le. simpl in Hlen. lia.
Qed.

(** A unique slug keeps the grammar. *)
Lemma uniqueSlug_slug fuel text taken fallback id :
  slug_like (chars fallback) → length (chars fallback) ≤ 64 → (N.of_nat (fuel + 2) < 10 ^ 40)%N →
  uniqueSlug fuel text taken 64 fallback = Some id → slug_like (chars id) ∧ length (chars id) ≤ 64.
Proof.
  intros Hf Hlen Hfuel. unfold uniqueSlug. destruct (slugify_slug text 64 fallback Hf Hlen) as [Hs Hl].
  case_bool_decide; [|by intros [= <-]]. intros (_ & m & Hm & ->)%unique_from_fresh. apply candidate_slug; [done|].
  unfold suffix_of. simpl. destruct (pretty_spec (N.of_nat m) 40) as [_ Hp]; [change (N.of_nat 40) with 40%N; lia|done|]. lia.
Qed.

(** ** Runbook ids *)

(** No reserved id begins with a reserved id and "-runbook". *)
Lemma reserved_prefix :
  Forall (λ r, Forall (λ s, take (length (chars (r +:+ "-runbook"))) (chars s) ≠ chars (r +:+ "-runbook")) RESERVED_RUNBOOK_IDS)
    RESERVED_RUNBOOK_IDS.
Proof. apply (bool_decide_unpack _). vm_compute. exact I. Qed.

Lemma not_reserved r t id :
  r ∈ RESERVED_RUNBOOK_IDS → chars id = chars (r +:+ "-runbook") ++ t → id ∉ RESERVED_RUNBOOK_IDS.
Proof.
  intros Hr E Hin. pose proof reserved_prefix as Hall. rewrite Forall_forall in Hall. specialize (Hall r Hr). rewrite Forall_forall in Hall.
  apply (Hall id Hin). rewrite E. by rewrite take_app_length.
Qed.

Lemma reserved_slug r :
  r ∈ RESERVED_RUNBOOK_IDS → slugify (r +:+ "-runbook") 64 "runbook" = (r +:+ "-runbook") ∧
    trim_end_dashes (chars (r +:+ "-runbook")) = chars (r +:+ "-runbook") ∧ length (chars (r +:+ "-runbook")) ≤ 21.
Proof.
  intros Hr. unfold RESERVED_RUNBOOK_IDS in Hr.
  repeat (apply elem_of_cons in Hr as [->|Hr]; [split; [|split; [by vm_compute|by apply Nat.leb_le]];
    unfold slugify; rewrite fold_plain; [by vm_compute|];
    apply (bool_decide_unpack _); by vm_compute|]).
  by apply elem_of_nil in Hr.
Qed.

(** The id made from a reserved one is not reserved. *)
Lemma unique_runbook_free fuel r taken id :
  r ∈ RESERVED_RUNBOOK_IDS → (N.of_nat (fuel + 2) < 10 ^ 40)%N →
  uniqueSlug fuel (r +:+ "-runbook") taken 64 "runbook" = Some id → id ∉ RESERVED_RUNBOOK_IDS.
Proof.
  intros Hr Hfuel. destruct (reserved_slug r Hr) as (Hs & Ht & Hlen). unfold uniqueSlug. rewrite Hs.
  case_bool_decide; [|intros [= <-]; apply (not_reserved r []); [done|by rewrite app_nil_r]].
  intros (_ & m & Hm & ->)%unique_from_fresh. apply (not_reserved r (suffix_of m)); [done|].
  unfold candidate. rewrite chars_of_chars. fold (suffix_of m).
  destruct (pretty_spec (N.of_nat m) 40) as [_ Hp]; [change (N.of_nat 40) with 40%N; lia|done|].
  assert (Hsuf : length (suffix_of m) ≤ 41) by (unfold suffix_of; simpl; lia).
  unfold slice_to. rewrite (proj2 (Nat.leb_le _ _)) by lia. rewrite take_ge by lia. by rewrite Ht.
Qed.

(** A new runbook always gets an id, and a good one: whatever its title and whichever ids are
    taken (fewer than 10^40 of them), both loops end, within as many tries as ids are taken and
    one more, with an id that is not taken, is not reserved and fits the grammar of ids. *)
Theorem runbookIdFromTitle_valid title taken :
  (N.of_nat (length taken + 3) < 10 ^ 40)%N →
  ∃ id, runbookIdFromTitle 1 (S (length taken)) title taken = Some id ∧ isValidRunbookId id = true ∧ (id ∉ taken).
Proof.
  intros Hfuel. set (fuel := S (length taken)). assert (Hf : (N.of_nat (fuel + 2) < 10 ^ 40)%N) by (unfold fuel; lia).
  assert (Hfb : slug_like (chars "runbook") ∧ length (chars "runbook") ≤ 64).
  { split; [|by apply Nat.leb_le]. exists "r"%char, (chars "unbook"). split_and!; [done|done|].
    apply (bool_decide_unpack _). by vm_compute. }
  destruct Hfb as [Hfb1 Hfb2].
  assert (Hone : ∀ text id, uniqueSlug fuel text taken 64 "runbook" = Some id →
    (isValidRunbookId id = true ∨ id ∈ RESERVED_RUNBOOK_IDS)).
  { intros text id Hid. destruct (uniqueSlug_slug fuel text taken "runbook" id Hfb1 Hfb2 Hf Hid) as [H1 H2].
    unfold isValidRunbookId. rewrite (slug_pattern id H1 H2). case_bool_decide; auto. }
  unfold runbookIdFromTitle. destruct (uniqueSlug_total fuel title taken 64 "runbook") as (id & Hid & Hnew); [unfold fuel; lia|].
  rewrite Hid. cbn [mbind option_bind]. destruct (isValidRunbookId id) eqn:Ev; [exists id; cbn; by rewrite Ev|].
  assert (Hr : id ∈ RESERVED_RUNBOOK_IDS) by (destruct (Hone _ _ Hid); [congruence|done]).
  destruct (uniqueSlug_total fuel (id +:+ "-runbook") taken 64 "runbook") as (id2 & Hid2 & Hnew2); [unfold fuel; lia|].
  exists id2. cbn [valid_from]. rewrite Ev, Hid2. cbn [mbind option_bind].
  assert (Ev2 : isValidRunbookId id2 = true).
  { destruct (Hone _ _ Hid2) as [|Hbad]; [done|]. by apply unique_runbook_free in Hid2. }
  cbn [valid_from]. by rewrite Ev2.
Qed.
End slugs.

(** A platform that only knows ASCII lower case. *)
Definition ascii_folding : Folding.
Proof. refine {| fold_text := λ s, s |}. done. Defined.

Lemma runbookIdFromTitle_valid_witness :
  let F := ascii_folding in
  runbookIdFromTitle 1 2 "new" ["a"] = Some "new-runbook" ∧
  ∃ id, runbookIdFromTitle 1 2 "new" ["new-runbook"] = Some id ∧ isValidRunbookId id = true ∧ (id ∉ ["new-runbook"]).
Proof.
  cbv zeta. split; [vm_compute; reflexivity|]. exact (@runbookIdFromTitle_valid ascii_folding "new" ["new-runbook"] eq_refl).
Defined.
