(* ===== verification/RunbookEdits.v ===== *)
(** * Runbooks: the editor's edits as one step function, and what they keep

    Any sequence of edits keeps the shape of the working copy, the fields of each kind of step and
    the references between steps; a move changes one place; trying other kinds loses nothing. *)

From S2P Require Import Prelude Runbook RunbookSpec RunbookSlug.
Local Open Scope Z_scope.

(** ** Every edit of soc/runbooks/editor/draft.ts *)
Inductive edit :=
  | EdAdd (phase : PhaseId) (kind : StepKind)
  | EdAddPhase (phase : PhaseId)
  | EdRemove (id : string)
  | EdUpdate (id : string) (p : StepPatch)
  | EdKind (id : string) (kind : StepKind)
  | EdSwitch (id : string) (kind : StepKind) (aside : option KindFields)
  | EdRename (from to : string)
  | EdMove (id : string) (dir : Direction)
  | EdMoveBefore (id : string) (before : option string) (phase : PhaseId)
  | EdLookup (id : string) (p : LookupPatch)
  | EdOptions (id : string) (options : list DecisionOption).

Section edits.
Context `{Folding}.

Definition run_edit (e : edit) (d : RunbookDefinition) : RunbookDefinition :=
  match e with
  | EdAdd phase kind => from_option fst d (addStep d phase kind)
  | EdAddPhase phase => from_option fst d (addPhase d phase)
  | EdRemove id => removeStep d id
  | EdUpdate id p => updateStep d id p
  | EdKind id kind => changeKind d id kind
  | EdSwitch id kind aside => (switchStepKind d id kind aside).1
  | EdRename from to => renameStepId d from to
  | EdMove id dir => moveStep d id dir
  | EdMoveBefore id b phase => moveStepBefore d id b phase
  | EdLookup id p => updateLookup d id p
  | EdOptions id options => setOptions d id options
  end.

Definition run_edits (es : list edit) (d : RunbookDefinition) : RunbookDefinition := foldl (λ d e, run_edit e d) d es.

(** A condition on every edit of a sequence, at the definition it meets. *)
Fixpoint all_edits (P : edit → RunbookDefinition → Prop) (es : list edit) (d : RunbookDefinition) : Prop :=
  match es with
  | [] => True
  | e :: es' => P e d ∧ all_edits P es' (run_edit e d)
  end.

Lemma edits_induct (P : edit → RunbookDefinition → Prop) (I : RunbookDefinition → Prop) es d :
  (∀ e d, I d → P e d → I (run_edit e d)) → I d → all_edits P es d → I (run_edits es d).
Proof. intros Hs. revert d. induction es as [|e es IH]; intros d Hd; [done|]. intros [He Hes]. apply IH; auto. Qed.

(** A patch leaves ids alone, and a rename takes a free id. *)
Definition keeps_ids (e : edit) (d : RunbookDefinition) : Prop :=
  match e with
  | EdUpdate _ p => sp_id p = None
  | EdRename _ to => to ∉ ids d
  | _ => True
  end.

(** Adding a step never fails, and its id is new. *)
Lemma addStep_total d phase kind :
  ∃ id, addStep d phase kind =
    Some (withSteps d (rd_steps d ++ [kindDefaults (blankStep id phase kind "") kind]), id) ∧ (id ∉ ids d).
Proof.
  unfold addStep. destruct (uniqueSlug_total (S (length (rd_steps d))) (kind_name kind) (ids d) 64 "step") as (id & Hid & Hnew).
  - unfold ids. rewrite length_fmap. lia.
  - exists id. unfold ids in Hid. by rewrite Hid.
Qed.

Lemma wf_addStep d phase kind : wf d → wf (from_option fst d (addStep d phase kind)).
Proof.
  intros Hw. destruct (addStep_total d phase kind) as (id & -> & Hnew). cbn. apply wf_withSteps.
  rewrite fmap_app. apply NoDup_app. split_and!; [apply (wf_ids d Hw)| |apply NoDup_singleton].
  intros x Hx Hin. cbn in Hin. apply list_elem_of_singleton in Hin. subst x. done.
Qed.

Lemma wf_run_edit e d : wf d → keeps_ids e d → wf (run_edit e d).
Proof.
  intros Hw Hok. destruct e; cbn [run_edit keeps_ids] in *.
  - by apply wf_addStep.
  - by apply wf_addStep.
  - by apply wf_removeStep.
  - by apply wf_updateStep.
  - by apply wf_changeKind.
  - by apply wf_switchStepKind.
  - by apply wf_renameStepId.
  - by apply wf_moveStep.
  - by apply wf_moveStepBefore.
  - by apply wf_updateLookup.
  - by apply wf_setOptions.
Qed.

(** C15. Whatever is edited, in any order, the working copy keeps its shape: steps grouped by phase
    in the phase order, the phases exactly the ones in use, every step id its own; and a step can
    always be added, under an id that is free. *)
Theorem edits_keep_shape es d :
  wf d → all_edits keeps_ids es d →
  grouped (rd_steps (run_edits es d)) ∧ rd_phases (run_edits es d) = phasesOf (rd_steps (run_edits es d)) ∧
  NoDup (ids (run_edits es d)) ∧
  ∀ phase kind, ∃ d' id, addStep (run_edits es d) phase kind = Some (d', id) ∧ (id ∉ ids (run_edits es d)) ∧
    id ∈ ids d' ∧ stepsInPhase d' phase = stepsInPhase (run_edits es d) phase ++ [kindDefaults (blankStep id phase kind "") kind].
Proof.
  intros Hw Hok. assert (wf (run_edits es d)) as [Hg Hp Hi] by (eapply edits_induct; [apply wf_run_edit|done..]).
  split_and!; [done..|]. intros phase kind. destruct (addStep_total (run_edits es d) phase kind) as (id & -> & Hnew).
  eexists _, _. split_and!; [done|done| |].
  - unfold ids, withSteps. cbn. rewrite regroup_Permutation, fmap_app. set_solver.
  - rewrite !stepsInPhase_eq. unfold withSteps. cbn [rd_steps with_steps_phases]. rewrite regroup_phase, filter_app. f_equal.
    rewrite filter_cons_True; done.
Qed.

(** ** The fields of each kind *)

(** A form edits the fields its step's kind carries; options are set on Decisions, never to none. *)
Definition keeps_kinds (e : edit) (d : RunbookDefinition) : Prop :=
  match e with
  | EdUpdate id p =>
      sp_kind p = None ∧ sp_lookup p = None ∧ sp_options p = None ∧
      ∀ s, s ∈ rd_steps d → rs_id s = id →
        (guided (rs_kind s) = false → sp_escalate_if p = None ∧ sp_benign_if p = None) ∧
        (approved (rs_kind s) = false → sp_approval_role p = None)
  | EdOptions id options => options ≠ [] ∧ ∀ s, s ∈ rd_steps d → rs_id s = id → rs_kind s = KDecision
  | _ => True
  end.

Definition all_typed (d : RunbookDefinition) : Prop := Forall typed (rd_steps d).

Lemma typed_fields s s' :
  typed s → rs_kind s' = rs_kind s → rs_escalate_if s' = rs_escalate_if s → rs_benign_if s' = rs_benign_if s →
  rs_approval_role s' = rs_approval_role s → (is_Some (rs_lookup s') ↔ is_Some (rs_lookup s)) →
  (rs_options s' = [] ↔ rs_options s = []) → typed s'.
Proof.
  intros [Hl Ho He Hb Ha] Ek Ee Eb Ea El Eo. constructor.
  - by rewrite Ek, El.
  - rewrite Ek, <-Ho. tauto.
  - by rewrite Ek, Ee.
  - by rewrite Ek, Eb.
  - by rewrite Ek, Ea.
Qed.

Lemma typed_map d id f :
  all_typed d → (∀ s, s ∈ rd_steps d → rs_id s = id → typed s → typed (f s)) → Forall typed (map_step id f (rd_steps d)).
Proof.
  intros Ht Hf. unfold map_step. apply Forall_fmap. apply Forall_forall. intros s Hs. cbn.
  unfold all_typed in Ht. rewrite Forall_forall in Ht. case_decide; [|by apply Ht]. apply Hf; auto.
Qed.

Lemma typed_withSteps d steps : Forall typed steps → all_typed (withSteps d steps).
Proof. intros Ht. unfold all_typed, withSteps. cbn. by rewrite regroup_Permutation. Qed.

Lemma fmap_nil_iff {A B} (f : A → B) l : f <$> l = [] ↔ l = [].
Proof. by destruct l. Qed.

Lemma Forall_find_step id steps step : Forall typed steps → find_step id steps = Some step → typed step.
Proof. intros Ht [Hin _]%find_step_Some. rewrite Forall_forall in Ht. by apply Ht. Qed.

Lemma typed_phase p s : typed s → typed (st_phase p s).
Proof. intros Ht. by apply (typed_fields s). Qed.

Lemma typed_moved i p step steps id :
  Forall typed steps → typed step → Forall typed (splice i (st_phase p step) (filter (λ s, rs_id s ≠ id) steps)).
Proof.
  intros Ht Hs. rewrite splice_Permutation. constructor; [by apply typed_phase|]. by apply Forall_filter.
Qed.

Lemma typed_run_edit e d : all_typed d → keeps_kinds e d → all_typed (run_edit e d).
Proof.
  intros Ht Hok. assert (Hadd : ∀ phase kind, all_typed (from_option fst d (addStep d phase kind))).
  { intros phase kind. destruct (addStep_total d phase kind) as (id & -> & _). cbn. apply typed_withSteps, Forall_app.
    split; [exact Ht|]. constructor; [apply kindDefaults_typed|constructor]. }
  destruct e; cbn [run_edit keeps_kinds] in *; [apply Hadd|apply Hadd|..].
  - apply typed_withSteps, Forall_fmap. eapply Forall_impl; [by apply Forall_filter|]. intros s Hs. cbn. unfold unmark.
    case_decide; [|done]. apply (typed_fields s); try done. apply fmap_nil_iff.
  - destruct Hok as (Hk & Hl & Ho & Hg).
    assert (Hs : Forall typed (map_step id (apply_patch p) (rd_steps d))).
    { apply typed_map; [done|]. intros s Hin Hid [H1 H2 H3 H4 H5]. destruct (Hg s Hin Hid) as [Hg1 Hg2].
      constructor; cbn [apply_patch rs_kind rs_lookup rs_options rs_escalate_if rs_benign_if rs_approval_role]; rewrite ?Hk, ?Hl, ?Ho; cbn [default from_option].
      - done.
      - done.
      - intros E. destruct (Hg1 E) as [-> _]. by apply H3.
      - intros E. destruct (Hg1 E) as [_ ->]. by apply H4.
      - intros E. rewrite (Hg2 E). by apply H5. }
    unfold updateStep. destruct (sp_phase p); [by apply typed_withSteps|exact Hs].
  - apply (typed_map d); [done|]. intros s _ _ _. apply kindDefaults_typed.
  - unfold switchStepKind. destruct (find_step id (rd_steps d)) as [step|] eqn:E; [|done]. case_decide; [done|].
    apply (typed_map d); [done|]. intros s _ _ _. apply restore_fields_typed.
  - unfold renameStepId. case_decide; [done|]. unfold all_typed. apply Forall_fmap. eapply Forall_impl; [exact Ht|].
    intros s Hs. apply (typed_fields s); try done. apply fmap_nil_iff.
  - destruct (moveStep_cases d id dir) as [->|(i & j & step & next & Hi & <- & _ & Hj & _ & [[E ->]|[E [k ->]]])]; [done| |].
    + unfold all_typed, set_steps, swapped. cbn. apply Forall_insert; [apply Forall_insert; [done|]|].
      * by eapply (Forall_lookup_1 typed (rd_steps d)).
      * by eapply (Forall_lookup_1 typed (rd_steps d)).
    + apply typed_withSteps, typed_moved; [done|]. by eapply (Forall_lookup_1 typed (rd_steps d)).
  - unfold moveStepBefore. case_decide; [done|]. destruct (find_step id _) as [step|] eqn:E; [|done].
    apply typed_withSteps, typed_moved; [done|]. by eapply Forall_find_step.
  - apply (typed_map d); [done|]. intros s _ _ Hs. destruct (rs_lookup s) eqn:El; [|done].
    apply (typed_fields s); try done.
  - destruct Hok as [Hne Hk]. apply (typed_map d); [done|]. intros s Hin Hid [H1 H2 H3 H4 H5].
    constructor; try done. cbn. split; [by intros _; apply Hk|done].
Qed.

(** A step carries exactly the fields of its kind, whatever is edited: only a Lookup has a
    lookup and it always has one, only a Decision has options and it always has some, guidance
    lines are on Checks and Decisions, an approval role on Actions and Records. *)
Theorem edits_keep_kinds es d :
  all_typed d → all_edits keeps_kinds es d →
  ∀ s, s ∈ rd_steps (run_edits es d) →
    (is_Some (rs_lookup s) ↔ rs_kind s = KLookup) ∧ (rs_options s ≠ [] ↔ rs_kind s = KDecision) ∧
    (guided (rs_kind s) = false → rs_escalate_if s = None ∧ rs_benign_if s = None) ∧
    (approved (rs_kind s) = false → rs_approval_role s = None).
Proof.
  intros Ht Hok s Hs. assert (all_typed (run_edits es d)) as Hall by (eapply edits_induct; [apply typed_run_edit|done..]).
  unfold all_typed in Hall. rewrite Forall_forall in Hall. destruct (Hall s Hs) as [H1 H2 H3 H4 H5]. split_and!; [done|done|auto|done].
Qed.
End edits.

(** ** Witnesses *)

(** A Check and a Decision in Triage, whose second option skips the Action in Contain. *)
Definition demo_decision : RunbookStep :=
  st_options [mkOption "yes" "Malicious" []; mkOption "no" "Benign" ["block"]] (blankStep "verdict" Triage KDecision "Is it malicious?").
Definition demo_runbook : RunbookDefinition :=
  with_steps_phases [blankStep "first-check" Triage KCheck "Who logged in?"; demo_decision; blankStep "block" Contain KAction "Block"]
    [Triage; Contain] (blankDefinition 180).
Definition demo_edits : list edit :=
  [EdAdd Contain KLookup; EdMove "verdict" MoveDown; EdSwitch "block" KCheck None; EdRemove "first-check"; EdRename "block" "stop-it"].

Lemma wf_demo : wf demo_runbook.
Proof.
  split; [|reflexivity|apply (bool_decide_unpack _); vm_compute; exact I].
  repeat (constructor; [|repeat (constructor; [by vm_compute|]); constructor]). constructor.
Defined.

Lemma demo_typed : all_typed demo_runbook.
Proof. repeat constructor; cbn; try done; by intros [? ?]. Defined.

Lemma edits_keep_shape_witness :
  let F := ascii_folding in
  ids (run_edits demo_edits demo_runbook) = ["verdict"; "stop-it"; "lookup"] ∧
  grouped (rd_steps (run_edits demo_edits demo_runbook)) ∧ NoDup (ids (run_edits demo_edits demo_runbook)).
Proof.
  cbv zeta. split; [vm_compute; reflexivity|].
  destruct (@edits_keep_shape ascii_folding demo_edits demo_runbook wf_demo) as (H1 & _ & H3 & _).
  - do 4 (split; [exact I|]). split; [|exact I]. cbn [keeps_ids]. apply (bool_decide_unpack _). vm_compute. exact I.
  - split; [exact H1|exact H3].
Defined.

Lemma edits_keep_kinds_witness :
  let F := ascii_folding in
  (rs_kind <$> rd_steps (run_edits demo_edits demo_runbook)) = [KDecision; KCheck; KLookup] ∧
  ∀ s, s ∈ rd_steps (run_edits demo_edits demo_runbook) → rs_options s ≠ [] ↔ rs_kind s = KDecision.
Proof.
  cbv zeta. split; [vm_compute; reflexivity|]. intros s Hs.
  destruct (@edits_keep_kinds ascii_folding demo_edits demo_runbook demo_typed ltac:(repeat split) s Hs) as (_ & H2 & _). exact H2.
Defined.
