(* ===== verification/RunbookMoves.v ===== *)
(** * Runbooks: what one move does, and references between steps *)

From S2P Require Import Prelude Runbook RunbookSpec RunbookSlug RunbookEdits.
Local Open Scope Z_scope.

(** ** A move by one place *)
Lemma grouped_insert l i s p :
  grouped l → l !! i = Some s →
  (∀ j t, l !! j = Some t → (j < i)%nat → phaseRank (rs_phase t) ≤ phaseRank p) →
  (∀ j t, l !! j = Some t → (i < j)%nat → phaseRank p ≤ phaseRank (rs_phase t)) →
  grouped (<[i := st_phase p s]> l).
Proof.
  intros Hg. revert i. induction Hg as [|t l Hg IH Ht]; intros i Hi Hlow Hhigh; [done|].
  destruct i as [|i]; cbn in *.
  - injection Hi as ->. constructor; [done|]. apply Forall_forall. intros u [j Hj]%list_elem_of_lookup. cbn.
    apply (Hhigh (S j) u); [done|lia].
  - constructor.
    + apply IH; [done| |]; intros j u Hj Hlt; [apply (Hlow (S j) u)|apply (Hhigh (S j) u)]; (done || lia).
    + apply Forall_insert; [done|]. cbn. apply (Hlow 0%nat t); [done|lia].
Qed.

Lemma filter_all {A} (P : A → Prop) `{∀ x, Decision (P x)} (l : list A) : (∀ x, x ∈ l → P x) → filter P l = l.
Proof.
  induction l as [|x l IH]; intros HP; [done|]. rewrite filter_cons_True by (apply HP; by left). f_equal. apply IH.
  intros y Hy. apply HP. by right.
Qed.

Lemma take_filter_ne l i (s : RunbookStep) :
  NoDup (rs_id <$> l) → l !! i = Some s → filter (λ t, rs_id t ≠ rs_id s) l = take i l ++ drop (S i) l.
Proof.
  revert i. induction l as [|t l IH]; intros i Hn Hi; [done|]. rewrite fmap_cons, NoDup_cons in Hn. destruct Hn as [Ht Hn].
  destruct i as [|i]; cbn in Hi.
  - injection Hi as ->. rewrite filter_cons_False by (intros Hf; by apply Hf). cbn. rewrite drop_0.
    apply filter_all. intros u Hu E. apply Ht. apply list_elem_of_fmap. exists u. by split.
  - rewrite filter_cons_True; [cbn; f_equal; by apply IH|]. intros E. apply Ht. rewrite E.
    apply list_elem_of_fmap. exists s. split; [done|by eapply list_elem_of_lookup_2].
Qed.

Lemma step_at_lookup l i (s : RunbookStep) : NoDup (rs_id <$> l) → l !! i = Some s → step_at (rs_id s) l = Some i.
Proof.
  intros Hn Hi. unfold step_at. destruct (list_find (λ t, rs_id t = rs_id s) l) as [[j t]|] eqn:E.
  - apply list_find_Some in E as (Hj & Hid & _). cbn. f_equal. eapply (NoDup_lookup _ _ _ (rs_id s) Hn); rewrite list_lookup_fmap.
    + by rewrite Hj, <-Hid.
    + by rewrite Hi.
  - apply list_find_None in E. rewrite Forall_forall in E. exfalso. apply (E s); [by eapply list_elem_of_lookup_2|done].
Qed.

Lemma splice_back l i (s t : RunbookStep) : l !! i = Some s → splice i t (take i l ++ drop (S i) l) = <[i := t]> l.
Proof.
  intros Hi. assert (Hlt : (i < length l)%nat) by by eapply lookup_lt_Some.
  assert (Hlen : length (take i l) = i) by (rewrite length_take; lia).
  unfold splice. rewrite take_app_le, take_ge, drop_app_ge by lia. rewrite Hlen, Nat.sub_diag, drop_0.
  by rewrite insert_take_drop.
Qed.

(** What a move means: trade places with the neighbour of the same phase, or stay at the same place
    and take the phase of the neighbour; nothing when there is no neighbour. *)
Definition move_spec (d : RunbookDefinition) (i : nat) (dir : Direction) (step : RunbookStep) : list RunbookStep :=
  match beside i dir ≫= λ j, pair j <$> rd_steps d !! j with
  | None => rd_steps d
  | Some (j, next) =>
      if decide (rs_phase next = rs_phase step) then swapped (rd_steps d) i j step next
      else <[i := st_phase (rs_phase next) step]> (rd_steps d)
  end.

Lemma step_at_filter l i j (s next : RunbookStep) dir :
  NoDup (rs_id <$> l) → l !! i = Some s → l !! j = Some next → beside i dir = Some j →
  step_at (rs_id next) (take i l ++ drop (S i) l) = Some (match dir with MoveUp => j | MoveDown => i end).
Proof.
  intros Hn Hi Hj Hb. assert (Hlt : (i < length l)%nat) by by eapply lookup_lt_Some.
  assert (Hn' : NoDup (rs_id <$> (take i l ++ drop (S i) l))).
  { rewrite <-(take_filter_ne l i s) by done. by apply NoDup_filter_ids. }
  apply step_at_lookup; [done|]. destruct dir; cbn in Hb.
  - destruct i as [|i]; [done|]. injection Hb as <-. rewrite lookup_app_l by (rewrite length_take; lia). rewrite lookup_take_lt; [done|lia].
  - injection Hb as <-. rewrite lookup_app_r by (rewrite length_take; lia). rewrite length_take_le by lia.
    rewrite Nat.sub_diag, lookup_drop, Nat.add_0_r. done.
Qed.

Lemma grouped_lookup l i j (a b : RunbookStep) :
  grouped l → l !! i = Some a → l !! j = Some b → (i ≤ j)%nat → phaseRank (rs_phase a) ≤ phaseRank (rs_phase b).
Proof.
  intros Hg. revert i j. induction Hg as [|t l Hg IH Ht]; intros i j Hi Hj Hij; [done|].
  destruct i as [|i], j as [|j]; cbn in Hi, Hj; [| |lia|].
  - assert (b = a) as -> by congruence. lia.
  - injection Hi as ->. rewrite Forall_forall in Ht. apply Ht. by eapply list_elem_of_lookup_2.
  - apply (IH i j); [done|done|lia].
Qed.

(** The crossing keeps the steps grouped. *)
Lemma crossing_grouped l i j (s next : RunbookStep) dir :
  grouped l → l !! i = Some s → l !! j = Some next → beside i dir = Some j → grouped (<[i := st_phase (rs_phase next) s]> l).
Proof.
  intros Hg Hi Hj Hb. apply (grouped_insert l i s); [done|done| |]; intros k t Hk Hlt; destruct dir; cbn in Hb.
  - destruct i; [done|]. injection Hb as <-. apply (grouped_lookup l k i); [done..|lia].
  - injection Hb as <-. apply (grouped_lookup l k (S i)); [done..|lia].
  - destruct i; [done|]. injection Hb as <-. apply (grouped_lookup l i k); [done..|lia].
  - injection Hb as <-. apply (grouped_lookup l (S i) k); [done..|lia].
Qed.

(** Moving a step up or down changes one thing: beside a step of its own phase the two trade
    places; at the edge of its phase it keeps its number and joins the neighbouring phase, as that
    phase's last step going up or its first going down; at the end of the runbook nothing changes.
    The phases are again exactly those in use. *)
Theorem moveStep_one_place d id dir i step :
  wf d → step_at id (rd_steps d) = Some i → rd_steps d !! i = Some step →
  rd_steps (moveStep d id dir) = move_spec d i dir step ∧
  rd_phases (moveStep d id dir) = phasesOf (move_spec d i dir step) ∧ grouped (move_spec d i dir step).
Proof.
  intros Hw Hat Hi. pose proof (wf_moveStep d id dir Hw) as [Hg' Hp' _].
  assert (E : rd_steps (moveStep d id dir) = move_spec d i dir step); [|by rewrite <-E].
  destruct Hw as [Hg _ Hn]. unfold ids in Hn. unfold move_spec, moveStep. rewrite Hat, Hi.
  destruct (step_at_Some _ _ _ Hat) as (s' & Hs' & Hid). assert (s' = step) as -> by congruence. clear Hs'.
  destruct (beside i dir) as [j|] eqn:Hb; cbn [mbind option_bind]; [|done].
  destruct (rd_steps d !! j) as [next|] eqn:Hj; cbn [fmap option_fmap option_map]; [|done].
  destruct (decide (rs_phase next = rs_phase step)); [done|].
  unfold withSteps. cbn [rd_steps with_steps_phases]. rewrite <-Hid.
  rewrite (take_filter_ne (rd_steps d) i step) by done. rewrite (step_at_filter _ _ _ step next dir) by done.
  assert (Hat_ : (match dir with MoveUp => S (match dir with MoveUp => j | MoveDown => i end) | MoveDown => match dir with MoveUp => j | MoveDown => i end end) = i).
  { destruct dir; [|done]. cbn in Hb. destruct i; [done|]. by injection Hb as <-. }
  destruct dir; cbn in Hat_ |- *; rewrite ?Hat_; rewrite (splice_back _ _ step) by done; apply regroup_id;
    by eapply crossing_grouped.
Qed.

Lemma moveStep_one_place_witness :
  ids (moveStep demo_runbook "verdict" MoveUp) = ["verdict"; "first-check"; "block"] ∧
  rd_steps (moveStep demo_runbook "verdict" MoveDown) = move_spec demo_runbook 1 MoveDown demo_decision ∧
  rd_steps (moveStep demo_runbook "verdict" MoveDown) !! 1%nat = Some (st_phase Contain demo_decision).
Proof.
  split; [vm_compute; reflexivity|].
  destruct (moveStep_one_place demo_runbook "verdict" MoveDown 1 demo_decision wf_demo) as (H1 & _); [vm_compute; reflexivity..|].
  split; [exact H1|vm_compute; reflexivity].
Defined.
