(* ===== verification/RunbookKinds.v ===== *)
(** * Runbooks: references between steps, and trying another kind *)

From S2P Require Import Prelude Runbook RunbookSpec RunbookSlug RunbookEdits.
Local Open Scope Z_scope.

(** ** Marks: the steps a decision option skips *)

(** Every mark of a step's options satisfies [P], which may speak of the step's id. *)
Definition marks_all (P : string → Prop) (options : list DecisionOption) : Prop :=
  Forall (λ o, Forall P (do_marks o)) options.

Definition steps_marks (P : string → string → Prop) (steps : list RunbookStep) : Prop :=
  Forall (λ s, marks_all (P (rs_id s)) (rs_options s)) steps.

Definition refs_ok (d : RunbookDefinition) : Prop := steps_marks (λ _ m, m ∈ ids d) (rd_steps d).

#[export] Instance refs_ok_dec d : Decision (refs_ok d).
Proof. unfold refs_ok, steps_marks, marks_all. apply _. Defined.










(** A rename takes the marks along. No view of the editor renames a step. *)
Lemma refs_renameStepId d from to : refs_ok d → refs_ok (renameStepId d from to).
Proof.
  intros Hr. unfold renameStepId. case_decide; [done|]. unfold refs_ok, steps_marks, marks_all, ids, set_steps. cbn [rd_steps with_steps_phases].
  rewrite <-list_fmap_compose. apply Forall_fmap. eapply Forall_impl; [exact Hr|]. intros s Hs. cbn. apply Forall_fmap. eapply Forall_impl; [exact Hs|].
  intros o Ho. cbn. apply Forall_fmap. eapply Forall_impl; [exact Ho|]. intros m Hm. cbn.
  apply list_elem_of_fmap in Hm as (t & -> & Ht). apply list_elem_of_fmap. by exists t.
Qed.

(** ** The editor: the working copy, what each step set aside, and the removals that can be undone
    (RunbookEditor.tsx, StepForm.tsx) *)
Record Editor := mkEditor {
  ed_working : RunbookDefinition;
  ed_aside : gmap string KindFields;
  ed_undo : list (RunbookDefinition * string * option KindFields)
}.

(** A step that is gone takes what it set aside with it. *)
Definition prune (ed : Editor) : Editor :=
  mkEditor (ed_working ed) (filter (λ e, e.1 ∈ ids (ed_working ed)) (ed_aside ed)) (ed_undo ed).

Inductive editor_op :=
  | EoEdit (e : edit)
  | EoSwitch (id : string) (kind : StepKind)
  | EoRemove (id : string)
  | EoUndo (n : nat)
  | EoReplace (d : RunbookDefinition) (clear : bool).

Section editor.
Context `{Folding}.

Definition switchKind (id : string) (kind : StepKind) (ed : Editor) : Editor :=
  match find_step id (rd_steps (ed_working ed)) with
  | None => ed
  | Some step =>
      if decide (rs_kind step = kind) then ed
      else let '(d, aside) := switchStepKind (ed_working ed) id kind (ed_aside ed !! id) in
           mkEditor d (<[id := aside]> (ed_aside ed)) (ed_undo ed)
  end.

Definition onRemove (id : string) (ed : Editor) : Editor :=
  mkEditor (removeStep (ed_working ed) id) (ed_aside ed) ((ed_working ed, id, ed_aside ed !! id) :: ed_undo ed).

(** The Undo of a removal's notice: the step comes back with what it had set aside. *)
Definition onUndo (n : nat) (ed : Editor) : Editor :=
  match ed_undo ed !! n with
  | None => ed
  | Some (before, id, setAside) =>
      mkEditor before (match setAside with Some a => <[id := a]> (ed_aside ed) | None => ed_aside ed end) (ed_undo ed)
  end.

(** One change of the working copy, and the effect that follows it. A working copy read from Markdown or from the
    server replaces the old one; what was set aside goes only where the person chose to discard their copy. *)
Definition editor_step (o : editor_op) (ed : Editor) : Editor :=
  prune (match o with
         | EoEdit e => mkEditor (run_edit e (ed_working ed)) (ed_aside ed) (ed_undo ed)
         | EoSwitch id kind => switchKind id kind ed
         | EoRemove id => onRemove id ed
         | EoUndo n => onUndo n ed
         | EoReplace d clear => mkEditor d (if clear then ∅ else ed_aside ed) (ed_undo ed)
         end).

Definition run_editor (os : list editor_op) (ed : Editor) : Editor := foldl (λ ed o, editor_step o ed) ed os.



(** ** What a history did *)














Lemma restore_fields_id kind kept s : rs_id (restore_fields kind kept s) = rs_id s.
Proof. unfold restore_fields. cbn. by destruct (decide (kind = KDecision)). Qed.







End editor.

(** ** Trying other kinds *)

(** The kind changed to each of [kinds] in turn, keeping what was set aside. *)
Definition switch_all (id : string) (kinds : list StepKind) (da : RunbookDefinition * KindFields) : RunbookDefinition * KindFields :=
  foldl (λ da kind, switchStepKind da.1 id kind (Some da.2)) da kinds.

(** No field holds an empty string where [null] means nothing. *)
Definition no_empty (s : RunbookStep) : Prop :=
  rs_escalate_if s ≠ Some "" ∧ rs_benign_if s ≠ Some "" ∧ rs_approval_role s ≠ Some "".

Lemma or_null_id s : s ≠ Some "" → or_null s = s.
Proof. unfold or_null, filled. destruct s as [t|]; [|done]. intros Hne. destruct (String.eqb_spec t ""); [congruence|done]. Qed.

(** A field's value: the step's where its kind carries it, else what was set aside. *)
Definition value {A} (carried : bool) (field : A) (aside : option A) : option A := if carried then Some field else aside.

(** [s] is [s0] under another kind: what [s0]'s kind carries is in the step or set aside. *)
Record kind_of (s0 s : RunbookStep) (a : KindFields) : Prop := {
  ko_rest : st_fields (rs_kind s) (rs_escalate_if s) (rs_benign_if s) (rs_approval_role s) (rs_lookup s) (rs_options s) s0 = s;
  ko_typed : typed s;
  ko_lookup : rs_kind s0 = KLookup → value (bool_decide (rs_kind s = KLookup)) (rs_lookup s) (kf_lookup a) = Some (rs_lookup s0);
  ko_escalate : guided (rs_kind s0) = true → value (guided (rs_kind s)) (rs_escalate_if s) (kf_escalate_if a) = Some (rs_escalate_if s0);
  ko_benign : guided (rs_kind s0) = true → value (guided (rs_kind s)) (rs_benign_if s) (kf_benign_if a) = Some (rs_benign_if s0);
  ko_options : rs_kind s0 = KDecision → value (bool_decide (rs_kind s = KDecision)) (rs_options s) (kf_options a) = Some (rs_options s0);
  ko_approval : approved (rs_kind s0) = true → value (approved (rs_kind s)) (rs_approval_role s) (kf_approval_role a) = Some (rs_approval_role s0);
}.

(** One string field through a switch: set aside, then restored. *)
Lemma aside_string (c k : bool) (field : option string) (aside : option (option string)) want :
  (c = false → field = None) → want ≠ Some "" → value c field aside = Some want →
  value k (if k then restore (if k then field else None) (if c || filled field then Some (or_null field) else aside) else None)
    (if c || filled field then Some (or_null field) else aside) = Some want.
Proof.
  intros Hty Hne Hv. unfold value in *. destruct c; cbn in *.
  - injection Hv as ->. rewrite (or_null_id want Hne). destruct k; [|done]. by destruct want.
  - rewrite (Hty eq_refl). cbn. destruct k; [|done]. by rewrite Hv.
Qed.

Lemma kind_of_refl s a : typed s → kind_of s s a.
Proof. intros Hs. split; [by destruct s|done|..]; intros E; rewrite ?E; unfold value; by rewrite ?bool_decide_eq_true_2. Qed.

Lemma kind_of_switch s0 s a kind :
  typed s0 → no_empty s0 → kind_of s0 s a → kind_of s0 (restore_fields kind (set_aside s a) s) (set_aside s a).
Proof.
  intros [Hl0 Ho0 _ _ _] (N1 & N2 & N3) [Hrest Hty Hl He Hb Ho Ha].
  pose proof (restore_fields_typed kind (set_aside s a) s) as Hty'. destruct Hty as [T1 T2 T3 T4 T5].
  set (s' := restore_fields kind (set_aside s a) s) in *.
  assert (Hk : rs_kind s' = kind) by done.
  assert (Hopt : rs_options s' = if decide (kind = KDecision) then
     match (match kf_options (set_aside s a) with Some (o :: os) => o :: os | _ => rs_options s end) with [] => default_options | o => o end else []).
  { unfold s', restore_fields. cbn [rs_options st_fields kindDefaults]. by destruct (decide (kind = KDecision)). }
  assert (Hesc : rs_escalate_if s' = if guided kind then restore (if guided kind then rs_escalate_if s else None) (kf_escalate_if (set_aside s a)) else None).
  { unfold s', restore_fields, kindDefaults. cbn [rs_escalate_if st_fields]. destruct (decide (kind = KDecision)), (guided kind); done. }
  assert (Hben : rs_benign_if s' = if guided kind then restore (if guided kind then rs_benign_if s else None) (kf_benign_if (set_aside s a)) else None).
  { unfold s', restore_fields, kindDefaults. cbn [rs_benign_if st_fields]. destruct (decide (kind = KDecision)), (guided kind); done. }
  assert (Happ : rs_approval_role s' = if approved kind then restore (if approved kind then rs_approval_role s else None) (kf_approval_role (set_aside s a)) else None).
  { unfold s', restore_fields, kindDefaults. cbn [rs_approval_role st_fields]. destruct (decide (kind = KDecision)), (approved kind); done. }
  split; [|done|..]; rewrite ?Hk.
  - unfold s', restore_fields. rewrite <-Hrest. by destruct (decide (kind = KDecision)).
  - intros E. specialize (Hl E). assert (Hsome : is_Some (rs_lookup s0)) by (by apply Hl0).
    unfold value. unfold s', restore_fields. cbn [rs_lookup st_fields].
    assert (Hkept : kf_lookup (set_aside s a) = Some (rs_lookup s0)).
    { cbn. unfold value in Hl. destruct (decide (rs_kind s = KLookup)) as [Es|Es].
      - by rewrite (bool_decide_eq_true_2 (rs_kind s = KLookup)) in * by done.
      - rewrite (bool_decide_eq_false_2 (rs_kind s = KLookup)) in * by done. rewrite bool_decide_eq_false_2; [done|]. by rewrite T1. }
    destruct (decide (kind = KLookup)) as [Ek|Ek]; [|by rewrite bool_decide_eq_false_2].
    rewrite bool_decide_eq_true_2 by done. rewrite Hkept. by destruct (rs_lookup s0); [|destruct Hsome].
  - intros E. rewrite Hesc. apply aside_string; [done|done|by apply He].
  - intros E. rewrite Hben. apply aside_string; [done|done|by apply Hb].
  - intros E. specialize (Ho E). assert (Hne : rs_options s0 ≠ []) by (by apply Ho0).
    assert (Hkept : kf_options (set_aside s a) = Some (rs_options s0)).
    { cbn. unfold value in Ho. destruct (decide (rs_kind s = KDecision)) as [Es|Es].
      - by rewrite (bool_decide_eq_true_2 (rs_kind s = KDecision)) in * by done.
      - rewrite (bool_decide_eq_false_2 (rs_kind s = KDecision)) in * by done.
        rewrite (bool_decide_eq_true_2 (rs_options s = [])); [done|]. destruct (rs_options s) eqn:Eo; [done|]. by destruct Es; apply T2. }
    unfold value. rewrite Hopt, Hkept. destruct (decide (kind = KDecision)) as [Ek|Ek]; [|by rewrite bool_decide_eq_false_2].
    rewrite bool_decide_eq_true_2 by done. by destruct (rs_options s0).
  - intros E. rewrite Happ. apply aside_string; [done|done|by apply Ha].
Qed.

Lemma kind_of_back s0 s a : typed s0 → kind_of s0 s a → rs_kind s = rs_kind s0 → s = s0.
Proof.
  intros Hty0 [Hrest [T1 T2 T3 T4 T5] Hl He Hb Ho Ha] Ek. rewrite <-Hrest. rewrite Ek in *.
  assert (E1 : rs_escalate_if s = rs_escalate_if s0).
  { destruct (guided (rs_kind s0)) eqn:E; [unfold value in He; specialize (He eq_refl); congruence|]. rewrite T3 by done. symmetry. by apply (ty_escalate s0). }
  assert (E2 : rs_benign_if s = rs_benign_if s0).
  { destruct (guided (rs_kind s0)) eqn:E; [unfold value in Hb; specialize (Hb eq_refl); congruence|]. rewrite T4 by done. symmetry. by apply (ty_benign s0). }
  assert (E3 : rs_approval_role s = rs_approval_role s0).
  { destruct (approved (rs_kind s0)) eqn:E; [unfold value in Ha; specialize (Ha eq_refl); congruence|]. rewrite T5 by done. symmetry. by apply (ty_approval s0). }
  assert (E4 : rs_lookup s = rs_lookup s0).
  { destruct (decide (rs_kind s0 = KLookup)) as [E|E].
    - specialize (Hl E). unfold value in Hl. rewrite bool_decide_eq_true_2 in Hl by done. congruence.
    - destruct (rs_lookup s) eqn:F1; [by destruct E; apply T1|]. destruct (rs_lookup s0) eqn:F2; [|done]. destruct E. apply (ty_lookup s0); [done|by rewrite F2]. }
  assert (E5 : rs_options s = rs_options s0).
  { destruct (decide (rs_kind s0 = KDecision)) as [E|E].
    - specialize (Ho E). unfold value in Ho. rewrite bool_decide_eq_true_2 in Ho by done. congruence.
    - destruct (rs_options s) eqn:F1; [|by destruct E; apply T2]. destruct (rs_options s0) eqn:F2; [done|]. destruct E. apply (ty_options s0); [done|by rewrite F2]. }
  rewrite E1, E2, E3, E4, E5. by destruct s0.
Qed.

(** ** The definition around the step *)
Lemma map_step_twice id f s steps :
  map_step id (λ _, f) (map_step id (λ _, s) steps) = map_step id (λ _, if decide (rs_id s = id) then f else s) steps.
Proof.
  unfold map_step. rewrite <-list_fmap_compose. apply list_fmap_ext. intros i t _. cbn.
  destruct (decide (rs_id t = id)) as [E|E]; [done|]. by destruct (decide (rs_id t = id)).
Qed.

Lemma find_map_step id s steps :
  rs_id s = id → is_Some (find_step id steps) → find_step id (map_step id (λ _, s) steps) = Some s.
Proof.
  intros Hs [t Ht]. unfold find_step in *. destruct (list_find _ steps) as [[i u]|] eqn:E; [|done].
  apply list_find_Some in E as (Hi & Hid & Hlow).
  assert (list_find (λ t, rs_id t = id) (map_step id (λ _, s) steps) = Some (i, s)) as ->; [|done].
  apply list_find_Some. unfold map_step. split_and!; [|done|].
  - rewrite list_lookup_fmap, Hi. cbn. by rewrite decide_True.
  - intros j y Hj Hlt. rewrite list_lookup_fmap in Hj. destruct (steps !! j) as [x|] eqn:Ex; [|done]. cbn in Hj.
    specialize (Hlow j x Ex Hlt). case_decide; [done|]. by injection Hj as <-.
Qed.

Lemma set_steps_twice s1 s2 d : set_steps s1 (set_steps s2 d) = set_steps s1 d.
Proof. done. Qed.

(** Where a sequence of switches leads: one step replaced, by the same step under the last kind. *)
Lemma switch_all_spec d id kinds s0 a :
  typed s0 → no_empty s0 → find_step id (rd_steps d) = Some s0 →
  ∀ s, rs_id s = id → kind_of s0 s a →
  ∃ s' a', switch_all id kinds (set_steps (map_step id (λ _, s) (rd_steps d)) d, a) =
      (set_steps (map_step id (λ _, s') (rd_steps d)) d, a') ∧
    kind_of s0 s' a' ∧ rs_id s' = id ∧ rs_kind s' = default (rs_kind s) (last kinds).
Proof.
  intros Hty Hne Hf. revert a. induction kinds as [|kind kinds IH]; intros a s Hid Hk; [by exists s, a|].
  cbn [switch_all foldl fst snd]. unfold switchStepKind. change (default no_fields (Some a)) with a.
  change (rd_steps (set_steps (map_step id (λ _, s) (rd_steps d)) d)) with (map_step id (λ _, s) (rd_steps d)).
  rewrite (find_map_step id s) by (done || by rewrite Hf).
  assert (Hlast : ∀ x : StepKind, default x (last (kind :: kinds)) = default kind (last kinds)) by (intros x; by destruct kinds as [|? ?]; [|rewrite last_cons; destruct (last _)]).
  rewrite Hlast. destruct (decide (rs_kind s = kind)) as [<-|Hne'].
  - apply IH; done.
  - rewrite map_step_twice, decide_True by done.
    pose proof (kind_of_switch s0 s a kind Hty Hne Hk) as Hk'.
    destruct (IH (set_aside s a) (restore_fields kind (set_aside s a) s)) as (s' & a' & E & H1 & H2 & H3);
      [by rewrite restore_fields_id|done|].
    exists s', a'. split_and!; [exact E|done|done|exact H3].
Qed.

Lemma map_step_self id s steps :
  NoDup (rs_id <$> steps) → find_step id steps = Some s → map_step id (λ _, s) steps = steps.
Proof.
  intros Hn Hf. destruct (find_step_Some _ _ _ Hf) as [Hin Hid]. unfold map_step. rewrite <-(list_fmap_id steps) at 2.
  apply list_fmap_ext. intros i t Ht. change (Datatypes.id t) with t. case_decide as E; [|done].
  apply (NoDup_id_eq steps); [done|done|by eapply list_elem_of_lookup_2|congruence].
Qed.

(** Trying other kinds never loses what the author wrote: a step switched through any kinds and
    back to its own is the step it was, whatever had been set aside before, and so is the whole
    definition. *)
Theorem switch_back_restores d id step kinds aside :
  NoDup (ids d) → find_step id (rd_steps d) = Some step → typed step → no_empty step →
  (switch_all id (kinds ++ [rs_kind step]) (d, aside)).1 = d.
Proof.
  intros Hn Hf Hty Hne. destruct (find_step_Some _ _ _ Hf) as [_ Hid].
  assert (Ed : d = set_steps (map_step id (λ _, step) (rd_steps d)) d) by (rewrite map_step_self by done; by destruct d).
  destruct (switch_all_spec d id (kinds ++ [rs_kind step]) step aside Hty Hne Hf step Hid (kind_of_refl _ _ Hty)) as (s' & a' & E & Hk & _ & Hlast).
  rewrite <-Ed in E. rewrite E. cbn [fst]. rewrite last_snoc in Hlast. cbn in Hlast.
  by rewrite (kind_of_back step s' a' Hty Hk Hlast), <-Ed.
Qed.




Lemma switch_back_restores_witness :
  (switch_all "verdict" [KLookup; KCheck] (demo_runbook, no_fields)).1 ≠ demo_runbook ∧
  (switch_all "verdict" [KLookup; KCheck; KDecision] (demo_runbook, no_fields)).1 = demo_runbook.
Proof.
  split; [vm_compute; discriminate|].
  apply (switch_back_restores demo_runbook "verdict" demo_decision [KLookup; KCheck] no_fields).
  - apply (bool_decide_unpack _). vm_compute. exact I.
  - vm_compute. reflexivity.
  - constructor; cbn; try done. by split; [intros [? ?]|].
  - split_and!; discriminate.
Defined.

(** The marks set aside with a Decision's options do not follow a removal: the Decision comes back
    with a mark of a step that is gone. *)
Example aside_keeps_removed_mark :
  let ed := run_editor (H := ascii_folding) [EoSwitch "verdict" KCheck; EoRemove "block"; EoSwitch "verdict" KDecision] (mkEditor demo_runbook ∅ []) in
  (do_marks <$> (rd_steps (ed_working ed) ≫= rs_options)) = [[]; ["block"]] ∧ "block" ∉ ids (ed_working ed).
Proof. split; [vm_compute; reflexivity|]. by apply (bool_decide_unpack _); vm_compute. Qed.
