(* ===== verification/RunbookDiff.v ===== *)
(** * Runbooks: the comparison of two versions (soc/runbooks/editor/diff.ts)

    Which header fields changed, and which steps were added, removed, edited or moved. A step moved
    when it is not on a longest increasing run of the shared steps. *)

From S2P Require Import Prelude JsMap Runbook.
From stdpp Require Import pretty.
From Stdlib Require Import Ascii.
Local Open Scope Z_scope.

(** ** Field values *)

(** What a compared field of a definition holds. *)
Inductive HeaderValue :=
  | HvString (s : string)
  | HvOptString (s : option string)
  | HvNumber (n : Z)
  | HvOptNumber (n : option Z)
  | HvList (l : list string)
  | HvBool (b : bool).

#[export] Instance HeaderValue_eq_dec : EqDecision HeaderValue.
Proof. solve_decision. Defined.

(** [JSON.stringify(a ?? null) === JSON.stringify(b ?? null)] *)
Definition same {A} `{EqDecision A} (a b : A) : bool := bool_decide (a = b).

Definition text (v : HeaderValue) : string :=
  match v with
  | HvString s => if decide (s = "") then "none" else s
  | HvOptString None => "none"
  | HvOptString (Some s) => if decide (s = "") then "none" else s
  | HvNumber n => pretty n
  | HvOptNumber None => "none"
  | HvOptNumber (Some n) => pretty n
  | HvList [] => "none"
  | HvList l => join_strings ", " l
  | HvBool b => if b then "yes" else "no"
  end.

(** [toLowerCase()] of ASCII text. *)
Definition lower_char (c : ascii) : ascii :=
  let n := nat_of_ascii c in if ((65 <=? n) && (n <=? 90))%nat then ascii_of_nat (n + 32) else c.
Fixpoint toLowerCase (s : string) : string :=
  match s with
  | EmptyString => EmptyString
  | String c s' => String (lower_char c) (toLowerCase s')
  end.

Record FieldChange := mkFieldChange { fc_field : string; fc_label : string; fc_before : string; fc_after : string }.

(** ** Header fields *)
Definition HEADER_FIELDS : list (string * string * (RunbookDefinition → HeaderValue)) :=
  [("title", "Title", λ d, HvString (rd_title d));
   ("summary", "Summary", λ d, HvString (rd_summary d));
   ("use_when", "Use when", λ d, HvString (rd_use_when d));
   ("prerequisites", "Prerequisites", λ d, HvString (rd_prerequisites d));
   ("priority", "Priority", λ d, HvNumber (rd_priority d));
   ("owner", "Owner", λ d, HvOptString (rd_owner d));
   ("review_every_days", "Review every", λ d, HvNumber (rd_review_every_days d));
   ("mitre", "Covers techniques", λ d, HvList (rd_mitre d));
   ("retrieval_queries", "Search phrases", λ d, HvList (rd_retrieval_queries d));
   ("references", "References", λ d, HvList (rd_references d))].

(** The keys of [CRITERION_LABEL], in order. *)
Definition CRITERION_LABEL : list (string * string * (AppliesWhen → HeaderValue)) :=
  [("rule_ids", "Rule", λ a, HvList (aw_rule_ids a));
   ("mitre", "Technique", λ a, HvList (aw_mitre a));
   ("entity_types", "Entity", λ a, HvList (aw_entity_types a));
   ("severity_at_least", "Severity", λ a, HvOptString (aw_severity_at_least a));
   ("sources", "Source", λ a, HvList (aw_sources a));
   ("verdicts", "Verdict", λ a, HvList (aw_verdicts a));
   ("statuses", "Status", λ a, HvList (aw_statuses a));
   ("any_tags", "Tag", λ a, HvList (aw_any_tags a));
   ("min_event_count", "Events", λ a, HvOptNumber (aw_min_event_count a));
   ("always", "Fallback", λ a, HvBool (aw_always a))].

Definition headerChanges (before after : RunbookDefinition) : list FieldChange :=
  omap (λ '((field, label, get) : string * string * (RunbookDefinition → HeaderValue)),
    if same (get before) (get after) then None
    else Some (mkFieldChange field label (text (get before)) (text (get after)))) HEADER_FIELDS.

Definition appliesWhenChanges (a b : AppliesWhen) : list FieldChange :=
  omap (λ '((key, label, get) : string * string * (AppliesWhen → HeaderValue)),
    if same (get a) (get b) then None
    else Some (mkFieldChange ("applies_when." +:+ key) ("Applies when: " +:+ toLowerCase label) (text (get a)) (text (get b))))
    CRITERION_LABEL.

(** ** Step fields *)
Definition STEP_FIELDS : list ((RunbookStep → RunbookStep → bool) * string) :=
  [(λ a b, same (rs_kind a) (rs_kind b), "Kind");
   (λ a b, same (rs_title a) (rs_title b), "Title");
   (λ a b, same (rs_instructions a) (rs_instructions b), "Instructions");
   (λ a b, same (rs_focus a) (rs_focus b), "Focus");
   (λ a b, same (rs_escalate_if a) (rs_escalate_if b), "Escalate if");
   (λ a b, same (rs_benign_if a) (rs_benign_if b), "Benign if");
   (λ a b, same (rs_required a) (rs_required b), "Required");
   (λ a b, same (rs_evidence a) (rs_evidence b), "Evidence");
   (λ a b, same (rs_owner_role a) (rs_owner_role b), "Who does it");
   (λ a b, same (rs_approval_role a) (rs_approval_role b), "Approved by");
   (λ a b, same (rs_target_minutes a) (rs_target_minutes b), "Target time");
   (λ a b, same (rs_lookup a) (rs_lookup b), "Lookup");
   (λ a b, same (rs_options a) (rs_options b), "Options");
   (λ a b, same (rs_react a) (rs_react b), "RE&CT id");
   (λ a b, same (rs_d3fend a) (rs_d3fend b), "D3FEND id")].

Definition changed_fields (old step : RunbookStep) : list string :=
  omap (λ '((eq, label) : (RunbookStep → RunbookStep → bool) * string), if eq old step then None else Some label) STEP_FIELDS.

(** [inPhase.indexOf(step)] finds the step itself, the first of its id. *)
Definition place (d : RunbookDefinition) (id : string) : string :=
  match find_step id (rd_steps d) with
  | None => ""
  | Some step =>
      let n := match step_at id (stepsInPhase d (rs_phase step)) with Some i => Z.of_nat i + 1 | None => 0 end in
      PHASE_LABEL (rs_phase step) +:+ ", step " +:+ pretty n
  end.

(** ** The longest increasing run *)

(** [while (lo < hi)], halving: at most [hi - lo] rounds. *)
Fixpoint bisect (fuel : nat) (tails : list nat) (value lo hi : nat) : nat :=
  match fuel with
  | O => lo
  | S fuel' =>
      if (lo <? hi)%nat then
        let mid := ((lo + hi) / 2)%nat in
        if (default 0%nat (tails !! mid) <? value)%nat then bisect fuel' tails value (S mid) hi
        else bisect fuel' tails value lo mid
      else lo
  end.

(** [array[i] = v], where [i] is at most the length. *)
Definition assign {A} (i : nat) (v : A) (l : list A) : list A :=
  if (i <? length l)%nat then <[i := v]> l else l ++ [v].

(** [prev[i]] is [None] for -1. *)
Record LisState := mkLis { ls_tails : list nat; ls_tailAt : list nat; ls_prev : list (option nat) }.

Definition lis_step (i value : nat) (st : LisState) : LisState :=
  let tails := ls_tails st in
  let lo := bisect (length tails) tails value 0 (length tails) in
  mkLis (assign lo value tails) (assign lo i (ls_tailAt st))
    (<[i := match lo with O => None | S k => ls_tailAt st !! k end]> (ls_prev st)).

Definition lis (seq : list nat) : LisState :=
  foldl (λ st p, lis_step p.1 p.2 st) (mkLis [] [] (replicate (length seq) None)) (imap pair seq).

(** [while (at >= 0) { keep.add(shared[at]); at = prev[at]; }] *)
Fixpoint walk (fuel : nat) (prev : list (option nat)) (at_ : option nat) : list nat :=
  match fuel, at_ with
  | S fuel', Some i => i :: walk fuel' prev (default None (prev !! i))
  | _, _ => []
  end.

Definition lis_indices (seq : list nat) : list nat :=
  let st := lis seq in walk (length seq) (ls_prev st) (last (ls_tailAt st)).

Definition before_index (before : RunbookDefinition) : list (string * nat) :=
  foldl (λ m p, jm_set m (rs_id p.2) p.1) [] (imap pair (rd_steps before)).

Definition shared_ids (before after : RunbookDefinition) : list string :=
  rs_id <$> filter (λ s, is_Some (jm_get (before_index before) (rs_id s))) (rd_steps after).

Definition shared_seq (before after : RunbookDefinition) : list nat :=
  omap (λ id, jm_get (before_index before) id) (shared_ids before after).

Definition stableOrder (before after : RunbookDefinition) : list string :=
  omap (λ i, shared_ids before after !! i) (lis_indices (shared_seq before after)).

(** ** The comparison *)
Inductive StepChangeKind := ScAdded | ScRemoved | ScEdited | ScMoved.

Record StepChange := mkStepChange {
  sc_id : string;
  sc_title : string;
  sc_kind : StepChangeKind;
  sc_fields : list string;
  sc_from : option string;
  sc_to : option string;
}.

Record DefinitionDiff := mkDiff { dd_header : list FieldChange; dd_steps : list StepChange; dd_same : bool }.

Definition step_changes (before after : RunbookDefinition) (stable : list string) (step : RunbookStep) : list StepChange :=
  match find_step (rs_id step) (rd_steps before) with
  | None => [mkStepChange (rs_id step) (rs_title step) ScAdded [] None None]
  | Some old =>
      let fields := changed_fields old step in
      (if decide (fields = []) then [] else [mkStepChange (rs_id step) (rs_title step) ScEdited fields None None]) ++
      (if negb (same (rs_phase old) (rs_phase step)) || negb (bool_decide (rs_id step ∈ stable))
       then [mkStepChange (rs_id step) (rs_title step) ScMoved [] (Some (place before (rs_id step))) (Some (place after (rs_id step)))]
       else [])
  end.

Definition removed_steps (before after : RunbookDefinition) : list StepChange :=
  omap (λ s, if bool_decide (rs_id s ∈ rs_id <$> rd_steps after) then None
             else Some (mkStepChange (rs_id s) (rs_title s) ScRemoved [] None None)) (rd_steps before).

Definition diffDefinitions (before after : RunbookDefinition) : DefinitionDiff :=
  let header := headerChanges before after ++ appliesWhenChanges (rd_applies_when before) (rd_applies_when after) in
  let stable := stableOrder before after in
  let steps := (rd_steps after ≫= step_changes before after stable) ++ removed_steps before after in
  mkDiff header steps (bool_decide (length header = 0%nat) && bool_decide (length steps = 0%nat)).

Definition stepChangeLine (c : StepChange) : string :=
  let name := if decide (sc_title c = "") then sc_id c else sc_title c in
  match sc_kind c with
  | ScAdded => "Added: " +:+ name
  | ScRemoved => "Removed: " +:+ name
  | ScMoved => "Moved: " +:+ name +:+ ", from " +:+ default "undefined" (sc_from c) +:+ " to " +:+ default "undefined" (sc_to c)
  | ScEdited => "Edited: " +:+ name +:+ " (" +:+ toLowerCase (join_strings ", " (sc_fields c)) +:+ ")"
  end.
