(* ===== verification/RunbookDiffSpec.v ===== *)
(** * Runbooks: the comparison of two versions is exact

    The steps that keep their order are a longest common subsequence, and the comparison is silent
    exactly when the versions are the same. *)

From S2P Require Import Prelude StableSort JsMap Runbook RunbookSpec RunbookEdits RunbookMoves RunbookDiff.
From stdpp Require Import pretty.

(** ** The binary search *)
Definition ascending (l : list nat) : Prop := StronglySorted lt l.

Lemma ascending_lookup l i j a b : ascending l → l !! i = Some a → l !! j = Some b → i < j → a < b.
Proof. intros Hl. by apply (StronglySorted_lookup lt). Qed.

Lemma bisect_spec fuel tails value lo hi :
  ascending tails → lo ≤ hi ≤ length tails → hi - lo ≤ fuel →
  (∀ k t, tails !! k = Some t → k < lo → t < value) → (∀ k t, tails !! k = Some t → hi ≤ k → value ≤ t) →
  let r := bisect fuel tails value lo hi in
  r ≤ length tails ∧ (∀ k t, tails !! k = Some t → k < r → t < value) ∧ (∀ k t, tails !! k = Some t → r ≤ k → value ≤ t).
Proof.
  intros Ha. revert lo hi. induction fuel as [|fuel IH]; intros lo hi Hlh Hf Hlow Hhigh; cbn [bisect].
  { assert (lo = hi) as -> by lia. split_and!; [lia|done|done]. }
  destruct (Nat.ltb_spec lo hi) as [Hlt|Hge]; [|assert (lo = hi) as -> by lia; split_and!; [lia|done|done]].
  set (mid := ((lo + hi) / 2)%nat). assert (Hmid : lo ≤ mid < hi).
  { unfold mid. split; [apply Nat.div_le_lower_bound; lia|apply Nat.Div0.div_lt_upper_bound; lia]. }
  destruct (lookup_lt_is_Some_2 tails mid ltac:(lia)) as [t Ht]. rewrite Ht. cbn [default from_option]. change (id t) with t.
  destruct (Nat.ltb_spec t value) as [Hv|Hv]; apply IH; try lia; try done.
  - intros k u Hk Hkm. destruct (decide (k = mid)) as [->|Hne]; [congruence|].
    pose proof (ascending_lookup tails k mid u t Ha Hk Ht ltac:(lia)). lia.
  - intros k u Hk Hkm. destruct (decide (k = mid)) as [->|Hne]; [simplify_eq; lia|].
    pose proof (ascending_lookup tails mid k t u Ha Ht Hk ltac:(lia)). lia.
Qed.

(** ** Chains of predecessors *)
Inductive chain (prev : list (option nat)) (seq : list nat) : nat → nat → Prop :=
  | chain_first j v : prev !! j = Some None → seq !! j = Some v → chain prev seq j 0
  | chain_next j i k u v : prev !! j = Some (Some i) → i < j → seq !! i = Some u → seq !! j = Some v → u < v →
      chain prev seq i k → chain prev seq j (S k).

Lemma chain_range prev seq j k : chain prev seq j k → j < length seq ∧ k ≤ j.
Proof.
  induction 1 as [j v _ Hj|j i k u v _ Hij _ Hj _ _ IH]; apply lookup_lt_Some in Hj; lia.
Qed.

Lemma chain_extend prev seq j k x p :
  chain prev seq j k → chain (<[length seq := p]> prev) (seq ++ [x]) j k.
Proof.
  induction 1 as [j v Hp Hj|j i k u v Hp Hij Hi Hj Huv Hc IH].
  - apply (chain_first _ _ j v); [|by apply lookup_app_l_Some]. pose proof (lookup_lt_Some _ _ _ Hj).
    by rewrite list_lookup_insert_ne by lia.
  - pose proof (lookup_lt_Some _ _ _ Hj). apply (chain_next _ _ j i k u v); try done; [|by apply lookup_app_l_Some..].
    by rewrite list_lookup_insert_ne by lia.
Qed.

(** Walking a chain back gives its indices, falling in place and in value. *)
Definition falls (seq : list nat) (a b : nat) : Prop := b < a ∧ ∃ u v, seq !! a = Some u ∧ seq !! b = Some v ∧ v < u.

Lemma falls_trans seq a b c : falls seq a b → falls seq b c → falls seq a c.
Proof. intros (H1 & u & v & E1 & E2 & H2) (H3 & v' & w & E3 & E4 & H4). split; [lia|]. exists u, w. simplify_eq. split_and!; [done|done|lia]. Qed.

Lemma walk_chain prev seq j k fuel :
  chain prev seq j k → S k ≤ fuel →
  let w := walk fuel prev (Some j) in
  length w = S k ∧ StronglySorted (falls seq) w ∧ head w = Some j.
Proof.
  intros Hc. revert fuel. induction Hc as [j v Hp Hj|j i k u v Hp Hij Hi Hj Huv Hc IH]; intros [|fuel] Hf; [lia| |lia|]; cbn [walk].
  - rewrite Hp. cbn [default from_option]. change (id (A:=option nat) None) with (@None nat).
    destruct fuel; cbn; (split_and!; [done|repeat constructor|done]).
  - rewrite Hp. change (default None (Some (Some i))) with (Some i). destruct (IH fuel ltac:(lia)) as (H1 & H2 & H3).
    destruct fuel as [|fuel]; [lia|]. set (w := walk (S fuel) prev (Some i)) in *. cbn [length]. split_and!; [lia| |done].
    constructor; [done|]. destruct w as [|i' w]; [done|]. injection H3 as ->.
    assert (Hji : falls seq j i) by (split; [done|by exists v, u]).
    constructor; [done|]. inversion H2 as [|? ? _ Hw]; subst. eapply Forall_impl; [exact Hw|]. intros b Hb. by apply (falls_trans _ _ i).
Qed.

(** ** The state after a prefix *)
Record lis_ok (seq : list nat) (st : LisState) : Prop := {
  lo_len : length (ls_tailAt st) = length (ls_tails st);
  lo_prev : length seq ≤ length (ls_prev st);
  lo_sorted : ascending (ls_tails st);
  lo_chain : ∀ k t j, ls_tails st !! k = Some t → ls_tailAt st !! k = Some j → seq !! j = Some t ∧ chain (ls_prev st) seq j k;
  lo_best : ∀ l v k, l `sublist_of` seq → ascending l → last l = Some v → length l = S k →
    ∃ t, ls_tails st !! k = Some t ∧ t ≤ v;
}.

Lemma length_assign {A} i (v : A) l : i ≤ length l → length (assign i v l) = Nat.max (length l) (S i).
Proof. intros Hi. unfold assign. destruct (Nat.ltb_spec i (length l)); rewrite ?length_insert, ?length_app; simpl; lia. Qed.

Lemma lookup_assign {A} i (v : A) l k :
  i ≤ length l → assign i v l !! k = if decide (k = i) then Some v else l !! k.
Proof.
  intros Hi. unfold assign. destruct (Nat.ltb_spec i (length l)) as [Hlt|Hge].
  - destruct (decide (k = i)) as [->|Hne]; [by apply list_lookup_insert_eq|by rewrite list_lookup_insert_ne].
  - assert (i = length l) as -> by lia. destruct (decide (k = length l)) as [->|Hne]; [by rewrite list_lookup_middle|].
    destruct (decide (k < length l)); [by rewrite lookup_app_l|]. rewrite !lookup_ge_None_2; [done|lia|rewrite length_app; simpl; lia].
Qed.

Lemma ascending_assign i v l :
  ascending l → i ≤ length l → (∀ k t, l !! k = Some t → k < i → t < v) → (∀ k t, l !! k = Some t → i ≤ k → v ≤ t) →
  ascending (assign i v l).
Proof.
  intros Ha. revert i. induction Ha as [|x l Ha IH Hx]; intros i Hi Hlow Hhigh.
  - cbn in Hi. assert (i = 0) as -> by lia. unfold assign. cbn. repeat constructor.
  - destruct i as [|i].
    + unfold assign. cbn. constructor; [done|]. specialize (Hhigh 0 x eq_refl ltac:(lia)).
      eapply Forall_impl; [exact Hx|]. intros y Hy. simpl in Hy. lia.
    + assert (assign (S i) v (x :: l) = x :: assign i v l) as ->.
      { unfold assign. change (S i <? length (x :: l)) with (i <? length l). by destruct (i <? length l). }
      constructor.
      * apply IH; [cbn in Hi; lia| |]; intros k t Hk Hki; [apply (Hlow (S k) t)|apply (Hhigh (S k) t)]; (done || lia).
      * unfold assign. destruct (i <? length l); [apply Forall_insert; [done|]|apply Forall_app; split; [done|constructor; [|done]]];
          by apply (Hlow 0 x eq_refl); lia.
Qed.

Lemma last_snoc_inv {A} (l : list A) v : last l = Some v → ∃ l', l = l' ++ [v].
Proof. destruct l as [|x l' _] using rev_ind; [done|]. rewrite last_snoc. intros [= ->]. by exists l'. Qed.

Lemma ascending_snoc l v : ascending (l ++ [v]) ↔ ascending l ∧ Forall (λ x, x < v) l.
Proof.
  unfold ascending. rewrite StronglySorted_app. split.
  - intros (Hc & Hl & _). split; [done|]. apply Forall_forall. intros x Hx. apply Hc; [done|by left].
  - intros [Hl Hf]. rewrite Forall_forall in Hf. split_and!; [|done|repeat constructor].
    intros a b Ha Hb%list_elem_of_singleton. subst b. by apply Hf.
Qed.

Lemma sublist_snoc {A} (l seq : list A) x :
  l `sublist_of` seq ++ [x] → l `sublist_of` seq ∨ ∃ l', l = l' ++ [x] ∧ l' `sublist_of` seq.
Proof.
  rewrite sublist_app_r. intros (l1 & l2 & -> & H1 & H2). inversion H2 as [|? ? ? H3|? ? ? H3]; subst.
  - apply sublist_nil_r in H3 as ->. right. by exists l1.
  - apply sublist_nil_r in H3 as ->. left. by rewrite app_nil_r.
Qed.

Lemma lis_step_ok seq st x :
  lis_ok seq st → S (length seq) ≤ length (ls_prev st) → lis_ok (seq ++ [x]) (lis_step (length seq) x st).
Proof.
  intros [Hlen Hprev Hs Hch Hbest] Hroom. unfold lis_step.
  set (lo := bisect (length (ls_tails st)) (ls_tails st) x 0 (length (ls_tails st))).
  destruct (bisect_spec (length (ls_tails st)) (ls_tails st) x 0 (length (ls_tails st)) Hs) as (Hlo & Hlow & Hhigh); [lia|lia|intros; lia| |].
  { intros k t Hk Hge. apply lookup_lt_Some in Hk. lia. }
  fold lo in Hlo, Hlow, Hhigh. split; cbn [ls_tails ls_tailAt ls_prev].
  - rewrite !length_assign by lia. lia.
  - rewrite length_insert, length_app. simpl. lia.
  - by apply ascending_assign.
  - intros k t j. rewrite !lookup_assign by lia. destruct (decide (k = lo)) as [->|Hne].
    + intros [= <-] [= <-]. split; [by rewrite list_lookup_middle|].
      assert (Hx : (seq ++ [x]) !! length seq = Some x) by by rewrite list_lookup_middle.
      destruct lo as [|k'] eqn:Elo.
      * apply (chain_first _ _ _ x); [|done]. by rewrite list_lookup_insert_eq by lia.
      * destruct (lookup_lt_is_Some_2 (ls_tails st) k' ltac:(lia)) as [t Ht].
        destruct (lookup_lt_is_Some_2 (ls_tailAt st) k' ltac:(lia)) as [j Hj].
        destruct (Hch k' t j Ht Hj) as [Hjt Hc]. destruct (chain_range _ _ _ _ Hc) as [Hjl _].
        apply (chain_next _ _ _ j k' t x); [|done|by apply lookup_app_l_Some|done|by apply (Hlow k' t); [|lia]|by apply chain_extend].
        rewrite Hj. by rewrite list_lookup_insert_eq by lia.
    + intros Hk Hj. destruct (Hch k t j Hk Hj) as [Hjt Hc]. split; [by apply lookup_app_l_Some|by apply chain_extend].
  - intros l v k Hl Ha Hv Hk. rewrite lookup_assign by lia. destruct (sublist_snoc l seq x Hl) as [Hl'|(l' & -> & Hl')].
    + destruct (Hbest l v k Hl' Ha Hv Hk) as (t & Ht & Htv). destruct (decide (k = lo)) as [->|Hne]; [|by exists t].
      exists x. split; [done|]. pose proof (Hhigh lo t Ht ltac:(lia)). lia.
    + rewrite last_snoc in Hv. injection Hv as <-. rewrite length_app in Hk. simpl in Hk. apply ascending_snoc in Ha as [Ha Hf].
      assert (Hkl : k ≤ lo).
      { destruct k as [|k]; [lia|]. destruct (last l') as [u|] eqn:Hu; [|destruct l'; [simpl in Hk; lia|by apply last_None in Hu]].
        destruct (Hbest l' u k Hl' Ha Hu ltac:(lia)) as (t & Ht & Htu). apply last_Some_elem_of in Hu. rewrite Forall_forall in Hf.
        specialize (Hf u Hu). destruct (decide (lo ≤ k)) as [Hle|]; [|lia]. pose proof (Hhigh k t Ht Hle). lia. }
      destruct (decide (k = lo)) as [->|Hne]; [by exists x|].
      destruct (lookup_lt_is_Some_2 (ls_tails st) k ltac:(lia)) as [t Ht]. exists t. split; [done|].
      pose proof (Hlow k t Ht ltac:(lia)). lia.
Qed.

Lemma lis_fold_ok pre post st :
  lis_ok pre st → length (ls_prev st) = length (pre ++ post) →
  lis_ok (pre ++ post) (foldl (λ st p, lis_step p.1 p.2 st) st (imap (λ i, pair (length pre + i)) post)).
Proof.
  revert pre st. induction post as [|x post IH]; intros pre st Hok Hlen; [by rewrite app_nil_r|].
  rewrite imap_cons. cbn [foldl fst snd]. rewrite Nat.add_0_r. rewrite length_app in Hlen. simpl in Hlen.
  replace (pre ++ x :: post) with ((pre ++ [x]) ++ post) by by rewrite <-app_assoc.
  replace (imap _ post) with (imap (λ i, pair (length (pre ++ [x]) + i)) post : list (nat * nat))
    by (apply imap_ext; intros i y _; cbn; rewrite length_app; simpl; f_equal; lia).
  apply IH; [apply lis_step_ok; [done|lia]|].
  cbn [lis_step ls_prev]. rewrite length_insert, !length_app. simpl. lia.
Qed.

Lemma lis_correct seq : lis_ok seq (lis seq).
Proof.
  unfold lis. apply (lis_fold_ok [] seq (mkLis [] [] (replicate (length seq) None))); [|apply length_replicate].
  split; cbn; [done|lia|constructor|done|]. intros l v k ->%sublist_nil_r _ Hv. done.
Qed.

(** The indices found fall in place and value, and no ascending subsequence is longer. *)
Lemma lis_indices_longest seq :
  StronglySorted (falls seq) (lis_indices seq) ∧ Forall (λ i, i < length seq) (lis_indices seq) ∧
  ∀ l, l `sublist_of` seq → ascending l → length l ≤ length (lis_indices seq).
Proof.
  destruct (lis_correct seq) as [Hlen _ _ Hch Hbest]. unfold lis_indices.
  assert (Hlong : ∀ l, l `sublist_of` seq → ascending l → length l ≤ length (ls_tails (lis seq))).
  { intros l Hl Ha. destruct l as [|y l'] eqn:El; [simpl; lia|]. destruct (last l) as [v|] eqn:Hv; [|by subst l; apply last_None in Hv].
    rewrite <-El in *. destruct (Hbest l v (length l - 1) Hl Ha Hv) as (t & Ht & _); [subst l; simpl; lia|].
    apply lookup_lt_Some in Ht. lia. }
  destruct (last (ls_tailAt (lis seq))) as [j|] eqn:Hj.
  - rewrite last_lookup in Hj. set (k := Nat.pred (length (ls_tailAt (lis seq)))) in *.
    pose proof (lookup_lt_Some _ _ _ Hj) as Hk. destruct (lookup_lt_is_Some_2 (ls_tails (lis seq)) k ltac:(lia)) as [t Ht].
    destruct (Hch k t j Ht Hj) as [Hjt Hc]. destruct (chain_range _ _ _ _ Hc) as [Hjl Hkj].
    destruct (walk_chain _ _ _ _ (length seq) Hc ltac:(lia)) as (H1 & H2 & H3).
    set (w := walk _ _ _) in *. split_and!; [done| |intros l Hl Ha; specialize (Hlong l Hl Ha); lia].
    destruct w as [|i w]; [done|]. injection H3 as ->. inversion H2 as [|? ? _ Hw]; subst. constructor; [done|].
    eapply Forall_impl; [exact Hw|]. intros i [Hi _]. lia.
  - apply last_None in Hj. rewrite Hj in Hlen. replace (walk _ _ None) with (@nil nat) by (by destruct (length seq)).
    split_and!; [constructor|constructor|]. intros l Hl Ha. specialize (Hlong l Hl Ha). simpl in *. lia.
Qed.

(** ** Subsequences by index *)
Lemma sublist_by_index {A} (l : list A) js : ascending js → omap (λ i, l !! i) js `sublist_of` l.
Proof.
  revert js. induction l as [|x l IH]; intros js Hjs0.
  - induction js as [|i js IHi]; [done|]. cbn. apply IHi. by inversion Hjs0.
  - assert (Hshift : ∀ ks, ascending ks → Forall (λ j, 0 < j) ks → omap (λ i, (x :: l) !! i) ks `sublist_of` l).
    { intros ks Hjs Hpos. replace (omap _ ks) with (omap (λ i, l !! i) (pred <$> ks)).
      - apply IH. clear -Hjs Hpos. induction Hjs as [|j ks Hjs IH Hj]; [constructor|]. inversion Hpos; subst. constructor; [by apply IH|].
        apply Forall_fmap. eapply Forall_impl; [exact Hj|]. intros k Hk. cbn. lia.
      - clear -Hpos. induction Hpos as [|[|j] ks Hj _ IH]; [done|lia|]. rewrite fmap_cons. cbn. by rewrite <-IH. }
    destruct Hjs0 as [|[|i] js Hjs0 Hi]; [apply sublist_nil_l| |].
    + cbn. apply sublist_skip. apply Hshift; [done|]. eapply Forall_impl; [exact Hi|]. intros j Hj. lia.
    + apply sublist_cons, (Hshift (S i :: js)); [by constructor|]. constructor; [lia|]. eapply Forall_impl; [exact Hi|]. intros j Hj. lia.
Qed.

Lemma ascending_sublist l l' : l `sublist_of` l' → ascending l' → ascending l.
Proof.
  induction 1 as [|x l l' Hl IH|x l l' Hl IH]; intros Ha; [done| |]; inversion Ha as [|? ? Ha' Hx]; subst; [|by apply IH].
  constructor; [by apply IH|]. rewrite Forall_forall in Hx |- *. intros y Hy. apply Hx. eapply elem_of_sublist; eauto.
Qed.


(** ** The index of the old version *)
Lemma index_fold_absent (l : list RunbookStep) n m id :
  id ∉ rs_id <$> l →
  jm_get (foldl (λ m p, jm_set m (rs_id p.2) p.1) m (imap (λ i, pair (n + i)) l)) id = jm_get m id.
Proof.
  revert n m. induction l as [|s l IH]; intros n m Hid; [done|]. rewrite fmap_cons, not_elem_of_cons in Hid. destruct Hid as [Hne Hid].
  rewrite imap_cons. cbn [foldl fst snd]. replace (imap _ l) with (imap (λ i, pair (S n + i)) l : list (nat * RunbookStep))
    by (apply imap_ext; intros; cbn; f_equal; lia).
  rewrite IH by done. rewrite jm_get_set. by rewrite decide_False.
Qed.

Lemma index_fold_present (l : list RunbookStep) n m i s :
  NoDup (rs_id <$> l) → l !! i = Some s →
  jm_get (foldl (λ m p, jm_set m (rs_id p.2) p.1) m (imap (λ i, pair (n + i)) l)) (rs_id s) = Some (n + i).
Proof.
  revert n m i. induction l as [|t l IH]; intros n m i Hn Hi; [done|]. rewrite fmap_cons, NoDup_cons in Hn. destruct Hn as [Ht Hn].
  rewrite imap_cons. cbn [foldl fst snd]. replace (imap _ l) with (imap (λ i, pair (S n + i)) l : list (nat * RunbookStep))
    by (apply imap_ext; intros; cbn; f_equal; lia).
  destruct i as [|i]; cbn in Hi.
  - injection Hi as ->. rewrite index_fold_absent by done. rewrite jm_get_set, decide_True by done. by rewrite Nat.add_0_r.
  - rewrite (IH (S n) _ i) by done. f_equal. lia.
Qed.

Lemma before_index_get d id i : NoDup (ids d) → jm_get (before_index d) id = Some i ↔ ids d !! i = Some id.
Proof.
  intros Hn. unfold ids. rewrite list_lookup_fmap. split.
  - intros Hg. destruct (decide (id ∈ ids d)) as [Hin|Hout].
    + apply list_elem_of_fmap in Hin as (s & -> & [j Hj]%list_elem_of_lookup).
      pose proof (index_fold_present _ 0 [] j s Hn Hj) as Hp. change (jm_get (before_index d) (rs_id s) = Some j) in Hp.
      rewrite Hp in Hg. injection Hg as <-. by rewrite Hj.
    + pose proof (index_fold_absent _ 0 [] id Hout) as Hp. change (jm_get (before_index d) id = None) in Hp. congruence.
  - destruct (rd_steps d !! i) as [s|] eqn:Hi; [|done]. intros [= <-]. by apply (index_fold_present _ 0 [] i s Hn).
Qed.

Lemma before_index_is_Some d id : NoDup (ids d) → is_Some (jm_get (before_index d) id) ↔ id ∈ ids d.
Proof.
  intros Hn. rewrite list_elem_of_lookup. split; intros [i Hi]; exists i; by apply before_index_get.
Qed.

Lemma shared_ids_filter before after :
  NoDup (ids before) → shared_ids before after = filter (λ id, id ∈ ids before) (ids after).
Proof.
  intros Hn. unfold shared_ids. change (ids after) with (rs_id <$> rd_steps after). induction (rd_steps after) as [|s l IH]; [done|]. rewrite fmap_cons, !filter_cons.
  pose proof (before_index_is_Some before (rs_id s) Hn) as Hi. destruct (decide (is_Some _)) as [H1|H1], (decide (rs_id s ∈ _)) as [H2|H2];
    [rewrite fmap_cons; by f_equal|tauto|tauto|done].
Qed.

(** Ids in the old version's order are ascending places. *)
Lemma omap_places {A} (f : A → option nat) n l :
  (∀ i x, l !! i = Some x → f x = Some (n + i)) → omap f l = seq n (length l).
Proof.
  revert n. induction l as [|x l IH]; intros n Hf; [done|]. cbn. rewrite (Hf 0 x eq_refl), Nat.add_0_r. f_equal.
  apply IH. intros i y Hi. rewrite (Hf (S i) y Hi). f_equal. lia.
Qed.

Lemma ascending_seq n k : ascending (seq n k).
Proof.
  revert n. induction k as [|k IH]; intros n; cbn; constructor; [apply IH|]. apply Forall_forall. intros x Hx%elem_of_seq. lia.
Qed.

Lemma index_ascending before : NoDup (ids before) → ascending (omap (λ id, jm_get (before_index before) id) (ids before)).
Proof.
  intros Hn. rewrite (omap_places _ 0); [apply ascending_seq|]. intros i id Hi. by apply before_index_get.
Qed.

Lemma ascending_rev l : StronglySorted gt l → ascending (reverse l).
Proof.
  induction 1 as [|x l Hl IH Hx]; [constructor|]. rewrite reverse_cons. apply ascending_snoc. split; [done|].
  rewrite Forall_forall in Hx |- *. intros y Hy. rewrite elem_of_reverse in Hy. apply Hx in Hy. lia.
Qed.

(** ** The steps that keep their order *)
Section stable.
Context (before after : RunbookDefinition) (Hn : NoDup (ids before)).
Let shared := shared_ids before after.
Let idx id := jm_get (before_index before) id.
Let w := lis_indices (shared_seq before after).

Lemma shared_in id : id ∈ shared → id ∈ ids before.
Proof using Hn. unfold shared. rewrite shared_ids_filter by done. by intros [? _]%list_elem_of_filter. Qed.

Lemma shared_seq_lookup i v : shared_seq before after !! i = Some v ↔ ∃ id, shared !! i = Some id ∧ ids before !! v = Some id.
Proof using Hn.
  unfold shared_seq. fold shared. assert (Hall : ∀ id, id ∈ shared → id ∈ ids before) by apply shared_in. revert i.
  induction shared as [|id l IH]; intros i; [split; [done|by intros (? & ? & _)]|]. cbn.
  assert (Hid : is_Some (jm_get (before_index before) id)) by (apply before_index_is_Some; [done|apply Hall; by left]).
  destruct Hid as [u Hu]. rewrite Hu. apply before_index_get in Hu; [|done]. destruct i as [|i]; cbn.
  - split; [intros [= <-]; by exists id|]. intros (? & [= <-] & Hv). f_equal. by eapply NoDup_lookup.
  - apply IH. intros x Hx. apply Hall. by right.
Qed.

(** The kept ids, first to last, are common to both versions in order, and no common order is longer. *)
Lemma kept_common :
  reverse (stableOrder before after) = omap (λ i, shared !! i) (reverse w) ∧
  reverse (stableOrder before after) `sublist_of` ids before ∧ reverse (stableOrder before after) `sublist_of` ids after ∧
  length (stableOrder before after) = length w.
Proof using Hn.
  destruct (lis_indices_longest (shared_seq before after)) as (Hf & Hr & _). fold w in Hf, Hr.
  assert (E : reverse (stableOrder before after) = omap (λ i, shared !! i) (reverse w)) by apply reverse_omap.
  assert (Hlen : ∀ i, i ∈ w → ∃ id v, shared !! i = Some id ∧ shared_seq before after !! i = Some v ∧ ids before !! v = Some id).
  { intros i Hi. rewrite Forall_forall in Hr. apply Hr in Hi. apply lookup_lt_is_Some in Hi as [v Hv].
    destruct (proj1 (shared_seq_lookup i v) Hv) as (id & H1 & H2). by exists id, v. }
  split_and!; [done| | |].
  - replace (reverse _) with (omap (λ v, ids before !! v) (reverse (omap (λ i, shared_seq before after !! i) w))).
    + apply sublist_by_index, ascending_rev. clear E. revert Hlen. induction Hf as [|i l Hf IH Hi]; intros Hlen; [constructor|]. cbn.
      destruct (Hlen i ltac:(by left)) as (id & v & _ & Hv & _). rewrite Hv. constructor.
      * apply IH; [by inversion Hr|]. intros j Hj. apply Hlen. by right.
      * apply Forall_forall. intros u (j & Hj & Hu)%list_elem_of_omap. rewrite Forall_forall in Hi.
        destruct (Hi j Hj) as (_ & a & b & Ha & Hb & Hab). simplify_eq. lia.
    + rewrite <-reverse_omap. f_equal. clear E Hf Hr. change (stableOrder before after) with (omap (λ i, shared !! i) w).
      induction w as [|i l IH]; [done|]. cbn. destruct (Hlen i ltac:(by left)) as (id & v & -> & -> & Hv). cbn. rewrite Hv. f_equal.
      apply IH. intros j Hj. apply Hlen. by right.
  - rewrite E. trans shared; [apply sublist_by_index, ascending_rev|].
    + clear -Hf. induction Hf as [|i l Hf IH Hi]; constructor; [done|]. eapply Forall_impl; [exact Hi|]. by intros j [Hj _].
    + unfold shared. rewrite shared_ids_filter by done. apply sublist_filter.
  - apply length_omap_all. intros i Hi. destruct (Hlen i Hi) as (id & _ & Hid & _). by exists id.
Qed.

Lemma kept_longest c : c `sublist_of` ids before → c `sublist_of` ids after → length c ≤ length (stableOrder before after).
Proof using Hn.
  intros Hb Ha. destruct kept_common as (_ & _ & _ & ->). destruct (lis_indices_longest (shared_seq before after)) as (_ & _ & Hbest).
  assert (Hin : ∀ id, id ∈ c → id ∈ ids before) by (intros id Hid; by eapply elem_of_sublist).
  rewrite <-(length_omap_all idx c) by (intros id Hid; apply before_index_is_Some; auto). apply Hbest.
  - apply sublist_omap. unfold shared. rewrite shared_ids_filter by done.
    rewrite <-(filter_all (λ id, id ∈ ids before) c Hin). by apply sublist_filter_mono.
  - eapply ascending_sublist; [apply (sublist_omap idx), Hb|by apply index_ascending].
Qed.
End stable.

(** When every step is kept and none was removed, the two orders are one. *)
Lemma all_kept before after :
  NoDup (ids before) → NoDup (ids after) → (∀ id, id ∈ ids after → id ∈ stableOrder before after) →
  (∀ id, id ∈ ids before → id ∈ ids after) → ids before = ids after.
Proof.
  intros Hb Ha Hall Hsub. destruct (kept_common before after Hb) as (_ & Hk1 & Hk2 & _).
  assert (Hlen : length (ids after) ≤ length (reverse (stableOrder before after))).
  { apply submseteq_length, NoDup_submseteq; [done|]. intros id Hid. rewrite elem_of_reverse. auto. }
  assert (Hle : length (ids before) ≤ length (ids after)) by (by apply submseteq_length, NoDup_submseteq).
  trans (reverse (stableOrder before after)); [symmetry|]; apply sublist_full; (done || lia).
Qed.

(** ** Silence *)
Lemma same_spec {A} `{EqDecision A} (a b : A) : same a b = true ↔ a = b.
Proof. apply bool_decide_eq_true. Qed.

Lemma unless_same {A B} `{EqDecision A} (a b : A) (x : B) : (if same a b then None else Some x) = None ↔ a = b.
Proof. rewrite <-(same_spec a b). by destruct (same a b). Qed.

Lemma headerChanges_nil b a :
  headerChanges b a = [] ↔
  rd_title b = rd_title a ∧ rd_summary b = rd_summary a ∧ rd_use_when b = rd_use_when a ∧ rd_prerequisites b = rd_prerequisites a ∧
  rd_priority b = rd_priority a ∧ rd_owner b = rd_owner a ∧ rd_review_every_days b = rd_review_every_days a ∧ rd_mitre b = rd_mitre a ∧
  rd_retrieval_queries b = rd_retrieval_queries a ∧ rd_references b = rd_references a.
Proof.
  unfold headerChanges. rewrite omap_nil. unfold HEADER_FIELDS. rewrite !Forall_cons, Forall_nil. cbn beta iota. rewrite !unless_same.
  split; intros; destruct_and!; simplify_eq; split_and!; (done || by f_equal).
Qed.

Lemma appliesWhenChanges_nil a b : appliesWhenChanges a b = [] ↔ a = b.
Proof.
  unfold appliesWhenChanges. rewrite omap_nil. unfold CRITERION_LABEL. rewrite !Forall_cons, Forall_nil. cbn beta iota. rewrite !unless_same.
  split; [|intros ->; split_and!; done]. destruct a, b; cbn. intros; destruct_and!; simplify_eq; done.
Qed.

Lemma changed_fields_nil s t : rs_id s = rs_id t → rs_phase s = rs_phase t → changed_fields s t = [] ↔ s = t.
Proof.
  unfold changed_fields. rewrite omap_nil. unfold STEP_FIELDS. rewrite !Forall_cons, Forall_nil. cbn beta iota. rewrite !unless_same.
  intros Hid Hp. split; [|intros ->; split_and!; done]. destruct s, t; cbn in *. intros; destruct_and!; simplify_eq; done.
Qed.

Lemma step_changes_nil before after stable s :
  step_changes before after stable s = [] ↔ find_step (rs_id s) (rd_steps before) = Some s ∧ rs_id s ∈ stable.
Proof.
  unfold step_changes. destruct (find_step _ _) as [old|] eqn:E; [|split; [done|by intros [? _]]].
  apply find_step_Some in E as [_ Hid]. unfold same. split.
  - intros [Hf Hm]%app_nil. destruct (decide (rs_phase old = rs_phase s)) as [Hp|Hp].
    2: { by rewrite (bool_decide_eq_false_2 _ Hp) in Hm. }
    destruct (decide (rs_id s ∈ stable)) as [Hin|Hout]; [|by rewrite (bool_decide_eq_false_2 _ Hout), orb_true_r in Hm].
    split; [|done]. destruct (decide (changed_fields old s = [])) as [Hc|]; [|done]. apply changed_fields_nil in Hc; [by subst|done..].
  - intros [[= ->] Hin]. rewrite decide_True by by apply changed_fields_nil. rewrite !bool_decide_eq_true_2 by done. done.
Qed.

Lemma removed_steps_nil before after : removed_steps before after = [] ↔ ∀ id, id ∈ ids before → id ∈ ids after.
Proof.
  unfold removed_steps. rewrite omap_nil, Forall_forall. split.
  - intros H id (s & -> & Hs)%list_elem_of_fmap. specialize (H s Hs). by case_bool_decide.
  - intros H s Hs. rewrite bool_decide_eq_true_2; [done|]. apply H. by apply list_elem_of_fmap_2.
Qed.

Lemma find_step_in steps s : NoDup (rs_id <$> steps) → s ∈ steps → find_step (rs_id s) steps = Some s.
Proof.
  intros Hn Hs. destruct (find_step (rs_id s) steps) as [t|] eqn:E.
  - apply find_step_Some in E as [Ht Hid]. f_equal. by apply (NoDup_id_eq steps).
  - apply find_step_None in E. destruct E. by apply list_elem_of_fmap_2.
Qed.

Lemma steps_silent before after :
  NoDup (ids before) → NoDup (ids after) →
  (rd_steps after ≫= step_changes before after (stableOrder before after)) ++ removed_steps before after = [] ↔
  rd_steps before = rd_steps after.
Proof.
  intros Hb Ha. split.
  - intros [Hs Hr]%app_nil. rewrite removed_steps_nil in Hr.
    assert (Hall : ∀ s, s ∈ rd_steps after → find_step (rs_id s) (rd_steps before) = Some s ∧ rs_id s ∈ stableOrder before after).
    { intros s Hin. apply step_changes_nil with after. apply elem_of_nil_inv. intros c Hc. apply (not_elem_of_nil c). rewrite <-Hs.
      apply list_elem_of_bind. by exists s. }
    assert (Hids : ids before = ids after).
    { apply all_kept; [done..| |done]. intros id (s & -> & Hin)%list_elem_of_fmap. by apply Hall. }
    apply list_eq. intros i. destruct (rd_steps after !! i) as [s|] eqn:Ei.
    + destruct (Hall s) as [Hf _]; [by eapply list_elem_of_lookup_2|]. apply find_step_Some in Hf as [[j Hj]%list_elem_of_lookup _].
      rewrite <-Hj. f_equal. eapply (NoDup_lookup _ _ _ (rs_id s) Hb); [rewrite Hids|]; unfold ids; rewrite list_lookup_fmap; [by rewrite Ei|by rewrite Hj].
    + apply lookup_ge_None in Ei. apply lookup_ge_None. assert (E : length (ids before) = length (ids after)) by by rewrite Hids.
      unfold ids in E. rewrite !length_fmap in E. lia.
  - intros E. assert (Hids : ids before = ids after) by (unfold ids; by rewrite E). apply app_nil. split.
    + apply elem_of_nil_inv. intros c (s & Hc & Hs)%list_elem_of_bind. enough (step_changes before after (stableOrder before after) s = []) as H0.
      { rewrite H0 in Hc. by apply elem_of_nil in Hc. }
      apply step_changes_nil. split; [rewrite E; by apply find_step_in|].
      assert (Hl : length (ids after) ≤ length (stableOrder before after)) by (apply kept_longest; [done|by rewrite Hids|done]).
      destruct (kept_common before after Hb) as (_ & _ & Hk & _). rewrite <-(length_reverse (stableOrder before after)) in Hl.
      apply sublist_full in Hk; [|done]. rewrite <-elem_of_reverse, Hk. by apply list_elem_of_fmap_2.
    + apply removed_steps_nil. by rewrite Hids.
Qed.

(** ** Theorems *)

(** C17. The steps reported as unmoved are as many as can be: in order they are common to both
    versions, and no order the two versions share is longer, so inserting or moving one step never
    reports the steps around it. *)
Theorem stableOrder_longest before after :
  NoDup (ids before) →
  let kept := reverse (stableOrder before after) in
  kept `sublist_of` ids before ∧ kept `sublist_of` ids after ∧
  ∀ common, common `sublist_of` ids before → common `sublist_of` ids after → length common ≤ length kept.
Proof.
  intros Hn kept. destruct (kept_common before after Hn) as (_ & H1 & H2 & _). split_and!; [done|done|].
  intros c Hb Ha. unfold kept. rewrite length_reverse. by apply kept_longest.
Qed.

(** The comparison says "same" exactly when the two versions of a runbook are the same document:
    no header field, criterion, step, field of a step or order of steps escapes it, and equal
    versions report nothing. *)
Theorem diffDefinitions_same before after :
  wf before → wf after → rd_id before = rd_id after →
  dd_same (diffDefinitions before after) = true ↔ before = after.
Proof.
  intros Hb Ha Hid. unfold diffDefinitions. cbn [dd_same]. rewrite andb_true_iff, !bool_decide_eq_true, !length_zero_iff_nil, app_nil.
  rewrite headerChanges_nil, appliesWhenChanges_nil, (steps_silent before after (wf_ids _ Hb) (wf_ids _ Ha)). split.
  - intros [[Hh Hw] Hs]. pose proof (wf_phases _ Hb) as Pb. pose proof (wf_phases _ Ha) as Pa.
    destruct before, after; cbn in *. destruct_and!. by subst.
  - intros ->. split_and!; done.
Qed.

(** ** Witnesses *)
Definition plain_steps (l : list string) : RunbookDefinition :=
  with_steps_phases ((λ id, blankStep id Triage KCheck id) <$> l) [Triage] (blankDefinition 180).

Lemma stableOrder_longest_witness :
  let before := plain_steps ["a"; "b"; "c"; "d"; "e"] in let after := plain_steps ["b"; "c"; "a"; "x"; "e"] in
  reverse (stableOrder before after) = ["b"; "c"; "e"] ∧
  ∀ common, common `sublist_of` ids before → common `sublist_of` ids after → length common ≤ 3.
Proof.
  cbv zeta. split; [vm_compute; reflexivity|].
  apply (stableOrder_longest (plain_steps ["a"; "b"; "c"; "d"; "e"]) (plain_steps ["b"; "c"; "a"; "x"; "e"])).
  apply (bool_decide_unpack _). vm_compute. exact I.
Defined.

Lemma diffDefinitions_same_witness :
  let moved := moveStep demo_runbook "verdict" MoveUp in
  stepChangeLine <$> dd_steps (diffDefinitions demo_runbook moved) = ["Moved: Is it malicious?, from Triage, step 2 to Triage, step 1"] ∧
  demo_runbook ≠ moved.
Proof.
  cbv zeta. split; [vm_compute; reflexivity|]. intros E.
  apply (diffDefinitions_same demo_runbook (moveStep demo_runbook "verdict" MoveUp)) in E.
  - vm_compute in E. discriminate E.
  - exact wf_demo.
  - apply wf_moveStep, wf_demo.
  - reflexivity.
Defined.
