(* ===== verification/RunbookRun.v ===== *)
(** * Runbooks: a run inside a case (soc/runbooks/run/model.ts)

    The reading order and step numbers, the status a person sees, progress per run and per phase, the
    Next step and the open required steps a close asks about. *)

From S2P Require Import Prelude JsValue JsMap Runbook.
Local Open Scope Z_scope.

(** ** Data (lib/types-runbooks.ts) *)
Inductive StepStatus := StTodo | StInProgress | StDone | StNotApplicable | StBlocked.
(** [StepStatus | 'waiting'] *)
Inductive StepDisplayStatus := Stored (s : StepStatus) | Waiting.
Inductive ApprovalStatus := ApPending | ApApproved | ApRejected.
Inductive LookupResultStatus := LrOk | LrEmpty | LrPartial | LrError | LrNotApplicable.
Inductive EvidenceKind := EkLookupResult | EkLink | EkTicket.
Inductive RunStatus := RunActive | RunCompleted | RunAbandoned.
Inductive RunAttachedBy := ByRule | ByFallback | ByPerson | BySuggestion.

#[export] Instance StepStatus_eq_dec : EqDecision StepStatus.
Proof. solve_decision. Defined.
#[export] Instance StepDisplayStatus_eq_dec : EqDecision StepDisplayStatus.
Proof. solve_decision. Defined.
#[export] Instance ApprovalStatus_eq_dec : EqDecision ApprovalStatus.
Proof. solve_decision. Defined.
#[export] Instance EvidenceKind_eq_dec : EqDecision EvidenceKind.
Proof. solve_decision. Defined.
#[export] Instance RunStatus_eq_dec : EqDecision RunStatus.
Proof. solve_decision. Defined.
#[export] Instance RunAttachedBy_eq_dec : EqDecision RunAttachedBy.
Proof. solve_decision. Defined.

(** The named members; the index signature's others are not read. *)
Record LookupTable := mkLookupTable { lt_columns : list string; lt_rows : list (list string) }.

(** [tool] is [LookupTool | string]. *)
Record LookupResult := mkLookupResult {
  lr_tool : string;
  lr_params : list (string * string);
  lr_window_from : string;
  lr_window_to : string;
  lr_ran_at : string;
  lr_ran_by : string;
  lr_status : LookupResultStatus;
  lr_reason : option string;
  lr_count : option Z;
  lr_count_is_exact : bool;
  lr_facts : list (list (string * string));
  lr_table : option LookupTable;
  lr_table_is_rows : option bool;
  lr_window_clamped : bool;
}.

Record StepEvidence := mkEvidence {
  se_kind : EvidenceKind;
  se_lookup : option LookupResult;
  se_url : option string;
  se_label : option string;
}.

Record StepDecisionRecord := mkDecision { sd_option_id : string; sd_label : string; sd_by : string; sd_at : string }.
Record StepActionRecord := mkAction { sr_performed_by : string; sr_performed_at : string; sr_where : string; sr_outcome : string }.
Record StepApproval := mkApproval {
  sa_required_role : string; sa_status : ApprovalStatus; sa_by : option string; sa_at : option string; sa_reason : option string }.
Record StepAiDraft := mkAiDraft {
  sg_text : string; sg_created_at : string; sg_model : string; sg_usage_id : string; sg_confirmed : bool }.

Record StepState := mkStepState {
  ss_status : StepStatus;
  ss_assignee : option string;
  ss_started_at : option string;
  ss_completed_at : option string;
  ss_completed_by : option string;
  ss_note : string;
  ss_reason : option string;
  ss_evidence : list StepEvidence;
  ss_decision : option StepDecisionRecord;
  ss_action_record : option StepActionRecord;
  ss_approval : option StepApproval;
  ss_ai_draft : option StepAiDraft;
  ss_revision : Z;
}.

(** [steps] lists the object's own keys; the server sends one for every step. *)
Record RunbookRun := mkRun {
  rr_run_id : string;
  rr_case_id : string;
  rr_runbook_id : string;
  rr_version : Z;
  rr_title : string;
  rr_snapshot : RunbookDefinition;
  rr_attached_by : RunAttachedBy;
  rr_attached_reason : jsval;
  rr_attached_at : string;
  rr_attached_actor : string;
  rr_status : RunStatus;
  rr_completed_at : option string;
  rr_abandoned_reason : option string;
  rr_steps : list (string * StepState);
  rr_revision : Z;
}.

Record RunbookProgress := mkProgress {
  pg_done : Z;
  pg_not_applicable : Z;
  pg_total : Z;
  pg_required_open : Z;
  pg_blocked : Z;
  pg_waiting : Z;
}.

(** The members this module reads. *)
Record CaseRunbooks := mkCaseRunbooks { cr_runs : list RunbookRun; cr_progress : list (string * RunbookProgress) }.

(** ** Step states *)
Definition FINISHED_STATUSES : list StepStatus := [StDone; StNotApplicable].

Definition EMPTY_STEP_STATE : StepState := mkStepState StTodo None None None None "" None [] None None None None 0.

Definition stepStateOf (run : RunbookRun) (stepId : string) : StepState :=
  default EMPTY_STEP_STATE (jm_get (rr_steps run) stepId).

Definition isWaiting (state : StepState) : bool :=
  bool_decide (sa_status <$> ss_approval state = Some ApPending).

Definition isFinished (state : StepState) : bool := bool_decide (ss_status state ∈ FINISHED_STATUSES).

Definition displayStatus (state : StepState) : StepDisplayStatus :=
  if isWaiting state then Waiting else Stored (ss_status state).

(** ** Reading order *)
Definition runPhases (run : RunbookRun) : list PhaseId :=
  let used := rs_phase <$> rd_steps (rr_snapshot run) in
  let declared := filter (λ p, p ∈ used) (rd_phases (rr_snapshot run)) in
  declared ++ filter (λ p, p ∈ used ∧ p ∉ declared) PHASE_ORDER.

(** [new Map(phases.map((p, i) => [p, i]))], and [rank.get(phase) ?? phases.length] *)
Definition phase_rank (phases : list PhaseId) (p : PhaseId) : nat :=
  default (length phases) (jm_get (foldl (λ m e, jm_set m e.2 e.1) [] (imap pair phases)) p).

(** The comparator: by rank, then by index. *)
Definition reads_before (phases : list PhaseId) (a b : nat * RunbookStep) : bool :=
  let da := phase_rank phases (rs_phase a.2) in let db := phase_rank phases (rs_phase b.2) in
  (da <? db)%nat || ((da =? db) && (a.1 <=? b.1))%nat.

Definition orderedSteps (run : RunbookRun) : list RunbookStep :=
  (isort (reads_before (runPhases run)) (imap pair (rd_steps (rr_snapshot run)))).*2.

Record NumberedStep := mkNumbered {
  ns_step : RunbookStep; ns_number : nat; ns_state : StepState; ns_display : StepDisplayStatus }.

Definition numberedSteps (run : RunbookRun) : list NumberedStep :=
  imap (λ i step, let state := stepStateOf run (rs_id step) in mkNumbered step (S i) state (displayStatus state)) (orderedSteps run).

(** ** Progress *)
Definition one (b : bool) : Z := if b then 1 else 0.
Definition is_status (s : StepStatus) (state : StepState) : bool := bool_decide (ss_status state = s).

(** One round of the loop of [runProgress]. *)
Definition count_step (run : RunbookRun) (out : RunbookProgress) (step : RunbookStep) : RunbookProgress :=
  let st := stepStateOf run (rs_id step) in
  mkProgress (pg_done out + one (is_status StDone st)) (pg_not_applicable out + one (is_status StNotApplicable st))
    (pg_total out + 1) (pg_required_open out + one (rs_required step && negb (isFinished st)))
    (pg_blocked out + one (is_status StBlocked st)) (pg_waiting out + one (isWaiting st)).

Definition runProgress (run : RunbookRun) : RunbookProgress :=
  foldl (count_step run) (mkProgress 0 0 0 0 0 0) (rd_steps (rr_snapshot run)).

Definition progressOf (data : option CaseRunbooks) (run : RunbookRun) : RunbookProgress :=
  default (runProgress run) (d ← data; jm_get (cr_progress d) (rr_run_id run)).

Definition add_progress (a b : RunbookProgress) : RunbookProgress :=
  mkProgress (pg_done a + pg_done b) (pg_not_applicable a + pg_not_applicable b) (pg_total a + pg_total b)
    (pg_required_open a + pg_required_open b) (pg_blocked a + pg_blocked b) (pg_waiting a + pg_waiting b).

Definition caseProgress (data : option CaseRunbooks) : option RunbookProgress :=
  d ← data;
  foldl (λ total run,
    if decide (rr_status run = RunAbandoned) then total
    else let p := progressOf data run in
         Some (match total with Some t => add_progress t p | None => p end)) None (cr_runs d).

(** ** Which run, which step *)

(** The host's [Date.parse], in milliseconds; [None] is [NaN]. *)
Class Dates := { date_parse : string → option Z }.

(** [Date.parse(b) - Date.parse(a)] is at most zero, or [NaN], which sorts as zero. A text that is no
    date makes the comparator inconsistent, and the order of [sort] the engine's. *)
Definition newest_first `{Dates} (a b : RunbookRun) : bool :=
  match date_parse (rr_attached_at a), date_parse (rr_attached_at b) with
  | Some ta, Some tb => tb <=? ta
  | _, _ => true
  end.

Definition primaryRun `{Dates} (data : option CaseRunbooks) : option RunbookRun :=
  let runs := match data with Some d => cr_runs d | None => [] end in
  match List.find (λ r, bool_decide (rr_status r = RunActive)) runs with
  | Some active => Some active
  | None =>
      let byNewest := isort newest_first runs in
      match List.find (λ r, bool_decide (rr_status r = RunCompleted)) byNewest with
      | Some r => Some r
      | None => head byNewest
      end
  end.

Definition runWorkable (run : RunbookRun) : bool := negb (bool_decide (rr_status run = RunAbandoned)).

Definition is_next (s : NumberedStep) : bool :=
  rs_required (ns_step s) && negb (isFinished (ns_state s)) && negb (bool_decide (ns_display s = Waiting)).

Definition nextStep (run : RunbookRun) : option NumberedStep :=
  if runWorkable run then List.find is_next (numberedSteps run) else None.

Definition openSteps (run : RunbookRun) : list NumberedStep :=
  List.filter (λ s, negb (isFinished (ns_state s))) (numberedSteps run).

(** ** Per phase *)
Record PhaseCount := mkPhaseCount {
  pc_phase : PhaseId; pc_total : Z; pc_done : Z; pc_na : Z; pc_waiting : Z; pc_blocked : Z; pc_open : Z }.

Definition no_count (phase : PhaseId) : PhaseCount := mkPhaseCount phase 0 0 0 0 0 0.

(** One round of the loop over the numbered steps, on the entry of its phase. *)
Definition count_in_phase (c : PhaseCount) (s : NumberedStep) : PhaseCount :=
  let st := ns_state s in
  mkPhaseCount (pc_phase c) (pc_total c + 1) (pc_done c + one (is_status StDone st))
    (pc_na c + one (is_status StNotApplicable st)) (pc_waiting c + one (bool_decide (ns_display s = Waiting)))
    (pc_blocked c + one (is_status StBlocked st))
    (pc_open c + one (negb (is_status StDone st) && negb (is_status StNotApplicable st))).

Definition phaseCounts (run : RunbookRun) : list PhaseCount :=
  let m := foldl (λ m p, jm_set m p (no_count p)) [] (runPhases run) in
  (foldl (λ m s, let p := rs_phase (ns_step s) in
            match jm_get m p with
            | Some c => jm_set m p (count_in_phase c s)
            | None => m
            end) m (numberedSteps run)).*2.

(** ** What a close asks about *)

(** [toLocaleString()] of a non-negative integer: the host's digits and groups. *)
Class Locale := { toLocaleString : Z → string }.

Section words.
Context `{Locale}.

Definition n (value : Z) : string := toLocaleString (Z.max 0 value).

Definition dot : string := " · ".

Definition phaseWords (c : PhaseCount) : string :=
  if pc_open c =? 0 then
    if pc_na c =? 0 then "Complete"
    else if pc_done c =? 0 then n (pc_na c) +:+ " not applicable"
    else "Finished" +:+ dot +:+ n (pc_na c) +:+ " not applicable"
  else
    let plain := pc_open c - pc_waiting c - pc_blocked c in
    join_strings dot
      ((if pc_waiting c =? 0 then [] else [n (pc_waiting c) +:+ " waiting"]) ++
       (if pc_blocked c =? 0 then [] else [n (pc_blocked c) +:+ " blocked"]) ++
       (if 0 <? plain then [n plain +:+ " open"] else [])).

Definition phaseTabName (c : PhaseCount) : string :=
  join_strings ", "
    ([PHASE_LABEL (pc_phase c) +:+ ", " +:+ n (pc_done c) +:+ " of " +:+ n (pc_total c) +:+ " done"] ++
     (if pc_na c =? 0 then [] else [n (pc_na c) +:+ " not applicable"]) ++
     (if pc_waiting c =? 0 then [] else [n (pc_waiting c) +:+ " waiting"]) ++
     (if pc_blocked c =? 0 then [] else [n (pc_blocked c) +:+ " blocked"])).

Definition runLabel (run : RunbookRun) : string := rr_title run +:+ ", version " +:+ n (rr_version run).

Record RunbookStepsOpen := mkStepsOpen { so_run_id : string; so_step_id : string; so_title : string; so_status : StepStatus }.

Record OpenRequiredStep := mkOpenRequired {
  or_item : RunbookStepsOpen;
  or_number : option nat;
  or_display : StepDisplayStatus;
  or_kind : option StepKind;
  or_runLabel : string;
}.

Definition open_required (s : NumberedStep) : bool := rs_required (ns_step s) && negb (isFinished (ns_state s)).

Definition openRequiredSteps (data : option CaseRunbooks) : list OpenRequiredStep :=
  match data with
  | None => []
  | Some d =>
      cr_runs d ≫= λ run,
        if decide (rr_status run = RunActive) then
          (λ s, mkOpenRequired
                  (mkStepsOpen (rr_run_id run) (rs_id (ns_step s)) (rs_title (ns_step s)) (ss_status (ns_state s)))
                  (Some (ns_number s)) (ns_display s) (Some (rs_kind (ns_step s))) (runLabel run)) <$>
            List.filter open_required (numberedSteps run)
        else []
  end.

Definition openStepsFromRefusal (steps : list RunbookStepsOpen) (data : option CaseRunbooks) : list OpenRequiredStep :=
  (λ item,
    let run := d ← data; List.find (λ r, bool_decide (rr_run_id r = so_run_id item)) (cr_runs d) in
    let numbered := r ← run; List.find (λ s, bool_decide (rs_id (ns_step s) = so_step_id item)) (numberedSteps r) in
    mkOpenRequired item (ns_number <$> numbered) (default (Stored (so_status item)) (ns_display <$> numbered))
      (rs_kind ∘ ns_step <$> numbered) (match run with Some r => runLabel r | None => "" end)) <$> steps.
End words.

(** ** Evidence *)

(** [for (let i = list.length - 1; i >= 0; i -= 1)] *)
Definition lookupResultOf (state : StepState) : option LookupResult :=
  head (omap (λ item, if decide (se_kind item = EkLookupResult) then se_lookup item else None) (reverse (ss_evidence state))).

Definition evidenceLinks (state : StepState) : list StepEvidence :=
  filter (λ e, se_kind e = EkLink ∨ se_kind e = EkTicket) (ss_evidence state).

Definition needsNoteBeforeDone (step : RunbookStep) (state : StepState) : bool :=
  match rs_evidence step with
  | EvNote => String.eqb (trim (ss_note state)) ""
  | EvNoteOrAttachment => String.eqb (trim (ss_note state)) "" && bool_decide (length (evidenceLinks state) = 0%nat)
  | EvNone => false
  end.
