(* ===== verification/RunbookRunSpec.v ===== *)
(** * Runbooks: the views of a run agree

    The reading order is the editor's, every view counts the same steps, and the Next step is the
    first one that can be worked. *)

From S2P Require Import Prelude StableSort JsValue JsMap Runbook RunbookSpec RunbookEdits RunbookMoves RunbookRun.
From stdpp Require Import pretty.
Local Open Scope Z_scope.

(** ** Ranks *)
Lemma index_map_get {K} `{EqDecision K} (l : list K) k m p i :
  jm_get (foldl (λ m e, jm_set m e.2 e.1) m (imap (λ i, pair (k + i)%nat) l)) p = Some i →
  (∃ j, i = (k + j)%nat ∧ l !! j = Some p) ∨ ((p ∉ l) ∧ jm_get m p = Some i).
Proof.
  revert k m. induction l as [|q l IH]; intros k m; [right; by split; [apply not_elem_of_nil|]|].
  rewrite imap_cons. cbn [foldl fst snd]. erewrite imap_ext; [intros [(j & -> & Hj)|[Hp Hm]]%(IH (S k))|].
  - left. exists (S j). split; [lia|done].
  - rewrite jm_get_set in Hm. destruct (decide (q = p)) as [->|Hne]; [injection Hm as <-; left; exists 0%nat; split; [lia|done]|].
    right. split; [|done]. by rewrite not_elem_of_cons.
  - intros j x _. cbn. f_equal. lia.
Qed.

Lemma index_map_in {K} `{EqDecision K} (l : list K) k m p :
  p ∈ l ∨ is_Some (jm_get m p) → is_Some (jm_get (foldl (λ m e, jm_set m e.2 e.1) m (imap (λ i, pair (k + i)%nat) l)) p).
Proof.
  revert k m. induction l as [|q l IH]; intros k m Hp; [by destruct Hp as [?%elem_of_nil|]|].
  rewrite imap_cons. cbn [foldl fst snd]. erewrite imap_ext; [apply (IH (S k))|].
  - rewrite jm_get_set. destruct (decide (q = p)); [by right|]. rewrite elem_of_cons in Hp. naive_solver.
  - intros j x _. cbn. f_equal. lia.
Qed.

Lemma phase_rank_lookup phases p : p ∈ phases → phases !! phase_rank phases p = Some p.
Proof.
  intros Hp. unfold phase_rank. destruct (index_map_in phases 0 [] p (or_introl Hp)) as [i Hi].
  destruct (index_map_get phases 0 [] p i Hi) as [(j & -> & Hj)|[? _]]; [|done].
  change (imap (λ i, pair (0 + i)%nat) phases) with (imap pair phases) in Hi. by rewrite Hi.
Qed.

Lemma phase_rank_inj phases p q : p ∈ phases → q ∈ phases → phase_rank phases p = phase_rank phases q → p = q.
Proof. intros Hp%phase_rank_lookup Hq%phase_rank_lookup E. rewrite E in Hp. congruence. Qed.

Lemma phase_rank_NoDup phases i p : NoDup phases → phases !! i = Some p → phase_rank phases p = i.
Proof. intros Hn Hi. eapply NoDup_lookup; [done|apply phase_rank_lookup; by eapply list_elem_of_lookup_2|done]. Qed.

(** ** Reading order *)
Definition run_rank (run : RunbookRun) (s : RunbookStep) : Z := Z.of_nat (phase_rank (runPhases run) (rs_phase s)).

Lemma reads_before_rank run a b :
  reads_before (runPhases run) a b = true ↔
  run_rank run a.2 < run_rank run b.2 ∨ (run_rank run a.2 = run_rank run b.2 ∧ (a.1 ≤ b.1)%nat).
Proof.
  unfold reads_before, run_rank. rewrite orb_true_iff, andb_true_iff, Nat.ltb_lt, Nat.eqb_eq, Nat.leb_le. lia.
Qed.

Lemma orderedSteps_Permutation run : orderedSteps run ≡ₚ rd_steps (rr_snapshot run).
Proof. apply sort_by_Permutation. Qed.

Lemma elem_of_runPhases run p : p ∈ runPhases run ↔ p ∈ rs_phase <$> rd_steps (rr_snapshot run).
Proof.
  unfold runPhases. rewrite elem_of_app, !list_elem_of_filter. split; [tauto|]. intros Hp.
  destruct (decide (p ∈ rd_phases (rr_snapshot run))); [by left|]. right. split; [split; [done|tauto]|]. by destruct p; repeat constructor.
Qed.

Lemma NoDup_runPhases run : NoDup (rd_phases (rr_snapshot run)) → NoDup (runPhases run).
Proof.
  intros Hn. unfold runPhases. apply NoDup_app. split_and!; [by apply NoDup_filter| |].
  - intros p Hp Hq. apply list_elem_of_filter in Hq as [[_ Hq] _]. done.
  - apply NoDup_filter. apply (bool_decide_unpack _). by vm_compute.
Qed.

(** The steps phase after phase, each phase as written. *)
Lemma orderedSteps_concat run :
  NoDup (rd_phases (rr_snapshot run)) → orderedSteps run = runPhases run ≫= stepsInPhase (rr_snapshot run).
Proof.
  intros Hn%NoDup_runPhases. set (steps := rd_steps (rr_snapshot run)).
  assert (Hin : ∀ s, s ∈ steps → rs_phase s ∈ runPhases run) by (intros s Hs; by apply elem_of_runPhases, list_elem_of_fmap_2).
  rewrite (ranked_concat (run_rank run) 0 (length (runPhases run)) (orderedSteps run)).
  - apply bind_seq. intros i p Hp. cbn.
    rewrite (sort_by_stable (run_rank run) _ (reads_before_rank run) (Z.of_nat i) steps : filter _ (orderedSteps run) = _), stepsInPhase_eq.
    assert (E : ∀ s, s ∈ steps → run_rank run s = Z.of_nat i ↔ in_phase p s).
    { intros s Hs. unfold run_rank, in_phase. pose proof (phase_rank_NoDup _ _ _ Hn Hp) as Hi. split; [|intros ->; by rewrite Hi].
      intros E. apply (phase_rank_inj (runPhases run)); [by apply Hin|by eapply list_elem_of_lookup_2|lia]. }
    fold steps. clear -E. induction steps as [|s l IH]; [done|]. rewrite !filter_cons. specialize (E s ltac:(by left)) as Es.
    rewrite IH by (intros t Ht; apply E; by right). destruct (decide (run_rank run s = _)), (decide (in_phase p s)); tauto.
  - exact (sort_by_sorted (run_rank run) _ (reads_before_rank run) steps).
  - rewrite orderedSteps_Permutation. apply Forall_forall. intros s Hs. unfold run_rank.
    pose proof (phase_rank_lookup _ _ (Hin s Hs)) as Hl%lookup_lt_Some. lia.
Qed.

(** A runbook the editor keeps is read as it stands. *)
Lemma elem_of_phasesOf steps p : p ∈ phasesOf steps ↔ p ∈ rs_phase <$> steps.
Proof.
  unfold phasesOf. rewrite list_elem_of_filter, Exists_exists, list_elem_of_fmap. split; [naive_solver|].
  intros (s & -> & Hs). split; [by exists s|]. by destruct (rs_phase s); repeat constructor.
Qed.

Lemma phasesOf_sorted steps : StronglySorted (λ p q, phaseRank p < phaseRank q) (phasesOf steps).
Proof. apply StronglySorted_filter. repeat constructor; vm_compute; done. Qed.

Lemma wf_runPhases run : wf (rr_snapshot run) → runPhases run = phasesOf (rd_steps (rr_snapshot run)).
Proof.
  intros Hw. unfold runPhases. rewrite (wf_phases _ Hw). rewrite filter_all by (intros p; apply elem_of_phasesOf).
  replace (filter _ PHASE_ORDER) with (@nil PhaseId); [apply app_nil_r|]. symmetry. apply elem_of_nil_inv.
  intros p [[Hu Hd] _]%list_elem_of_filter. by apply Hd, elem_of_phasesOf.
Qed.

Lemma orderedSteps_wf run : wf (rr_snapshot run) → orderedSteps run = rd_steps (rr_snapshot run).
Proof.
  intros Hw. apply (sort_by_id (run_rank run) _ (reads_before_rank run)). pose proof (wf_grouped _ Hw) as Hg.
  assert (Hmono : ∀ s t, s ∈ rd_steps (rr_snapshot run) → t ∈ rd_steps (rr_snapshot run) →
    phaseRank (rs_phase s) ≤ phaseRank (rs_phase t) → run_rank run s ≤ run_rank run t).
  { intros s t Hs Ht Hle. unfold run_rank. rewrite (wf_runPhases run Hw). apply list_elem_of_fmap_2 with (f := rs_phase), elem_of_phasesOf, phase_rank_lookup in Hs, Ht.
    destruct (decide (phase_rank (phasesOf (rd_steps (rr_snapshot run))) (rs_phase t) < phase_rank (phasesOf (rd_steps (rr_snapshot run))) (rs_phase s))%nat) as [Hlt|]; [|lia].
    pose proof (StronglySorted_lookup _ _ _ _ _ _ (phasesOf_sorted _) Ht Hs Hlt). simpl in *. lia. }
  revert Hg Hmono. generalize (rd_steps (rr_snapshot run)). intros l Hg Hmono. induction Hg as [|s l Hg IH Hs]; constructor.
  - apply IH. intros a b Ha Hb. apply Hmono; by right.
  - rewrite Forall_forall in Hs |- *. intros t Ht. apply Hmono; [by left|by right|by apply Hs].
Qed.

(** ** Counting *)
Lemma numbered_steps run : ns_step <$> numberedSteps run = orderedSteps run.
Proof. unfold numberedSteps. rewrite fmap_imap. cbn. apply list_eq. intros i. rewrite list_lookup_imap. by destruct (orderedSteps run !! i). Qed.

Lemma numbered_lookup run i s :
  numberedSteps run !! i = Some s ↔
  ∃ step, orderedSteps run !! i = Some step ∧
    s = mkNumbered step (S i) (stepStateOf run (rs_id step)) (displayStatus (stepStateOf run (rs_id step))).
Proof.
  unfold numberedSteps. rewrite list_lookup_imap. destruct (orderedSteps run !! i) as [step|]; cbn; [|naive_solver].
  split; [intros [= <-]; by exists step|]. by intros (? & [= <-] & ->).
Qed.

(** A sum over the numbered steps of what a step and its state say. *)
Lemma numbered_sum run (f : RunbookStep → StepState → Z) :
  Zsum ((λ s, f (ns_step s) (ns_state s)) <$> numberedSteps run) =
  Zsum ((λ s, f s (stepStateOf run (rs_id s))) <$> rd_steps (rr_snapshot run)).
Proof.
  rewrite <-(orderedSteps_Permutation run). unfold numberedSteps. rewrite fmap_imap. f_equal. apply list_eq. intros i.
  rewrite list_lookup_imap, list_lookup_fmap. by destruct (orderedSteps run !! i).
Qed.

Lemma displayed_waiting s run i : numberedSteps run !! i = Some s → bool_decide (ns_display s = Waiting) = isWaiting (ns_state s).
Proof.
  intros (step & _ & ->)%numbered_lookup. cbn. unfold displayStatus. destruct (isWaiting _); [by rewrite bool_decide_eq_true_2|].
  by rewrite bool_decide_eq_false_2.
Qed.

Lemma runProgress_sums run :
  let sum f := Zsum ((λ s, f s (stepStateOf run (rs_id s))) <$> rd_steps (rr_snapshot run)) in
  runProgress run = mkProgress (sum (λ _ st, one (is_status StDone st))) (sum (λ _ st, one (is_status StNotApplicable st)))
    (sum (λ _ _, 1)) (sum (λ s st, one (rs_required s && negb (isFinished st)))) (sum (λ _ st, one (is_status StBlocked st)))
    (sum (λ _ st, one (isWaiting st))).
Proof.
  cbv zeta. unfold runProgress. generalize (rd_steps (rr_snapshot run)). intros l.
  assert (H : ∀ l p, foldl (count_step run) p l = add_progress p (foldl (count_step run) (mkProgress 0 0 0 0 0 0) l)).
  { clear. induction l as [|s l IH]; intros p; [by destruct p; unfold add_progress; cbn; rewrite !Z.add_0_r|]. cbn [foldl].
    rewrite (IH (count_step run p s)), (IH (count_step run (mkProgress _ _ _ _ _ _) s)).
    unfold count_step, add_progress. cbn. f_equal; lia. }
  induction l as [|s l IH]; [done|]. cbn [foldl]. rewrite H, IH. rewrite !fmap_cons, !Zsum_cons.
  unfold count_step, add_progress. cbn. done.
Qed.

(** One counter of the phase table: each round adds to it what the step says. *)
Section counter.
Context (f : PhaseCount → Z) (g : NumberedStep → Z) (Hf : ∀ c s, f (count_in_phase c s) = f c + g s) (H0 : ∀ p, f (no_count p) = 0).

Lemma sum_jm_set (m : list (PhaseId * PhaseCount)) p c c' :
  jm_get m p = Some c → Zsum (f <$> (jm_set m p c').*2) = Zsum (f <$> m.*2) - f c + f c'.
Proof using.
  induction m as [|[q d] m IH]; [done|]. cbn [jm_get jm_set]. destruct (decide (q = p)) as [->|Hne].
  - intros [= ->]. rewrite !fmap_cons, !Zsum_cons. cbn. lia.
  - intros Hc. rewrite !fmap_cons, !Zsum_cons, IH by done. cbn. lia.
Qed.

Definition count_all (m : list (PhaseId * PhaseCount)) (l : list NumberedStep) : list (PhaseId * PhaseCount) :=
  foldl (λ m s, let p := rs_phase (ns_step s) in
    match jm_get m p with Some c => jm_set m p (count_in_phase c s) | None => m end) m l.

Lemma count_all_sum m l :
  Forall (λ s, is_Some (jm_get m (rs_phase (ns_step s)))) l →
  Zsum (f <$> (count_all m l).*2) = Zsum (f <$> m.*2) + Zsum (g <$> l).
Proof using Hf.
  revert m. induction l as [|s l IH]; intros m Hl; [change (Zsum (g <$> [])) with 0; cbn [count_all foldl]; lia|]. apply Forall_cons in Hl as [[c Hc] Hl].
  unfold count_all. cbn [foldl]. rewrite Hc. rewrite (IH (jm_set m (rs_phase (ns_step s)) (count_in_phase c s))).
  - rewrite (sum_jm_set m _ c) by done. rewrite Hf, fmap_cons, Zsum_cons. lia.
  - eapply Forall_impl; [exact Hl|]. intros t Ht. rewrite jm_get_set. by case_decide.
Qed.
End counter.

Lemma fresh_counts (P : PhaseCount → Prop) l (m : list (PhaseId * PhaseCount)) :
  (∀ p, P (no_count p)) → Forall (λ e, P e.2) m → Forall (λ e, P e.2) (foldl (λ m p, jm_set m p (no_count p)) m l).
Proof.
  intros HP. revert m. induction l as [|p l IH]; intros m Hm; [done|]. cbn [foldl]. apply IH.
  induction Hm as [|[q d] m Hd Hm IHm]; cbn [jm_set]; [repeat constructor; apply HP|].
  destruct (decide (q = p)); constructor; done || apply HP.
Qed.

Lemma Zsum_zero {A} (f : A → Z) l : Forall (λ x, f x = 0) l → Zsum (f <$> l) = 0.
Proof. induction 1 as [|x l Hx _ IH]; [done|]. rewrite fmap_cons, Zsum_cons. lia. Qed.

Lemma phaseCounts_sum run (f : PhaseCount → Z) (g : NumberedStep → Z) :
  (∀ c s, f (count_in_phase c s) = f c + g s) → (∀ p, f (no_count p) = 0) →
  Zsum (f <$> phaseCounts run) = Zsum (g <$> numberedSteps run).
Proof.
  intros Hf H0. unfold phaseCounts. change (foldl _ ?m (numberedSteps run)) with (count_all m (numberedSteps run)).
  rewrite (count_all_sum f g Hf).
  - rewrite (Zsum_zero f); [lia|]. apply Forall_fmap, (fresh_counts (λ c, f c = 0) (runPhases run) [] H0). constructor.
  - apply Forall_forall. intros s [i Hi]%list_elem_of_lookup. apply numbered_lookup in Hi as (step & Hs & ->). cbn.
    apply list_elem_of_lookup_2 in Hs. rewrite orderedSteps_Permutation in Hs.
    assert (Hp : rs_phase step ∈ runPhases run) by (by apply elem_of_runPhases, list_elem_of_fmap_2).
    revert Hp. generalize (rs_phase step). intros p. 
    enough (∀ l m, p ∈ l ∨ is_Some (jm_get m p) → is_Some (jm_get (foldl (λ m p, jm_set m p (no_count p)) m l) p)) as He by (intros Hp; apply He; by left).
    clear. induction l as [|q l IH]; intros m Hm; [destruct Hm as [?%elem_of_nil|]; done|]. cbn [foldl]. apply IH. rewrite jm_get_set.
    destruct (decide (q = p)); [by right|]. rewrite elem_of_cons in Hm. naive_solver.
Qed.

Lemma Zsum_fmap_add {A} (f g h : A → Z) l : (∀ x, f x = g x + h x) → Zsum (f <$> l) = Zsum (g <$> l) + Zsum (h <$> l).
Proof. intros E. induction l as [|x l IH]; [done|]. rewrite !fmap_cons, !Zsum_cons, E. lia. Qed.

Lemma Zsum_one {A} (b : A → bool) l : Zsum ((λ x, one (b x)) <$> l) = Z.of_nat (length (List.filter b l)).
Proof. induction l as [|x l IH]; [done|]. rewrite fmap_cons, Zsum_cons, IH. cbn [List.filter]. destruct (b x); cbn [one length]; lia. Qed.

Lemma Zsum_fmap_ext {A} (f g : A → Z) l : Forall (λ x, f x = g x) l → Zsum (f <$> l) = Zsum (g <$> l).
Proof. induction 1 as [|x l Hx _ IH]; [done|]. rewrite !fmap_cons, !Zsum_cons. lia. Qed.

Lemma phase_counter run f g (h : RunbookStep → StepState → Z) :
  (∀ c s, f (count_in_phase c s) = f c + g s) → (∀ p, f (no_count p) = 0) →
  (∀ s, s ∈ numberedSteps run → g s = h (ns_step s) (ns_state s)) →
  Zsum (f <$> phaseCounts run) = Zsum ((λ s, h s (stepStateOf run (rs_id s))) <$> rd_steps (rr_snapshot run)).
Proof.
  intros Hf H0 Hg. rewrite (phaseCounts_sum run f g Hf H0), <-numbered_sum. apply Zsum_fmap_ext, Forall_forall. exact Hg.
Qed.

Lemma shown_waiting run s : s ∈ numberedSteps run → one (bool_decide (ns_display s = Waiting)) = one (isWaiting (ns_state s)).
Proof. intros [i Hi]%list_elem_of_lookup. by rewrite (displayed_waiting s run i Hi). Qed.

(** Open is neither Done nor Not applicable. *)
Lemma is_open_split st : 1 = one (negb (isFinished st)) + (one (is_status StDone st) + one (is_status StNotApplicable st)).
Proof. unfold isFinished, is_status. by destruct (ss_status st). Qed.

Lemma isFinished_status st : negb (is_status StDone st) && negb (is_status StNotApplicable st) = negb (isFinished st).
Proof. unfold isFinished, is_status. by destruct (ss_status st). Qed.

(** The progress of several runs, summed. *)
Definition no_progress : RunbookProgress := mkProgress 0 0 0 0 0 0.
Definition sum_progress (l : list RunbookRun) : RunbookProgress := foldr (λ r t, add_progress (runProgress r) t) no_progress l.

Lemma add_progress_assoc a b c : add_progress a (add_progress b c) = add_progress (add_progress a b) c.
Proof. unfold add_progress. cbn. f_equal; lia. Qed.

Lemma add_no_progress a : add_progress a no_progress = a.
Proof. destruct a. unfold add_progress. cbn. f_equal; lia. Qed.

Lemma sum_progress_field (f : RunbookProgress → Z) l :
  (∀ a b, f (add_progress a b) = f a + f b) → f no_progress = 0 → f (sum_progress l) = Zsum ((λ r, f (runProgress r)) <$> l).
Proof. intros Ha H0. induction l as [|r l IH]; [done|]. cbn [sum_progress foldr]. rewrite Ha, fmap_cons, Zsum_cons. by rewrite <-IH. Qed.

Definition live (r : RunbookRun) : Prop := rr_status r ≠ RunAbandoned.
#[export] Instance live_dec r : Decision (live r).
Proof. unfold live. apply _. Defined.

Lemma caseProgress_fold data l acc :
  (∀ r, r ∈ l → progressOf data r = runProgress r) →
  foldl (λ total run,
    if decide (rr_status run = RunAbandoned) then total
    else let p := progressOf data run in Some (match total with Some t => add_progress t p | None => p end)) acc l =
  match filter live l with
  | [] => acc
  | l' => Some (match acc with Some t => add_progress t (sum_progress l') | None => sum_progress l' end)
  end.
Proof.
  revert acc. induction l as [|r l IH]; intros acc Hp; [done|]. cbn [foldl]. rewrite IH by (intros q Hq; apply Hp; by right).
  rewrite filter_cons. destruct (decide (rr_status r = RunAbandoned)) as [E|E]; [by rewrite decide_False by (intros Hl; by apply Hl)|].
  rewrite decide_True by done. rewrite (Hp r) by by left. cbn zeta. f_equal.
  destruct (filter live l) as [|q l'] eqn:El; destruct acc as [t|]; cbn [sum_progress foldr]; rewrite ?add_no_progress, <-?add_progress_assoc; done.
Qed.

Lemma close_lists `{Locale} d :
  Z.of_nat (length (openRequiredSteps (Some d))) =
  Zsum ((λ r, pg_required_open (runProgress r)) <$> filter (λ r, rr_status r = RunActive) (cr_runs d)).
Proof.
  cbn [openRequiredSteps]. induction (cr_runs d) as [|r l IH]; [done|]. rewrite filter_cons. cbn [mbind list_bind]. rewrite length_app, Nat2Z.inj_add.
  change (list_bind _ _ ?f l) with (l ≫= f). rewrite IH. destruct (decide (rr_status r = RunActive)) as [E|E]; [|cbn; lia].
  rewrite fmap_cons, Zsum_cons, length_fmap. f_equal. rewrite (runProgress_sums r). cbn [pg_required_open].
  rewrite <-(numbered_sum r (λ s st, one (rs_required s && negb (isFinished st)))). symmetry. apply Zsum_one.
Qed.

Lemma Zsum_filter {A} (f : A → Z) (P : A → Prop) `{∀ x, Decision (P x)} l :
  (∀ x, x ∈ l → ¬ P x → f x = 0) → Zsum (f <$> filter P l) = Zsum (f <$> l).
Proof.
  induction l as [|x l IH]; intros Hf; [done|]. rewrite filter_cons, fmap_cons, Zsum_cons.
  assert (Zsum (f <$> filter P l) = Zsum (f <$> l)) as E by (apply IH; intros y Hy; apply Hf; by right).
  destruct (decide (P x)) as [Hx|Hx]; [rewrite fmap_cons, Zsum_cons; lia|]. rewrite E, (Hf x); [lia|by left|done].
Qed.

Lemma find_first {A} (f : A → bool) l x :
  List.find f l = Some x → ∃ i, l !! i = Some x ∧ f x = true ∧ ∀ j y, l !! j = Some y → (j < i)%nat → f y = false.
Proof.
  induction l as [|a l IH]; [done|]. cbn. destruct (f a) eqn:Ea.
  - intros [= ->]. exists 0%nat. split_and!; [done|done|lia].
  - intros (i & Hi & Hx & Hj)%IH. exists (S i). split_and!; [done|done|]. intros [|j] y Hy Hlt; [by simplify_eq/=|].
    apply (Hj j y Hy). lia.
Qed.

(** ** Theorems *)

(** C18. The run reads phase after phase, each phase as its author wrote it; a runbook the editor keeps
    is read exactly as the editor shows it, and the number of every step in the case is its number in
    the editor. *)
Theorem orderedSteps_reads_as_edited run :
  NoDup (rd_phases (rr_snapshot run)) →
  orderedSteps run = runPhases run ≫= stepsInPhase (rr_snapshot run) ∧
  (wf (rr_snapshot run) →
     orderedSteps run = rd_steps (rr_snapshot run) ∧
     ∀ s, s ∈ numberedSteps run → ns_number s = stepNumber (rr_snapshot run) (rs_id (ns_step s))).
Proof.
  intros Hn. split; [by apply orderedSteps_concat|]. intros Hw. pose proof (orderedSteps_wf run Hw) as E. split; [done|].
  intros s [i (step & Hi & ->)%numbered_lookup]%list_elem_of_lookup. cbn. unfold stepNumber.
  rewrite E in Hi. by rewrite (step_at_lookup _ i step (wf_ids _ Hw) Hi).
Qed.

(** Every view of a run counts the same steps: the phase tabs add up to the progress of the case
    header in every column, and what is open is what is neither done nor not applicable, as many steps
    as the list of open steps has. *)
Theorem run_views_agree run :
  let c := phaseCounts run in let p := runProgress run in
  Zsum (pc_total <$> c) = pg_total p ∧ Zsum (pc_done <$> c) = pg_done p ∧ Zsum (pc_na <$> c) = pg_not_applicable p ∧
  Zsum (pc_waiting <$> c) = pg_waiting p ∧ Zsum (pc_blocked <$> c) = pg_blocked p ∧
  Zsum (pc_open <$> c) = pg_total p - pg_done p - pg_not_applicable p ∧
  Zsum (pc_open <$> c) = Z.of_nat (length (openSteps run)) ∧
  pg_total p = Z.of_nat (length (rd_steps (rr_snapshot run))).
Proof.
  cbv zeta. rewrite (runProgress_sums run). cbn [pg_total pg_done pg_not_applicable pg_waiting pg_blocked].
  rewrite (phase_counter run pc_total (λ _, 1) (λ _ _, 1)) by done.
  rewrite (phase_counter run pc_done _ (λ _ st, one (is_status StDone st)) (λ _ _, eq_refl)) by done.
  rewrite (phase_counter run pc_na _ (λ _ st, one (is_status StNotApplicable st)) (λ _ _, eq_refl)) by done.
  rewrite (phase_counter run pc_waiting _ (λ _ st, one (isWaiting st)) (λ _ _, eq_refl)) by (done || apply shown_waiting).
  rewrite (phase_counter run pc_blocked _ (λ _ st, one (is_status StBlocked st)) (λ _ _, eq_refl)) by done.
  rewrite (phase_counter run pc_open _ (λ _ st, one (negb (isFinished st))) (λ _ _, eq_refl))
    by (done || (intros s _; by rewrite isFinished_status)).
  split_and!; [done..| | |].
  - rewrite (Zsum_fmap_add (λ _, 1) _ _ _ (λ s, is_open_split (stepStateOf run (rs_id s)))), (Zsum_fmap_add _ _ _ _ (λ s, eq_refl)). lia.
  - rewrite <-(numbered_sum run (λ _ st, one (negb (isFinished st)))). apply Zsum_one.
  - generalize (rd_steps (rr_snapshot run)). induction l as [|s l IH]; [done|]. rewrite fmap_cons, Zsum_cons, IH. simpl. lia.
Qed.

(** The case agrees with its runs: when the server's figures are the runs' own and a completed run
    has no required step open, the case has a progress exactly when a run is not abandoned, it is the
    sum over those runs, and its count of required steps still open is the number of steps the close
    dialog lists. *)
Theorem case_views_agree `{Locale} d :
  (∀ r p, r ∈ cr_runs d → jm_get (cr_progress d) (rr_run_id r) = Some p → p = runProgress r) →
  (∀ r, r ∈ cr_runs d → rr_status r = RunCompleted → pg_required_open (runProgress r) = 0) →
  (caseProgress (Some d) = None ↔ ∀ r, r ∈ cr_runs d → rr_status r = RunAbandoned) ∧
  ∀ t, caseProgress (Some d) = Some t →
    pg_required_open t = Z.of_nat (length (openRequiredSteps (Some d))) ∧
    pg_total t = Zsum ((λ r, pg_total (runProgress r)) <$> filter live (cr_runs d)) ∧
    pg_done t = Zsum ((λ r, pg_done (runProgress r)) <$> filter live (cr_runs d)) ∧
    pg_waiting t = Zsum ((λ r, pg_waiting (runProgress r)) <$> filter live (cr_runs d)).
Proof.
  intros Hserver Hdone. cbv beta iota delta [caseProgress mbind option_bind].
  assert (Hp : ∀ r, r ∈ cr_runs d → progressOf (Some d) r = runProgress r).
  { intros r Hr. unfold progressOf. cbn. destruct (jm_get _ _) as [p|] eqn:E; [|done]. cbn. by apply (Hserver r p Hr). }
  rewrite (caseProgress_fold (Some d) (cr_runs d) None Hp).
  assert (Hnil : filter live (cr_runs d) = [] ↔ ∀ r, r ∈ cr_runs d → rr_status r = RunAbandoned).
  { split.
    - intros E r Hr. destruct (decide (rr_status r = RunAbandoned)) as [|Hl]; [done|]. by pose proof (filter_nil_not_elem_of live _ r E Hl).
    - intros Ha. apply elem_of_nil_inv. intros r [Hl Hr]%list_elem_of_filter. by apply Hl, Ha. }
  destruct (filter live (cr_runs d)) as [|r l] eqn:El; [split; [tauto|done]|]. split.
  { split; [done|]. intros Ha%Hnil. done. }
  intros t [= <-]. split_and!; [|by apply (sum_progress_field pg_total (r :: l))|by apply (sum_progress_field pg_done (r :: l))|by apply (sum_progress_field pg_waiting (r :: l))].
  change (add_progress (runProgress r) (sum_progress l)) with (sum_progress (r :: l)). rewrite (sum_progress_field pg_required_open) by done. rewrite close_lists, <-El.
  rewrite <-(Zsum_filter _ (λ r, rr_status r = RunActive) (filter live (cr_runs d))).
  - f_equal. f_equal. rewrite list_filter_filter. apply list_filter_iff. unfold live. intros x. split; [by intros [? _]|]. intros ->. done.
  - intros x [Hl Hx]%list_elem_of_filter Hna. apply Hdone; [done|]. unfold live in Hl. by destruct (rr_status x).
Qed.

(** The Next step is the first required step of the run that is open and not waiting for someone
    else's approval; there is none exactly when the run is abandoned or every required step is
    finished or waits. *)
Theorem nextStep_first run :
  match nextStep run with
  | Some s => rr_status run ≠ RunAbandoned ∧ s ∈ numberedSteps run ∧ rs_required (ns_step s) = true ∧
      isFinished (ns_state s) = false ∧ isWaiting (ns_state s) = false ∧
      ∀ t, t ∈ numberedSteps run → (ns_number t < ns_number s)%nat → rs_required (ns_step t) = true →
        isFinished (ns_state t) = true ∨ isWaiting (ns_state t) = true
  | None => rr_status run = RunAbandoned ∨
      ∀ step, step ∈ rd_steps (rr_snapshot run) → rs_required step = true →
        isFinished (stepStateOf run (rs_id step)) = true ∨ isWaiting (stepStateOf run (rs_id step)) = true
  end.
Proof.
  unfold nextStep, runWorkable. destruct (decide (rr_status run = RunAbandoned)) as [E|E]; [by rewrite bool_decide_eq_true_2; [left|]|].
  rewrite bool_decide_eq_false_2 by done. cbn [negb].
  assert (Hnot : ∀ s, s ∈ numberedSteps run → is_next s = false → rs_required (ns_step s) = true →
    isFinished (ns_state s) = true ∨ isWaiting (ns_state s) = true).
  { intros s [i Hi]%list_elem_of_lookup Hs Hr. unfold is_next in Hs. rewrite (displayed_waiting s run i Hi), Hr in Hs.
    destruct (isFinished _), (isWaiting _); auto. }
  destruct (List.find is_next (numberedSteps run)) as [s|] eqn:Ef.
  - destruct (find_first _ _ _ Ef) as (i & Hi & Hs & Hfirst). unfold is_next in Hs. rewrite (displayed_waiting s run i Hi) in Hs.
    split_and!; [done|by eapply list_elem_of_lookup_2|by destruct (rs_required _)|..].
    1,2: by destruct (rs_required _), (isFinished _), (isWaiting _).
    intros t [j Hj]%list_elem_of_lookup Hlt. apply Hnot; [by eapply list_elem_of_lookup_2|].
    apply (Hfirst j t Hj). apply numbered_lookup in Hi as (? & _ & ->), Hj as (? & _ & ->). cbn in Hlt. lia.
  - right. intros step Hin Hr. rewrite <-(orderedSteps_Permutation run) in Hin. apply list_elem_of_lookup in Hin as [i Hi].
    assert (Hns : numberedSteps run !! i = Some (mkNumbered step (S i) (stepStateOf run (rs_id step)) (displayStatus (stepStateOf run (rs_id step)))))
      by (apply numbered_lookup; by exists step).
    apply list_elem_of_lookup_2 in Hns. apply (Hnot _ Hns); [|done]. apply (List.find_none _ _ Ef). by apply list_elem_of_In.
Qed.

(** ** Witnesses *)
#[export] Instance ascii_locale : Locale := { toLocaleString := pretty }.

Definition with_status (s : StepStatus) : StepState := mkStepState s None None None None "" None [] None None None None 1.
Definition awaiting (s : StepStatus) : StepState :=
  mkStepState s None None None None "" None [] None None (Some (mkApproval "soc_manager" ApPending None None None)) None 1.

Definition demo_run (status : RunStatus) (d : RunbookDefinition) (steps : list (string * StepState)) : RunbookRun :=
  mkRun "run-1" "case-1" "demo" 4 "Brute force" d ByRule VNull "2026-07-01T12:52:00Z" "agentic_soc" status None None steps 1.

Definition demo_active : RunbookRun :=
  demo_run RunActive demo_runbook [("first-check", with_status StDone); ("verdict", with_status StTodo); ("block", awaiting StInProgress)].

Lemma orderedSteps_reads_as_edited_witness :
  (ns_number <$> numberedSteps demo_active) = [1; 2; 3]%nat ∧ orderedSteps demo_active = rd_steps demo_runbook.
Proof.
  split; [vm_compute; reflexivity|].
  refine (proj1 (proj2 (orderedSteps_reads_as_edited demo_active _) wf_demo)).
  apply (bool_decide_unpack _). vm_compute. exact I.
Defined.

Lemma case_views_agree_witness :
  let d := mkCaseRunbooks [demo_active; demo_run RunCompleted (blankDefinition 180) [("first-check", with_status StDone)]] [] in
  (pg_done <$> caseProgress (Some d)) = Some 2 ∧
  ∀ t, caseProgress (Some d) = Some t → pg_required_open t = Z.of_nat (length (openRequiredSteps (Some d))).
Proof.
  cbv zeta. split; [vm_compute; reflexivity|]. intros t Ht.
  refine (proj1 (proj2 (case_views_agree _ _ _) t Ht)); [done|].
  intros r [->|[->|?%elem_of_nil]%elem_of_cons]%elem_of_cons; [done|by intros _; vm_compute|done].
Defined.

(** A step may be blocked and wait for approval at once; the words of its phase subtract it twice, and
    another open step of the phase is not mentioned. *)
Example phase_words_hide_open :
  let d := with_steps_phases [blankStep "block" Contain KAction "Block"; blankStep "reset" Contain KAction "Reset"] [Contain] (blankDefinition 180) in
  let run := demo_run RunActive d [("block", awaiting StBlocked); ("reset", with_status StTodo)] in
  (phaseWords <$> phaseCounts run) = ["1 waiting" +:+ dot +:+ "1 blocked"] ∧
  (rs_id ∘ ns_step <$> openSteps run) = ["block"; "reset"].
Proof. vm_compute. split; reflexivity. Qed.
