(* ===== verification/RunbookMarkdown.v ===== *)
(** * The Markdown form of a runbook: the canonical document and its export
    (soc/runbooks/editor/markdown.ts, first half)

    Documents hold code units here, since the form reads and writes characters. [toUpperCase] on
    technique ids is the host's, with two laws. *)

From S2P Require Import Prelude JsText JsMap DisplayText JsonText Runbook.
Local Open Scope Z_scope.

Abbreviation MdStep := (RunbookStepOf text PhaseId).
Abbreviation MdDefinition := (RunbookDefinitionOf text PhaseId).

(** [String.prototype.toUpperCase]: done twice it changes nothing more, and no white space comes or goes
    at the ends. *)
Class UpperCase := {
  toUpperCase : text → text;
  toUpperCase_twice : ∀ t, toUpperCase (toUpperCase t) = toUpperCase t;
  toUpperCase_trim : ∀ t, text_trim t = t → t ≠ [] → text_trim (toUpperCase t) = toUpperCase t ∧ toUpperCase t ≠ [];
}.

(** ** JavaScript objects

    An object lists its array-index keys first, by value, then the others as they were added. *)
Definition is_index (k : text) : bool :=
  match k with
  | [] => false
  | [48] => true
  | c :: _ => negb (c =? 48) && forallb is_digit k && (digits_value k <? 2 ^ 32 - 1)
  end.

Definition index_le {V} (a b : text * V) : bool := digits_value a.1 <=? digits_value b.1.

(** [Object.entries] of an object whose keys were added in the order given *)
Definition entries {V} (o : list (text * V)) : list (text * V) :=
  isort index_le (List.filter (λ e, is_index e.1) o) ++ List.filter (λ e, negb (is_index e.1)) o.

(** [Object.fromEntries], held in the order of its entries *)
Definition fromEntries {V} (l : list (text * V)) : list (text * V) := entries (foldl (λ o e, jm_set o e.1 e.2) [] l).

(** ** Defaults *)
Definition DEFAULT_LOOKUP_WINDOW : text := units DEFAULT_LOOKUP_WINDOW.

Definition defaultLookup (tool : LookupTool) : LookupTemplateOf text := mkLookup tool [] [] None DEFAULT_LOOKUP_WINDOW 20 OnAttach.

(** ** The canonical form *)
Definition non_empty (t : text) : option text := match t with [] => None | _ => Some t end.

Definition cleanLine (value : text) : text := text_trim value.
Definition cleanOptional (value : option text) : option text := value ≫= λ v, non_empty (cleanLine v).

Section normalise.
Context `{UpperCase}.

Definition cleanList (values : list text) (upper : bool) : list text :=
  omap (λ item, (λ t, if upper then toUpperCase t else t) <$> non_empty (cleanLine item)) values.

Definition cleanBlock (value : text) : text :=
  let lines := drop_blank (split_on LF (crlf value)) in
  text_trimEnd (join_with [LF] (reverse (drop_blank (reverse lines)))).

Definition normalise_lookup (l : LookupTemplateOf text) : LookupTemplateOf text :=
  mkLookup (lk_tool l) (fromEntries ((λ e, (cleanLine e.1, cleanLine e.2)) <$> entries (lk_filter l)))
    (cleanList (lk_group_by l) false) (cleanOptional (lk_indicator l))
    (default DEFAULT_LOOKUP_WINDOW (non_empty (cleanLine (lk_window l)))) (lk_limit l) (lk_run l).

Definition normalise_option (o : DecisionOptionOf text) : DecisionOptionOf text :=
  mkOption (cleanLine (do_id o)) (cleanLine (do_label o)) (cleanList (do_marks o) false).

Definition normalise_step {P} (s : RunbookStepOf text P) : RunbookStepOf text P :=
  mkRunbookStep (cleanLine (rs_id s)) (rs_phase s) (rs_kind s) (cleanLine (rs_title s)) (cleanBlock (rs_instructions s))
    (cleanOptional (rs_focus s)) (cleanOptional (rs_escalate_if s)) (cleanOptional (rs_benign_if s)) (rs_required s) (rs_evidence s)
    (cleanOptional (rs_owner_role s)) (cleanOptional (rs_approval_role s)) (rs_target_minutes s) (normalise_lookup <$> rs_lookup s)
    (normalise_option <$> rs_options s) (cleanOptional (rs_react s)) (cleanOptional (rs_d3fend s)).

Definition normalise_applies (a : AppliesWhenOf text) : AppliesWhenOf text :=
  mkApplies (cleanList (aw_rule_ids a) false) (cleanList (aw_mitre a) true) (aw_entity_types a) (aw_severity_at_least a)
    (cleanList (aw_sources a) false) (aw_verdicts a) (cleanList (aw_statuses a) false) (cleanList (aw_any_tags a) false)
    (aw_min_event_count a) (aw_always a).

Definition normaliseDefinition {P} (d : RunbookDefinitionOf text P) : RunbookDefinitionOf text P :=
  mkDefinition (cleanLine (rd_id d)) (cleanLine (rd_title d)) (cleanLine (rd_summary d)) (text_trim (cleanBlock (rd_use_when d)))
    (text_trim (cleanBlock (rd_prerequisites d))) (normalise_applies (rd_applies_when d)) (rd_priority d) (cleanList (rd_mitre d) true)
    (rd_phases d) (normalise_step <$> rd_steps d) (cleanList (rd_retrieval_queries d) false) (cleanOptional (rd_owner d))
    (rd_review_every_days d) (cleanList (rd_references d) false).

(** ** Scalars *)

(** A letter or underscore, then letters, digits and [_.-]. *)
Definition KEY_RE (t : text) : bool :=
  match t with c :: t' => (is_upper c || is_lower c || (c =? 95)) && forallb (λ c, alnum c || is_one_of "_.-" c) t' | [] => false end.

Definition PLAIN_UNSAFE_START : text := units "[]{}" ++ [QUOTE] ++ units "'&*!|>%@`#,?:-".
Definition YAML_SPECIAL_WORDS : list string := ["true"; "false"; "yes"; "no"; "on"; "off"; "null"; "~"; ""].

Definition skip_sign (t : text) : text :=
  match t with c :: t' => if (c =? 45) || (c =? 43) then t' else t | [] => [] end.

(** A sign or none, a digit then digits and underscores, an optional fraction, an optional exponent; no part
    can take what the next one starts with, so the match is found without going back. *)
Definition NUMBER_LIKE_RE (t : text) : bool :=
  match skip_sign t with
  | c :: t1 =>
      is_digit c &&
      let t2 := skip_while (λ c, is_digit c || (c =? 95)) t1 in
      let t3 := match t2 with d :: r => if d =? DOT then skip_while is_digit r else t2 | [] => [] end in
      match t3 with
      | [] => true
      | e :: r => ((e =? 101) || (e =? 69)) && match skip_sign r with d :: r' => is_digit d && forallb is_digit r' | [] => false end
      end
  | [] => false
  end.

Definition FLOW_UNSAFE : text := units ",[]{}'" ++ [QUOTE].

Definition needsQuotes (value : text) (inFlow : bool) : bool :=
  negb (bool_decide (value = text_trim value)) || bool_decide (value = []) ||
  bool_decide ((lower_unit <$> value) ∈ units <$> YAML_SPECIAL_WORDS) || NUMBER_LIKE_RE value ||
  (match head value with Some c => bool_decide (c ∈ PLAIN_UNSAFE_START) | None => false end && negb (starts_with (units "{{") value)) ||
  starts_with (units "{{") value ||
  includes (units ": ") value || includes (units " #") value || bool_decide (last value = Some COLON) ||
  (inFlow && existsb (λ c, bool_decide (c ∈ FLOW_UNSAFE)) value) ||
  existsb (λ c, (c =? LF) || (c =? CR) || (c =? TAB)) value.

Definition yamlScalar (value : text) (inFlow : bool) : text := if needsQuotes value inFlow then stringify value else value.
Definition yamlFlow (values : list text) : text := units "[" ++ join_with (units ", ") ((λ v, yamlScalar v true) <$> values) ++ units "]".
Definition yamlKey (key : text) : text := if KEY_RE key && negb (needsQuotes key false) then key else stringify key.

Definition attrValue (value : text) : text :=
  if bool_decide (value = []) || existsb (λ c, trim_space c || (c =? QUOTE) || is_one_of "{}=\" c) value then stringify value else value.

Definition formatTarget (minutes : Z) : text :=
  if Z.rem minutes 60 =? 0 then decimal (Z.quot minutes 60) ++ units "h" else decimal minutes ++ units "m".

(** ** Export *)
Definition tool_name (t : LookupTool) : text :=
  units match t with
        | LogStats => "log_stats" | LogSearch => "log_search" | Enrich => "enrich"
        | RelatedCases => "related_cases" | Campaign => "campaign" | Mitre => "mitre"
        end.
Definition run_name (r : LookupRunMode) : text := units match r with OnAttach => "on_attach" | OnDemand => "on_demand" end.
Definition evidence_name (e : StepEvidenceRule) : text :=
  units match e with EvNone => "none" | EvNote => "note" | EvNoteOrAttachment => "note_or_attachment" end.

Definition FENCE : text := units "```".

(** [if (x) out.push(f(x))]: pushed when the text is there *)
Definition push_some {A} (v : option A) (f : A → text) : list text := match v with Some a => [f a] | None => [] end.
Definition push_list (values : list text) (prefix : string) : list text :=
  match values with [] => [] | _ => [units prefix ++ yamlFlow values] end.

Definition exportLookup (l : LookupTemplateOf text) : list text :=
  [units "```lookup"; units "tool: " ++ tool_name (lk_tool l)] ++
  match entries (lk_filter l) with
  | [] => []
  | es => units "filter:" :: ((λ e, units "  " ++ yamlKey e.1 ++ units ": " ++ yamlScalar e.2 false) <$> es)
  end ++
  push_list (lk_group_by l) "group_by: " ++
  push_some (lk_indicator l ≫= non_empty) (λ v, units "indicator: " ++ yamlScalar v false) ++
  [units "window: " ++ yamlScalar (lk_window l) false;
   units "limit: " ++ decimal (lk_limit l);
   units "run: " ++ run_name (lk_run l);
   FENCE].

Definition option_text (o : DecisionOptionOf text) : text :=
  units "- " ++ do_id o ++ units ": " ++ do_label o ++
  match do_marks o with [] => [] | ms => units " | skips: " ++ join_with (units ", ") ms end.

(** The attribute list between the braces. An empty role is falsy, and so is a target of zero minutes. *)
Definition step_attrs {P} (s : RunbookStepOf text P) : list text :=
  [units "#" ++ rs_id s; units "kind=" ++ units (kind_name (rs_kind s))] ++
  (if rs_required s then [] else [units "optional"]) ++
  push_some (rs_owner_role s ≫= non_empty) (λ v, units "owner=" ++ attrValue v) ++
  push_some (rs_approval_role s ≫= non_empty) (λ v, units "approval=" ++ attrValue v) ++
  (if decide (rs_evidence s = EvNone) then [] else [units "evidence=" ++ evidence_name (rs_evidence s)]) ++
  match rs_target_minutes s with Some m => if m =? 0 then [] else [units "target=" ++ formatTarget m] | None => [] end ++
  push_some (rs_react s ≫= non_empty) (λ v, units "react=" ++ attrValue v) ++
  push_some (rs_d3fend s ≫= non_empty) (λ v, units "d3fend=" ++ attrValue v).

Definition exportStep {P} (s : RunbookStepOf text P) : list text :=
  [units "### " ++ rs_title s ++ units " {" ++ join_with (units " ") (step_attrs s) ++ units "}"] ++
  push_some (rs_focus s ≫= non_empty) (λ v, units "Focus: " ++ v) ++
  push_some (rs_escalate_if s ≫= non_empty) (λ v, units "Escalate if: " ++ v) ++
  push_some (rs_benign_if s ≫= non_empty) (λ v, units "Benign if: " ++ v) ++
  match rs_options s with [] => [] | os => units "Options:" :: (option_text <$> os) end ++
  match rs_lookup s with Some l => [] :: exportLookup l | None => [] end ++
  match rs_instructions s with [] => [] | t => [[]; t] end.

Definition applies_lines (a : AppliesWhenOf text) : list text :=
  push_list (aw_rule_ids a) "  rule_ids: " ++ push_list (aw_mitre a) "  mitre: " ++ push_list (aw_entity_types a) "  entity_types: " ++
  push_some (aw_severity_at_least a ≫= non_empty) (λ v, units "  severity_at_least: " ++ v) ++
  push_list (aw_sources a) "  sources: " ++ push_list (aw_verdicts a) "  verdicts: " ++ push_list (aw_statuses a) "  statuses: " ++
  push_list (aw_any_tags a) "  any_tags: " ++
  push_some (aw_min_event_count a) (λ n, units "  min_event_count: " ++ decimal n) ++
  (if aw_always a then [units "  always: true"] else []).

Definition list_lines (key : string) (values : list text) : list text :=
  match values with [] => [] | _ => units key :: ((λ v, units "  - " ++ yamlScalar v false) <$> values) end.

Definition front_matter {P} (d : RunbookDefinitionOf text P) (version : option Z) : list text :=
  [units "---"; units "id: " ++ yamlScalar (rd_id d) false; units "title: " ++ yamlScalar (rd_title d) false;
   units "summary: " ++ yamlScalar (rd_summary d) false] ++
  push_some (non_empty (rd_use_when d)) (λ v, units "use_when: " ++ yamlScalar v false) ++
  push_some (non_empty (rd_prerequisites d)) (λ v, units "prerequisites: " ++ yamlScalar v false) ++
  push_some version (λ v, units "version: " ++ decimal v) ++
  [units "priority: " ++ decimal (rd_priority d)] ++
  push_some (rd_owner d ≫= non_empty) (λ v, units "owner: " ++ yamlScalar v false) ++
  [units "review_every_days: " ++ decimal (rd_review_every_days d)] ++
  push_list (rd_mitre d) "mitre: " ++
  match applies_lines (rd_applies_when d) with [] => [] | ls => units "applies_when:" :: ls end ++
  list_lines "retrieval_queries:" (rd_retrieval_queries d) ++
  list_lines "references:" (rd_references d) ++
  [units "---"].

Definition phase_label (p : PhaseId) : text := units (PHASE_LABEL p).

Definition step_lines (s : MdStep) : list text := [] :: exportStep s.

Definition phase_lines (d : MdDefinition) (phase : PhaseId) : list text :=
  [[]; units "## " ++ phase_label phase] ++ concat (step_lines <$> filter (λ s, rs_phase s = phase) (rd_steps d)).

(** [.replace(/\n+$/, '')] *)
Definition drop_newlines (t : text) : text := reverse (skip_while (λ c, c =? LF) (reverse t)).

Definition export_lines (d : MdDefinition) (version : option Z) : list text :=
  front_matter d version ++ concat (phase_lines d <$> js_set (rd_phases d ++ (rs_phase <$> rd_steps d))).

Definition exportRunbookMarkdown (input : MdDefinition) (version : option Z) : text :=
  drop_newlines (join_with [LF] (export_lines (normaliseDefinition input) version)) ++ [LF].
End normalise.
