(* ===== verification/RunbookYaml.v ===== *)
(** * The front matter and lookup syntax of a runbook (soc/runbooks/editor/markdown.ts)

    Keys with a scalar, a flow list, a block list or one nested block of keys. An error is a value: the
    line and the message of the source's [YamlError]. *)

From S2P Require Import Prelude JsText JsMap DisplayText JsonText Runbook RunbookMarkdown.
Local Open Scope Z_scope.

(** ** Results *)
Inductive Yaml (A : Type) := Good (a : A) | YamlError (line : Z) (message : text).
Arguments Good {A} a.
Arguments YamlError {A} line message.

#[export] Instance Yaml_ret : MRet Yaml := λ _ a, Good a.
#[export] Instance Yaml_fmap : FMap Yaml := λ _ _ f m, match m with Good a => Good (f a) | YamlError l e => YamlError l e end.
#[export] Instance Yaml_bind : MBind Yaml := λ _ _ f m, match m with Good a => f a | YamlError l e => YamlError l e end.

Definition error {A} (line : Z) (message : string) : Yaml A := YamlError line (units message).

Inductive YamlValue :=
  | YNull
  | YStr (t : text)
  | YList (l : list text)
  | YMap (m : list (text * YamlValue)).

Abbreviation YamlMap := (list (text * YamlValue)).

(** ** Text shown in a message *)

(** The invisible characters [shown] drops. *)
Definition UNSAFE_SHOWN (c : Z) : bool :=
  in_range 0 31 c || in_range 127 159 c || in_range 8203 8207 c || in_range 8234 8238 c || in_range 8288 8292 c || (c =? 65279).

(** [.replace(/\s+/g, ' ')] *)
Fixpoint fold_spaces (inside : bool) (t : text) : text :=
  match t with
  | [] => []
  | c :: t' => if trim_space c then (if inside then fold_spaces true t' else SPACE :: fold_spaces true t') else c :: fold_spaces false t'
  end.

Definition shown (t : text) (limit : nat) : text :=
  let flat := text_trim (fold_spaces false (List.filter (λ c, negb (UNSAFE_SHOWN c)) t)) in
  if (length flat <=? limit)%nat then flat else text_trimEnd (take (limit - 3) flat) ++ units "...".

(** ** Scalars *)

(** [.replace(/''/g, r)] *)
Fixpoint replace_pairs (r t : text) : text :=
  match t with
  | c :: t' =>
      match t' with
      | d :: t'' => if (c =? APOSTROPHE) && (d =? APOSTROPHE) then r ++ replace_pairs r t'' else c :: replace_pairs r t'
      | [] => [c]
      end
  | [] => []
  end.

Definition unclosed : string := "A quoted value is not closed.".

(** [text.slice(1, -1)] *)
Definition inside (t : text) : text := removelast (tail t).

Definition scalar (raw : text) (line : Z) : Yaml text :=
  let t := text_trim raw in
  match t with
  | c :: rest =>
      if c =? QUOTE then
        match parse_string t with Some v => Good v | None => error line "A quoted value is not closed or has an unknown escape." end
      else if c =? APOSTROPHE then
        if (length t <? 2)%nat || negb (bool_decide (last t = Some APOSTROPHE)) then error line unclosed
        else if bool_decide (APOSTROPHE ∈ replace_pairs [] (inside t))
        then error line "A single-quoted value has an unescaped quote; write '' for a quote."
        else Good (replace_pairs [APOSTROPHE] (inside t))
      else if starts_with (units "{") t && negb (starts_with (units "{{") t)
      then error line "Inline mappings are not supported; write one key per line."
      else Good t
  | [] => Good []
  end.

(** [items], [buf], [hasText] and [quote] of the loop. A backslash in double quotes, and a doubled single
    quote, take the next character with them. *)
Fixpoint flow_loop (line : Z) (inner : text) (items : list text) (buf : text) (hasText : bool) (quote : option Z) : Yaml (list text) :=
  match inner with
  | [] => match quote with Some _ => error line "A quoted list item is not closed." | None => Good (items ++ [buf]) end
  | ch :: inner' =>
      match quote with
      | Some q =>
          match inner' with
          | next :: inner'' =>
              if (q =? QUOTE) && (ch =? BACKSLASH) then flow_loop line inner'' items (buf ++ [ch; next]) hasText quote
              else if (ch =? q) && (q =? APOSTROPHE) && (next =? APOSTROPHE) then flow_loop line inner'' items (buf ++ [ch; next]) hasText quote
              else flow_loop line inner' items (buf ++ [ch]) hasText (if ch =? q then None else quote)
          | [] => flow_loop line inner' items (buf ++ [ch]) hasText (if ch =? q then None else quote)
          end
      | None =>
          if ((ch =? QUOTE) || (ch =? APOSTROPHE)) && negb hasText then flow_loop line inner' items (buf ++ [ch]) true (Some ch)
          else if ch =? COMMA then flow_loop line inner' (items ++ [buf]) [] false None
          else if is_one_of "[]" ch then error line "Lists inside lists are not supported."
          else flow_loop line inner' items (buf ++ [ch]) (hasText || negb (trim_space ch)) None
      end
  end.

Fixpoint each {A B} (f : A → Yaml B) (l : list A) : Yaml (list B) :=
  match l with
  | [] => Good []
  | a :: l' => b ← f a; bs ← each f l'; Good (b :: bs)
  end.

Definition splitFlow (inner : text) (line : Z) : Yaml (list text) :=
  items ← flow_loop line inner [] [] false None;
  match items with
  | [item] => if blank item then Good [] else each (λ item, scalar item line) items
  | _ => each (λ item, if blank item then error line "A list has an empty item." else scalar item line) items
  end.

Definition value (raw : text) (line : Z) : Yaml YamlValue :=
  let t := text_trim raw in
  if starts_with (units "[") t then
    if bool_decide (last t = Some 93) then YList <$> splitFlow (inside t) line
    else error line "A list that opens with '[' must close with ']' on the same line."
  else YStr <$> scalar t line.

(** ** Keys *)
Definition keyOf (raw : text) (line : Z) : Yaml text :=
  let t := text_trim raw in
  match t with
  | c :: _ => if (c =? QUOTE) || (c =? APOSTROPHE) then scalar t line else Good t
  | [] => Good []
  end.

(** [partition(text, ':')]: the rest is [''] where there is no separator. *)
Definition partition (t : text) (sep : Z) : text * bool * text :=
  match split_at sep t with (a, Some b) => (a, true, b) | (a, None) => (a, false, []) end.

(** Up to the first [quote] that does not count as escaped: in double quotes, one whose left neighbour is a
    backslash. The result is the text before it, and after it. *)
Fixpoint close_at (quote prev : Z) (t : text) : option (text * text) :=
  match t with
  | [] => None
  | c :: t' =>
      if (c =? quote) && negb ((quote =? QUOTE) && (prev =? BACKSLASH)) then Some ([], t')
      else '(a, b) ← close_at quote c t'; Some (c :: a, b)
  end.

Definition splitKey (t : text) : text * bool * text :=
  match text_trimStart t with
  | q :: rest =>
      if (q =? QUOTE) || (q =? APOSTROPHE) then
        match close_at q q rest with
        | Some (key, after) =>
            let '(head, sep, rest) := partition after COLON in
            if blank head then (q :: key ++ [q], sep, rest) else partition t COLON
        | None => partition t COLON
        end
      else partition t COLON
  | [] => partition t COLON
  end.

(** ** Blocks *)
Fixpoint indentOf (line : text) : nat := match line with c :: l => if c =? SPACE then S (indentOf l) else 0 | [] => 0 end.
Definition leadingWhitespace (line : text) : text := take (length line - length (text_trimStart line)) line.

(** [!line.trim() || line.trimStart().startsWith('#')] *)
Definition ignored (line : text) : bool := blank line || starts_with (units "#") (text_trimStart line).
Definition is_item (line : text) : bool := starts_with (units "- ") (text_trimStart line) || bool_decide (text_trim line = units "-").
(** A line under the key above it *)
Definition under (line : text) : bool := blank line || (0 <? indentOf line)%nat || starts_with [TAB] line.

Fixpoint take_while {A} (p : A → bool) (l : list A) : list A :=
  match l with a :: l' => if p a then a :: take_while p l' else [] | [] => [] end.

Definition PROTO : text := units "__proto__".

(** [data[key] = v]: assigning [__proto__] makes no key of its own. *)
Definition put (data : YamlMap) (key : text) (v : YamlValue) : YamlMap := if bool_decide (key = PROTO) then data else jm_set data key v.

Definition block_item (number : Z) (kb : nat * text) : Yaml text :=
  let line := number + 1 + Z.of_nat kb.1 in
  let item := text_trim (tail (text_trim kb.2)) in
  if bool_decide (item = []) then error line "A list has an empty item."
  else v ← value item line; match v with YStr t => Good t | _ => error line "Lists inside lists are not supported." end.

Definition dedent (number : Z) (base : nat) (kb : nat * text) : Yaml text :=
  if negb (blank kb.2) && (indentOf kb.2 <? base)%nat
  then error (number + 1 + Z.of_nat kb.1) "The indentation of this line does not match the lines above."
  else Good (if blank kb.2 then [] else drop base kb.2).

(** What the lines under a key mean; [inner start lines] reads a nested block. *)
Definition block_value (nested : bool) (inner : Z → list text → Yaml YamlMap) (number : Z) (block : list text) : Yaml YamlValue :=
  let content := List.filter (λ kb : nat * text, negb (ignored kb.2)) (imap pair block) in
  match content with
  | [] => Good YNull
  | (k0, b0) :: _ =>
      if forallb (λ kb : nat * text, is_item kb.2) content then YList <$> each (block_item number) content
      else if nested then error (number + 1 + Z.of_nat k0) "Only one level of nesting is supported."
      else lines ← each (dedent number (indentOf b0)) (imap pair block); YMap <$> inner (number + 1) lines
  end.

(** The loop over the lines from [number]; [skip] lines belong to the block just read. *)
Fixpoint block_loop (nested : bool) (inner : Z → list text → Yaml YamlMap) (number : Z) (skip : nat) (lines : list text) (data : YamlMap) : Yaml YamlMap :=
  match lines with
  | [] => Good data
  | line :: lines' =>
      match skip with
      | S skip' => block_loop nested inner (number + 1) skip' lines' data
      | O =>
          if ignored line then block_loop nested inner (number + 1) 0 lines' data
          else if bool_decide (TAB ∈ leadingWhitespace line) then error number "Indent with spaces, not tabs."
          else if (0 <? indentOf line)%nat then error number "This line is indented but has no key above it."
          else
            let '(rawKey, sep, rest) := splitKey line in
            key ← keyOf rawKey number;
            if negb sep || bool_decide (key = []) then error number "Each line must be 'key: value'."
            else if negb nested && negb (KEY_RE key) then YamlError number (units "'" ++ shown key 40 ++ units "' is not a valid key.")
            else if bool_decide (key ∈ data.*1) then YamlError number (units "The key '" ++ shown key 40 ++ units "' is listed twice.")
            else if negb (blank rest) then
              v ← value rest number; block_loop nested inner (number + 1) 0 lines' (put data key v)
            else
              let block := take_while under lines' in
              v ← block_value nested inner number block; block_loop nested inner (number + 1) (length block) lines' (put data key v)
      end
  end.

(** [parseBlock(lines, start, true)]: a nested block never opens another. *)
Definition nested_block (start : Z) (lines : list text) : Yaml YamlMap := block_loop true (λ _ _, Good []) start 0 lines [].
Definition parseBlock (lines : list text) (start : Z) (nested : bool) : Yaml YamlMap := block_loop nested nested_block start 0 lines [].

Definition parseYaml (t : text) (start : Z) : Yaml YamlMap := parseBlock (split_on LF t) start false.
