(* ===== verification/RunbookParse.v ===== *)
(** * Reading a runbook from Markdown (soc/runbooks/editor/markdown.ts, second half)

    The collector of problems is the state of a small monad; a fatal problem drops the definition.
    [toLocaleString] is an argument. A phase heading is looked up in a plain object, so a label that
    names a member every object inherits is found too ([Inherited]). *)

From S2P Require Import Prelude JsText JsMap DisplayText JsonText Runbook RunbookMarkdown RunbookYaml.
Local Open Scope Z_scope.

(** ** Problems *)
Record RunbookIssue := mkIssue { ri_path : text; ri_code : text; ri_message : text }.

Record Collector := mkCollector { issues : list RunbookIssue; fatal : bool; more : bool }.

Definition MAX_ISSUES : nat := 200.
Definition ISSUE_PARSE : text := units "parse".
Definition ISSUE_UNKNOWN_KEY : text := units "unknown_key".
Definition ISSUE_SOURCE_SIZE : text := units "source_too_large".

Definition Parse (A : Type) : Type := Collector → A * Collector.
#[export] Instance Parse_ret : MRet Parse := λ _ a s, (a, s).
#[export] Instance Parse_bind : MBind Parse := λ _ _ f m s, let '(a, s') := m s in f a s'.

Definition add (path code message : text) (is_fatal : bool) : Parse unit := λ s,
  ((), if (length (issues s) <? MAX_ISSUES)%nat
       then mkCollector (issues s ++ [mkIssue path code message]) (fatal s || is_fatal) (more s)
       else mkCollector (issues s) (fatal s || is_fatal) true).
Definition is_fatal : Parse bool := λ s, (fatal s, s).

(** [sink.add(path, ISSUE_PARSE, message, true)] *)
Definition fail (path message : text) : Parse unit := add path ISSUE_PARSE message true.
Definition fail_if (b : bool) (path message : text) : Parse unit := if b then fail path message else mret ().

(** [for (const item of items) state = f(state, item)] *)
Fixpoint each_in {S A} (f : S → A → Parse S) (items : list A) (state : S) : Parse S :=
  match items with
  | [] => mret state
  | a :: items' => state' ← f state a; each_in f items' state'
  end.

Definition issues_result (s : Collector) : list RunbookIssue :=
  if more s then issues s ++ [mkIssue [] (units "more_issues") (units "There are more problems; fix these first.")] else issues s.

(** ** Fields; [None] is [undefined] *)
Definition asList (v : option YamlValue) (path what : text) : Parse (list text) :=
  match v with
  | None | Some YNull => mret []
  | Some (YList l) => mret l
  | Some (YMap _) =>
      fail path ((match what with [] => path | _ => what end) ++ units " must be a list such as [a, b], not a block of keys.");; mret []
  | Some (YStr t) => mret (if blank t then [] else [t])
  end.

(** One to nine digits after an optional sign *)
Definition whole_number (sign : Z → bool) (t : text) : option Z :=
  let '(neg, ds) := match t with c :: r => if sign c then (c =? 45, r) else (false, t) | [] => (false, t) end in
  if all_of is_digit 1 9 ds then Some (if neg : bool then - digits_value ds else digits_value ds) else None.

Definition asInt (v : option YamlValue) (path what : text) : Parse (option Z) :=
  match v with
  | None | Some YNull => mret None
  | Some (YStr t) =>
      if blank t then mret None
      else match whole_number (λ c, (c =? 45) || (c =? 43)) (text_trim t) with
           | Some n => mret (Some n)
           | None => fail path (what ++ units " must be a whole number, not '" ++ shown (text_trim t) 20 ++ units "'.");; mret None
           end
  | _ => fail path (what ++ units " must be a whole number.");; mret None
  end.

Definition versionFrom (v : option YamlValue) : Parse (option Z) :=
  let refuse := add (units "version") ISSUE_PARSE (units "version is not a whole number of 1 or more, so it is ignored.") false;; mret None in
  match v with
  | None | Some YNull => mret None
  | Some (YStr t) =>
      if blank t then mret None
      else match whole_number (λ c, c =? 43) (text_trim t) with
           | Some n => if 1 <=? n then mret (Some n) else refuse
           | None => refuse
           end
  | _ => refuse
  end.

Definition asBool (v : option YamlValue) (path what : text) : Parse bool :=
  let refuse := fail path (what ++ units " must be true or false.");; mret false in
  match v with
  | None | Some YNull => mret false
  | Some (YStr t) =>
      let w := lower_unit <$> text_trim t in
      if bool_decide (w = units "true") then mret true
      else if bool_decide (w = units "false") || bool_decide (w = []) then mret false else refuse
  | _ => refuse
  end.

Definition asText (v : option YamlValue) (path what : text) : Parse text :=
  match v with
  | None | Some YNull => mret []
  | Some (YStr t) => mret t
  | _ => fail path (what ++ units " must be text, not a list.");; mret []
  end.

Definition comma_list (words : list string) : text := join_with (units ", ") (units <$> words).

Definition closed (values : list text) (allowed : list string) (path what : text) : Parse (list text) :=
  each_in (λ out v,
    if bool_decide (v ∈ units <$> allowed) then mret (out ++ [v])
    else fail path (what ++ units " '" ++ shown v 30 ++ units "' is not one of " ++ comma_list allowed ++ units ".");; mret out) values [].

(** ** Vocabularies *)
Definition ENTITY_TYPES : list string := ["ip"; "host"; "user"; "domain"; "hash"; "url"; "email"; "process"; "file"].
Definition SEVERITY_LEVELS : list string := ["info"; "low"; "medium"; "high"; "critical"].
Definition VERDICTS : list string := ["TRUE_POSITIVE"; "FALSE_POSITIVE"; "NEEDS_HUMAN"].
Definition LOOKUP_TOOLS : list LookupTool := [LogStats; LogSearch; Enrich; RelatedCases; Campaign; Mitre].
Definition STEP_KINDS : list StepKind := [KCheck; KLookup; KDecision; KAction; KRecord].
Definition limitMax : Z := 50.
Definition reviewMin : Z := 30.
Definition reviewMax : Z := 730.
Definition reviewDefault : Z := 180.
Definition sourceBytes : Z := 65536.

Definition FRONT_MATTER_KEYS : list string :=
  ["id"; "title"; "summary"; "use_when"; "prerequisites"; "version"; "priority"; "owner"; "review_every_days"; "mitre"; "applies_when";
   "retrieval_queries"; "references"].
Definition APPLIES_WHEN_KEYS : list string :=
  ["rule_ids"; "mitre"; "entity_types"; "severity_at_least"; "sources"; "verdicts"; "statuses"; "any_tags"; "min_event_count"; "always"].
Definition LOOKUP_KEYS : list string := ["tool"; "filter"; "group_by"; "indicator"; "window"; "limit"; "run"].
Definition STEP_ATTRIBUTES : list string := ["kind"; "optional"; "owner"; "approval"; "evidence"; "target"; "react"; "d3fend"].

(** The value a name stands for *)
Definition named {A} (name : A → text) (all : list A) (t : text) : option A := List.find (λ a, bool_decide (name a = t)) all.

(** A member of [PHASE_BY_LABEL]: a phase, or what a plain object inherits. *)
Inductive PhaseKey := APhase (p : PhaseId) | Inherited (member : text).
#[export] Instance PhaseKey_eq_dec : EqDecision PhaseKey.
Proof. solve_decision. Defined.

Definition phase_id (p : PhaseId) : text :=
  units match p with
        | Triage => "triage" | Investigate => "investigate" | Contain => "contain"
        | Eradicate => "eradicate" | Recover => "recover" | Close => "close"
        end.

(** A label is in lower case, so of the inherited names only these two can be met. *)
Definition PHASE_BY_LABEL (label : text) : option PhaseKey :=
  match List.find (λ p, bool_decide (phase_id p = label) || bool_decide (lower_unit <$> phase_label p = label)) PHASE_ORDER with
  | Some p => Some (APhase p)
  | None => if bool_decide (label = units "constructor") || bool_decide (label = PROTO) then Some (Inherited label) else None
  end.

(** [PHASE_LABEL[phase]] in a message *)
Definition label_of (k : PhaseKey) : text := match k with APhase p => phase_label p | Inherited _ => units "undefined" end.

(** ** The front matter *)
Definition aw_set (key : string) (l : list text) (a : AppliesWhenOf text) : AppliesWhenOf text :=
  let key_is s := bool_decide (key = s) in
  mkApplies (if key_is "rule_ids" then l else aw_rule_ids a) (if key_is "mitre" then l else aw_mitre a)
    (if key_is "entity_types" then l else aw_entity_types a) (aw_severity_at_least a) (if key_is "sources" then l else aw_sources a)
    (if key_is "verdicts" then l else aw_verdicts a) (if key_is "statuses" then l else aw_statuses a) (if key_is "any_tags" then l else aw_any_tags a)
    (aw_min_event_count a) (aw_always a).
Definition aw_set_other (severity : option text) (count : option Z) (always : bool) (a : AppliesWhenOf text) : AppliesWhenOf text :=
  mkApplies (aw_rule_ids a) (aw_mitre a) (aw_entity_types a) severity (aw_sources a) (aw_verdicts a) (aw_statuses a) (aw_any_tags a) count always.

(** One entry of [applies_when], over the defaults. *)
Definition applies_entry (out : AppliesWhenOf text) (e : text * YamlValue) : Parse (AppliesWhenOf text) :=
  let '(key, v) := e in
  let path := units "applies_when." ++ key in
  let key_is s := bool_decide (key = units s) in
  if negb (bool_decide (key ∈ units <$> APPLIES_WHEN_KEYS)) then
    add path ISSUE_UNKNOWN_KEY (units "applies_when has the unknown key '" ++ shown key 40 ++ units "'. Known keys: " ++ comma_list APPLIES_WHEN_KEYS ++ units ".") false;;
    mret out
  else if key_is "entity_types" then
    l ← asList (Some v) path key; l ← closed l ENTITY_TYPES path (units "The entity type"); mret (aw_set "entity_types" l out)
  else if key_is "verdicts" then
    l ← asList (Some v) path key; l ← closed l VERDICTS path (units "The verdict"); mret (aw_set "verdicts" l out)
  else if key_is "severity_at_least" then
    t ← asText (Some v) path (units "severity_at_least");
    let t := text_trim t in
    if bool_decide (t = []) then mret out
    else l ← closed [t] SEVERITY_LEVELS path (units "The severity"); mret (aw_set_other (head l) (aw_min_event_count out) (aw_always out) out)
  else if key_is "min_event_count" then
    n ← asInt (Some v) path (units "min_event_count");
    match n with
    | Some n =>
        if (n <? 1) || (1000000 <? n) then fail path (units "min_event_count must be between 1 and 1,000,000.");; mret out
        else mret (aw_set_other (aw_severity_at_least out) (Some n) (aw_always out) out)
    | None => mret out
    end
  else if key_is "always" then
    b ← asBool (Some v) path (units "always"); mret (aw_set_other (aw_severity_at_least out) (aw_min_event_count out) b out)
  else
    l ← asList (Some v) path key;
    mret (foldl (λ out k, if bool_decide (key = units k) then aw_set k l out else out) out ["rule_ids"; "mitre"; "sources"; "statuses"; "any_tags"]).

Definition appliesWhenFrom (raw : YamlValue) : Parse (AppliesWhenOf text) :=
  match raw with
  | YNull => mret emptyAppliesWhen
  | YMap m => each_in applies_entry (entries m) emptyAppliesWhen
  | _ => fail (units "applies_when") (units "applies_when must be a block of 'key: value' lines.");; mret emptyAppliesWhen
  end.

(** ** Lookups *)

(** The members of [data]; [ld_tool] is [Some None] for a tool that is not one. A run mode that is not one
    is not kept: the problem is fatal, and nothing reads it after. *)
Record LookupData := mkLookupData {
  ld_tool : option (option LookupTool); ld_filter : option (list (text * text)); ld_group_by : option (list text);
  ld_indicator : option text; ld_window : option text; ld_limit : option Z; ld_run : option LookupRunMode }.

Definition filter_value (kpath owner : text) (flt : list (text * text)) (e : text * YamlValue) : Parse (list (text * text)) :=
  let keep v := mret (if bool_decide (e.1 = PROTO) then flt else jm_set flt e.1 v) in
  match e.2 with
  | YNull => keep []
  | YStr t => keep t
  | _ => fail (kpath ++ units "." ++ e.1) (owner ++ units " lookup filter on " ++ shown e.1 40 ++ units " must be one value.");; mret flt
  end.

Definition lookup_entry (path owner : text) (data : LookupData) (e : text * YamlValue) : Parse LookupData :=
  let '(key, v) := e in
  let '(mkLookupData tool filter group indicator window limit run) := data in
  let kpath := path ++ units "." ++ key in
  let what := owner ++ units " lookup " ++ key in
  let key_is s := bool_decide (key = units s) in
  if negb (bool_decide (key ∈ units <$> LOOKUP_KEYS)) then
    add kpath ISSUE_UNKNOWN_KEY (owner ++ units " lookup has the unknown key '" ++ shown key 40 ++ units "'. Known keys: " ++ comma_list LOOKUP_KEYS ++ units ".") false;;
    mret data
  else if key_is "tool" then
    t ← asText (Some v) kpath (owner ++ units " lookup tool");
    let found := named tool_name LOOKUP_TOOLS (text_trim t) in
    fail_if (bool_decide (found = None)) kpath
      (owner ++ units " lookup tool '" ++ shown (text_trim t) 30 ++ units "' is not one of " ++ join_with (units ", ") (tool_name <$> LOOKUP_TOOLS) ++ units ".");;
    mret (mkLookupData (Some found) filter group indicator window limit run)
  else if key_is "filter" then
    match v with
    | YNull => mret (mkLookupData tool (Some []) group indicator window limit run)
    | YMap m =>
        flt ← each_in (filter_value kpath owner) (entries m) [];
        mret (mkLookupData tool (Some flt) group indicator window limit run)
    | _ => fail kpath (owner ++ units " lookup filter must be a block of 'field: value' lines.");; mret data
    end
  else if key_is "group_by" then
    l ← asList (Some v) kpath what; mret (mkLookupData tool filter (Some l) indicator window limit run)
  else if key_is "indicator" then
    t ← asText (Some v) kpath what;
    mret (match non_empty (text_trim t) with Some t => mkLookupData tool filter group (Some t) window limit run | None => data end)
  else if key_is "window" then
    t ← asText (Some v) kpath what; mret (mkLookupData tool filter group indicator (Some (text_trim t)) limit run)
  else if key_is "run" then
    t ← asText (Some v) kpath what;
    match named run_name [OnAttach; OnDemand] (text_trim t) with
    | Some r => mret (mkLookupData tool filter group indicator window limit (Some r))
    | None => fail kpath (owner ++ units " lookup run must be on_attach or on_demand.");; mret data
    end
  else
    n ← asInt (Some v) kpath (owner ++ units " lookup limit");
    match n with
    | Some n =>
        if (n <? 1) || (limitMax <? n) then fail kpath (owner ++ units " lookup limit must be between 1 and 50.");; mret data
        else mret (mkLookupData tool filter group indicator window (Some n) run)
    | None => mret data
    end.

(** [{ ...defaultLookup(data.tool), ...data }] *)
Definition lookup_of (tool : LookupTool) (data : LookupData) : LookupTemplateOf text :=
  let d := RunbookMarkdown.defaultLookup tool in
  mkLookup tool (default (lk_filter d) (ld_filter data)) (default (lk_group_by d) (ld_group_by data))
    (match ld_indicator data with Some i => Some i | None => lk_indicator d end) (default (lk_window d) (ld_window data))
    (default (lk_limit d) (ld_limit data)) (default (lk_run d) (ld_run data)).

Definition lookupFrom (t path owner : text) (start : Z) : Parse (option (LookupTemplateOf text)) :=
  match parseYaml t start with
  | YamlError line message => fail path (owner ++ units " lookup, line " ++ decimal line ++ units ": " ++ message);; mret None
  | Good raw =>
      data ← each_in (lookup_entry path owner) (entries raw) (mkLookupData None None None None None None None);
      match ld_tool data with
      | None => fail (path ++ units ".tool") (owner ++ units " lookup needs a tool.");; mret None
      | Some tool =>
          stop ← is_fatal;
          mret (if stop : bool then None else (λ tool, lookup_of tool data) <$> tool)
      end
  end.

(** ** Headings *)
(** [text.lastIndexOf(c)]: what is before the last [c], and after it *)
Fixpoint last_split (c : Z) (t : text) : option (text * text) :=
  match t with
  | [] => None
  | d :: t' =>
      match last_split c t' with
      | Some (a, b) => Some (d :: a, b)
      | None => if d =? c then Some ([], t') else None
      end
  end.

Definition OPEN : Z := 123.
Definition CLOSE : Z := 125.

Definition splitHeading (heading : text) : text * option text :=
  let t := text_trimEnd heading in
  if negb (bool_decide (last t = Some CLOSE)) then (text_trim t, None)
  else match last_split OPEN t with
       | Some (title, rest) =>
           if bool_decide (CLOSE ∈ removelast rest) then (text_trim t, None) else (text_trim title, Some (removelast rest))
       | None => (text_trim t, None)
       end.

(** The tokens between the braces; a backslash in quotes takes the next character with it. *)
Fixpoint attr_loop (raw : text) (tokens : list text) (buf : text) (quote : bool) : list text :=
  match raw with
  | [] => match buf with [] => tokens | _ => tokens ++ [buf] end
  | ch :: raw' =>
      if quote then
        match raw' with
        | next :: raw'' =>
            if ch =? BACKSLASH then attr_loop raw'' tokens (buf ++ [ch; next]) true
            else attr_loop raw' tokens (buf ++ [ch]) (negb (ch =? QUOTE))
        | [] => attr_loop raw' tokens (buf ++ [ch]) (negb (ch =? QUOTE))
        end
      else if ch =? QUOTE then attr_loop raw' tokens (buf ++ [ch]) true
      else if trim_space ch then
        match buf with [] => attr_loop raw' tokens [] false | _ => attr_loop raw' (tokens ++ [buf]) [] false end
      else attr_loop raw' tokens (buf ++ [ch]) false
  end.
Definition attributes (raw : text) : list text := attr_loop raw [] [] false.

(** ** Key lines *)
Inductive StepKeyLine := LFocus | LEscalate | LBenign | LOptions.
#[export] Instance StepKeyLine_eq_dec : EqDecision StepKeyLine.
Proof. solve_decision. Defined.

Definition STEP_KEY_LINES : list StepKeyLine := [LFocus; LEscalate; LBenign; LOptions].
Definition key_line_name (k : StepKeyLine) : string :=
  match k with LFocus => "Focus" | LEscalate => "Escalate if" | LBenign => "Benign if" | LOptions => "Options" end.

(** [.replace(/^[ \t]+/, '')] *)
Definition strip_left (line : text) : text := skip_while (λ c, (c =? SPACE) || (c =? TAB)) line.

Definition key_prefix (k : StepKeyLine) : text := (lower_unit <$> units (key_line_name k)) ++ [COLON].

Definition keyLine (line : text) : option (StepKeyLine * text) :=
  let t := strip_left line in
  k ← List.find (λ k, bool_decide (lower_unit <$> take (length (key_prefix k)) t = key_prefix k)) STEP_KEY_LINES;
  match drop (length (key_prefix k)) t with
  | [] => Some (k, [])
  | (c :: _) as rest => if (c =? SPACE) || (c =? TAB) then Some (k, text_trim rest) else None
  end.

Definition leadingKeyLine (t : text) : option string :=
  match drop_blank (split_on LF t) with line :: _ => key_line_name ∘ fst <$> keyLine line | [] => None end.

(** The first match of a bar, spaces or tabs, and [skips:]: the text before it and after it. *)
Fixpoint find_skips (t : text) : option (text * text) :=
  match t with
  | [] => None
  | c :: t' =>
      let r := skip_while (λ c, (c =? SPACE) || (c =? TAB)) t' in
      if (c =? 124) && starts_with (units "skips:") r then Some ([], drop 6 r)
      else '(a, b) ← find_skips t'; Some (c :: a, b)
  end.

Definition optionLine (line : text) : option (DecisionOptionOf text) :=
  let '(optionId, sep, rest) := partition (text_trimStart (drop 2 line)) COLON in
  if negb sep || bool_decide (optionId = []) || existsb trim_space optionId then None
  else match find_skips rest with
       | Some (label, skips) => Some (mkOption optionId (text_trim label) (omap (λ s, non_empty (text_trim s)) (split_on COMMA skips)))
       | None => Some (mkOption optionId (text_trim rest) [])
       end.

(** ** Attributes *)
Record StepAttrs := mkAttrs {
  sa_id : text; sa_required : bool; sa_kind : StepKind; sa_owner : option text; sa_approval : option text; sa_evidence : StepEvidenceRule;
  sa_target : option Z; sa_react : option text; sa_d3fend : option text; sa_hasId : bool; sa_hasKind : bool }.

Definition no_attrs : StepAttrs := mkAttrs [] true KCheck None None EvNone None None None false false.

(** One to five digits, then [m] or [h]; [0] where it is neither. *)
Definition target_minutes (val : text) : Z :=
  match last val with
  | Some u =>
      let ds := removelast val in
      if all_of is_digit 1 5 ds && ((u =? 109) || (u =? 104)) then digits_value ds * (if u =? 104 then 60 else 1) else 0
  | None => 0
  end.

(** What a token with the known [key] and the value [val] sets. A kind or an evidence rule that is not one is
    a fatal problem, and the value is not kept: nothing reads it after. *)
Definition set_attribute (path owner key val : text) (a : StepAttrs) : Parse StepAttrs :=
  let '(mkAttrs id required kind own appr evid target react d3fend hasId hasKind) := a in
  let key_is s := bool_decide (key = units s) in
  if key_is "kind" then
    let found := named (units ∘ kind_name) STEP_KINDS val in
    fail_if (bool_decide (found = None)) (path ++ units ".kind")
      (owner ++ units " kind '" ++ shown val 20 ++ units "' is not one of " ++ comma_list (kind_name <$> STEP_KINDS) ++ units ".");;
    mret (mkAttrs id required (default kind found) own appr evid target react d3fend hasId true)
  else if key_is "owner" then mret (mkAttrs id required kind (Some val) appr evid target react d3fend hasId hasKind)
  else if key_is "approval" then mret (mkAttrs id required kind own (Some val) evid target react d3fend hasId hasKind)
  else if key_is "evidence" then
    let found := named evidence_name [EvNone; EvNote; EvNoteOrAttachment] val in
    fail_if (bool_decide (found = None)) (path ++ units ".evidence") (owner ++ units " evidence must be note or note_or_attachment.");;
    mret (mkAttrs id required kind own appr (default evid found) target react d3fend hasId hasKind)
  else if key_is "target" then
    let minutes := target_minutes val in
    if (minutes <? 1) || (10080 <? minutes) then
      fail (path ++ units ".target") (owner ++ units " target must be minutes or hours such as 30m or 4h, at most 168h.");; mret a
    else mret (mkAttrs id required kind own appr evid (Some minutes) react d3fend hasId hasKind)
  else if key_is "react" then mret (mkAttrs id required kind own appr evid target (Some val) d3fend hasId hasKind)
  else mret (mkAttrs id required kind own appr evid target react (Some val) hasId hasKind).

(** One token. *)
Definition attribute (path owner : text) (a : StepAttrs) (token : text) : Parse StepAttrs :=
  let '(mkAttrs id required kind own appr evid target react d3fend hasId hasKind) := a in
  if starts_with (units "#") token then
    fail_if hasId (path ++ units ".id") (owner ++ units " has two ids.");;
    mret (mkAttrs (drop 1 token) required kind own appr evid target react d3fend true hasKind)
  else if bool_decide (token = units "optional") then mret (mkAttrs id false kind own appr evid target react d3fend hasId hasKind)
  else
    let '(key, sep, raw) := partition token 61 in
    match (if sep && starts_with [QUOTE] raw then parse_string raw else Some raw) with
    | None => fail (path ++ units "." ++ key) (owner ++ units " has a quoted " ++ key ++ units " that is not closed.");; mret a
    | Some val =>
        if negb sep || negb (bool_decide (key ∈ units <$> STEP_ATTRIBUTES)) || bool_decide (key = units "optional") then
          add (path ++ units ".attributes") ISSUE_UNKNOWN_KEY
            (owner ++ units " has the unknown attribute '" ++ shown token 30 ++
             units "'. Known attributes: #id, kind=, optional, owner=, approval=, evidence=, target=, react=, d3fend=.") false;; mret a
        else set_attribute path owner key val a
    end.

(** ** The key lines of a step *)
Record StepKeys := mkKeys {
  sk_focus : option text; sk_escalate : option text; sk_benign : option text; sk_options : list (DecisionOptionOf text); sk_seen : list StepKeyLine }.

Definition is_option (line : text) : bool := starts_with (units "- ") (strip_left line).

(** The option lines after [Options:]: blank lines before the first are passed over. *)
Definition option_block (lines : list text) : nat * list text :=
  match drop_blank lines with
  | (line :: _) as rest => if is_option line then ((length lines - length rest)%nat, take_while is_option rest) else (O, [])
  | [] => (O, [])
  end.

Definition option_entry (path owner : text) (out : list (DecisionOptionOf text)) (line : Z * text) : Parse (list (DecisionOptionOf text)) :=
  match optionLine (strip_left line.2) with
  | Some o => mret (out ++ [o])
  | None =>
      fail (path ++ units ".options")
        (owner ++ units " option line " ++ decimal line.1 ++ units " must be '- id: label' with an optional '| skips: step-id, step-id'.");; mret out
  end.

Definition key_line (path owner : text) (number : Z) (k : StepKeyLine) (val : text) (lines : list text) (ks : StepKeys) : Parse (StepKeys * nat) :=
  let '(mkKeys focus escalate benign options seen) := ks in
  fail_if (bool_decide (k ∈ seen)) path (owner ++ units " has the line '" ++ units (key_line_name k) ++ units ":' twice.");;
  let seen := k :: seen in
  match k with
  | LOptions =>
      fail_if (negb (bool_decide (val = []))) (path ++ units ".options") (owner ++ units " lists options on the lines after 'Options:', one per line.");;
      let '(blanks, found) := option_block lines in
      options ← each_in (option_entry path owner) (imap (λ k l, (number + 1 + Z.of_nat (blanks + k), l)) found) [];
      mret (mkKeys focus escalate benign options seen, (blanks + length found)%nat)
  | LFocus => mret (mkKeys (match non_empty val with Some v => Some v | None => focus end) escalate benign options seen, O)
  | LEscalate => mret (mkKeys focus (match non_empty val with Some v => Some v | None => escalate end) benign options seen, O)
  | LBenign => mret (mkKeys focus escalate (match non_empty val with Some v => Some v | None => benign end) options seen, O)
  end.

(** The loop from line [number]; [skip] lines belong to the key line just read. The result is where it
    stopped, before the blank lines there. *)
Fixpoint key_loop (path owner : text) (number : Z) (skip : nat) (lines : list text) (ks : StepKeys) : Parse (StepKeys * Z * list text) :=
  match lines with
  | [] => mret (ks, number, [])
  | line :: lines' =>
      match skip with
      | S skip' => key_loop path owner (number + 1) skip' lines' ks
      | O =>
          match drop_blank lines with
          | first :: _ =>
              match keyLine first with
              | Some (k, val) =>
                  if blank line then key_loop path owner (number + 1) 0 lines' ks
                  else '(ks', n) ← key_line path owner number k val lines' ks; key_loop path owner (number + 1) n lines' ks'
              | None => mret (ks, number, lines)
              end
          | [] => mret (ks, number, lines)
          end
      end
  end.

(** ** The lookup block and the instructions *)
Record StepBody := mkBody {
  sb_instructions : list text;
  sb_lookup : option (list text);
  sb_lookup_start : Z;
  sb_open : option (text * list text);   (** the fence of the block being read, and its lines *)
}.

Definition lookup_fence (line : text) : option text :=
  let t := text_trim line in
  if bool_decide (t = units "```lookup") || bool_decide (t = units "~~~lookup") then Some (take 3 t) else None.

Definition body_line (path owner : text) (b : StepBody) (line : Z * text) : Parse StepBody :=
  let '(mkBody instructions lookup start opened) := b in
  match opened with
  | Some (fence, block) =>
      mret (if bool_decide (text_trim line.2 = fence) then mkBody instructions (Some block) start None
            else mkBody instructions lookup start (Some (fence, block ++ [line.2])))
  | None =>
      match lookup_fence line.2 with
      | Some fence =>
          fail_if (bool_decide (is_Some lookup)) (path ++ units ".lookup") (owner ++ units " has two lookup blocks.");;
          mret (mkBody instructions lookup (line.1 + 1) (Some (fence, [])))
      | None => mret (mkBody (instructions ++ [line.2]) lookup start None)
      end
  end.

Definition close_body (path owner : text) (b : StepBody) : Parse StepBody :=
  match sb_open b with
  | Some (fence, block) =>
      fail (path ++ units ".lookup") (owner ++ units " lookup block is not closed with " ++ fence ++ units ".");;
      mret (mkBody (sb_instructions b) (Some block) (sb_lookup_start b) None)
  | None => mret b
  end.

Definition numbered (start : Z) (lines : list text) : list (Z * text) := imap (λ k l, (start + Z.of_nat k, l)) lines.

Definition step_owner (title : text) (index : nat) : text :=
  match title with [] => units "Step " ++ decimal (Z.of_nat index + 1) | _ => units "Step '" ++ shown title 60 ++ units "'" end.

Definition check_attrs (path owner : text) (has_list : bool) (a : StepAttrs) : Parse unit :=
  if negb has_list then fail (path ++ units ".id") (owner ++ units " needs an id and a kind: end its heading with {#an-id kind=check}.")
  else if negb (sa_hasId a) || blank (sa_id a) then fail (path ++ units ".id") (owner ++ units " needs an id: add #an-id inside the braces.")
  else fail_if (negb (sa_hasKind a)) (path ++ units ".kind")
    (owner ++ units " needs a kind: add kind=check (or lookup, decision, action, record) inside the braces.").

Definition parseStep {P} (heading : text) (body : list text) (phase : P) (index : nat) (start : Z) : Parse (RunbookStepOf text P) :=
  let path := units "steps[" ++ decimal (Z.of_nat index) ++ units "]" in
  let '(title, rawAttrs) := splitHeading heading in
  let owner := step_owner title index in
  a ← each_in (attribute path owner) (match rawAttrs with Some r => attributes r | None => [] end) no_attrs;
  check_attrs path owner (bool_decide (is_Some rawAttrs)) a;;
  '(ks, number, rest) ← key_loop path owner start 0 body (mkKeys None None None [] []);
  b ← each_in (body_line path owner) (numbered number rest) (mkBody [] None 0 None);
  b ← close_body path owner b;
  lookup ← match sb_lookup b with
           | Some ls => lookupFrom (join_with [LF] ls) (path ++ units ".lookup") owner (sb_lookup_start b)
           | None => mret None
           end;
  mret (mkRunbookStep (sa_id a) phase (sa_kind a) title (cleanBlock (join_with [LF] (sb_instructions b)))
    (sk_focus ks) (sk_escalate ks) (sk_benign ks) (sa_required a) (sa_evidence a) (sa_owner a) (sa_approval a) (sa_target a)
    lookup (sk_options ks) (sa_react a) (sa_d3fend a)).

(** ** The source *)
Record ParsedRunbook := mkParsed {
  pr_definition : option (RunbookDefinitionOf text PhaseKey); pr_version : option Z; pr_issues : list RunbookIssue }.

(** The bytes of the UTF-8 form; an unpaired surrogate is written as U+FFFD. *)
Definition utf8Bytes (t : text) : Z :=
  Zsum ((λ p, if p <? 128 then 1 else if p <? 2048 then 2 else if p <? 65536 then 3 else 4) <$> code_points t).

Definition DASHES : text := units "---".

(** The lines before the first closing [---], and after it *)
Fixpoint to_dashes (lines : list text) : option (list text * list text) :=
  match lines with
  | [] => None
  | line :: lines' =>
      if bool_decide (text_trimEnd line = DASHES) then Some ([], lines')
      else '(a, b) ← to_dashes lines'; Some (line :: a, b)
  end.

(** The front matter, the body and the body's first line; [None] is [null]. *)
Definition splitFrontMatter (t : text) : option (text * text * Z) :=
  let lines := split_on LF (crlf (skip_while (λ c, c =? 65279) t)) in
  match lines with
  | first :: lines' =>
      if bool_decide (text_trimEnd first = DASHES) then
        '(meta, body) ← to_dashes lines'; Some (join_with [LF] meta, join_with [LF] body, Z.of_nat (length meta) + 3)
      else None
  | [] => None
  end.

Definition with_text (key : string) (v : text) (d : RunbookDefinitionOf text PhaseKey) : RunbookDefinitionOf text PhaseKey :=
  let key_is s := bool_decide (key = s) in
  mkDefinition (if key_is "id" then v else rd_id d) (if key_is "title" then v else rd_title d) (if key_is "summary" then v else rd_summary d)
    (if key_is "use_when" then v else rd_use_when d) (if key_is "prerequisites" then v else rd_prerequisites d) (rd_applies_when d)
    (rd_priority d) (rd_mitre d) (rd_phases d) (rd_steps d) (rd_retrieval_queries d) (rd_owner d) (rd_review_every_days d) (rd_references d).
Definition with_list (key : string) (v : list text) (d : RunbookDefinitionOf text PhaseKey) : RunbookDefinitionOf text PhaseKey :=
  let key_is s := bool_decide (key = s) in
  mkDefinition (rd_id d) (rd_title d) (rd_summary d) (rd_use_when d) (rd_prerequisites d) (rd_applies_when d) (rd_priority d)
    (if key_is "mitre" then v else rd_mitre d) (rd_phases d) (rd_steps d) (if key_is "retrieval_queries" then v else rd_retrieval_queries d)
    (rd_owner d) (rd_review_every_days d) (if key_is "references" then v else rd_references d).
Definition with_other (applies : AppliesWhenOf text) (priority : Z) (owner : option text) (review : Z) (d : RunbookDefinitionOf text PhaseKey) : RunbookDefinitionOf text PhaseKey :=
  mkDefinition (rd_id d) (rd_title d) (rd_summary d) (rd_use_when d) (rd_prerequisites d) applies priority (rd_mitre d) (rd_phases d)
    (rd_steps d) (rd_retrieval_queries d) owner review (rd_references d).
Definition with_body (phases : list PhaseKey) (steps : list (RunbookStepOf text PhaseKey)) (d : RunbookDefinitionOf text PhaseKey) : RunbookDefinitionOf text PhaseKey :=
  mkDefinition (rd_id d) (rd_title d) (rd_summary d) (rd_use_when d) (rd_prerequisites d) (rd_applies_when d) (rd_priority d) (rd_mitre d)
    phases steps (rd_retrieval_queries d) (rd_owner d) (rd_review_every_days d) (rd_references d).

Definition blank_parse : RunbookDefinitionOf text PhaseKey :=
  mkDefinition [] [] [] [] [] emptyAppliesWhen 50 [] [] [] [] None reviewDefault [].

(** One key of the front matter. *)
Definition meta_entry (state : RunbookDefinitionOf text PhaseKey * option Z) (e : text * YamlValue) : Parse (RunbookDefinitionOf text PhaseKey * option Z) :=
  let '(key, v) := e in
  let '(d, version) := state in
  let key_is s := bool_decide (key = units s) in
  let set_some (keys : list string) (f : string → RunbookDefinitionOf text PhaseKey) :=
    match List.find (λ k, bool_decide (units k = key)) keys with Some k => f k | None => d end in
  if negb (bool_decide (key ∈ units <$> FRONT_MATTER_KEYS)) then
    add key ISSUE_UNKNOWN_KEY (units "The front matter has the unknown key '" ++ shown key 40 ++ units "'. Known keys: " ++ comma_list FRONT_MATTER_KEYS ++ units ".") false;;
    mret state
  else if key_is "id" || key_is "title" || key_is "summary" || key_is "use_when" || key_is "prerequisites" then
    t ← asText (Some v) key key;
    mret (set_some ["id"; "title"; "summary"; "use_when"; "prerequisites"] (λ k, with_text k (text_trim t) d), version)
  else if key_is "owner" then
    t ← asText (Some v) key key;
    mret (with_other (rd_applies_when d) (rd_priority d) (non_empty (text_trim t)) (rd_review_every_days d) d, version)
  else if key_is "version" then version' ← versionFrom (Some v); mret (d, version')
  else if key_is "priority" || key_is "review_every_days" then
    n ← asInt (Some v) key key;
    match n with
    | Some n =>
        let '(low, high) := if key_is "priority" then (0, 100) else (reviewMin, reviewMax) in
        if (n <? low) || (high <? n) then
          fail key (key ++ units " must be between " ++ decimal low ++ units " and " ++ decimal high ++ units ".");; mret state
        else if key_is "priority" then mret (with_other (rd_applies_when d) n (rd_owner d) (rd_review_every_days d) d, version)
        else mret (with_other (rd_applies_when d) (rd_priority d) (rd_owner d) n d, version)
    | None => mret state
    end
  else if key_is "applies_when" then
    a ← appliesWhenFrom v; mret (with_other a (rd_priority d) (rd_owner d) (rd_review_every_days d) d, version)
  else
    l ← asList (Some v) key key; mret (set_some ["mitre"; "retrieval_queries"; "references"] (λ k, with_list k l d), version).

(** The state of the loop over the body *)
Record BodyState := mkBodyState {
  bs_phases : list PhaseKey; bs_steps : list (RunbookStepOf text PhaseKey);
  bs_phase : option PhaseKey; bs_heading : option text; bs_lines : list text; bs_start : Z; bs_fence : option text }.

Definition flush (b : BodyState) : Parse BodyState :=
  let done steps := mkBodyState (bs_phases b) steps (bs_phase b) None [] (bs_start b) (bs_fence b) in
  match bs_heading b, bs_phase b with
  | Some h, Some p => s ← parseStep h (bs_lines b) p (length (bs_steps b)) (bs_start b); mret (done (bs_steps b ++ [s]))
  | _, _ => mret (done (bs_steps b))
  end.

(** At most three white-space characters, then a fence *)
Definition opening_fence (line : text) : option text :=
  let t := text_trimStart line in
  if (length line - length t <=? 3)%nat && (starts_with FENCE t || starts_with (units "~~~") t) then Some (take 3 t) else None.

Definition is_phase_line (line : text) : bool := starts_with (units "## ") line || bool_decide (text_trimEnd line = units "##").
Definition is_step_line (line : text) : bool := starts_with (units "### ") line.

Definition phase_line (number : Z) (line : text) (b : BodyState) : Parse BodyState :=
  b ← flush b;
  let word := text_trim (drop 2 line) in
  let with_phase phases phase := mkBodyState phases (bs_steps b) phase (bs_heading b) (bs_lines b) (bs_start b) (bs_fence b) in
  match PHASE_BY_LABEL (lower_unit <$> word) with
  | None =>
      fail (units "phases") (units "Line " ++ decimal number ++ units ": '" ++ shown word 40 ++ units "' is not a phase. Use " ++
        comma_list (PHASE_LABEL <$> PHASE_ORDER) ++ units ".");;
      mret (with_phase (bs_phases b) None)
  | Some p =>
      fail_if (bool_decide (p ∈ bs_phases b)) (units "phases")
        (units "Line " ++ decimal number ++ units ": the phase " ++ label_of p ++ units " appears twice. Keep its steps under one heading.");;
      mret (with_phase (bs_phases b ++ [p]) (Some p))
  end.

Definition step_line (number : Z) (line : text) (b : BodyState) : Parse BodyState :=
  b ← flush b;
  match bs_phase b with
  | None => fail (units "steps") (units "Line " ++ decimal number ++ units ": a step must be under a phase heading such as '## Triage'.");; mret b
  | Some p => mret (mkBodyState (bs_phases b) (bs_steps b) (bs_phase b) (Some (text_trim (drop 4 line))) (bs_lines b) (number + 1) (bs_fence b))
  end.

Definition body_step (b : BodyState) (nl : Z * text) : Parse BodyState :=
  let '(number, line) := nl in
  let push fence := mkBodyState (bs_phases b) (bs_steps b) (bs_phase b) (bs_heading b) (bs_lines b ++ [line]) (bs_start b) fence in
  match bs_fence b with
  | Some fence =>
      let t := text_trim line in
      mret (push (if bool_decide (t = fence) || (starts_with fence t && blank (drop 3 t)) then None else Some fence))
  | None =>
      match opening_fence line, bs_heading b with
      | Some fence, Some _ => mret (push (Some fence))
      | _, _ =>
          if is_phase_line line then phase_line number line b
          else if is_step_line line then step_line number line b
          else match bs_heading b with
               | Some _ => mret (push None)
               | None =>
                   fail_if (negb (blank line)) (units "source")
                     (units "Line " ++ decimal number ++
                      (if starts_with (units "# ") line then units ": a top-level '#' heading is not part of the format. Remove it."
                       else units ": text outside a step is not kept. Put it in a step's instructions or remove it."));;
                   mret b
               end
      end
  end.

Definition parse_body (body : text) (start : Z) : Parse BodyState :=
  b ← each_in body_step (numbered start (split_on LF body)) (mkBodyState [] [] None None [] 0 None); flush b.

Section parse.
Context (toLocaleString : Z → text).

Definition no_problems : Collector := mkCollector [] false false.

Definition parse_meta (meta : YamlMap) : Parse (RunbookDefinitionOf text PhaseKey * option Z) :=
  '(d, version) ← each_in meta_entry (entries meta) (blank_parse, None);
  fail_if (bool_decide (rd_id d = [])) (units "id") (units "The front matter needs an id.");; mret (d, version).

Definition refused (m : Parse unit) : ParsedRunbook := mkParsed None None (issues_result (m no_problems).2).

Definition parseRunbookMarkdown (source : text) : ParsedRunbook :=
  let size := utf8Bytes source in
  if sourceBytes <? size then
    mkParsed None None [mkIssue (units "source") ISSUE_SOURCE_SIZE
      (units "The Markdown source is " ++ toLocaleString size ++ units " bytes; the limit is " ++ toLocaleString sourceBytes ++ units ".")]
  else
    match splitFrontMatter source with
    | None => refused (fail (units "source") (units "The source must start with front matter: a line '---', the header keys, then '---'."))
    | Some (rawMeta, body, bodyStart) =>
        match parseYaml rawMeta 2 with
        | YamlError line message => refused (fail (units "source") (units "Front matter, line " ++ decimal line ++ units ": " ++ message))
        | Good meta =>
            let '((d, version), sink) := parse_meta meta no_problems in
            let '(b, sink) := parse_body body bodyStart sink in
            mkParsed (if fatal sink then None else Some (with_body (bs_phases b) (bs_steps b) d)) version (issues_result sink)
        end
    end.
End parse.
