(* ===== verification/RunbookYamlSpec.v ===== *)
(** * Reading back what the export writes: scalars, lists, keys and blocks

    Whatever text a field holds, the scalar written for it reads as that text; so do lists of texts, keys,
    and blocks of fields. *)

From S2P Require Import Prelude JsText JsMap DisplayText DisplaySpec JsonText TextLines Runbook RunbookMarkdown RunbookYaml.
Local Open Scope Z_scope.

(** ** Plain scalars *)
Ltac split_orb :=
  repeat match goal with H : _ || _ = false |- _ => apply orb_false_iff in H as [H ?] end.

(** What a value that needs no quotes is. *)
Record Plain (inFlow : bool) (v : text) : Prop := {
  plain_trim : text_trim v = v;
  plain_head : ∃ c r, v = c :: r ∧ c ∉ PLAIN_UNSAFE_START;
  plain_line : LF ∉ v ∧ CR ∉ v;
  plain_flow : inFlow = true → Forall (λ c, c ∉ FLOW_UNSAFE) v;
}.

Lemma needsQuotes_plain inFlow v : needsQuotes v inFlow = false → Plain inFlow v.
Proof.
  unfold needsQuotes. intros H. split_orb. apply negb_false_iff, bool_decide_eq_true in H. rename H into Ht.
  match goal with H : bool_decide (v = []) = false |- _ => apply bool_decide_eq_false in H; rename H into Hne end.
  match goal with H : existsb _ v = false |- _ => rename H into Hbr end.
  match goal with H : inFlow && _ = false |- _ => rename H into Hfl end.
  match goal with H : starts_with (units "{{") v = false |- _ => rename H into Hb end.
  match goal with H : _ && negb _ = false |- _ => rewrite Hb in H; rename H into Hh end.
  assert (Hno : ∀ x, (x =? LF) || (x =? CR) || (x =? TAB) = true → x ∉ v).
  { intros x Hx Hin. assert (E : existsb (λ c, (c =? LF) || (c =? CR) || (c =? TAB)) v = true); [|congruence].
    apply existsb_exists. exists x. split; [by apply list_elem_of_In|done]. }
  split; [done| |split; by apply Hno|].
  - destruct v as [|c r]; [done|]. exists c, r. split; [done|]. cbn in Hh. rewrite andb_true_r in Hh. by apply bool_decide_eq_false in Hh.
  - intros ->. rewrite andb_true_l in Hfl. apply Forall_forall. intros c Hc Hu.
    assert (E : existsb (λ c, bool_decide (c ∈ FLOW_UNSAFE)) v = true); [|congruence].
    apply existsb_exists. exists c. split; [by apply list_elem_of_In|by apply bool_decide_eq_true].
Qed.

(** The scalar written for a text: itself when it is plain, otherwise its JSON string. *)
Lemma yamlScalar_cases inFlow v :
  Forall is_unit v →
  (Plain inFlow v ∧ yamlScalar v inFlow = v) ∨ (∃ b, yamlScalar v inFlow = QUOTE :: b ++ [QUOTE] ∧ Escaped b ∧ parse_string (QUOTE :: b ++ [QUOTE]) = Some v).
Proof.
  intros Hu. unfold yamlScalar. destruct (needsQuotes v inFlow) eqn:E.
  - right. destruct (stringify_escaped v Hu) as (b & Eb & Hb). exists b. split_and!; [done|done|]. rewrite <-Eb. by apply parse_stringify.
  - left. split; [by apply needsQuotes_plain|done].
Qed.

Lemma quoted_trim b : text_trim (QUOTE :: b ++ [QUOTE]) = QUOTE :: b ++ [QUOTE].
Proof. apply trim_id. split; [by intros c [= <-]|]. intros c. rewrite last_cons, last_snoc. by intros [= <-]. Qed.

(** Space before a scalar changes nothing. *)
Inductive Spaced (t : text) : text → Prop :=
  | spaced_nil : Spaced t t
  | spaced_cons c s : trim_space c = true → Spaced t s → Spaced t (c :: s).

Lemma Spaced_trim t s : Spaced t s → text_trim s = text_trim t.
Proof. induction 1 as [|c s Hc _ IH]; [done|]. by rewrite trim_space_cons. Qed.

Lemma Spaced_blank t s : Spaced t s → blank s = blank t.
Proof. intros Hs. unfold blank. by rewrite (Spaced_trim t s). Qed.

Lemma scalar_spaced t s line : Spaced t s → scalar s line = scalar t line.
Proof. intros Hs. unfold scalar. by rewrite (Spaced_trim t s). Qed.
Lemma value_spaced t s line : Spaced t s → value s line = value t line.
Proof. intros Hs. unfold value. by rewrite (Spaced_trim t s). Qed.

(** The characters a plain scalar does not start with. *)
Lemma unsafe_start c : c ∉ PLAIN_UNSAFE_START → c ≠ QUOTE ∧ c ≠ APOSTROPHE ∧ c ≠ 123 ∧ c ≠ 91 ∧ c ≠ 35 ∧ c ≠ 45.
Proof. intros Hc. split_and!; intros ->; apply Hc; apply (bool_decide_unpack _); vm_compute; exact I. Qed.

Lemma scalar_plain c r line : text_trim (c :: r) = c :: r → c ∉ PLAIN_UNSAFE_START → scalar (c :: r) line = Good (c :: r).
Proof.
  intros Ht Hc. apply unsafe_start in Hc as (H1 & H2 & H3 & _). unfold scalar. rewrite Ht.
  rewrite (proj2 (Z.eqb_neq c QUOTE)), (proj2 (Z.eqb_neq c APOSTROPHE)) by done.
  change (starts_with (units "{") (c :: r)) with ((123 =? c) && true). by rewrite (proj2 (Z.eqb_neq 123 c)).
Qed.

Lemma scalar_quoted b v line : parse_string (QUOTE :: b ++ [QUOTE]) = Some v → scalar (QUOTE :: b ++ [QUOTE]) line = Good v.
Proof. intros Hp. unfold scalar. rewrite quoted_trim. change (QUOTE =? QUOTE) with true. cbv iota. by rewrite Hp. Qed.

(** Any text comes back from its scalar. *)
Lemma scalar_yamlScalar v inFlow line : Forall is_unit v → scalar (yamlScalar v inFlow) line = Good v.
Proof.
  intros Hu. destruct (yamlScalar_cases inFlow v Hu) as [[Hp ->]|(b & -> & _ & Hp)].
  - destruct (plain_head _ _ Hp) as (c & r & -> & Hc). apply scalar_plain; [apply (plain_trim _ _ Hp)|done].
  - by apply scalar_quoted.
Qed.

Lemma value_yamlScalar v inFlow line : Forall is_unit v → value (yamlScalar v inFlow) line = Good (YStr v).
Proof.
  intros Hu. unfold value.
  assert (H : text_trim (yamlScalar v inFlow) = yamlScalar v inFlow ∧ starts_with (units "[") (yamlScalar v inFlow) = false).
  { destruct (yamlScalar_cases inFlow v Hu) as [[Hp ->]|(b & -> & _ & _)].
    - split; [apply (plain_trim _ _ Hp)|]. destruct (plain_head _ _ Hp) as (c & r & -> & Hc). apply unsafe_start in Hc as (_ & _ & _ & Hc & _).
      change (starts_with (units "[") (c :: r)) with ((91 =? c) && true). by rewrite (proj2 (Z.eqb_neq 91 c)).
    - split; [apply quoted_trim|done]. }
  destruct H as [-> ->]. by rewrite scalar_yamlScalar.
Qed.

Lemma yamlScalar_not_blank v inFlow : Forall is_unit v → blank (yamlScalar v inFlow) = false.
Proof.
  intros Hu. destruct (yamlScalar_cases inFlow v Hu) as [[Hp ->]|(b & -> & _ & _)]; [|by apply blank_plain].
  apply trimmed_nonempty_not_blank; [apply (plain_trim _ _ Hp)|]. by destruct (plain_head _ _ Hp) as (c & r & -> & _).
Qed.

Lemma Escaped_on_line b : Escaped b → on_line b.
Proof. intros Hb%Escaped_printable. rewrite Forall_forall in Hb. split; intros H%Hb; unfold LF, CR in *; lia. Qed.

Lemma quoted_on_line b : Escaped b → on_line (QUOTE :: b ++ [QUOTE]).
Proof. intros Hb. apply on_line_cons. split; [done|]. apply on_line_app. split; [by apply Escaped_on_line|].
  apply on_line_cons. split; [done|apply on_line_nil].
Qed.

Lemma yamlScalar_on_line v inFlow : Forall is_unit v → on_line (yamlScalar v inFlow).
Proof.
  intros Hu. destruct (yamlScalar_cases inFlow v Hu) as [[Hp ->]|(b & -> & Hb & _)]; [apply (plain_line _ _ Hp)|by apply quoted_on_line].
Qed.

(** ** Flow lists *)

(** Quoted text goes into the buffer as it is. *)
Lemma flow_escaped line b rest items buf :
  Escaped b →
  flow_loop line (b ++ QUOTE :: rest) items buf true (Some QUOTE) = flow_loop line rest items (buf ++ b ++ [QUOTE]) true None.
Proof.
  intros Hb. revert buf. induction Hb as [|c t Hq Hs _ _ IH|e t _ _ IH]; intros buf.
  - cbn [app]. destruct rest as [|n rest]; [done|]. cbn [flow_loop]. by change (QUOTE =? BACKSLASH) with false.
  - assert (E : ∀ n r, flow_loop line (c :: n :: r) items buf true (Some QUOTE) = flow_loop line (n :: r) items (buf ++ [c]) true (Some QUOTE)).
    { intros n r. cbn [flow_loop]. rewrite (proj2 (Z.eqb_neq c BACKSLASH)), (proj2 (Z.eqb_neq c QUOTE)) by done. done. }
    cbn [app]. destruct (t ++ QUOTE :: rest) as [|n r] eqn:Et; [by destruct t|]. rewrite E, IH. by rewrite <-app_assoc.
  - cbn [app flow_loop]. change (QUOTE =? QUOTE) with true. change (BACKSLASH =? BACKSLASH) with true. cbn [andb]. rewrite IH.
    by rewrite <-!app_assoc.
Qed.

Lemma flow_plain line v rest items buf hasText :
  Forall (λ c, c ∉ FLOW_UNSAFE) v → v ≠ [] →
  (hasText = true ∨ ∃ c r, v = c :: r ∧ trim_space c = false) →
  flow_loop line (v ++ rest) items buf hasText None = flow_loop line rest items (buf ++ v) true None.
Proof.
  intros Hv. revert buf hasText. induction Hv as [|c v Hc Hv IH]; intros buf hasText Hne Ht; [done|].
  assert (H : c ≠ QUOTE ∧ c ≠ APOSTROPHE ∧ c ≠ COMMA ∧ c ≠ 91 ∧ c ≠ 93)
    by (split_and!; intros ->; apply Hc; apply (bool_decide_unpack _); vm_compute; exact I).
  destruct H as (H1 & H2 & H3 & H4 & H5). cbn [app flow_loop].
  rewrite (proj2 (Z.eqb_neq c QUOTE)), (proj2 (Z.eqb_neq c APOSTROPHE)), (proj2 (Z.eqb_neq c COMMA)) by done. cbn [orb andb].
  replace (is_one_of "[]" c) with false
    by (symmetry; apply bool_decide_eq_false; intros [->|[->|H%elem_of_nil]%elem_of_cons]%elem_of_cons; [by apply H4|by apply H5|done]).
  replace (hasText || negb (trim_space c)) with true by (destruct Ht as [->|(? & ? & [= <- <-] & ->)]; [done|by rewrite orb_true_r]).
  destruct v as [|d v]; [done|]. rewrite IH; [by rewrite <-app_assoc|done|by left].
Qed.

Lemma plain_no_start_space c r : text_trim (c :: r) = c :: r → trim_space c = false.
Proof. intros [H _]%trim_trimmed_iff. by apply H. Qed.

(** One item of a flow list, at its start. *)
Lemma flow_item line v rest items sp :
  Forall is_unit v → Forall (λ c, c = SPACE) sp →
  flow_loop line (sp ++ yamlScalar v true ++ rest) items [] false None = flow_loop line rest items (sp ++ yamlScalar v true) true None.
Proof.
  intros Hu Hsp. assert (Hgo : ∀ buf, flow_loop line (sp ++ yamlScalar v true ++ rest) items buf false None =
    flow_loop line (yamlScalar v true ++ rest) items (buf ++ sp) false None).
  { induction Hsp as [|c sp -> _ IH]; intros buf; [by rewrite app_nil_r|]. cbn [app flow_loop].
    change (SPACE =? QUOTE) with false. change (SPACE =? APOSTROPHE) with false. change (SPACE =? COMMA) with false.
    change (is_one_of "[]" SPACE) with false. change (trim_space SPACE) with true. cbn [orb andb negb]. rewrite IH. by rewrite <-app_assoc. }
  rewrite Hgo. cbn [app]. destruct (yamlScalar_cases true v Hu) as [[Hp ->]|(b & -> & Hb & _)].
  - destruct (plain_head _ _ Hp) as (c & r & Ev & _). apply flow_plain; [by apply (plain_flow _ _ Hp)|by rewrite Ev|].
    right. exists c, r. split; [done|]. apply (plain_no_start_space c r). rewrite <-Ev. apply (plain_trim _ _ Hp).
  - cbn [app]. rewrite <-app_assoc. cbn [flow_loop]. change (QUOTE =? QUOTE) with true. cbn [orb andb negb]. cbn [app].
    rewrite flow_escaped by done. by rewrite <-!app_assoc.
Qed.

Definition spaced_items (vs : list text) : list text := (λ v, SPACE :: yamlScalar v true) <$> vs.

Lemma flow_items line v vs items sp :
  Forall (λ v, Forall is_unit v) (v :: vs) → Forall (λ c, c = SPACE) sp →
  flow_loop line (sp ++ join_with (units ", ") ((λ v, yamlScalar v true) <$> v :: vs)) items [] false None =
  Good (items ++ (sp ++ yamlScalar v true) :: spaced_items vs).
Proof.
  revert v items sp. induction vs as [|w vs IH]; intros v items sp Hu Hsp; apply Forall_cons in Hu as [Hv Hu].
  - cbn [fmap list_fmap join_with]. rewrite <-(app_nil_r (yamlScalar v true)) at 1. rewrite flow_item by done. done.
  - rewrite fmap_cons, join_with_cons by done. rewrite flow_item by done.
    change (units ", " ++ ?t) with (COMMA :: [SPACE] ++ t). cbn [flow_loop]. change (COMMA =? QUOTE) with false. change (COMMA =? APOSTROPHE) with false.
    change (COMMA =? COMMA) with true. cbn [orb andb]. rewrite IH by (done || by constructor). by rewrite <-app_assoc.
Qed.

Lemma each_Good {A B} (f : A → Yaml B) (g : A → B) l : (∀ a, a ∈ l → f a = Good (g a)) → each f l = Good (g <$> l).
Proof.
  induction l as [|a l IH]; intros Hf; [done|]. cbn [each]. rewrite Hf by left. cbn [mbind Yaml_bind]. rewrite IH; [done|]. intros b Hb. apply Hf. by right.
Qed.

Lemma each_fmap {A B C} (f : B → Yaml C) (h : A → B) l : each f (h <$> l) = each (f ∘ h) l.
Proof. induction l as [|a l IH]; [done|]. rewrite fmap_cons. cbn [each]. by rewrite IH. Qed.

Lemma each_id {A B} (f : A → Yaml B) (h : B → A) l : (∀ b, b ∈ l → f (h b) = Good b) → each f (h <$> l) = Good l.
Proof. intros Hf. rewrite each_fmap, (each_Good _ id) by done. by rewrite list_fmap_id. Qed.

(** A flow list reads as the texts it was written for. *)
Lemma splitFlow_yamlFlow vs line : Forall (λ v, Forall is_unit v) vs →
  splitFlow (join_with (units ", ") ((λ v, yamlScalar v true) <$> vs)) line = Good vs.
Proof.
  intros Hu. unfold splitFlow. destruct vs as [|v vs]; [done|].
  pose proof (flow_items line v vs [] [] Hu ltac:(constructor)) as E. cbn [app] in E. rewrite E. cbn [mbind Yaml_bind].
  apply Forall_cons in Hu as [Hv Hu].
  assert (Hitem : ∀ v, Forall is_unit v → blank (yamlScalar v true) = false ∧ blank (SPACE :: yamlScalar v true) = false ∧
    scalar (yamlScalar v true) line = Good v ∧ scalar (SPACE :: yamlScalar v true) line = Good v).
  { intros w Hw. rewrite blank_cons_space by done. rewrite (scalar_spaced (yamlScalar w true) (SPACE :: _)) by (repeat constructor).
    rewrite yamlScalar_not_blank, scalar_yamlScalar by done. done. }
  assert (Hrest : each (λ item, if blank item then error line "A list has an empty item." else scalar item line) (spaced_items vs) = Good vs).
  { unfold spaced_items. apply each_id. intros w Hw. rewrite Forall_forall in Hu. by destruct (Hitem w (Hu w Hw)) as (_ & -> & _ & ->). }
  destruct (Hitem v Hv) as (Hb & _ & Hs & _). destruct vs as [|w vs].
  - cbn [spaced_items fmap list_fmap]. rewrite Hb. cbn [each]. by rewrite Hs.
  - cbn [spaced_items fmap list_fmap] in *. cbn [each] in *. rewrite Hb, Hs. cbn [mbind Yaml_bind] in *. by rewrite Hrest.
Qed.

Lemma value_yamlFlow vs line : Forall (λ v, Forall is_unit v) vs → value (yamlFlow vs) line = Good (YList vs).
Proof.
  intros Hu. unfold yamlFlow. change (units "[") with [91]. change (units "]") with [93]. set (j := join_with _ _). unfold value.
  assert (Ht : text_trim ([91] ++ j ++ [93]) = [91] ++ j ++ [93]).
  { apply trim_id. split; [by intros c [= <-]|]. intros c. rewrite app_assoc, last_snoc. by intros [= <-]. }
  rewrite Ht. change (starts_with [91] ([91] ++ j ++ [93])) with true. cbv iota.
  rewrite bool_decide_true by (by rewrite app_assoc, last_snoc). unfold inside. change (tail ([91] ++ j ++ [93])) with (j ++ [93]).
  rewrite List.removelast_last. unfold j. by rewrite splitFlow_yamlFlow.
Qed.

Lemma yamlFlow_on_line vs : Forall (λ v, Forall is_unit v) vs → on_line (yamlFlow vs).
Proof.
  intros Hu. unfold yamlFlow. rewrite !on_line_app. split_and!; [on_line_units| |on_line_units].
  apply join_on_line; [on_line_units|]. apply Forall_fmap. eapply Forall_impl; [exact Hu|]. intros v Hv. by apply yamlScalar_on_line.
Qed.

(** ** Keys *)
Lemma split_at_first c a b : c ∉ a → split_at c (a ++ c :: b) = (a, Some b).
Proof.
  induction a as [|d a IH]; cbn; [by rewrite Z.eqb_refl|]. intros [Hd Ha]%not_elem_of_cons.
  rewrite (proj2 (Z.eqb_neq d c)) by congruence. by rewrite IH.
Qed.

Lemma partition_first c a b : c ∉ a → partition (a ++ c :: b) c = (a, true, b).
Proof. intros Ha. unfold partition. by rewrite split_at_first. Qed.

(** How a key is written before its colon, and that it reads as the key. *)
Record KeyText (raw k : text) : Prop := {
  kt_head : ∃ c r, raw = c :: r ∧ trim_space c = false ∧ c ≠ HASH ∧ c ≠ 45 ∧ c ≠ 96;
  kt_split : ∀ r, splitKey (raw ++ COLON :: r) = (raw, true, r);
  kt_key : ∀ line, keyOf raw line = Good k;
  kt_line : on_line raw;
  kt_not_empty : k ≠ [];
}.

Lemma key_char c : alnum c || is_one_of "_.-" c = true → c ≠ COLON ∧ trim_space c = false ∧ c ≠ QUOTE ∧ c ≠ APOSTROPHE ∧ c ≠ LF ∧ c ≠ CR.
Proof.
  intros H. assert (Hr : 48 ≤ c ≤ 57 ∨ 65 ≤ c ≤ 90 ∨ 97 ≤ c ≤ 122 ∨ c = 95 ∨ c = 46 ∨ c = 45).
  { apply orb_true_iff in H as [H|H].
    - unfold alnum, is_upper, is_lower, is_digit, in_range in H. lia.
    - apply bool_decide_eq_true in H. change (units "_.-") with [95; 46; 45] in H. rewrite !elem_of_cons, elem_of_nil in H. lia. }
  unfold COLON, QUOTE, APOSTROPHE, LF, CR, trim_space. lia.
Qed.

Lemma KEY_RE_chars k : KEY_RE k = true → ∃ c r, k = c :: r ∧ (is_upper c || is_lower c || (c =? 95)) = true ∧ Forall (λ c, alnum c || is_one_of "_.-" c = true) k.
Proof.
  destruct k as [|c r]; [done|]. cbn [KEY_RE]. intros [Hc Hr]%andb_true_iff. exists c, r. split_and!; [done|done|].
  constructor; [|by apply Forall_forall; intros x Hx; rewrite forallb_forall in Hr; apply Hr, list_elem_of_In].
  unfold alnum. apply orb_true_iff in Hc as [Hc| ->%Z.eqb_eq]; [by rewrite Hc|done].
Qed.

Lemma KeyText_plain k : KEY_RE k = true → KeyText k k.
Proof.
  intros Hk. destruct (KEY_RE_chars k Hk) as (c & r & -> & Hc & Hall).
  assert (Hch : ∀ x, x ∈ c :: r → x ≠ COLON ∧ trim_space x = false ∧ x ≠ QUOTE ∧ x ≠ APOSTROPHE ∧ x ≠ LF ∧ x ≠ CR)
    by (intros x Hx; rewrite Forall_forall in Hall; by apply key_char, Hall).
  destruct (Hch c ltac:(by left)) as (_ & Hs & Hq & Ha & _). split.
  - exists c, r. split_and!; [done|done| | |]; unfold is_upper, is_lower, in_range, HASH in *; lia.
  - intros t. unfold splitKey. rewrite <-app_comm_cons, trimStart_plain by done.
    rewrite (proj2 (Z.eqb_neq c QUOTE)), (proj2 (Z.eqb_neq c APOSTROPHE)) by done. cbn [orb].
    rewrite (app_comm_cons r). apply partition_first. intros H%Hch. tauto.
  - intros line. unfold keyOf. rewrite trim_no_space by (apply Forall_forall; intros x Hx; by destruct (Hch x Hx) as (_ & ? & _)).
    by rewrite (proj2 (Z.eqb_neq c QUOTE)), (proj2 (Z.eqb_neq c APOSTROPHE)).
  - split; intros H%Hch; tauto.
  - done.
Qed.

Lemma close_at_escaped b rest prev :
  Escaped b → last b ≠ Some BACKSLASH → (b = [] → prev ≠ BACKSLASH) → close_at QUOTE prev (b ++ QUOTE :: rest) = Some (b, rest).
Proof.
  intros Hb. revert prev. induction Hb as [|c t Hq Hs _ _ IH|e t _ _ IH]; intros prev Hl Hp.
  - cbn. by rewrite (proj2 (Z.eqb_neq prev BACKSLASH)) by auto.
  - cbn [app close_at]. rewrite (proj2 (Z.eqb_neq c QUOTE)) by done. cbn [andb]. rewrite IH; [done| |done].
    destruct t; [done|]. intros H. apply Hl. by rewrite last_cons, H.
  - cbn [app close_at]. change (BACKSLASH =? QUOTE) with false. change (QUOTE =? QUOTE) with true. change (BACKSLASH =? BACKSLASH) with true.
    cbn [andb negb]. rewrite andb_false_r. rewrite IH; [done| |].
    + destruct t; [done|]. intros H. apply Hl. exact H.
    + intros ->. cbn in Hl. congruence.
Qed.

Lemma last_app_ne {A} (x : A) a b : last a ≠ Some x → last b ≠ Some x → last (a ++ b) ≠ Some x.
Proof. intros Ha Hb. rewrite last_app. by destruct (last b). Qed.

Lemma last_unicode_escape c : last (unicode_escape c) ≠ Some BACKSLASH.
Proof.
  unfold unicode_escape. cbn [last]. intros [= H]. destruct (hex_digit_plain (c mod 16)) as (_ & Hne & _); [by apply Z.mod_pos_bound|done].
Qed.

Lemma last_escape_unit c : c ≠ BACKSLASH → last (escape_unit c) ≠ Some BACKSLASH.
Proof.
  intros Hc. unfold escape_unit. rewrite (proj2 (Z.eqb_neq c BACKSLASH)) by done.
  repeat match goal with |- context [if ?b then _ else _] => destruct b end; try done; [apply last_unicode_escape|cbn; congruence].
Qed.

Lemma quote_body_nil t : quote_body t = [] → t = [].
Proof.
  destruct t as [|c t]; [done|]. cbn. destruct (is_high c); [destruct t as [|d t]; [done|]; by destruct (is_low d)|]. destruct (is_low c); [done|].
  unfold escape_unit. repeat match goal with |- context [if ?b then _ else _] => destruct b end; done.
Qed.

(** A closing quote is taken for an escaped one only after a backslash. *)
Lemma last_quote_body t : last t ≠ Some BACKSLASH → last (quote_body t) ≠ Some BACKSLASH.
Proof.
  remember (length t) as n eqn:Hn. assert (Hle : (length t <= n)%nat) by lia. clear Hn. revert t Hle.
  induction n as [|n IH]; intros [|c t] Hle Hl; cbn in Hle; try lia; [done..|].
  assert (Ht : ∀ (x : Z) (u : text), last (x :: u) ≠ Some BACKSLASH → last u ≠ Some BACKSLASH) by (intros x u H E; apply H; by rewrite last_cons, E).
  specialize (Ht c t Hl) as Hlt. cbn [quote_body].
  destruct (is_high c) eqn:Eh; [|destruct (is_low c) eqn:El].
  - destruct t as [|d t]; [apply last_unicode_escape|]. destruct (is_low d) eqn:El.
    + change (c :: d :: quote_body t) with ([c; d] ++ quote_body t). apply last_app_ne; [cbn; unfold is_low, BACKSLASH in *; intros [= ->]; done|].
      apply IH; [cbn in *; lia|]. by apply (Ht d).
    + apply last_app_ne; [apply last_unicode_escape|apply IH; [cbn in *; lia|done]].
  - apply last_app_ne; [apply last_unicode_escape|apply IH; [lia|done]].
  - destruct (decide (c = BACKSLASH)) as [->|Hc]; [|apply last_app_ne; [by apply last_escape_unit|apply IH; [lia|done]]].
    rewrite last_app. destruct (last (quote_body t)) eqn:E; [rewrite <-E; apply IH; [lia|done]|].
    apply last_None, quote_body_nil in E as ->. done.
Qed.

Lemma KeyText_quoted k : Forall is_unit k → k ≠ [] → last k ≠ Some BACKSLASH → KeyText (stringify k) k.
Proof.
  intros Hu Hne Hl. assert (Hb : Escaped (quote_body k)) by (apply quote_body_escaped; eapply Forall_impl; [exact Hu|]; unfold is_unit; lia).
  split.
  - by exists QUOTE, (quote_body k ++ [QUOTE]).
  - intros r. unfold splitKey, stringify. rewrite <-!app_comm_cons, trimStart_plain by done. change (QUOTE =? QUOTE) with true. cbn [orb].
    rewrite <-app_assoc. cbn [app]. rewrite close_at_escaped by (done || by apply last_quote_body).
    change (COLON :: r) with ([] ++ COLON :: r). rewrite partition_first by apply not_elem_of_nil. done.
  - intros line. unfold keyOf, stringify. rewrite quoted_trim. change (QUOTE =? QUOTE) with true. cbn [orb].
    apply scalar_quoted. by apply parse_stringify.
  - by apply quoted_on_line.
  - done.
Qed.

Lemma KeyText_yamlKey k : Forall is_unit k → k ≠ [] → last k ≠ Some BACKSLASH → KeyText (yamlKey k) k.
Proof.
  intros Hu Hne Hl. unfold yamlKey. destruct (KEY_RE k) eqn:E; [|by apply KeyText_quoted].
  destruct (needsQuotes k false); [by apply KeyText_quoted|by apply KeyText_plain].
Qed.

(** ** Lines with a key *)
Definition plain_start (line : text) : Prop := ∃ c r, line = c :: r ∧ trim_space c = false ∧ c ≠ HASH ∧ c ≠ 45 ∧ c ≠ 96.

Lemma KeyText_start raw k r : KeyText raw k → plain_start (raw ++ r).
Proof. intros [(c & t & -> & H) _ _ _ _]. by exists c, (t ++ r). Qed.

Lemma plain_start_facts line : plain_start line →
  ignored line = false ∧ leadingWhitespace line = [] ∧ indentOf line = 0%nat ∧ under line = false ∧ is_item line = false ∧ text_trimStart line = line ∧ blank line = false.
Proof.
  intros (c & r & -> & Hs & Hh & Hd & _). assert (Hb : blank (c :: r) = false) by by apply blank_plain.
  assert (Ht : text_trimStart (c :: r) = c :: r) by by apply trimStart_plain.
  assert (Hi : indentOf (c :: r) = 0%nat) by (cbn; destruct (Z.eqb_spec c SPACE) as [->|]; done).
  split_and!; [|unfold leadingWhitespace; by rewrite Ht, Nat.sub_diag|done| | |done|done].
  - unfold ignored. rewrite Hb, Ht. change (starts_with (units "#") (c :: r)) with ((HASH =? c) && true).
    by rewrite (proj2 (Z.eqb_neq HASH c)).
  - unfold under. rewrite Hb, Hi. change (starts_with [TAB] (c :: r)) with ((TAB =? c) && true).
    rewrite (proj2 (Z.eqb_neq TAB c)); [done|]. intros <-. done.
  - unfold is_item. rewrite Ht. change (starts_with (units "- ") (c :: r)) with ((45 =? c) && starts_with [SPACE] r).
    rewrite (proj2 (Z.eqb_neq 45 c)) by done. cbn [andb orb]. apply bool_decide_eq_false. intros E.
    rewrite trim_cons_plain in E by done. by injection E as ->.
Qed.

Section blocks.
Context (nested : bool) (inner : Z → list text → Yaml YamlMap).

Lemma block_skip number ls lines data :
  block_loop nested inner number (length ls) (ls ++ lines) data = block_loop nested inner (number + Z.of_nat (length ls)) 0 lines data.
Proof.
  revert number. induction ls as [|l ls IH]; intros number; [cbn; by rewrite Z.add_0_r|]. cbn [length app block_loop]. rewrite IH. f_equal. lia.
Qed.

Lemma loop_inline number raw k s v lines data :
  KeyText raw k → (nested = false → KEY_RE k = true) → k ∉ data.*1 → (∀ n, value s n = Good v) → blank s = false →
  block_loop nested inner number 0 ((raw ++ COLON :: s) :: lines) data = block_loop nested inner (number + 1) 0 lines (put data k v).
Proof.
  intros Hk Hre Hn Hv Hb. destruct (plain_start_facts _ (KeyText_start raw k (COLON :: s) Hk)) as (Hi & Hl & Hd & _).
  cbn [block_loop]. rewrite Hi, Hl, Hd. change (bool_decide (TAB ∈ [])) with false. cbn [Nat.ltb Nat.leb].
  rewrite (kt_split _ _ Hk), (kt_key _ _ Hk). cbn [mbind Yaml_bind negb orb]. rewrite bool_decide_false by apply (kt_not_empty _ _ Hk).
  replace (negb nested && negb (KEY_RE k)) with false by (destruct nested; [done|by rewrite Hre]).
  rewrite bool_decide_false by done. rewrite Hb. cbn [negb]. by rewrite Hv.
Qed.

Lemma take_while_app {A} (p : A → bool) l l' :
  Forall (λ a, p a = true) l → match l' with a :: _ => p a = false | [] => True end → take_while p (l ++ l') = l.
Proof.
  intros Hl Hl'. induction Hl as [|a l Ha _ IH]; cbn; [|by rewrite Ha, IH]. destruct l' as [|b l']; [done|]. cbn. by rewrite Hl'.
Qed.

Lemma loop_block number raw k ls v lines data :
  KeyText raw k → (nested = false → KEY_RE k = true) → k ∉ data.*1 → Forall (λ l, under l = true) ls →
  match lines with l :: _ => under l = false | [] => True end → (∀ n, block_value nested inner n ls = Good v) →
  block_loop nested inner number 0 (((raw ++ [COLON]) :: ls) ++ lines) data =
  block_loop nested inner (number + 1 + Z.of_nat (length ls)) 0 lines (put data k v).
Proof.
  intros Hk Hre Hn Hu Hl Hv. destruct (plain_start_facts _ (KeyText_start raw k [COLON] Hk)) as (Hi & Hw & Hd & _).
  cbn [app block_loop]. rewrite Hi, Hw, Hd. change (bool_decide (TAB ∈ [])) with false. cbn [Nat.ltb Nat.leb].
  rewrite (kt_split _ _ Hk []), (kt_key _ _ Hk). cbn [mbind Yaml_bind negb orb]. rewrite bool_decide_false by apply (kt_not_empty _ _ Hk).
  replace (negb nested && negb (KEY_RE k)) with false by (destruct nested; [done|by rewrite Hre]).
  rewrite bool_decide_false by done. change (blank []) with true. cbn [negb]. rewrite take_while_app by done. rewrite Hv. cbn [mbind Yaml_bind].
  apply block_skip.
Qed.
End blocks.

(** ** Fields and blocks of fields *)

(** A key with its value, on one line or with a block under it. *)
Inductive Written (nested : bool) : text → YamlValue → list text → Prop :=
  | written_inline raw k s v :
      KeyText raw k → (nested = false → KEY_RE k = true) → (∀ n, value s n = Good v) → blank s = false → on_line s →
      Written nested k v [raw ++ COLON :: s]
  | written_block raw k ls v :
      KeyText raw k → (nested = false → KEY_RE k = true) → Forall (λ l, under l = true) ls → Forall on_line ls →
      (∀ n, block_value nested nested_block n ls = Good v) → Written nested k v ((raw ++ [COLON]) :: ls).

Abbreviation Fields := (list (text * YamlValue * list text)).
Definition field_entries (fs : Fields) : YamlMap := fst <$> fs.
Definition field_lines (fs : Fields) : list text := concat (snd <$> fs).
Definition fields_written (nested : bool) (fs : Fields) : Prop := Forall (λ f, Written nested f.1.1 f.1.2 f.2) fs.

Lemma Written_start nested k v ls : Written nested k v ls → ∃ l ls', ls = l :: ls' ∧ plain_start l.
Proof. intros [raw k' s v' Hk _ _ _ _|raw k' ls' v' Hk _ _ _ _]; eexists _, _; (split; [done|]); by apply (KeyText_start raw k'). Qed.

Lemma fields_start nested fs : fields_written nested fs → match field_lines fs with l :: _ => plain_start l | [] => True end.
Proof. intros [|f fs' Hf _]; [done|]. unfold field_lines. rewrite fmap_cons. cbn [concat]. by destruct (Written_start _ _ _ _ Hf) as (l & ls & -> & Hl). Qed.

Lemma Written_read nested number k v ls lines data :
  Written nested k v ls → k ∉ data.*1 → match lines with l :: _ => under l = false | [] => True end →
  block_loop nested nested_block number 0 (ls ++ lines) data = block_loop nested nested_block (number + Z.of_nat (length ls)) 0 lines (put data k v).
Proof.
  intros [raw k' s v' Hk Hre Hv Hb _|raw k' ls' v' Hk Hre Hu _ Hv] Hn Hl.
  - cbn [app length]. by apply loop_inline.
  - etrans; [by apply (loop_block nested nested_block number raw k' ls' v' lines data)|]. f_equal. cbn [length]. lia.
Qed.

Lemma put_fresh data k v : k ≠ PROTO → k ∉ data.*1 → put data k v = data ++ [(k, v)].
Proof.
  intros Hp Hk. unfold put. rewrite bool_decide_false by done. induction data as [|[k' v'] data IH]; [done|].
  rewrite fmap_cons, not_elem_of_cons in Hk. destruct Hk as [Hne Hk]. cbn [jm_set]. cbn in Hne. rewrite decide_False by congruence.
  cbn [app]. by rewrite IH.
Qed.

Lemma fields_loop nested number fs data :
  fields_written nested fs → NoDup (data ++ field_entries fs).*1 → Forall (λ k, k ≠ PROTO) (field_entries fs).*1 →
  block_loop nested nested_block number 0 (field_lines fs) data = Good (data ++ field_entries fs).
Proof.
  intros Hw. revert number data. induction Hw as [|[[k v] ls] fs Hf Hw IH]; intros number data Hn Hp; [cbn; by rewrite app_nil_r|].
  pose proof (fields_start nested fs Hw) as Hstart. unfold field_lines in *. rewrite fmap_cons. cbn [concat snd fst] in *.
  unfold field_entries in Hn, Hp. rewrite fmap_cons, fmap_app, fmap_cons in Hn. rewrite !fmap_cons in Hp. cbn [fst] in *. apply Forall_cons in Hp as [Hk Hp].
  assert (Hfresh : k ∉ data.*1) by (intros H; apply NoDup_app in Hn as (_ & Hd & _); apply (Hd k H); by left).
  rewrite (Written_read nested number k v ls) by (done || (destruct (concat _) as [|l ?]; [done|]; by destruct (plain_start_facts l Hstart) as (_ & _ & _ & ? & _))).
  rewrite put_fresh by done. rewrite IH; [unfold field_entries; rewrite fmap_cons; by rewrite <-app_assoc| |done].
  rewrite <-app_assoc, fmap_app. cbn [app]. by rewrite fmap_cons.
Qed.

(** A front matter or lookup block of fields reads as its entries. *)
Lemma parseBlock_fields nested number fs :
  fields_written nested fs → NoDup (field_entries fs).*1 → Forall (λ k, k ≠ PROTO) (field_entries fs).*1 →
  parseBlock (field_lines fs) number nested = Good (field_entries fs).
Proof. intros. unfold parseBlock. by rewrite fields_loop. Qed.

Lemma fields_on_line nested fs : fields_written nested fs → Forall on_line (field_lines fs).
Proof.
  unfold field_lines. induction 1 as [|f fs Hf _ IH]; [constructor|]. rewrite fmap_cons. cbn [concat]. apply Forall_app. split; [|done].
  destruct Hf as [raw k s v Hk _ _ _ Hs|raw k ls v Hk _ _ Hl _].
  - constructor; [|done]. apply on_line_app. split; [apply (kt_line _ _ Hk)|]. by apply on_line_cons.
  - constructor; [|done]. apply on_line_app. split; [apply (kt_line _ _ Hk)|]. apply on_line_cons. split; [done|apply on_line_nil].
Qed.

Lemma parseYaml_fields number fs :
  fields_written false fs → fs ≠ [] → NoDup (field_entries fs).*1 → Forall (λ k, k ≠ PROTO) (field_entries fs).*1 →
  parseYaml (join_with [LF] (field_lines fs)) number = Good (field_entries fs).
Proof.
  intros Hw Hne Hn Hp. unfold parseYaml. rewrite split_join_lines.
  - by apply parseBlock_fields.
  - destruct fs as [|f fs]; [done|]. apply Forall_cons in Hw as [Hf _]. apply Written_start in Hf as (l & ls & E & _). unfold field_lines. rewrite fmap_cons. cbn [concat]. by rewrite E.
  - eapply Forall_impl; [by eapply fields_on_line|]. by intros l [? _].
Qed.

(** ** Lists and nested blocks under a key *)

(** A nested block never opens a block. *)
Lemma nested_inner i1 i2 n skip lines data : block_loop true i1 n skip lines data = block_loop true i2 n skip lines data.
Proof.
  revert n skip data. induction lines as [|l lines IH]; intros n skip data; [done|]. destruct skip as [|skip]; cbn [block_loop]; [|apply IH].
  destruct (ignored l); [apply IH|]. destruct (bool_decide _); [done|]. destruct (_ <? _)%nat; [done|]. destruct (splitKey l) as [[rawKey sep] rest].
  destruct (keyOf rawKey n) as [key|]; [|done]. cbn [mbind Yaml_bind]. destruct (negb sep || _); [done|]. destruct (negb true && _); [done|].
  destruct (bool_decide _); [done|]. destruct (negb (blank rest)).
  - destruct (value rest n); [apply IH|done].
  - assert (E : block_value true i1 n (take_while under lines) = block_value true i2 n (take_while under lines)).
    { unfold block_value. destruct (List.filter _ _) as [|[k0 b0] content]; [done|]. by destruct (forallb _ _). }
    rewrite E. destruct (block_value _ _ _ _); [apply IH|done].
Qed.

Definition two_spaces (l : text) : text := SPACE :: SPACE :: l.
Definition item_line (q : text) : text := two_spaces (45 :: SPACE :: yamlScalar q false).

Lemma under_two l : under (two_spaces l) = true.
Proof. unfold under. cbn. by destruct (blank _). Qed.

Lemma filter_kept {A} (p : A → bool) l : Forall (λ a, p a = true) l → List.filter p l = l.
Proof. induction 1 as [|a l Ha _ IH]; [done|]. cbn. by rewrite Ha, IH. Qed.

Lemma Forall_imap {A B} (P : B → Prop) (f : nat → A → B) l : (∀ i a, a ∈ l → P (f i a)) → Forall P (imap f l).
Proof.
  intros H. apply Forall_forall. intros b (i & a & -> & Ha)%elem_of_lookup_imap. apply H. by eapply list_elem_of_lookup_2.
Qed.

Lemma each_numbered {A B} (f : nat * A → Yaml B) (h : B → A) l : (∀ i b, b ∈ l → f (i, h b) = Good b) → each f (imap pair (h <$> l)) = Good l.
Proof.
  intros H. enough (Hk : ∀ k, each f (imap (λ i a, ((k + i)%nat, a)) (h <$> l)) = Good l) by apply (Hk 0%nat).
  induction l as [|b l IH]; intros k; [done|]. rewrite fmap_cons, imap_cons. cbn [each]. rewrite H by left. cbn [mbind Yaml_bind].
  rewrite (imap_ext _ (λ i a, ((S k + i)%nat, a))) by (intros; cbn; f_equal; lia). rewrite IH; [done|]. intros i c Hc. apply H. by right.
Qed.

Lemma trim_two l : text_trim (two_spaces l) = text_trim l.
Proof. unfold two_spaces. by rewrite !trim_space_cons. Qed.

Lemma item_line_facts q : Forall is_unit q →
  ignored (item_line q) = false ∧ is_item (item_line q) = true ∧ text_trim (item_line q) = 45 :: SPACE :: yamlScalar q false.
Proof.
  intros Hq. set (y := yamlScalar q false). assert (Hs : text_trimStart (item_line q) = 45 :: SPACE :: y) by done.
  assert (Hl : ∀ c, last y = Some c → trim_space c = false).
  { destruct (yamlScalar_cases false q Hq) as [[Hp E]|(b & E & _ & _)]; subst y; rewrite E.
    - by destruct (proj1 (trim_trimmed_iff _) (plain_trim _ _ Hp)).
    - intros c. rewrite last_cons, last_snoc. by intros [= <-]. }
  assert (Hne : y ≠ []) by (intros E; pose proof (yamlScalar_not_blank q false Hq) as Hb; subst y; by rewrite E in Hb).
  split_and!.
  - unfold ignored. rewrite Hs. by unfold item_line, two_spaces; rewrite !blank_cons_space, blank_plain by done.
  - unfold is_item. by rewrite Hs.
  - unfold item_line. rewrite trim_two. apply trim_id. split; [by intros c [= <-]|]. intros c. rewrite !last_cons.
    destruct (last y) as [d|] eqn:E; [intros [= <-]; by apply Hl|by apply last_None in E].
Qed.

Lemma block_item_line n i q : Forall is_unit q → block_item n (i, item_line q) = Good q.
Proof.
  intros Hq. unfold block_item. cbn [snd]. destruct (item_line_facts q Hq) as (_ & _ & ->). cbn [tail].
  rewrite trim_space_cons by done. assert (Ht : text_trim (yamlScalar q false) = yamlScalar q false).
  { destruct (yamlScalar_cases false q Hq) as [[Hp ->]|(b & -> & _ & _)]; [apply (plain_trim _ _ Hp)|apply quoted_trim]. }
  rewrite Ht, bool_decide_false by (intros E; pose proof (yamlScalar_not_blank q false Hq) as Hb; by rewrite E in Hb).
  by rewrite value_yamlScalar.
Qed.


Lemma block_value_list nested inner n qs : Forall (λ q, Forall is_unit q) qs → qs ≠ [] →
  block_value nested inner n (item_line <$> qs) = Good (YList qs).
Proof.
  intros Hq Hne. rewrite Forall_forall in Hq. assert (Hin : ∀ l, l ∈ item_line <$> qs → ignored l = false ∧ is_item l = true).
  { intros l (q & -> & H)%list_elem_of_fmap. destruct (item_line_facts q (Hq q H)) as (? & ? & _). done. }
  unfold block_value. rewrite filter_kept by (apply Forall_imap; intros i l Hl; cbn; by rewrite (proj1 (Hin l Hl))).
  destruct (imap pair (item_line <$> qs)) as [|[k0 b0] content] eqn:E; [by destruct qs|]. rewrite <-E.
  replace (forallb _ _) with true.
  - rewrite each_numbered; [done|]. intros i q H. apply block_item_line. by apply Hq.
  - symmetry. apply forallb_forall. intros [i l] H. apply list_elem_of_In, elem_of_lookup_imap in H as (j & l' & [= -> ->] & Hj).
    cbn. apply Hin. by eapply list_elem_of_lookup_2.
Qed.

Lemma block_value_map inner n lines m : lines ≠ [] → Forall plain_start lines → (∀ n, inner n lines = Good m) →
  block_value false inner n (two_spaces <$> lines) = Good (YMap m).
Proof.
  intros Hne Hl Hm. rewrite Forall_forall in Hl.
  assert (Hin : ∀ l, plain_start l → ignored (two_spaces l) = false ∧ blank (two_spaces l) = false ∧ indentOf (two_spaces l) = 2%nat ∧ is_item (two_spaces l) = false).
  { intros l Hp. destruct (plain_start_facts l Hp) as (H1 & _ & H3 & _ & H5 & H6 & H7). split_and!.
    - unfold ignored in *. rewrite H6 in H1. unfold two_spaces. rewrite !blank_cons_space, !trimStart_space by done. by rewrite H6.
    - unfold two_spaces. by rewrite !blank_cons_space.
    - cbn. by rewrite H3.
    - unfold is_item in *. rewrite trim_two. unfold two_spaces. by rewrite !trimStart_space. }
  unfold block_value. rewrite filter_kept.
  2:{ apply Forall_imap. intros i l (l' & -> & H)%list_elem_of_fmap. cbn. by destruct (Hin l' (Hl l' H)) as (-> & _). }
  destruct lines as [|l0 lines]; [done|]. rewrite fmap_cons, imap_cons.
  destruct (Hin l0 (Hl l0 ltac:(by left))) as (_ & _ & Hi0 & Hit0). cbn [forallb snd]. rewrite Hit0. cbn [andb]. rewrite Hi0.
  change ((0%nat, two_spaces l0) :: imap _ _) with (imap pair (two_spaces <$> l0 :: lines)).
  rewrite each_numbered; [cbn [mbind Yaml_bind]; by rewrite Hm|]. intros i l H. unfold dedent. cbn [snd fst].
  destruct (Hin l (Hl l H)) as (_ & -> & -> & _). done.
Qed.

(** The three ways the export writes a key. *)
Lemma Written_scalar nested raw k v :
  KeyText raw k → (nested = false → KEY_RE k = true) → Forall is_unit v → Written nested k (YStr v) [raw ++ COLON :: SPACE :: yamlScalar v false].
Proof.
  intros Hk Hre Hv. apply written_inline; [done..|intros n; rewrite (value_spaced (yamlScalar v false)) by repeat constructor; by apply value_yamlScalar| |].
  - by rewrite blank_cons_space, yamlScalar_not_blank.
  - apply on_line_cons. split; [done|by apply yamlScalar_on_line].
Qed.

Lemma Written_flow nested raw k vs :
  KeyText raw k → (nested = false → KEY_RE k = true) → Forall (λ v, Forall is_unit v) vs → Written nested k (YList vs) [raw ++ COLON :: SPACE :: yamlFlow vs].
Proof.
  intros Hk Hre Hv. apply written_inline; [done..|intros n; rewrite (value_spaced (yamlFlow vs)) by repeat constructor; by apply value_yamlFlow| |].
  - rewrite blank_cons_space by done. by apply (blank_plain 91).
  - apply on_line_cons. split; [done|by apply yamlFlow_on_line].
Qed.

(** A word that is written as it is. *)
Lemma Written_word nested raw k c r :
  KeyText raw k → (nested = false → KEY_RE k = true) → text_trim (c :: r) = c :: r → c ∉ PLAIN_UNSAFE_START → on_line (c :: r) →
  Written nested k (YStr (c :: r)) [raw ++ COLON :: SPACE :: c :: r].
Proof.
  intros Hk Hre Ht Hc Hl. apply written_inline; [done..| | |].
  - intros n. rewrite (value_spaced (c :: r)) by repeat constructor. unfold value. rewrite Ht.
    change (starts_with (units "[") (c :: r)) with ((91 =? c) && true). rewrite (proj2 (Z.eqb_neq 91 c)) by (apply unsafe_start in Hc; by destruct Hc as (_ & _ & _ & ? & _)).
    cbn [andb]. by rewrite scalar_plain.
  - rewrite blank_cons_space by done. by apply trimmed_nonempty_not_blank.
  - by apply on_line_cons.
Qed.

Lemma Written_list raw k qs :
  KeyText raw k → KEY_RE k = true → Forall (λ q, Forall is_unit q) qs → qs ≠ [] → Written false k (YList qs) ((raw ++ [COLON]) :: (item_line <$> qs)).
Proof.
  intros Hk Hre Hq Hne. apply written_block; [done..| | |].
  - apply Forall_fmap, Forall_forall. intros q _. apply under_two.
  - apply Forall_fmap. eapply Forall_impl; [exact Hq|]. intros q H. unfold compose, item_line, two_spaces. rewrite !on_line_cons. split_and!; try done; by apply yamlScalar_on_line.
  - intros n. by apply block_value_list.
Qed.

Lemma Written_map raw k fs :
  KeyText raw k → KEY_RE k = true → fields_written true fs → fs ≠ [] → Forall (λ f, ∃ l, f.2 = [l]) fs →
  NoDup (field_entries fs).*1 → Forall (λ k, k ≠ PROTO) (field_entries fs).*1 →
  Written false k (YMap (field_entries fs)) ((raw ++ [COLON]) :: (two_spaces <$> field_lines fs)).
Proof.
  intros Hk Hre Hw Hne H1 Hn Hp. apply written_block; [done..| | |].
  - apply Forall_fmap, Forall_forall. intros q _. apply under_two.
  - apply Forall_fmap. eapply Forall_impl; [by eapply fields_on_line|]. intros l H. unfold compose, two_spaces. by rewrite !on_line_cons.
  - intros n. apply block_value_map.
    + destruct fs as [|f fs]; [done|]. apply Forall_cons in H1 as [[l El] _]. unfold field_lines. rewrite fmap_cons. cbn [concat]. by rewrite El.
    + clear Hne Hn Hp. unfold field_lines. revert H1. induction Hw as [|f fs Hf _ IH]; intros H1; [constructor|]. rewrite fmap_cons. cbn [concat].
      apply Forall_cons in H1 as [[l El] H1]. apply Forall_app. split; [|by apply IH]. destruct (Written_start _ _ _ _ Hf) as (l' & ls & E & Hl).
      rewrite El in *. injection E as -> <-. by constructor.
    + intros n'. unfold nested_block. rewrite (nested_inner _ nested_block). by apply (parseBlock_fields true).
Qed.
