(* ===== verification/RunbookCanonical.v ===== *)
(** * The canonical form of a runbook ([normaliseDefinition])

    The comment of the source says that applying it twice changes nothing. Then what a canonical block of
    text is, line by line. *)

From S2P Require Import Prelude JsText JsMap DisplayText DisplaySpec JsonText TextLines Runbook RunbookMarkdown.
Local Open Scope Z_scope.

(** ** Objects in the order of their entries *)
Section entries.
Context {V : Type}.
Implicit Types o : list (text * V).

Lemma filter_nothing {A} (p : A → bool) l : Forall (λ a, p a = false) l → List.filter p l = [].
Proof. induction 1 as [|a l Ha _ IH]; [done|]. cbn. by rewrite Ha. Qed.
Lemma filter_everything {A} (p : A → bool) l : Forall (λ a, p a = true) l → List.filter p l = l.
Proof. induction 1 as [|a l Ha _ IH]; [done|]. cbn. by rewrite Ha, IH. Qed.
Lemma Forall_filter_by {A} (p : A → bool) l : Forall (λ a, p a = true) (List.filter p l).
Proof. apply Forall_forall. intros a Ha%list_elem_of_In. by apply filter_In in Ha as [_ ?]. Qed.

Lemma filter_split {A} (p : A → bool) l : List.filter p l ++ List.filter (λ a, negb (p a)) l ≡ₚ l.
Proof.
  induction l as [|a l IH]; [done|]. cbn. destruct (p a); cbn; [by rewrite IH|]. rewrite <-Permutation_middle. by rewrite IH.
Qed.

Lemma entries_Permutation o : entries o ≡ₚ o.
Proof. unfold entries. by rewrite isort_Permutation, filter_split. Qed.

Lemma entries_idem o : entries (entries o) = entries o.
Proof.
  unfold entries. rewrite !List.filter_app.
  assert (Hi : Forall (λ e : text * V, is_index e.1 = true) (isort index_le (List.filter (λ e, is_index e.1) o)))
    by (rewrite isort_Permutation; apply Forall_filter_by).
  assert (Hn : Forall (λ e : text * V, negb (is_index e.1) = true) (List.filter (λ e, negb (is_index e.1)) o)) by apply Forall_filter_by.
  rewrite (filter_everything _ (isort _ _)) by done. rewrite (filter_nothing _ (isort _ _)) by (eapply Forall_impl; [exact Hi|]; intros e H; cbn in *; by rewrite H).
  rewrite (filter_nothing (λ e, is_index e.1) (List.filter _ _)) by (eapply Forall_impl; [exact Hn|]; intros e H; cbn in *; by apply negb_true_iff).
  rewrite (filter_everything (λ e, negb (is_index e.1)) (List.filter _ _)) by done.
  rewrite app_nil_r, isort_id; [done|]. apply isort_sorted.
  - intros a b. unfold index_le. rewrite !Is_true_true, !Z.leb_le. lia.
  - intros a b c. unfold index_le. rewrite !Is_true_true, !Z.leb_le. lia.
Qed.

Definition set_all (l : list (text * V)) : list (text * V) := foldl (λ o e, jm_set o e.1 e.2) [] l.

Lemma set_all_NoDup l : NoDup (set_all l).*1.
Proof.
  unfold set_all. assert (H : NoDup (@nil (text * V)).*1) by constructor. revert H. generalize (@nil (text * V)).
  induction l as [|e l IH]; intros o Ho; [done|]. cbn. by apply IH, jm_NoDup_set.
Qed.

Lemma jm_set_new o k v : k ∉ o.*1 → jm_set o k v = o ++ [(k, v)].
Proof.
  induction o as [|[k' v'] o IH]; [done|]. rewrite fmap_cons, not_elem_of_cons. intros [Hne Hk]. cbn [jm_set app].
  cbn in Hne. rewrite decide_False by congruence. by rewrite IH.
Qed.

Lemma set_all_id l : NoDup l.*1 → set_all l = l.
Proof.
  intros Hn. unfold set_all. enough (H : ∀ o, NoDup (o ++ l).*1 → foldl (λ o e, jm_set o e.1 e.2) o l = o ++ l) by by apply H.
  clear Hn. induction l as [|[k v] l IH]; intros o Hn; [by rewrite app_nil_r|]. cbn [foldl fst snd]. rewrite fmap_app, fmap_cons in Hn.
  rewrite jm_set_new.
  - rewrite IH; [by rewrite <-app_assoc|]. by rewrite <-app_assoc, fmap_app.
  - intros H. apply NoDup_app in Hn as (_ & Hd & _). apply (Hd k H). by left.
Qed.

Lemma jm_set_keeps (P : text * V → Prop) o k v : Forall P o → P (k, v) → Forall P (jm_set o k v).
Proof.
  intros Ho Hk. induction Ho as [|[k' v'] o He Ho IH]; cbn; [by constructor|]. destruct (decide (k' = k)); by constructor.
Qed.

Lemma set_all_Forall (P : text * V → Prop) l : Forall P l → Forall P (set_all l).
Proof.
  intros Hl. unfold set_all. assert (H : Forall P []) by constructor. revert H. generalize (@nil (text * V)).
  induction Hl as [|[k v] l He _ IH]; intros o Ho; [done|]. cbn. by apply IH, jm_set_keeps.
Qed.
End entries.

(** ** One-line fields and lists *)
Lemma trim_cons_id v c t : text_trim v = c :: t → text_trim (c :: t) = c :: t.
Proof. intros <-. apply trim_idem. Qed.

Lemma cleanOptional_twice v : cleanOptional (cleanOptional v) = cleanOptional v.
Proof.
  destruct v as [v|]; [|done]. unfold cleanOptional, cleanLine. cbn [mbind option_bind]. destruct (text_trim v) as [|c t] eqn:E; [done|].
  cbn [non_empty mbind option_bind]. by rewrite (trim_cons_id v c t E).
Qed.

Lemma cleanOptional_some v t : cleanOptional v = Some t → text_trim t = t ∧ t ≠ [].
Proof.
  destruct v as [v|]; [|done]. cbn. unfold non_empty, cleanLine. destruct (text_trim v) as [|c r] eqn:E; [done|]. intros [= <-].
  split; [by apply (trim_cons_id v)|done].
Qed.

Section canonical.
Context `{UpperCase}.

Lemma cleanList_items values upper t : t ∈ cleanList values upper → text_trim t = t ∧ t ≠ [] ∧ (upper = true → toUpperCase t = t).
Proof.
  unfold cleanList. intros (v & Hv & E)%list_elem_of_omap. unfold non_empty, cleanLine in E.
  destruct (text_trim v) as [|c r] eqn:Et; [done|]. cbn in E. injection E as <-. rewrite <-Et. destruct upper.
  - destruct (toUpperCase_trim (text_trim v) (trim_idem v)) as [H1 H2]; [congruence|]. split_and!; [done|done|intros _; apply toUpperCase_twice].
  - split_and!; [apply trim_idem|congruence|done].
Qed.

Lemma cleanList_twice values upper : cleanList (cleanList values upper) upper = cleanList values upper.
Proof.
  assert (Hi := cleanList_items values upper). revert Hi. generalize (cleanList values upper). intros l Hi.
  induction l as [|t l IH]; [done|]. destruct (Hi t) as (Ht & Hne & Hu); [by left|].
  unfold cleanList in *. cbn [omap list_omap]. unfold cleanLine at 1. rewrite Ht. destruct t as [|c t']; [done|]. cbn [non_empty fmap option_fmap option_map].
  rewrite IH by (intros x Hx; apply Hi; by right). f_equal. destruct upper; [by apply Hu|done].
Qed.

(** ** Blocks of text *)
(** The lines of a block: the first is not blank, the last is not blank and ends without space. *)
Definition block_lines (ls : list text) : Prop :=
  Forall on_line ls ∧ (∃ l ls', ls = l :: ls' ∧ blank l = false) ∧ ∃ init l, ls = init ++ [l] ∧ blank l = false ∧ text_trimEnd l = l.

Lemma trimEnd_app a b : text_trimEnd b ≠ [] → text_trimEnd (a ++ b) = a ++ text_trimEnd b.
Proof.
  induction b as [|c b IH] using rev_ind; [done|]. rewrite app_assoc, !trimEnd_snoc. destruct (trim_space c); [done|]. by rewrite app_assoc.
Qed.

Lemma blank_trimEnd l : blank l = false → text_trimEnd l ≠ [].
Proof.
  intros Hb E. apply blank_false in Hb. apply Hb. unfold text_trim. clear Hb. induction l as [|c l IH] using rev_ind; [done|].
  rewrite trimEnd_snoc in E. destruct (trim_space c) eqn:Ec; [|by destruct l]. specialize (IH E).
  fold (text_trim (l ++ [c])). by rewrite trim_snoc_space.
Qed.

Lemma blank_of_trimEnd l : blank (text_trimEnd l) = blank l.
Proof.
  induction l as [|c l IH] using rev_ind; [done|]. rewrite trimEnd_snoc. destruct (trim_space c) eqn:Ec; [|done].
  rewrite IH. unfold blank. by rewrite trim_snoc_space.
Qed.

Lemma drop_blank_head ls l ls' : drop_blank ls = l :: ls' → blank l = false.
Proof. induction ls as [|x ls IH]; cbn; [done|]. destruct (blank x) eqn:E; [done|]. by intros [= <- <-]. Qed.

Lemma drop_blank_id l ls : blank l = false → drop_blank (l :: ls) = l :: ls.
Proof. intros Hl. cbn. by rewrite Hl. Qed.

Lemma drop_blank_app pre ls : Forall (λ l, blank l = true) pre → drop_blank (pre ++ ls) = drop_blank ls.
Proof. induction 1 as [|l pre Hl _ IH]; [done|]. cbn. by rewrite Hl. Qed.

Lemma drop_blank_suffix ls : drop_blank ls `suffix_of` ls.
Proof. induction ls as [|l ls IH]; [done|]. cbn. destruct (blank l); [by apply suffix_cons_r|done]. Qed.

Lemma drop_blank_Forall (P : text → Prop) ls : Forall P ls → Forall P (drop_blank ls).
Proof. intros Hl. destruct (drop_blank_suffix ls) as [pre E]. rewrite E in Hl. by apply Forall_app in Hl as [_ ?]. Qed.

(** Blank lines around a block are dropped, and the block is read as it was. *)
Lemma cleanBlock_lines pre ls post :
  block_lines ls → Forall on_line (pre ++ post) → Forall (λ l, blank l = true) (pre ++ post) →
  cleanBlock (join_with [LF] (pre ++ ls ++ post)) = join_with [LF] ls.
Proof.
  intros (Hc & (l0 & ls0 & E0 & H0) & init & l & El & Hl & Hle) Hcl Hb. apply Forall_app in Hcl as [Hcp Hcq]. apply Forall_app in Hb as [Hbp Hbq].
  assert (Hall : Forall on_line (pre ++ ls ++ post)) by (rewrite !Forall_app; done).
  unfold cleanBlock. rewrite crlf_id by by apply on_lines_no_cr. rewrite split_on_lines; [|by rewrite E0; destruct pre|done].
  rewrite drop_blank_app by done. rewrite E0 at 1. rewrite <-app_comm_cons, drop_blank_id, app_comm_cons, <-E0 by done.
  rewrite reverse_app, drop_blank_app by (by apply Forall_reverse). rewrite El, reverse_app. change (reverse [l]) with [l]. cbn [app].
  rewrite drop_blank_id by done. rewrite reverse_cons, reverse_involutive.
  destruct init as [|i init]; [done|]. rewrite join_with_app by done. cbn [join_with]. rewrite !app_assoc, trimEnd_app; [by rewrite Hle|]. by apply blank_trimEnd.
Qed.

Lemma cleanBlock_blank ls : Forall on_line ls → Forall (λ l, blank l = true) ls → cleanBlock (join_with [LF] ls) = [].
Proof.
  intros Hc Hb. destruct (decide (ls = [])) as [->|Hne]; [done|]. unfold cleanBlock.
  rewrite crlf_id by by apply on_lines_no_cr. rewrite split_on_lines by done. by rewrite <-(app_nil_r ls), drop_blank_app by done.
Qed.

(** What a canonical block of text is: nothing, or the lines of a block. *)
Definition block_form (t : text) : Prop := t = [] ∨ ∃ ls, block_lines ls ∧ t = join_with [LF] ls.

Lemma cleanBlock_form v : block_form (cleanBlock v).
Proof.
  unfold cleanBlock. set (ls := split_on LF (crlf v)).
  assert (Hl : Forall on_line ls).
  { apply Forall_forall. intros l Hl. pose proof (split_no_sep LF (crlf v)) as Hlf. rewrite Forall_forall in Hlf. split; [by apply Hlf|].
    intros Hcr. pose proof (elem_of_join CR [LF] l ls Hl Hcr) as H'. unfold ls in H'. rewrite join_split in H'.
    pose proof (crlf_no_cr v) as Hn. rewrite Forall_forall in Hn. by apply Hn in H'. }
  destruct (drop_blank ls) as [|l0 ls0] eqn:E0; [by left|]. pose proof (drop_blank_head ls l0 ls0 E0) as H0.
  assert (Hl1 : Forall on_line (l0 :: ls0)) by (rewrite <-E0; by apply drop_blank_Forall).
  set (r := drop_blank (reverse (l0 :: ls0))). assert (Hr : Forall on_line (reverse r)) by (apply Forall_reverse, drop_blank_Forall; by apply Forall_reverse).
  assert (Hs : reverse r `prefix_of` l0 :: ls0).
  { destruct (drop_blank_suffix (reverse (l0 :: ls0))) as [pre E]. exists (reverse pre). fold r in E. by rewrite <-reverse_app, <-E, reverse_involutive. }
  destruct r as [|l rest] eqn:Er; [by left|]. assert (Hbl : blank l = false) by (by eapply drop_blank_head).
  rewrite reverse_cons in Hr, Hs |- *. apply Forall_app in Hr as [Hr Hon]. apply Forall_inv in Hon as Hon.
  right. exists (reverse rest ++ [text_trimEnd l]). split.
  - split; [|split].
    + apply Forall_app. split; [done|]. constructor; [by apply on_line_trimEnd|done].
    + destruct (reverse rest) as [|x xs] eqn:Ex; cbn [app]; eexists _, _; (split; [done|]); [by rewrite blank_of_trimEnd|].
      destruct Hs as [k Hk]. injection Hk as -> _. done.
    + exists (reverse rest), (text_trimEnd l). split_and!; [done|by rewrite blank_of_trimEnd|]. apply trimEnd_id. intros c. apply trimEnd_last.
  - destruct (reverse rest) as [|x xs]; [done|]. rewrite !join_with_app by done. cbn [join_with]. rewrite !app_assoc. apply trimEnd_app. by apply blank_trimEnd.
Qed.

Lemma cleanBlock_id t : block_form t → cleanBlock t = t.
Proof.
  intros [->|(ls & Hls & ->)]; [done|]. pose proof (cleanBlock_lines [] ls [] Hls) as E. cbn [app] in E. rewrite app_nil_r in E. by apply E.
Qed.

Lemma cleanBlock_twice v : cleanBlock (cleanBlock v) = cleanBlock v.
Proof. apply cleanBlock_id, cleanBlock_form. Qed.

(** A block trimmed at both ends is still canonical. *)
Lemma trim_join l ls : text_trimStart (join_with [LF] (l :: ls)) = join_with [LF] (text_trimStart l :: ls) ∨ blank l = true.
Proof.
  destruct (blank l) eqn:E; [by right|left]. assert (Hst : ∀ r, text_trimStart (l ++ r) = text_trimStart l ++ r).
  { intros r. clear ls. assert (Hne : text_trimStart l ≠ []) by (intros H'; apply blank_false in E; apply E; unfold text_trim; by rewrite H').
    clear E. induction l as [|c l IH]; [done|]. cbn in *. destruct (trim_space c); [by apply IH|done]. }
  destruct ls as [|x ls]; [done|]. by rewrite !join_with_cons, Hst by done.
Qed.

Lemma cleanText_twice v : text_trim (cleanBlock (text_trim (cleanBlock v))) = text_trim (cleanBlock v).
Proof.
  enough (Hf : block_form (text_trim (cleanBlock v))) by (rewrite (cleanBlock_id _ Hf); apply trim_idem).
  destruct (cleanBlock_form v) as [->|(ls & (Hc & (l0 & ls0 & -> & H0) & init & l & El & Hl & Hle) & ->)]; [by left|]. right.
  unfold text_trim. destruct (trim_join l0 ls0) as [->|]; [|congruence].
  assert (Hs : on_line (text_trimStart l0)) by (apply on_line_trimStart; by apply Forall_inv in Hc).
  assert (Hb0 : blank (text_trimStart l0) = false).
  { apply blank_false. apply blank_false in H0. unfold text_trim in *. rewrite (trimStart_id (text_trimStart l0)); [done|]. apply trimStart_head. }
  exists (text_trimStart l0 :: ls0). destruct ls0 as [|l1 ls0].
  - destruct init as [|? [|]]; [|done|done]. injection El as ->. cbn [join_with]. rewrite (trimEnd_id (text_trimStart l)).
    2:{ intros c Hc'%last_trimStart. apply (trimEnd_last l). by rewrite Hle. }
    split; [|done]. split; [by constructor|]. split; [by exists (text_trimStart l), []|]. exists [], (text_trimStart l). split_and!; [done|done|].
    apply trimEnd_id. intros c Hc'%last_trimStart. apply (trimEnd_last l). by rewrite Hle.
  - destruct init as [|i init]; [done|]. injection El as -> El. split.
    + split; [by apply Forall_cons in Hc as [_ ?]; constructor|]. split; [by eexists _, _|]. exists (text_trimStart i :: init), l. by rewrite El.
    + rewrite El. rewrite app_comm_cons, join_with_app by done. cbn [join_with]. rewrite app_assoc, trimEnd_app; [by rewrite Hle|]. by apply blank_trimEnd.
Qed.

(** ** The document *)
Ltac fields :=
  cbn [lk_tool lk_filter lk_group_by lk_indicator lk_window lk_limit lk_run do_id do_label do_marks rs_id rs_phase rs_kind rs_title
    rs_instructions rs_focus rs_escalate_if rs_benign_if rs_required rs_evidence rs_owner_role rs_approval_role rs_target_minutes rs_lookup
    rs_options rs_react rs_d3fend rd_id rd_title rd_summary rd_use_when rd_prerequisites rd_applies_when rd_priority rd_mitre rd_phases
    rd_steps rd_retrieval_queries rd_owner rd_review_every_days rd_references aw_rule_ids aw_mitre aw_entity_types aw_severity_at_least
    aw_sources aw_verdicts aw_statuses aw_any_tags aw_min_event_count aw_always].
Lemma normalise_lookup_twice l : normalise_lookup (normalise_lookup l) = normalise_lookup l.
Proof.
  unfold normalise_lookup. fields. rewrite !cleanList_twice, cleanOptional_twice. f_equal.
  - set (clean := λ e : text * text, (cleanLine e.1, cleanLine e.2)). set (g := fromEntries (clean <$> entries (lk_filter l))).
    assert (Hg : entries g = g) by apply entries_idem.
    assert (Hclean : Forall (λ e, clean e = e) g).
    { unfold g, fromEntries. rewrite entries_Permutation. apply set_all_Forall, Forall_fmap, Forall_forall.
      intros [k v] _. unfold compose, clean, cleanLine. cbn [fst snd]. by rewrite !trim_idem. }
    assert (Hn : NoDup g.*1) by (unfold g, fromEntries; rewrite entries_Permutation; apply set_all_NoDup).
    rewrite Hg. replace (clean <$> g) with g.
    + unfold fromEntries. change (foldl _ [] g) with (set_all g). by rewrite set_all_id.
    + clear -Hclean. induction Hclean as [|e g He _ IH]; [done|]. rewrite fmap_cons. by rewrite He, <-IH.
  - unfold non_empty, cleanLine. destruct (text_trim (lk_window l)) as [|c t] eqn:E; [done|]. cbn [default from_option id].
    by rewrite (trim_cons_id _ c t E).
Qed.

Lemma normalise_option_twice o : normalise_option (normalise_option o) = normalise_option o.
Proof. unfold normalise_option, cleanLine. fields. by rewrite !trim_idem, cleanList_twice. Qed.

Lemma fmap_twice {A} (f : A → A) (l : list A) : (∀ a, f (f a) = f a) → f <$> (f <$> l) = f <$> l.
Proof. intros Hf. induction l as [|a l IH]; [done|]. by rewrite !fmap_cons, Hf, IH. Qed.

Lemma normalise_step_twice {P} (s : RunbookStepOf text P) : normalise_step (normalise_step s) = normalise_step s.
Proof.
  unfold normalise_step, cleanLine. fields. rewrite !trim_idem, cleanBlock_twice, !cleanOptional_twice, (fmap_twice _ _ normalise_option_twice).
  f_equal. destruct (rs_lookup s); [cbn; by rewrite normalise_lookup_twice|done].
Qed.

(** The canonical form of a runbook is a fixed point: normalising a definition twice gives what
    normalising it once gives, field by field. *)
Lemma normaliseDefinition_twice {P} (d : RunbookDefinitionOf text P) : normaliseDefinition (normaliseDefinition d) = normaliseDefinition d.
Proof.
  unfold normaliseDefinition, normalise_applies, cleanLine. fields.
  by rewrite !trim_idem, !cleanText_twice, !cleanList_twice, cleanOptional_twice, (fmap_twice _ _ normalise_step_twice).
Qed.
End canonical.
