(* ===== verification/RunbookFront.v ===== *)
(** * The front matter of an exported runbook reads back

    The header is a list of segments: a key, and what is written for it when there is something to write. *)

From S2P Require Import Prelude JsText JsMap DisplayText DisplaySpec JsonText TextLines Runbook RunbookMarkdown RunbookYaml RunbookParse RunbookYamlSpec RunbookCanonical.
Local Open Scope Z_scope.

(** ** What can be written *)
Definition units_only (t : text) : Prop := Forall is_unit t.
Definition words_of (allowed : list string) (l : list text) : Prop := Forall (λ t, t ∈ units <$> allowed) l.
Definition opt {A} (P : A → Prop) (o : option A) : Prop := match o with Some a => P a | None => True end.

Record AppliesWritable (a : AppliesWhenOf text) : Prop := {
  aww_units : Forall units_only (aw_rule_ids a ++ aw_mitre a ++ aw_sources a ++ aw_statuses a ++ aw_any_tags a);
  aww_entities : words_of ENTITY_TYPES (aw_entity_types a);
  aww_severity : opt (λ s, s ∈ units <$> SEVERITY_LEVELS) (aw_severity_at_least a);
  aww_verdicts : words_of VERDICTS (aw_verdicts a);
  aww_count : opt (λ n, 1 ≤ n ≤ 1000000) (aw_min_event_count a);
}.

Record FrontWritable (d : MdDefinition) (version : option Z) : Prop := {
  fw_units : Forall units_only ([rd_id d; rd_title d; rd_summary d; rd_use_when d; rd_prerequisites d] ++
    rd_mitre d ++ rd_retrieval_queries d ++ rd_references d ++ option_list (rd_owner d));
  fw_id : rd_id d ≠ [];
  fw_applies : AppliesWritable (rd_applies_when d);
  fw_priority : 0 ≤ rd_priority d ≤ 100;
  fw_review : reviewMin ≤ rd_review_every_days d ≤ reviewMax;
  fw_version : opt (λ v, 1 ≤ v < 10 ^ 9) version;
}.

(** ** Segments *)
Definition Segment : Type := string * option (YamlValue * list text).

Definition scalar_seg (k : string) (v : text) : Segment := (k, Some (YStr v, [units k ++ COLON :: SPACE :: yamlScalar v false])).
Definition word_seg (k : string) (v : text) : Segment := (k, Some (YStr v, [units k ++ COLON :: SPACE :: v])).
Definition opt_seg {A} (f : A → Segment) (k : string) (o : option A) : Segment := match o with Some a => f a | None => (k, None) end.
Definition flow_seg (k : string) (vs : list text) : Segment :=
  (k, match vs with [] => None | _ => Some (YList vs, [units k ++ COLON :: SPACE :: yamlFlow vs]) end).
Definition list_seg (k : string) (vs : list text) : Segment :=
  (k, match vs with [] => None | _ => Some (YList vs, (units k ++ [COLON]) :: (item_line <$> vs)) end).

Definition seg_field (s : Segment) : option (text * YamlValue * list text) := match s.2 with Some (v, ls) => Some (units s.1, v, ls) | None => None end.
Definition seg_fields (ss : list Segment) : Fields := omap seg_field ss.
Definition seg_lines (s : Segment) : list text := match s.2 with Some (_, ls) => ls | None => [] end.

Definition map_seg (k : string) (ss : list Segment) : Segment :=
  (k, match seg_fields ss with [] => None | fs => Some (YMap (field_entries fs), (units k ++ [COLON]) :: (two_spaces <$> field_lines fs)) end).

Definition applies_segs (a : AppliesWhenOf text) : list Segment :=
  [flow_seg "rule_ids" (aw_rule_ids a); flow_seg "mitre" (aw_mitre a); flow_seg "entity_types" (aw_entity_types a);
   opt_seg (word_seg "severity_at_least") "severity_at_least" (aw_severity_at_least a); flow_seg "sources" (aw_sources a); flow_seg "verdicts" (aw_verdicts a);
   flow_seg "statuses" (aw_statuses a); flow_seg "any_tags" (aw_any_tags a);
   opt_seg (word_seg "min_event_count" ∘ decimal) "min_event_count" (aw_min_event_count a);
   opt_seg (word_seg "always") "always" (if aw_always a then Some (units "true") else None)].

Definition front_segs (d : MdDefinition) (version : option Z) : list Segment :=
  [scalar_seg "id" (rd_id d); scalar_seg "title" (rd_title d); scalar_seg "summary" (rd_summary d);
   opt_seg (scalar_seg "use_when") "use_when" (non_empty (rd_use_when d));
   opt_seg (scalar_seg "prerequisites") "prerequisites" (non_empty (rd_prerequisites d));
   opt_seg (word_seg "version" ∘ decimal) "version" version;
   word_seg "priority" (decimal (rd_priority d));
   opt_seg (scalar_seg "owner") "owner" (rd_owner d);
   word_seg "review_every_days" (decimal (rd_review_every_days d));
   flow_seg "mitre" (rd_mitre d);
   map_seg "applies_when" (applies_segs (rd_applies_when d));
   list_seg "retrieval_queries" (rd_retrieval_queries d);
   list_seg "references" (rd_references d)].

(** ** Lines of segments *)
Lemma seg_fields_lines ss : field_lines (seg_fields ss) = concat (seg_lines <$> ss).
Proof.
  induction ss as [|[k [[v ls]|]] ss IH]; [done| |]; rewrite fmap_cons; cbn [concat]; unfold seg_lines at 1; cbn [snd].
  - rewrite <-IH. done.
  - rewrite <-IH. done.
Qed.

Lemma seg_keys ss : (field_entries (seg_fields ss)).*1 `sublist_of` (λ s : Segment, units s.1) <$> ss.
Proof.
  unfold field_entries. rewrite <-list_fmap_compose. induction ss as [|[k [[v ls]|]] ss IH]; [done| |].
  - rewrite fmap_cons. unfold seg_fields. cbn [omap list_omap seg_field fst snd]. rewrite fmap_cons. by apply sublist_skip.
  - rewrite fmap_cons. unfold seg_fields. cbn [omap list_omap seg_field fst snd]. by apply sublist_cons.
Qed.

(** The keys of a header are the keys it may hold, each once. *)
Definition known_keys (ks : list string) : bool := bool_decide (NoDup (units <$> ks)) && forallb (λ k, KEY_RE (units k) && negb (bool_decide (units k = PROTO)) && negb (is_index (units k))) ks.

Lemma known_keys_fields ss ks : fst <$> ss = ks → known_keys ks = true →
  NoDup (field_entries (seg_fields ss)).*1 ∧ Forall (λ k, k ≠ PROTO) (field_entries (seg_fields ss)).*1 ∧
  entries (field_entries (seg_fields ss)) = field_entries (seg_fields ss).
Proof.
  intros Hks Hk. apply andb_true_iff in Hk as [Hn%bool_decide_eq_true Hall]. pose proof (seg_keys ss) as Hs.
  replace ((λ s : Segment, units s.1) <$> ss) with (units <$> ks) in Hs by (by rewrite <-Hks, <-list_fmap_compose).
  assert (Hin : ∀ k, k ∈ (field_entries (seg_fields ss)).*1 → k ≠ PROTO ∧ is_index k = false).
  { intros k Hk. eapply elem_of_sublist in Hk; [|exact Hs]. apply list_elem_of_fmap in Hk as (k' & -> & Hk'%list_elem_of_In).
    rewrite forallb_forall in Hall. apply Hall in Hk'. apply andb_true_iff in Hk' as [[_ Hp]%andb_true_iff Hi].
    apply negb_true_iff, bool_decide_eq_false in Hp. by apply negb_true_iff in Hi. }
  split_and!.
  - by eapply sublist_NoDup.
  - apply Forall_forall. intros k Hk. by apply Hin.
  - unfold entries. assert (Hf : Forall (λ e : text * YamlValue, is_index e.1 = false) (field_entries (seg_fields ss))).
    { apply Forall_forall. intros e He. apply Hin. by apply list_elem_of_fmap_2. }
    rewrite filter_nothing by done. cbn. apply filter_everything. eapply Forall_impl; [exact Hf|]. by intros e ->.
Qed.

(** ** What each segment writes *)
Definition seg_written (nested : bool) (s : Segment) : Prop := KEY_RE (units s.1) = true ∧ match s.2 with Some (v, ls) => Written nested (units s.1) v ls | None => True end.

Lemma segs_written nested ss : Forall (seg_written nested) ss → fields_written nested (seg_fields ss).
Proof.
  induction 1 as [|[k [[v ls]|]] ss [_ Hs] _ IH]; [constructor| |]; unfold seg_fields; cbn [omap list_omap seg_field fst snd]; [by constructor|done].
Qed.

Section segments.
Context (nested : bool) (k : string) (Hk : KEY_RE (units k) = true).

Lemma written_scalar_seg v : units_only v → seg_written nested (scalar_seg k v).
Proof using Hk. intros Hv. split; [done|]. apply Written_scalar; [by apply KeyText_plain|done|done]. Qed.

Lemma written_flow_seg vs : Forall units_only vs → seg_written nested (flow_seg k vs).
Proof using Hk. intros Hv. split; [done|]. destruct vs as [|v vs]; [done|]. apply (Written_flow nested (units k)); [by apply KeyText_plain|done|done]. Qed.

(** Letters, digits and the like at the start, and no space at all *)
Definition bare_word (v : text) : bool :=
  match v with c :: _ => negb (bool_decide (c ∈ PLAIN_UNSAFE_START)) && forallb (λ c, negb (trim_space c)) v | [] => false end.

Lemma written_word_seg v : bare_word v = true → seg_written nested (word_seg k v).
Proof using Hk.
  intros Hv. split; [done|]. destruct v as [|c r]; [done|]. apply andb_true_iff in Hv as [Hc%negb_true_iff%bool_decide_eq_false Hr].
  assert (Hall : Forall (λ c, trim_space c = false) (c :: r))
    by (apply Forall_forall; intros x Hx%list_elem_of_In; rewrite forallb_forall in Hr; apply Hr in Hx; by apply negb_true_iff).
  apply Written_word; [by apply KeyText_plain|done|by apply trim_no_space|done|].
  rewrite Forall_forall in Hall. split; intros Hin%Hall; done.
Qed.

Lemma written_list_seg vs : nested = false → Forall units_only vs → seg_written nested (list_seg k vs).
Proof using Hk. intros -> Hv. split; [done|]. destruct vs as [|v vs]; [done|]. apply Written_list; [by apply KeyText_plain|done|done|done]. Qed.
End segments.

Lemma digits_word n : 0 ≤ n → bare_word (digits n) = true.
Proof.
  intros Hn. destruct (digits_spec n Hn) as (Hall & _ & Hne). unfold bare_word. destruct (digits n) as [|c r]; [done|].
  assert (Hd : ∀ x, is_digit x = true → negb (bool_decide (x ∈ PLAIN_UNSAFE_START)) = true ∧ negb (trim_space x) = true).
  { intros x Hx. unfold is_digit, in_range in Hx. assert (Hx' : 48 ≤ x ≤ 57) by lia. split; apply negb_true_iff; [|unfold trim_space; lia].
    apply bool_decide_eq_false. intros Hin. assert (Hf : Forall (λ y, ¬ (48 ≤ y ≤ 57)) PLAIN_UNSAFE_START) by (apply (bool_decide_unpack _); vm_compute; exact I).
    rewrite Forall_forall in Hf. by apply Hf in Hin. }
  apply andb_true_iff. split; [by apply Hd; inversion Hall|]. apply forallb_forall. intros x Hx%list_elem_of_In. rewrite Forall_forall in Hall. by apply Hd, Hall.
Qed.

Lemma decimal_nonneg n : 0 ≤ n → decimal n = digits n.
Proof. intros Hn. unfold decimal. by rewrite (proj2 (Z.ltb_ge n 0)). Qed.

Lemma words_bare allowed t : forallb (λ w, bare_word (units w)) allowed = true → t ∈ units <$> allowed → bare_word t = true ∧ units_only t.
Proof.
  intros Hall (w & -> & Hw)%list_elem_of_fmap. rewrite forallb_forall in Hall. split; [by apply Hall, list_elem_of_In|].
  clear. induction w as [|a w IH]; constructor; [|done]. unfold is_unit. pose proof (Ascii.nat_ascii_bounded a). lia.
Qed.

(** ** The export writes these segments *)
Lemma units_app a b : units (a +:+ b) = units a ++ units b.
Proof.
  induction a as [|c a IH]; [done|].
  change (Z.of_nat (Ascii.nat_of_ascii c) :: units (a +:+ b) = Z.of_nat (Ascii.nat_of_ascii c) :: units a ++ units b). by rewrite IH.
Qed.

Lemma push_list_seg vs k : push_list vs (k +:+ ": ") = seg_lines (flow_seg k vs).
Proof. destruct vs as [|v vs]; [done|]. unfold push_list, flow_seg, seg_lines. cbn [snd]. by rewrite units_app, <-app_assoc. Qed.

Lemma push_some_seg {A} (o : option A) f g k :
  (∀ a, [f a] = seg_lines (g a)) → push_some o f = seg_lines (opt_seg g k o).
Proof. intros H. destruct o as [a|]; [apply H|done]. Qed.

Lemma list_lines_seg vs k : list_lines (k +:+ ":") vs = seg_lines (list_seg k vs).
Proof. destruct vs as [|v vs]; [done|]. unfold list_lines, list_seg, seg_lines. cbn [snd]. by rewrite units_app. Qed.

Lemma bind_non_empty (o : option text) : opt (λ t, t ≠ []) o → o ≫= non_empty = o.
Proof. destruct o as [[|c t]|]; [done|done|done]. Qed.

Lemma applies_lines_segs a : AppliesWritable a → applies_lines a = two_spaces <$> concat (seg_lines <$> applies_segs a).
Proof.
  intros Ha. unfold applies_lines, applies_segs. rewrite !fmap_cons, fmap_nil. cbn [concat]. rewrite app_nil_r, !fmap_app.
  assert (Hl : ∀ vs k, push_list vs ("  " +:+ k +:+ ": ") = two_spaces <$> seg_lines (flow_seg k vs)).
  { intros vs k. rewrite <-push_list_seg. by destruct vs. }
  change "  rule_ids: " with ("  " +:+ "rule_ids" +:+ ": "). change "  mitre: " with ("  " +:+ "mitre" +:+ ": ").
  change "  entity_types: " with ("  " +:+ "entity_types" +:+ ": "). change "  sources: " with ("  " +:+ "sources" +:+ ": ").
  change "  verdicts: " with ("  " +:+ "verdicts" +:+ ": "). change "  statuses: " with ("  " +:+ "statuses" +:+ ": ").
  change "  any_tags: " with ("  " +:+ "any_tags" +:+ ": "). rewrite !Hl.
  rewrite bind_non_empty.
  2:{ pose proof (aww_severity _ Ha) as Hs. destruct (aw_severity_at_least a) as [s|]; [|done]. cbn in *. intros ->.
      apply (words_bare SEVERITY_LEVELS) in Hs; [by destruct Hs|done]. }
  repeat f_equal.
  - by destruct (aw_severity_at_least a).
  - by destruct (aw_min_event_count a).
  - by destruct (aw_always a).
Qed.

Lemma two_spaces_nil ls : two_spaces <$> ls = [] ↔ ls = [].
Proof. by destruct ls. Qed.

Definition seg_nonempty (s : Segment) : Prop := match s.2 with Some (_, ls) => ls ≠ [] | None => True end.

Lemma map_seg_lines k ss : Forall seg_nonempty ss →
  seg_lines (map_seg k ss) = match concat (seg_lines <$> ss) with [] => [] | ls => (units k ++ [COLON]) :: (two_spaces <$> ls) end.
Proof.
  intros Hs. rewrite <-seg_fields_lines. unfold map_seg, seg_lines. cbn [snd].
  assert (Hf : Forall (λ f, f.2 ≠ []) (seg_fields ss)).
  { apply Forall_forall. intros f (s & Hin & E)%list_elem_of_omap. rewrite Forall_forall in Hs. apply Hs in Hin. unfold seg_nonempty, seg_field in *.
    destruct s.2 as [[v ls]|]; [|done]. by injection E as <-. }
  destruct (seg_fields ss) as [|f fs]; [done|]. unfold field_lines. rewrite fmap_cons. cbn [concat]. apply Forall_inv in Hf. by destruct f.2.
Qed.

Lemma applies_segs_nonempty a : Forall seg_nonempty (applies_segs a).
Proof.
  assert (Hf : ∀ k vs, seg_nonempty (flow_seg k vs)) by (by intros k [|v vs]).
  assert (Ho : ∀ A (f : A → Segment) k o, (∀ a, seg_nonempty (f a)) → seg_nonempty (opt_seg f k o)) by (intros A f k [x|] H; [apply H|done]).
  unfold applies_segs. repeat (apply Forall_cons; split); first [apply Hf|by apply Ho|apply Forall_nil; done].
Qed.

Lemma front_matter_segs d version : FrontWritable d version → opt (λ t, t ≠ []) (rd_owner d) →
  front_matter d version = DASHES :: field_lines (seg_fields (front_segs d version)) ++ [DASHES].
Proof.
  intros Hd Ho. rewrite seg_fields_lines. unfold front_matter. rewrite (bind_non_empty (rd_owner d)) by done.
  rewrite (applies_lines_segs _ (fw_applies _ _ Hd)).
  change "mitre: " with ("mitre" +:+ ": "). rewrite push_list_seg. change "retrieval_queries:" with ("retrieval_queries" +:+ ":").
  change "references:" with ("references" +:+ ":"). rewrite !list_lines_seg.
  unfold front_segs. rewrite !fmap_cons, fmap_nil. cbn [concat]. rewrite app_nil_r.
  rewrite map_seg_lines by apply applies_segs_nonempty.
  rewrite (push_some_seg _ _ (scalar_seg "use_when") "use_when") by done.
  rewrite (push_some_seg _ _ (scalar_seg "prerequisites") "prerequisites") by done.
  rewrite (push_some_seg _ _ (word_seg "version" ∘ decimal) "version") by done.
  rewrite (push_some_seg _ _ (scalar_seg "owner") "owner") by done.
  rewrite <-!app_assoc. by destruct (concat (seg_lines <$> applies_segs (rd_applies_when d))).
Qed.

(** ** The header parses into its segments *)
Definition one_line_seg (s : Segment) : Prop := match s.2 with Some (_, ls) => ∃ l, ls = [l] | None => True end.

Lemma opt_seg_written {A} nested (P : A → Prop) f k (o : option A) :
  KEY_RE (units k) = true → opt P o → (∀ a, P a → seg_written nested (f a)) → (∀ a, (f a).1 = k) → seg_written nested (opt_seg f k o).
Proof. intros Hk Ho Hf _. destruct o as [a|]; [by apply Hf|done]. Qed.

Lemma decimal_seg_written nested k n : KEY_RE (units k) = true → 0 ≤ n → seg_written nested ((word_seg k ∘ decimal) n).
Proof. intros Hk Hn. unfold compose. rewrite decimal_nonneg by done. apply written_word_seg; [done|by apply digits_word]. Qed.

Lemma words_units allowed l : forallb (λ w, bare_word (units w)) allowed = true → words_of allowed l → Forall units_only l.
Proof. intros Ha Hl. eapply Forall_impl; [exact Hl|]. intros t Ht. by apply (words_bare allowed). Qed.

Lemma written_map_seg k ss ks : KEY_RE (units k) = true → Forall (seg_written true) ss → Forall one_line_seg ss → fst <$> ss = ks → known_keys ks = true →
  seg_written false (map_seg k ss).
Proof.
  intros Hk Hw H1 Hks Hkk. split; [done|]. unfold map_seg. cbn [snd fst]. destruct (known_keys_fields ss ks Hks Hkk) as (Hn & Hp & _).
  pose proof (segs_written true ss Hw) as Hf. destruct (seg_fields ss) as [|f fs] eqn:E; [done|]. rewrite <-E in *.
  apply Written_map; [by apply KeyText_plain|done|done|by rewrite E| |done|done].
  clear -H1. apply Forall_forall. intros g (s & Hin & Es)%list_elem_of_omap. rewrite Forall_forall in H1. apply H1 in Hin. unfold one_line_seg, seg_field in *.
  destruct s.2 as [[v ls]|]; [|done]. by injection Es as <-.
Qed.

Lemma applies_segs_written a : AppliesWritable a → seg_written false (map_seg "applies_when" (applies_segs a)).
Proof.
  intros [Hu He Hs Hv Hc]. rewrite !Forall_app in Hu. destruct Hu as (Hr & Hm & Hso & Hst & Hta).
  apply (written_map_seg _ _ APPLIES_WHEN_KEYS); [done| | | |done].
  - unfold applies_segs. repeat (apply Forall_cons; split); try (apply written_flow_seg; [done|]); try done.
    + by apply (words_units ENTITY_TYPES).
    + destruct (aw_severity_at_least a) as [s|]; [|done]. cbn in Hs. apply (words_bare SEVERITY_LEVELS) in Hs; [|done]. by apply written_word_seg; [|apply Hs].
    + by apply (words_units VERDICTS).
    + destruct (aw_min_event_count a) as [n|]; [|done]. cbn in Hc. apply decimal_seg_written; [done|lia].
    + destruct (aw_always a); [by apply written_word_seg|done].
  - assert (Hf : ∀ k vs, one_line_seg (flow_seg k vs)) by (intros k [|v vs]; [done|by eexists]).
    unfold applies_segs. repeat (apply Forall_cons; split); first [apply Hf|apply Forall_nil; done|idtac].
    + destruct (aw_severity_at_least a); [by eexists|done].
    + destruct (aw_min_event_count a); [by eexists|done].
    + destruct (aw_always a); [by eexists|done].
  - unfold applies_segs. rewrite !fmap_cons, fmap_nil. by destruct (aw_severity_at_least a), (aw_min_event_count a), (aw_always a).
Qed.

Lemma front_segs_keys d version : fst <$> front_segs d version = ["id"; "title"; "summary"; "use_when"; "prerequisites"; "version"; "priority"; "owner"; "review_every_days"; "mitre"; "applies_when"; "retrieval_queries"; "references"].
Proof.
  unfold front_segs. rewrite !fmap_cons, fmap_nil. repeat (f_equal; []).
  destruct (non_empty (rd_use_when d)), (non_empty (rd_prerequisites d)), version, (rd_owner d); done.
Qed.

Lemma front_segs_written d version : FrontWritable d version → Forall (seg_written false) (front_segs d version).
Proof.
  intros [Hu Hid Ha Hp Hr Hv]. rewrite !Forall_app in Hu. destruct Hu as (Hu5 & Hm & Hq & Href & Ho).
  repeat (apply Forall_cons in Hu5 as [? Hu5]). unfold front_segs.
  assert (Hne : ∀ (P : text → Prop) t, P t → opt P (non_empty t)) by (by intros P [|c t]).
  repeat (apply Forall_cons; split); try (apply written_scalar_seg; [done|done]).
  - apply (opt_seg_written _ units_only); [done|by apply Hne| |done]. intros. by apply written_scalar_seg.
  - apply (opt_seg_written _ units_only); [done|by apply Hne| |done]. intros. by apply written_scalar_seg.
  - eapply opt_seg_written; [done|exact Hv| |done]. intros v Hv'. apply decimal_seg_written; [done|destruct Hv'; lia].
  - apply (decimal_seg_written false "priority"); [done|lia].
  - apply (opt_seg_written _ units_only); [done| | |done]; [destruct (rd_owner d); [by apply Forall_inv in Ho|done]|]. intros. by apply written_scalar_seg.
  - apply (decimal_seg_written false "review_every_days"); [done|unfold reviewMin in Hr; lia].
  - by apply written_flow_seg.
  - by apply applies_segs_written.
  - by apply written_list_seg.
  - by apply written_list_seg.
  - by apply Forall_nil.
Qed.

(** The entries the header parses to. *)
Lemma front_parses d version : FrontWritable d version →
  parseYaml (join_with [LF] (field_lines (seg_fields (front_segs d version)))) 2 = Good (field_entries (seg_fields (front_segs d version))) ∧
  entries (field_entries (seg_fields (front_segs d version))) = field_entries (seg_fields (front_segs d version)).
Proof.
  intros Hd. destruct (known_keys_fields _ _ (front_segs_keys d version) eq_refl) as (Hn & Hp & He). split; [|done].
  apply parseYaml_fields; [by apply segs_written, front_segs_written|done|done|done].
Qed.

(** ** What the entries mean *)
Lemma each_in_cons_quiet {S A} (f : S → A → Parse S) a l st st' sink : f st a sink = (st', sink) → each_in f (a :: l) st sink = each_in f l st' sink.
Proof. intros E. cbn [each_in]. unfold mbind, Parse_bind. by rewrite E. Qed.

Lemma each_seg {S} (f : S → text * YamlValue → Parse S) s ss st st' r sink :
  (match s.2 with Some (v, _) => f st (units s.1, v) | None => mret st end) sink = (st', sink) →
  each_in f (field_entries (seg_fields ss)) st' sink = r → each_in f (field_entries (seg_fields (s :: ss))) st sink = r.
Proof.
  intros E Hr. destruct s as [k [[v ls]|]]; unfold seg_fields; cbn [omap list_omap seg_field fst snd] in *.
  - unfold field_entries. rewrite fmap_cons. by rewrite (each_in_cons_quiet f _ _ _ _ _ E).
  - unfold mret, Parse_ret in E. by injection E as ->.
Qed.

Lemma closed_words allowed l path what sink : words_of allowed l → closed l allowed path what sink = (l, sink).
Proof.
  intros Hl. unfold closed. enough (H : ∀ out, each_in (λ out v, if bool_decide (v ∈ units <$> allowed) then mret (out ++ [v])
    else fail path (what ++ units " '" ++ shown v 30 ++ units "' is not one of " ++ comma_list allowed ++ units ".");; mret out) l out sink = (out ++ l, sink)) by apply (H []).
  induction Hl as [|v l Hv _ IH]; intros out; [by rewrite app_nil_r|]. rewrite (each_in_cons_quiet _ _ _ _ (out ++ [v])).
  - by rewrite IH, <-app_assoc.
  - by rewrite bool_decide_true.
Qed.

Lemma whole_number_digits sign n : (∀ c, is_digit c = true → sign c = false) → 0 ≤ n < 10 ^ 9 → whole_number sign (digits n) = Some n.
Proof.
  intros Hs Hn. destruct (digits_spec n) as (Hall & Hv & Hne); [lia|]. pose proof (length_digits_fuel (S (Z.to_nat (Z.log2 n))) n 8 Hn) as Hlen. fold (digits n) in Hlen.
  assert (Ha : all_of is_digit 1 9 (digits n) = true).
  { unfold all_of. rewrite !andb_true_iff. split_and!; [|destruct (digits n); [done|done]|by apply Nat.leb_le].
    apply forallb_forall. intros x Hx%list_elem_of_In. rewrite Forall_forall in Hall. by apply Hall. }
  unfold whole_number. destruct (digits n) as [|c r] eqn:E; [done|]. rewrite Hs by by inversion Hall. rewrite Ha. by rewrite <-E, Hv in *.
Qed.

Lemma bare_word_trim v : bare_word v = true → text_trim v = v ∧ blank v = false.
Proof.
  destruct v as [|c r]; [done|]. intros [_ Hr]%andb_true_iff.
  assert (Ht : text_trim (c :: r) = c :: r).
  { apply trim_no_space, Forall_forall. intros x Hx%list_elem_of_In. rewrite forallb_forall in Hr. apply Hr in Hx. by apply negb_true_iff. }
  split; [done|]. by apply trimmed_nonempty_not_blank.
Qed.

Lemma asInt_decimal n path what sink : 0 ≤ n < 10 ^ 9 → asInt (Some (YStr (decimal n))) path what sink = (Some n, sink).
Proof.
  intros Hn. rewrite decimal_nonneg by lia. destruct (bare_word_trim _ (digits_word n ltac:(lia))) as [Ht Hb].
  unfold asInt. rewrite Hb, Ht, whole_number_digits; [done| |done]. unfold is_digit, in_range. lia.
Qed.

Lemma versionFrom_decimal n sink : 1 ≤ n < 10 ^ 9 → versionFrom (Some (YStr (decimal n))) sink = (Some n, sink).
Proof.
  intros Hn. rewrite decimal_nonneg by lia. destruct (bare_word_trim _ (digits_word n ltac:(lia))) as [Ht Hb].
  unfold versionFrom. rewrite Hb, Ht, whole_number_digits; [|unfold is_digit, in_range; lia|lia]. by rewrite (proj2 (Z.leb_le 1 n)) by lia.
Qed.

Ltac seg st' := refine (each_seg _ _ _ _ st' _ _ _ _).

Section entries.
Context (st : AppliesWhenOf text) (sink : Collector).
Let path k := units "applies_when." ++ units k.

Lemma applies_entities l : words_of ENTITY_TYPES l →
  applies_entry st (units "entity_types", YList l) sink = (aw_set "entity_types" l st, sink).
Proof.
  intros Hl. transitivity ((l ← closed l ENTITY_TYPES (path "entity_types") (units "The entity type"); mret (aw_set "entity_types" l st)) sink); [reflexivity|].
  unfold mbind, Parse_bind. by rewrite closed_words.
Qed.

Lemma applies_verdicts l : words_of VERDICTS l → applies_entry st (units "verdicts", YList l) sink = (aw_set "verdicts" l st, sink).
Proof.
  intros Hl. transitivity ((l ← closed l VERDICTS (path "verdicts") (units "The verdict"); mret (aw_set "verdicts" l st)) sink); [reflexivity|].
  unfold mbind, Parse_bind. by rewrite closed_words.
Qed.

Lemma applies_severity w : w ∈ units <$> SEVERITY_LEVELS →
  applies_entry st (units "severity_at_least", YStr w) sink = (aw_set_other (Some w) (aw_min_event_count st) (aw_always st) st, sink).
Proof.
  intros Hw. pose proof (words_bare SEVERITY_LEVELS w eq_refl Hw) as [Hb _]. destruct (bare_word_trim w Hb) as [Ht _].
  transitivity ((if bool_decide (text_trim w = []) then mret st
    else l ← closed [text_trim w] SEVERITY_LEVELS (path "severity_at_least") (units "The severity"); mret (aw_set_other (head l) (aw_min_event_count st) (aw_always st) st)) sink); [reflexivity|].
  rewrite Ht, bool_decide_false by (intros ->; done). unfold mbind, Parse_bind. rewrite closed_words; [done|]. by apply Forall_singleton.
Qed.

Lemma applies_count n : 1 ≤ n ≤ 1000000 →
  applies_entry st (units "min_event_count", YStr (decimal n)) sink = (aw_set_other (aw_severity_at_least st) (Some n) (aw_always st) st, sink).
Proof.
  intros Hn. transitivity ((n' ← asInt (Some (YStr (decimal n))) (path "min_event_count") (units "min_event_count");
    match n' with
    | Some n =>
        if (n <? 1) || (1000000 <? n) then fail (path "min_event_count") (units "min_event_count must be between 1 and 1,000,000.");; mret st
        else mret (aw_set_other (aw_severity_at_least st) (Some n) (aw_always st) st)
    | None => mret st
    end) sink); [reflexivity|].
  unfold mbind, Parse_bind. rewrite asInt_decimal by lia. by rewrite (proj2 (Z.ltb_ge n 1)), (proj2 (Z.ltb_ge 1000000 n)) by lia.
Qed.
End entries.

Lemma applies_read a sink : AppliesWritable a →
  each_in applies_entry (field_entries (seg_fields (applies_segs a))) emptyAppliesWhen sink = (a, sink).
Proof.
  intros [_ He Hs Hv Hc]. destruct a as [rules mitre entities severity sources verdicts statuses tags count always]. cbn in He, Hs, Hv, Hc.
  unfold applies_segs. cbn [aw_rule_ids aw_mitre aw_entity_types aw_severity_at_least aw_sources aw_verdicts aw_statuses aw_any_tags aw_min_event_count aw_always].
  seg (mkApplies rules [] [] None [] [] [] [] None false); [by destruct rules|].
  seg (mkApplies rules mitre [] None [] [] [] [] None false); [by destruct mitre|].
  seg (mkApplies rules mitre entities None [] [] [] [] None false); [destruct entities; [done|by apply applies_entities]|].
  seg (mkApplies rules mitre entities severity [] [] [] [] None false); [destruct severity; [by apply applies_severity|done]|].
  seg (mkApplies rules mitre entities severity sources [] [] [] None false); [by destruct sources|].
  seg (mkApplies rules mitre entities severity sources verdicts [] [] None false); [destruct verdicts; [done|by apply applies_verdicts]|].
  seg (mkApplies rules mitre entities severity sources verdicts statuses [] None false); [by destruct statuses|].
  seg (mkApplies rules mitre entities severity sources verdicts statuses tags None false); [by destruct tags|].
  seg (mkApplies rules mitre entities severity sources verdicts statuses tags count false); [destruct count; [by apply applies_count|done]|].
  seg (mkApplies rules mitre entities severity sources verdicts statuses tags count always); [by destruct always|]. done.
Qed.

(** ** The header *)

(** A document with the phases and steps it was parsed with. *)
Definition header (d : MdDefinition) : RunbookDefinitionOf text PhaseKey :=
  mkDefinition (rd_id d) (rd_title d) (rd_summary d) (rd_use_when d) (rd_prerequisites d) (rd_applies_when d) (rd_priority d) (rd_mitre d)
    [] [] (rd_retrieval_queries d) (rd_owner d) (rd_review_every_days d) (rd_references d).

Record Trimmed (d : MdDefinition) : Prop := {
  tr_texts : Forall (λ t, text_trim t = t) [rd_id d; rd_title d; rd_summary d; rd_use_when d; rd_prerequisites d];
  tr_owner : opt (λ t, text_trim t = t ∧ t ≠ []) (rd_owner d);
}.

Section meta.
Context (d : RunbookDefinitionOf text PhaseKey) (version : option Z) (sink : Collector).

Lemma meta_text k t : k ∈ ["id"; "title"; "summary"; "use_when"; "prerequisites"] → text_trim t = t →
  meta_entry (d, version) (units k, YStr t) sink = ((with_text k t d, version), sink).
Proof.
  intros Hk Ht. transitivity ((with_text k (text_trim t) d, version, sink)); [|by rewrite Ht].
  repeat (apply elem_of_cons in Hk as [->|Hk]; [reflexivity|]). by apply elem_of_nil in Hk.
Qed.

Lemma meta_owner t : text_trim t = t → t ≠ [] →
  meta_entry (d, version) (units "owner", YStr t) sink = ((with_other (rd_applies_when d) (rd_priority d) (Some t) (rd_review_every_days d) d, version), sink).
Proof.
  intros Ht Hne. transitivity ((with_other (rd_applies_when d) (rd_priority d) (non_empty (text_trim t)) (rd_review_every_days d) d, version, sink)); [reflexivity|].
  rewrite Ht. by destruct t.
Qed.

Lemma meta_version n : 1 ≤ n < 10 ^ 9 → meta_entry (d, version) (units "version", YStr (decimal n)) sink = ((d, Some n), sink).
Proof.
  intros Hn. transitivity ((version' ← versionFrom (Some (YStr (decimal n))); mret (d, version')) sink); [reflexivity|].
  unfold mbind, Parse_bind. by rewrite versionFrom_decimal.
Qed.

Lemma meta_number k low high set n :
  (∀ t, meta_entry (d, version) (units k, YStr t) sink =
    (n ← asInt (Some (YStr t)) (units k) (units k);
     match n with
     | Some n => if (n <? low) || (high <? n) then
         fail (units k) (units k ++ units " must be between " ++ decimal low ++ units " and " ++ decimal high ++ units ".");; mret (d, version)
         else mret (set n, version)
     | None => mret (d, version)
     end) sink) →
  0 ≤ n < 10 ^ 9 → low ≤ n ≤ high → meta_entry (d, version) (units k, YStr (decimal n)) sink = ((set n, version), sink).
Proof.
  intros E Hn Hr. rewrite E. unfold mbind, Parse_bind. rewrite asInt_decimal by done.
  by rewrite (proj2 (Z.ltb_ge n low)), (proj2 (Z.ltb_ge high n)) by lia.
Qed.

Lemma meta_priority n : 0 ≤ n ≤ 100 →
  meta_entry (d, version) (units "priority", YStr (decimal n)) sink = ((with_other (rd_applies_when d) n (rd_owner d) (rd_review_every_days d) d, version), sink).
Proof. intros Hn. apply (meta_number "priority" 0 100 (λ n, with_other _ n _ _ d)); [reflexivity|lia|lia]. Qed.

Lemma meta_review n : reviewMin ≤ n ≤ reviewMax →
  meta_entry (d, version) (units "review_every_days", YStr (decimal n)) sink = ((with_other (rd_applies_when d) (rd_priority d) (rd_owner d) n d, version), sink).
Proof. intros Hn. apply (meta_number "review_every_days" reviewMin reviewMax (λ n, with_other _ _ _ n d)); [reflexivity|unfold reviewMin, reviewMax in Hn; lia|lia]. Qed.

Lemma meta_applies a : AppliesWritable a →
  entries (field_entries (seg_fields (applies_segs a))) = field_entries (seg_fields (applies_segs a)) →
  meta_entry (d, version) (units "applies_when", YMap (field_entries (seg_fields (applies_segs a)))) sink =
  ((with_other a (rd_priority d) (rd_owner d) (rd_review_every_days d) d, version), sink).
Proof.
  intros Ha He. transitivity ((a ← each_in applies_entry (entries (field_entries (seg_fields (applies_segs a)))) emptyAppliesWhen;
    mret (with_other a (rd_priority d) (rd_owner d) (rd_review_every_days d) d, version)) sink); [reflexivity|].
  unfold mbind, Parse_bind. by rewrite He, applies_read.
Qed.

Lemma meta_list k l : k ∈ ["mitre"; "retrieval_queries"; "references"] →
  meta_entry (d, version) (units k, YList l) sink = ((with_list k l d, version), sink).
Proof. intros Hk. repeat (apply elem_of_cons in Hk as [->|Hk]; [reflexivity|]). by apply elem_of_nil in Hk. Qed.
End meta.

Lemma applies_keys a : entries (field_entries (seg_fields (applies_segs a))) = field_entries (seg_fields (applies_segs a)).
Proof.
  apply (known_keys_fields _ APPLIES_WHEN_KEYS); [|done]. unfold applies_segs. rewrite !fmap_cons, fmap_nil.
  by destruct (aw_severity_at_least a), (aw_min_event_count a), (aw_always a).
Qed.

Lemma applies_empty a : seg_fields (applies_segs a) = [] → a = emptyAppliesWhen.
Proof.
  destruct a as [[] [] [] [] [] [] [] [] [] []]; done.
Qed.

(** The header of an exported document reads as the document's. *)
Lemma front_read d version sink : FrontWritable d version → Trimmed d →
  each_in meta_entry (field_entries (seg_fields (front_segs d version))) (blank_parse, None) sink = ((header d, version), sink).
Proof.
  intros [_ _ Ha Hp Hr Hv] [Ht Ho]. repeat (apply Forall_cons in Ht as [? Ht]).
  destruct d as [id title summary use_when prereq applies priority mitre phases steps queries owner review refs].
  unfold front_segs, header. cbn [rd_id rd_title rd_summary rd_use_when rd_prerequisites rd_applies_when rd_priority rd_mitre rd_phases rd_steps rd_retrieval_queries rd_owner rd_review_every_days rd_references] in *.
  pose (D id title summary use prereq applies priority mitre queries owner review refs :=
    @mkDefinition text PhaseKey id title summary use prereq applies priority mitre [] [] queries owner review refs).
  seg (D id [] [] [] [] emptyAppliesWhen 50 [] [] None 180 [], @None Z); [by apply (meta_text blank_parse None sink "id"); [left|]|].
  seg (D id title [] [] [] emptyAppliesWhen 50 [] [] None 180 [], @None Z); [by apply (meta_text (D id _ _ _ _ _ _ _ _ _ _ _) None sink "title"); [right; left|]|].
  seg (D id title summary [] [] emptyAppliesWhen 50 [] [] None 180 [], @None Z); [by apply (meta_text (D id title _ _ _ _ _ _ _ _ _ _) None sink "summary"); [right; right; left|]|].
  seg (D id title summary use_when [] emptyAppliesWhen 50 [] [] None 180 [], @None Z).
  { destruct use_when; [done|]. by apply (meta_text (D id title summary _ _ _ _ _ _ _ _ _) None sink "use_when"); [do 3 right; left|]. }
  seg (D id title summary use_when prereq emptyAppliesWhen 50 [] [] None 180 [], @None Z).
  { destruct prereq; [done|]. by apply (meta_text (D id title summary use_when _ _ _ _ _ _ _ _) None sink "prerequisites"); [do 4 right; left|]. }
  seg (D id title summary use_when prereq emptyAppliesWhen 50 [] [] None 180 [], version).
  { destruct version; [by apply meta_version|done]. }
  seg (D id title summary use_when prereq emptyAppliesWhen priority [] [] None 180 [], version); [by apply (meta_priority (D _ _ _ _ _ _ _ _ _ _ _ _))|].
  seg (D id title summary use_when prereq emptyAppliesWhen priority [] [] owner 180 [], version).
  { destruct owner; [|done]. destruct Ho. by apply (meta_owner (D _ _ _ _ _ _ _ _ _ _ _ _)). }
  seg (D id title summary use_when prereq emptyAppliesWhen priority [] [] owner review [], version); [by apply (meta_review (D _ _ _ _ _ _ _ _ _ _ _ _))|].
  seg (D id title summary use_when prereq emptyAppliesWhen priority mitre [] owner review [], version).
  { destruct mitre; [done|]. by apply (meta_list (D _ _ _ _ _ _ _ _ _ _ _ _) version sink "mitre"); left. }
  seg (D id title summary use_when prereq applies priority mitre [] owner review [], version).
  { unfold map_seg. cbn [snd fst]. pose proof (applies_empty applies) as He. pose proof (applies_keys applies) as Hk.
    pose proof (meta_applies (D id title summary use_when prereq emptyAppliesWhen priority mitre [] owner review []) version sink applies Ha Hk) as Hm.
    destruct (seg_fields (applies_segs applies)); [by rewrite He|exact Hm]. }
  seg (D id title summary use_when prereq applies priority mitre queries owner review [], version).
  { destruct queries; [done|]. by apply (meta_list (D _ _ _ _ _ _ _ _ _ _ _ _) version sink "retrieval_queries"); right; left. }
  seg (D id title summary use_when prereq applies priority mitre queries owner review refs, version); [|done].
  destruct refs; [done|]. by apply (meta_list (D _ _ _ _ _ _ _ _ _ _ _ _) version sink "references"); do 2 right; left.
Qed.

Lemma parse_meta_front d version sink : FrontWritable d version → Trimmed d →
  parse_meta (field_entries (seg_fields (front_segs d version))) sink = ((header d, version), sink).
Proof.
  intros Hd Ht. unfold parse_meta. destruct (front_parses d version Hd) as [_ ->]. unfold mbind, Parse_bind at 1.
  rewrite front_read by done. unfold fail_if. cbn [rd_id header]. rewrite bool_decide_false by apply (fw_id _ _ Hd). done.
Qed.
