(* ===== verification/RunbookStepText.v ===== *)
(** * One step of an exported runbook reads back: its heading, its key lines, its lookup and its text *)

From S2P Require Import Prelude JsText JsMap DisplayText DisplaySpec JsonText TextLines Runbook RunbookMarkdown RunbookYaml RunbookParse RunbookYamlSpec RunbookCanonical RunbookFront.
Local Open Scope Z_scope.

(** ** What can be written *)
Definition EQUALS : Z := 61.

(** A character of an id, inside the braces of a heading *)
Definition id_char (c : Z) : bool := negb (trim_space c) && negb (c =? QUOTE) && negb (c =? OPEN) && negb (c =? CLOSE).

(** No brace: the heading ends at the last one that opens *)
Definition no_brace (t : text) : Prop := OPEN ∉ t ∧ CLOSE ∉ t.

Record OptionWritable (o : DecisionOptionOf text) : Prop := {
  ow_id : do_id o ≠ [] ∧ Forall (λ c, trim_space c = false ∧ c ≠ COLON) (do_id o);
  ow_label : on_line (do_label o) ∧ find_skips (do_label o) = None;
  ow_marks : Forall (λ m, on_line m ∧ COMMA ∉ m) (do_marks o);
}.

(** A filter key does not end in a backslash, which the reader takes for the escape of the closing quote. *)
Record LookupWritable (l : LookupTemplateOf text) : Prop := {
  lw_units : Forall units_only (lk_window l :: lk_group_by l ++ option_list (lk_indicator l));
  lw_filter : Forall (λ e : text * text, units_only e.1 ∧ units_only e.2 ∧ e.1 ≠ [] ∧ e.1 ≠ PROTO ∧ last e.1 ≠ Some BACKSLASH) (lk_filter l);
  lw_limit : 1 ≤ lk_limit l ≤ limitMax;
}.

(** The fence after a line, or [None] where the line would end the step. *)
Definition inner_line (fence : option text) (line : text) : option (option text) :=
  match fence with
  | Some f =>
      let t := text_trim line in
      Some (if bool_decide (t = f) || (starts_with f t && blank (drop 3 t)) then None else Some f)
  | None =>
      match opening_fence line with
      | Some f => Some (Some f)
      | None => if is_phase_line line || is_step_line line then None else Some None
      end
  end.

Fixpoint inner_lines (fence : option text) (lines : list text) : option (option text) :=
  match lines with
  | [] => Some fence
  | l :: ls => inner_line fence l ≫= λ f, inner_lines f ls
  end.

(** The instructions stay inside their step: fences are closed, no line outside them is a heading, none opens a
    lookup block, and without a lookup before them the first line is no key line. *)
Record InstructionsWritable (t : text) (after_lookup : bool) : Prop := {
  iw_inside : inner_lines None (split_on LF t) = Some None;
  iw_lookup : Forall (λ l, lookup_fence l = None) (split_on LF t);
  iw_first : after_lookup = false → leadingKeyLine t = None;
}.

Record StepWritable {P} (s : RunbookStepOf text P) : Prop := {
  sw_title : on_line (rs_title s);
  sw_id : rs_id s ≠ [] ∧ forallb id_char (rs_id s) = true;
  sw_lines : Forall on_line (option_list (rs_focus s) ++ option_list (rs_escalate_if s) ++ option_list (rs_benign_if s));
  sw_roles : Forall (λ t, units_only t ∧ no_brace t)
    (option_list (rs_owner_role s) ++ option_list (rs_approval_role s) ++ option_list (rs_react s) ++ option_list (rs_d3fend s));
  sw_target : opt (λ m, 1 ≤ m ≤ 10080) (rs_target_minutes s);
  sw_options : Forall OptionWritable (rs_options s);
  sw_lookup : opt LookupWritable (rs_lookup s);
  sw_instructions : InstructionsWritable (rs_instructions s) (bool_decide (is_Some (rs_lookup s)));
}.

(** ** Attributes *)

(** A token is read whole. *)
Definition Token (t : text) : Prop := t ≠ [] ∧ ∀ rest tokens buf, attr_loop (t ++ rest) tokens buf false = attr_loop rest tokens (buf ++ t) false.

Lemma attr_plain t rest tokens buf : Forall (λ c, trim_space c = false ∧ c ≠ QUOTE) t →
  attr_loop (t ++ rest) tokens buf false = attr_loop rest tokens (buf ++ t) false.
Proof.
  intros Ht. revert buf. induction Ht as [|c t [Hs Hq] _ IH]; intros buf; [by rewrite app_nil_r|]. cbn [app attr_loop].
  rewrite (proj2 (Z.eqb_neq c QUOTE)), Hs by done. rewrite IH. by rewrite <-app_assoc.
Qed.

Lemma attr_escaped b rest tokens buf : Escaped b → attr_loop (b ++ QUOTE :: rest) tokens buf true = attr_loop rest tokens (buf ++ b ++ [QUOTE]) false.
Proof.
  intros Hb. revert buf. induction Hb as [|c t Hq Hs _ _ IH|e t _ _ IH]; intros buf.
  - cbn [app]. by destruct rest.
  - assert (E : ∀ n r, attr_loop (c :: n :: r) tokens buf true = attr_loop (n :: r) tokens (buf ++ [c]) true).
    { intros n r. cbn [attr_loop]. by rewrite (proj2 (Z.eqb_neq c BACKSLASH)), (proj2 (Z.eqb_neq c QUOTE)). }
    cbn [app]. destruct (t ++ QUOTE :: rest) as [|n r] eqn:Et; [by destruct t|]. rewrite E, IH. by rewrite <-app_assoc.
  - cbn [app attr_loop]. change (BACKSLASH =? BACKSLASH) with true. cbv iota. rewrite IH. by rewrite <-!app_assoc.
Qed.

Lemma Token_plain t : t ≠ [] → Forall (λ c, trim_space c = false ∧ c ≠ QUOTE) t → Token t.
Proof. intros Hne Ht. split; [done|]. intros. by apply attr_plain. Qed.

(** How the value of an attribute is written *)
Lemma attrValue_cases v : units_only v →
  (v ≠ [] ∧ Forall (λ c, trim_space c = false ∧ c ≠ QUOTE ∧ c ≠ EQUALS) v ∧ attrValue v = v) ∨
  (∃ b, attrValue v = QUOTE :: b ++ [QUOTE] ∧ Escaped b ∧ parse_string (QUOTE :: b ++ [QUOTE]) = Some v).
Proof.
  intros Hv. unfold attrValue. destruct (bool_decide (v = []) || _) eqn:E.
  - right. destruct (stringify_escaped v Hv) as (b & Eb & Hb). exists b. split_and!; [done|done|]. rewrite <-Eb. by apply parse_stringify.
  - left. apply orb_false_iff in E as [Hne%bool_decide_eq_false Hc]. split_and!; [done| |done]. apply Forall_forall. intros c Hin.
    assert (Hx : trim_space c || (c =? QUOTE) || is_one_of "{}=\" c = false).
    { destruct (trim_space c || (c =? QUOTE) || is_one_of "{}=\" c) eqn:Ex; [|done]. exfalso.
      assert (existsb (λ c, trim_space c || (c =? QUOTE) || is_one_of "{}=\" c) v = true); [|congruence]. apply existsb_exists. exists c. split; [by apply list_elem_of_In|done]. }
    apply orb_false_iff in Hx as [[? ?%Z.eqb_neq]%orb_false_iff Hx]. split_and!; [done|done|]. intros ->. done.
Qed.

Lemma Token_attr k v : Forall (λ c, trim_space c = false ∧ c ≠ QUOTE) (units k) → units_only v → Token (units k ++ EQUALS :: attrValue v).
Proof.
  intros Hk Hv. split; [by destruct (units k)|]. intros rest tokens buf. rewrite <-app_assoc, attr_plain by done. cbn [app].
  change (EQUALS :: ?t) with ([EQUALS] ++ t). rewrite attr_plain by (by repeat constructor).
  destruct (attrValue_cases v Hv) as [(_ & Hp & ->)|(b & -> & Hb & _)].
  - rewrite attr_plain; [by rewrite <-!app_assoc|]. eapply Forall_impl; [exact Hp|]. by intros c (? & ? & _).
  - cbn [app attr_loop]. change (QUOTE =? QUOTE) with true. cbv iota. rewrite <-app_assoc. cbn [app]. rewrite attr_escaped by done.
    by rewrite <-!app_assoc.
Qed.

Lemma attributes_join ts : Forall Token ts → attributes (join_with (units " ") ts) = ts.
Proof.
  intros Ht. unfold attributes. enough (H : ∀ toks, attr_loop (join_with (units " ") ts) toks [] false = toks ++ ts) by apply (H []).
  induction Ht as [|t ts [Hne Ht] Hts IH]; intros toks; [by rewrite app_nil_r|]. destruct ts as [|u ts].
  - cbn [join_with]. rewrite <-(app_nil_r t) at 1. rewrite Ht. by destruct t.
  - rewrite join_with_cons, Ht by done. change (units " " ++ ?r) with (SPACE :: r). cbn [app attr_loop]. change (SPACE =? QUOTE) with false.
    change (trim_space SPACE) with true. cbv iota. destruct t as [|c t]; [done|]. rewrite IH. by rewrite <-app_assoc.
Qed.

(** Setting an attribute whose value comes back as it was written. *)
Lemma attribute_set path owner a k v sink :
  starts_with (units "#") (units k) = false → EQUALS ∉ units k → k ≠ "" → k ∈ STEP_ATTRIBUTES → k ≠ "optional" → units_only v →
  attribute path owner a (units k ++ EQUALS :: attrValue v) sink = set_attribute path owner (units k) v a sink.
Proof.
  intros Hh He Hne Hk Ho Hv. unfold attribute. destruct a.
  assert (Hs : starts_with (units "#") (units k ++ EQUALS :: attrValue v) = false) by (destruct k as [|c k]; [done|]; cbn in *; by rewrite andb_true_r in *).
  rewrite Hs. rewrite bool_decide_false.
  2:{ intros E. assert (Hin : EQUALS ∈ units "optional") by (rewrite <-E; apply elem_of_app; right; left). revert Hin. apply (bool_decide_unpack _). vm_compute. exact I. }
  rewrite partition_first by done. cbn [andb].
  assert (Hval : (if starts_with [QUOTE] (attrValue v) then parse_string (attrValue v) else Some (attrValue v)) = Some v).
  { destruct (attrValue_cases v Hv) as [(Hn & Hp & ->)|(b & -> & _ & Hp)]; [|exact Hp]. destruct v as [|c r]; [done|]. apply Forall_inv in Hp as (_ & Hq & _).
    change (starts_with [QUOTE] (c :: r)) with ((QUOTE =? c) && true). by rewrite (proj2 (Z.eqb_neq QUOTE c)). }
  rewrite Hval. cbn [negb orb]. rewrite (bool_decide_true (units k ∈ _)) by by apply list_elem_of_fmap_2.
  rewrite bool_decide_false; [done|]. intros E. apply Ho. clear -E Hk.
  assert (Hall : Forall (λ k, units k = units "optional" → k = "optional") STEP_ATTRIBUTES) by (apply (bool_decide_unpack _); vm_compute; exact I).
  rewrite Forall_forall in Hall. by apply Hall.
Qed.

Lemma each_chunk {S A} (f : S → A → Parse S) xs ys st st' sink r :
  each_in f xs st sink = (st', sink) → each_in f ys st' sink = r → each_in f (xs ++ ys) st sink = r.
Proof.
  revert st. enough (H : ∀ s0 st, each_in f (xs ++ ys) st s0 = (let '(st', s') := each_in f xs st s0 in each_in f ys st' s')).
  { intros st E. by rewrite H, E. }
  induction xs as [|x xs IH]; intros s0 st; [done|]. cbn [app each_in]. unfold mbind, Parse_bind. destruct (f st x s0) as [st1 s1]. apply IH.
Qed.

Lemma each_opt {S A B} (f : S → A → Parse S) (g : B → A) (o : option B) st st' sink :
  (∀ v, o = Some v → f st (g v) sink = (st', sink)) → (o = None → st = st') → each_in f (g <$> option_list o) st sink = (st', sink).
Proof.
  intros Hv Hn. destruct o as [v|]; [|by rewrite Hn]. transitivity (each_in f [g v] st sink); [done|]. by rewrite (each_in_cons_quiet _ _ _ _ st') by by apply Hv.
Qed.

(** [if (x) attrs.push(f(x))] where [x] is [null] or not empty *)
Lemma push_some_token (f : text → text) (o : option text) : opt (λ t, t ≠ []) o → push_some (o ≫= non_empty) f = f <$> option_list o.
Proof. intros Ho. rewrite bind_non_empty by done. by destruct o. Qed.

Lemma digits5 n sep : 0 ≤ n < 10 ^ 5 → is_digit sep = false → target_minutes (digits n ++ [sep]) = if (sep =? 109) || (sep =? 104) then n * (if sep =? 104 then 60 else 1) else 0.
Proof.
  intros Hn Hsep. unfold target_minutes. rewrite last_snoc, List.removelast_last.
  destruct (digits_spec n ltac:(lia)) as (Hall & Hv & Hne). pose proof (length_digits_fuel (S (Z.to_nat (Z.log2 n))) n 4 Hn) as Hlen. fold (digits n) in Hlen.
  assert (Ha : all_of is_digit 1 5 (digits n) = true).
  { unfold all_of. rewrite !andb_true_iff. split_and!; [|by destruct (digits n)|by apply Nat.leb_le].
    apply forallb_forall. intros x Hx%list_elem_of_In. rewrite Forall_forall in Hall. by apply Hall. }
  by rewrite Ha, Hv.
Qed.

Lemma target_format m : 1 ≤ m ≤ 10080 → target_minutes (formatTarget m) = m.
Proof.
  intros Hm. unfold formatTarget. pose proof (Z.quot_rem' m 60) as Hq. pose proof (Z.rem_bound_pos m 60 ltac:(lia) ltac:(lia)) as Hr.
  destruct (Z.eqb_spec (Z.rem m 60) 0) as [E|E].
  - rewrite decimal_nonneg by lia. change (units "h") with [104]. rewrite digits5; [|change (10 ^ 5) with 100000; lia|done].
    change (Z.quot m 60 * 60 = m). lia.
  - rewrite decimal_nonneg by lia. change (units "m") with [109]. rewrite digits5; [|change (10 ^ 5) with 100000; lia|done].
    change (m * 1 = m). lia.
Qed.

Lemma no_space_no_quote t : bool_decide (Forall (λ c, trim_space c = false ∧ c ≠ QUOTE) t) = true → Forall (λ c, trim_space c = false ∧ c ≠ QUOTE) t.
Proof. apply bool_decide_eq_true. Qed.

Lemma bare_no_quote t : Forall (λ c, is_digit c = true) t → Forall (λ c, trim_space c = false ∧ c ≠ QUOTE ∧ c ≠ EQUALS ∧ is_one_of "{}=\" c = false) t.
Proof.
  intros Ht. eapply Forall_impl; [exact Ht|]. intros c Hc. unfold is_digit, in_range in Hc. assert (48 ≤ c ≤ 57) by lia.
  unfold trim_space, QUOTE, EQUALS. split_and!; [lia..|]. apply bool_decide_eq_false. change (units "{}=\") with [123; 125; 61; 92].
  rewrite !elem_of_cons, elem_of_nil. lia.
Qed.

Lemma attrValue_plain v : v ≠ [] → existsb (λ c, trim_space c || (c =? QUOTE) || is_one_of "{}=\" c) v = false → attrValue v = v.
Proof. intros Hne He. unfold attrValue. rewrite bool_decide_false by done. cbn [orb]. by rewrite He. Qed.

Lemma target_attr m : 1 ≤ m ≤ 10080 → attrValue (formatTarget m) = formatTarget m ∧ units_only (formatTarget m) ∧ OPEN ∉ formatTarget m ∧ CLOSE ∉ formatTarget m.
Proof.
  intros Hm. unfold formatTarget. pose proof (Z.quot_rem' m 60) as Hq. pose proof (Z.rem_bound_pos m 60 ltac:(lia) ltac:(lia)) as Hr.
  assert (H : ∀ n u, 0 ≤ n → u = 104 ∨ u = 109 → attrValue (digits n ++ [u]) = digits n ++ [u] ∧ units_only (digits n ++ [u]) ∧ OPEN ∉ digits n ++ [u] ∧ CLOSE ∉ digits n ++ [u]).
  { intros n u Hn Hu. destruct (digits_spec n Hn) as (Hall & _ & _).
    assert (Hf : Forall (λ c, trim_space c = false ∧ c ≠ QUOTE ∧ c ≠ EQUALS ∧ is_one_of "{}=\" c = false) (digits n ++ [u])).
    { apply Forall_app. split; [by apply bare_no_quote|]. apply Forall_singleton. destruct Hu as [->| ->]; split_and!; done. }
    rewrite Forall_forall in Hf. split_and!.
    - apply attrValue_plain; [by destruct (digits n)|]. destruct (existsb _ _) eqn:E; [|done]. exfalso.
      apply existsb_exists in E as (c & Hc%list_elem_of_In & Hx). destruct (Hf c Hc) as (H1 & H2 & _ & H4). rewrite H1, H4, (proj2 (Z.eqb_neq c QUOTE)) in Hx; done.
    - apply Forall_app. split; [|apply Forall_singleton; unfold is_unit; lia]. eapply Forall_impl; [exact Hall|]. intros c Hc. unfold is_digit, in_range, is_unit in *. lia.
    - intros (_ & _ & _ & Hx)%Hf. done.
    - intros (_ & _ & _ & Hx)%Hf. done. }
  destruct (_ =? 0); rewrite decimal_nonneg by lia; apply H; [lia|by left|lia|by right].
Qed.

Section attributes.
Context {P : Type} (s : RunbookStepOf text P) (Hs : StepWritable s).
Context (Hroles : Forall (λ t : text, t ≠ []) (option_list (rs_owner_role s) ++ option_list (rs_approval_role s) ++ option_list (rs_react s) ++ option_list (rs_d3fend s))).

Definition read_attrs : StepAttrs :=
  mkAttrs (rs_id s) (rs_required s) (rs_kind s) (rs_owner_role s) (rs_approval_role s) (rs_evidence s) (rs_target_minutes s) (rs_react s) (rs_d3fend s) true true.

(** The tokens of the attribute list, as the reader wants them. *)
Lemma step_attrs_eq :
  step_attrs s = [HASH :: rs_id s; units "kind" ++ EQUALS :: attrValue (units (kind_name (rs_kind s)))] ++
    (if rs_required s then [] else [units "optional"]) ++
    ((λ v, units "owner" ++ EQUALS :: attrValue v) <$> option_list (rs_owner_role s)) ++
    ((λ v, units "approval" ++ EQUALS :: attrValue v) <$> option_list (rs_approval_role s)) ++
    (if decide (rs_evidence s = EvNone) then [] else [units "evidence" ++ EQUALS :: attrValue (evidence_name (rs_evidence s))]) ++
    ((λ m, units "target" ++ EQUALS :: attrValue (formatTarget m)) <$> option_list (rs_target_minutes s)) ++
    ((λ v, units "react" ++ EQUALS :: attrValue v) <$> option_list (rs_react s)) ++
    ((λ v, units "d3fend" ++ EQUALS :: attrValue v) <$> option_list (rs_d3fend s)).
Proof using Hs Hroles.
  unfold step_attrs. rewrite !Forall_app in Hroles. destruct Hroles as (H1 & H2 & H3 & H4).
  assert (Ho : ∀ o : option text, Forall (λ t : text, t ≠ []) (option_list o) → opt (λ t, t ≠ []) o) by (intros [t|] H; [by apply Forall_inv in H|done]).
  rewrite !push_some_token by by apply Ho.
  assert (Hkind : ∀ k, attrValue (units (kind_name k)) = units (kind_name k)) by (intros []; reflexivity).
  assert (Hev : ∀ e, attrValue (evidence_name e) = evidence_name e) by (intros []; reflexivity). rewrite Hkind, Hev.
  pose proof (sw_target _ Hs) as Ht. destruct (rs_target_minutes s) as [m|]; cbn in Ht; [|done].
  change ((λ m, units "target" ++ EQUALS :: attrValue (formatTarget m)) <$> option_list (Some m)) with [units "target" ++ EQUALS :: attrValue (formatTarget m)].
  destruct (target_attr m Ht) as [-> _]. rewrite (proj2 (Z.eqb_neq m 0)) by lia. done.
Qed.

Lemma quoted_no_brace v : units_only v → no_brace v → no_brace (attrValue v).
Proof using.
  clear Hs Hroles. intros Hu [H1 H2]. destruct (attrValue_cases v Hu) as [(_ & _ & ->)|(b & E & _)]; [done|].
  unfold attrValue in *. destruct (bool_decide (v = []) || _); [|done]. clear E. unfold stringify, no_brace.
  assert (Hb : ∀ c, c = OPEN ∨ c = CLOSE → c ∉ v → c ∉ quote_body v).
  { intros c Hc. clear -Hc. remember (length v) as n eqn:Hn. assert (Hle : (length v <= n)%nat) by lia. clear Hn. revert v Hle.
    assert (Hesc : ∀ x, c ∉ unicode_escape x).
    { intros x Hin. unfold unicode_escape in Hin. assert (Hh : ∀ y, hex_digit (y mod 16) ≠ c).
      { intros y. unfold hex_digit. pose proof (Z.mod_pos_bound y 16 ltac:(lia)). destruct (Z.ltb_spec (y mod 16) 10), Hc as [->| ->]; unfold OPEN, CLOSE; lia. }
      rewrite !elem_of_cons, elem_of_nil in Hin. destruct Hc as [->| ->]; destruct Hin as [E|[E|[E|[E|[E|[E|[]]]]]]]; try discriminate E; try (by apply (Hh _ (eq_sym E))). }
    assert (Hunit : ∀ x, x ≠ c → c ∉ escape_unit x).
    { intros x Hx. unfold escape_unit. repeat match goal with |- context [if ?b then _ else _] => destruct b end; try apply Hesc;
        rewrite ?elem_of_cons, ?elem_of_nil; destruct Hc as [->| ->]; unfold OPEN, CLOSE, BACKSLASH, QUOTE in *; intuition congruence. }
    induction n as [|n IH]; intros [|x v] Hle Hin; cbn in Hle; try lia; [by intros ?%elem_of_nil..|].
    apply not_elem_of_cons in Hin as [Hx Hin]. cbn [quote_body].
    destruct (is_high x); [destruct v as [|d v]; [apply Hesc|destruct (is_low d)]|destruct (is_low x)].
    - apply not_elem_of_cons in Hin as [Hd Hin]. rewrite !not_elem_of_cons. split_and!; [done|done|]. apply IH; [cbn in *; lia|done].
    - apply not_elem_of_app. split; [apply Hesc|apply IH; [cbn in *; lia|done]].
    - apply not_elem_of_app. split; [apply Hesc|apply IH; [lia|done]].
    - apply not_elem_of_app. split; [apply Hunit; congruence|apply IH; [lia|done]]. }
  split; rewrite not_elem_of_cons, not_elem_of_app, not_elem_of_cons; (split_and!; [done| |done|apply not_elem_of_nil]); (apply Hb; [first [by left|by right]|done]).
Qed.

Definition good_token (t : text) : Prop := Token t ∧ no_brace t.

Lemma good_attr k v : bool_decide (Forall (λ c, trim_space c = false ∧ c ≠ QUOTE ∧ c ≠ OPEN ∧ c ≠ CLOSE) (units k)) = true →
  units_only v → no_brace v → good_token (units k ++ EQUALS :: attrValue v).
Proof using.
  clear Hs Hroles. intros Hk%bool_decide_eq_true Hu Hb. split.
  - apply Token_attr; [|done]. eapply Forall_impl; [exact Hk|]. by intros c (? & ? & _).
  - destruct (quoted_no_brace v Hu Hb) as [H1 H2]. rewrite Forall_forall in Hk.
    split; rewrite not_elem_of_app, not_elem_of_cons; (split_and!; [intros Hin%Hk; tauto|done|done]).
Qed.

Lemma good_attrs k (vs : list text) : bool_decide (Forall (λ c, trim_space c = false ∧ c ≠ QUOTE ∧ c ≠ OPEN ∧ c ≠ CLOSE) (units k)) = true →
  Forall (λ t, units_only t ∧ no_brace t) vs → Forall good_token ((λ v, units k ++ EQUALS :: attrValue v) <$> vs).
Proof using. clear Hs Hroles. intros Hk Hv. apply Forall_fmap. eapply Forall_impl; [exact Hv|]. intros v [Hu Hb]. by apply good_attr. Qed.

Lemma units_units_only w : units_only (units w).
Proof using. clear. induction w as [|a w IH]; constructor; [|done]. unfold is_unit. pose proof (Ascii.nat_ascii_bounded a). lia. Qed.

Lemma step_attrs_tokens : Forall good_token (step_attrs s).
Proof using Hs Hroles.
  rewrite step_attrs_eq. pose proof (sw_roles _ Hs) as Hr. rewrite !Forall_app in Hr. destruct Hr as (Hr1 & Hr2 & Hr3 & Hr4).
  rewrite !Forall_app. split_and!; try (by apply good_attrs).
  - constructor; [|constructor; [|constructor]].
    + destruct (sw_id _ Hs) as [Hne Hid]. rewrite forallb_forall in Hid.
      assert (Hc : ∀ c, c ∈ rs_id s → trim_space c = false ∧ c ≠ QUOTE ∧ c ≠ OPEN ∧ c ≠ CLOSE).
      { intros c Hc%list_elem_of_In%Hid. unfold id_char in Hc. rewrite !andb_true_iff, !negb_true_iff, !Z.eqb_neq in Hc. tauto. }
      split; [apply Token_plain; [done|]|split; rewrite not_elem_of_cons; (split; [done|intros H%Hc; tauto])].
      constructor; [done|]. apply Forall_forall. intros c H%Hc. tauto.
    + apply good_attr; [done|apply units_units_only|]. destruct (rs_kind s); split; apply (bool_decide_unpack _); vm_compute; exact I.
  - destruct (rs_required s); [constructor|]. constructor; [|constructor]. split; [|split; apply (bool_decide_unpack _); vm_compute; exact I].
    apply Token_plain; [done|]. apply (bool_decide_unpack _); vm_compute; exact I.
  - destruct (decide _); [constructor|]. constructor; [|constructor]. apply good_attr; [done|apply units_units_only|].
    destruct (rs_evidence s); split; apply (bool_decide_unpack _); vm_compute; exact I.
  - pose proof (sw_target _ Hs) as Ht. destruct (rs_target_minutes s) as [m|]; [|constructor]. constructor; [|constructor].
    destruct (target_attr m Ht) as (_ & Hu & Hb). by apply good_attr.
Qed.

Lemma attrs_read path owner sink :
  each_in (attribute path owner) (step_attrs s) no_attrs sink = (read_attrs, sink).
Proof using Hs Hroles.
  rewrite step_attrs_eq. pose proof (sw_roles _ Hs) as Hr. rewrite !Forall_app in Hr. destruct Hr as (Hr1 & Hr2 & Hr3 & Hr4).
  pose (A kind required own appr evid target react d3fend hasKind := mkAttrs (rs_id s) required kind own appr evid target react d3fend true hasKind).
  set (k := rs_kind s). set (r := rs_required s). set (own := rs_owner_role s) in *. set (ap := rs_approval_role s) in *. set (ev := rs_evidence s).
  set (tg := rs_target_minutes s). set (re := rs_react s) in *. set (d3 := rs_d3fend s) in *.
  eapply (each_chunk _ _ _ _ (A k true None None EvNone None None None true)).
  { rewrite (each_in_cons_quiet _ _ _ _ (A KCheck true None None EvNone None None None false)) by done.
    rewrite (each_in_cons_quiet _ _ _ _ (A k true None None EvNone None None None true)); [done|].
    rewrite attribute_set; [by destruct k|done|by apply (bool_decide_unpack _)|done|by left|done|apply units_units_only]. }
  eapply (each_chunk _ _ _ _ (A k r None None EvNone None None None true)); [by destruct r|].
  assert (Hopt : ∀ (o : option text), Forall (λ t, units_only t ∧ no_brace t) (option_list o) → ∀ v, o = Some v → units_only v).
  { intros o Ho v ->. by apply Forall_inv in Ho as [? _]. }
  eapply (each_chunk _ _ _ _ (A k r own None EvNone None None None true)).
  { apply each_opt; [|by intros ->]. intros v Ev. rewrite attribute_set; [by rewrite Ev|done|by apply (bool_decide_unpack _)|done|by apply (bool_decide_unpack _)|done|by refine (Hopt _ _ _ Ev)]. }
  eapply (each_chunk _ _ _ _ (A k r own ap EvNone None None None true)).
  { apply each_opt; [|by intros ->]. intros v Ev. rewrite attribute_set; [by rewrite Ev|done|by apply (bool_decide_unpack _)|done|by apply (bool_decide_unpack _)|done|by refine (Hopt _ _ _ Ev)]. }
  eapply (each_chunk _ _ _ _ (A k r own ap ev None None None true)).
  { destruct (decide (ev = EvNone)) as [->|Hne]; [done|]. rewrite (each_in_cons_quiet _ _ _ _ (A k r own ap ev None None None true)); [done|].
    rewrite attribute_set; [by destruct ev|done|by apply (bool_decide_unpack _)|done|by apply (bool_decide_unpack _)|done|apply units_units_only]. }
  eapply (each_chunk _ _ _ _ (A k r own ap ev tg None None true)).
  { apply each_opt; [|by intros ->]. intros m Em. pose proof (sw_target _ Hs) as Ht. fold tg in Ht. rewrite Em in Ht. cbn in Ht. destruct (target_attr m Ht) as (_ & Hu & _).
    rewrite attribute_set; [|done|by apply (bool_decide_unpack _)|done|by apply (bool_decide_unpack _)|done|done].
    transitivity ((if (target_minutes (formatTarget m) <? 1) || (10080 <? target_minutes (formatTarget m)) then
        fail (path ++ units ".target") (owner ++ units " target must be minutes or hours such as 30m or 4h, at most 168h.");; mret (A k r own ap ev None None None true)
      else mret (A k r own ap ev (Some (target_minutes (formatTarget m))) None None true)) sink); [reflexivity|].
    rewrite target_format by done. rewrite (proj2 (Z.ltb_ge m 1)), (proj2 (Z.ltb_ge 10080 m)) by lia. by rewrite Em. }
  eapply (each_chunk _ _ _ _ (A k r own ap ev tg re None true)).
  { apply each_opt; [|by intros ->]. intros v Ev. rewrite attribute_set; [by rewrite Ev|done|by apply (bool_decide_unpack _)|done|by apply (bool_decide_unpack _)|done|by refine (Hopt _ _ _ Ev)]. }
  apply each_opt; [|by intros E; unfold read_attrs; fold k r own ap ev tg re d3; rewrite E].
  intros v Ev. unfold read_attrs. fold k r own ap ev tg re d3. rewrite attribute_set; [by rewrite Ev|done|by apply (bool_decide_unpack _)|done|by apply (bool_decide_unpack _)|done|by refine (Hopt _ _ _ Ev)].
Qed.
End attributes.

(** ** The heading *)
Lemma last_split_last c a b : c ∉ b → last_split c (a ++ c :: b) = Some (a, b).
Proof.
  intros Hb. assert (Hn : last_split c b = None).
  { induction b as [|d b IH]; [done|]. apply not_elem_of_cons in Hb as [Hd Hb]. cbn. rewrite IH by done. by rewrite (proj2 (Z.eqb_neq d c)) by congruence. }
  induction a as [|d a IH]; cbn; [by rewrite Hn, Z.eqb_refl|]. by rewrite IH.
Qed.

Lemma not_elem_of_join c sep parts : c ∉ sep → Forall (λ p, c ∉ p) parts → c ∉ join_with sep parts.
Proof.
  intros Hs. induction 1 as [|p parts Hp _ IH]; [apply not_elem_of_nil|]. destruct parts as [|q parts]; [done|].
  rewrite join_with_cons by done. by rewrite !not_elem_of_app.
Qed.

Lemma split_braces pre raw : no_brace raw → splitHeading (pre ++ OPEN :: raw ++ [CLOSE]) = (text_trim pre, Some raw).
Proof.
  intros [Ho Hc]. unfold splitHeading. rewrite app_comm_cons, app_assoc, trimEnd_id by (intros c E; rewrite last_snoc in E; by injection E as <-).
  rewrite last_snoc, bool_decide_true by done. cbn [negb]. rewrite <-app_assoc. cbn [app].
  rewrite last_split_last by (rewrite not_elem_of_app, list_elem_of_singleton; done). rewrite List.removelast_last.
  by rewrite bool_decide_false.
Qed.

(** The title and the attributes of an exported heading. *)
Lemma splitHeading_export title raw : text_trim title = title → no_brace raw →
  splitHeading (text_trim (title ++ units " {" ++ raw ++ units "}")) = (title, Some raw).
Proof.
  intros Ht Hr. change (units " {" ++ raw ++ units "}") with (SPACE :: OPEN :: raw ++ [CLOSE]). unfold text_trim at 1.
  assert (He : ∀ t, text_trimEnd (t ++ OPEN :: raw ++ [CLOSE]) = t ++ OPEN :: raw ++ [CLOSE]).
  { intros t. rewrite app_comm_cons, app_assoc. apply trimEnd_id. intros c E. rewrite last_snoc in E. by injection E as <-. }
  destruct title as [|c t].
  - change (text_trimStart ([] ++ SPACE :: OPEN :: raw ++ [CLOSE])) with ([] ++ OPEN :: raw ++ [CLOSE]). rewrite He. by rewrite split_braces.
  - assert (Hc : trim_space c = false) by (apply trim_trimmed_iff in Ht as [Hh _]; by apply Hh).
    change (SPACE :: OPEN :: raw ++ [CLOSE]) with ([SPACE] ++ OPEN :: raw ++ [CLOSE]). rewrite app_assoc.
    change (((c :: t) ++ [SPACE]) ++ ?r) with (c :: (t ++ [SPACE]) ++ r). rewrite trimStart_plain by done.
    rewrite app_comm_cons, He, split_braces by done. change (c :: t ++ [SPACE]) with ((c :: t) ++ [SPACE]). by rewrite trim_snoc_space, Ht.
Qed.

Lemma attrs_no_brace {P} (s : RunbookStepOf text P) : Forall good_token (step_attrs s) → no_brace (join_with (units " ") (step_attrs s)).
Proof.
  intros Hs. split; apply not_elem_of_join.
  1,3: apply (bool_decide_unpack _); vm_compute; exact I.
  all: eapply Forall_impl; [exact Hs|]; by intros t [_ []].
Qed.
