(* ===== verification/RunbookKeyText.v ===== *)
(** * The key lines of an exported step read back: focus, escalation, benign readings and options *)

From S2P Require Import Prelude JsText JsMap DisplayText DisplaySpec JsonText TextLines Runbook RunbookMarkdown RunbookYaml RunbookParse RunbookYamlSpec RunbookCanonical RunbookFront RunbookStepText.
Local Open Scope Z_scope.

(** ** Options *)
Definition is_gap (c : Z) : bool := (c =? SPACE) || (c =? TAB).
Definition BAR : Z := 124.

Lemma skip_gap_app t w : skip_while is_gap (t ++ w) = match skip_while is_gap t with [] => skip_while is_gap w | r => r ++ w end.
Proof. induction t as [|c t IH]; [done|]. cbn. by destruct (is_gap c). Qed.

Lemma starts_with_app_no p r c w : starts_with p r = false → c ∉ p → starts_with p (r ++ c :: w) = false.
Proof.
  revert p. induction r as [|d r IH]; intros [|e p] Hr Hc; try done.
  - apply not_elem_of_cons in Hc as [Hne _]. cbn. by rewrite (proj2 (Z.eqb_neq e c)) by congruence.
  - apply not_elem_of_cons in Hc as [_ Hc]. cbn in *. destruct (e =? d); [|done]. cbn in *. by apply IH.
Qed.

(** A label without [| skips:] in it does not hide the one after it. *)
Lemma find_skips_export label z : find_skips label = None →
  find_skips (label ++ SPACE :: BAR :: SPACE :: units "skips:" ++ z) = Some (label ++ [SPACE], z).
Proof.
  induction label as [|c t IH]; intros Hl; [reflexivity|]. cbn [app find_skips] in *. change (λ c : Z, (c =? SPACE) || (c =? TAB)) with is_gap in *.
  destruct (find_skips t) as [[a b]|] eqn:Et; [by destruct (_ && _)|].
  assert (Hn : (c =? 124) && starts_with (units "skips:") (skip_while is_gap (t ++ SPACE :: BAR :: SPACE :: units "skips:" ++ z)) = false).
  { destruct (c =? 124); [|done]. cbn [andb] in *. destruct (starts_with (units "skips:") (skip_while is_gap t)) eqn:Es; [done|].
    rewrite skip_gap_app. destruct (skip_while is_gap t) as [|d r]; [done|]. apply starts_with_app_no; [done|].
    apply (bool_decide_unpack _). vm_compute. exact I. }
  rewrite Hn, IH by done. done.
Qed.

Lemma spaced_join ms : ms ≠ [] → SPACE :: join_with (units ", ") ms = join_with [COMMA] ((SPACE ::.) <$> ms).
Proof.
  induction ms as [|m [|n ms] IH]; intros Hne; [done|done|]. change (SPACE :: m ++ units ", " ++ join_with (units ", ") (n :: ms) = (SPACE :: m) ++ [COMMA] ++ join_with [COMMA] ((SPACE ::.) <$> n :: ms)). rewrite <-IH by done.
  change (units ", ") with [COMMA; SPACE]. by rewrite <-app_comm_cons.
Qed.

Lemma marks_read ms : ms ≠ [] → Forall (λ m, text_trim m = m ∧ m ≠ [] ∧ COMMA ∉ m) ms →
  omap (λ s, non_empty (text_trim s)) (split_on COMMA (SPACE :: join_with (units ", ") ms)) = ms.
Proof.
  intros Hne Hm. rewrite spaced_join, split_join_lines by
    first [done|by destruct ms|apply Forall_fmap; eapply Forall_impl; [exact Hm|]; intros m (_ & _ & H); by apply not_elem_of_cons].
  clear Hne. induction Hm as [|m ms (Ht & Hn & _) _ IH]; [done|]. rewrite fmap_cons. cbn [omap list_omap].
  rewrite trim_space_cons, Ht by done. destruct m as [|c m]; [done|]. cbn [non_empty]. by f_equal.
Qed.

Section options.
Context `{UpperCase}.

Lemma option_read o : OptionWritable o → normalise_option o = o → optionLine (strip_left (option_text o)) = Some o.
Proof.
  intros [[Hne Hid] [_ Hl] Hm] Hn. unfold normalise_option, cleanLine in Hn. destruct o as [id label marks]. injection Hn as Hti Htl Hms.
  cbn [do_id do_label do_marks] in *. unfold optionLine, option_text. cbn [do_id do_label do_marks].
  change (strip_left (units "- " ++ ?r)) with (units "- " ++ r). change (drop 2 (units "- " ++ ?r)) with r.
  assert (Hs : ∀ r, text_trimStart (id ++ r) = id ++ r).
  { intros r. destruct id as [|c id]; [done|]. apply Forall_inv in Hid as [Hc _]. by apply trimStart_plain. }
  rewrite Hs. change (units ": " ++ ?r) with (COLON :: SPACE :: r).
  rewrite partition_first by (rewrite Forall_forall in Hid; intros Hin%Hid; tauto). cbn [negb orb].
  rewrite bool_decide_false by done. cbn [orb].
  assert (He : existsb trim_space id = false).
  { destruct (existsb trim_space id) eqn:E; [|done]. apply existsb_exists in E as (c & Hc%list_elem_of_In & Hx). rewrite Forall_forall in Hid. apply Hid in Hc as [? _]. congruence. }
  rewrite He. destruct marks as [|m ms].
  - rewrite app_nil_r. cbn [find_skips]. change (SPACE =? 124) with false. cbn [andb]. rewrite Hl. change (Some (mkOption id (text_trim (SPACE :: label)) []) = Some (mkOption id label [])). by rewrite trim_space_cons, Htl.
  - change (units " | skips: " ++ ?r) with (SPACE :: BAR :: SPACE :: units "skips:" ++ SPACE :: r).
    rewrite (app_comm_cons label), (find_skips_export (SPACE :: label)) by (cbn; by rewrite Hl). rewrite marks_read; [|done|].
    + rewrite trim_snoc_space, trim_space_cons, Htl by done. done.
    + apply Forall_forall. intros x Hx. rewrite Forall_forall in Hm. destruct (Hm x Hx) as [_ Hc]. rewrite <-Hms in Hx. by apply cleanList_items in Hx as (? & ? & _).
Qed.
End options.

Lemma is_option_text o : is_option (option_text o) = true.
Proof. reflexivity. Qed.

Lemma option_text_not_blank o : blank (option_text o) = false.
Proof. by apply blank_plain. Qed.

(** ** Key lines *)
Lemma keyLine_text k v : text_trim v = v → keyLine (units (key_line_name k) ++ COLON :: SPACE :: v) = Some (k, v).
Proof.
  intros Hv. transitivity (Some (k, text_trim (SPACE :: v))); [by destruct k|]. by rewrite trim_space_cons, Hv.
Qed.

(** The key line of a text, where there is one, and the lines of the options *)
Definition key_text (k : StepKeyLine) (o : option text) : list text :=
  push_some (o ≫= non_empty) (λ v, units (key_line_name k) ++ COLON :: SPACE :: v).
Definition option_lines (os : list (DecisionOptionOf text)) : list text :=
  match os with [] => [] | _ => units "Options:" :: (option_text <$> os) end.

(** Where the key lines end: a blank line, and no key line after it. *)
Definition no_key (lines : list text) : Prop := match drop_blank lines with first :: _ => keyLine first = None | [] => True end.
Definition ends_keys (lines : list text) : Prop := head lines = Some [] ∧ no_key lines.

(** The text of a key line, where there is one *)
Definition keyed (k : StepKeyLine) (o : option text) (ks : StepKeys) : StepKeys :=
  match o with
  | Some v =>
      match k with
      | LFocus => mkKeys (Some v) (sk_escalate ks) (sk_benign ks) (sk_options ks) (LFocus :: sk_seen ks)
      | LEscalate => mkKeys (sk_focus ks) (Some v) (sk_benign ks) (sk_options ks) (LEscalate :: sk_seen ks)
      | LBenign => mkKeys (sk_focus ks) (sk_escalate ks) (Some v) (sk_options ks) (LBenign :: sk_seen ks)
      | LOptions => ks
      end
  | None => ks
  end.

Section key_lines.
Context (path owner : text) (sink : Collector).

Lemma key_loop_line number line lines k val ks ks' n :
  blank line = false → keyLine line = Some (k, val) → key_line path owner number k val lines ks sink = ((ks', n), sink) →
  key_loop path owner number 0 (line :: lines) ks sink = key_loop path owner (number + 1) n lines ks' sink.
Proof.
  intros Hb Hk Hl. cbn [key_loop]. rewrite drop_blank_id, Hk, Hb by done. unfold mbind, Parse_bind. by rewrite Hl.
Qed.

Lemma key_loop_skip number skipped lines ks :
  key_loop path owner number (length skipped) (skipped ++ lines) ks sink = key_loop path owner (number + Z.of_nat (length skipped)) 0 lines ks sink.
Proof.
  revert number. induction skipped as [|l ls IH]; intros number; [cbn [length app]; f_equal; lia|]. cbn [length app key_loop]. rewrite IH. f_equal. lia.
Qed.

Lemma key_loop_end number lines ks : ends_keys lines → key_loop path owner number 0 lines ks sink = ((ks, number, lines), sink).
Proof.
  intros [Hh Hn]. destruct lines as [|l lines]; [done|]. injection Hh as ->. cbn [key_loop]. unfold no_key in Hn.
  destruct (drop_blank _) as [|first r]; [done|]. by rewrite Hn.
Qed.

Lemma key_loop_text number k o lines ks : k ≠ LOptions → k ∉ sk_seen ks → opt (λ v, text_trim v = v ∧ v ≠ []) o →
  ∃ number', key_loop path owner number 0 (key_text k o ++ lines) ks sink =
    key_loop path owner number' 0 lines (keyed k o ks) sink.
Proof.
  intros Hk Hs Ho. unfold key_text. rewrite bind_non_empty by (destruct o; [by destruct Ho|done]). destruct o as [v|]; [|by exists number].
  destruct Ho as [Hv Hne]. exists (number + 1). cbn [push_some app keyed].
  apply (key_loop_line _ _ _ k v); [by destruct k; apply blank_plain|by apply keyLine_text|].
  destruct ks as [focus escalate benign options seen]. unfold key_line. cbn [sk_seen] in Hs. rewrite (bool_decide_false (k ∈ seen)) by done. destruct v as [|c v]; [done|]. by destruct k.
Qed.

Lemma option_block_export (os : list (DecisionOptionOf text)) lines : os ≠ [] → head lines = Some [] →
  option_block ((option_text <$> os) ++ lines) = (O, option_text <$> os).
Proof.
  intros Hne Hh. unfold option_block. destruct os as [|o os]; [done|]. rewrite fmap_cons, <-app_comm_cons.
  rewrite drop_blank_id by apply option_text_not_blank. rewrite is_option_text, Nat.sub_diag. f_equal.
  rewrite app_comm_cons, <-fmap_cons. apply take_while_app; [by apply Forall_fmap, Forall_forall|]. destruct lines as [|l lines]; [done|]. by injection Hh as ->.
Qed.

Context `{UpperCase}.

Lemma options_read number os : Forall (λ o, OptionWritable o ∧ normalise_option o = o) os →
  ∀ out k, each_in (option_entry path owner) (imap (λ i l, (number + Z.of_nat (k + i), l)) (option_text <$> os)) out sink = (out ++ os, sink).
Proof.
  induction 1 as [|o os [Ho Hn] _ IH]; intros out k; [by rewrite app_nil_r|]. rewrite fmap_cons, imap_cons.
  rewrite (each_in_cons_quiet _ _ _ _ (out ++ [o])) by (unfold option_entry; cbn [snd]; by rewrite option_read).
  rewrite (imap_ext _ (λ i l, (number + Z.of_nat (S k + i), l))) by (intros; unfold compose; do 2 f_equal; lia).
  by rewrite IH, <-app_assoc.
Qed.

Lemma key_loop_options number os lines ks : LOptions ∉ sk_seen ks → sk_options ks = [] → head lines = Some [] →
  Forall (λ o, OptionWritable o ∧ normalise_option o = o) os →
  ∃ number' seen, key_loop path owner number 0 (option_lines os ++ lines) ks sink =
    key_loop path owner number' 0 lines (mkKeys (sk_focus ks) (sk_escalate ks) (sk_benign ks) os seen) sink.
Proof.
  intros Hs Ho Hl Hos. destruct ks as [focus escalate benign options seen]. cbn [sk_seen sk_options sk_focus sk_escalate sk_benign] in *. subst options.
  destruct (decide (os = [])) as [->|Hne]; [by exists number, seen|].
  exists (number + 1 + Z.of_nat (length (option_text <$> os))), (LOptions :: seen).
  replace (option_lines os) with (units "Options:" :: (option_text <$> os)) by by destruct os.
  rewrite <-app_comm_cons, (key_loop_line _ _ _ LOptions [] _ (mkKeys focus escalate benign os (LOptions :: seen)) (length (option_text <$> os))); [|done|done|].
  - apply key_loop_skip.
  - unfold key_line. rewrite (bool_decide_false (LOptions ∈ seen)) by done. rewrite option_block_export by done.
    cbn [fail_if]. change (negb (bool_decide _)) with false. unfold mbind, Parse_bind, fail_if, mret, Parse_ret.
    by rewrite (options_read (number + 1) os Hos [] 0).
Qed.

(** The key lines of an exported step *)
Definition key_lines {P} (s : RunbookStepOf text P) : list text :=
  key_text LFocus (rs_focus s) ++ key_text LEscalate (rs_escalate_if s) ++ key_text LBenign (rs_benign_if s) ++ option_lines (rs_options s).

Lemma clean_opt (o : option text) : cleanOptional o = o → opt (λ v, text_trim v = v ∧ v ≠ []) o.
Proof. destruct o as [v|]; [|done]. by intros Hv%cleanOptional_some. Qed.

Lemma fmap_fixed {A} (f : A → A) l : f <$> l = l → Forall (λ a, f a = a) l.
Proof. induction l as [|a l IH]; [constructor|]. rewrite fmap_cons. intros [= Ha Hl]. by constructor; [|apply IH]. Qed.

Lemma keys_read {P} (s : RunbookStepOf text P) number tail : StepWritable s → normalise_step s = s → ends_keys tail →
  ∃ number' seen, key_loop path owner number 0 (key_lines s ++ tail) (mkKeys None None None [] []) sink =
    ((mkKeys (rs_focus s) (rs_escalate_if s) (rs_benign_if s) (rs_options s) seen, number', tail), sink).
Proof.
  intros Hw Hn Ht. assert (Hf := f_equal rs_focus Hn). assert (He := f_equal rs_escalate_if Hn). assert (Hb := f_equal rs_benign_if Hn).
  assert (Ho := f_equal rs_options Hn). cbn [normalise_step rs_focus rs_escalate_if rs_benign_if rs_options] in *. unfold key_lines. rewrite <-!app_assoc.
  apply clean_opt in Hf, He, Hb. apply fmap_fixed in Ho.
  set (ks1 := keyed LFocus (rs_focus s) (mkKeys None None None [] [])). set (ks2 := keyed LEscalate (rs_escalate_if s) ks1).
  set (ks3 := keyed LBenign (rs_benign_if s) ks2).
  assert (Hs : LEscalate ∉ sk_seen ks1 ∧ LBenign ∉ sk_seen ks2 ∧ LOptions ∉ sk_seen ks3 ∧ sk_options ks3 = []).
  { unfold ks3, ks2, ks1. destruct (rs_focus s), (rs_escalate_if s), (rs_benign_if s); (split_and!; [apply (bool_decide_unpack _); vm_compute; exact I..|done]). }
  destruct Hs as (Hs1 & Hs2 & Hs3 & Hs4).
  edestruct (key_loop_text number LFocus) as [n1 ->]; [done|apply not_elem_of_nil|done|].
  edestruct (key_loop_text n1 LEscalate) as [n2 ->]; [done|exact Hs1|done|].
  edestruct (key_loop_text n2 LBenign) as [n3 ->]; [done|exact Hs2|done|].
  fold ks1; fold ks2; fold ks3.
  destruct (key_loop_options n3 (rs_options s) tail ks3) as (n4 & seen & ->); [done|done|apply Ht| |].
  - apply Forall_forall. intros o Hin. pose proof (sw_options _ Hw) as Hos. rewrite Forall_forall in Hos, Ho. by split; [apply Hos|apply Ho].
  - exists n4, seen. rewrite key_loop_end by done. unfold ks3, ks2, ks1. by destruct (rs_focus s), (rs_escalate_if s), (rs_benign_if s).
Qed.
End key_lines.

(** The instructions, pushed as one text *)
Definition pushed_text (t : text) : list text := match t with [] => [] | _ => [[]; t] end.

Lemma exportStep_eq {P} (s : RunbookStepOf text P) :
  exportStep s = [units "### " ++ rs_title s ++ units " {" ++ join_with (units " ") (step_attrs s) ++ units "}"] ++ key_lines s ++
    match rs_lookup s with Some l => [] :: exportLookup l | None => [] end ++ pushed_text (rs_instructions s).
Proof. unfold exportStep, key_lines. rewrite <-!app_assoc. unfold option_lines, pushed_text. by destruct (rs_options s), (rs_instructions s). Qed.
