(* ===== verification/RunbookLookupText.v ===== *)
(** * The lookup block of an exported step reads back *)

From S2P Require Import Prelude JsText JsMap DisplayText DisplaySpec JsonText TextLines Runbook RunbookMarkdown RunbookYaml RunbookParse RunbookYamlSpec RunbookCanonical RunbookFront RunbookStepText.
Local Open Scope Z_scope.

(** ** The segments of a block *)
Definition filter_fields (flt : list (text * text)) : Fields :=
  (λ e, ((e.1, YStr e.2), [yamlKey e.1 ++ COLON :: SPACE :: yamlScalar e.2 false])) <$> flt.
Definition filter_seg (flt : list (text * text)) : Segment :=
  ("filter", match flt with
             | [] => None
             | _ => Some (YMap (field_entries (filter_fields flt)), (units "filter" ++ [COLON]) :: (two_spaces <$> field_lines (filter_fields flt)))
             end).

Definition lookup_segs (l : LookupTemplateOf text) : list Segment :=
  [word_seg "tool" (tool_name (lk_tool l)); filter_seg (lk_filter l); flow_seg "group_by" (lk_group_by l);
   opt_seg (scalar_seg "indicator") "indicator" (lk_indicator l); scalar_seg "window" (lk_window l);
   word_seg "limit" (decimal (lk_limit l)); word_seg "run" (run_name (lk_run l))].

Definition lookup_lines (l : LookupTemplateOf text) : list text := field_lines (seg_fields (lookup_segs l)).

(** A lookup in its canonical form: its filter in the object's own order, its texts trimmed. *)
Record LookupClean (l : LookupTemplateOf text) : Prop := {
  lc_order : entries (lk_filter l) = lk_filter l;
  lc_keys : NoDup (lk_filter l).*1;
  lc_indicator : opt (λ v, text_trim v = v ∧ v ≠ []) (lk_indicator l);
  lc_window : text_trim (lk_window l) = lk_window l;
}.

Section lookup.
Context `{UpperCase}.

Lemma normalised_lookup l : normalise_lookup l = l → LookupClean l.
Proof.
  intros Hn. assert (Hf := f_equal lk_filter Hn). assert (Hi := f_equal lk_indicator Hn). assert (Hw := f_equal lk_window Hn).
  cbn [normalise_lookup lk_filter lk_indicator lk_window] in *. split.
  - rewrite <-Hf. apply entries_idem.
  - rewrite <-Hf. unfold fromEntries. rewrite entries_Permutation. apply set_all_NoDup.
  - destruct (lk_indicator l); [|done]. by apply cleanOptional_some in Hi.
  - rewrite <-Hw. unfold non_empty, cleanLine. destruct (text_trim (lk_window l)) as [|c t] eqn:E; [done|]. by apply (trim_cons_id (lk_window l)).
Qed.
End lookup.

Lemma exportLookup_lines l : LookupClean l → exportLookup l = units "```lookup" :: lookup_lines l ++ [FENCE].
Proof.
  intros Hl. unfold exportLookup, lookup_lines. rewrite seg_fields_lines, (lc_order _ Hl).
  rewrite bind_non_empty by (pose proof (lc_indicator _ Hl) as Hi; destruct (lk_indicator l); [by destruct Hi|done]).
  change "group_by: " with ("group_by" +:+ ": "). rewrite push_list_seg. unfold lookup_segs. rewrite !fmap_cons, fmap_nil. cbn [concat].
  rewrite (push_some_seg _ _ (scalar_seg "indicator") "indicator") by done. rewrite app_nil_r, <-!app_assoc.
  assert (Hf : seg_lines (filter_seg (lk_filter l)) = match lk_filter l with [] => [] | es => units "filter:" ::
    ((λ e, units "  " ++ yamlKey e.1 ++ units ": " ++ yamlScalar e.2 false) <$> es) end).
  { destruct (lk_filter l) as [|e es]; [done|]. unfold seg_lines, filter_seg. cbn [snd]. change (units "filter" ++ [COLON]) with (units "filter:"). f_equal.
    unfold field_lines, filter_fields. clear. induction (e :: es) as [|x xs IH]; [done|]. rewrite !fmap_cons. cbn [concat snd]. rewrite fmap_app, IH. done. }
  rewrite Hf. by destruct (lk_filter l).
Qed.

Lemma filter_fields_keys flt : (field_entries (filter_fields flt)).*1 = flt.*1.
Proof. unfold field_entries, filter_fields. induction flt as [|e flt IH]; [done|]. rewrite !fmap_cons. by f_equal. Qed.

(** The order of an object's keys does not look at the values. *)
Lemma isort_fmap {A B} (f : A → B) (leA : A → A → bool) (leB : B → B → bool) (l : list A) :
  (∀ x y, leB (f x) (f y) = leA x y) → isort leB (f <$> l) = f <$> isort leA l.
Proof.
  intros Hle. induction l as [|x l IH]; [done|]. rewrite fmap_cons. cbn [isort]. rewrite IH. generalize (isort leA l) as m. clear IH l.
  induction m as [|y m IH]; [done|]. rewrite fmap_cons. cbn [insert_le]. rewrite Hle. destruct (leA x y); [done|]. by rewrite IH.
Qed.

Lemma filter_fmap {A B} (f : A → B) (p : A → bool) (q : B → bool) l : (∀ x, q (f x) = p x) → List.filter q (f <$> l) = f <$> List.filter p l.
Proof. intros Hp. induction l as [|x l IH]; [done|]. rewrite fmap_cons. cbn [List.filter]. rewrite Hp. destruct (p x); [|done]. by rewrite fmap_cons, IH. Qed.

Lemma entries_fields flt : entries flt = flt → entries (field_entries (filter_fields flt)) = field_entries (filter_fields flt).
Proof.
  intros He. assert (Hf : field_entries (filter_fields flt) = (λ e, (e.1, YStr e.2)) <$> flt) by (unfold field_entries, filter_fields; by rewrite <-list_fmap_compose).
  rewrite Hf. rewrite <-He at 2. unfold entries.
  rewrite (filter_fmap _ (λ e, is_index e.1)), (filter_fmap _ (λ e, negb (is_index e.1))), (isort_fmap _ index_le) by done. by rewrite fmap_app.
Qed.

Section written.
Context (l : LookupTemplateOf text) (Hw : LookupWritable l) (Hc : LookupClean l).

Lemma filter_written : seg_written false (filter_seg (lk_filter l)).
Proof using Hw Hc.
  split; [done|]. unfold filter_seg. cbn [snd fst]. destruct (lk_filter l) as [|e es] eqn:E; [done|]. rewrite <-E.
  pose proof (lw_filter _ Hw) as Hf. apply Written_map.
  - by apply KeyText_plain.
  - done.
  - unfold fields_written, filter_fields. apply Forall_fmap. eapply Forall_impl; [exact Hf|]. intros [k v] (Hk & Hv & Hne & _ & Hb).
    cbn [compose fst snd] in *. by apply Written_scalar; [apply KeyText_yamlKey|done|].
  - by rewrite E.
  - apply Forall_fmap, Forall_forall. intros x _. by eexists.
  - rewrite filter_fields_keys. apply (lc_keys _ Hc).
  - rewrite filter_fields_keys. apply Forall_fmap. eapply Forall_impl; [exact Hf|]. by intros [k v] (_ & _ & _ & ? & _).
Qed.

Lemma lookup_written : Forall (seg_written false) (lookup_segs l).
Proof using Hw Hc.
  pose proof (lw_units _ Hw) as Hu. apply Forall_cons in Hu as [Hwin Hu]. apply Forall_app in Hu as [Hg Hi]. pose proof (lw_limit _ Hw) as Hlim.
  repeat (apply Forall_cons; split); [| | | | | | |by apply Forall_nil].
  - apply written_word_seg; [done|by destruct (lk_tool l)].
  - apply filter_written.
  - by apply written_flow_seg.
  - apply (opt_seg_written _ units_only); [done| | |done]; [destruct (lk_indicator l); [by apply Forall_inv in Hi|done]|]. intros. by apply written_scalar_seg.
  - by apply written_scalar_seg.
  - apply (decimal_seg_written false "limit"); [done|lia].
  - apply written_word_seg; [done|by destruct (lk_run l)].
Qed.

Lemma lookup_keys : fst <$> lookup_segs l = LOOKUP_KEYS.
Proof using. clear. unfold lookup_segs. rewrite !fmap_cons, fmap_nil. by destruct (lk_indicator l). Qed.

Lemma lookup_parses number : parseYaml (join_with [LF] (lookup_lines l)) number = Good (field_entries (seg_fields (lookup_segs l))) ∧
  entries (field_entries (seg_fields (lookup_segs l))) = field_entries (seg_fields (lookup_segs l)).
Proof using Hw Hc.
  destruct (known_keys_fields _ _ lookup_keys eq_refl) as (Hn & Hp & He). split; [|done].
  apply parseYaml_fields; [by apply segs_written, lookup_written|done|done|done].
Qed.

(** ** What the entries mean *)
Context (path owner : text) (sink : Collector).

Lemma filter_read flt out : Forall (λ k, k ≠ PROTO) flt.*1 → NoDup (out.*1 ++ flt.*1) →
  each_in (filter_value (path ++ units ".filter") owner) (field_entries (filter_fields flt)) out sink = (out ++ flt, sink).
Proof using.
  clear. revert out. induction flt as [|[k v] flt IH]; intros out Hp Hn; [by rewrite app_nil_r|]. rewrite fmap_cons in Hp, Hn. cbn [fst] in Hp, Hn.
  apply Forall_cons in Hp as [Hk Hp]. unfold filter_fields, field_entries. rewrite !fmap_cons.
  rewrite (each_in_cons_quiet _ _ _ _ (out ++ [(k, v)])).
  - change ((fst <$> ?x)) with (field_entries x). fold (filter_fields flt). rewrite IH; [by rewrite <-app_assoc|done|]. by rewrite fmap_app, <-app_assoc.
  - unfold filter_value. cbn [fst snd]. rewrite bool_decide_false by done. rewrite jm_set_new; [done|].
    apply NoDup_app in Hn as (_ & Hn & _). intros Hin. by apply (Hn k Hin); left.
Qed.

Lemma lookup_read : fatal sink = false → ∃ data,
  each_in (lookup_entry path owner) (field_entries (seg_fields (lookup_segs l))) (mkLookupData None None None None None None None) sink = (data, sink) ∧
  ld_tool data = Some (Some (lk_tool l)) ∧ lookup_of (lk_tool l) data = l.
Proof using Hw Hc.
  intros _. pose proof (lw_limit _ Hw) as Hlim. pose proof (lc_indicator _ Hc) as Hind. pose proof (lc_window _ Hc) as Hwin.
  pose proof (lc_keys _ Hc) as Hk. pose proof (lw_filter _ Hw) as Hf.
  assert (Hp : Forall (λ k, k ≠ PROTO) (lk_filter l).*1) by (apply Forall_fmap; eapply Forall_impl; [exact Hf|]; by intros [k v] (_ & _ & _ & ? & _)).
  destruct l as [tool flt group ind window limit run]. cbn [lk_tool lk_filter lk_group_by lk_indicator lk_window lk_limit lk_run] in *.
  unfold lookup_segs. cbn [lk_tool lk_filter lk_group_by lk_indicator lk_window lk_limit lk_run].
  pose (some_list (A : Type) (x : list A) := match x with [] => None | _ => Some x end).
  exists (mkLookupData (Some (Some tool)) (some_list _ flt) (some_list _ group) ind (Some window) (Some limit) (Some run)). split.
  - seg (mkLookupData (Some (Some tool)) None None None None None None); [by destruct tool|].
    seg (mkLookupData (Some (Some tool)) (some_list _ flt) None None None None None).
    { unfold filter_seg. cbn [snd fst]. destruct flt as [|e es] eqn:E; [done|]. rewrite <-E in *.
      transitivity ((flt' ← each_in (filter_value (path ++ units ".filter") owner) (entries (field_entries (filter_fields flt))) [];
        mret (mkLookupData (Some (Some tool)) (Some flt') None None None None None)) sink); [reflexivity|].
      rewrite entries_fields by apply (lc_order _ Hc). unfold mbind, Parse_bind. by rewrite filter_read, E. }
    seg (mkLookupData (Some (Some tool)) (some_list _ flt) (some_list _ group) None None None None); [by destruct group|].
    seg (mkLookupData (Some (Some tool)) (some_list _ flt) (some_list _ group) ind None None None).
    { destruct ind as [v|]; [|done]. destruct Hind as [Ht Hne].
      transitivity ((t ← asText (Some (YStr v)) (path ++ units ".indicator") (owner ++ units " lookup indicator");
        mret (match non_empty (text_trim t) with Some t => mkLookupData (Some (Some tool)) (some_list _ flt) (some_list _ group) (Some t) None None None
              | None => mkLookupData (Some (Some tool)) (some_list _ flt) (some_list _ group) None None None None end)) sink); [reflexivity|].
      unfold mbind, Parse_bind, asText, mret, Parse_ret. rewrite Ht. by destruct v. }
    seg (mkLookupData (Some (Some tool)) (some_list _ flt) (some_list _ group) ind (Some window) None None).
    { transitivity (mkLookupData (Some (Some tool)) (some_list _ flt) (some_list _ group) ind (Some (text_trim window)) None None, sink); [reflexivity|]. by rewrite Hwin. }
    seg (mkLookupData (Some (Some tool)) (some_list _ flt) (some_list _ group) ind (Some window) (Some limit) None).
    { transitivity ((n ← asInt (Some (YStr (decimal limit))) (path ++ units ".limit") (owner ++ units " lookup limit");
        match n with
        | Some n => if (n <? 1) || (limitMax <? n) then fail (path ++ units ".limit") (owner ++ units " lookup limit must be between 1 and 50.");;
              mret (mkLookupData (Some (Some tool)) (some_list _ flt) (some_list _ group) ind (Some window) None None)
            else mret (mkLookupData (Some (Some tool)) (some_list _ flt) (some_list _ group) ind (Some window) (Some n) None)
        | None => mret (mkLookupData (Some (Some tool)) (some_list _ flt) (some_list _ group) ind (Some window) None None)
        end) sink); [reflexivity|].
      unfold mbind, Parse_bind at 1. rewrite asInt_decimal by (unfold limitMax in *; lia).
      by rewrite (proj2 (Z.ltb_ge limit 1)), (proj2 (Z.ltb_ge limitMax limit)) by lia. }
    seg (mkLookupData (Some (Some tool)) (some_list _ flt) (some_list _ group) ind (Some window) (Some limit) (Some run)); [by destruct run|done].
  - split; [done|]. unfold lookup_of, some_list. cbn. by destruct flt, group, ind.
Qed.

Lemma lookupFrom_export number : fatal sink = false →
  lookupFrom (join_with [LF] (lookup_lines l)) path owner number sink = (Some l, sink).
Proof using Hw Hc.
  intros Hs. destruct (lookup_parses number) as [Hy He]. unfold lookupFrom. rewrite Hy. unfold mbind, Parse_bind at 1. rewrite He.
  destruct (lookup_read Hs) as (data & -> & Ht & Hl). rewrite Ht. unfold Parse_bind, is_fatal, mret, Parse_ret. rewrite Hs. cbn. by rewrite Hl.
Qed.
End written.
