(* ===== verification/RunbookBodyText.v ===== *)
(** * A whole step of an exported runbook reads back *)

From S2P Require Import Prelude JsText JsMap DisplayText DisplaySpec JsonText TextLines Runbook RunbookMarkdown RunbookYaml RunbookParse RunbookYamlSpec RunbookCanonical RunbookFront RunbookStepText RunbookKeyText RunbookLookupText.
Local Open Scope Z_scope.

(** ** The lines of a lookup block *)
Definition block_start (line : text) : Prop := plain_start line ∨ ∃ l, line = two_spaces l ∧ plain_start l.

Lemma block_start_trim line : block_start line → ∃ c r, text_trim line = c :: r ∧ c ≠ 96.
Proof.
  assert (H : ∀ l, plain_start l → ∃ c r, text_trim l = c :: r ∧ c ≠ 96).
  { intros l (c & r & -> & Hs & _ & _ & H9). rewrite trim_cons_plain by done. by eexists _, _. }
  intros [Hl|(l & -> & Hl)]; [by apply H|]. rewrite trim_two. by apply H.
Qed.

Lemma seg_block_start k v ls : KEY_RE (units k) = true → Forall block_start ls →
  Forall block_start (seg_lines (k, Some (v, (units k ++ [COLON]) :: ls))).
Proof. intros Hk Hl. constructor; [|done]. left. apply (KeyText_start _ (units k)). by apply KeyText_plain. Qed.

Lemma lookup_block_start l : LookupWritable l → LookupClean l → Forall block_start (lookup_lines l).
Proof.
  intros Hw Hc. unfold lookup_lines. rewrite seg_fields_lines.
  assert (H1 : ∀ k r, KEY_RE (units k) = true → Forall block_start [units k ++ r]).
  { intros k r Hk. constructor; [|constructor]. left. apply (KeyText_start _ (units k)). by apply KeyText_plain. }
  unfold lookup_segs. rewrite !fmap_cons, fmap_nil. cbn [concat]. rewrite !Forall_app. split_and!; [by apply H1| |..].
  - unfold filter_seg. destruct (lk_filter l) as [|e es] eqn:E; [constructor|]. rewrite <-E. apply seg_block_start; [done|].
    apply Forall_fmap. unfold field_lines, filter_fields. pose proof (lw_filter _ Hw) as Hf. clear E.
    induction Hf as [|[k v] flt (Hk & Hv & Hne & _ & Hb) _ IH]; [constructor|]. rewrite fmap_cons. rewrite fmap_cons. cbn [concat snd fst app].
    constructor; [|exact IH]. right. eexists. split; [done|]. apply (KeyText_start _ k). by apply KeyText_yamlKey.
  - destruct (lk_group_by l); [constructor|by apply H1].
  - destruct (lk_indicator l); [by apply H1|constructor].
  - by apply H1.
  - by apply H1.
  - by apply H1.
  - constructor.
Qed.

(** ** Lines that stay inside a step *)
Lemma inner_lines_app fence a b : inner_lines fence (a ++ b) = inner_lines fence a ≫= λ f, inner_lines f b.
Proof. revert fence. induction a as [|l a IH]; intros fence; [done|]. cbn [app inner_lines]. destruct (inner_line fence l) as [f|]; [apply IH|done]. Qed.

Lemma opening_fence_plain c r : trim_space c = false → c ≠ 96 → c ≠ 126 → opening_fence (c :: r) = None.
Proof.
  intros Hs Ht Hw. unfold opening_fence. rewrite trimStart_plain by done.
  change (starts_with FENCE (c :: r)) with ((96 =? c) && starts_with [96; 96] r). change (starts_with (units "~~~") (c :: r)) with ((126 =? c) && starts_with [126; 126] r).
  by rewrite (proj2 (Z.eqb_neq 96 c)), (proj2 (Z.eqb_neq 126 c)), andb_false_r by congruence.
Qed.

Lemma inner_plain c r : trim_space c = false → c ≠ HASH → c ≠ 96 → c ≠ 126 → inner_line None (c :: r) = Some None.
Proof.
  intros Hs Hh Ht Hw. unfold inner_line. rewrite opening_fence_plain by done.
  unfold is_phase_line, is_step_line. change (starts_with (units "## ") (c :: r)) with ((HASH =? c) && starts_with [HASH; SPACE] r).
  change (starts_with (units "### ") (c :: r)) with ((HASH =? c) && starts_with [HASH; HASH; SPACE] r). rewrite (proj2 (Z.eqb_neq HASH c)) by congruence.
  cbn [andb orb]. rewrite trimEnd_cons_plain by done. rewrite bool_decide_false; [done|]. intros E. injection E as -> _. done.
Qed.

Lemma inner_all_plain ls : Forall (λ l, ∃ c r, l = c :: r ∧ trim_space c = false ∧ c ≠ HASH ∧ c ≠ 96 ∧ c ≠ 126) ls → inner_lines None ls = Some None.
Proof.
  induction 1 as [|l ls (c & r & -> & ? & ? & ? & ?) _ IH]; [done|]. cbn [inner_lines]. rewrite inner_plain by done. exact IH.
Qed.

Lemma inner_block ls : Forall block_start ls → inner_lines (Some FENCE) ls = Some (Some FENCE).
Proof.
  induction 1 as [|l ls (c & r & Ht & Hc)%block_start_trim _ IH]; [done|]. cbn [inner_lines]. unfold inner_line at 1. rewrite Ht.
  change (starts_with FENCE (c :: r)) with ((96 =? c) && starts_with [96; 96] r). rewrite (proj2 (Z.eqb_neq 96 c)) by congruence.
  rewrite bool_decide_false by (intros E; injection E as -> _; done). exact IH.
Qed.

(** The lines after the heading, and the blank line before the next heading *)
Definition lookup_part {P} (s : RunbookStepOf text P) : list text := match rs_lookup s with Some l => [] :: exportLookup l | None => [] end.
Definition text_part {P} (s : RunbookStepOf text P) : list text := match rs_instructions s with [] => [] | t => [] :: split_on LF t end.
Definition body_lines {P} (s : RunbookStepOf text P) : list text := key_lines s ++ lookup_part s ++ text_part s.

Section body.
Context `{UpperCase} {P : Type} (s : RunbookStepOf text P) (Hw : StepWritable s) (Hn : normalise_step s = s).

Lemma clean_lookup l : rs_lookup s = Some l → LookupWritable l ∧ LookupClean l.
Proof using Hw Hn.
  intros E. pose proof (sw_lookup _ Hw) as Hl. rewrite E in Hl. split; [exact Hl|]. assert (Hf := f_equal rs_lookup Hn).
  cbn [normalise_step rs_lookup] in Hf. rewrite E in Hf. apply normalised_lookup. by injection Hf.
Qed.

Lemma step_roles : Forall (λ t : text, t ≠ []) (option_list (rs_owner_role s) ++ option_list (rs_approval_role s) ++ option_list (rs_react s) ++ option_list (rs_d3fend s)).
Proof using Hn.
  assert (Ho := f_equal rs_owner_role Hn). assert (Ha := f_equal rs_approval_role Hn). assert (Hr := f_equal rs_react Hn). assert (Hd := f_equal rs_d3fend Hn).
  cbn [normalise_step rs_owner_role rs_approval_role rs_react rs_d3fend] in Ho, Ha, Hr, Hd. apply clean_opt in Ho, Ha, Hr, Hd.
  rewrite !Forall_app. split_and!; match goal with H : opt _ ?o |- Forall _ (option_list ?o) => destruct o; [destruct H; by repeat constructor|constructor] end.
Qed.

Lemma instructions_form : block_form (rs_instructions s).
Proof using Hn. assert (Hf := f_equal rs_instructions Hn). cbn [normalise_step rs_instructions] in Hf. rewrite <-Hf. apply cleanBlock_form. Qed.

Lemma text_part_lines : text_part s = [] ∧ rs_instructions s = [] ∨
  ∃ ls, block_lines ls ∧ rs_instructions s = join_with [LF] ls ∧ split_on LF (rs_instructions s) = ls ∧ text_part s = [] :: ls.
Proof using Hn.
  unfold text_part. destruct instructions_form as [E|(ls & Hls & E)]; [left; by rewrite E|]. right. exists ls.
  assert (Hne : ls ≠ []) by (destruct Hls as (_ & (l & r & -> & _) & _); done).
  assert (Hs : split_on LF (rs_instructions s) = ls) by (rewrite E; apply split_on_lines; [done|by destruct Hls]).
  split_and!; [done|done|done|]. rewrite <-Hs. destruct (rs_instructions s) as [|c t] eqn:Et; [|done].
  exfalso. destruct Hls as (_ & (l & r & El & Hb) & _). rewrite <-Hs in El. by injection El as <- _.
Qed.

Lemma key_line_starts : Forall (λ l, ∃ c r, l = c :: r ∧ trim_space c = false ∧ c ≠ HASH ∧ c ≠ 96 ∧ c ≠ 126) (key_lines s).
Proof using.
  clear. unfold key_lines. rewrite !Forall_app.
  assert (Hk : ∀ k o, Forall (λ l, ∃ c r, l = c :: r ∧ trim_space c = false ∧ c ≠ HASH ∧ c ≠ 96 ∧ c ≠ 126) (key_text k o)).
  { intros k o. unfold key_text. destruct (o ≫= non_empty) as [v|]; [|constructor]. constructor; [|constructor]. destruct k; by eexists _, _. }
  split_and!; [apply Hk..|]. unfold option_lines. destruct (rs_options s) as [|o os]; [constructor|]. constructor; [by eexists _, _|].
  apply Forall_fmap, Forall_forall. intros x _. by eexists _, _.
Qed.

(** The scanner of the document takes the lines of a step as one step. *)
Lemma body_inside : inner_lines None (body_lines s) = Some None.
Proof using Hw Hn.
  unfold body_lines. rewrite inner_lines_app, (inner_all_plain _ key_line_starts). cbn [mbind option_bind]. rewrite inner_lines_app.
  assert (Hl : inner_lines None (lookup_part s) = Some None).
  { unfold lookup_part. destruct (rs_lookup s) as [l|] eqn:El; [|done]. destruct (clean_lookup l El) as [Hlw Hlc]. rewrite exportLookup_lines by done.
    cbn [inner_lines]. change (inner_line None []) with (Some (@None text)). cbn [mbind option_bind].
    change (inner_line None (units "```lookup")) with (Some (Some FENCE)). cbn [mbind option_bind].
    rewrite inner_lines_app, inner_block by by apply lookup_block_start. reflexivity. }
  rewrite Hl. cbn [mbind option_bind]. destruct text_part_lines as [[-> _]|(ls & _ & _ & Hs & ->)]; [done|].
  cbn [inner_lines]. change (inner_line None []) with (Some (@None text)). cbn [mbind option_bind]. rewrite <-Hs. apply (iw_inside _ _ (sw_instructions _ Hw)).
Qed.

(** ** The end of the key lines *)
Definition tail_lines : list text := lookup_part s ++ text_part s ++ [[]].

Lemma drop_blank_snoc ls l r : drop_blank ls = l :: r → drop_blank (ls ++ [[]]) = l :: r ++ [[]].
Proof using. clear. induction ls as [|x ls IH]; [done|]. cbn. destruct (blank x); [done|]. by intros [= -> ->]. Qed.

Lemma tail_ends_keys : ends_keys tail_lines.
Proof using Hw Hn.
  unfold tail_lines, lookup_part. destruct (rs_lookup s) as [l|] eqn:El.
  - destruct (clean_lookup l El) as [_ Hc]. rewrite exportLookup_lines by done. split; [done|]. vm_compute. done.
  - cbn [app]. destruct text_part_lines as [[-> _]|(ls & Hls & Et & Hs & ->)]; [done|]. split; [done|]. unfold no_key.
    rewrite <-app_comm_cons. change (drop_blank ([] :: ?x)) with (drop_blank x).
    pose proof (iw_first _ _ (sw_instructions _ Hw)) as Hf. rewrite El in Hf. specialize (Hf eq_refl). unfold leadingKeyLine in Hf. rewrite Hs in Hf.
    destruct Hls as (_ & (l0 & ls0 & El0 & Hb) & _). rewrite El0 in *. rewrite drop_blank_id in Hf by done.
    rewrite (drop_blank_snoc _ l0 ls0) by by apply drop_blank_id. by destruct (keyLine l0).
Qed.

(** ** The lookup block and the instructions *)
Lemma numbered_app n a b : numbered n (a ++ b) = numbered n a ++ numbered (n + Z.of_nat (length a)) b.
Proof using. clear. unfold numbered. rewrite imap_app. f_equal. apply imap_ext. intros i x _. unfold compose. f_equal. lia. Qed.

Lemma numbered_cons n l ls : numbered n (l :: ls) = (n, l) :: numbered (n + 1) ls.
Proof using. clear. unfold numbered. rewrite imap_cons. f_equal; [f_equal; lia|]. apply imap_ext. intros i x _. unfold compose. f_equal. lia. Qed.

Context (path owner : text) (sink : Collector).

Lemma body_plain n ls instr lookup start : Forall (λ l, lookup_fence l = None) ls →
  each_in (body_line path owner) (numbered n ls) (mkBody instr lookup start None) sink = (mkBody (instr ++ ls) lookup start None, sink).
Proof using.
  clear. intros Hl. revert n instr. induction Hl as [|l ls Hl _ IH]; intros n instr; [by rewrite app_nil_r|]. rewrite numbered_cons.
  rewrite (each_in_cons_quiet _ _ _ _ (mkBody (instr ++ [l]) lookup start None)); [by rewrite IH, <-app_assoc|]. unfold body_line. cbn [snd]. by rewrite Hl.
Qed.

Lemma body_block n ls instr lookup start fence b : Forall (λ l, text_trim l ≠ fence) ls →
  each_in (body_line path owner) (numbered n ls) (mkBody instr lookup start (Some (fence, b))) sink = (mkBody instr lookup start (Some (fence, b ++ ls)), sink).
Proof using.
  clear. intros Hl. revert n b. induction Hl as [|l ls Hl _ IH]; intros n b; [by rewrite app_nil_r|]. rewrite numbered_cons.
  rewrite (each_in_cons_quiet _ _ _ _ (mkBody instr lookup start (Some (fence, b ++ [l])))); [by rewrite IH, <-app_assoc|]. unfold body_line. cbn [snd].
  by rewrite bool_decide_false.
Qed.

Lemma text_part_plain : Forall (λ l, lookup_fence l = None) (text_part s ++ [[]]).
Proof using Hw Hn.
  apply Forall_app. split; [|by repeat constructor]. destruct text_part_lines as [[-> _]|(ls & _ & _ & Hs & ->)]; [constructor|].
  constructor; [done|]. rewrite <-Hs. apply (iw_lookup _ _ (sw_instructions _ Hw)).
Qed.

(** What the lines after the key lines read as. *)
Lemma tail_read n : ∃ start instr,
  each_in (body_line path owner) (numbered n tail_lines) (mkBody [] None 0 None) sink =
    (mkBody instr (lookup_lines <$> rs_lookup s) start None, sink) ∧
  cleanBlock (join_with [LF] instr) = rs_instructions s.
Proof using Hw Hn.
  assert (Hb : ∀ pre, Forall (λ l, l = []) pre → cleanBlock (join_with [LF] (pre ++ text_part s ++ [[]])) = rs_instructions s).
  { intros pre Hpre. assert (Hpo : Forall on_line pre ∧ Forall (λ l, blank l = true) pre) by (split; eapply Forall_impl; try exact Hpre; intros l ->; [apply on_line_nil|done]).
    destruct Hpo as [Hp1 Hp2]. destruct text_part_lines as [[-> ->]|(ls & Hls & -> & _ & ->)].
    - apply cleanBlock_blank; apply Forall_app; split; try done; repeat constructor; apply not_elem_of_nil.
    - change (([] :: ls) ++ [[]]) with ([[]] ++ ls ++ [[]] : list text). rewrite app_assoc.
      apply cleanBlock_lines; [done|rewrite !Forall_app..]; split_and!; try done; repeat constructor; apply not_elem_of_nil. }
  pose proof text_part_plain as Hp. unfold tail_lines, lookup_part. destruct (rs_lookup s) as [l|] eqn:El; cbn [fmap option_fmap option_map].
  - destruct (clean_lookup l El) as [Hlw Hlc]. rewrite exportLookup_lines by done. cbn [app]. rewrite <-app_assoc. cbn [app].
    exists (n + 1 + 1), ([[]] ++ text_part s ++ [[]]). split; [|by apply Hb; repeat constructor].
    rewrite numbered_cons, (each_in_cons_quiet _ _ _ _ (mkBody [[]] None 0 None)) by done.
    rewrite numbered_cons, (each_in_cons_quiet _ _ _ _ (mkBody [[]] None (n + 1 + 1) (Some (FENCE, [])))) by done. rewrite numbered_app.
    eapply each_chunk; [apply body_block; eapply Forall_impl; [by apply lookup_block_start|]|].
    { intros x (c & r & -> & Hc)%block_start_trim E. injection E as -> _. done. }
    rewrite numbered_cons, (each_in_cons_quiet _ _ _ _ (mkBody [[]] (Some (lookup_lines l)) (n + 1 + 1) None)) by done. by apply body_plain.
  - exists 0, (text_part s ++ [[]]). split; [by apply (body_plain n _ [])|exact (Hb [] ltac:(constructor))].
Qed.
End body.

(** A step with another phase *)
Definition with_phase {P Q} (s : RunbookStepOf text P) (p : Q) : RunbookStepOf text Q :=
  mkRunbookStep (rs_id s) p (rs_kind s) (rs_title s) (rs_instructions s) (rs_focus s) (rs_escalate_if s) (rs_benign_if s) (rs_required s)
    (rs_evidence s) (rs_owner_role s) (rs_approval_role s) (rs_target_minutes s) (rs_lookup s) (rs_options s) (rs_react s) (rs_d3fend s).

Definition step_heading {P} (s : RunbookStepOf text P) : text := rs_title s ++ units " {" ++ join_with (units " ") (step_attrs s) ++ units "}".

Lemma bind_ok {A B} (m : Parse A) (f : A → Parse B) sink a sink' : m sink = (a, sink') → (m ≫= f) sink = f a sink'.
Proof. intros E. unfold mbind, Parse_bind. by rewrite E. Qed.

(** A step's heading and lines parse to the step, under whatever phase they stand. *)
Lemma parseStep_export `{UpperCase} {P Q} (s : RunbookStepOf text P) (p : Q) index start sink :
  StepWritable s → normalise_step s = s → fatal sink = false →
  parseStep (text_trim (step_heading s)) (body_lines s ++ [[]]) p index start sink = (with_phase s p, sink).
Proof.
  intros Hw Hn Hs. assert (Ht := f_equal rs_title Hn). cbn [normalise_step rs_title] in Ht. unfold cleanLine in Ht.
  pose proof (step_roles s Hn) as Hroles.
  pose proof (step_attrs_tokens s Hw Hroles) as Htok. unfold parseStep, step_heading.
  rewrite splitHeading_export by first [done|by apply attrs_no_brace].
  rewrite attributes_join by (eapply Forall_impl; [exact Htok|]; by intros t []).
  set (path := units "steps[" ++ _). set (owner := step_owner _ _).
  rewrite (bind_ok _ _ _ _ _ (attrs_read s Hw Hroles path owner sink)). rewrite (bind_ok _ _ sink () sink).
  2:{ unfold check_attrs. rewrite bool_decide_true by by eexists. cbn [negb sa_hasId read_attrs sa_id orb sa_hasKind].
      assert (Hi := f_equal rs_id Hn). rewrite (trimmed_nonempty_not_blank (rs_id s)); [done|exact Hi|apply (sw_id _ Hw)]. }
  unfold body_lines. rewrite <-!app_assoc.
  destruct (keys_read path owner sink s start (tail_lines s) Hw Hn (tail_ends_keys s Hw Hn)) as (n & seen & E).
  rewrite (bind_ok _ _ _ _ _ E). cbv iota beta.
  destruct (tail_read s Hw Hn path owner sink n) as (ls & instr & Eb & Ei). rewrite (bind_ok _ _ _ _ _ Eb).
  rewrite (bind_ok _ _ sink (mkBody instr (lookup_lines <$> rs_lookup s) ls None) sink) by done. cbn [sb_lookup sb_instructions sb_lookup_start].
  rewrite (bind_ok _ _ sink (rs_lookup s) sink).
  - by rewrite Ei.
  - destruct (rs_lookup s) as [l|] eqn:El; [|done]. destruct (clean_lookup s Hw Hn l El) as [Hlw Hlc]. by apply lookupFrom_export.
Qed.
