(* ===== verification/RunbookMarkdownSpec.v ===== *)
(** * An exported runbook reads back as its canonical form *)

From S2P Require Import Prelude JsText JsMap DisplayText DisplaySpec JsonText TextLines Runbook RunbookMarkdown RunbookYaml RunbookParse RunbookYamlSpec RunbookCanonical RunbookFront RunbookStepText RunbookKeyText RunbookLookupText RunbookBodyText.
Local Open Scope Z_scope.

(** ** The lines of a step hold no line break *)
Lemma no_space_on_line t : Forall (λ c, trim_space c = false) t → on_line t.
Proof. intros Ht. apply on_line_Forall. eapply Forall_impl; [exact Ht|]. intros c Hc. split; intros ->; done. Qed.

Lemma attrValue_on_line v : units_only v → on_line (attrValue v).
Proof.
  intros Hv. destruct (attrValue_cases v Hv) as [(_ & Hp & ->)|(b & -> & Hb & _)]; [|by apply quoted_on_line].
  apply no_space_on_line. eapply Forall_impl; [exact Hp|]. by intros c [? _].
Qed.

Lemma attr_lines k (vs : list text) : bool_decide (LF ∉ units k ∧ CR ∉ units k) = true → Forall (λ t, units_only t ∧ no_brace t) vs →
  Forall on_line ((λ v, units k ++ EQUALS :: attrValue v) <$> vs).
Proof.
  intros Hk Hv. apply Forall_fmap. eapply Forall_impl; [exact Hv|]. intros v [Hu _]. unfold compose. rewrite on_line_app, on_line_cons.
  split_and!; [by apply units_on_line|done|done|by apply attrValue_on_line].
Qed.

Section lines.
Context `{UpperCase} {P : Type} (s : RunbookStepOf text P) (Hw : StepWritable s) (Hn : normalise_step s = s).

Lemma step_attrs_on_line : Forall on_line (step_attrs s).
Proof using Hw Hn.
  rewrite (step_attrs_eq s Hw (step_roles s Hn)). pose proof (sw_roles _ Hw) as Hr. rewrite !Forall_app in Hr. destruct Hr as (Hr1 & Hr2 & Hr3 & Hr4).
  assert (Hu : ∀ k v, on_line (units k) → units_only v → on_line (units k ++ EQUALS :: attrValue v)).
  { intros k v Hk Hv. rewrite on_line_app, on_line_cons. split_and!; [done|done|done|by apply attrValue_on_line]. }
  rewrite !Forall_app. split_and!; try (by apply attr_lines).
  - constructor; [|constructor; [|constructor]]; [|apply Hu; [on_line_units|apply units_units_only]].
    rewrite on_line_cons. split; [done|]. apply no_space_on_line, Forall_forall. intros c Hc%list_elem_of_In. pose proof (proj2 (sw_id _ Hw)) as Hid.
    rewrite forallb_forall in Hid. apply Hid in Hc. unfold id_char in Hc. rewrite !andb_true_iff, negb_true_iff in Hc. tauto.
  - destruct (rs_required s); [constructor|]. constructor; [on_line_units|constructor].
  - destruct (decide _); [constructor|]. constructor; [|constructor]. apply Hu; [on_line_units|apply units_units_only].
  - pose proof (sw_target _ Hw) as Ht. destruct (rs_target_minutes s) as [m|]; [|constructor]. constructor; [|constructor].
    destruct (target_attr m Ht) as (_ & Hm & _). apply Hu; [on_line_units|done].
Qed.

Lemma heading_on_line : on_line (step_heading s).
Proof using Hw Hn.
  unfold step_heading. rewrite !on_line_app. split_and!; [apply (sw_title _ Hw)|on_line_units| |on_line_units].
  apply join_on_line; [on_line_units|apply step_attrs_on_line].
Qed.

Lemma option_on_line o : OptionWritable o → on_line (option_text o).
Proof using.
  clear. intros [[_ Hid] [Hl _] Hm]. unfold option_text. rewrite !on_line_app. split_and!; [on_line_units| |on_line_units|done|].
  - apply no_space_on_line. eapply Forall_impl; [exact Hid|]. by intros c [? _].
  - destruct (do_marks o) as [|m ms]; [apply on_line_nil|]. rewrite !on_line_app. split; [on_line_units|].
    apply join_on_line; [on_line_units|]. eapply Forall_impl; [exact Hm|]. by intros x [? _].
Qed.

Lemma key_lines_on_line : Forall on_line (key_lines s).
Proof using Hw Hn.
  pose proof (sw_lines _ Hw) as Hl. rewrite !Forall_app in Hl. destruct Hl as (Hf & He & Hb). unfold key_lines. rewrite !Forall_app.
  assert (Hk : ∀ k o, Forall on_line (option_list o) → Forall on_line (key_text k o)).
  { intros k o Ho. unfold key_text. destruct o as [[|c v]|]; [constructor| |constructor]. apply Forall_inv in Ho. constructor; [|constructor].
    apply on_line_app. split; [destruct k; on_line_units|]. apply on_line_cons. split; [done|]. by apply on_line_cons. }
  split_and!; [by apply Hk..|]. unfold option_lines. destruct (rs_options s) as [|o os] eqn:E; [constructor|]. rewrite <-E. constructor; [on_line_units|].
  apply Forall_fmap. eapply Forall_impl; [exact (sw_options _ Hw)|]. apply option_on_line.
Qed.

Lemma body_on_line : Forall on_line (body_lines s).
Proof using Hw Hn.
  unfold body_lines. rewrite !Forall_app. split_and!; [apply key_lines_on_line| |].
  - unfold lookup_part. destruct (rs_lookup s) as [l|] eqn:El; [|constructor]. destruct (clean_lookup s Hw Hn l El) as [Hlw Hlc].
    rewrite exportLookup_lines by done. constructor; [apply on_line_nil|]. constructor; [on_line_units|]. apply Forall_app. split; [|by repeat constructor; on_line_units].
    apply (fields_on_line false). by apply segs_written, lookup_written.
  - destruct (text_part_lines s Hn) as [[-> _]|(ls & Hls & _ & _ & ->)]; [constructor|]. constructor; [apply on_line_nil|]. by destruct Hls.
Qed.
End lines.

(** ** The scanner of the document *)

(** A state that, at the next heading or the end, gives these phases and steps. *)
Definition ready (b : BodyState) (phases : list PhaseKey) (steps : list (RunbookStepOf text PhaseKey)) (phase : option PhaseKey) (sink : Collector) : Prop :=
  bs_fence b = None ∧ ∃ start, flush b sink = (mkBodyState phases steps phase None [] start None, sink).

Section scan.
Context `{UpperCase} (sink : Collector) (Hs : fatal sink = false).

Lemma scan_inner n line b h fence : bs_heading b = Some h → inner_line (bs_fence b) line = Some fence →
  body_step b (n, line) sink = (mkBodyState (bs_phases b) (bs_steps b) (bs_phase b) (Some h) (bs_lines b ++ [line]) (bs_start b) fence, sink).
Proof using.
  clear. intros Hh Hi. unfold inner_line in Hi. unfold body_step. destruct b as [phases steps phase heading lines start f].
  cbn [bs_phases bs_steps bs_phase bs_heading bs_lines bs_start bs_fence] in *. subst heading. destruct f as [f|].
  - by injection Hi as <-.
  - destruct (opening_fence line) as [g|]; [by injection Hi as <-|]. destruct (is_phase_line line); [done|]. destruct (is_step_line line); [done|]. by injection Hi as <-.
Qed.

Lemma scan_lines n ls b h fence : bs_heading b = Some h → inner_lines (bs_fence b) ls = Some fence →
  each_in body_step (numbered n ls) b sink = (mkBodyState (bs_phases b) (bs_steps b) (bs_phase b) (Some h) (bs_lines b ++ ls) (bs_start b) fence, sink).
Proof using.
  clear. revert n b. induction ls as [|l ls IH]; intros n b Hh Hi.
  - injection Hi as <-. destruct b; cbn in *. subst. by rewrite app_nil_r.
  - cbn [inner_lines] in Hi. destruct (inner_line (bs_fence b) l) as [f|] eqn:El; [|done]. cbn [mbind option_bind] in Hi.
    rewrite numbered_cons, (each_in_cons_quiet _ _ _ _ _ _ (scan_inner n l b h f Hh El)). rewrite IH by done. cbn. by rewrite <-app_assoc.
Qed.

(** The lines from the heading of a step to the blank line before the next heading *)
Definition step_chunk (s : MdStep) : list text := (units "### " ++ step_heading s) :: body_lines s ++ [[]].
Definition phase_chunk (steps : list MdStep) (p : PhaseId) : list text :=
  (units "## " ++ phase_label p) :: [] :: concat (step_chunk <$> filter (λ s, rs_phase s = p) steps).

Lemma scan_step n s b phases steps p : StepWritable s → normalise_step s = s → ready b phases steps (Some p) sink →
  ∃ b', each_in body_step (numbered n (step_chunk s)) b sink = (b', sink) ∧ ready b' phases (steps ++ [with_phase s p]) (Some p) sink.
Proof using Hs.
  intros Hw Hn [Hf [start Hb]]. unfold step_chunk. rewrite numbered_cons.
  assert (E : body_step b (n, units "### " ++ step_heading s) sink =
    (mkBodyState phases steps (Some p) (Some (text_trim (step_heading s))) [] (n + 1) None, sink)).
  { unfold body_step. rewrite Hf. change (opening_fence (units "### " ++ step_heading s)) with (opening_fence (HASH :: drop 1 (units "### ") ++ step_heading s)). rewrite opening_fence_plain by done.
    assert (Hp : is_phase_line (units "### " ++ step_heading s) = false).
    { unfold is_phase_line. rewrite bool_decide_false; [reflexivity|].
      change (units "### " ++ step_heading s) with (HASH :: HASH :: HASH :: SPACE :: step_heading s). by rewrite !trimEnd_cons_plain by done. }
    rewrite Hp.
    change (is_step_line (units "### " ++ step_heading s)) with true. cbv iota. unfold step_line. by rewrite (bind_ok _ _ _ _ _ Hb). }
  rewrite (each_in_cons_quiet _ _ _ _ _ _ E).
  assert (Hi : inner_lines None (body_lines s ++ [[]]) = Some None) by (by rewrite inner_lines_app, body_inside).
  rewrite (scan_lines _ _ _ (text_trim (step_heading s)) None) by done. eexists. split; [done|]. split; [done|]. eexists.
  unfold flush. cbn [bs_heading bs_phase bs_lines bs_steps bs_start app]. by rewrite (bind_ok _ _ _ _ _ (parseStep_export s p _ _ sink Hw Hn Hs)).
Qed.

Lemma scan_steps n ss b phases steps p : Forall (λ s, StepWritable s ∧ normalise_step s = s) ss → ready b phases steps (Some p) sink →
  ∃ b', each_in body_step (numbered n (concat (step_chunk <$> ss))) b sink = (b', sink) ∧
    ready b' phases (steps ++ ((λ s, with_phase s p) <$> ss)) (Some p) sink.
Proof using Hs.
  intros Hss. revert n b steps. induction Hss as [|s ss [Hw Hn] _ IH]; intros n b steps Hb; [exists b; by rewrite app_nil_r|].
  rewrite fmap_cons. cbn [concat]. rewrite numbered_app. destruct (scan_step n s b phases steps p Hw Hn Hb) as (b1 & E1 & H1).
  destruct (IH (n + Z.of_nat (length (step_chunk s))) b1 _ H1) as (b2 & E2 & H2). exists b2. split; [by eapply each_chunk|].
  by rewrite fmap_cons, cons_middle, app_assoc.
Qed.

Lemma PHASE_BY_LABEL_label p : PHASE_BY_LABEL (lower_unit <$> phase_label p) = Some (APhase p).
Proof using. clear. by destruct p. Qed.

Lemma scan_phase n all p b phases steps phase : Forall (λ s, StepWritable s ∧ normalise_step s = s) all → APhase p ∉ phases → ready b phases steps phase sink →
  ∃ b', each_in body_step (numbered n (phase_chunk all p)) b sink = (b', sink) ∧
    ready b' (phases ++ [APhase p]) (steps ++ ((λ s, with_phase s (APhase p)) <$> filter (λ s, rs_phase s = p) all)) (Some (APhase p)) sink.
Proof using Hs.
  intros Hall Hp [Hf [start Hb]]. unfold phase_chunk. rewrite !numbered_cons.
  assert (E : body_step b (n, units "## " ++ phase_label p) sink = (mkBodyState (phases ++ [APhase p]) steps (Some (APhase p)) None [] start None, sink)).
  { unfold body_step. rewrite Hf. change (opening_fence (units "## " ++ phase_label p)) with (opening_fence (HASH :: drop 1 (units "## ") ++ phase_label p)). rewrite opening_fence_plain by done.
    change (is_phase_line (units "## " ++ phase_label p)) with true. cbv iota. unfold phase_line. rewrite (bind_ok _ _ _ _ _ Hb).
    replace (text_trim (drop 2 (units "## " ++ phase_label p))) with (phase_label p) by by destruct p. rewrite PHASE_BY_LABEL_label. cbn [bs_phases].
    by rewrite bool_decide_false. }
  rewrite (each_in_cons_quiet _ _ _ _ _ _ E). set (b1 := mkBodyState _ _ _ _ _ _ _).
  rewrite (each_in_cons_quiet _ _ _ _ b1 sink) by done.
  apply scan_steps.
  { rewrite Forall_forall in *. intros s Hin. apply list_elem_of_filter in Hin as [_ Hin]. by apply Hall. }
  split; [done|]. by exists start.
Qed.

Lemma scan_phases n all ps b phases steps phase : Forall (λ s, StepWritable s ∧ normalise_step s = s) all →
  NoDup (phases ++ (APhase <$> ps)) → ready b phases steps phase sink →
  ∃ b' phase', each_in body_step (numbered n (concat (phase_chunk all <$> ps))) b sink = (b', sink) ∧
    ready b' (phases ++ (APhase <$> ps)) (steps ++ (ps ≫= λ p, (λ s, with_phase s (APhase p)) <$> filter (λ s, rs_phase s = p) all)) phase' sink.
Proof using Hs.
  intros Hall. revert n b phases steps phase. induction ps as [|p ps IH]; intros n b phases steps phase Hn Hb; [exists b, phase; by rewrite !app_nil_r|].
  rewrite fmap_cons. cbn [concat]. rewrite numbered_app. rewrite fmap_cons in Hn.
  assert (Hp : APhase p ∉ phases) by (apply NoDup_app in Hn as (_ & Hd & _); intros Hin; by apply (Hd _ Hin); left).
  destruct (scan_phase n all p b phases steps phase Hall Hp Hb) as (b1 & E1 & H1).
  edestruct (IH (n + Z.of_nat (length (phase_chunk all p))) b1) as (b2 & phase' & E2 & H2); [|exact H1|].
  { by rewrite <-app_assoc. }
  exists b2, phase'. split; [by eapply each_chunk|]. rewrite <-!app_assoc in H2. rewrite fmap_cons. exact H2.
Qed.
End scan.

(** ** The lines of the document *)
Section document.
Context `{UpperCase} (d : MdDefinition) (version : option Z).

(** The phases of a document: the listed ones, then those its steps use. *)
Definition all_phases : list PhaseId := js_set (rd_phases d ++ (rs_phase <$> rd_steps d)).

Definition flat_step (s : MdStep) : list text := (units "### " ++ step_heading s) :: body_lines s.
Definition flat_phase (p : PhaseId) : list text :=
  (units "## " ++ phase_label p) :: concat ((λ s, [] :: flat_step s) <$> filter (λ s, rs_phase s = p) (rd_steps d)).
Definition flat_lines : list text := front_matter d version ++ concat ((λ p, [] :: flat_phase p) <$> all_phases).

(** What can be written: the header, and every step. *)
Record Writable : Prop := {
  w_front : FrontWritable d version;
  w_steps : Forall StepWritable (rd_steps d);
}.

Context (Hw : Writable) (Hd : normaliseDefinition d = d).

Lemma steps_canonical : Forall (λ s, StepWritable s ∧ normalise_step s = s) (rd_steps d).
Proof using Hw Hd.
  assert (Hs := f_equal rd_steps Hd). cbn [normaliseDefinition rd_steps] in Hs. apply fmap_fixed in Hs.
  pose proof (w_steps Hw) as Hst. rewrite Forall_forall in *. intros s Hin. by split; [apply Hst|apply Hs].
Qed.

Lemma phase_steps p : Forall (λ s, StepWritable s ∧ normalise_step s = s) (filter (λ s, rs_phase s = p) (rd_steps d)).
Proof using Hw Hd.
  pose proof steps_canonical as Hs. rewrite Forall_forall in *. intros s Hin. apply list_elem_of_filter in Hin as [_ Hin]. by apply Hs.
Qed.

Lemma front_eq : front_matter d version = DASHES :: field_lines (seg_fields (front_segs d version)) ++ [DASHES].
Proof using Hw Hd.
  apply front_matter_segs; [apply (w_front Hw)|]. assert (Ho := f_equal rd_owner Hd). cbn [normaliseDefinition rd_owner] in Ho.
  apply clean_opt in Ho. destruct (rd_owner d); [by destruct Ho|done].
Qed.

Lemma front_on_line : Forall on_line (field_lines (seg_fields (front_segs d version))).
Proof using Hw. apply (fields_on_line false), segs_written, front_segs_written, (w_front Hw). Qed.

Lemma Forall_concat {A B} (Q : B → Prop) (f : A → list B) (R : A → Prop) l : Forall R l → (∀ a, R a → Forall Q (f a)) → Forall Q (concat (f <$> l)).
Proof using. clear. intros Hl Hf. induction Hl as [|a l Ha _ IH]; [constructor|]. rewrite fmap_cons. cbn [concat]. apply Forall_app. split; [by apply Hf|done]. Qed.

Lemma flat_on_line : Forall on_line flat_lines.
Proof using Hw Hd.
  unfold flat_lines. rewrite front_eq, Forall_app, Forall_cons, Forall_app. split_and!; [on_line_units|apply front_on_line|by repeat constructor; on_line_units|].
  apply (Forall_concat _ _ (λ _, True)); [by apply Forall_forall|]. intros p _. constructor; [apply on_line_nil|]. constructor; [apply on_line_app; split; [on_line_units|destruct p; on_line_units]|].
  eapply Forall_concat; [apply phase_steps|]. intros s [Hsw Hsn]. constructor; [apply on_line_nil|]. constructor; [|by apply body_on_line].
  apply on_line_app. split; [on_line_units|by apply heading_on_line].
Qed.

(** ** The pushed pieces are these lines *)
Lemma step_pieces s : StepWritable s → normalise_step s = s → concat (split_on LF <$> exportStep s) = flat_step s.
Proof using.
  clear. intros Hsw Hsn. rewrite exportStep_eq. unfold flat_step, body_lines.
  assert (Ht : concat (split_on LF <$> pushed_text (rs_instructions s)) = text_part s).
  { unfold text_part, pushed_text. destruct (rs_instructions s) as [|c t]; [done|]. cbn [fmap list_fmap concat]. by rewrite app_nil_r. }
  assert (Hl : Forall on_line (lookup_part s)) by (pose proof (body_on_line s Hsw Hsn) as Hb; unfold body_lines in Hb; rewrite !Forall_app in Hb; tauto).
  assert (Hone : ∀ ls, Forall on_line ls → concat (split_on LF <$> ls) = ls).
  { intros ls Hls. apply concat_split_ones. eapply Forall_impl; [exact Hls|]. by intros l [? _]. }
  rewrite !fmap_app, !concat_app, Ht. change (match rs_lookup s with Some l => [] :: exportLookup l | None => [] end) with (lookup_part s).
  rewrite (Hone (key_lines s)), (Hone (lookup_part s)) by (done || by apply key_lines_on_line). rewrite Hone; [done|].
  constructor; [|constructor]. change (on_line (units "### " ++ step_heading s)). apply on_line_app. split; [on_line_units|by apply heading_on_line].
Qed.

Lemma concat_fmap_ext {A B C} (g : B → list C) (f : A → list B) (h : A → list C) l :
  Forall (λ a, concat (g <$> f a) = h a) l → concat (g <$> concat (f <$> l)) = concat (h <$> l).
Proof using. clear. induction 1 as [|a l Ha _ IH]; [done|]. rewrite !fmap_cons. cbn [concat]. by rewrite fmap_app, concat_app, Ha, IH. Qed.

Lemma export_pieces : concat (split_on LF <$> export_lines d version) = flat_lines.
Proof using Hw Hd.
  unfold export_lines, flat_lines. rewrite fmap_app, concat_app. f_equal.
  - apply concat_split_ones. pose proof flat_on_line as Hf. unfold flat_lines in Hf. apply Forall_app in Hf as [Hf _]. eapply Forall_impl; [exact Hf|]. by intros l [? _].
  - fold all_phases. apply concat_fmap_ext, Forall_forall. intros p _. unfold phase_lines. rewrite fmap_app, concat_app.
    replace (concat (split_on LF <$> [[]; units "## " ++ phase_label p])) with ([[]; units "## " ++ phase_label p]) by by destruct p.
    cbn [app]. unfold flat_phase. do 2 f_equal. apply concat_fmap_ext. eapply Forall_impl; [apply phase_steps|]. intros s [Hsw Hsn]. cbv beta. unfold step_lines. rewrite fmap_cons. cbn [concat].
    by rewrite step_pieces.
Qed.

(** ** The last line *)
Definition full_end (ls : list text) : Prop := ∃ l, last ls = Some l ∧ l ≠ [].

Lemma full_end_app a b : full_end a → (b = [] ∨ full_end b) → full_end (a ++ b).
Proof using.
  clear. intros (l & Hl & Hne) [->|(m & Hm & Hnm)]; [rewrite app_nil_r; by exists l|]. exists m. by rewrite last_app, Hm.
Qed.

Lemma full_end_or a b : a = [] ∨ full_end a → b = [] ∨ full_end b → a ++ b = [] ∨ full_end (a ++ b).
Proof using. clear. intros [->|Ha] Hb; [done|]. right. by apply full_end_app. Qed.

Lemma full_end_concat {A} (f : A → list text) l : Forall (λ a, full_end (f a)) l → concat (f <$> l) = [] ∨ full_end (concat (f <$> l)).
Proof using. clear. induction 1 as [|a l Ha _ IH]; [by left|]. right. rewrite fmap_cons. cbn [concat]. by apply full_end_app. Qed.

Lemma full_end_all ls : Forall (λ l, l ≠ []) ls → ls = [] ∨ full_end ls.
Proof using.
  clear. intros Hl. destruct (decide (ls = [])) as [->|Hne]; [by left|]. right. destruct (last ls) as [l|] eqn:E; [|by apply last_None in E].
  exists l. split; [done|]. apply last_Some_elem_of in E. rewrite Forall_forall in Hl. by apply Hl.
Qed.

Lemma flat_step_full s : StepWritable s → normalise_step s = s → full_end (flat_step s).
Proof using.
  clear. intros Hsw Hsn. unfold flat_step, body_lines. change (?h :: ?r) with ([h] ++ r). apply full_end_app; [by eexists|].
  assert (Hk : key_lines s = [] ∨ full_end (key_lines s)).
  { apply full_end_all. eapply Forall_impl; [apply key_line_starts|]. by intros l (c & r & -> & _). }
  assert (Hl : lookup_part s = [] ∨ full_end (lookup_part s)).
  { unfold lookup_part. destruct (rs_lookup s) as [l|] eqn:El; [|by left]. destruct (clean_lookup s Hsw Hsn l El) as [_ Hlc]. rewrite exportLookup_lines by done.
    right. exists FENCE. split; [|done]. rewrite !app_comm_cons. apply last_snoc. }
  assert (Ht : text_part s = [] ∨ full_end (text_part s)).
  { destruct (text_part_lines s Hsn) as [[-> _]|(ls & (_ & _ & init & l & -> & Hb & _) & _ & _ & ->)]; [by left|]. right. exists l.
    rewrite app_comm_cons, last_snoc. split; [done|]. by intros ->. }
  apply full_end_or; [done|]. by apply full_end_or.
Qed.

Lemma flat_full : full_end flat_lines.
Proof using Hw Hd.
  unfold flat_lines. apply full_end_app.
  - rewrite front_eq. exists DASHES. rewrite app_comm_cons, last_snoc. done.
  - apply full_end_concat, Forall_forall. intros p _. unfold flat_phase. change ([] :: ?h :: ?r) with ([[]; h] ++ r).
    apply full_end_app; [by eexists|]. apply full_end_concat. eapply Forall_impl; [apply phase_steps|]. intros s [Hsw Hsn].
    destruct (flat_step_full s Hsw Hsn) as (l & Hl & Hne). exists l. split; [|done]. by rewrite last_cons, Hl.
Qed.

(** The text of the document, and its lines *)
Lemma join_pieces sep L : L ≠ [] → join_with [sep] L = join_with [sep] (concat (split_on sep <$> L)).
Proof using. clear. intros HL. rewrite <-(join_split sep (join_with [sep] L)). by rewrite split_join. Qed.

Lemma drop_newlines_id t : last t ≠ Some LF → drop_newlines t = t.
Proof using.
  clear. intros Ht. unfold drop_newlines. rewrite <-(reverse_involutive t) in Ht. rewrite last_reverse in Ht.
  assert (Hr : skip_while (λ c, c =? LF) (reverse t) = reverse t).
  { destruct (reverse t) as [|c r]; [done|]. cbn in *. by rewrite (proj2 (Z.eqb_neq c LF)) by congruence. }
  by rewrite Hr, reverse_involutive.
Qed.

Lemma last_join ls l : last ls = Some l → l ≠ [] → last (join_with [LF] ls) = last l.
Proof using.
  clear. induction ls as [|x [|y ls] IH]; intros Hl Hne; [done|by injection Hl as ->|]. rewrite join_with_cons by done.
  rewrite !last_app. rewrite IH by done. destruct (last l) eqn:E; [done|by apply last_None in E].
Qed.

Lemma export_text : exportRunbookMarkdown d version = join_with [LF] (flat_lines ++ [[]]).
Proof using Hw Hd.
  unfold exportRunbookMarkdown. rewrite Hd, join_pieces, export_pieces by done. destruct flat_full as (l & Hl & Hne).
  rewrite drop_newlines_id.
  - rewrite join_with_app; [done| |done]. intros E. by rewrite E in Hl.
  - rewrite (last_join _ l) by done. pose proof flat_on_line as Hf. rewrite Forall_forall in Hf. apply last_Some_elem_of in Hl. apply Hf in Hl as [Hlf _].
    by intros E%last_Some_elem_of.
Qed.

(** [---] ends the header: no line of it is [---]. *)
Lemma to_dashes_at ls rest : Forall (λ l, text_trimEnd l ≠ DASHES) ls → to_dashes (ls ++ DASHES :: rest) = Some (ls, rest).
Proof using. clear. intros Hl. induction Hl as [|l ls Hl _ IH]; [reflexivity|]. cbn [app to_dashes]. by rewrite bool_decide_false, IH. Qed.

Lemma trimEnd_prefix t : ∃ r, t = text_trimEnd t ++ r.
Proof using.
  clear. induction t as [|c t [r IH]] using rev_ind; [by exists []|]. rewrite trimEnd_snoc. destruct (trim_space c); [|by exists []; rewrite app_nil_r].
  exists (r ++ [c]). by rewrite app_assoc, <-IH.
Qed.

Lemma field_not_dashes nested fs : fields_written nested fs → Forall (λ l, text_trimEnd l ≠ DASHES) (field_lines fs).
Proof using.
  clear. assert (Hp : ∀ l, plain_start l → text_trimEnd l ≠ DASHES).
  { intros l (c & r & -> & _ & _ & Hd & _) E. destruct (trimEnd_prefix (c :: r)) as [r' E']. rewrite E in E'. by injection E' as ->. }
  assert (Hu : ∀ l, under l = true → text_trimEnd l ≠ DASHES).
  { intros l Hl E. destruct (trimEnd_prefix l) as [r E']. rewrite E in E'. rewrite E' in Hl. unfold under in Hl.
    change (DASHES ++ r) with (45 :: 45 :: 45 :: r) in Hl. by rewrite blank_plain in Hl. }
  induction 1 as [|[[k v] ls] fs Hf _ IH]; [constructor|]. unfold field_lines. rewrite fmap_cons. cbn [concat]. apply Forall_app. split; [|exact IH].
  cbn [fst snd] in *. destruct Hf as [raw k s v Hk _ _ _ _|raw k ls v Hk _ Hun _ _]; (constructor; [by eapply Hp, KeyText_start|]); [constructor|].
  eapply Forall_impl; [exact Hun|exact Hu].
Qed.

(** The blank line before each heading belongs to what stands before it. *)
Lemma shift_blank {A} (f : A → list text) l : concat ((λ a, [] :: f a) <$> l) ++ [[]] = [] :: concat ((λ a, f a ++ [[]]) <$> l).
Proof using. clear. induction l as [|a l IH]; [done|]. rewrite !fmap_cons. cbn [concat]. rewrite <-app_assoc, IH, <-!app_assoc. done. Qed.

Lemma flat_chunks : concat ((λ p, [] :: flat_phase p) <$> all_phases) ++ [[]] = [] :: concat (phase_chunk (rd_steps d) <$> all_phases).
Proof using.
  clear. rewrite shift_blank. do 2 f_equal. apply list_fmap_ext. intros _ p _. unfold flat_phase, phase_chunk. rewrite <-app_comm_cons. f_equal.
  by rewrite shift_blank.
Qed.

(** ** The round trip *)

(** The document as the reader gives it: its phases the members of the label table, its steps under their phases. *)
Definition as_read : RunbookDefinitionOf text PhaseKey :=
  mkDefinition (rd_id d) (rd_title d) (rd_summary d) (rd_use_when d) (rd_prerequisites d) (rd_applies_when d) (rd_priority d) (rd_mitre d)
    (APhase <$> all_phases) (all_phases ≫= λ p, (λ s, with_phase s (APhase p)) <$> filter (λ s, rs_phase s = p) (rd_steps d))
    (rd_retrieval_queries d) (rd_owner d) (rd_review_every_days d) (rd_references d).

Lemma front_trimmed : Trimmed d.
Proof using Hd.
  assert (Ho := f_equal rd_owner Hd). cbn [normaliseDefinition rd_owner] in Ho. apply clean_opt in Ho.
  split; [|exact Ho].
  assert (H1 := f_equal rd_id Hd). assert (H2 := f_equal rd_title Hd). assert (H3 := f_equal rd_summary Hd). assert (H4 := f_equal rd_use_when Hd).
  assert (H5 := f_equal rd_prerequisites Hd). cbn [normaliseDefinition rd_id rd_title rd_summary rd_use_when rd_prerequisites] in *. unfold cleanLine in *.
  repeat (apply Forall_cons; split); try done; [rewrite <-H4|rewrite <-H5]; apply trim_idem.
Qed.

Lemma body_read start : ∃ b, parse_body (join_with [LF] ([] :: concat (phase_chunk (rd_steps d) <$> all_phases))) start no_problems = (b, no_problems) ∧
  with_body (bs_phases b) (bs_steps b) (header d) = as_read.
Proof using Hw Hd.
  unfold parse_body. rewrite split_on_lines; [|done|].
  2:{ pose proof flat_on_line as Hf. unfold flat_lines in Hf. apply Forall_app in Hf as [_ Hf]. rewrite <-flat_chunks. apply Forall_app. split; [exact Hf|].
      by repeat constructor; apply not_elem_of_nil. }
  set (b0 := mkBodyState _ _ _ _ _ _ _). rewrite numbered_cons.
  assert (E0 : each_in body_step ((start, []) :: numbered (start + 1) (concat (phase_chunk (rd_steps d) <$> all_phases))) b0 no_problems =
    each_in body_step (numbered (start + 1) (concat (phase_chunk (rd_steps d) <$> all_phases))) b0 no_problems) by by apply each_in_cons_quiet.
  destruct (scan_phases no_problems eq_refl (start + 1) (rd_steps d) all_phases b0 [] [] None steps_canonical) as (b & phase & E & _ & start' & Ef).
  - cbn [app]. apply NoDup_fmap_2; [by intros p q [=]|apply NoDup_js_set].
  - split; [done|]. by exists 0.
  - rewrite (bind_ok _ _ _ _ _ (eq_trans E0 E)), Ef. eexists. split; [done|]. done.
Qed.

Lemma parse_export_canonical toLocaleString : utf8Bytes (exportRunbookMarkdown d version) ≤ sourceBytes →
  parseRunbookMarkdown toLocaleString (exportRunbookMarkdown d version) = mkParsed (Some as_read) version [].
Proof using Hw Hd.
  intros Hsize. unfold parseRunbookMarkdown. rewrite (proj2 (Z.ltb_ge _ _)) by done. clear Hsize. rewrite export_text.
  assert (Hl : Forall on_line (flat_lines ++ [[]])) by (apply Forall_app; split; [apply flat_on_line|by repeat constructor; apply not_elem_of_nil]).
  assert (E : flat_lines ++ [[]] = (DASHES :: field_lines (seg_fields (front_segs d version)) ++ [DASHES]) ++ [] :: concat (phase_chunk (rd_steps d) <$> all_phases)).
  { unfold flat_lines. rewrite front_eq, <-app_assoc. f_equal. apply flat_chunks. }
  rewrite E in Hl |- *.
  assert (Hf : splitFrontMatter (join_with [LF] ((DASHES :: field_lines (seg_fields (front_segs d version)) ++ [DASHES]) ++ [] :: concat (phase_chunk (rd_steps d) <$> all_phases))) =
    Some (join_with [LF] (field_lines (seg_fields (front_segs d version))), join_with [LF] ([] :: concat (phase_chunk (rd_steps d) <$> all_phases)),
      Z.of_nat (length (field_lines (seg_fields (front_segs d version)))) + 3)).
  { unfold splitFrontMatter. match goal with |- context [skip_while ?p (join_with ?sep (?a ++ ?b))] => replace (skip_while p (join_with sep (a ++ b))) with (join_with sep (a ++ b)) end.
    2:{ rewrite <-!app_comm_cons, join_with_cons; [reflexivity|]. by destruct (field_lines _). }
    rewrite crlf_id by by apply on_lines_no_cr. rewrite split_on_lines by (done || by destruct (field_lines _)).
    rewrite <-app_comm_cons, <-app_assoc. cbn [app]. rewrite bool_decide_true by done.
    rewrite to_dashes_at by (by eapply field_not_dashes, segs_written, front_segs_written, (w_front Hw)). done. }
  rewrite Hf. destruct (front_parses d version (w_front Hw)) as [-> _]. rewrite (parse_meta_front d version no_problems (w_front Hw) front_trimmed).
  destruct (body_read (Z.of_nat (length (field_lines (seg_fields (front_segs d version)))) + 3)) as (b & -> & Hb). cbn [fatal no_problems]. by rewrite Hb.
Qed.
End document.

(** C20. A runbook exported to Markdown reads back: whatever the definition, when its canonical form can be written (its
    texts stay on their lines, its instructions inside their steps) and the text is within the size limit, the parser
    reports no problem and gives the canonical form, with its phases in the order of the export and each step under its phase,
    and the version. *)
Theorem parse_export `{UpperCase} toLocaleString (d : MdDefinition) version :
  Writable (normaliseDefinition d) version → utf8Bytes (exportRunbookMarkdown d version) ≤ sourceBytes →
  parseRunbookMarkdown toLocaleString (exportRunbookMarkdown d version) = mkParsed (Some (as_read (normaliseDefinition d))) version [].
Proof.
  intros Hw Hs. pose proof (normaliseDefinition_twice d) as Hd.
  assert (E : exportRunbookMarkdown d version = exportRunbookMarkdown (normaliseDefinition d) version) by (unfold exportRunbookMarkdown; by rewrite Hd).
  rewrite E in Hs |- *. by apply parse_export_canonical.
Qed.
