(* ===== verification/RunbookParseSpec.v ===== *)
(** * What the Markdown reader guarantees: a refused source comes with a reason, an accepted one is valid

    The collector only grows. [Reports m] says so of one parser; [Gives Q m] says what its result is when
    nothing fatal was found. *)

From S2P Require Import Prelude JsText JsMap DisplayText DisplaySpec JsonText TextLines Runbook RunbookMarkdown RunbookYaml RunbookParse RunbookCanonical RunbookFront.
Local Open Scope Z_scope.

(** ** The collector *)
Record sound (s : Collector) : Prop := {
  so_bound : (length (issues s) ≤ MAX_ISSUES)%nat;
  so_fatal : fatal s = true → issues s ≠ [];
}.

Definition grows (s s' : Collector) : Prop := issues s `prefix_of` issues s' ∧ (fatal s = true → fatal s' = true).

#[export] Instance grows_preorder : PreOrder grows.
Proof.
  split; [by intros s|]. intros a b c [H1 H2] [H3 H4]. split; [by etransitivity|auto].
Qed.

Definition Reports {A} (m : Parse A) : Prop := ∀ s, sound s → sound (m s).2 ∧ grows s (m s).2.
Definition Gives {A} (Q : A → Prop) (m : Parse A) : Prop := ∀ s, sound s → fatal (m s).2 = false → Q (m s).1.

Create HintDb parse.

Lemma Reports_ret {A} (a : A) : Reports (mret a).
Proof. intros s Hs. by split. Qed.

Lemma Reports_bind {A B} (m : Parse A) (f : A → Parse B) : Reports m → (∀ a, Reports (f a)) → Reports (m ≫= f).
Proof.
  intros Hm Hf s Hs. unfold mbind, Parse_bind. destruct (Hm s Hs) as [H1 H2]. destruct (m s) as [a s']. cbn in *.
  destruct (Hf a s' H1) as [H3 H4]. split; [done|]. by etransitivity.
Qed.

Lemma Reports_add path code message b : Reports (add path code message b).
Proof.
  intros s [Hl Hf]. unfold add. cbn [snd]. destruct (Nat.ltb_spec (length (issues s)) MAX_ISSUES) as [Hlt|Hge].
  - split; [split; cbn [issues fatal]|split; cbn [issues fatal]].
    + rewrite length_app. cbn [length]. lia.
    + intros _ E. by destruct (issues s).
    + by exists [mkIssue path code message].
    + intros ->. done.
  - split; [split; cbn [issues fatal]; [done|]|split; cbn [issues fatal]; [done|by intros ->]].
    intros _ E. rewrite E in Hge. unfold MAX_ISSUES in Hge. cbn in Hge. lia.
Qed.

Lemma Reports_each {S A} (f : S → A → Parse S) l : (∀ st a, Reports (f st a)) → ∀ st, Reports (each_in f l st).
Proof. intros Hf. induction l as [|a l IH]; intros st; [apply Reports_ret|]. cbn [each_in]. by apply Reports_bind. Qed.

Lemma Reports_is_fatal : Reports is_fatal.
Proof. intros s Hs. by split. Qed.

#[export] Hint Resolve Reports_ret Reports_add Reports_is_fatal : parse.

Ltac reports :=
  unfold fail_if, fail; repeat first
    [ solve [eauto with parse]
    | apply Reports_bind; [|intros ?]
    | apply Reports_each; intros ? ?
    | case_match ];
  eauto with parse.

(** ** Every parser reports *)
Lemma Reports_fail path message : Reports (fail path message).
Proof. reports. Qed.
Lemma Reports_fail_if b path message : Reports (fail_if b path message).
Proof. reports. Qed.
#[export] Hint Resolve Reports_fail Reports_fail_if : parse.

Lemma Reports_asList v path what : Reports (asList v path what).
Proof. unfold asList. reports. Qed.
Lemma Reports_asInt v path what : Reports (asInt v path what).
Proof. unfold asInt. reports. Qed.
Lemma Reports_versionFrom v : Reports (versionFrom v).
Proof. unfold versionFrom. reports. Qed.
Lemma Reports_asBool v path what : Reports (asBool v path what).
Proof. unfold asBool. reports. Qed.
Lemma Reports_asText v path what : Reports (asText v path what).
Proof. unfold asText. reports. Qed.
Lemma Reports_closed values allowed path what : Reports (closed values allowed path what).
Proof. unfold closed. reports. Qed.
#[export] Hint Resolve Reports_asList Reports_asInt Reports_versionFrom Reports_asBool Reports_asText Reports_closed : parse.

Lemma Reports_applies out e : Reports (applies_entry out e).
Proof. unfold applies_entry. reports. Qed.
#[export] Hint Resolve Reports_applies : parse.
Lemma Reports_appliesWhenFrom raw : Reports (appliesWhenFrom raw).
Proof. unfold appliesWhenFrom. reports. Qed.
Lemma Reports_filter kpath owner flt e : Reports (filter_value kpath owner flt e).
Proof. unfold filter_value. reports. Qed.
#[export] Hint Resolve Reports_appliesWhenFrom Reports_filter : parse.
Lemma Reports_lookup_entry path owner data e : Reports (lookup_entry path owner data e).
Proof. unfold lookup_entry. reports. Qed.
#[export] Hint Resolve Reports_lookup_entry : parse.
Lemma Reports_lookupFrom t path owner start : Reports (lookupFrom t path owner start).
Proof. unfold lookupFrom. reports. Qed.
Lemma Reports_set_attribute path owner key val a : Reports (set_attribute path owner key val a).
Proof. unfold set_attribute. reports. Qed.
#[export] Hint Resolve Reports_lookupFrom Reports_set_attribute : parse.
Lemma Reports_attribute path owner a token : Reports (attribute path owner a token).
Proof. unfold attribute. reports. Qed.
Lemma Reports_option_entry path owner out line : Reports (option_entry path owner out line).
Proof. unfold option_entry. reports. Qed.
#[export] Hint Resolve Reports_attribute Reports_option_entry : parse.
Lemma Reports_key_line path owner number k val lines ks : Reports (key_line path owner number k val lines ks).
Proof. unfold key_line. reports. Qed.
#[export] Hint Resolve Reports_key_line : parse.
Lemma Reports_key_loop path owner lines : ∀ number skip ks, Reports (key_loop path owner number skip lines ks).
Proof. induction lines as [|l lines IH]; intros number skip ks; cbn [key_loop]; reports. Qed.
Lemma Reports_body_line path owner b line : Reports (body_line path owner b line).
Proof. unfold body_line. reports. Qed.
Lemma Reports_close_body path owner b : Reports (close_body path owner b).
Proof. unfold close_body. reports. Qed.
Lemma Reports_check_attrs path owner b a : Reports (check_attrs path owner b a).
Proof. unfold check_attrs. reports. Qed.
#[export] Hint Resolve Reports_key_loop Reports_body_line Reports_close_body Reports_check_attrs : parse.
Lemma Reports_parseStep {P} heading body (phase : P) index start : Reports (parseStep heading body phase index start).
Proof. unfold parseStep. reports. Qed.
#[export] Hint Resolve Reports_parseStep : parse.
Lemma Reports_meta_entry state e : Reports (meta_entry state e).
Proof. unfold meta_entry. reports. Qed.
Lemma Reports_flush b : Reports (flush b).
Proof. unfold flush. reports. Qed.
#[export] Hint Resolve Reports_meta_entry Reports_flush : parse.
Lemma Reports_phase_line number line b : Reports (phase_line number line b).
Proof. unfold phase_line. reports. Qed.
Lemma Reports_step_line number line b : Reports (step_line number line b).
Proof. unfold step_line. reports. Qed.
#[export] Hint Resolve Reports_phase_line Reports_step_line : parse.
Lemma Reports_body_step b nl : Reports (body_step b nl).
Proof. unfold body_step. reports. Qed.
#[export] Hint Resolve Reports_body_step : parse.
Lemma Reports_parse_body body start : Reports (parse_body body start).
Proof. unfold parse_body. reports. Qed.
Lemma Reports_parse_meta meta : Reports (parse_meta meta).
Proof. unfold parse_meta. reports. Qed.
#[export] Hint Resolve Reports_parse_body Reports_parse_meta : parse.

(** ** Results when nothing fatal was found *)
Lemma Gives_ret {A} (Q : A → Prop) a : Q a → Gives Q (mret a).
Proof. by intros Ha s _ _. Qed.

Lemma Gives_any {A} (m : Parse A) : Gives (λ _, True) m.
Proof. by intros s _ _. Qed.

Lemma Gives_impl {A} (P Q : A → Prop) m : Gives P m → (∀ a, P a → Q a) → Gives Q m.
Proof. intros Hm HPQ s Hs Hf. by apply HPQ, Hm. Qed.

Lemma not_fatal {A} (m : Parse A) s : Reports m → sound s → fatal (m s).2 = false → fatal s = false.
Proof. intros Hm Hs Hf. destruct (Hm s Hs) as [_ [_ Hg]]. destruct (fatal s); [|done]. by rewrite Hg in Hf. Qed.

Lemma Gives_bind {A B} (P : A → Prop) (Q : B → Prop) (m : Parse A) (f : A → Parse B) :
  Reports m → (∀ a, Reports (f a)) → Gives P m → (∀ a, P a → Gives Q (f a)) → Gives Q (m ≫= f).
Proof.
  intros Hm Hr HP HQ s Hs. unfold mbind, Parse_bind. destruct (Hm s Hs) as [H1 _]. specialize (HP s Hs). destruct (m s) as [a s']. cbn in *.
  intros Hf. apply HQ; [|done|done]. apply HP. by apply (not_fatal (f a)).
Qed.

Lemma Gives_then {A B} (Q : B → Prop) (m : Parse A) (f : A → Parse B) :
  Reports m → (∀ a, Reports (f a)) → (∀ a, Gives Q (f a)) → Gives Q (m ≫= f).
Proof. intros Hm Hr HQ. by apply (Gives_bind (λ _, True)); [..|apply Gives_any|]. Qed.

Lemma Gives_fail_if {A} (Q : A → Prop) b path message (k : unit → Parse A) :
  (∀ a, Reports (k a)) → (b = false → Gives Q (k ())) → Gives Q (fail_if b path message ≫= k).
Proof.
  intros Hr Hk. apply (Gives_bind (λ _, b = false)); [apply Reports_fail_if|done| |by intros []].
  intros s _. destruct b; [|done]. unfold fail_if, fail, add. cbn [snd]. case_match; cbn [fatal]; by rewrite orb_true_r.
Qed.

Lemma Gives_fail {A} (Q : A → Prop) path message (k : unit → Parse A) : (∀ a, Reports (k a)) → Gives Q (fail path message ≫= k).
Proof. intros Hr. by apply (Gives_fail_if Q true). Qed.

Lemma Gives_each {S A} (I : S → Prop) (f : S → A → Parse S) l :
  (∀ st a, Reports (f st a)) → (∀ st a, a ∈ l → I st → Gives I (f st a)) → ∀ st, I st → Gives I (each_in f l st).
Proof.
  intros Hr HI. induction l as [|a l IH]; intros st Hst; [by apply Gives_ret|]. cbn [each_in].
  apply (Gives_bind I); [done| | |].
  - intros st'. by apply Reports_each.
  - apply HI; [by left|done].
  - apply IH. intros. apply HI; [by right|done].
Qed.

(** The steps of a proof about one parser: a fatal problem ends it, a result is shown, anything else is gone
    through. *)
Ltac gives :=
  repeat first
    [ apply Gives_fail; [solve [intros ?; reports]]
    | apply Gives_fail_if; [solve [intros ?; reports]|intros ?]
    | apply Gives_ret
    | case_match
    | apply Gives_then; [solve [reports]|solve [intros ?; reports]|intros ?] ].

(** ** Header *)
Lemma closed_gives values allowed path what : Gives (words_of allowed) (closed values allowed path what).
Proof.
  unfold closed. apply Gives_each; [intros; reports| |constructor]. intros st a _ Hst. case_bool_decide; [|gives].
  apply Gives_ret, Forall_app. by split; [|apply Forall_singleton].
Qed.

Record ValidApplies (a : AppliesWhenOf text) : Prop := {
  va_entities : words_of ENTITY_TYPES (aw_entity_types a);
  va_severity : opt (λ s, s ∈ units <$> SEVERITY_LEVELS) (aw_severity_at_least a);
  va_verdicts : words_of VERDICTS (aw_verdicts a);
  va_count : opt (λ n, 1 ≤ n ≤ 1000000) (aw_min_event_count a);
}.

Lemma set_list_valid k l a : k ∈ ["rule_ids"; "mitre"; "sources"; "statuses"; "any_tags"] → ValidApplies a → ValidApplies (aw_set k l a).
Proof. intros Hk [? ? ? ?]. split; cbn; try done; by repeat (apply elem_of_cons in Hk as [->|Hk]; [done|]); apply elem_of_nil in Hk. Qed.

Lemma applies_entry_valid out e : ValidApplies out → Gives ValidApplies (applies_entry out e).
Proof.
  intros Hout. destruct e as [key v]. unfold applies_entry. repeat case_match; try (by gives).
  - apply Gives_then; [reports|intros; reports|intros l]. apply (Gives_bind (words_of ENTITY_TYPES)); [reports|intros; reports|apply closed_gives|].
    intros l' Hl. apply Gives_ret. by destruct Hout; split.
  - apply Gives_then; [reports|intros; reports|intros l]. apply (Gives_bind (words_of VERDICTS)); [reports|intros; reports|apply closed_gives|].
    intros l' Hl. apply Gives_ret. by destruct Hout; split.
  - apply Gives_then; [reports|intros; reports|intros t]. case_match; [by apply Gives_ret|].
    apply (Gives_bind (words_of SEVERITY_LEVELS)); [reports|intros; reports|apply closed_gives|]. intros l Hl. apply Gives_ret. destruct Hout. split; [done| |done|done].
    destruct Hl; done.
  - gives; try done. destruct Hout; split; try done. cbn. lia.
  - gives. by destruct Hout; split.
  - apply Gives_then; [reports|intros; reports|intros l]. apply Gives_ret. assert (H' : ∀ ks a, (∀ k, k ∈ ks → k ∈ ["rule_ids"; "mitre"; "sources"; "statuses"; "any_tags"]) → ValidApplies a →
      ValidApplies (foldl (λ out k, if bool_decide (key = units k) then aw_set k l out else out) a ks)).
    { induction ks as [|k ks IH]; intros a Hin Ha; [done|]. cbn [foldl]. apply IH; [intros; apply Hin; by right|]. destruct (bool_decide (key = units k)); [|done].
      apply set_list_valid; [apply Hin; by left|done]. }
    by apply H'.
Qed.

Lemma appliesWhenFrom_valid raw : Gives ValidApplies (appliesWhenFrom raw).
Proof.
  assert (H0 : ValidApplies emptyAppliesWhen) by (split; [constructor|done|constructor|done]).
  unfold appliesWhenFrom. destruct raw; [by apply Gives_ret|gives; done|gives; done|]. apply Gives_each; [intros; reports| |done]. intros st a _. apply applies_entry_valid.
Qed.

(** The header of a definition: its numbers in range, its rules from the closed vocabularies, its texts trimmed *)
Record ValidHead {P} (d : RunbookDefinitionOf text P) : Prop := {
  vh_texts : Forall (λ t, text_trim t = t) [rd_id d; rd_title d; rd_summary d; rd_use_when d; rd_prerequisites d];
  vh_owner : opt (λ t, text_trim t = t ∧ t ≠ []) (rd_owner d);
  vh_applies : ValidApplies (rd_applies_when d);
  vh_priority : 0 ≤ rd_priority d ≤ 100;
  vh_review : reviewMin ≤ rd_review_every_days d ≤ reviewMax;
}.
Definition ValidMeta (m : RunbookDefinitionOf text PhaseKey * option Z) : Prop := ValidHead m.1 ∧ opt (λ v, 1 ≤ v) m.2.

Lemma with_text_valid k t d : text_trim t = t → ValidHead d → ValidHead (with_text k t d).
Proof.
  intros Ht [Hx Ho Ha Hp Hr]. split; try done. cbn. repeat (apply Forall_cons in Hx as [? Hx]). repeat (constructor; [by case_bool_decide|]). constructor.
Qed.
Lemma with_list_valid k l d : ValidHead d → ValidHead (with_list k l d).
Proof. by intros [? ? ? ? ?]. Qed.

Lemma non_empty_trim t : opt (λ t, text_trim t = t ∧ t ≠ []) (non_empty (text_trim t)).
Proof. unfold non_empty. destruct (text_trim t) as [|c r] eqn:E; [done|]. split; [by apply (trim_cons_id t)|done]. Qed.

Lemma versionFrom_gives v : Gives (opt (λ v, 1 ≤ v)) (versionFrom v).
Proof. unfold versionFrom. gives; try done. cbn. lia. Qed.

Lemma meta_entry_valid state e : ValidMeta state → Gives ValidMeta (meta_entry state e).
Proof.
  intros [Hd Hv]. destruct e as [key v], state as [d version]. cbn [fst snd] in Hd, Hv. unfold meta_entry. repeat case_match; try (by gives).
  - apply Gives_then; [reports|intros; reports|intros t]. apply Gives_ret. split; [|done]. cbn [fst].
    destruct (List.find _ _); [|done]. apply with_text_valid; [apply trim_idem|done].
  - apply Gives_then; [reports|intros; reports|intros t]. apply Gives_ret. split; [|done]. destruct Hd; split; try done. apply non_empty_trim.
  - apply (Gives_bind (opt (λ v, 1 ≤ v))); [reports|intros; reports|apply versionFrom_gives|]. intros n Hn. by apply Gives_ret.
  - match goal with H : (_, _) = (_, _) |- _ => injection H as <- <- end. gives; try done. split; [|done]. destruct Hd; split; try done. cbn. lia.
  - match goal with H : (_, _) = (_, _) |- _ => injection H as <- <- end. gives; try done. split; [|done]. destruct Hd; split; try done. cbn. lia.
  - apply (Gives_bind ValidApplies); [reports|intros; reports|apply appliesWhenFrom_valid|]. intros a Ha. apply Gives_ret. split; [|done]. by destruct Hd; split.
  - apply Gives_then; [reports|intros; reports|intros l]. apply Gives_ret. split; [|done]. cbn [fst]. destruct (List.find _ _); [by apply with_list_valid|done].
Qed.

Lemma parse_meta_valid meta : Gives (λ m, ValidMeta m ∧ rd_id m.1 ≠ []) (parse_meta meta).
Proof.
  unfold parse_meta. apply (Gives_bind ValidMeta); [reports|intros; reports| |].
  - apply Gives_each; [intros; reports|intros; by apply meta_entry_valid|]. split; [|done]. split; [by repeat constructor|done| |done|done].
    split; [constructor|done|constructor|done].
  - intros [d version] Hm. apply Gives_fail_if; [intros; reports|]. intros Hid%bool_decide_eq_false. by apply Gives_ret.
Qed.

(** ** Steps *)
Record ValidOption (o : DecisionOptionOf text) : Prop := {
  vo_id : do_id o ≠ [] ∧ existsb trim_space (do_id o) = false;
  vo_label : text_trim (do_label o) = do_label o;
  vo_marks : Forall (λ m, text_trim m = m ∧ m ≠ []) (do_marks o);
}.

(** A step: it has an id, its times and limits are in range, its texts are canonical. *)
Record ValidStep {P} (s : RunbookStepOf text P) : Prop := {
  vs_id : blank (rs_id s) = false;
  vs_title : text_trim (rs_title s) = rs_title s;
  vs_instructions : cleanBlock (rs_instructions s) = rs_instructions s;
  vs_lines : Forall (λ t, text_trim t = t ∧ t ≠ []) (option_list (rs_focus s) ++ option_list (rs_escalate_if s) ++ option_list (rs_benign_if s));
  vs_target : opt (λ m, 1 ≤ m ≤ 10080) (rs_target_minutes s);
  vs_lookup : opt (λ l, 1 ≤ lk_limit l ≤ limitMax) (rs_lookup s);
  vs_options : Forall ValidOption (rs_options s);
}.

Lemma attribute_valid path owner a token : opt (λ m, 1 ≤ m ≤ 10080) (sa_target a) → Gives (λ a, opt (λ m, 1 ≤ m ≤ 10080) (sa_target a)) (attribute path owner a token).
Proof.
  intros Ha. unfold attribute, set_attribute. destruct a as [id req kind own appr ev target react d3 hid hkind]. cbn [sa_target] in Ha.
  repeat case_match; gives; try done; cbn; lia.
Qed.

Lemma check_attrs_valid path owner b a : Gives (λ _, blank (sa_id a) = false) (check_attrs path owner b a).
Proof.
  unfold check_attrs. repeat case_match.
  - intros s _. unfold fail, add. cbn [snd]. case_match; cbn [fatal]; by rewrite orb_true_r.
  - intros s _. unfold fail, add. cbn [snd]. case_match; cbn [fatal]; by rewrite orb_true_r.
  - intros s _ _. match goal with H : _ || _ = false |- _ => by apply orb_false_iff in H as [_ H] end.
Qed.

Lemma keyLine_trimmed line k v : keyLine line = Some (k, v) → text_trim v = v.
Proof.
  unfold keyLine. intros (k' & _ & E)%bind_Some. destruct (drop _ _) as [|c r]; [by injection E as _ <-|]. case_match; [|done]. injection E as _ <-. apply trim_idem.
Qed.

Lemma marks_valid l : Forall (λ m : text, text_trim m = m ∧ m ≠ []) (omap (λ s, non_empty (text_trim s)) l).
Proof.
  apply Forall_forall. intros m (x & _ & E)%list_elem_of_omap. pose proof (non_empty_trim x) as H. by rewrite E in H.
Qed.

Lemma optionLine_valid line o : optionLine line = Some o → ValidOption o.
Proof.
  unfold optionLine. destruct (partition _ _) as [[id sep] rest]. destruct (_ || _) eqn:Eb; [done|]. apply orb_false_iff in Eb as [Eb Hs].
  apply orb_false_iff in Eb as [_ Hn%bool_decide_eq_false]. destruct (find_skips rest) as [[label skips]|]; intros [= <-].
  - split; [done|apply trim_idem|apply marks_valid].
  - split; [done|apply trim_idem|constructor].
Qed.

Definition ValidKeys (ks : StepKeys) : Prop :=
  Forall (λ t, text_trim t = t ∧ t ≠ []) (option_list (sk_focus ks) ++ option_list (sk_escalate ks) ++ option_list (sk_benign ks)) ∧ Forall ValidOption (sk_options ks).

Lemma option_entry_valid path owner out line : Forall ValidOption out → Gives (Forall ValidOption) (option_entry path owner out line).
Proof.
  intros Ho. unfold option_entry. case_match; [|gives]. apply Gives_ret, Forall_app. split; [done|]. apply Forall_singleton. by eapply optionLine_valid.
Qed.

Lemma key_line_valid path owner number k v lines ks : text_trim v = v → ValidKeys ks → Gives (λ r, ValidKeys r.1) (key_line path owner number k v lines ks).
Proof.
  intros Hv [Ht Ho]. destruct ks as [focus escalate benign options seen]. unfold ValidKeys in *. cbn [sk_focus sk_escalate sk_benign sk_options] in *. rewrite !Forall_app in Ht.
  destruct Ht as (Hf & He & Hb). unfold key_line. apply Gives_fail_if; [intros; reports|intros _]. destruct k.
  1-3: apply Gives_ret; cbn [fst sk_focus sk_escalate sk_benign sk_options]; rewrite !Forall_app; split_and!; try done; destruct v; [done|]; by repeat constructor.
  apply Gives_fail_if; [intros; reports|intros _]. destruct (option_block lines) as [blanks found].
  apply (Gives_bind (Forall ValidOption)); [reports|intros; reports| |].
  - apply Gives_each; [intros; reports|intros; by apply option_entry_valid|constructor].
  - intros os Hos. apply Gives_ret. cbn [fst sk_focus sk_escalate sk_benign sk_options]. by rewrite !Forall_app.
Qed.

Lemma key_loop_valid path owner lines : ∀ number skip ks, ValidKeys ks → Gives (λ r, ValidKeys r.1.1) (key_loop path owner number skip lines ks).
Proof.
  induction lines as [|l lines IH]; intros number skip ks Hks; cbn [key_loop]; [by apply Gives_ret|]. destruct skip as [|skip]; [|by apply IH].
  destruct (drop_blank (l :: lines)) as [|first r]; [by apply Gives_ret|]. destruct (keyLine first) as [[k v]|] eqn:Ek; [|by apply Gives_ret].
  destruct (blank l); [by apply IH|]. apply (Gives_bind (λ r, ValidKeys r.1)); [reports|intros; reports| |].
  - apply key_line_valid; [by eapply keyLine_trimmed|done].
  - intros [ks' n] Hks'. by apply IH.
Qed.

Lemma lookup_entry_valid path owner data e :
  opt (λ n, 1 ≤ n ≤ limitMax) (ld_limit data) → Gives (λ data, opt (λ n, 1 ≤ n ≤ limitMax) (ld_limit data)) (lookup_entry path owner data e).
Proof.
  intros Hd. destruct data as [tool flt group ind window limit run], e as [key v]. cbn [ld_limit] in Hd. unfold lookup_entry. repeat case_match; gives; try done. cbn. lia.
Qed.

Lemma lookupFrom_valid t path owner start : Gives (opt (λ l, 1 ≤ lk_limit l ≤ limitMax)) (lookupFrom t path owner start).
Proof.
  unfold lookupFrom. destruct (parseYaml t start) as [raw|]; [|gives; done].
  apply (Gives_bind (λ data, opt (λ n, 1 ≤ n ≤ limitMax) (ld_limit data))); [reports|intros; reports| |].
  - apply Gives_each; [intros; reports|intros; by apply lookup_entry_valid|done].
  - intros data Hd. destruct (ld_tool data) as [tool|]; [|gives; done]. apply Gives_then; [reports|intros; reports|intros stop]. apply Gives_ret.
    destruct stop, tool as [tool|]; try done. cbn. unfold limitMax in *. destruct (ld_limit data); cbn in *; lia.
Qed.

Lemma splitHeading_trimmed h : text_trim (splitHeading h).1 = (splitHeading h).1.
Proof. unfold splitHeading. repeat case_match; apply trim_idem. Qed.

Lemma parseStep_valid {P} heading body (phase : P) index start : Gives (λ s, ValidStep s ∧ rs_phase s = phase) (parseStep heading body phase index start).
Proof.
  unfold parseStep. pose proof (splitHeading_trimmed heading) as Ht. destruct (splitHeading heading) as [title raw]. cbn [fst] in Ht.
  apply (Gives_bind (λ a, opt (λ m, 1 ≤ m ≤ 10080) (sa_target a))); [reports|intros; reports| |].
  { apply Gives_each; [intros; reports|intros; by apply attribute_valid|done]. }
  intros a Ha. apply (Gives_bind (λ _, blank (sa_id a) = false)); [reports|intros; reports|apply check_attrs_valid|]. intros _ Hid.
  apply (Gives_bind (λ r, ValidKeys r.1.1)); [reports|intros; reports|apply key_loop_valid; by split; constructor|]. intros [[ks number] rest] [Hl Ho].
  apply Gives_then; [reports|intros; reports|intros b]. apply Gives_then; [reports|intros; reports|intros b'].
  apply (Gives_bind (opt (λ l, 1 ≤ lk_limit l ≤ limitMax))); [reports|intros; reports| |].
  { destruct (sb_lookup b'); [apply lookupFrom_valid|by apply Gives_ret]. }
  intros lookup Hlk. apply Gives_ret. split; [|done]. split; try done. apply cleanBlock_twice.
Qed.

(** ** The body *)
Abbreviation ParsedStep := (RunbookStepOf text PhaseKey).
Definition under_phases (phases : list PhaseKey) (steps : list ParsedStep) : list ParsedStep := phases ≫= λ p, filter (λ s, rs_phase s = p) steps.

(** The steps stand under their phases, phase after phase. *)
Record Placed (phases : list PhaseKey) (steps : list ParsedStep) : Prop := {
  pl_once : NoDup phases;
  pl_steps : Forall (λ s, ValidStep s ∧ rs_phase s ∈ phases) steps;
  pl_order : steps = under_phases phases steps;
}.

(** A phase a heading line names *)
Definition heading_label (line : text) : text := lower_unit <$> text_trim (drop 2 line).
Definition phase_from (lines : list text) (p : PhaseKey) : Prop :=
  ∃ line, line ∈ lines ∧ is_phase_line line = true ∧ PHASE_BY_LABEL (heading_label line) = Some p.

Definition BodyValid (lines : list text) (b : BodyState) : Prop :=
  (Placed (bs_phases b) (bs_steps b) ∧ Forall (phase_from lines) (bs_phases b)) ∧ opt (λ p, last (bs_phases b) = Some p) (bs_phase b).

Lemma under_phases_other phases steps s : rs_phase s ∉ phases → under_phases phases (steps ++ [s]) = under_phases phases steps.
Proof.
  intros Hs. unfold under_phases. induction phases as [|p phases IH]; [done|]. apply not_elem_of_cons in Hs as [Hp Hs]. cbn. rewrite IH by done.
  f_equal. rewrite filter_app, (filter_cons_False _ s) by done. by rewrite app_nil_r.
Qed.

Lemma under_phases_app a b steps : under_phases (a ++ b) steps = under_phases a steps ++ under_phases b steps.
Proof. unfold under_phases. apply bind_app. Qed.

Lemma placed_step phases steps s : Placed phases steps → ValidStep s → last phases = Some (rs_phase s) → Placed phases (steps ++ [s]).
Proof.
  intros [Hn Hs Ho] Hv Hl. pose proof (last_Some_elem_of _ _ Hl) as Hin. split; [done|by apply Forall_app; split; [|apply Forall_singleton]|].
  apply last_Some in Hl as [init ->]. rewrite under_phases_app in Ho |- *. apply NoDup_app in Hn as (_ & Hd & _).
  rewrite under_phases_other by (intros H; apply (Hd _ H); by left). rewrite Ho at 1. rewrite <-app_assoc. f_equal. unfold under_phases. cbn. rewrite !app_nil_r.
  by rewrite filter_app, filter_cons_True.
Qed.

Lemma placed_phase phases steps p : Placed phases steps → p ∉ phases → Placed (phases ++ [p]) steps.
Proof.
  intros [Hn Hs Ho] Hp. split.
  - apply NoDup_app. split_and!; [done| |apply NoDup_singleton]. intros q Hq ->%list_elem_of_singleton. done.
  - eapply Forall_impl; [exact Hs|]. intros s [Hv Hin]. split; [done|]. apply elem_of_app. by left.
  - rewrite under_phases_app, <-Ho. unfold under_phases. cbn. rewrite app_nil_r.
    assert (Hf : filter (λ s, rs_phase s = p) steps = []); [|by rewrite Hf, app_nil_r].
    destruct (filter _ steps) as [|s l] eqn:E; [done|]. exfalso. assert (Hin : s ∈ filter (λ s, rs_phase s = p) steps) by (rewrite E; left).
    apply list_elem_of_filter in Hin as [<- Hin]. rewrite Forall_forall in Hs. by destruct (Hs s Hin) as [_ ?].
Qed.

Lemma flush_valid lines b : BodyValid lines b → Gives (λ b', BodyValid lines b' ∧ bs_phases b' = bs_phases b) (flush b).
Proof.
  intros [[Hp Hf] Hl]. unfold flush. destruct b as [phases steps phase heading ls start fence]. cbn [bs_phases bs_steps bs_phase bs_heading bs_lines bs_start bs_fence] in *.
  destruct heading as [h|]; [|by apply Gives_ret]. destruct phase as [p|]; [|by apply Gives_ret].
  apply (Gives_bind (λ s, ValidStep s ∧ rs_phase s = p)); [reports|intros; reports|apply parseStep_valid|]. intros s [Hv <-].
  apply Gives_ret. split; [|done]. split; [|done]. split; [by apply placed_step|done].
Qed.

Lemma phase_line_valid lines number line b : line ∈ lines → is_phase_line line = true → BodyValid lines b → Gives (BodyValid lines) (phase_line number line b).
Proof.
  intros Hin Hline Hb. unfold phase_line. apply (Gives_bind (λ b', BodyValid lines b' ∧ bs_phases b' = bs_phases b)); [reports|intros; reports|by apply flush_valid|].
  intros b' [[[Hp Hf] Hl] _]. destruct (PHASE_BY_LABEL _) as [p|] eqn:Ep; [|gives; done]. apply Gives_fail_if; [intros; reports|]. intros Hn%bool_decide_eq_false. apply Gives_ret.
  split; cbn [bs_phases bs_steps bs_phase opt]; [split; [by apply placed_phase|]|by rewrite last_snoc].
  apply Forall_app. split; [done|]. apply Forall_singleton. by exists line.
Qed.

Lemma body_step_valid lines b nl : nl.2 ∈ lines → BodyValid lines b → Gives (BodyValid lines) (body_step b nl).
Proof.
  intros Hin Hb. destruct nl as [number line]. cbn in Hin. unfold body_step.
  assert (Hpush : ∀ fence, BodyValid lines (mkBodyState (bs_phases b) (bs_steps b) (bs_phase b) (bs_heading b) (bs_lines b ++ [line]) (bs_start b) fence)) by done.
  assert (Hstep : Gives (BodyValid lines) (step_line number line b)).
  { unfold step_line. apply (Gives_bind (λ b', BodyValid lines b' ∧ bs_phases b' = bs_phases b)); [reports|intros; reports|by apply flush_valid|].
    intros b' [[Hp Hl] _]. destruct (bs_phase b'); [|gives]. apply Gives_ret.
    split; cbn [bs_phases bs_steps bs_phase]; [done|]. exact Hl. }
  pose proof (λ H, phase_line_valid lines number line b Hin H Hb) as Hphase. destruct (bs_fence b); [by apply Gives_ret|].
  destruct (opening_fence line), (bs_heading b); try (by apply Gives_ret); (destruct (is_phase_line line) eqn:El; [by apply Hphase|destruct (is_step_line line); [done|]]); gives; done.
Qed.

Lemma numbered_line start ls nl : nl ∈ numbered start ls → nl.2 ∈ ls.
Proof. unfold numbered. intros (i & l & -> & Hi)%elem_of_lookup_imap_1. by eapply list_elem_of_lookup_2. Qed.

Lemma parse_body_valid body start :
  Gives (λ b, Placed (bs_phases b) (bs_steps b) ∧ Forall (phase_from (split_on LF body)) (bs_phases b)) (parse_body body start).
Proof.
  unfold parse_body. apply (Gives_bind (BodyValid (split_on LF body))); [reports|intros; reports| |].
  - apply Gives_each; [intros; reports|intros b nl Hn; apply body_step_valid; by apply numbered_line in Hn|]. split; [|done]. split; [by split; [constructor..|]|constructor].
  - intros b Hb. eapply Gives_impl; [by apply flush_valid|]. by intros b' [[[? ?] _] _].
Qed.

(** ** The source *)
Definition body_lines (source : text) : list text := match splitFrontMatter source with Some (_, body, _) => split_on LF body | None => [] end.

(** One of the six phases; or a name every object inherits, which a heading of the source has for its label *)
Definition phase_or_member (source : text) (p : PhaseKey) : Prop :=
  match p with
  | APhase _ => True
  | Inherited m => m ∈ [units "constructor"; PROTO] ∧ ∃ line, line ∈ body_lines source ∧ is_phase_line line = true ∧ heading_label line = m
  end.

Lemma phase_from_named source p : phase_from (body_lines source) p → phase_or_member source p.
Proof.
  intros (line & Hin & Hl & Hp). unfold PHASE_BY_LABEL in Hp. destruct (List.find _ _); [by injection Hp as <-|]. case_match eqn:E; [|done]. injection Hp as <-.
  apply orb_true_iff in E. rewrite !bool_decide_eq_true in E. split; [destruct E as [-> | ->]; set_solver|]. by exists line.
Qed.

Record ValidRunbook (source : text) (d : RunbookDefinitionOf text PhaseKey) : Prop := {
  vr_id : rd_id d ≠ [];
  vr_head : ValidHead d;
  vr_body : Placed (rd_phases d) (rd_steps d);
  vr_phases : Forall (phase_or_member source) (rd_phases d);
}.

(** The result with the collector it comes from *)
Lemma parse_cases toLocaleString source :
  let r := parseRunbookMarkdown toLocaleString source in
  (pr_definition r = None ∧ pr_version r = None ∧ length (pr_issues r) = 1%nat) ∨
  ∃ d version b sink, sound sink ∧ r = mkParsed (if fatal sink then None else Some (with_body (bs_phases b) (bs_steps b) d)) version (issues_result sink) ∧
    (fatal sink = false → ValidMeta (d, version) ∧ rd_id d ≠ [] ∧ Placed (bs_phases b) (bs_steps b) ∧ Forall (phase_from (body_lines source)) (bs_phases b)).
Proof.
  cbn zeta. unfold parseRunbookMarkdown, body_lines. destruct (_ <? _); [by left|]. destruct (splitFrontMatter source) as [[[meta body] start]|]; [|by left].
  destruct (parseYaml meta 2) as [m|]; [|by left]. right.
  assert (H0 : sound no_problems) by (split; cbn; [lia|done]).
  destruct (Reports_parse_meta m no_problems H0) as [H1 _]. pose proof (parse_meta_valid m no_problems H0) as G1. destruct (parse_meta m no_problems) as [[d version] s1].
  destruct (Reports_parse_body body start s1 H1) as [H2 _]. assert (Hnf : fatal (parse_body body start s1).2 = false → fatal s1 = false) by (apply not_fatal; [apply Reports_parse_body|done]).
  pose proof (parse_body_valid body start s1 H1) as G2. destruct (parse_body body start s1) as [b s2]. exists d, version, b, s2. cbn [fst snd] in *.
  split_and!; [done|done|]. intros Hf. destruct (G1 (Hnf Hf)) as [Hm Hid]. split_and!; [done|done|by apply G2..].
Qed.

(** C22. A source the reader refuses comes with problems, and never with more than the cap of problems and the one that says there
    are more. Past the cap the problem that refuses it is not written out, and only that last line stands for it. *)
Theorem parse_explains toLocaleString source :
  let r := parseRunbookMarkdown toLocaleString source in
  (pr_definition r = None → pr_issues r ≠ []) ∧ (length (pr_issues r) ≤ S MAX_ISSUES)%nat.
Proof.
  cbn zeta. destruct (parse_cases toLocaleString source) as [(_ & _ & Hl)|(d & version & b & sink & [Hb Hf] & -> & _)].
  - split; [|unfold MAX_ISSUES; lia]. intros _ E. by rewrite E in Hl.
  - cbn [pr_definition pr_issues]. unfold issues_result. split.
    + destruct (fatal sink); [|done]. intros _. specialize (Hf eq_refl). destruct (more sink); [by destruct (issues sink)|done].
    + destruct (more sink); [rewrite length_app; cbn [length]|]; lia.
Qed.

(** C21. A definition the reader gives is valid: it has an id, its numbers are in range, its rules are from the closed
    vocabularies, each step has an id and a target and a limit in range, every phase is listed once, the
    steps stand under the phases in their order, and the version is a positive number. A phase is one of the six, except
    where a heading is a name every object inherits, "## Constructor" or "## __proto__": the reader takes that name for a
    phase ([inherited_phase]). *)
Theorem parse_valid toLocaleString source d : pr_definition (parseRunbookMarkdown toLocaleString source) = Some d →
  ValidRunbook source d ∧ opt (λ v, 1 ≤ v) (pr_version (parseRunbookMarkdown toLocaleString source)).
Proof.
  destruct (parse_cases toLocaleString source) as [(-> & _ & _)|(d' & version & b & sink & _ & -> & Hv)]; [done|]. cbn [pr_definition pr_version].
  destruct (fatal sink); [done|]. intros [= <-]. destruct (Hv eq_refl) as ([Hm Hver] & Hid & Hp & Hf). split; [|done].
  split; [done|by destruct Hm; split|done|]. eapply Forall_impl; [exact Hf|]. apply phase_from_named.
Qed.
