(* ===== verification/RunbookMarkdownCases.v ===== *)
(** * Runbook Markdown on concrete documents: the round trip at work, and what does not come back *)

From S2P Require Import Prelude JsText JsMap DisplayText DisplaySpec JsonText Runbook RunbookMarkdown RunbookYaml RunbookParse RunbookCanonical RunbookFront RunbookStepText RunbookMarkdownSpec RunbookParseSpec.
Local Open Scope Z_scope.

(** ** A case mapping: that of ASCII *)
Definition ascii_upper (t : text) : text := (λ c, if is_lower c then c - 32 else c) <$> t.

Lemma ascii_upper_space c : trim_space (if is_lower c then c - 32 else c) = trim_space c.
Proof. destruct (is_lower c) eqn:E; [|done]. unfold is_lower, in_range, trim_space in *. lia. Qed.

Lemma ascii_upper_trim t : text_trim t = t → t ≠ [] → text_trim (ascii_upper t) = ascii_upper t ∧ ascii_upper t ≠ [].
Proof.
  intros Ht%TextLines.trim_trimmed_iff Hne. destruct Ht as [Hh Hl]. split; [|by destruct t]. apply trim_id. split; intros c.
  - destruct t as [|d t]; [done|]. intros [= <-]. rewrite ascii_upper_space. by apply Hh.
  - unfold ascii_upper. rewrite (fmap_last _ t). intros (d & Hd & ->)%fmap_Some. rewrite ascii_upper_space. by apply Hl.
Qed.

Lemma ascii_upper_twice t : ascii_upper (ascii_upper t) = ascii_upper t.
Proof.
  unfold ascii_upper. rewrite <-list_fmap_compose. apply list_fmap_ext. intros _ c _. unfold compose.
  destruct (is_lower c) eqn:E; [|by rewrite E]. replace (is_lower (c - 32)) with false; [done|]. unfold is_lower, in_range in *. lia.
Qed.

#[export] Instance ascii_case : UpperCase := {
  toUpperCase := ascii_upper;
  toUpperCase_twice := ascii_upper_twice;
  toUpperCase_trim := ascii_upper_trim;
}.

(** ** A document with one of everything *)
Abbreviation u := units.
Definition lookup_step : MdStep :=
  mkRunbookStep (u "s2") Close KLookup (u "L") (u "Focus: kept as text") None None None true EvNone None None None
    (Some (mkLookup LogStats [(u "1", u "x"); (u "host.name", u "{{host}}"); (u "a:b", u "")] [u "x"; u "it's"] (Some (u "ip: 1")) (u "w..z") 20 OnDemand))
    [] None None.

Definition check_step : MdStep :=
  mkRunbookStep (u "s1") Triage KCheck (u "Look {at} it") (u "do this
```
## no heading
```
ok") (Some (u "foc")) None (Some (u "ben")) false EvNote (Some (u "role x")) None (Some 120) None
    [mkOption (u "yes") (u "Yes |") [u "s2"; u "s3"]; mkOption (u "no") [] []] None (Some (u "D3-X")).

Definition sample_with (phases : list PhaseId) (steps : list MdStep) : MdDefinition :=
  mkDefinition (u "my-id") (u "Title: x # y") (u "") (u "line one
 line two") (u "")
    (mkApplies [u "a,b"; u "c"] [u "t1059"] [u "ip"] (Some (u "high")) [] [u "TRUE_POSITIVE"] [] [] (Some 4) true) 50 [u "t1110"]
    phases steps [u "q one"; u "[q]"] (Some (u "me")) 180 [u "- r"].

(** The steps are out of the order of the phases, and one phase is not listed. *)
Definition sample : MdDefinition := sample_with [Triage] [lookup_step; check_step].

Ltac decided := apply (bool_decide_unpack _); vm_compute; exact I.
#[local] Instance is_unit_dec c : Decision (is_unit c).
Proof. unfold is_unit. apply _. Defined.
#[local] Instance units_only_dec t : Decision (units_only t).
Proof. unfold units_only. apply _. Defined.
#[local] Instance on_line_dec t : Decision (TextLines.on_line t).
Proof. unfold TextLines.on_line. apply _. Defined.
#[local] Instance no_brace_dec t : Decision (no_brace t).
Proof. unfold no_brace. apply _. Defined.

#[local] Instance words_of_dec allowed l : Decision (words_of allowed l).
Proof. unfold words_of. apply _. Defined.
#[local] Instance opt_dec {A} (P : A → Prop) `{∀ a, Decision (P a)} o : Decision (opt P o).
Proof. destruct o; apply _. Defined.

Lemma check_writable : StepWritable (normalise_step check_step).
Proof.
  split; try decided; [|split; decided]. constructor; [|constructor; [|constructor]]; split; decided.
Qed.

Lemma lookup_writable : StepWritable (normalise_step lookup_step).
Proof. split; try decided; [constructor|split; decided|split; decided]. Qed.

Lemma sample_writable : Writable (normaliseDefinition sample) (Some 3).
Proof.
  split.
  - split; [decided|decided|split; decided|decided..].
  - apply Forall_cons. split; [apply lookup_writable|]. apply Forall_singleton, check_writable.
Qed.

(** The round trip of the sample: the phase that is not listed comes after the listed one, and the steps move
    under their phases. *)
Lemma parse_export_witness :
  Writable (normaliseDefinition sample) (Some 3) ∧
  parseRunbookMarkdown decimal (exportRunbookMarkdown sample (Some 3)) = mkParsed (Some (as_read (normaliseDefinition sample))) (Some 3) [].
Proof. split; [exact sample_writable|]. apply (parse_export decimal sample (Some 3)); [exact sample_writable|vm_compute; discriminate]. Defined.

(** ** What does not come back *)

(** A label that every object inherits is taken for a phase: no problem is reported, and the phase of the definition is
    not one of the six. *)
Example inherited_phase :
  let r := parseRunbookMarkdown decimal (u "---
id: a
---
## Constructor
### Look {#s1 kind=check}
") in
  pr_issues r = [] ∧ (rd_phases <$> pr_definition r) = Some [Inherited (u "constructor")] ∧
  ((λ d, rs_phase <$> rd_steps d) <$> pr_definition r) = Some [Inherited (u "constructor")].
Proof. vm_compute. done. Qed.

Definition with_owner (role : text) : MdDefinition :=
  sample_with [Triage] [mkRunbookStep (u "s1") Triage KCheck (u "Look") [] None None None true EvNone (Some role) None None None [] None None].

(** A brace in a quoted attribute ends the list of attributes: the export of such a runbook is refused. *)
Example brace_in_role :
  pr_definition (parseRunbookMarkdown decimal (exportRunbookMarkdown (with_owner (u "tier {2")) None)) = None ∧
  is_Some (pr_definition (parseRunbookMarkdown decimal (exportRunbookMarkdown (with_owner (u "tier 2")) None))).
Proof. vm_compute. split; [done|by eexists]. Qed.

Definition with_filter (k v : text) : MdDefinition :=
  sample_with [Triage] [mkRunbookStep (u "s1") Triage KLookup (u "Look") [] None None None true EvNone None None None
    (Some (mkLookup LogStats [(k, v)] [] None (u "24h") 20 OnAttach)) [] None None].

Definition filters_read (d : MdDefinition) : option (list (list (text * text))) :=
  (λ d, omap (λ s, lk_filter <$> rs_lookup s) (rd_steps d)) <$> pr_definition (parseRunbookMarkdown decimal (exportRunbookMarkdown d None)).

(** A filter key that ends in a backslash hides the quote that closes it: the export is refused. *)
Example backslash_in_key :
  filters_read (with_filter (u "a: b\") (u "v")) = None ∧ filters_read (with_filter (u "a: b") (u "v")) = Some [[(u "a: b", u "v")]].
Proof. vm_compute. done. Qed.

(** A filter on a field named [__proto__] is lost, and nothing says so. *)
Example proto_key :
  filters_read (with_filter (u "__proto__") (u "v")) = Some [[]] ∧
  pr_issues (parseRunbookMarkdown decimal (exportRunbookMarkdown (with_filter (u "__proto__") (u "v")) None)) = [].
Proof. vm_compute. done. Qed.

(** A line of instructions that looks like a heading ends the step. *)
Definition with_text_step (t : text) : MdDefinition :=
  sample_with [Triage] [mkRunbookStep (u "s1") Triage KCheck (u "Look") t None None None true EvNone None None None None [] None None].

Example heading_in_instructions :
  pr_definition (parseRunbookMarkdown decimal (exportRunbookMarkdown (with_text_step (u "First
## then")) None)) = None.
Proof. vm_compute. done. Qed.

(** ** The reader's promises, at work *)
Lemma parse_valid_witness :
  pr_definition (parseRunbookMarkdown decimal (exportRunbookMarkdown sample (Some 3))) = Some (as_read (normaliseDefinition sample)) ∧
  ValidRunbook (exportRunbookMarkdown sample (Some 3)) (as_read (normaliseDefinition sample)).
Proof.
  assert (E : pr_definition (parseRunbookMarkdown decimal (exportRunbookMarkdown sample (Some 3))) = Some (as_read (normaliseDefinition sample)))
    by (vm_compute; reflexivity).
  split; [exact E|]. exact (proj1 (parse_valid decimal _ _ E)).
Defined.

Lemma parse_explains_witness :
  let r := parseRunbookMarkdown decimal (u "no front matter") in pr_definition r = None ∧ pr_issues r ≠ [].
Proof. split; [vm_compute; reflexivity|]. apply (parse_explains decimal (u "no front matter")). vm_compute. reflexivity. Defined.
