(* ===== verification/NavStore.v ===== *)
(** * The navigation state store (soc/nav-store.ts)

    The module's variables are one record, with the browser's storage, the frames and tasks it scheduled and
    the requests it sent. What [localStorage] holds under the group key is what [JSON.parse] makes of it.
    Two sets are never the same object, so a new set always counts as a change. *)

From S2P Require Import Prelude JsValue.
From Stdlib Require Import QArith.
Local Close Scope Q_scope.

(** ** Data *)
Record BreadcrumbItem := mkCrumb {
  bi_label : string; bi_page : option string;
  bi_opts : option string;   (** the JSON of the options *)
}.
#[export] Instance BreadcrumbItem_eq_dec : EqDecision BreadcrumbItem.
Proof. solve_decision. Defined.

Abbreviation Trail := (string * list BreadcrumbItem)%type.

Record NavState := mkNav {
  nv_collapsed : bool;
  nv_openGroups : list string;
  nv_flyout : option string;
  nv_flyoutTop : Q;
  nv_trail : option Trail;
}.

(** What a patch of the state names *)
Record NavPatch := mkPatch {
  np_collapsed : option bool;
  np_openGroups : option (list string);
  np_flyout : option (option string);
  np_flyoutTop : option Q;
  np_trail : option (option Trail);
}.

(** [UserPrefs.misc] keys to write *)
Record MiscPatch := mkMisc { mp_collapsed : option bool; mp_groups : option (list string) }.

(** The text stored under the group key: none, text that is no JSON, or a value. *)
Inductive Stored := Absent | Unreadable | Json (v : jsval).

Record Module := mkModule {
  m_state : option NavState;
  m_touched_collapsed : bool; m_touched_groups : bool;   (** [touched] *)
  m_pending : option (nat * MiscPatch);                  (** the batch and its changes *)
  m_batches : nat;                                       (** batches made so far *)
  m_frames : list nat; m_tasks : list nat;               (** what waits for a frame, and for its task *)
  m_storage : bool;                                      (** storage can be used *)
  m_ls_collapsed : option string; m_ls_groups : Stored;
  m_puts : list MiscPatch;                               (** the requests sent, in order *)
  m_notified : nat;                                      (** how often the listeners were called *)
}.

(** ** Setters *)
Definition with_state (s : option NavState) (n : nat) (m : Module) : Module :=
  mkModule s (m_touched_collapsed m) (m_touched_groups m) (m_pending m) (m_batches m) (m_frames m) (m_tasks m) (m_storage m)
    (m_ls_collapsed m) (m_ls_groups m) (m_puts m) n.
Definition with_store (c : option string) (g : Stored) (m : Module) : Module :=
  mkModule (m_state m) (m_touched_collapsed m) (m_touched_groups m) (m_pending m) (m_batches m) (m_frames m) (m_tasks m) (m_storage m)
    c g (m_puts m) (m_notified m).
Definition with_batch (p : option (nat * MiscPatch)) (puts : list MiscPatch) (m : Module) : Module :=
  mkModule (m_state m) (m_touched_collapsed m) (m_touched_groups m) p (m_batches m) (m_frames m) (m_tasks m) (m_storage m)
    (m_ls_collapsed m) (m_ls_groups m) puts (m_notified m).
Definition with_touched (c g : bool) (m : Module) : Module :=
  mkModule (m_state m) c g (m_pending m) (m_batches m) (m_frames m) (m_tasks m) (m_storage m) (m_ls_collapsed m) (m_ls_groups m) (m_puts m) (m_notified m).
Definition with_schedule (batches : nat) (frames tasks : list nat) (m : Module) : Module :=
  mkModule (m_state m) (m_touched_collapsed m) (m_touched_groups m) (m_pending m) batches frames tasks (m_storage m)
    (m_ls_collapsed m) (m_ls_groups m) (m_puts m) (m_notified m).

(** ** Storage *)
Definition readLocal_collapsed (m : Module) : option string := if m_storage m then m_ls_collapsed m else None.
Definition readLocal_groups (m : Module) : Stored := if m_storage m then m_ls_groups m else Absent.
Definition writeLocal_collapsed (b : bool) (m : Module) : Module :=
  if m_storage m then with_store (Some (if b then "1" else "0")) (m_ls_groups m) m else m.
Definition writeLocal_groups (l : list string) (m : Module) : Module :=
  if m_storage m then with_store (m_ls_collapsed m) (Json (VArr (VStr <$> l))) m else m.

(** ** Groups of an earlier release *)
Definition LEGACY_GROUP_IDS (id : string) : string := if decide (id = "metrics") then "analytics" else id.

Definition strings_of (stored : list jsval) : list string := omap (λ v, match v with VStr s => Some s | _ => None end) stored.

(** [new Set(ids)], as a list *)
Definition set_of (ids : list string) : list string := foldl (λ l id, if decide (id ∈ l) then l else l ++ [id]) [] ids.

(** The two JSON texts are the same when the stored values are exactly the strings of the list. *)
Fixpoint same_strings (ids : list string) (stored : list jsval) : bool :=
  match ids, stored with
  | [], [] => true
  | s :: ids', VStr s' :: stored' => bool_decide (s = s') && same_strings ids' stored'
  | _, _ => false
  end.

Definition migrateGroups (stored : list jsval) : list string * bool :=
  let ids := set_of (LEGACY_GROUP_IDS <$> strings_of stored) in (ids, negb (same_strings ids stored)).

Definition readGroups (m : Module) : list string * Module :=
  match readLocal_groups m with
  | Unreadable => ([], m)
  | s =>
      let '(ids, changed) := migrateGroups match s with Json (VArr l) => l | _ => [] end in
      (ids, if changed then writeLocal_groups ids m else m)
  end.

Definition hydrate (m : Module) : NavState * Module :=
  let collapsed := bool_decide (readLocal_collapsed m = Some "1") in
  let '(groups, m) := readGroups m in (mkNav collapsed groups None 0 None, m).

Definition current (m : Module) : NavState * Module :=
  match m_state m with
  | Some s => (s, m)
  | None => let '(s, m) := hydrate m in (s, with_state (Some s) (m_notified m) m)
  end.

(** ** Changes *)
Definition patched (p : NavPatch) (s : NavState) : NavState :=
  mkNav (default (nv_collapsed s) (np_collapsed p)) (default (nv_openGroups s) (np_openGroups p)) (default (nv_flyout s) (np_flyout p))
    (default (nv_flyoutTop s) (np_flyoutTop p)) (default (nv_trail s) (np_trail p)).

(** Every key of the patch holds what it already held; a set and a trail are new objects. *)
Definition unchanged (p : NavPatch) (s : NavState) : bool :=
  match np_collapsed p with Some b => Bool.eqb b (nv_collapsed s) | None => true end &&
  match np_openGroups p with Some _ => false | None => true end &&
  match np_flyout p with Some f => bool_decide (f = nv_flyout s) | None => true end &&
  match np_flyoutTop p with Some t => Qeq_bool t (nv_flyoutTop s) | None => true end &&
  match np_trail p with Some (Some _) => false | Some None => bool_decide (nv_trail s = None) | None => true end.

Definition update (p : NavPatch) (m : Module) : Module :=
  let '(prev, m) := current m in
  if unchanged p prev then m else with_state (Some (patched p prev)) (S (m_notified m)) m.

Definition putMisc (p : MiscPatch) (m : Module) : Module := with_batch (m_pending m) (m_puts m ++ [p]) m.

Definition flushPersist (m : Module) : Module :=
  match m_pending m with
  | Some (_, p) => putMisc p (with_batch None (m_puts m) m)
  | None => m
  end.

Definition merged (a b : MiscPatch) : MiscPatch :=
  mkMisc (match mp_collapsed b with Some c => Some c | None => mp_collapsed a end) (match mp_groups b with Some g => Some g | None => mp_groups a end).

Definition persist (p : MiscPatch) (m : Module) : Module :=
  let m := with_touched (m_touched_collapsed m || bool_decide (is_Some (mp_collapsed p))) (m_touched_groups m || bool_decide (is_Some (mp_groups p))) m in
  match m_pending m with
  | Some (b, q) => with_batch (Some (b, merged q p)) (m_puts m) m
  | None =>
      let b := m_batches m in
      with_batch (Some (b, merged (mkMisc None None) p)) (m_puts m) (with_schedule (S b) (m_frames m ++ [b]) (m_tasks m) m)
  end.

Definition commitGroups (next : list string) (m : Module) : Module :=
  let m := writeLocal_groups next m in
  let m := persist (mkMisc None (Some next)) m in
  update (mkPatch None (Some next) None None None) m.

(** ** The store *)
Definition setCollapsed (collapsed : bool) (m : Module) : Module :=
  let m := writeLocal_collapsed collapsed m in
  let m := persist (mkMisc (Some collapsed) None) m in
  update (mkPatch (Some collapsed) None (Some None) None None) m.

Definition toggleCollapsed (m : Module) : Module := let '(s, m) := current m in setCollapsed (negb (nv_collapsed s)) m.

Definition setGroupOpen (id : string) (open : bool) (m : Module) : Module :=
  let '(s, m) := current m in
  if Bool.eqb (bool_decide (id ∈ nv_openGroups s)) open then m
  else commitGroups (if open then nv_openGroups s ++ [id] else filter (λ g, g ≠ id) (nv_openGroups s)) m.

Definition toggleGroup (id : string) (m : Module) : Module :=
  let '(s, m) := current m in setGroupOpen id (negb (bool_decide (id ∈ nv_openGroups s))) m.
Definition openGroup (id : string) (m : Module) : Module := setGroupOpen id true m.

(** [top] is left out where it is [None]. *)
Definition setFlyout (id : option string) (top : option Q) (m : Module) : Module :=
  let '(s, m) := current m in update (mkPatch None None (Some id) (Some (default (nv_flyoutTop s) top)) None) m.

Definition setTrail (page : string) (items : option (list BreadcrumbItem)) (m : Module) : Module :=
  let '(s, m) := current m in
  let own := match nv_trail s with Some (p, _) => bool_decide (p = page) | None => false end in
  match items with
  | None => if own then update (mkPatch None None None None (Some None)) m else m
  | Some items =>
      if own && match nv_trail s with Some (_, l) => bool_decide (l = items) | None => false end then m
      else update (mkPatch None None None None (Some (Some (page, items)))) m
  end.

(** The server's value of a key the viewer did not change *)
Definition reconcileCollapsed (collapsed : option jsval) (m : Module) : option bool * Module :=
  match m_touched_collapsed m, collapsed with
  | false, Some (VBool b) => (Some b, writeLocal_collapsed b m)
  | _, _ => (None, m)
  end.

Definition reconcileGroups (groups : option jsval) (m : Module) : option (list string) * Module :=
  match m_touched_groups m, groups with
  | false, Some (VArr stored) =>
      let '(ids, changed) := migrateGroups stored in
      let m := writeLocal_groups ids m in
      (Some ids, if changed then putMisc (mkMisc None (Some ids)) m else m)
  | _, _ => (None, m)
  end.

(** [misc]: the own members the store reads *)
Definition reconcile (collapsed groups : option jsval) (m : Module) : Module :=
  let '(pc, m) := reconcileCollapsed collapsed m in
  let '(pg, m) := reconcileGroups groups m in
  update (mkPatch pc pg None None None) m.

Definition beginSession (m : Module) : Module :=
  let m := with_touched false false (with_batch None (m_puts m) m) in
  let '(s, m) := hydrate m in with_state (Some s) (m_notified m) m.

(** ** The browser *)

(** A frame: every callback waiting for one schedules its task. *)
Definition frame (m : Module) : Module := with_schedule (m_batches m) [] (m_tasks m ++ m_frames m) m.

(** The next task sends its own batch, if that still waits. *)
Definition task (m : Module) : Module :=
  match m_tasks m with
  | b :: tasks =>
      let m := with_schedule (m_batches m) (m_frames m) tasks m in
      match m_pending m with
      | Some (b', _) => if decide (b = b') then flushPersist m else m
      | None => m
      end
  | [] => m
  end.

Inductive nav_op :=
  | NSetCollapsed (b : bool) | NToggleCollapsed
  | NSetGroup (id : string) (open : bool) | NToggleGroup (id : string) | NOpenGroup (id : string)
  | NFlyout (id : option string) (top : option Q) | NTrail (page : string) (items : option (list BreadcrumbItem))
  | NReconcile (collapsed groups : option jsval) | NBeginSession
  | NFrame | NTask | NHide.   (** the page is hidden or left *)

Definition run_nav (o : nav_op) (m : Module) : Module :=
  match o with
  | NSetCollapsed b => setCollapsed b m
  | NToggleCollapsed => toggleCollapsed m
  | NSetGroup id open => setGroupOpen id open m
  | NToggleGroup id => toggleGroup id m
  | NOpenGroup id => openGroup id m
  | NFlyout id top => setFlyout id top m
  | NTrail page items => setTrail page items m
  | NReconcile c g => reconcile c g m
  | NBeginSession => beginSession m
  | NFrame => frame m
  | NTask => task m
  | NHide => flushPersist m
  end.
Definition run_navs (ops : list nav_op) (m : Module) : Module := foldl (λ m o, run_nav o m) m ops.

(** The module when the page loads, over whatever the device holds *)
Definition loaded (storage : bool) (c : option string) (g : Stored) : Module :=
  mkModule None false false None 0 [] [] storage c g [] 0.
