(* ===== verification/NavStoreSpec.v ===== *)
(** * What the navigation store keeps: the mirror, the choices on their way to the server, the session *)

From S2P Require Import Prelude JsValue NavStore.
From Stdlib Require Import QArith.
Local Close Scope Q_scope.

#[local] Arguments migrateGroups : simpl never.

(** ** Lists of groups *)
Lemma set_of_spec ids : NoDup (set_of ids) ∧ ∀ id, id ∈ set_of ids ↔ id ∈ ids.
Proof.
  unfold set_of. enough (H : ∀ l, NoDup l → NoDup (foldl (λ l id, if decide (id ∈ l) then l else l ++ [id]) l ids) ∧
    ∀ id, id ∈ foldl (λ l id, if decide (id ∈ l) then l else l ++ [id]) l ids ↔ id ∈ l ∨ id ∈ ids).
  { destruct (H [] (NoDup_nil_2)) as [H1 H2]. split; [done|]. intros id. rewrite H2, elem_of_nil. tauto. }
  induction ids as [|i ids IH]; intros l Hl; cbn [foldl]; [split; [done|]; intros id; rewrite elem_of_nil; tauto|].
  destruct (decide (i ∈ l)) as [Hi|Hi].
  - destruct (IH l Hl) as [H1 H2]. split; [done|]. intros id. rewrite H2, elem_of_cons. split; [tauto|]. by intros [?|[->|?]]; auto.
  - destruct (IH (l ++ [i])) as [H1 H2].
    + apply NoDup_app. split_and!; [done| |apply NoDup_singleton]. intros x Hx ->%list_elem_of_singleton. done.
    + split; [done|]. intros id. rewrite H2, elem_of_app, list_elem_of_singleton, elem_of_cons. tauto.
Qed.

Lemma set_of_id ids : NoDup ids → set_of ids = ids.
Proof.
  unfold set_of. enough (H : ∀ l, NoDup (l ++ ids) → foldl (λ l id, if decide (id ∈ l) then l else l ++ [id]) l ids = l ++ ids) by apply (H []).
  induction ids as [|i ids IH]; intros l Hn; [by rewrite app_nil_r|]. cbn [foldl]. rewrite decide_False.
  - rewrite IH; rewrite <-app_assoc; done.
  - apply NoDup_app in Hn as (_ & Hd & _). intros Hi. by apply (Hd i Hi); left.
Qed.

(** Ids of this release, each once *)
Definition today (ids : list string) : Prop := NoDup ids ∧ "metrics" ∉ ids.

Lemma strings_of_strings ids : strings_of (VStr <$> ids) = ids.
Proof. unfold strings_of. induction ids as [|i ids IH]; [done|]. rewrite fmap_cons. cbn [omap list_omap]. by rewrite IH. Qed.

Lemma migrate_today stored : today (migrateGroups stored).1.
Proof.
  unfold migrateGroups. cbn [fst]. destruct (set_of_spec (LEGACY_GROUP_IDS <$> strings_of stored)) as [H1 H2]. split; [done|].
  rewrite H2. intros (i & E & _)%list_elem_of_fmap. unfold LEGACY_GROUP_IDS in E. destruct (decide (i = "metrics")); congruence.
Qed.

Lemma migrate_fixed ids : today ids → (migrateGroups (VStr <$> ids)).1 = ids.
Proof.
  intros [Hn Hm]. unfold migrateGroups. cbn [fst]. rewrite strings_of_strings.
  assert (E : LEGACY_GROUP_IDS <$> ids = ids); [|by rewrite E, set_of_id].
  clear Hn. induction ids as [|i ids IH]; [done|]. apply not_elem_of_cons in Hm as [Hi Hm]. rewrite fmap_cons, IH by done.
  unfold LEGACY_GROUP_IDS. by rewrite decide_False.
Qed.

(** ** What a module shows, and what its mirror would show *)
Definition stored_groups (s : Stored) : list string := match s with Json (VArr l) => (migrateGroups l).1 | _ => [] end.
Definition ls_view (m : Module) : bool * list string :=
  if m_storage m then (bool_decide (m_ls_collapsed m = Some "1"), stored_groups (m_ls_groups m)) else (false, []).
Definition view (m : Module) : bool * list string :=
  match m_state m with Some s => (nv_collapsed s, nv_openGroups s) | None => ls_view m end.

(** Everything but the state, the storage and the listeners *)
Definition rest (m : Module) : bool * bool * option (nat * MiscPatch) * nat * list nat * list nat * list MiscPatch * bool :=
  (m_touched_collapsed m, m_touched_groups m, m_pending m, m_batches m, m_frames m, m_tasks m, m_puts m, m_storage m).

Lemma stored_groups_today s : today (stored_groups s).
Proof.
  unfold stored_groups. destruct s as [| |[| | | | |l|]]; try (split; [constructor|apply not_elem_of_nil]). apply migrate_today.
Qed.

Lemma migrate_nil : migrateGroups [] = ([], false). Proof. done. Qed.

Lemma readGroups_spec m :
  let '(ids, m') := readGroups m in ids = (ls_view m).2 ∧ rest m' = rest m ∧ ls_view m' = ls_view m ∧ m_state m' = m_state m ∧ m_notified m' = m_notified m.
Proof.
  unfold readGroups, readLocal_groups, ls_view. destruct (m_storage m) eqn:Es; [|by cbn; rewrite ?migrate_nil, ?Es].
  destruct (m_ls_groups m) as [| |v] eqn:El; [by cbn; rewrite ?migrate_nil, ?Es, ?El..|]. destruct v as [| | | | |l|]; try (by cbn; rewrite ?migrate_nil, ?Es, ?El).
  unfold stored_groups. destruct (migrateGroups l) as [ids changed] eqn:Em. destruct changed; [|by cbn; rewrite ?migrate_nil, ?Es, ?El, ?Em].
  unfold writeLocal_groups. rewrite Es. cbn. rewrite ?Es. split_and!; try done. f_equal.
  apply migrate_fixed. replace ids with (migrateGroups l).1 by (by rewrite Em). apply migrate_today.
Qed.

Lemma hydrate_spec m :
  let '(s, m') := hydrate m in (nv_collapsed s, nv_openGroups s) = ls_view m ∧ rest m' = rest m ∧ ls_view m' = ls_view m ∧ m_state m' = m_state m ∧ m_notified m' = m_notified m.
Proof.
  unfold hydrate. pose proof (readGroups_spec m) as H. destruct (readGroups m) as [ids m']. destruct H as (-> & H). split; [|done].
  cbn [nv_collapsed nv_openGroups]. unfold readLocal_collapsed, ls_view. by destruct (m_storage m).
Qed.

Lemma current_spec m :
  let '(s, m') := current m in (nv_collapsed s, nv_openGroups s) = view m ∧ m_state m' = Some s ∧ rest m' = rest m ∧ ls_view m' = ls_view m.
Proof.
  unfold current, view. destruct (m_state m) as [s|] eqn:E; [done|]. pose proof (hydrate_spec m) as H. destruct (hydrate m) as [s m'].
  destruct H as (H1 & H2 & H3 & _ & _). done.
Qed.

Lemma update_spec p m :
  view (update p m) = (default (view m).1 (np_collapsed p), default (view m).2 (np_openGroups p)) ∧
  rest (update p m) = rest m ∧ ls_view (update p m) = ls_view m ∧ is_Some (m_state (update p m)).
Proof.
  unfold update. pose proof (current_spec m) as H. destruct (current m) as [s m']. destruct H as (Hv & Hs & Hr & Hl).
  destruct (unchanged p s) eqn:E.
  - rewrite Hs. split_and!; [|done|done|done]. unfold view at 1. rewrite Hs, <-Hv. cbn [fst snd]. unfold unchanged in E. rewrite !andb_true_iff in E.
    destruct E as ((((Hc & Hg) & _) & _) & _). destruct (np_collapsed p) as [b|]; cbn; [apply eqb_prop in Hc as ->|]; by destruct (np_openGroups p).
  - split_and!; [|done|done|done]. unfold view at 1. cbn. rewrite <-Hv. done.
Qed.

(** ** The invariant *)
Definition waiting_collapsed (m : Module) : option bool := m_pending m ≫= λ p, mp_collapsed p.2.
Definition waiting_groups (m : Module) : option (list string) := m_pending m ≫= λ p, mp_groups p.2.
Definition last_collapsed (puts : list MiscPatch) : option bool := last (omap mp_collapsed puts).
Definition last_groups (puts : list MiscPatch) : option (list string) := last (omap mp_groups puts).

(** A choice made in this session waits, or was the last one sent for its key. *)
Definition on_its_way {A} (touched : bool) (waiting sent : option A) (now : A) : Prop :=
  if touched then waiting = Some now ∨ (waiting = None ∧ sent = Some now) else waiting = None.

Record nav_ok (m : Module) : Prop := {
  no_today : today (view m).2;
  no_mirror : m_storage m = true → ls_view m = view m;
  no_pending : match m_pending m with Some (b, _) => b ∈ m_frames m ++ m_tasks m | None => True end;
  no_fresh : Forall (λ b, (b < m_batches m)%nat) (m_frames m ++ m_tasks m);
  no_collapsed : on_its_way (m_touched_collapsed m) (waiting_collapsed m) (last_collapsed (m_puts m)) (view m).1;
  no_groups : on_its_way (m_touched_groups m) (waiting_groups m) (last_groups (m_puts m)) (view m).2;
}.

(** A module that differs in the state, the storage and the listeners only, and shows the same *)
Lemma nav_ok_same m m' : rest m' = rest m → view m' = view m → ls_view m' = ls_view m → nav_ok m → nav_ok m'.
Proof.
  intros Hr Hv Hl [H1 H2 H3 H4 H5 H6]. unfold rest in Hr. injection Hr as E1 E2 E3 E4 E5 E6 E7 E8.
  split; unfold waiting_collapsed, waiting_groups in *; rewrite ?E1, ?E2, ?E3, ?E4, ?E5, ?E6, ?E7, ?E8, ?Hv, ?Hl; done.
Qed.

Lemma current_ok m : nav_ok m → let '(s, m') := current m in nav_ok m' ∧ (nv_collapsed s, nv_openGroups s) = view m' ∧ m_state m' = Some s.
Proof.
  intros Hm. pose proof (current_spec m) as H. destruct (current m) as [s m']. destruct H as (Hv & Hs & Hr & Hl).
  assert (Hv' : view m' = view m) by (unfold view at 1; by rewrite Hs). split_and!; [by apply (nav_ok_same m)|by rewrite Hv'|done].
Qed.

Lemma loaded_ok storage c g : nav_ok (loaded storage c g).
Proof.
  split; try done.
  - unfold view. cbn. unfold ls_view. cbn. destruct storage; cbn; [apply stored_groups_today|]. split; [constructor|apply not_elem_of_nil].
Qed.

(** A change of the state that is no choice of the viewer: flyout, trail *)
Lemma update_ok p m : np_collapsed p = None → np_openGroups p = None → nav_ok m → nav_ok (update p m).
Proof.
  intros Hc Hg Hm. destruct (update_spec p m) as (Hv & Hr & Hl & _). rewrite Hc, Hg in Hv. apply (nav_ok_same m); [done| |done|done].
  rewrite Hv. by destruct (view m).
Qed.

(** ** The steps of a choice *)
Lemma writeLocal_collapsed_spec b m :
  let m' := writeLocal_collapsed b m in
  rest m' = rest m ∧ m_state m' = m_state m ∧ (view m').2 = (view m).2 ∧ ls_view m' = if m_storage m then (b, (ls_view m).2) else ls_view m.
Proof.
  unfold writeLocal_collapsed. destruct (m_storage m) eqn:Es; [|done]. cbn. split_and!; try done; unfold view, ls_view; cbn; rewrite Es.
  - by destruct (m_state m).
  - cbn. f_equal. by destruct b.
Qed.

Lemma writeLocal_groups_spec l m : today l →
  let m' := writeLocal_groups l m in
  rest m' = rest m ∧ m_state m' = m_state m ∧ (view m').1 = (view m).1 ∧ ls_view m' = if m_storage m then ((ls_view m).1, l) else ls_view m.
Proof.
  intros Hl. unfold writeLocal_groups. destruct (m_storage m) eqn:Es; [|done]. cbn. split_and!; try done; unfold view, ls_view; cbn; rewrite Es.
  - by destruct (m_state m).
  - cbn. f_equal. by apply migrate_fixed.
Qed.

Definition newest {A} (new old : option A) : option A := match new with Some x => Some x | None => old end.

Lemma persist_spec p m :
  (match m_pending m with Some (b, _) => b ∈ m_frames m ++ m_tasks m | None => True end) → Forall (λ b, (b < m_batches m)%nat) (m_frames m ++ m_tasks m) →
  let m' := persist p m in
  view m' = view m ∧ ls_view m' = ls_view m ∧ m_storage m' = m_storage m ∧ m_puts m' = m_puts m ∧
  m_touched_collapsed m' = (m_touched_collapsed m || bool_decide (is_Some (mp_collapsed p))) ∧
  m_touched_groups m' = (m_touched_groups m || bool_decide (is_Some (mp_groups p))) ∧
  waiting_collapsed m' = newest (mp_collapsed p) (waiting_collapsed m) ∧ waiting_groups m' = newest (mp_groups p) (waiting_groups m) ∧
  (match m_pending m' with Some (b, _) => b ∈ m_frames m' ++ m_tasks m' | None => True end) ∧
  Forall (λ b, (b < m_batches m')%nat) (m_frames m' ++ m_tasks m').
Proof.
  intros Hp Hf. unfold persist, waiting_collapsed, waiting_groups. cbn [with_touched m_pending]. destruct (m_pending m) as [[b q]|] eqn:E; cbn.
  - split_and!; try done; first [by destruct (mp_collapsed p)|by destruct (mp_groups p)].
  - split_and!; try done; try (by destruct (mp_collapsed p)); try (by destruct (mp_groups p)); [set_solver|].
    apply Forall_app in Hf as [H1 H2]. rewrite !Forall_app, Forall_singleton. split_and!; [|lia|].
    + eapply Forall_impl; [exact H1|]. cbn. lia.
    + eapply Forall_impl; [exact H2|]. cbn. lia.
Qed.

(** A choice: the mirror is written, the change waits, the view shows it. *)
Lemma choice_ok m m1 p : nav_ok m → rest m1 = rest m →
  (m_storage m = true → ls_view m1 = (default (ls_view m).1 (np_collapsed p), default (ls_view m).2 (np_openGroups p))) →
  (np_collapsed p = None → (view m1).1 = (view m).1) → (np_openGroups p = None → (view m1).2 = (view m).2) →
  match np_openGroups p with Some l => today l | None => True end →
  let m' := update p (persist (mkMisc (np_collapsed p) (np_openGroups p)) m1) in
  nav_ok m' ∧ view m' = (default (view m).1 (np_collapsed p), default (view m).2 (np_openGroups p)).
Proof.
  intros [H1 H2 H3 H4 H5 H6] Wr Wl Wc Wg Ht. cbv zeta. unfold rest in Wr. injection Wr as E1 E2 E3 E4 E5 E6 E7 E8.
  pose proof (persist_spec (mkMisc (np_collapsed p) (np_openGroups p)) m1) as P. rewrite E3, E4, E5, E6 in P. specialize (P H3 H4). cbv zeta in P.
  set (m2 := persist _ m1) in *. destruct P as (Pv & Pl & Ps & Pp & Ptc & Ptg & Pwc & Pwg & P3 & P4).
  destruct (update_spec p m2) as (Uv & Ur & Ul & _). set (m3 := update p m2) in *. unfold rest in Ur. injection Ur as F1 F2 F3 F4 F5 F6 F7 F8.
  assert (Hv : view m3 = (default (view m).1 (np_collapsed p), default (view m).2 (np_openGroups p))).
  { rewrite Uv, Pv. f_equal; [destruct (np_collapsed p)|destruct (np_openGroups p)]; cbn; auto. }
  split; [|done].
  split; unfold waiting_collapsed, waiting_groups in *; rewrite ?F1, ?F2, ?F3, ?F4, ?F5, ?F6, ?F7, ?F8, ?Hv; cbn [fst snd]; try done.
  - by destruct (np_openGroups p).
  - intros Hs. rewrite Ul, Pl. rewrite Ps, E8 in Hs. by rewrite Wl, H2.
  - rewrite Ptc, Pwc, E1, E3, Pp, E7. cbn. destruct (np_collapsed p); cbn; [rewrite orb_true_r; by left|by rewrite orb_false_r].
  - rewrite Ptg, Pwg, E2, E3, Pp, E7. cbn. destruct (np_openGroups p); cbn; [rewrite orb_true_r; by left|by rewrite orb_false_r].
Qed.

Lemma setCollapsed_ok b m : nav_ok m → nav_ok (setCollapsed b m) ∧ view (setCollapsed b m) = (b, (view m).2).
Proof.
  intros Hm. pose proof (writeLocal_collapsed_spec b m) as (Wr & _ & Wv & Wl).
  apply (choice_ok m (writeLocal_collapsed b m) (mkPatch (Some b) None (Some None) None None)); cbn; try done. intros Hs. by rewrite Hs in Wl.
Qed.

Lemma commitGroups_ok l m : today l → nav_ok m → nav_ok (commitGroups l m) ∧ view (commitGroups l m) = ((view m).1, l).
Proof.
  intros Hl Hm. pose proof (writeLocal_groups_spec l m Hl) as (Wr & _ & Wv & Wl).
  apply (choice_ok m (writeLocal_groups l m) (mkPatch None (Some l) None None None)); cbn; try done. intros Hs. by rewrite Hs in Wl.
Qed.

(** The group open or closed, the others as they were *)
Definition group_set (id : string) (open : bool) (l : list string) : list string :=
  if Bool.eqb (bool_decide (id ∈ l)) open then l else if open then l ++ [id] else filter (λ g, g ≠ id) l.

Lemma group_set_today id open l : id ≠ "metrics" → today l → today (group_set id open l).
Proof.
  intros Hid [Hn Hm]. unfold group_set. destruct (bool_decide (id ∈ l)) eqn:E, open; cbn; try done.
  - split; [by apply NoDup_filter|]. rewrite list_elem_of_filter. tauto.
  - apply bool_decide_eq_false in E. split; [|set_solver]. apply NoDup_app. split_and!; [done| |apply NoDup_singleton]. set_solver.
Qed.

Lemma setGroupOpen_ok id open m : id ≠ "metrics" → nav_ok m →
  nav_ok (setGroupOpen id open m) ∧ view (setGroupOpen id open m) = ((view m).1, group_set id open (view m).2).
Proof.
  intros Hid Hm. unfold setGroupOpen. pose proof (current_ok m Hm) as H. pose proof (current_spec m) as Hc. destruct (current m) as [s m'].
  destruct H as (Hok & Hv & _), Hc as (Hv0 & _). assert (Ev : view m = view m') by congruence. rewrite Ev. rewrite <-Hv. cbn [fst snd].
  pose proof (group_set_today id open (view m').2 Hid (no_today _ Hok)) as Ht. rewrite <-Hv in Ht. cbn [snd] in Ht. unfold group_set in *.
  destruct (Bool.eqb _ open); [done|]. destruct (commitGroups_ok _ m' Ht Hok) as [H1 H2]. by rewrite H2, <-Hv.
Qed.

Lemma current_view m s m' : current m = (s, m') → nv_collapsed s = (view m).1 ∧ nv_openGroups s = (view m).2 ∧ view m' = view m.
Proof.
  intros E. pose proof (current_spec m) as H. rewrite E in H. destruct H as (Hv & Hs & _ & _).
  split_and!; [by rewrite <-Hv|by rewrite <-Hv|]. unfold view at 1. by rewrite Hs.
Qed.

Lemma current_keeps_ok m s m' : current m = (s, m') → nav_ok m → nav_ok m'.
Proof. intros E Hm. pose proof (current_ok m Hm) as H. rewrite E in H. apply H. Qed.

(** ** Requests *)
Lemma last_snoc_omap {A} (f : MiscPatch → option A) puts p : last (omap f (puts ++ [p])) = newest (f p) (last (omap f puts)).
Proof. rewrite omap_app. cbn. destruct (f p); cbn; [apply last_snoc|by rewrite app_nil_r]. Qed.

(** What waits for a key becomes the last one sent for it. *)
Lemma on_its_way_sent {A} touched (waiting sent : option A) now : on_its_way touched waiting sent now → on_its_way touched None (newest waiting sent) now.
Proof. unfold on_its_way. destruct touched; [|done]. intros [->|[-> ->]]; by right. Qed.

Lemma flushPersist_ok m : nav_ok m → nav_ok (flushPersist m) ∧ view (flushPersist m) = view m ∧ m_pending (flushPersist m) = None.
Proof.
  intros Hm. unfold flushPersist. destruct (m_pending m) as [[b p]|] eqn:E; [|done]. destruct Hm as [H1 H2 H3 H4 H5 H6]. split_and!; [|done|done].
  split; try done; unfold waiting_collapsed, waiting_groups, last_collapsed, last_groups in *; cbn; rewrite last_snoc_omap; rewrite E in *; by apply on_its_way_sent.
Qed.

Lemma frame_ok m : nav_ok m → nav_ok (frame m).
Proof.
  intros [H1 H2 H3 H4 H5 H6]. split; try done; cbn.
  - destruct (m_pending m) as [[b p]|]; [|done]. set_solver.
  - rewrite Forall_app in *. tauto.
Qed.

Lemma task_ok m : nav_ok m → nav_ok (task m) ∧ view (task m) = view m ∧ m_frames (task m) = m_frames m ∧ m_tasks (task m) = tail (m_tasks m).
Proof.
  intros Hm. unfold task. destruct (m_tasks m) as [|b tasks] eqn:Et; [done|]. set (m1 := with_schedule (m_batches m) (m_frames m) tasks m).
  pose proof (no_fresh _ Hm) as Hf. rewrite Et, Forall_app, Forall_cons in Hf.
  assert (H1 : (match m_pending m with Some (b', _) => b ≠ b' | None => True end) → nav_ok m1).
  { intros Hb. pose proof (no_pending _ Hm) as Hp. destruct Hm as [G1 G2 _ _ G5 G6]. split; try done; cbn; [|rewrite Forall_app; tauto].
    destruct (m_pending m) as [[b' p]|]; [|done]. rewrite Et in Hp. set_solver. }
  destruct (m_pending m1) as [[b' p]|] eqn:Ep; cbn in Ep; rewrite Ep in H1; [|by split; [apply H1|]].
  destruct (decide (b = b')) as [<-|Hb]; [|by split; [apply H1|]].
  unfold flushPersist. cbn. rewrite Ep. split_and!; try done. destruct Hm as [G1 G2 _ _ G5 G6].
  split; try done; cbn; [rewrite Forall_app; tauto|..];
    unfold waiting_collapsed, waiting_groups, last_collapsed, last_groups in *; cbn; rewrite last_snoc_omap; rewrite Ep in *; by apply on_its_way_sent.
Qed.

Lemma ls_view_today m : today (ls_view m).2.
Proof. unfold ls_view. destruct (m_storage m); [apply stored_groups_today|]. split; [constructor|apply not_elem_of_nil]. Qed.

Lemma beginSession_ok m : nav_ok m → nav_ok (beginSession m) ∧ view (beginSession m) = ls_view m.
Proof.
  intros Hm. unfold beginSession. set (m1 := with_touched _ _ _). pose proof (hydrate_spec m1) as H. destruct (hydrate m1) as [s m2].
  destruct H as (Hv & Hr & Hl & _). unfold rest in Hr. injection Hr as E1 E2 E3 E4 E5 E6 E7 E8.
  assert (Hv3 : view (with_state (Some s) (m_notified m2) m2) = ls_view m2) by (unfold view; cbn; by rewrite Hv, Hl).
  split; [|rewrite Hv3, Hl; done]. pose proof (ls_view_today m2) as Ht. destruct Hm as [H1 H2 H3 H4 H5 H6].
  split; unfold waiting_collapsed, waiting_groups; rewrite ?Hv3; cbn; rewrite ?E1, ?E2, ?E3, ?E4, ?E5, ?E6; done.
Qed.

(** ** The server's values *)
Definition server_collapsed (touched : bool) (v : option jsval) : option bool := match touched, v with false, Some (VBool b) => Some b | _, _ => None end.
Definition server_groups (touched : bool) (v : option jsval) : option (list string) :=
  match touched, v with false, Some (VArr stored) => Some (migrateGroups stored).1 | _, _ => None end.

(** The server's values shown and mirrored; at most the migrated list of groups is sent. *)
Lemma adopted_ok m m2 p puts : nav_ok m → rest m2 = rest (with_batch (m_pending m) puts m) →
  puts = m_puts m ∨ (m_touched_groups m = false ∧ ∃ l, puts = m_puts m ++ [mkMisc None (Some l)]) →
  (m_storage m = true → ls_view m2 = (default (ls_view m).1 (np_collapsed p), default (ls_view m).2 (np_openGroups p))) →
  (is_Some (np_collapsed p) → m_touched_collapsed m = false) → (is_Some (np_openGroups p) → m_touched_groups m = false) →
  view (update p m2) = (default (view m).1 (np_collapsed p), default (view m).2 (np_openGroups p)) →
  match np_openGroups p with Some l => today l | None => True end → nav_ok (update p m2).
Proof.
  intros [H1 H2 H3 H4 H5 H6] Wr Hp Wl Tc Tg Hv Ht. unfold rest in Wr. cbn in Wr. injection Wr as E1 E2 E3 E4 E5 E6 E7 E8.
  destruct (update_spec p m2) as (_ & Ur & Ul & _). unfold rest in Ur. injection Ur as F1 F2 F3 F4 F5 F6 F7 F8.
  split; unfold waiting_collapsed, waiting_groups in *; rewrite ?F1, ?F2, ?F3, ?F4, ?F5, ?F6, ?F7, ?F8, ?E1, ?E2, ?E3, ?E4, ?E5, ?E6, ?E7, ?E8, ?Hv; cbn [fst snd]; try done.
  - by destruct (np_openGroups p).
  - intros Hs. by rewrite Ul, Wl, H2.
  - replace (last_collapsed puts) with (last_collapsed (m_puts m)).
    + destruct (np_collapsed p); [|done]. rewrite Tc in * by done. done.
    + unfold last_collapsed. destruct Hp as [->|(_ & l & ->)]; [done|]. by rewrite last_snoc_omap.
  - destruct Hp as [->|(Hg & l & ->)]; [|by rewrite Hg in *]. destruct (np_openGroups p); [|done]. rewrite Tg in * by done. done.
Qed.

Lemma reconcileCollapsed_spec c m :
  let '(pc, m1) := reconcileCollapsed c m in
  pc = server_collapsed (m_touched_collapsed m) c ∧ rest m1 = rest m ∧ (view m1).2 = (view m).2 ∧ (pc = None → m1 = m) ∧
  (m_storage m = true → ls_view m1 = (default (ls_view m).1 pc, (ls_view m).2)).
Proof.
  unfold reconcileCollapsed.
  destruct (m_touched_collapsed m); [|destruct c as [[]|]]; cbn; split_and!; try done; try (by intros _; destruct (ls_view m));
    try apply writeLocal_collapsed_spec.
  intros Hs. pose proof (writeLocal_collapsed_spec b m) as (_ & _ & _ & H). by rewrite Hs in H.
Qed.

Lemma reconcileGroups_spec g m :
  let '(pg, m1) := reconcileGroups g m in
  pg = server_groups (m_touched_groups m) g ∧
  (∃ puts, rest m1 = rest (with_batch (m_pending m) puts m) ∧
    (puts = m_puts m ∨ (m_touched_groups m = false ∧ ∃ l, puts = m_puts m ++ [mkMisc None (Some l)]))) ∧
  (view m1).1 = (view m).1 ∧ (pg = None → m1 = m) ∧
  (m_storage m = true → ls_view m1 = ((ls_view m).1, default (ls_view m).2 pg)).
Proof.
  unfold reconcileGroups.
  assert (Hid : ∃ puts, rest m = rest (with_batch (m_pending m) puts m) ∧
    (puts = m_puts m ∨ (m_touched_groups m = false ∧ ∃ l, puts = m_puts m ++ [mkMisc None (Some l)]))) by (exists (m_puts m); auto).
  destruct (m_touched_groups m); [|destruct g as [[| | | | |stored|]|]]; cbn [server_groups];
    try (split_and!; [done|exact Hid|done|done|by intros _; destruct (ls_view m)]).
  pose proof (migrate_today stored) as Ht. destruct (migrateGroups stored) as [ids changed]. cbn [fst snd] in *.
  pose proof (writeLocal_groups_spec ids m Ht) as (Wr & _ & Wv & Wl). set (w := writeLocal_groups ids m) in *. cbn in Wr, Wv, Wl.
  unfold rest in Wr. injection Wr as W1 W2 W3 W4 W5 W6 W7 W8. split_and!; [done| | |done|].
  - exists (if changed then m_puts m ++ [mkMisc None (Some ids)] else m_puts m).
    destruct changed; split; try (unfold rest; cbn; congruence); [right; eauto|by left].
  - by destruct changed.
  - intros Hs. rewrite Hs in Wl. by destruct changed.
Qed.

Lemma reconcile_ok c g m : nav_ok m →
  nav_ok (reconcile c g m) ∧
  view (reconcile c g m) =
    (default (view m).1 (server_collapsed (m_touched_collapsed m) c), default (view m).2 (server_groups (m_touched_groups m) g)).
Proof.
  intros Hm. unfold reconcile. pose proof (reconcileCollapsed_spec c m) as H. destruct (reconcileCollapsed c m) as [pc m1].
  destruct H as (-> & Hr & Hv & Hn & Hl). pose proof (reconcileGroups_spec g m1) as H. destruct (reconcileGroups g m1) as [pg m2].
  destruct H as (-> & (puts & Hr2 & Hp) & Hv2 & Hn2 & Hl2). unfold rest in Hr. injection Hr as E1 E2 E3 E4 E5 E6 E7 E8. rewrite E2 in *.
  set (sc := server_collapsed (m_touched_collapsed m) c) in *. set (sg := server_groups (m_touched_groups m) g) in *.
  assert (Hview : view (update (mkPatch sc sg None None None) m2) = (default (view m).1 sc, default (view m).2 sg)).
  { destruct (update_spec (mkPatch sc sg None None None) m2) as (-> & _).
    cbn. f_equal; [destruct sc|destruct sg]; cbn; try done; [by rewrite Hv2, Hn|by rewrite Hn2, Hv]. }
  split; [|done]. apply (adopted_ok m m2 _ puts); cbn; try done.
  - rewrite Hr2. unfold rest. cbn. congruence.
  - by rewrite <-E7.
  - intros Hs. by rewrite Hl2, Hl; [|done|congruence].
  - subst sc. by destruct (m_touched_collapsed m); [intros []|].
  - subst sg. by destruct (m_touched_groups m); [intros []|].
  - subst sg. destruct (m_touched_groups m), g as [[]|]; try done. apply migrate_today.
Qed.
