(* ===== verification/NavStoreTheorems.v ===== *)
(** * The navigation store over a session: the mirror, the writes, the boundary between sessions *)

From S2P Require Import Prelude JsValue NavStore NavStoreSpec.
From Stdlib Require Import QArith.
Local Close Scope Q_scope.

(** The group an operation names, if any, is one of this release's. *)
Definition today_op (o : nav_op) : Prop :=
  match o with NSetGroup id _ | NToggleGroup id | NOpenGroup id => id ≠ "metrics" | _ => True end.

Lemma plain_update_ok p m : np_collapsed p = None → np_openGroups p = None → nav_ok m → nav_ok (update p m) ∧ view (update p m) = view m.
Proof.
  intros Hc Hg Hm. split; [by apply update_ok|]. destruct (update_spec p m) as (-> & _). rewrite Hc, Hg. by destruct (view m).
Qed.

Lemma run_nav_ok o m : today_op o → nav_ok m → nav_ok (run_nav o m).
Proof.
  intros Ho Hm. destruct o; cbn [run_nav today_op] in *.
  - by apply setCollapsed_ok.
  - unfold toggleCollapsed. destruct (current m) as [s m'] eqn:E. apply setCollapsed_ok. by apply (current_keeps_ok m s).
  - by apply setGroupOpen_ok.
  - unfold toggleGroup. destruct (current m) as [s m'] eqn:E. apply setGroupOpen_ok; [done|]. by apply (current_keeps_ok m s).
  - by apply setGroupOpen_ok.
  - unfold setFlyout. destruct (current m) as [s m'] eqn:E. apply update_ok; try done. by apply (current_keeps_ok m s).
  - unfold setTrail. destruct (current m) as [s m'] eqn:E. pose proof (current_keeps_ok m s m' E Hm) as Hm'.
    destruct items as [items|]; case_match; try done; by apply update_ok.
  - by apply reconcile_ok.
  - by apply beginSession_ok.
  - by apply frame_ok.
  - by apply task_ok.
  - by apply flushPersist_ok.
Qed.

Lemma run_navs_ok ops m : Forall today_op ops → nav_ok m → nav_ok (run_navs ops m).
Proof. unfold run_navs. revert m. induction ops as [|o ops IH]; intros m Ho Hm; [done|]. inversion Ho; subst. cbn. apply IH; [done|]. by apply run_nav_ok. Qed.

Lemma run_navs_app o1 o2 m : run_navs (o1 ++ o2) m = run_navs o2 (run_navs o1 m).
Proof. apply foldl_app. Qed.

(** ** What no operation takes back *)

(** Storage stays usable or not, and the keys the viewer changed stay so until a session begins. *)
Record nav_kept (m m' : Module) : Prop := {
  kept_storage : m_storage m' = m_storage m;
  kept_collapsed : m_touched_collapsed m = true → m_touched_collapsed m' = true;
  kept_groups : m_touched_groups m = true → m_touched_groups m' = true;
}.
#[export] Instance kept_preorder : PreOrder nav_kept.
Proof. split; [by split|]. intros a b c [? ? ?] [? ? ?]. split; [congruence|auto|auto]. Qed.

Create HintDb nav.

Lemma kept_rest m m' : rest m' = rest m → nav_kept m m'.
Proof. unfold rest. intros E. injection E as E1 E2 _ _ _ _ _ E8. split; [done|by rewrite E1|by rewrite E2]. Qed.

Lemma kept_current m s m' : current m = (s, m') → nav_kept m m'.
Proof. intros E. pose proof (current_spec m) as H. rewrite E in H. apply kept_rest, H. Qed.
Lemma kept_update p m : nav_kept m (update p m). Proof. apply kept_rest, update_spec. Qed.
Lemma kept_write_collapsed b m : nav_kept m (writeLocal_collapsed b m). Proof. apply kept_rest, writeLocal_collapsed_spec. Qed.
Lemma kept_write_groups l m : nav_kept m (writeLocal_groups l m).
Proof. unfold writeLocal_groups. destruct (m_storage m) eqn:E; by split. Qed.
Lemma kept_persist p m : nav_kept m (persist p m).
Proof. unfold persist. cbn. destruct (m_pending m) as [[? ?]|]; split; cbn; try done; by intros ->. Qed.
#[export] Hint Resolve kept_update kept_write_collapsed kept_write_groups kept_persist : nav.

Lemma kept_setCollapsed b m : nav_kept m (setCollapsed b m).
Proof. unfold setCollapsed. etrans; [|apply kept_update]. etrans; [|apply kept_persist]. auto with nav. Qed.
Lemma kept_setGroupOpen id open m : nav_kept m (setGroupOpen id open m).
Proof.
  unfold setGroupOpen. destruct (current m) as [s m'] eqn:E. apply kept_current in E as Hk. case_match; [done|]. etrans; [exact Hk|].
  unfold commitGroups. etrans; [|apply kept_update]. etrans; [|apply kept_persist]. auto with nav.
Qed.
Lemma kept_task m : nav_kept m (task m).
Proof. unfold task. destruct (m_tasks m); [done|]. cbn. repeat case_match; try by split. unfold flushPersist. cbn. case_match; [|by split]. case_match. by split. Qed.
Lemma kept_reconcile c g m : nav_kept m (reconcile c g m).
Proof.
  unfold reconcile. destruct (reconcileCollapsed c m) as [pc m1] eqn:E1, (reconcileGroups g m1) as [pg m2] eqn:E2. etrans; [|apply kept_update].
  pose proof (reconcileCollapsed_spec c m) as H. rewrite E1 in H. destruct H as (_ & H & _). etrans; [by apply kept_rest|].
  pose proof (reconcileGroups_spec g m1) as H'. rewrite E2 in H'. destruct H' as (_ & (puts & H' & _) & _).
  etrans; [|by apply kept_rest]. by split.
Qed.

(** A session begins *)
Definition begins (o : nav_op) : bool := match o with NBeginSession => true | _ => false end.

Lemma storage_begin m : m_storage (beginSession m) = m_storage m.
Proof.
  unfold beginSession. set (m1 := with_touched _ _ _). pose proof (hydrate_spec m1) as H. destruct (hydrate m1) as [s m2].
  destruct H as (_ & H & _). apply kept_rest in H. apply H.
Qed.

Lemma kept_run o m : begins o = false → nav_kept m (run_nav o m).
Proof.
  intros Hb. destruct o; cbn [run_nav]; try done.
  - apply kept_setCollapsed.
  - unfold toggleCollapsed. destruct (current m) as [s m'] eqn:E. etrans; [by eapply kept_current|apply kept_setCollapsed].
  - apply kept_setGroupOpen.
  - unfold toggleGroup. destruct (current m) as [s m'] eqn:E. etrans; [by eapply kept_current|apply kept_setGroupOpen].
  - apply kept_setGroupOpen.
  - unfold setFlyout. destruct (current m) as [s m'] eqn:E. etrans; [by eapply kept_current|auto with nav].
  - unfold setTrail. destruct (current m) as [s m'] eqn:E. apply kept_current in E as Hk. repeat case_match; try done; (etrans; [exact Hk|auto with nav]).
  - apply kept_reconcile.
  - apply kept_task.
  - unfold flushPersist. case_match; [|done]. case_match. by split.
Qed.

Lemma run_navs_storage ops m : m_storage (run_navs ops m) = m_storage m.
Proof.
  revert m. induction ops as [|o ops IH]; intros m; [done|]. cbn. unfold run_navs in IH. rewrite IH.
  destruct (begins o) eqn:E; [|by apply kept_storage, kept_run]. destruct o; try done. apply storage_begin.
Qed.

(** ** The mirror *)

(** C23. Whatever the device held when the page loaded and whatever happened since, a page loaded now reads
    from the mirror the rail and the open groups that this page shows. *)
Theorem nav_mirror (c : option string) (g : Stored) (ops : list nav_op) (H : Forall today_op ops) :
  let m := run_navs ops (loaded true c g) in
  nv_collapsed (hydrate m).1 = nv_collapsed (current m).1 ∧ nv_openGroups (hydrate m).1 = nv_openGroups (current m).1.
Proof.
  cbv zeta. set (m := run_navs ops _). assert (Hm : nav_ok m) by (apply run_navs_ok; [done|apply loaded_ok]).
  assert (Hs : m_storage m = true) by apply run_navs_storage.
  pose proof (hydrate_spec m) as Hh. pose proof (current_spec m) as Hc. destruct (hydrate m) as [s m1], (current m) as [s' m2]. cbn [fst].
  destruct Hh as (Hh & _), Hc as (Hc & _). rewrite (no_mirror _ Hm Hs) in Hh. split; congruence.
Qed.

(** ** The writes *)

(** The next frame, and every task then waiting *)
Definition settled (m : Module) : Module := Nat.iter (length (m_frames m ++ m_tasks m)) task (frame m).

Lemma tail_drop {A} n (l : list A) : tail (drop n l) = drop (S n) l.
Proof. revert l. induction n as [|n IH]; intros [|x l]; try done. cbn. destruct n; [done|]. apply IH. Qed.

Lemma tasks_run n m : nav_ok m → m_frames m = [] → let m' := Nat.iter n task m in
  nav_ok m' ∧ view m' = view m ∧ m_frames m' = [] ∧ m_tasks m' = drop n (m_tasks m).
Proof.
  intros Hm Hf. cbv zeta. induction n as [|n (IH1 & IH2 & IH3 & IH4)]; [done|]. rewrite Nat.iter_succ.
  destruct (task_ok _ IH1) as (T1 & T2 & T3 & T4). split_and!; [done|by rewrite T2|by rewrite T3|].
  rewrite T4, IH4. apply tail_drop.
Qed.

Lemma settled_ok m : nav_ok m → nav_ok (settled m) ∧ view (settled m) = view m ∧ m_frames (settled m) = [] ∧ m_tasks (settled m) = [].
Proof.
  intros Hm. unfold settled. destruct (tasks_run (length (m_frames m ++ m_tasks m)) (frame m) (frame_ok m Hm) eq_refl) as (H1 & H2 & H3 & H4).
  split_and!; [done| |done|].
  - rewrite H2. done.
  - rewrite H4. cbn. apply drop_ge. rewrite !length_app. lia.
Qed.

(** ** Choices reach the server *)

(** An operation that sets the rail, or the groups, anew *)
Definition sets_rail (o : nav_op) : bool := match o with NSetCollapsed _ | NToggleCollapsed | NBeginSession => true | _ => false end.
Definition sets_groups (o : nav_op) : bool := match o with NSetGroup _ _ | NToggleGroup _ | NOpenGroup _ | NBeginSession => true | _ => false end.

(** What the viewer changed stays shown, whatever the server's values are. *)
Lemma touched_view o m : today_op o → nav_ok m →
  (sets_rail o = false → m_touched_collapsed m = true → (view (run_nav o m)).1 = (view m).1) ∧
  (sets_groups o = false → m_touched_groups m = true → (view (run_nav o m)).2 = (view m).2).
Proof.
  intros Ho Hm. destruct o; cbn [run_nav sets_rail sets_groups today_op] in *.
  - split; [done|]. intros _ _. by destruct (setCollapsed_ok b m Hm) as [_ ->].
  - split; [done|]. intros _ _. unfold toggleCollapsed. destruct (current m) as [s m'] eqn:E.
    destruct (setCollapsed_ok (negb (nv_collapsed s)) m' (current_keeps_ok _ _ _ E Hm)) as [_ ->]. cbn. by destruct (current_view _ _ _ E) as (_ & _ & ->).
  - split; [|done]. intros _ _. by destruct (setGroupOpen_ok id open m Ho Hm) as [_ ->].
  - split; [|done]. intros _ _. unfold toggleGroup. destruct (current m) as [s m'] eqn:E.
    destruct (setGroupOpen_ok id (negb (bool_decide (id ∈ nv_openGroups s))) m' Ho (current_keeps_ok _ _ _ E Hm)) as [_ ->]. cbn. by destruct (current_view _ _ _ E) as (_ & _ & ->).
  - split; [|done]. intros _ _. unfold openGroup. by destruct (setGroupOpen_ok id true m Ho Hm) as [_ ->].
  - unfold setFlyout. destruct (current m) as [s m'] eqn:E. pose proof (current_keeps_ok _ _ _ E Hm) as Hm'. destruct (current_view _ _ _ E) as (_ & _ & Hv).
    match goal with |- context [update ?p m'] => destruct (plain_update_ok p m' eq_refl eq_refl Hm') as [_ ->] end. by rewrite Hv.
  - unfold setTrail. destruct (current m) as [s m'] eqn:E. pose proof (current_keeps_ok _ _ _ E Hm) as Hm'. destruct (current_view _ _ _ E) as (_ & _ & Hv).
    rewrite <-Hv. destruct items as [items|]; case_match; try done;
      match goal with |- context [update ?p m'] => by destruct (plain_update_ok p m' eq_refl eq_refl Hm') as [_ ->] end.
  - destruct (reconcile_ok collapsed groups m Hm) as [_ ->]. split; intros _ ->; done.
  - done.
  - done.
  - by destruct (task_ok m Hm) as (_ & -> & _).
  - by destruct (flushPersist_ok m Hm) as (_ & -> & _).
Qed.

Lemma choice_kept ops m : Forall today_op ops → nav_ok m →
  (forallb (λ o, negb (sets_rail o)) ops = true → m_touched_collapsed m = true →
    (view (run_navs ops m)).1 = (view m).1 ∧ m_touched_collapsed (run_navs ops m) = true) ∧
  (forallb (λ o, negb (sets_groups o)) ops = true → m_touched_groups m = true →
    (view (run_navs ops m)).2 = (view m).2 ∧ m_touched_groups (run_navs ops m) = true).
Proof.
  revert m. induction ops as [|o ops IH]; intros m Ho Hm; [done|]. inversion Ho as [|?? Ho1 Ho2]; subst.
  destruct (touched_view o m Ho1 Hm) as [T1 T2]. destruct (IH (run_nav o m) Ho2 (run_nav_ok o m Ho1 Hm)) as [I1 I2].
  cbn [forallb]. split; intros [H1%negb_true_iff H2]%andb_true_iff Ht.
  - change (run_navs (o :: ops) m) with (run_navs ops (run_nav o m)). rewrite <-T1 by done. apply I1; [done|]. apply (kept_run o m); [by destruct o|done].
  - change (run_navs (o :: ops) m) with (run_navs ops (run_nav o m)). rewrite <-T2 by done. apply I2; [done|]. apply (kept_run o m); [by destruct o|done].
Qed.

Lemma setCollapsed_touches b m : m_touched_collapsed (setCollapsed b m) = true.
Proof.
  unfold setCollapsed. set (m1 := writeLocal_collapsed b m). set (m2 := persist _ m1). apply (kept_update _ m2). unfold m2, persist. cbn.
  destruct (m_pending m1) as [[? ?]|]; cbn; apply orb_true_r.
Qed.

Lemma setGroupOpen_touches id open m : bool_decide (id ∈ (view m).2) ≠ open → m_touched_groups (setGroupOpen id open m) = true.
Proof.
  intros Hd. unfold setGroupOpen. destruct (current m) as [s m'] eqn:E. destruct (current_view _ _ _ E) as (_ & -> & _).
  destruct (Bool.eqb _ open) eqn:Eb; [by apply eqb_prop in Eb|]. unfold commitGroups. apply kept_update. unfold persist.
  set (m1 := writeLocal_groups _ m'). cbn. destruct (m_pending m1) as [[? ?]|]; cbn; apply orb_true_r.
Qed.

Lemma settled_sent m : nav_ok m →
  m_pending (settled m) = None ∧
  (m_touched_collapsed m = true → last_collapsed (m_puts (settled m)) = Some (view m).1) ∧
  (m_touched_groups m = true → last_groups (m_puts (settled m)) = Some (view m).2).
Proof.
  intros Hm. destruct (settled_ok m Hm) as (Hs & Hv & Hf & Ht).
  assert (Hp : m_pending (settled m) = None).
  { pose proof (no_pending _ Hs) as Hp. rewrite Hf, Ht in Hp. destruct (m_pending (settled m)) as [[b p]|]; [|done]. by apply not_elem_of_nil in Hp. }
  assert (Hk : nav_kept m (settled m)).
  { unfold settled. generalize (length (m_frames m ++ m_tasks m)). intros n. induction n as [|n IH]; [by split|]. rewrite Nat.iter_succ. etrans; [exact IH|apply kept_task]. }
  split; [done|]. split; intros Ht'.
  - pose proof (no_collapsed _ Hs) as Hc. unfold waiting_collapsed in Hc. rewrite Hp, Hv, (kept_collapsed _ _ Hk Ht') in Hc.
    cbn in Hc. by destruct Hc as [|[_ ?]].
  - pose proof (no_groups _ Hs) as Hc. unfold waiting_groups in Hc. rewrite Hp, Hv, (kept_groups _ _ Hk Ht') in Hc.
    cbn in Hc. by destruct Hc as [|[_ ?]].
Qed.

(** C24. The viewer sets the rail, and then anything but the rail and a new session happens, the server's older
    values included: the page still shows the choice, and once a frame has passed nothing waits and the last
    value sent for the rail is the choice. *)
Theorem rail_choice_sent (storage : bool) (c : option string) (g : Stored) (before after : list nav_op) (b : bool)
    (Hb : Forall today_op before) (Ha : Forall today_op after) (Hr : forallb (λ o, negb (sets_rail o)) after = true) :
  let m := run_navs (before ++ NSetCollapsed b :: after) (loaded storage c g) in
  nv_collapsed (current m).1 = b ∧ m_pending (settled m) = None ∧ last_collapsed (m_puts (settled m)) = Some b.
Proof.
  cbv zeta. rewrite run_navs_app. set (m0 := run_navs before _). assert (H0 : nav_ok m0) by (apply run_navs_ok; [done|apply loaded_ok]).
  change (run_navs (NSetCollapsed b :: after) m0) with (run_navs after (setCollapsed b m0)). destruct (setCollapsed_ok b m0 H0) as [H1 Hv].
  destruct (choice_kept after _ Ha H1) as [Hk _]. destruct (Hk Hr (setCollapsed_touches b m0)) as [Hk1 Hk2]. clear Hk.
  set (m := run_navs after _) in *. assert (Hm : nav_ok m) by (by apply run_navs_ok). rewrite Hv in Hk1. cbn in Hk1.
  destruct (current m) as [s m'] eqn:E. destruct (current_view _ _ _ E) as (Ec & _ & _). cbn [fst].
  destruct (settled_sent m Hm) as (S1 & S2 & _). split_and!; [by rewrite Ec|done|]. by rewrite S2, Hk1.
Qed.

(** The same for a group: its choice is shown among the others', and the list sent last is the one shown. *)
Theorem group_choice_sent (storage : bool) (c : option string) (g : Stored) (before after : list nav_op) (id : string) (open : bool)
    (Hid : id ≠ "metrics") (Hb : Forall today_op before) (Ha : Forall today_op after) (Hr : forallb (λ o, negb (sets_groups o)) after = true)
    (Hd : bool_decide (id ∈ nv_openGroups (current (run_navs before (loaded storage c g))).1) ≠ open) :
  let m := run_navs (before ++ NSetGroup id open :: after) (loaded storage c g) in
  bool_decide (id ∈ nv_openGroups (current m).1) = open ∧ m_pending (settled m) = None ∧
  last_groups (m_puts (settled m)) = Some (nv_openGroups (current m).1).
Proof.
  cbv zeta. rewrite run_navs_app. set (m0 := run_navs before _) in *. assert (H0 : nav_ok m0) by (apply run_navs_ok; [done|apply loaded_ok]).
  change (run_navs (NSetGroup id open :: after) m0) with (run_navs after (setGroupOpen id open m0)). destruct (setGroupOpen_ok id open m0 Hid H0) as [H1 Hv].
  destruct (current m0) as [s0 m0'] eqn:E0. destruct (current_view _ _ _ E0) as (_ & Eg & _). cbn [fst] in Hd. rewrite Eg in Hd.
  destruct (choice_kept after _ Ha H1) as [_ Hk]. destruct (Hk Hr (setGroupOpen_touches id open m0 Hd)) as [Hk1 Hk2]. clear Hk.
  set (m := run_navs after _) in *. assert (Hm : nav_ok m) by (by apply run_navs_ok). rewrite Hv in Hk1. cbn [snd] in Hk1.
  destruct (current m) as [s m'] eqn:E. destruct (current_view _ _ _ E) as (_ & Ec & _). cbn [fst]. rewrite Ec.
  destruct (settled_sent m Hm) as (S1 & _ & S3). split_and!; [|done|by rewrite S3].
  rewrite Hk1. unfold group_set. destruct (bool_decide (id ∈ (view m0).2)) eqn:Eb, open; try done; cbn.
  - rewrite bool_decide_eq_false, list_elem_of_filter. tauto.
  - rewrite bool_decide_eq_true. set_solver.
Qed.

(** ** The boundary between sessions *)

(** An operation that may make something to send: the viewer's choices, and the server's values *)
Definition may_send (o : nav_op) : bool := match o with NFlyout _ _ | NTrail _ _ | NBeginSession | NFrame | NTask | NHide => false | _ => true end.

Lemma silent_rest m m' : rest m' = rest m → m_pending m' = m_pending m ∧ m_puts m' = m_puts m.
Proof. unfold rest. intros E. by injection E as _ _ -> _ _ _ -> _. Qed.

Lemma silent_op o m : may_send o = false → m_pending m = None → m_pending (run_nav o m) = None ∧ m_puts (run_nav o m) = m_puts m.
Proof.
  intros Ho Hp. destruct o; try done; cbn [run_nav].
  - unfold setFlyout. destruct (current m) as [s m'] eqn:E. pose proof (current_spec m) as H. rewrite E in H. destruct H as (_ & _ & H & _).
    match goal with |- context [update ?p m'] => destruct (update_spec p m') as (_ & Hu & _) end.
    apply silent_rest in H as [H1 H2]. apply silent_rest in Hu as [-> ->]. rewrite <-H2. split; [|done]. congruence.
  - unfold setTrail. destruct (current m) as [s m'] eqn:E. pose proof (current_spec m) as H. rewrite E in H. destruct H as (_ & _ & H & _).
    apply silent_rest in H as [H1 H2]. rewrite <-H2. assert (Hp' : m_pending m' = None) by congruence.
    destruct items as [items|]; case_match; try done;
      match goal with |- context [update ?p m'] => destruct (update_spec p m') as (_ & Hu & _); apply silent_rest in Hu as [-> ->] end; done.
  - unfold beginSession. pose proof (hydrate_spec (with_touched false false (with_batch None (m_puts m) m))) as H. destruct (hydrate _) as [s m'].
    destruct H as (_ & H & _). apply silent_rest in H as [H1 H2]. by cbn; rewrite H1, H2.
  - unfold task. destruct (m_tasks m); [done|]. cbn. by rewrite !Hp.
  - unfold flushPersist. by rewrite Hp.
Qed.

Lemma silent_ops ops m : forallb (λ o, negb (may_send o)) ops = true → m_pending m = None → m_puts (run_navs ops m) = m_puts m.
Proof.
  revert m. induction ops as [|o ops IH]; intros m Ho Hp; [done|]. cbn in Ho. apply andb_true_iff in Ho as [H1%negb_true_iff H2].
  destruct (silent_op o m H1 Hp) as [Hp' <-]. by apply IH.
Qed.

(** C25. No change of a session that ended is sent: once a new session begins, only the new session's own choices
    and the server's values can make a request, however many frames and tasks of the old one still wait. *)
Theorem session_boundary (m : Module) (before after : list nav_op) (H : forallb (λ o, negb (may_send o)) after = true) :
  m_puts (run_navs (before ++ NBeginSession :: after) m) = m_puts (run_navs before m).
Proof.
  rewrite run_navs_app. set (m0 := run_navs before m). change (run_navs (NBeginSession :: after) m0) with (run_navs after (beginSession m0)).
  assert (E : m_pending (beginSession m0) = None ∧ m_puts (beginSession m0) = m_puts m0).
  { unfold beginSession. pose proof (hydrate_spec (with_touched false false (with_batch None (m_puts m0) m0))) as Hh. destruct (hydrate _) as [s m'].
    destruct Hh as (_ & Hh & _). apply silent_rest in Hh as [H1 H2]. by cbn; rewrite H1, H2. }
  destruct E as [E1 <-]. by apply silent_ops.
Qed.

(** ** Histories *)

(** A device of an earlier release: the Metrics group open. The viewer closes the drawer before the preferences arrive. *)
Definition device : option string * Stored := (Some "0", Json (VArr [VStr "metrics"; VNum 1; VStr "metrics"; VStr "admin"])).
Definition closes_early : list nav_op :=
  [NSetCollapsed true; NReconcile (Some (VBool false)) (Some (VArr [VStr "metrics"])); NFlyout (Some "admin") (Some 12%Q); NFrame; NOpenGroup "detect"; NTask].

Lemma nav_mirror_witness :
  nv_collapsed (hydrate (run_navs closes_early (loaded true device.1 device.2))).1 = true ∧
  nv_openGroups (hydrate (run_navs closes_early (loaded true device.1 device.2))).1 = ["analytics"; "detect"].
Proof.
  assert (H : Forall today_op closes_early) by (repeat constructor; done).
  destruct (nav_mirror device.1 device.2 closes_early H) as [-> ->]. split; vm_compute; reflexivity.
Defined.

Lemma rail_choice_sent_witness :
  m_pending (settled (run_navs closes_early (loaded true device.1 device.2))) = None ∧
  last_collapsed (m_puts (settled (run_navs closes_early (loaded true device.1 device.2)))) = Some true.
Proof.
  refine (proj2 (rail_choice_sent true device.1 device.2 [] (tail closes_early) true _ _ eq_refl)); repeat constructor; done.
Defined.

(** The change waits for its task when the next session begins; without that session it is sent. *)
Lemma session_boundary_witness :
  m_puts (run_navs ([NSetCollapsed true; NFrame] ++ NBeginSession :: [NTask; NFrame; NTask; NHide]) (loaded true device.1 device.2)) = [] ∧
  m_puts (run_navs [NSetCollapsed true; NFrame; NTask] (loaded true device.1 device.2)) = [mkMisc (Some true) None].
Proof. split; [by rewrite (session_boundary (loaded true device.1 device.2) [NSetCollapsed true; NFrame] [NTask; NFrame; NTask; NHide] eq_refl)|reflexivity]. Defined.

(** The migrated list is written to the device at the first read and sent once, and is not the viewer's change. *)
Example migrates_once :
  nv_openGroups (current (loaded true device.1 device.2)).1 = ["analytics"; "admin"] ∧
  m_puts (run_navs [NReconcile None (Some (VArr [VStr "metrics"])); NReconcile None (Some (VArr [VStr "analytics"]))] (loaded true device.1 device.2))
    = [mkMisc None (Some ["analytics"])].
Proof. split; reflexivity. Qed.

(** A page that wrote "metrics" itself would read it back as another group. *)
Example old_id_kept :
  nv_openGroups (current (run_navs [NOpenGroup "metrics"] (loaded true None Absent))).1 = ["metrics"] ∧
  nv_openGroups (current (run_navs [NOpenGroup "metrics"; NBeginSession] (loaded true None Absent))).1 = ["analytics"].
Proof. split; reflexivity. Qed.
