(* ===== verification/EventStream.v ===== *)
(** * The live event stream (lib/useEventStream.ts)

    One run of the connect effect is one record: its closure variables, the probes and the source that can
    still call back, the timer, and what it did. The environment's callbacks are the steps, in any order.
    An [EventSource] that was closed, or whose handlers were taken off, calls back no more. *)

From S2P Require Import Prelude JsText JsMap DisplayText StreamParse.
From Stdlib Require Import QArith Qround.
Local Close Scope Q_scope.
Local Open Scope Z_scope.

(** ** Constants *)
Definition AGENT_STEP_CHANNEL : string := "agent.step".
Definition STREAM_CHANNELS : list string :=
  ["message"; "inapp"; "case.activity"; AGENT_STEP_CHANNEL; "job"; "chat.turn"; "chat.read"; "case.changed"; "case.runbook"; "overflow"].
Definition BACKOFF_MS : list Z := [1000; 2000; 5000; 10000; 30000].
Definition MAX_COLD_FAILURES : nat := 4.

(** [random]: what [Math.random()] returns *)
Definition jitter (random : Q) (ms : Z) : Z := ms + Qfloor ((random - (1 # 2)) * inject_Z (Z.min ms 1000))%Q.

(** ** One subscription *)

(** What a frame's payload becomes: JSON, the raw text, or nothing *)
Record StreamEvent := mkStreamEvent { se_type : string; se_data : jv; se_lastEventId : text }.

Record Subscription := mkSub {
  s_cancelled : bool;
  s_es : option nat;            (** the open source, by number *)
  s_reconnectTimer : option Z;  (** the wait it was set with *)
  s_coldFailures : nat;
  s_live : bool;
  s_probes : list nat;          (** probes without an answer *)
  s_resolved : list nat;        (** probes answered, whose promise can still reject *)
  s_fetches : nat;              (** probes made *)
  s_sources : nat;              (** sources made *)
  s_events : list StreamEvent;  (** frames handed to the caller *)
}.

Definition set_streaming (b : bool) (s : Subscription) : Subscription :=
  mkSub (s_cancelled s) (s_es s) (s_reconnectTimer s) (s_coldFailures s) b (s_probes s) (s_resolved s) (s_fetches s) (s_sources s) (s_events s).
Definition set_cold (n : nat) (s : Subscription) : Subscription :=
  mkSub (s_cancelled s) (s_es s) (s_reconnectTimer s) n (s_live s) (s_probes s) (s_resolved s) (s_fetches s) (s_sources s) (s_events s).
Definition set_timer (t : option Z) (s : Subscription) : Subscription :=
  mkSub (s_cancelled s) (s_es s) t (s_coldFailures s) (s_live s) (s_probes s) (s_resolved s) (s_fetches s) (s_sources s) (s_events s).
Definition set_probes (waiting resolved : list nat) (fetches : nat) (s : Subscription) : Subscription :=
  mkSub (s_cancelled s) (s_es s) (s_reconnectTimer s) (s_coldFailures s) (s_live s) waiting resolved fetches (s_sources s) (s_events s).
Definition set_es (es : option nat) (sources : nat) (s : Subscription) : Subscription :=
  mkSub (s_cancelled s) es (s_reconnectTimer s) (s_coldFailures s) (s_live s) (s_probes s) (s_resolved s) (s_fetches s) sources (s_events s).
Definition set_cancelled (s : Subscription) : Subscription :=
  mkSub true (s_es s) (s_reconnectTimer s) (s_coldFailures s) (s_live s) (s_probes s) (s_resolved s) (s_fetches s) (s_sources s) (s_events s).
Definition hand_over (e : StreamEvent) (s : Subscription) : Subscription :=
  mkSub (s_cancelled s) (s_es s) (s_reconnectTimer s) (s_coldFailures s) (s_live s) (s_probes s) (s_resolved s) (s_fetches s) (s_sources s) (s_events s ++ [e]).

Definition clearTimer (s : Subscription) : Subscription := set_timer None s.
Definition teardownEs (s : Subscription) : Subscription := set_es None (s_sources s) s.

Definition scheduleReconnect (random : Q) (s : Subscription) : Subscription :=
  if s_cancelled s then s
  else if (MAX_COLD_FAILURES <=? s_coldFailures s)%nat then s
  else
    let base := default 0 (BACKOFF_MS !! Nat.min (s_coldFailures s) (length BACKOFF_MS - 1)) in
    set_timer (Some (jitter random base)) (clearTimer s).

(** A failure before the stream was confirmed, and the next try *)
Definition coldFailure (random : Q) (s : Subscription) : Subscription := scheduleReconnect random (set_streaming false (set_cold (S (s_coldFailures s)) s)).

Definition connect (s : Subscription) : Subscription :=
  if s_cancelled s then s else set_probes (s_probes s ++ [s_fetches s]) (s_resolved s) (S (s_fetches s)) s.

(** [throws]: the constructor does. *)
Definition openStream (throws : bool) (random : Q) (s : Subscription) : Subscription :=
  let s := teardownEs s in
  if throws then coldFailure random s else set_es (Some (s_sources s)) (S (s_sources s)) s.

Section frames.
Context `{JsonHost}.

(** [data]: the frame's payload, where it is text *)
Definition frame_data (data : option text) : jv :=
  match default [] data with
  | [] => JvNull
  | raw => default (JvStr raw) (json_parse raw)
  end.

Definition handleFrame (type : string) (data : option text) (lastEventId : text) (s : Subscription) : Subscription :=
  hand_over (mkStreamEvent type (frame_data data) lastEventId) (set_cold 0 s).

(** ** The callbacks *)
Inductive callback :=
  | ProbeAnswers (n : nat) (status : Z) (throws : bool) (random : Q)
  | ProbeRejects (n : nat) (random : Q)
  | SourceOpens (n : nat)
  | SourceFrame (n : nat) (channel : string) (data : option text) (lastEventId : text)
  | SourceErrors (n : nat) (readyOpen : bool) (random : Q)   (** [readyOpen]: its [readyState] is [OPEN] *)
  | TimerFires
  | Cleanup.

Definition stream_step (c : callback) (s : Subscription) : Subscription :=
  match c with
  | ProbeAnswers n status throws random =>
      if decide (n ∈ s_probes s) then
        let s := set_probes (filter (λ m, m ≠ n) (s_probes s)) (n :: s_resolved s) (s_fetches s) s in
        if s_cancelled s then s
        else if status =? 204 then set_streaming false s
        else if (200 <=? status) && (status <? 300) then openStream throws random s
        else coldFailure random s
      else s
  | ProbeRejects n random =>
      if decide (n ∈ s_probes s) then
        let s := set_probes (filter (λ m, m ≠ n) (s_probes s)) (s_resolved s) (s_fetches s) s in
        if s_cancelled s then s
        else if bool_decide (is_Some (s_es s)) then s
        else coldFailure random s
      else s   (** its answer was handled: nothing *)
  | SourceOpens n =>
      if decide (s_es s = Some n) then (if s_cancelled s then s else set_streaming true (set_cold 0 s)) else s
  | SourceFrame n channel data lastEventId =>
      if decide (s_es s = Some n ∧ channel ∈ STREAM_CHANNELS) then
        if s_cancelled s then s else handleFrame channel data lastEventId (set_streaming true s)
      else s
  | SourceErrors n readyOpen random =>
      if decide (s_es s = Some n) then
        if s_cancelled s then s
        else
          let s := if readyOpen then s else set_cold (S (s_coldFailures s)) s in
          scheduleReconnect random (teardownEs (set_streaming false s))
      else s
  | TimerFires =>
      match s_reconnectTimer s with
      | Some _ => let s := set_timer None s in if s_cancelled s then s else connect s
      | None => s
      end
  | Cleanup => set_streaming false (teardownEs (clearTimer (set_cancelled s)))
  end.

Definition stream_run (cs : list callback) (s : Subscription) : Subscription := foldl (λ s c, stream_step c s) s cs.

(** The order of [sort] without a comparator, by code units *)
Fixpoint text_le (a b : text) : bool :=
  match a, b with
  | [], _ => true
  | _, [] => false
  | x :: a', y :: b' => (x <? y) || ((x =? y) && text_le a' b')
  end.
Definition topicKey (topics : list text) : text := join_with [COMMA] (isort text_le (filter (λ t, t ≠ []) topics)).

(** The effect runs: [hasEventSource] is whether the runtime has one. *)
Definition subscribed : Subscription := connect (mkSub false None None 0 false [] [] 0 0 []).
Definition stream_effect (enabled : bool) (topics : list text) (hasEventSource : bool) : option Subscription :=
  if negb enabled || bool_decide (topicKey topics = []) || negb hasEventSource then None else Some subscribed.

(** [live], as the caller reads it *)
Definition useEventStream_live (s : option Subscription) : bool := match s with Some s => s_live s | None => false end.

(** ** Agent steps *)
Record AgentStep := mkAgentStep { as_caseId : text; as_step : text; as_status : text; as_detail : text; as_receivedAt : Z }.

(** [String(value)] *)
Fixpoint js_String (v : jv) : text :=
  match v with
  | JvNull => units "null"
  | JvBool b => units (if b then "true" else "false")
  | JvNum n => num_String n
  | JvStr t => t
  | JvArr l => join_with [COMMA] ((fix go l := match l with [] => [] | v :: l' => match v with JvNull => [] | _ => js_String v end :: go l' end) l)
  | JvObj _ => units "[object Object]"
  end.

Definition asShortText (value : option jv) (max : nat) : text :=
  match value with
  | None | Some JvNull => []
  | Some v => take max (text_trim (js_String v))
  end.

Definition agentStepFromFrame (now : Z) (ev : StreamEvent) (caseId : option text) : option AgentStep :=
  if negb (String.eqb (se_type ev) AGENT_STEP_CHANNEL) then None
  else
    let raw := match se_data ev with JvObj f => f | _ => [] end in
    let frameCase := asShortText (prop raw "case_id") 120 in
    let wanted := default [] caseId in
    if bool_decide (wanted ≠ []) && bool_decide (frameCase ≠ []) && bool_decide (frameCase ≠ wanted) then None
    else
      let name := asShortText (prop raw "step") 80 in
      if bool_decide (name = []) then None
      else
        let status := asShortText (prop raw "status") 40 in
        Some (mkAgentStep (match frameCase with [] => wanted | _ => frameCase end) name
          (match status with [] => units "running" | _ => status end) (asShortText (prop raw "detail") 200) now).

Definition appendAgentStep (prev : list AgentStep) (entry : AgentStep) (limit : nat) : list AgentStep :=
  let next := prev ++ [entry] in
  if (limit <? length next)%nat then drop (length next - limit) next else next.

(** [useAgentSteps]: a frame arrives, or the case changes *)
Inductive steps_op := StepFrame (now : Z) (ev : StreamEvent) | StepCase (caseId : option text).
Definition steps_run (limit : nat) (o : steps_op) (st : option text * list AgentStep) : option text * list AgentStep :=
  match o with
  | StepFrame now ev =>
      match agentStepFromFrame now ev st.1 with
      | Some entry => (st.1, appendAgentStep st.2 entry limit)
      | None => st
      end
  | StepCase caseId => (caseId, if decide (caseId = st.1) then st.2 else [])
  end.
End frames.
