(* ===== verification/EventStreamSpec.v ===== *)
(** * The live event stream: one connection at a time, a bounded retry, and what a caller may rely on *)

From S2P Require Import Prelude JsText JsMap DisplayText StreamParse StreamParseSpec EventStream.
From Stdlib Require Import QArith Qround Lqa.
Local Close Scope Q_scope.
Local Open Scope Z_scope.

Create HintDb stream.

(** What still can call back: a probe, the source, the timer *)
Definition present {A} (o : option A) : nat := match o with Some _ => 1 | None => 0 end.
Definition connections (s : Subscription) : nat := length (s_probes s) + present (s_es s) + present (s_reconnectTimer s).

Record sub_ok (s : Subscription) : Prop := {
  so_one : (connections s ≤ 1)%nat;
  so_live : s_live s = true → is_Some (s_es s) ∧ s_coldFailures s = 0%nat;
  so_cold : (s_coldFailures s ≤ MAX_COLD_FAILURES)%nat;
  so_going : s_cancelled s = false → (0 < connections s)%nat → (s_coldFailures s < MAX_COLD_FAILURES)%nat;
  so_over : s_cancelled s = true → s_es s = None ∧ s_reconnectTimer s = None ∧ s_live s = false;
  so_probes : Forall (λ n, (n < s_fetches s)%nat) (s_probes s);
}.

(** Nothing waits, and the caller polls. *)
Record idle (s : Subscription) : Prop := { id_none : connections s = 0%nat; id_live : s_live s = false }.

Lemma idle_fields s : idle s → s_probes s = [] ∧ s_es s = None ∧ s_reconnectTimer s = None ∧ s_live s = false.
Proof.
  intros [Hn Hl]. unfold connections in Hn. destruct (s_probes s), (s_es s), (s_reconnectTimer s); cbn in Hn; try lia. done.
Qed.

Lemma subscribed_ok : sub_ok subscribed.
Proof. split; cbn; unfold MAX_COLD_FAILURES; try done; try lia. repeat constructor. Qed.

(** Taking the one thing that waits leaves nothing. *)
Lemma probe_taken s n : sub_ok s → n ∈ s_probes s → filter (λ m, m ≠ n) (s_probes s) = [] ∧ s_es s = None ∧ s_reconnectTimer s = None.
Proof.
  intros Hs Hn. pose proof (so_one _ Hs) as H1. unfold connections in H1. destruct (s_probes s) as [|m [|m' l]]; cbn in H1; try lia; [by apply not_elem_of_nil in Hn|].
  apply list_elem_of_singleton in Hn as ->. rewrite filter_cons, decide_False by tauto. destruct (s_es s), (s_reconnectTimer s); cbn in H1; try lia. done.
Qed.

Lemma source_taken s n : sub_ok s → s_es s = Some n → s_probes s = [] ∧ s_reconnectTimer s = None ∧ s_cancelled s = false.
Proof.
  intros Hs Hn. pose proof (so_one _ Hs) as H1. unfold connections in H1. rewrite Hn in H1. cbn in H1.
  destruct (s_probes s), (s_reconnectTimer s); cbn in H1; try lia. split_and!; try done.
  destruct (s_cancelled s) eqn:E; [|done]. destruct (so_over _ Hs E) as (E' & _). congruence.
Qed.

Lemma timer_taken s t : sub_ok s → s_reconnectTimer s = Some t → s_probes s = [] ∧ s_es s = None ∧ s_cancelled s = false.
Proof.
  intros Hs Hn. pose proof (so_one _ Hs) as H1. unfold connections in H1. rewrite Hn in H1. cbn in H1.
  destruct (s_probes s), (s_es s); cbn in H1; try lia. split_and!; try done.
  destruct (s_cancelled s) eqn:E; [|done]. destruct (so_over _ Hs E) as (_ & E' & _). congruence.
Qed.

(** ** The next try *)
Lemma schedule_fields r s : s_cancelled s = false →
  let s' := scheduleReconnect r s in
  s_cancelled s' = false ∧ s_es s' = s_es s ∧ s_coldFailures s' = s_coldFailures s ∧ s_live s' = s_live s ∧ s_probes s' = s_probes s ∧
  s_fetches s' = s_fetches s ∧ s_sources s' = s_sources s ∧ s_events s' = s_events s ∧
  s_reconnectTimer s' = if (MAX_COLD_FAILURES <=? s_coldFailures s)%nat then s_reconnectTimer s
    else Some (jitter r (default 0 (BACKOFF_MS !! Nat.min (s_coldFailures s) 4))).
Proof. intros Hc. unfold scheduleReconnect. rewrite Hc. destruct (MAX_COLD_FAILURES <=? s_coldFailures s)%nat; done. Qed.

Lemma schedule_ok r s : s_cancelled s = false → idle s → (s_coldFailures s ≤ MAX_COLD_FAILURES)%nat → sub_ok (scheduleReconnect r s).
Proof.
  intros Hc Hi Hm. destruct (idle_fields s Hi) as (I1 & I2 & I3 & I4). destruct (schedule_fields r s Hc) as (F1 & F2 & F3 & F4 & F5 & F6 & _ & _ & F9).
  split; unfold connections; rewrite ?F1, ?F2, ?F3, ?F4, ?F5, ?F6, ?F9, ?I1, ?I2, ?I3, ?I4; try done.
  - destruct (MAX_COLD_FAILURES <=? s_coldFailures s)%nat; cbn; lia.
  - intros _. destruct (MAX_COLD_FAILURES <=? s_coldFailures s)%nat eqn:E; cbn; [lia|]. apply Nat.leb_gt in E. lia.
Qed.

Lemma coldFailure_ok r s : s_cancelled s = false → s_probes s = [] → s_es s = None → s_reconnectTimer s = None →
  (s_coldFailures s < MAX_COLD_FAILURES)%nat → sub_ok (coldFailure r s).
Proof.
  intros Hc H1 H2 H3 Hm. unfold coldFailure. apply schedule_ok; [done| |cbn; lia]. split; [|done]. unfold connections. cbn. by rewrite H1, H2, H3.
Qed.

Lemma openStream_ok throws r s : s_cancelled s = false → s_probes s = [] → s_es s = None → s_reconnectTimer s = None → s_live s = false →
  (s_coldFailures s < MAX_COLD_FAILURES)%nat → sub_ok (openStream throws r s).
Proof.
  intros Hc H1 H2 H3 Hl Hm. unfold openStream. destruct throws; [by apply coldFailure_ok|]. split; unfold connections; cbn; rewrite ?H1, ?H3, ?Hl, ?Hc; try done; cbn; lia.
Qed.

Section spec.
Context `{JsonHost}.

(** A state with nothing that waits, not yet given up *)
Lemma probe_gone s n : sub_ok s → n ∈ s_probes s → s_cancelled s = false →
  s_es s = None ∧ s_reconnectTimer s = None ∧ s_live s = false ∧ (s_coldFailures s < MAX_COLD_FAILURES)%nat ∧ filter (λ m, m ≠ n) (s_probes s) = [].
Proof.
  intros Hs Hn Hc. destruct (probe_taken s n Hs Hn) as (P1 & P2 & P3). split_and!; try done.
  - destruct (s_live s) eqn:E; [|done]. destruct (so_live _ Hs E) as [[x Hx] _]. congruence.
  - apply (so_going _ Hs Hc). unfold connections. destruct (s_probes s); [by apply not_elem_of_nil in Hn|cbn; lia].
Qed.

Lemma idle_ok s : idle s → (s_coldFailures s ≤ MAX_COLD_FAILURES)%nat → sub_ok s.
Proof.
  intros Hi Hm. destruct (idle_fields s Hi) as (I1 & I2 & I3 & I4). destruct Hi as [Hn Hl]. split; rewrite ?Hn, ?I1, ?I4; try done; lia.
Qed.

Lemma step_ok c s : sub_ok s → sub_ok (stream_step c s).
Proof.
  intros Hs. destruct c as [n status throws r|n r|n|n ch data id|n ro r| |]; cbn [stream_step].
  - destruct (decide (n ∈ s_probes s)) as [Hn|]; [|done]. cbn [set_probes s_cancelled]. destruct (s_cancelled s) eqn:Ec.
    + destruct (probe_taken s n Hs Hn) as (P1 & P2 & P3). destruct (so_over _ Hs Ec) as (_ & _ & Hl).
      apply idle_ok; [|apply (so_cold _ Hs)]. split; [|done]. unfold connections. cbn. by rewrite P1, P2, P3.
    + destruct (probe_gone s n Hs Hn Ec) as (P2 & P3 & Hl & Hm & P1). rewrite P1.
      destruct (status =? 204); [|destruct (_ && _); [by apply openStream_ok|by apply coldFailure_ok]].
      apply idle_ok; [|cbn; lia]. split; [|done]. unfold connections. cbn. by rewrite P2, P3.
  - destruct (decide (n ∈ s_probes s)) as [Hn|]; [|done]. cbn [set_probes s_cancelled s_es]. destruct (s_cancelled s) eqn:Ec.
    + destruct (probe_taken s n Hs Hn) as (P1 & P2 & P3). destruct (so_over _ Hs Ec) as (_ & _ & Hl).
      apply idle_ok; [|apply (so_cold _ Hs)]. split; [|done]. unfold connections. cbn. by rewrite P1, P2, P3.
    + destruct (probe_gone s n Hs Hn Ec) as (P2 & P3 & Hl & Hm & P1). rewrite P1, P2. by apply coldFailure_ok.
  - destruct (decide (s_es s = Some n)) as [Hn|]; [|done]. destruct (source_taken s n Hs Hn) as (P1 & P2 & P3). rewrite P3.
    split; unfold connections; cbn; rewrite ?P1, ?P2, ?P3, ?Hn; try done; cbn; unfold MAX_COLD_FAILURES; lia.
  - destruct (decide _) as [[Hn Hch]|]; [|done]. destruct (source_taken s n Hs Hn) as (P1 & P2 & P3). rewrite P3.
    split; unfold connections; cbn; rewrite ?P1, ?P2, ?P3, ?Hn; try done; cbn; unfold MAX_COLD_FAILURES; lia.
  - destruct (decide (s_es s = Some n)) as [Hn|]; [|done]. destruct (source_taken s n Hs Hn) as (P1 & P2 & P3). rewrite P3.
    pose proof (so_going _ Hs P3) as Hg. unfold connections in Hg. rewrite Hn in Hg. cbn in Hg.
    apply schedule_ok; [by destruct ro| |destruct ro; cbn; lia]. split; [|done]. unfold connections. destruct ro; cbn; by rewrite P1, P2.
  - destruct (s_reconnectTimer s) as [t|] eqn:Et; [|done]. cbn [set_timer s_cancelled]. destruct (timer_taken s t Hs Et) as (P1 & P2 & P3). rewrite P3.
    pose proof (so_going _ Hs P3) as Hg. unfold connections in Hg. rewrite Et in Hg.
    assert (Hl : s_live s = false) by (destruct (s_live s) eqn:E; [destruct (so_live _ Hs E) as [[x Hx] _]; congruence|done]).
    unfold connect. cbn [set_timer s_cancelled]. rewrite P3. split; unfold connections; cbn; rewrite ?P1, ?P2, ?P3, ?Hl; try done; cbn; try lia.
    + apply (so_cold _ Hs).
    + intros _ _. apply Hg. rewrite P1, P2. cbn. lia.
    + repeat constructor.
  - pose proof (so_one _ Hs) as H1. pose proof (so_cold _ Hs) as H2. pose proof (so_probes _ Hs) as H3. unfold connections in H1.
    split; unfold connections; cbn; try done. lia.
Qed.

Lemma run_ok cs s : sub_ok s → sub_ok (stream_run cs s).
Proof. revert s. induction cs as [|c cs IH]; intros s Hs; [done|]. by apply IH, step_ok. Qed.
End spec.
#[export] Hint Resolve step_ok run_ok subscribed_ok : stream.

(** ** What a caller may rely on *)
Section theorems.
Context `{JsonHost}.

Lemma run_app a b s : stream_run (a ++ b) s = stream_run b (stream_run a s).
Proof. apply foldl_app. Qed.

(** ** One connection *)

(** In any order of callbacks at most one probe, source or timer exists at a time, and the caller is told
    the stream is live only while a source is open with no failure since it was confirmed. *)
Theorem stream_one_connection (cs : list callback) :
  let s := stream_run cs subscribed in
  (length (s_probes s) + present (s_es s) + present (s_reconnectTimer s) ≤ 1)%nat ∧
  (s_live s = true → is_Some (s_es s) ∧ s_coldFailures s = 0%nat ∧ s_cancelled s = false).
Proof.
  cbv zeta. assert (Hs : sub_ok (stream_run cs subscribed)) by auto with stream. split; [apply (so_one _ Hs)|].
  intros Hl. destruct (so_live _ Hs Hl) as [[n Hn] Hc]. split_and!; [by exists n|done|]. apply (source_taken _ n Hs Hn).
Qed.

(** ** Giving up *)

(** A callback that confirms the stream *)
Definition confirms (c : callback) : bool := match c with SourceOpens _ | SourceFrame _ _ _ _ => true | SourceErrors _ ro _ => ro | _ => false end.

Record counted (s : Subscription) : Prop := {
  co_live : s_live s = false;
  co_tries : (s_fetches s + present (s_reconnectTimer s) ≤ s_coldFailures s + 1)%nat;
  co_max : (s_fetches s ≤ MAX_COLD_FAILURES)%nat;
  co_sources : (s_sources s + length (s_probes s) ≤ s_fetches s)%nat;
}.

Lemma schedule_counted r s : s_reconnectTimer s = None → s_live s = false → (s_fetches s ≤ s_coldFailures s)%nat → (s_fetches s ≤ MAX_COLD_FAILURES)%nat →
  (s_sources s + length (s_probes s) ≤ s_fetches s)%nat → counted (scheduleReconnect r s).
Proof.
  intros Ht Hl Hf Hm Hs. unfold scheduleReconnect. destruct (s_cancelled s); [|destruct (_ <=? _)%nat]; split; cbn; rewrite ?Ht; try done; cbn; lia.
Qed.

Lemma filter_shorter n (l : list nat) : n ∈ l → (length (filter (λ m, m ≠ n) l) < length l)%nat.
Proof.
  induction l as [|m l IH]; [by intros ?%not_elem_of_nil|]. rewrite elem_of_cons, filter_cons. pose proof (length_filter (λ m, m ≠ n) l).
  intros [->|Hin]; [rewrite decide_False by tauto; cbn; lia|]. specialize (IH Hin). destruct (decide (m ≠ n)); cbn; lia.
Qed.

Lemma step_counted c s : confirms c = false → sub_ok s → counted s → counted (stream_step c s).
Proof.
  intros Hc Hs Hk. pose proof (step_ok c s Hs) as Hs'. pose proof Hk as [K1 K2 K3 K4].
  destruct c as [n status throws r|n r|n|n ch data id|n ro r| |]; cbn [stream_step confirms] in *; try done.
  - destruct (decide (n ∈ s_probes s)) as [Hn|]; [|done]. destruct (probe_taken s n Hs Hn) as (P1 & P2 & P3). pose proof (filter_shorter _ _ Hn) as Hf.
    rewrite P3 in K2. cbn [present] in K2. cbn [set_probes s_cancelled] in *.
    destruct (s_cancelled s); [split; cbn; rewrite ?P3; cbn; try done; lia|].
    destruct (status =? 204); [split; cbn; rewrite ?P3; cbn; try done; lia|].
    destruct (_ && _); [destruct throws|].
    + apply schedule_counted; cbn; rewrite ?P3; try done; lia.
    + split; cbn; rewrite ?P3; cbn; try done; lia.
    + apply schedule_counted; cbn; rewrite ?P3; try done; lia.
  - destruct (decide (n ∈ s_probes s)) as [Hn|]; [|done]. destruct (probe_taken s n Hs Hn) as (P1 & P2 & P3). pose proof (filter_shorter _ _ Hn) as Hf.
    rewrite P3 in K2. cbn [present] in K2. cbn [set_probes s_cancelled s_es] in *.
    destruct (s_cancelled s); [split; cbn; rewrite ?P3; cbn; try done; lia|]. rewrite P2. cbn.
    apply schedule_counted; cbn; rewrite ?P3; try done; lia.
  - destruct (decide (s_es s = Some n)) as [Hn|]; [|done]. destruct (source_taken s n Hs Hn) as (P1 & P2 & P3). subst ro. rewrite P3.
    rewrite P2 in K2. cbn [present] in K2. apply schedule_counted; cbn; rewrite ?P2; try done; lia.
  - destruct (s_reconnectTimer s) as [t|] eqn:Et; [|done]. destruct (timer_taken s t Hs Et) as (P1 & P2 & P3). cbn [set_timer s_cancelled]. rewrite P3.
    assert (Hg : (s_coldFailures s < MAX_COLD_FAILURES)%nat) by (apply (so_going _ Hs P3); unfold connections; rewrite Et; cbn; lia).
    cbn [present] in K2. unfold connect. cbn [set_timer s_cancelled]. rewrite P3. split; cbn; try done; rewrite ?length_app; cbn; lia.
  - split; cbn; try done. lia.
Qed.

Lemma run_counted cs s : forallb (λ c, negb (confirms c)) cs = true → sub_ok s → counted s → counted (stream_run cs s).
Proof.
  revert s. induction cs as [|c cs IH]; intros s Hc Hs Hk; [done|]. cbn in Hc. apply andb_true_iff in Hc as [H1%negb_true_iff H2].
  apply IH; [done|by apply step_ok|by apply step_counted].
Qed.

(** C26. Against a backend that never confirms a stream the hook gives up: whatever the answers and errors, and in
    whatever order, it makes at most four probes and opens at most four sources, and the caller keeps polling. *)
Theorem stream_gives_up (cs : list callback) (Hc : forallb (λ c, negb (confirms c)) cs = true) :
  let s := stream_run cs subscribed in
  (s_fetches s ≤ MAX_COLD_FAILURES)%nat ∧ (s_sources s ≤ MAX_COLD_FAILURES)%nat ∧ s_live s = false.
Proof.
  cbv zeta. assert (K0 : counted subscribed) by (split; cbn; unfold MAX_COLD_FAILURES; try done; lia).
  destruct (run_counted cs subscribed Hc subscribed_ok K0) as [K1 K2 K3 K4]. split_and!; [done|lia|done].
Qed.

(** ** Coming back *)

(** The timer fires, the probe is accepted, the source opens. *)
Lemma retry_opens s d status r : s_cancelled s = false → s_probes s = [] → s_reconnectTimer s = Some d → 200 ≤ status < 300 → status ≠ 204 →
  s_live (stream_run [TimerFires; ProbeAnswers (s_fetches s) status false r; SourceOpens (s_sources s)] s) = true.
Proof.
  intros Hc Hp Ht Hst H204. unfold stream_run. cbn [foldl]. set (s1 := stream_step TimerFires s).
  assert (E1 : s1 = set_probes [s_fetches s] (s_resolved s) (S (s_fetches s)) (set_timer None s)).
  { subst s1. cbn [stream_step]. rewrite Ht. cbn [set_timer s_cancelled]. rewrite Hc. unfold connect. cbn. by rewrite Hc, Hp. }
  set (s2 := stream_step (ProbeAnswers _ _ _ _) s1).
  assert (E2 : s_es s2 = Some (s_sources s) ∧ s_cancelled s2 = false).
  { subst s2. rewrite E1. cbn [stream_step set_probes s_probes]. rewrite decide_True by (apply list_elem_of_singleton; done). cbn [s_cancelled set_timer set_probes]. rewrite Hc.
    rewrite (proj2 (Z.eqb_neq _ _) H204). replace ((200 <=? status) && (status <? 300)) with true by lia. done. }
  destruct E2 as [E2 E3]. cbn [stream_step]. rewrite decide_True by done. by rewrite E3.
Qed.

(** Whatever happened before, when a live stream drops the next try is scheduled, and a backend that accepts
    the probe and opens the stream makes it live again. *)
Theorem stream_recovers (cs : list callback) (n : nat) (ready : bool) (r r' : Q) (status : Z)
    (Hn : s_es (stream_run cs subscribed) = Some n) (Hl : s_live (stream_run cs subscribed) = true) (Hst : 200 ≤ status < 300) (H204 : status ≠ 204) :
  let s := stream_run cs subscribed in
  let dropped := stream_step (SourceErrors n ready r) s in
  s_live dropped = false ∧ is_Some (s_reconnectTimer dropped) ∧
  s_live (stream_run [TimerFires; ProbeAnswers (s_fetches s) status false r'; SourceOpens (s_sources s)] dropped) = true.
Proof.
  cbv zeta. set (s := stream_run cs subscribed) in *. assert (Hs : sub_ok s) by (subst s; auto with stream).
  destruct (so_live _ Hs Hl) as [_ Hc]. destruct (source_taken s n Hs Hn) as (P1 & P2 & P3).
  cbn [stream_step]. rewrite decide_True by done. rewrite P3. set (s1 := teardownEs _).
  assert (F0 : s_cancelled s1 = false) by (by subst s1; destruct ready).
  destruct (schedule_fields r s1 F0) as (F1 & F2 & F3 & F4 & F5 & F6 & F7 & _ & F9). set (s2 := scheduleReconnect r s1) in *.
  assert (G : s_live s1 = false ∧ s_probes s1 = [] ∧ s_fetches s1 = s_fetches s ∧ s_sources s1 = s_sources s ∧ (s_coldFailures s1 < MAX_COLD_FAILURES)%nat).
  { subst s1. unfold MAX_COLD_FAILURES. destruct ready; cbn; rewrite P1, Hc; split_and!; try done; lia. }
  destruct G as (G1 & G2 & G3 & G4 & G5). rewrite (proj2 (Nat.leb_gt _ _) G5) in F9. split_and!; [by rewrite F4|by rewrite F9|].
  rewrite <-G3, <-G4, <-F6, <-F7. eapply retry_opens; [done|by rewrite F5|exact F9|done|done].
Qed.
End theorems.

(** ** The wait *)
Lemma jitter_bounds (r : Q) ms : (0 <= r < 1)%Q → 1000 ≤ ms → ms - 500 ≤ jitter r ms < ms + 500.
Proof.
  intros [H0 H1] Hms. unfold jitter. rewrite Z.min_r by lia. set (x := ((r - (1 # 2)) * inject_Z 1000)%Q).
  assert (Hx : (inject_Z (-500) <= x < inject_Z 500)%Q) by (subst x; unfold inject_Z; lra). destruct Hx as [Hx1 Hx2].
  pose proof (Qfloor_le x) as F1. pose proof (Qlt_floor x) as F2.
  assert (G1 : (inject_Z (Qfloor x) < inject_Z 500)%Q) by lra. rewrite <-Zlt_Qlt in G1.
  assert (G2 : (inject_Z (-500) < inject_Z (Qfloor x + 1))%Q) by lra. rewrite <-Zlt_Qlt in G2. lia.
Qed.

(** A callback of a browser: [Math.random()] is in its range, and an [EventSource] has left [OPEN] when it errors. *)
Definition browser (c : callback) : Prop :=
  match c with
  | ProbeAnswers _ _ _ r | ProbeRejects _ r => (0 <= r < 1)%Q
  | SourceErrors _ ready r => ready = false ∧ (0 <= r < 1)%Q
  | _ => True
  end.

(** The waits of the timer *)
Definition wait_ok (s : Subscription) : Prop := ∀ d, s_reconnectTimer s = Some d → ∃ base, base ∈ [2000; 5000; 10000] ∧ base - 500 ≤ d < base + 500.

Lemma schedule_wait r s : (0 <= r < 1)%Q → (0 < s_coldFailures s)%nat → wait_ok s → wait_ok (scheduleReconnect r s).
Proof.
  intros Hr Hc Hw. unfold scheduleReconnect. destruct (s_cancelled s); [done|]. destruct (MAX_COLD_FAILURES <=? s_coldFailures s)%nat eqn:E; [done|].
  apply Nat.leb_gt in E. unfold MAX_COLD_FAILURES in E. intros d [= <-].
  destruct (s_coldFailures s) as [|[|[|[|n]]]]; try lia; cbn [Nat.min length BACKOFF_MS Nat.sub]; cbn; eexists; (split; [|apply jitter_bounds; [done|]]);
    try (apply (bool_decide_unpack _); vm_compute; exact I); lia.
Qed.

Section waits.
Context `{JsonHost}.

Lemma step_wait c s : browser c → wait_ok s → wait_ok (stream_step c s).
Proof.
  intros Hb Hw. destruct c as [n status throws r|n r|n|n ch data id|n ro r| |]; cbn [stream_step browser] in *.
  - destruct (decide (n ∈ s_probes s)); [|done]. cbn [set_probes s_cancelled]. destruct (s_cancelled s); [done|].
    destruct (status =? 204); [done|]. destruct (_ && _); [destruct throws|]; try done; apply schedule_wait; [done|cbn; lia|done|done|cbn; lia|done].
  - destruct (decide (n ∈ s_probes s)); [|done]. cbn [set_probes s_cancelled]. destruct (s_cancelled s); [done|].
    destruct (bool_decide _); [done|]. apply schedule_wait; [done|cbn; lia|done].
  - destruct (decide _); [|done]. by destruct (s_cancelled s).
  - destruct (decide _); [|done]. by destruct (s_cancelled s).
  - destruct (decide _); [|done]. destruct (s_cancelled s); [done|]. destruct Hb as [-> Hr]. apply schedule_wait; [done|cbn; lia|done].
  - destruct (s_reconnectTimer s); [|done]. cbn [set_timer s_cancelled]. destruct (s_cancelled s); [by intros d|]. unfold connect. cbn. by destruct (s_cancelled s); intros d.
  - by intros d.
Qed.

(** What the code does with its table of waits, which is not what its comments say: in a browser the wait before a try is
    2, 5 or 10 seconds, give or take half a second, whatever happened. The comment on [BACKOFF_MS] lets the index reach
    the last slot (30 s) and the one in [onerror] counts only a stream that never opened; but the fourth failure gives up,
    and [readyState] is no longer OPEN when the error of a healthy stream arrives, so neither the first nor the last wait is used. *)
Theorem stream_wait_bounds (cs : list callback) (d : Z) (Hb : Forall browser cs) (Hd : s_reconnectTimer (stream_run cs subscribed) = Some d) :
  ∃ base, base ∈ [2000; 5000; 10000] ∧ base - 500 ≤ d < base + 500.
Proof.
  revert d Hd. change (wait_ok (stream_run cs subscribed)). assert (H0 : wait_ok subscribed) by (by intros d). revert H0. generalize subscribed.
  induction Hb as [|c cs Hc Hcs IH]; intros s Hs; [done|]. by apply IH, step_wait.
Qed.

(** ** The end of a subscription *)

(** What the outside sees of a subscription *)
Definition seen (s : Subscription) : nat * nat * list StreamEvent * bool := (s_fetches s, s_sources s, s_events s, s_live s).

Definition over (s : Subscription) : Prop := s_cancelled s = true ∧ s_es s = None ∧ s_reconnectTimer s = None.

Lemma step_over c s : over s → s_live s = false → over (stream_step c s) ∧ seen (stream_step c s) = seen s.
Proof.
  intros (H1 & H2 & H3) Hl. unfold over. destruct c as [n status throws r|n r|n|n ch data id|n ro r| |]; cbn [stream_step].
  - destruct (decide (n ∈ s_probes s)); [|done]. cbn [set_probes s_cancelled]. by rewrite H1.
  - destruct (decide (n ∈ s_probes s)); [|done]. cbn [set_probes s_cancelled]. by rewrite H1.
  - by rewrite decide_False by (rewrite H2; done).
  - rewrite decide_False; [done|]. rewrite H2. by intros [? _].
  - by rewrite decide_False by (rewrite H2; done).
  - by rewrite H3.
  - unfold seen. cbn. by rewrite Hl.
Qed.

(** Once the caller leaves, nothing more is fetched, opened or handed over, whatever still calls back, and the
    stream is not live. *)
Theorem stream_ends (before after : list callback) :
  let s := stream_run before subscribed in
  seen (stream_run (before ++ Cleanup :: after) subscribed) = (s_fetches s, s_sources s, s_events s, false).
Proof.
  cbv zeta. rewrite run_app. set (s := stream_run before subscribed). change (stream_run (Cleanup :: after) s) with (stream_run after (stream_step Cleanup s)).
  assert (H0 : over (stream_step Cleanup s) ∧ seen (stream_step Cleanup s) = (s_fetches s, s_sources s, s_events s, false)) by done.
  revert H0. generalize (stream_step Cleanup s) as s1. induction after as [|c cs IH]; intros s1 [Ho He]; [done|].
  assert (Hl : s_live s1 = false) by (unfold seen in He; congruence). apply (IH (stream_step c s1)).
  destruct (step_over c s1 Ho Hl) as [O1 O2]. split; [done|]. by rewrite O2.
Qed.

Lemma step_idle c s : idle s → idle (stream_step c s) ∧ seen (stream_step c s) = seen s.
Proof.
  intros Hi. destruct (idle_fields s Hi) as (I1 & I2 & I3 & I4). destruct c as [n status throws r|n r|n|n ch data id|n ro r| |]; cbn [stream_step].
  - rewrite decide_False; [done|]. rewrite I1. apply not_elem_of_nil.
  - rewrite decide_False; [done|]. rewrite I1. apply not_elem_of_nil.
  - by rewrite decide_False by (rewrite I2; done).
  - rewrite decide_False; [done|]. rewrite I2. by intros [? _].
  - by rewrite decide_False by (rewrite I2; done).
  - by rewrite I3.
  - unfold seen. cbn. rewrite I4. split; [|done]. split; [|done]. unfold connections. cbn. by rewrite I1.
Qed.

(** A probe answered with 204, so realtime is disabled, ends it: no other probe is ever made, no source is
    opened and the caller polls. *)
Theorem disabled_keeps_polling (before after : list callback) (n : nat) (throws : bool) (r : Q) (Hn : n ∈ s_probes (stream_run before subscribed)) :
  let s := stream_run before subscribed in
  seen (stream_run (before ++ ProbeAnswers n 204 throws r :: after) subscribed) = (s_fetches s, s_sources s, s_events s, false).
Proof.
  cbv zeta. rewrite run_app. set (s := stream_run before subscribed) in *. assert (Hs : sub_ok s) by (subst s; auto with stream).
  change (stream_run (?c :: after) s) with (stream_run after (stream_step c s)). set (s1 := stream_step _ s).
  assert (H1 : idle s1 ∧ seen s1 = (s_fetches s, s_sources s, s_events s, false)).
  { destruct (probe_taken s n Hs Hn) as (P1 & P2 & P3). subst s1. cbn [stream_step]. rewrite decide_True by done. cbn [set_probes s_cancelled].
    assert (Hl : s_live s = false) by (destruct (s_live s) eqn:E; [destruct (so_live _ Hs E) as [[x Hx] _]; congruence|done]).
    destruct (s_cancelled s) eqn:Ec; (split; [split|]); unfold seen, connections; cbn; rewrite ?P1, ?P2, ?P3, ?Hl; done. }
  revert H1. generalize s1. clear s1. induction after as [|c cs IH]; intros s1 [Hi He]; [done|]. apply (IH (stream_step c s1)).
  destruct (step_idle c s1 Hi) as [O1 O2]. split; [done|]. by rewrite O2.
Qed.

(** ** Agent steps *)

(** The steps of the current case, as the frames brought them *)
Fixpoint accepted (ops : list steps_op) (caseId : option text) (steps : list AgentStep) : option text * list AgentStep :=
  match ops with
  | [] => (caseId, steps)
  | StepFrame now ev :: ops' => accepted ops' caseId (steps ++ option_list (agentStepFromFrame now ev caseId))
  | StepCase caseId' :: ops' => accepted ops' caseId' (if decide (caseId' = caseId) then steps else [])
  end.
Definition steps_runs (limit : nat) (ops : list steps_op) (st : option text * list AgentStep) := foldl (λ st o, steps_run limit o st) st ops.

(** The last [limit] of a list *)
Definition newest_of {A} (limit : nat) (l : list A) : list A := drop (length l - limit) l.

Lemma append_newest limit l e : appendAgentStep (newest_of limit l) e limit = newest_of limit (l ++ [e]).
Proof.
  unfold appendAgentStep, newest_of. rewrite !length_app, !length_drop. cbn [length]. rewrite <-(drop_app_le l [e]) by lia.
  destruct (limit <? length l - (length l - limit) + 1)%nat eqn:E; [apply Nat.ltb_lt in E|apply Nat.ltb_ge in E].
  - rewrite drop_drop. f_equal. lia.
  - f_equal. lia.
Qed.

Lemma step_of_case now ev caseId a : agentStepFromFrame now ev caseId = Some a → default [] caseId ≠ [] → as_caseId a = default [] caseId.
Proof.
  unfold agentStepFromFrame. set (raw := match se_data ev with JvObj f => f | _ => [] end). intros E Hc. destruct (negb _); [done|].
  destruct (bool_decide _ && _ && _) eqn:Eb; [done|]. destruct (bool_decide (asShortText (prop raw "step") 80 = [])); [done|]. injection E as <-. cbn [as_caseId].
  destruct (asShortText (prop raw "case_id") 120) as [|c t]; [done|]. rewrite !bool_decide_true in Eb by done. cbn in Eb.
  apply bool_decide_eq_false in Eb. destruct (decide (c :: t = default [] caseId)); tauto.
Qed.

(** The steps shown are the newest, oldest first and at most the limit, of those that arrived since the case
    was opened, and every one of them is a step of that case. *)
Theorem agent_steps_newest (limit : nat) (ops : list steps_op) (caseId : option text) (Hc : default [] (steps_runs limit ops (caseId, [])).1 ≠ []) :
  let st := steps_runs limit ops (caseId, []) in
  st.1 = (accepted ops caseId []).1 ∧ st.2 = newest_of limit (accepted ops caseId []).2 ∧ (length st.2 ≤ limit)%nat ∧
  Forall (λ a, as_caseId a = default [] st.1) st.2.
Proof.
  cbv zeta.
  assert (Hrun : ∀ ops c l, steps_runs limit ops (c, newest_of limit l) = ((accepted ops c l).1, newest_of limit (accepted ops c l).2)).
  { clear. induction ops as [|[now ev|c'] ops IH]; intros c l; [done| |]; cbn.
    - unfold steps_runs in IH. destruct (agentStepFromFrame now ev c) as [e|]; cbn; [rewrite append_newest; apply IH|rewrite app_nil_r; apply IH].
    - unfold steps_runs in IH. case_decide; [apply IH|]. apply (IH c' []). }
  assert (Hown : ∀ ops c l, (default [] c ≠ [] → Forall (λ a, as_caseId a = default [] c) l) →
    default [] (accepted ops c l).1 ≠ [] → Forall (λ a, as_caseId a = default [] (accepted ops c l).1) (accepted ops c l).2).
  { clear. induction ops as [|[now ev|c'] ops IH]; intros c l Hl; [done| |]; cbn; apply IH; intros Hc.
    - apply Forall_app. split; [by apply Hl|]. destruct (agentStepFromFrame now ev c) as [e|] eqn:E; constructor; [|constructor]. by eapply step_of_case.
    - case_decide as D; [subst; by apply Hl|constructor]. }
  specialize (Hrun ops caseId []). change (newest_of limit []) with (@nil AgentStep) in Hrun. rewrite Hrun in *. cbn [fst snd] in *.
  split_and!; [done|done| |].
  - unfold newest_of. rewrite length_drop. lia.
  - apply Forall_drop. apply Hown; [constructor|done].
Qed.
End waits.

(** ** The key of the topics *)
Lemma text_le_total a b : text_le a b ∨ text_le b a.
Proof.
  revert b. induction a as [|x a IH]; intros [|y b]; cbn; auto. specialize (IH b). rewrite !Is_true_true in *. rewrite !orb_true_iff, !andb_true_iff, !Z.ltb_lt, !Z.eqb_eq.
  destruct (Z.lt_total x y) as [?|[->|?]]; [tauto| |tauto]. destruct IH; [left|right]; auto.
Qed.
Lemma text_le_trans a b c : text_le a b → text_le b c → text_le a c.
Proof.
  revert b c. induction a as [|x a IH]; intros [|y b] [|z c]; cbn; try done. rewrite !Is_true_true, !orb_true_iff, !andb_true_iff, !Z.ltb_lt, !Z.eqb_eq.
  intros [?|[-> H1]] [?|[-> H2]]; try (left; lia). right. split; [done|]. rewrite <-Is_true_true in *. by apply (IH b).
Qed.
Lemma text_le_antisym a b : text_le a b → text_le b a → a = b.
Proof.
  revert b. induction a as [|x a IH]; intros [|y b]; cbn; try done. rewrite !Is_true_true, !orb_true_iff, !andb_true_iff, !Z.ltb_lt, !Z.eqb_eq.
  intros [?|[E1 H1]] [?|[E2 H2]]; try lia. subst y. rewrite <-Is_true_true in *. f_equal. by apply IH.
Qed.

(** The key does not depend on the order of the topics, so the order alone never reopens the stream. *)
Lemma topicKey_order topics topics' : topics ≡ₚ topics' → topicKey topics = topicKey topics'.
Proof.
  intros Hp. unfold topicKey. f_equal. apply (StronglySorted_unique_strong text_le).
  - intros a b _ _. apply text_le_antisym.
  - apply isort_sorted; [apply text_le_total|apply text_le_trans].
  - apply isort_sorted; [apply text_le_total|apply text_le_trans].
  - by rewrite !isort_Permutation, Hp.
Qed.

(** ** Witnesses *)

(** The stream opens, drops, and the backend then refuses every probe. *)
Definition unlucky : list (@callback) :=
  [ProbeAnswers 0 503 false 0; TimerFires; ProbeRejects 1 (1 # 2); TimerFires; ProbeAnswers 2 200 false 0; SourceErrors 0 false 0; TimerFires; ProbeAnswers 3 200 true 0; TimerFires].

Lemma stream_gives_up_witness :
  let host := demo_host in let s := stream_run unlucky subscribed in
  s_fetches s = 4%nat ∧ (s_sources s ≤ MAX_COLD_FAILURES)%nat ∧ s_live s = false.
Proof. cbv zeta. split; [reflexivity|]. exact (proj2 (@stream_gives_up demo_host unlucky eq_refl)). Defined.

Lemma stream_recovers_witness :
  let host := demo_host in let s := stream_run [ProbeAnswers 0 200 false 0; SourceOpens 0] subscribed in
  s_live (stream_run [TimerFires; ProbeAnswers 1 200 false 0; SourceOpens 1] (stream_step (SourceErrors 0 false (1 # 2)) s)) = true.
Proof.
  cbv zeta. refine (proj2 (proj2 (@stream_recovers demo_host [ProbeAnswers 0 200 false 0; SourceOpens 0] 0 false (1 # 2) 0 200 eq_refl eq_refl _ _))); lia.
Defined.

Lemma stream_wait_bounds_witness : let host := demo_host in ∃ base, base ∈ [2000; 5000; 10000] ∧ base - 500 ≤ 1500 < base + 500.
Proof.
  refine (@stream_wait_bounds demo_host [ProbeAnswers 0 503 false 0] 1500 _ eq_refl). constructor; [|constructor]. cbn. split; [discriminate|reflexivity].
Defined.

Lemma disabled_keeps_polling_witness :
  let host := demo_host in
  seen (stream_run [ProbeAnswers 0 204 false 0; TimerFires; SourceOpens 0; ProbeRejects 0 0] subscribed) = (1%nat, 0%nat, [], false).
Proof. refine (@disabled_keeps_polling demo_host [] [TimerFires; SourceOpens 0; ProbeRejects 0 0] 0 false 0 _). cbn. by left. Defined.

(** Three frames, one of another case, with room for one step. *)
Definition step_frame (case step : string) : StreamEvent :=
  mkStreamEvent "agent.step" (JvObj [(units "case_id", JvStr (units case)); (units "step", JvStr (units step))]) [].
Definition steps_demo : list steps_op := [StepFrame 1 (step_frame "c1" "triage"); StepFrame 2 (step_frame "c2" "tools"); StepFrame 3 (step_frame "c1" " tools ")].

Lemma agent_steps_newest_witness :
  let host := demo_host in
  (steps_runs 1 steps_demo (Some (units "c1"), [])).2 = [mkAgentStep (units "c1") (units "tools") (units "running") [] 3] ∧
  Forall (λ a, as_caseId a = units "c1") (steps_runs 1 steps_demo (Some (units "c1"), [])).2.
Proof.
  cbv zeta. split; [vm_compute; reflexivity|]. refine (proj2 (proj2 (proj2 (@agent_steps_newest demo_host 1 steps_demo (Some (units "c1")) _)))). vm_compute. congruence.
Defined.
