(* ===== verification/RunbookIssues.v ===== *)
(** * Issues of a working copy: which to show, and where they belong (soc/runbooks/editor/draft.ts)

    Two parts of a definition are the same text when they are the same value: [JSON.stringify] is one to one on
    the values a definition holds. The editor's strings are of bytes, as in Runbook. *)

From S2P Require Import Prelude JsMap Runbook RunbookSpec RunbookEdits.
From Stdlib Require Import Ascii.

Record RunbookIssue := mkEditorIssue { ri_path : string; ri_code : string; ri_message : string }.
#[export] Instance RunbookIssue_eq_dec : EqDecision RunbookIssue.
Proof. solve_decision. Defined.

(** ** Where an issue belongs *)
Record PlacedIssue := mkPlaced { pi_issue : RunbookIssue; pi_stepId : option string; pi_field : string }.

Fixpoint after_prefix (prefix s : string) : option string :=
  match prefix, s with
  | EmptyString, _ => Some s
  | String c p, String c' s' => if Ascii.eqb c c' then after_prefix p s' else None
  | _, _ => None
  end.

Definition digit_value (c : ascii) : option N := let n := N_of_ascii c in if ((48 <=? n) && (n <=? 57))%N then Some (n - 48)%N else None.

(** [(\d+)]: the number, and what follows; [seen] once there is a digit. *)
Fixpoint path_digits (seen : bool) (acc : N) (s : string) : option (N * string) :=
  match s with
  | String c s' => match digit_value c with Some v => path_digits true (10 * acc + v)%N s' | None => if seen then Some (acc, s) else None end
  | EmptyString => if seen then Some (acc, s) else None
  end.

(** The bytes of the line and paragraph separators, U+2028 and U+2029 *)
Definition separator (l : list ascii) : bool :=
  match l with
  | a :: b :: c :: _ => Ascii.eqb a "226"%char && Ascii.eqb b "128"%char && (Ascii.eqb c "168"%char || Ascii.eqb c "169"%char)
  | _ => false
  end.
(** [.] takes no line terminator. *)
Fixpoint one_line_of (l : list ascii) : bool :=
  match l with
  | [] => true
  | c :: l' => negb (Ascii.eqb c "010"%char) && negb (Ascii.eqb c "013"%char) && negb (separator l) && one_line_of l'
  end.
Definition one_line (s : string) : bool := one_line_of (chars s).

(** [steps[n]], alone or with a dot and a field: the index and the field *)
Definition STEP_PATH (path : string) : option (N * option string) :=
  s ← after_prefix "steps[" path; '(i, s) ← path_digits false 0 s; s ← after_prefix "]" s;
  match s with
  | EmptyString => Some (i, None)
  | String c s' => if Ascii.eqb c "."%char && one_line s' then Some (i, Some s') else None
  end.

Definition place_issue (validated : option RunbookDefinition) (issue : RunbookIssue) : PlacedIssue :=
  match STEP_PATH (ri_path issue), validated with
  | Some (i, field), Some d => mkPlaced issue (rs_id <$> (if (i <? N.of_nat (length (rd_steps d)))%N then rd_steps d !! N.to_nat i else None)) (default "" field)
  | _, _ => mkPlaced issue None (ri_path issue)
  end.
Definition placeIssues (issues : list RunbookIssue) (validated : option RunbookDefinition) : list PlacedIssue := place_issue validated <$> issues.

(** ** Fields left *)

(** [field.split(/[.[]/)[0]] *)
Fixpoint before_mark (field : string) : string :=
  match field with
  | String c f => if Ascii.eqb c "."%char || Ascii.eqb c "["%char then EmptyString else String c (before_mark f)
  | EmptyString => EmptyString
  end.
Definition head_of (field : string) : string := if String.eqb (before_mark field) "" then field else before_mark field.

Definition fieldKey (stepId : option string) (field : string) : string :=
  match stepId with
  | Some id => if String.eqb id "" then "header:" +:+ head_of field else "step:" +:+ id +:+ ":" +:+ head_of field
  | None => "header:" +:+ head_of field
  end.

Definition visibleIssues (placed : list PlacedIssue) (gated attempted : bool) (touched : list string) : list PlacedIssue :=
  if negb gated || attempted then placed else filter (λ p, fieldKey (pi_stepId p) (pi_field p) ∈ touched) placed.

(** ** The part of a definition an issue is about *)
Inductive Member :=
  | MString (v : option string) | MNumber (v : option Z) | MBoolean (v : bool) | MPhase (v : PhaseId) | MKind (v : StepKind) | MRule (v : StepEvidenceRule)
  | MLookup (v : option LookupTemplate) | MOptions (v : list DecisionOption) | MApplies (v : AppliesWhen) | MStrings (v : list string)
  | MPhases (v : list PhaseId) | MSteps (v : list RunbookStep).

(** A name that is no member, also an inherited one, reads alike in every definition: [None]. *)
Inductive Slice := Missing | WholeStep (s : RunbookStep) | OneMember (m : option Member).
#[export] Instance Slice_eq_dec : EqDecision Slice.
Proof. assert (EqDecision Member) by solve_decision. solve_decision. Defined.

Definition step_members (s : RunbookStep) : list (string * Member) :=
  [("id", MString (Some (rs_id s))); ("phase", MPhase (rs_phase s)); ("kind", MKind (rs_kind s)); ("title", MString (Some (rs_title s)));
   ("instructions", MString (Some (rs_instructions s))); ("focus", MString (rs_focus s)); ("escalate_if", MString (rs_escalate_if s));
   ("benign_if", MString (rs_benign_if s)); ("required", MBoolean (rs_required s)); ("evidence", MRule (rs_evidence s));
   ("owner_role", MString (rs_owner_role s)); ("approval_role", MString (rs_approval_role s)); ("target_minutes", MNumber (rs_target_minutes s));
   ("lookup", MLookup (rs_lookup s)); ("options", MOptions (rs_options s)); ("react", MString (rs_react s)); ("d3fend", MString (rs_d3fend s))].

Definition header_members (d : RunbookDefinition) : list (string * Member) :=
  [("id", MString (Some (rd_id d))); ("title", MString (Some (rd_title d))); ("summary", MString (Some (rd_summary d))); ("use_when", MString (Some (rd_use_when d)));
   ("prerequisites", MString (Some (rd_prerequisites d))); ("applies_when", MApplies (rd_applies_when d)); ("priority", MNumber (Some (rd_priority d)));
   ("mitre", MStrings (rd_mitre d)); ("phases", MPhases (rd_phases d)); ("steps", MSteps (rd_steps d)); ("retrieval_queries", MStrings (rd_retrieval_queries d));
   ("owner", MString (rd_owner d)); ("review_every_days", MNumber (Some (rd_review_every_days d))); ("references", MStrings (rd_references d))].

Definition step_slice (head : string) (s : RunbookStep) : Slice := if String.eqb head "" then WholeStep s else OneMember (jm_get (step_members s) head).

(** An empty step id is none. *)
Definition on_step (p : PlacedIssue) : option string := id ← pi_stepId p; if String.eqb id "" then None else Some id.

Definition issueSlice (d : RunbookDefinition) (p : PlacedIssue) : Slice :=
  let head := head_of (pi_field p) in
  match on_step p with
  | Some id => match find_step id (rd_steps d) with Some s => step_slice head s | None => Missing end
  | None =>
      let path := ri_path (pi_issue p) in
      if bool_decide (is_Some (STEP_PATH path)) || String.eqb path "steps" || bool_decide (is_Some (after_prefix "steps[" path))
      then OneMember (Some (MSteps (rd_steps d)))
      else OneMember (jm_get (header_members d) head)
  end.

(** The same object holds the same values, so the test of identity changes nothing. *)
Definition currentIssues (placed : list PlacedIssue) (validated working : option RunbookDefinition) : list PlacedIssue :=
  match validated, working with
  | Some v, Some w => filter (λ p, issueSlice v p = issueSlice w p) placed
  | _, _ => placed
  end.

(** ** Two lists as one *)
Definition issue_key (i : RunbookIssue) : string := ri_path i +:+ String "000"%char (ri_code i +:+ String "000"%char (ri_message i)).

Definition mergeIssues (first second : list RunbookIssue) : list RunbookIssue :=
  (foldl (λ '(seen, out) i, if decide (issue_key i ∈ seen) then (seen, out) else (issue_key i :: seen, out ++ [i])) ([], []) (first ++ second)).2.

(** Each id once, in the order of the issues *)
Definition stepsWithIssues (issues : list PlacedIssue) : list string :=
  foldl (λ l id, if decide (id ∈ l) then l else l ++ [id]) [] (omap on_step issues).
