(* ===== verification/RunbookIssuesSpec.v ===== *)
(** * Issues follow their step through every edit of something else *)

From S2P Require Import Prelude JsMap Runbook RunbookSpec RunbookSlug RunbookEdits RunbookIssues.

(** ** Edits of something else *)

(** Whether the edit is of the step's part the head names; the whole step is the empty head. *)
Definition is_about (e : edit) (id head : string) : bool :=
  match e with
  | EdAdd _ _ | EdAddPhase _ => false
  | EdRemove id' => bool_decide (id' = id) || bool_decide (head ∈ ["options"; ""])
  | EdUpdate id' _ | EdKind id' _ | EdSwitch id' _ _ | EdLookup id' _ | EdOptions id' _ => bool_decide (id' = id)
  | EdRename from _ => bool_decide (from = id) || bool_decide (head ∈ ["options"; ""])
  | EdMove id' _ | EdMoveBefore id' _ _ => bool_decide (id' = id) && bool_decide (head ∈ ["phase"; ""])
  end.

Lemma slice_phase p s head : head ∉ ["phase"; ""] → step_slice head (st_phase p s) = step_slice head s.
Proof.
  rewrite !not_elem_of_cons. intros (H1 & H2 & _). unfold step_slice. rewrite (proj2 (String.eqb_neq _ _) H2). f_equal. cbn [step_members jm_get st_phase].
  repeat (case_decide; [by subst|]). done.
Qed.

Lemma slice_options o s head : head ∉ ["options"; ""] → step_slice head (st_options o s) = step_slice head s.
Proof.
  rewrite !not_elem_of_cons. intros (H1 & H2 & _). unfold step_slice. rewrite (proj2 (String.eqb_neq _ _) H2). f_equal. cbn [step_members jm_get st_options].
  repeat (case_decide; [by subst|]). done.
Qed.

(** The step is there, with the part as it is. *)
Definition shows (l : list RunbookStep) (id head : string) (sl : Slice) : Prop := ∃ s, s ∈ l ∧ rs_id s = id ∧ step_slice head s = sl.

Lemma shows_perm l l' id head sl : l ≡ₚ l' → shows l id head sl → shows l' id head sl.
Proof. intros Hp (s & Hs & H). exists s. by rewrite <-Hp. Qed.

Lemma shows_map_other l id' f id head sl : id' ≠ id → shows l id head sl → shows (map_step id' f l) id head sl.
Proof.
  intros Hne (s & Hs & Hid & H). exists s. split; [|done]. apply list_elem_of_fmap. exists s. split; [|done]. rewrite decide_False; [done|]. congruence.
Qed.

(** A step taken out and put back, in another phase. *)
Lemma shows_moved l id' i p step id head sl : NoDup (rs_id <$> l) → step ∈ l → rs_id step = id' → (id' = id → head ∉ ["phase"; ""]) →
  shows l id head sl → shows (splice i (st_phase p step) (filter (λ s, rs_id s ≠ id') l)) id head sl.
Proof.
  intros Hn Hin Hid Hh (s & Hs & <- & H). apply (shows_perm (st_phase p step :: filter (λ s, rs_id s ≠ id') l)); [by rewrite splice_Permutation|].
  destruct (decide (rs_id s = id')) as [E|E].
  - assert (s = step) as -> by (apply (NoDup_id_eq l); [done|done|done|congruence]). exists (st_phase p step). split; [by left|]. split; [done|].
    rewrite slice_phase; [done|]. by apply Hh.
  - exists s. split; [|done]. right. by apply list_elem_of_filter.
Qed.

Section frame.
Context `{Folding}.

Lemma shows_edit e d id head sl : wf d → keeps_ids e d → is_about e id head = false →
  shows (rd_steps d) id head sl → shows (rd_steps (run_edit e d)) id head sl.
Proof.
  intros Hw Hk Ha Hs. pose proof (wf_ids d Hw) as Hn. destruct e as [ph k|ph|id'|id' p|id' k|id' k a|from to|id' dir|id' b ph|id' p|id' o]; cbn [run_edit is_about keeps_ids] in *.
  - destruct (addStep_total d ph k) as (new & -> & _). cbn. eapply shows_perm; [symmetry; apply regroup_Permutation|].
    destruct Hs as (s & Hs & H'). exists s. split; [|done]. apply elem_of_app. by left.
  - unfold addPhase. destruct (addStep_total d ph KCheck) as (new & -> & _). cbn. eapply shows_perm; [symmetry; apply regroup_Permutation|].
    destruct Hs as (s & Hs & H'). exists s. split; [|done]. apply elem_of_app. by left.
  - apply orb_false_iff in Ha as [H1%bool_decide_eq_false H2%bool_decide_eq_false]. unfold removeStep, withSteps. cbn.
    eapply shows_perm; [symmetry; apply regroup_Permutation|]. destruct Hs as (s & Hs & <- & H'). exists (unmark id' s). split_and!.
    + apply list_elem_of_fmap_2, list_elem_of_filter. split; [congruence|done].
    + unfold unmark. by case_decide.
    + unfold unmark. case_decide; [by rewrite slice_options|done].
  - apply bool_decide_eq_false in Ha. unfold updateStep. destruct (sp_phase p); cbn; [eapply shows_perm; [symmetry; apply regroup_Permutation|]|]; by apply shows_map_other.
  - apply bool_decide_eq_false in Ha. by apply shows_map_other.
  - apply bool_decide_eq_false in Ha. unfold switchStepKind. destruct (find_step id' _); [|done]. case_decide; [done|]. by apply shows_map_other.
  - apply orb_false_iff in Ha as [H1%bool_decide_eq_false H2%bool_decide_eq_false]. unfold renameStepId. case_decide; [done|].
    destruct Hs as (s & Hs & <- & H'). cbn. eexists. split_and!; [apply list_elem_of_fmap_2; exact Hs| |].
    + cbn. unfold rename_mark. rewrite decide_False; [done|]. congruence.
    + rewrite slice_options by done. unfold rename_mark. rewrite decide_False by congruence. by destruct s.
  - destruct (moveStep_cases d id' dir) as [->|(i & j & step & next & Hi & Hid & Hb & Hj & _ & [[E ->]|[E [k ->]]])]; [done| |]; cbn.
    + eapply shows_perm; [symmetry; apply swap_Permutation; [exact Hi|exact Hj|by eapply beside_ne]|done].
    + eapply shows_perm; [symmetry; apply regroup_Permutation|]. apply shows_moved; [done|by eapply list_elem_of_lookup_2|done| |done].
      intros ->. rewrite bool_decide_true in Ha by done. by apply bool_decide_eq_false in Ha.
  - unfold moveStepBefore. destruct (decide (Some id' = b)); [exact Hs|]. destruct (find_step id' _) as [step|] eqn:E; [|exact Hs]. apply find_step_Some in E as [Hin Hid].
    cbn. eapply shows_perm; [symmetry; apply regroup_Permutation|]. apply shows_moved; [done|done|done| |done].
    intros ->. rewrite bool_decide_true in Ha by done. by apply bool_decide_eq_false in Ha.
  - apply bool_decide_eq_false in Ha. by apply shows_map_other.
  - apply bool_decide_eq_false in Ha. by apply shows_map_other.
Qed.

Lemma shows_edits es d id head sl : wf d → all_edits keeps_ids es d → forallb (λ e, negb (is_about e id head)) es = true →
  shows (rd_steps d) id head sl → wf (run_edits es d) ∧ shows (rd_steps (run_edits es d)) id head sl.
Proof.
  revert d. induction es as [|e es IH]; intros d Hw Hk Ha Hs; [done|]. destruct Hk as [Hk1 Hk2]. cbn in Ha. apply andb_true_iff in Ha as [H1%negb_true_iff H2].
  apply IH; [by apply wf_run_edit|done|done|by apply shows_edit].
Qed.

Lemma shows_find l id head sl : NoDup (rs_id <$> l) → shows l id head sl → ∃ s, find_step id l = Some s ∧ step_slice head s = sl.
Proof.
  intros Hn (s & Hs & <- & H'). destruct (find_step (rs_id s) l) as [t|] eqn:E.
  - exists t. split; [done|]. apply find_step_Some in E as [Ht Hid]. by rewrite (NoDup_id_eq l t s).
  - apply find_step_None in E. exfalso. apply E. by apply list_elem_of_fmap_2.
Qed.

(** C27. An issue the validation placed on a step stays on it, whatever happens to the other steps and wherever
    this one moves: edits of anything but the part the issue names neither drop it nor move it to another step. Edits of
    that part are taken broadly ([is_about]): any edit, renaming or removal of the step itself, a move for the phase, and
    for the options the removal or renaming of any step. *)
Theorem issues_follow_step (d : RunbookDefinition) (issue : RunbookIssue) (i : N) (field : option string) (s : RunbookStep) (es : list edit)
    (Hw : wf d) (Hp : STEP_PATH (ri_path issue) = Some (i, field)) (Hs : rd_steps d !! N.to_nat i = Some s) (Hid : rs_id s ≠ "")
    (Hk : all_edits keeps_ids es d) (He : forallb (λ e, negb (is_about e (rs_id s) (head_of (default "" field)))) es = true) :
  let placed := mkPlaced issue (Some (rs_id s)) (default "" field) in
  placeIssues [issue] (Some d) = [placed] ∧ currentIssues [placed] (Some d) (Some (run_edits es d)) = [placed] ∧
  ∃ s', find_step (rs_id s) (rd_steps (run_edits es d)) = Some s' ∧ step_slice (head_of (default "" field)) s' = step_slice (head_of (default "" field)) s.
Proof.
  cbv zeta. set (h := head_of (default "" field)) in *. assert (Hin : s ∈ rd_steps d) by (by eapply list_elem_of_lookup_2).
  assert (Hsh : shows (rd_steps d) (rs_id s) h (step_slice h s)) by (by exists s).
  destruct (shows_edits es d (rs_id s) h _ Hw Hk He Hsh) as [Hw' Hsh'].
  destruct (shows_find _ _ _ _ (wf_ids _ Hw) Hsh) as (s0 & F0 & E0). destruct (shows_find _ _ _ _ (wf_ids _ Hw') Hsh') as (s1 & F1 & E1).
  split_and!; [| |by exists s1].
  - unfold placeIssues. cbn [fmap list_fmap]. unfold place_issue. rewrite Hp. rewrite (proj2 (N.ltb_lt _ _)); [by rewrite Hs|]. apply lookup_lt_Some in Hs. lia.
  - unfold currentIssues. rewrite filter_cons, decide_True; [done|]. unfold issueSlice, on_step. cbn. rewrite (proj2 (String.eqb_neq _ _) Hid).
    fold h. rewrite F0, F1. congruence.
Qed.
End frame.

(** An issue of a step that is gone is not shown. *)
Lemma removed_step_drops d p id : wf d → on_step p = Some id → id ∈ ids d → currentIssues [p] (Some d) (Some (removeStep d id)) = [].
Proof.
  intros Hw Hp Hin. unfold currentIssues. rewrite filter_cons, decide_False; [done|]. unfold issueSlice. rewrite Hp.
  destruct (find_step id (rd_steps d)) as [s|] eqn:E; [|by apply find_step_None in E].
  assert (find_step id (rd_steps (removeStep d id)) = None) as ->.
  - apply find_step_None. unfold removeStep, withSteps. cbn. rewrite regroup_Permutation. intros (t & Ht & Hin')%list_elem_of_fmap.
    apply list_elem_of_fmap in Hin' as (u & -> & [Hu _]%list_elem_of_filter). apply Hu. rewrite Ht. unfold unmark. by case_decide.
  - unfold step_slice. by destruct (String.eqb _ "").
Qed.

(** What a new runbook holds back: an issue of a field not left yet, until a save is tried. *)
Lemma visibleIssues_spec placed gated attempted touched p :
  p ∈ visibleIssues placed gated attempted touched ↔
  p ∈ placed ∧ (gated = true → attempted = false → fieldKey (pi_stepId p) (pi_field p) ∈ touched).
Proof.
  unfold visibleIssues. destruct gated, attempted; cbn; rewrite ?list_elem_of_filter; naive_solver.
Qed.

(** ** Merging *)
Lemma merge_loop l : ∀ seen out, (∀ k, k ∈ seen ↔ k ∈ issue_key <$> out) → NoDup (issue_key <$> out) →
  let r := (foldl (λ '(seen, out) i, if decide (issue_key i ∈ seen) then (seen, out) else (issue_key i :: seen, out ++ [i])) (seen, out) l).2 in
  NoDup (issue_key <$> r) ∧ (∀ k, k ∈ issue_key <$> r ↔ k ∈ issue_key <$> out ++ l) ∧ ∃ r', r = out ++ r' ∧ r' `sublist_of` l.
Proof.
  induction l as [|i l IH]; intros seen out Hs Hn; cbn.
  - split_and!; [done|by rewrite app_nil_r|]. exists []. by rewrite app_nil_r.
  - case_decide as Hi.
    + destruct (IH seen out Hs Hn) as (I1 & I2 & r' & E & Hr). split_and!; [done| |exists r'; split; [done|by apply sublist_cons]].
      intros k. rewrite I2, !fmap_app, fmap_cons, !elem_of_app, elem_of_cons. apply Hs in Hi. split; [tauto|]. by intros [?|[->|?]]; auto.
    + assert (Hi' : issue_key i ∉ issue_key <$> out) by (by rewrite <-Hs).
      destruct (IH (issue_key i :: seen) (out ++ [i])) as (I1 & I2 & r' & E & Hr).
      * intros k. rewrite elem_of_cons, fmap_app, elem_of_app, Hs. cbn. rewrite list_elem_of_singleton. tauto.
      * rewrite fmap_app. apply NoDup_app. split_and!; [done| |apply NoDup_singleton]. intros k Hk ->%list_elem_of_singleton. done.
      * split_and!; [done|by rewrite <-app_assoc in I2|]. exists (i :: r'). split; [by rewrite E, <-app_assoc|by apply sublist_skip].
Qed.

(** Each problem of both lists once, the first list's first, in their order. *)
Theorem mergeIssues_once first second :
  NoDup (issue_key <$> mergeIssues first second) ∧
  (∀ i, i ∈ first ++ second → issue_key i ∈ issue_key <$> mergeIssues first second) ∧
  mergeIssues first second `sublist_of` first ++ second.
Proof.
  destruct (merge_loop (first ++ second) [] []) as (H1 & H2 & r' & E & Hr); [by intros k; rewrite !elem_of_nil|constructor|].
  unfold mergeIssues. split_and!; [done| |].
  - intros i Hi. rewrite H2. cbn. by apply list_elem_of_fmap_2.
  - by rewrite E.
Qed.

(** ** Witness *)

(** The step named moves to the end of another phase, another step is renamed and one is added. *)
Definition issue_demo : RunbookIssue := mkEditorIssue "steps[0].title.text" "title_length" "Shorten the title.".

Lemma issues_follow_step_witness :
  let F := ascii_folding in
  let es := [EdMoveBefore "first-check" None Contain; EdRename "verdict" "call"; EdAdd Triage KCheck; EdRemove "block"; EdUpdate "call" (mkPatch None None None (Some "Sure?") None None None None None None None None None None None None None)] in
  stepNumber (run_edits es demo_runbook) "first-check" = 3 ∧
  currentIssues (placeIssues [issue_demo] (Some demo_runbook)) (Some demo_runbook) (Some (run_edits es demo_runbook)) =
    [mkPlaced issue_demo (Some "first-check") "title.text"].
Proof.
  cbv zeta. split; [vm_compute; reflexivity|].
  destruct (@issues_follow_step ascii_folding demo_runbook issue_demo 0 (Some "title.text") (blankStep "first-check" Triage KCheck "Who logged in?")
    [EdMoveBefore "first-check" None Contain; EdRename "verdict" "call"; EdAdd Triage KCheck; EdRemove "block"; EdUpdate "call" (mkPatch None None None (Some "Sure?") None None None None None None None None None None None None None)]
    wf_demo) as (E & H & _); [reflexivity|reflexivity|discriminate| |reflexivity|].
  - repeat split. apply (bool_decide_unpack _). vm_compute. exact I.
  - rewrite E. exact H.
Defined.

(** Another version of the steps makes an issue of the whole list old; an index past the end is on no step. *)
Example issue_places :
  placeIssues [mkEditorIssue "steps[7].title" "c" "m"; mkEditorIssue "applies_when.mitre[0]" "c" "m"] (Some demo_runbook) =
    [mkPlaced (mkEditorIssue "steps[7].title" "c" "m") None "title"; mkPlaced (mkEditorIssue "applies_when.mitre[0]" "c" "m") None "applies_when.mitre[0]"] ∧
  currentIssues (placeIssues [mkEditorIssue "steps[7].title" "c" "m"; mkEditorIssue "applies_when.mitre[0]" "c" "m"] (Some demo_runbook))
    (Some demo_runbook) (Some (removeStep demo_runbook "block")) = [mkPlaced (mkEditorIssue "applies_when.mitre[0]" "c" "m") None "applies_when.mitre[0]"].
Proof. split; vm_compute; reflexivity. Qed.
