(* ===== verification/RunbookRunWords.v ===== *)
(** * Runbooks: the words of a run (soc/runbooks/run/model.ts): people, roles, times, the strip and the step rows *)

From S2P Require Import Prelude JsText JsValue DisplayText Runbook RunbookRun.
From stdpp Require Import pretty.
From Stdlib Require Import Ascii.
Local Open Scope Z_scope.

(** ** People *)
Definition SYSTEM_ACTORS : list string := ["agentic_soc"; "runbook_selector"; "system"; "pipeline"].
Definition plainName (username : string) : string := username.

Definition actorName (nameOf : string → string) (actor : option string) : string :=
  let value := trim (default "" actor) in
  if String.eqb value "" then "someone"
  else if bool_decide (value ∈ SYSTEM_ACTORS) then "Agentic SOC"
  else if String.eqb value "threshold_automation" then "an automation rule"
  else if String.eqb (nameOf value) "" then value else nameOf value.

(** ** Roles, as code units *)

(** [SERVER_SPACE] *)
Definition server_space (c : Z) : bool :=
  in_range 9 13 c || in_range 28 32 c || (c =? 133) || (c =? 160) || (c =? 5760) || in_range 8192 8202 c || (c =? 8232) || (c =? 8233)
  || (c =? 8239) || (c =? 8287) || (c =? 12288).
Definition server_separator (c : Z) : bool := server_space c || (c =? 45).
Definition CHEROKEE (c : Z) : bool := in_range 5024 5109 c || in_range 5112 5117 c || in_range 43888 43967 c.

(** [toUpperCase()] and [toLowerCase()] of a text *)
Class CaseMapping := { toUpperCase : text → text; toLowerCase : text → text }.

(** [for (const ch of text)] *)
Fixpoint characters (t : text) : list text :=
  match t with
  | h :: t' =>
      match t' with
      | l :: t'' => if is_high h && is_low l then [h; l] :: characters t'' else [h] :: characters t'
      | [] => [[h]]
      end
  | [] => []
  end.

(** [replace(SERVER_SEPARATORS, '_')]: [inside] a run of separators *)
Fixpoint underscores (inside : bool) (t : text) : text :=
  match t with
  | c :: t' => if server_separator c then (if inside then [] else [95]) ++ underscores true t' else c :: underscores false t'
  | [] => []
  end.

Record ViewerRoles := mkViewer { vr_unrestricted : bool; vr_role : option text; vr_custom : option (list text) }.

Section roles.
Context `{CaseMapping}.

Definition fold_character (ch : text) : text :=
  if bool_decide (ch = [305]) then ch
  else if bool_decide (ch = [7838]) then units "ss"
  else if existsb CHEROKEE ch then toUpperCase ch
  else toLowerCase (toUpperCase ch).
Definition caseFold (t : text) : text := concat (fold_character <$> characters t).

(** [replace(SERVER_EDGE_SPACE, '')] *)
Definition edge_trim (t : text) : text := reverse (skip_while server_space (reverse (skip_while server_space t))).

Definition roleKey (value : option text) : text := caseFold (underscores false (edge_trim (default [] value))).

Definition holdsApprovalRole (required : option text) (viewer : option ViewerRoles) : option bool :=
  if bool_decide (text_trim (default [] required) = []) then Some true
  else match viewer with
  | None => None
  | Some v =>
      if vr_unrestricted v then Some true
      else
        let wanted := roleKey required in
        let base := roleKey (vr_role v) in
        if bool_decide (base = units "super_admin") || bool_decide (base = wanted) then Some true
        else match vr_custom v with
        | None => None
        | Some custom => Some (existsb (λ r, bool_decide (roleKey (Some r) = wanted)) custom)
        end
  end.
End roles.

(** ** The server's rule, in Python: texts are code points *)

(** [str.isspace], which [strip] and [\s] go by *)
Definition py_space (c : Z) : bool :=
  bool_decide (c ∈ [9; 10; 11; 12; 13; 28; 29; 30; 31; 32; 133; 160; 5760; 8192; 8193; 8194; 8195; 8196; 8197; 8198; 8199; 8200; 8201; 8202;
                    8232; 8233; 8239; 8287; 12288]).
Fixpoint lstrip (cs : list Z) : list Z :=
  match cs with c :: cs' => if py_space c then lstrip cs' else cs | [] => [] end.
Definition py_strip (cs : list Z) : list Z := reverse (lstrip (reverse (lstrip cs))).

(** [re.sub(r"[\s-]+", "_", cs)]: one underscore where a run ends *)
Definition in_run (c : Z) : bool := py_space c || (c =? 45).
Fixpoint sub_runs (cs : list Z) : list Z :=
  match cs with
  | [] => []
  | c :: cs' =>
      if in_run c then match cs' with d :: _ => if in_run d then sub_runs cs' else 95 :: sub_runs cs' | [] => [95] end
      else c :: sub_runs cs'
  end.

(** [str.casefold] of one character: the full case folding of Unicode *)
Class PyCasefold := { casefold_point : Z → list Z }.

Section server.
Context `{PyCasefold}.

(** [role_key] of engine/runbook_runs.py *)
Definition role_key (value : option (list Z)) : list Z := concat (casefold_point <$> sub_runs (py_strip (default [] value))).

Record AccessView := mkAccess { av_unrestricted : bool; av_role : option (list Z); av_assigned : list (list Z) }.

(** [holds_approval_role] of routes_case_runbooks.py *)
Definition holds_approval_role (view : AccessView) (role : option (list Z)) : bool :=
  if bool_decide (default [] role = []) then true
  else if av_unrestricted view then true
  else
    let wanted := role_key role in
    let held := role_key (av_role view) :: (role_key ∘ Some <$> av_assigned view) in
    bool_decide (wanted ∈ held) || bool_decide (role_key (av_role view) = units "super_admin").
End server.

(** ** Times in UTC *)
Definition MONTHS : list string := ["Jan"; "Feb"; "Mar"; "Apr"; "May"; "Jun"; "Jul"; "Aug"; "Sep"; "Oct"; "Nov"; "Dec"].

(** Year, month from 0, day of the month of a day counted from 1 January 1970, in the Gregorian calendar; years
    are counted from 1 March inside. *)
Definition civil (days : Z) : Z * Z * Z :=
  let z := days + 719468 in
  let era := z / 146097 in
  let doe := z mod 146097 in
  let yoe := (doe - doe / 1460 + doe / 36524 - doe / 146096) / 365 in
  let doy := doe - (365 * yoe + yoe / 4 - yoe / 100) in
  let mp := (5 * doy + 2) / 153 in
  (yoe + era * 400 + (if mp <? 10 then 0 else 1), if mp <? 10 then mp + 2 else mp - 10, doy - (153 * mp + 2) / 5 + 1).

Definition MS_PER_DAY : Z := 86400000.
Definition getUTCFullYear (ms : Z) : Z := (civil (ms / MS_PER_DAY)).1.1.
Definition getUTCMonth (ms : Z) : Z := (civil (ms / MS_PER_DAY)).1.2.
Definition getUTCDate (ms : Z) : Z := (civil (ms / MS_PER_DAY)).2.
Definition getUTCHours (ms : Z) : Z := ms mod MS_PER_DAY / 3600000.
Definition getUTCMinutes (ms : Z) : Z := ms mod 3600000 / 60000.

(** [String(v).padStart(2, '0')] *)
Definition two_digits (v : Z) : string := if v <? 10 then "0" +:+ pretty v else pretty v.
Definition month_name (m : Z) : string := default "" (MONTHS !! Z.to_nat m).

Definition same_day (a b : Z) : bool :=
  (getUTCFullYear a =? getUTCFullYear b) && (getUTCMonth a =? getUTCMonth b) && (getUTCDate a =? getUTCDate b).

(** [utcTime] of a date *)
Definition clock_words (d : Z) : string := two_digits (getUTCHours d) +:+ ":" +:+ two_digits (getUTCMinutes d) +:+ " UTC".
Definition day_words (d : Z) : string := month_name (getUTCMonth d) +:+ " " +:+ pretty (getUTCDate d).
Definition time_words (d now : Z) : string :=
  if same_day d now then clock_words d
  else if getUTCFullYear d =? getUTCFullYear now then day_words d +:+ ", " +:+ clock_words d
  else day_words d +:+ ", " +:+ pretty (getUTCFullYear d) +:+ ", " +:+ clock_words d.

(** [s.replace(/ UTC$/, '')] *)
Fixpoint without_utc (s : string) : string :=
  match s with
  | EmptyString => EmptyString
  | String c s' => if String.eqb s " UTC" then EmptyString else String c (without_utc s')
  end.

(** [s.replace(/^.*, /, '')]: what follows the last comma and space *)
Fixpoint has_comma (s : string) : bool :=
  match s with String c s' => (Ascii.eqb c ","%char && match s' with String d _ => Ascii.eqb d " "%char | _ => false end) || has_comma s' | EmptyString => false end.
Fixpoint after_commas (s : string) : string :=
  match s with
  | String c s' =>
      if has_comma s then
        match s' with
        | String d s'' => if Ascii.eqb c ","%char && Ascii.eqb d " "%char && negb (has_comma s'') then s'' else after_commas s'
        | EmptyString => s
        end
      else s
  | EmptyString => s
  end.

Section times.
Context `{Dates}.

(** [parse] *)
Definition parse_date (iso : option string) : option Z := if filled iso then date_parse (default "" iso) else None.

Definition utcTime (iso : option string) (now : Z) : string :=
  match parse_date iso with Some d => time_words d now | None => default "" iso end.

Definition utcRange (from to : option string) (now : Z) : string :=
  match parse_date from, parse_date to with
  | Some a, Some b =>
      let left := without_utc (utcTime from now) in
      if same_day a b then left +:+ " to " +:+ after_commas (utcTime to now)
      else left +:+ " to " +:+ utcTime to now
  | _, _ => join_strings " to " (omap (λ s, if filled s then s else None) [from; to])
  end.

(** ** The strip *)
Definition isMatchExplanation (reason : jsval) : bool :=
  match reason with
  | VObj fields =>
      match get_own fields "tier", get_own fields "matched" with Some (VNum _), Some (VArr _) => true | _, _ => false end
  | _ => false
  end.

Definition attachNote (run : RunbookRun) : option string :=
  let note := match rr_attached_reason run with
              | VObj fields => match get_own fields "note" with Some (VStr s) => trim s | _ => "" end
              | _ => ""
              end in
  if String.eqb note "" then None else Some note.

Definition attachedLine (nameOf : string → string) (now : Z) (run : RunbookRun) : string :=
  let when := utcTime (Some (rr_attached_at run)) now in
  let who := actorName nameOf (Some (rr_attached_actor run)) in
  let what :=
    if String.eqb (rr_attached_actor run) "threshold_automation" then "Attached by an automation rule"
    else match rr_attached_by run with
         | ByFallback => "Fallback"
         | ByPerson => "Added by " +:+ who
         | BySuggestion => "Suggested by the AI, accepted by " +:+ who
         | ByRule => "Matched automatically"
         end in
  if String.eqb when "" then what else what +:+ dot +:+ when.

Definition runStatusWords (now : Z) (run : RunbookRun) : string :=
  match rr_status run with
  | RunCompleted => if filled (rr_completed_at run) then "Completed" +:+ dot +:+ utcTime (rr_completed_at run) now else "Completed"
  | RunAbandoned => "Abandoned"
  | RunActive => "Active"
  end.

(** ** Step rows *)
Definition with_reason (words : string) (reason : option string) : string := if filled reason then words +:+ dot +:+ default "" reason else words.
Definition with_person (words : string) (nameOf : string → string) (who : option string) : string :=
  if filled who then words +:+ dot +:+ actorName nameOf who else words.

Definition quoted (s : string) : string := String "034"%char (s +:+ String "034"%char EmptyString).

Definition done_line (nameOf : string → string) (now : Z) (step : RunbookStep) (state : StepState) : string :=
  match ss_decision state with
  | Some d => "Decided " +:+ quoted (sd_label d) +:+ dot +:+ actorName nameOf (Some (sd_by d)) +:+ " at " +:+ utcTime (Some (sd_at d)) now
  | None =>
      match lookupResultOf state with
      | Some lookup =>
          if bool_decide (rs_kind step = KLookup) && (bool_decide (ss_completed_by state = Some "agentic_soc") || negb (filled (ss_completed_by state)))
          then "Collected automatically at " +:+ utcTime (Some (lr_ran_at lookup)) now
          else if filled (ss_completed_at state) then "Done by " +:+ actorName nameOf (ss_completed_by state) +:+ " at " +:+ utcTime (ss_completed_at state) now else "Done"
      | None => if filled (ss_completed_at state) then "Done by " +:+ actorName nameOf (ss_completed_by state) +:+ " at " +:+ utcTime (ss_completed_at state) now else "Done"
      end
  end.

Definition todo_line (nameOf : string → string) (step : RunbookStep) (state : StepState) : string :=
  match rs_kind step with
  | KDecision => "Waiting for your decision"
  | KLookup =>
      match lookupResultOf state with
      | None => if bool_decide (lk_run <$> rs_lookup step = Some OnDemand) then "Ready to run" else "Waiting for the lookup"
      | Some _ => "Lookup result attached"
      end
  | _ => with_person "To do" nameOf (ss_assignee state)
  end.

Definition statusLine (nameOf : string → string) (now : Z) (step : RunbookStep) (state : StepState) : string :=
  match displayStatus state with
  | Stored StDone => done_line nameOf now step state
  | Waiting =>
      match ss_action_record state with
      | Some rec => "Recorded by " +:+ actorName nameOf (Some (sr_performed_by rec)) +:+ " at " +:+ utcTime (Some (sr_performed_at rec)) now +:+ dot +:+ "waiting for approval"
      | None => "Waiting for approval"
      end
  | Stored StInProgress => with_person "In progress" nameOf (ss_assignee state)
  | Stored StNotApplicable => with_reason "Not applicable" (ss_reason state)
  | Stored StBlocked => with_reason "Blocked" (ss_reason state)
  | Stored StTodo => todo_line nameOf step state
  end.
End times.

Definition openStepWords (item : OpenRequiredStep) : string :=
  if bool_decide (or_display item = Waiting) then "Waiting for approval"
  else if bool_decide (or_kind item = Some KDecision) && bool_decide (so_status (or_item item) = StTodo) then "Decision waiting"
  else match so_status (or_item item) with StInProgress => "In progress" | StBlocked => "Blocked" | _ => "To do" end.

Definition advanceSentence (number : nat) (verb : string) (next : option NumberedStep) (requiredClear : bool) : string :=
  let first := "Step " +:+ pretty (N.of_nat number) +:+ " " +:+ verb +:+ "." in
  match next with
  | Some s => first +:+ " Next, step " +:+ pretty (N.of_nat (ns_number s)) +:+ ": " +:+ rs_title (ns_step s)
  | None => if requiredClear then first +:+ " All required steps are done." else first
  end.
