(* ===== verification/RunbookRunWordsSpec.v ===== *)
(** * What a viewer may approve, and what a time on a run tells *)

From S2P Require Import Prelude JsText JsValue DisplayText DisplaySpec Runbook RunbookSlug RunbookRun RunbookRunWords.
From stdpp Require Import pretty.
From Stdlib Require Import Ascii.
Local Open Scope Z_scope.

(** ** Role names on both sides: the server's code points and the console's code units *)
Lemma py_space_server c : py_space c = server_space c.
Proof.
  unfold py_space, server_space, in_range. apply eq_true_iff_eq. rewrite bool_decide_eq_true, !elem_of_cons. split.
  - intros Hc. repeat (destruct Hc as [->|Hc]; [done|]). by apply not_elem_of_nil in Hc.
  - intros Hc. assert (H : c = 9 ∨ c = 10 ∨ c = 11 ∨ c = 12 ∨ c = 13 ∨ c = 28 ∨ c = 29 ∨ c = 30 ∨ c = 31 ∨ c = 32 ∨ c = 133 ∨ c = 160 ∨ c = 5760 ∨
      c = 8192 ∨ c = 8193 ∨ c = 8194 ∨ c = 8195 ∨ c = 8196 ∨ c = 8197 ∨ c = 8198 ∨ c = 8199 ∨ c = 8200 ∨ c = 8201 ∨ c = 8202 ∨ c = 8232 ∨ c = 8233 ∨
      c = 8239 ∨ c = 8287 ∨ c = 12288) by lia. naive_solver.
Qed.
Lemma in_run_server c : in_run c = server_separator c.
Proof. unfold in_run, server_separator. by rewrite py_space_server. Qed.

(** A character outside the first plane is two units, and no unit of it is a space or a separator. *)
Lemma point_units_cases p : real p →
  (point_units p = [p] ∧ is_high p = false) ∨
  (∃ h l, point_units p = [h; l] ∧ is_high h = true ∧ is_low l = true ∧ server_separator h = false ∧ server_separator l = false ∧ server_separator p = false).
Proof.
  intros Hp. unfold point_units. destruct (Z.ltb_spec p 65536) as [Hlt|Hge]; [left; split; [done|]|right].
  - apply real_spec in Hp as [_ Hp]. destruct (is_high p) eqn:E; [|done]. apply is_high_spec in E. lia.
  - destruct (astral_pair p Hp Hge) as (Hh & Hl & _). eexists _, _. split_and!; [done|done|done|..].
    + apply is_high_spec in Hh. unfold server_separator, server_space, in_range. lia.
    + apply is_low_spec in Hl. unfold server_separator, server_space, in_range. lia.
    + unfold server_separator, server_space, in_range. lia.
Qed.

Lemma separator_space c : server_separator c = false → server_space c = false.
Proof. unfold server_separator. by intros [? _]%orb_false_iff. Qed.

Lemma skip_points l : Forall real l → skip_while server_space (from_points l) = from_points (lstrip l).
Proof.
  induction 1 as [|p l Hp Hl IH]; [done|]. cbn [lstrip]. rewrite py_space_server, from_points_cons.
  destruct (point_units_cases p Hp) as [[E _]|(h & lo & E & _ & _ & Hh & _ & Hs)]; rewrite E; cbn [app skip_while].
  - destruct (server_space p); [done|]. by rewrite from_points_cons, E.
  - by rewrite (separator_space h Hh), (separator_space p Hs), from_points_cons, E.
Qed.

Lemma lstrip_Forall (P : Z → Prop) l : Forall P l → Forall P (lstrip l).
Proof. induction 1; cbn; [constructor|]. destruct (py_space _); [done|by constructor]. Qed.

Lemma rstrip_points l : Forall real l → reverse (skip_while server_space (reverse (from_points l))) = from_points (reverse (lstrip (reverse l))).
Proof.
  induction l as [|p l IH] using rev_ind; intros Hl; [done|]. apply Forall_app in Hl as [Hl [Hp _]%Forall_cons]. specialize (IH Hl).
  rewrite reverse_app, from_points_app, reverse_app. cbn [from_points mbind list_bind]. rewrite app_nil_r. change (reverse [p]) with [p]. cbn [app lstrip]. rewrite py_space_server.
  destruct (point_units_cases p Hp) as [[E _]|(h & lo & E & _ & _ & Hh & Hlo & Hs)]; rewrite E.
  - change (reverse [p]) with [p]. cbn [app skip_while]. destruct (server_space p); [done|].
    rewrite !reverse_cons, !reverse_involutive, from_points_app. cbn [from_points mbind list_bind]. by rewrite app_nil_r, E.
  - change (reverse [h; lo]) with [lo; h]. cbn [app skip_while]. rewrite (separator_space lo Hlo), (separator_space p Hs).
    rewrite !reverse_cons, !reverse_involutive, from_points_app, <-app_assoc. cbn [from_points mbind list_bind app]. by rewrite app_nil_r, E.
Qed.

Lemma strip_points l : Forall real l → edge_trim (from_points l) = from_points (py_strip l).
Proof. intros Hl. unfold edge_trim, py_strip. rewrite skip_points by done. by apply rstrip_points, lstrip_Forall. Qed.

Lemma py_strip_Forall (P : Z → Prop) l : Forall P l → Forall P (py_strip l).
Proof. intros Hl. unfold py_strip. by apply Forall_reverse, lstrip_Forall, Forall_reverse, lstrip_Forall. Qed.

(** One underscore for each run, wherever in the run it is written *)
Lemma underscores_run l : Forall real l →
  underscores false (from_points l) = from_points (sub_runs l) ∧
  (95 :: underscores true (from_points l) = from_points (sub_runs (45 :: l))).
Proof.
  induction 1 as [|p l Hp Hl [IH1 IH2]]; [done|]. cbn [sub_runs]. rewrite (in_run_server 45), (in_run_server p). change (server_separator 45) with true. cbv iota.
  rewrite from_points_cons. destruct (point_units_cases p Hp) as [[E _]|(h & lo & E & _ & _ & Hh & Hlo & Hs)]; rewrite E; cbn [app underscores].
  - destruct (server_separator p) eqn:Es; cbn [app].
    + assert (Ec : match l with [] => [95] | d :: _ => if in_run d then sub_runs l else 95 :: sub_runs l end = sub_runs (45 :: l)) by done.
      rewrite Ec, IH2. done.
    + rewrite IH1. split; [by rewrite from_points_cons, E|]. by rewrite !from_points_cons, E.
  - rewrite Hh, Hlo, Hs, IH1. cbn [app]. by rewrite !from_points_cons, E.
Qed.

Lemma sub_runs_Forall (P : Z → Prop) l : P 95 → Forall P l → Forall P (sub_runs l).
Proof. intros H95. induction 1 as [|p l Hp Hl IH]; [constructor|]. cbn [sub_runs]. destruct (in_run p); [|by constructor]. destruct l as [|d l]; [by repeat constructor|]. destruct (in_run d); [done|by constructor]. Qed.

Lemma characters_points l : Forall real l → characters (from_points l) = point_units <$> l.
Proof.
  induction 1 as [|p l Hp Hl IH]; [done|]. rewrite from_points_cons, fmap_cons. destruct (point_units_cases p Hp) as [[E Hh]|(h & lo & E & Hh & Hlo & _)]; rewrite E; cbn [app].
  - rewrite <-IH. cbn [characters]. destruct (from_points l) as [|d t]; [done|]. by rewrite Hh.
  - cbn [characters]. by rewrite Hh, Hlo, IH.
Qed.

Lemma from_points_inj l l' : Forall real l → Forall real l' → from_points l = from_points l' → l = l'.
Proof. intros Hl Hl' E%(f_equal code_points). by rewrite !code_points_from in E. Qed.

(** ** Unicode: full case folding is upper then lower case, but for three groups *)
Class FoldLaws `{CaseMapping} `{PyCasefold} : Prop := {
  fold_real c : real c → Forall real (casefold_point c);
  fold_dotless : casefold_point 305 = [305];
  fold_sharp : casefold_point 7838 = units "ss";
  fold_cherokee c : CHEROKEE c = true → from_points (casefold_point c) = toUpperCase [c];
  fold_other c : real c → c ≠ 305 → c ≠ 7838 → CHEROKEE c = false → from_points (casefold_point c) = toLowerCase (toUpperCase (point_units c))
}.

Section roles.
Context `{FL : FoldLaws}.

Lemma fold_point c : real c → fold_character (point_units c) = from_points (casefold_point c).
Proof.
  intros Hc. unfold fold_character. destruct (decide (c = 305)) as [->|N1]; [rewrite fold_dotless; reflexivity|]. destruct (decide (c = 7838)) as [->|N2]; [rewrite fold_sharp; reflexivity|].
  destruct (point_units_cases c Hc) as [[E _]|(h & lo & E & Hh & Hlo & _)].
  - rewrite E, !bool_decide_false by congruence. cbn [existsb]. rewrite orb_false_r. destruct (CHEROKEE c) eqn:Ec; [by rewrite fold_cherokee|]. by rewrite fold_other, E.
  - assert (Ec : CHEROKEE c = false).
    { destruct (Z.ltb_spec c 65536) as [Hlt|Hge]; [unfold point_units in E; rewrite (proj2 (Z.ltb_lt _ _) Hlt) in E; discriminate|]. unfold CHEROKEE, in_range. lia. }
    rewrite fold_other by done. rewrite E, !bool_decide_false by discriminate. cbn [existsb]. apply is_high_spec in Hh. apply is_low_spec in Hlo.
    replace (CHEROKEE h || (CHEROKEE lo || false)) with false; [done|]. unfold CHEROKEE, in_range. lia.
Qed.

(** A role name, optional, as the console has it *)
Definition on_console (role : option (list Z)) : option text := from_points <$> role.
Definition real_role (role : option (list Z)) : Prop := Forall real (default [] role).

Lemma default_console role : default [] (on_console role) = from_points (default [] role).
Proof. by destruct role. Qed.

(** The console's key of a role is the server's. *)
Lemma roleKey_server role : real_role role → roleKey (on_console role) = from_points (role_key role).
Proof.
  intros Hr. unfold roleKey, role_key. rewrite default_console, strip_points by done.
  pose proof (py_strip_Forall _ _ Hr) as Hs. destruct (underscores_run _ Hs) as [-> _]. assert (Hu : Forall real (sub_runs (py_strip (default [] role)))) by (by apply sub_runs_Forall).
  unfold caseFold. rewrite characters_points by done. clear -Hu FL. induction Hu as [|c cs Hc _ IH]; [done|]. rewrite !fmap_cons. cbn [concat]. by rewrite from_points_app, <-IH, fold_point.
Qed.

Lemma role_key_real role : real_role role → Forall real (role_key role).
Proof.
  intros Hr. unfold role_key. assert (Hu : Forall real (sub_runs (py_strip (default [] role)))) by (by apply sub_runs_Forall, py_strip_Forall).
  induction Hu as [|c cs Hc _ IH]; [constructor|]. rewrite fmap_cons. cbn [concat]. apply Forall_app. split; [by apply fold_real|done].
Qed.

Lemma same_key a b : real_role a → real_role b → roleKey (on_console a) = roleKey (on_console b) ↔ role_key a = role_key b.
Proof. intros Ha Hb. rewrite !roleKey_server by done. split; [|by intros ->]. intros E. by apply from_points_inj in E; [..|apply role_key_real|apply role_key_real]. Qed.
(** ** Approval roles: what the console knows of a viewer the server sees *)
Definition real_view (sv : AccessView) : Prop := real_role (av_role sv) ∧ Forall (Forall real) (av_assigned sv).
Definition may_be (viewer : option ViewerRoles) (sv : AccessView) : Prop :=
  real_view sv ∧
  match viewer with
  | None => True
  | Some v => vr_unrestricted v = av_unrestricted sv ∧ vr_role v = on_console (av_role sv) ∧ ∀ l, vr_custom v = Some l → l = from_points <$> av_assigned sv
  end.

Lemma existsb_elem {A} (P : A → bool) l : existsb P l = true ↔ ∃ x, x ∈ l ∧ P x = true.
Proof. rewrite existsb_exists. by setoid_rewrite list_elem_of_In. Qed.

Lemma real_super_admin : Forall real (units "super_admin").
Proof. repeat (apply Forall_cons; split; [by split|]). constructor. Qed.

Lemma from_super_admin : from_points (units "super_admin") = units "super_admin".
Proof. reflexivity. Qed.

Lemma super_admin_key role : real_role role → roleKey (on_console role) = units "super_admin" ↔ role_key role = units "super_admin".
Proof.
  intros Hr. rewrite roleKey_server, <-from_super_admin by done. split; [|by intros ->]. intros E. apply from_points_inj in E; [by rewrite E, from_super_admin|by apply role_key_real|exact real_super_admin].
Qed.

Lemma custom_key required assigned : real_role required → Forall (Forall real) assigned →
  existsb (λ r, bool_decide (roleKey (Some r) = roleKey (on_console required))) (from_points <$> assigned) = bool_decide (role_key required ∈ (role_key ∘ Some) <$> assigned).
Proof.
  intros Hr Ha. apply eq_true_iff_eq. rewrite existsb_elem, bool_decide_eq_true, list_elem_of_fmap. rewrite Forall_forall in Ha. split.
  - intros (x & (r & -> & Hin)%list_elem_of_fmap & E%bool_decide_eq_true). exists r. split; [|done]. symmetry. by apply (same_key (Some r) required (Ha r Hin) Hr).
  - intros (r & E & Hin). exists (from_points r). split; [by apply list_elem_of_fmap_2|]. apply bool_decide_eq_true. by apply (same_key (Some r) required (Ha r Hin) Hr).
Qed.

(** A viewer whose roles are known gets the server's answer. *)
Lemma known_roles required sv : real_role required → default [] required ≠ [] → text_trim (from_points (default [] required)) ≠ [] → real_view sv →
  holdsApprovalRole (on_console required) (Some (mkViewer (av_unrestricted sv) (on_console (av_role sv)) (Some (from_points <$> av_assigned sv)))) =
    Some (holds_approval_role sv required).
Proof.
  intros Hr Hne Hb [Hrole Has]. unfold holdsApprovalRole, holds_approval_role. rewrite default_console, (bool_decide_false (text_trim _ = [])), (bool_decide_false (default [] required = [])) by done. cbn [vr_unrestricted vr_role vr_custom].
  destruct (av_unrestricted sv); [done|]. rewrite custom_key by done. rewrite (bool_decide_ext _ _ (super_admin_key _ Hrole)), (bool_decide_ext _ _ (same_key _ _ Hrole Hr)).
  rewrite (bool_decide_ext (role_key required ∈ _ :: _) (role_key required = role_key (av_role sv) ∨ role_key required ∈ (role_key ∘ Some) <$> av_assigned sv)) by apply elem_of_cons.
  rewrite bool_decide_or, (bool_decide_ext (role_key (av_role sv) = role_key required) (role_key required = role_key (av_role sv))) by done.
  destruct (bool_decide (role_key (av_role sv) = _)), (bool_decide (role_key required = _)); cbn [orb]; rewrite ?orb_true_r, ?orb_false_r; done.
Qed.

Lemma holds_blank sv required : default [] required = [] → holds_approval_role sv required = true.
Proof. intros E. unfold holds_approval_role. by rewrite bool_decide_true. Qed.

(** Some role is not the one asked for. *)
Lemma other_role required : ∃ role, real_role (Some role) ∧ role_key (Some role) ≠ role_key required ∧ role_key (Some role) ≠ units "super_admin".
Proof.
  assert (E1 : role_key (Some [305]) = [305]) by (unfold role_key; change (sub_runs _) with [305]; cbn [fmap list_fmap concat]; by rewrite fold_dotless).
  assert (E2 : role_key (Some [305; 305]) = [305; 305]) by (unfold role_key; change (sub_runs _) with [305; 305]; cbn [fmap list_fmap concat]; by rewrite fold_dotless).
  destruct (decide (role_key required = [305])) as [E|E].
  - exists [305; 305]. rewrite E2, E. split_and!; [by repeat constructor|done|done].
  - exists [305]. rewrite E1. split_and!; [by repeat constructor|congruence|done].
Qed.

Lemma refused_view required sv : default [] required ≠ [] → av_unrestricted sv = false →
  role_key (av_role sv) ≠ role_key required → role_key (av_role sv) ≠ units "super_admin" → av_assigned sv = [] → holds_approval_role sv required = false.
Proof.
  intros Hne Hu H1 H2' Ha. unfold holds_approval_role. rewrite (bool_decide_false (default [] required = [])), Hu, Ha by done. cbv zeta.
  rewrite !bool_decide_false; [done|done|]. rewrite elem_of_cons. intros [E|E]; [congruence|by apply not_elem_of_nil in E].
Qed.

(** C28. The hint about a step's approval role is what the server will say, whatever the console knows of the viewer
    (nothing, the base role, or the custom roles too): it answers exactly when every viewer the server may see gives that
    answer, and says nothing only when two of them differ. A role of nothing but white space is left out
    ([blank_role]). *)
Theorem approval_hint required viewer :
  real_role required → (default [] required = [] ∨ text_trim (from_points (default [] required)) ≠ []) → (∃ sv, may_be viewer sv) →
  match holdsApprovalRole (on_console required) viewer with
  | Some b => ∀ sv, may_be viewer sv → holds_approval_role sv required = b
  | None => (∃ sv, may_be viewer sv ∧ holds_approval_role sv required = true) ∧ (∃ sv, may_be viewer sv ∧ holds_approval_role sv required = false)
  end.
Proof.
  intros Hr Hb (sv0 & Hv0 & Hm0). destruct (decide (default [] required = [])) as [E|Hne].
  { unfold holdsApprovalRole. rewrite default_console, E. cbn. intros sv _. by apply holds_blank. }
  assert (Hb' : text_trim (from_points (default [] required)) ≠ []) by (destruct Hb; done). destruct viewer as [[u role known]|].
  - assert (Hk : ∀ sv, may_be (Some (mkViewer u role known)) sv →
      holdsApprovalRole (on_console required) (Some (mkViewer u role (Some (from_points <$> av_assigned sv)))) = Some (holds_approval_role sv required)).
    { intros sv (Hv & Eu & Er & _). cbn in Eu, Er. rewrite Eu, Er. by apply known_roles. }
    destruct Hm0 as (Eu & Er & Hk0). cbn [vr_unrestricted vr_role vr_custom] in *. destruct known as [l|].
    + specialize (Hk0 l eq_refl). assert (M0 : may_be (Some (mkViewer u role (Some l))) sv0) by (split; [done|split_and!; [done|done|by intros ? [= <-]]]).
      pose proof (Hk sv0 M0) as E0. rewrite <-Hk0 in E0. rewrite E0. intros sv Hm. pose proof Hm as (_ & _ & _ & Hl). cbn in Hl. specialize (Hk sv Hm). rewrite <-(Hl l eq_refl), E0 in Hk. by injection Hk.
    + pose proof (Hk (mkAccess u (av_role sv0) [default [] required])) as Hyes. pose proof (Hk (mkAccess u (av_role sv0) [])) as Hno.
      assert (My : may_be (Some (mkViewer u role None)) (mkAccess u (av_role sv0) [default [] required])).
      { split; [split; [by apply Hv0|by repeat constructor]|by split_and!]. }
      assert (Mn : may_be (Some (mkViewer u role None)) (mkAccess u (av_role sv0) [])).
      { split; [split; [by apply Hv0|constructor]|by split_and!]. }
      specialize (Hyes My). specialize (Hno Mn). revert Hk Hyes Hno. unfold holdsApprovalRole. rewrite default_console, (bool_decide_false (text_trim _ = [])) by done.
      cbn [vr_unrestricted vr_role vr_custom av_assigned]. destruct u; [intros Hk _ _ sv Hm; by injection (Hk sv Hm)|].
      destruct (_ || _); [intros Hk _ _ sv Hm; by injection (Hk sv Hm)|]. intros _ Hyes Hno. split; [exists (mkAccess false (av_role sv0) [default [] required])|exists (mkAccess false (av_role sv0) [])]; (split; [done|]).
      * injection Hyes as <-. rewrite orb_false_r. apply bool_decide_eq_true. unfold roleKey. by rewrite default_console.
      * by injection Hno as <-.
  - assert (E : holdsApprovalRole (on_console required) None = None) by (unfold holdsApprovalRole; rewrite default_console, bool_decide_false; done). rewrite E. split.
    + exists (mkAccess true None []). split; [by repeat constructor|]. unfold holds_approval_role. by rewrite (bool_decide_false (default [] required = [])).
    + destruct (other_role required) as (role & Hro & N1 & N2). exists (mkAccess false (Some role) []). split; [by repeat constructor|]. by apply refused_view.
Qed.
End roles.

(** ** The calendar *)
Lemma year_ranges doe : 0 ≤ doe < 146097 →
  let yoe := (doe - doe / 1460 + doe / 36524 - doe / 146096) / 365 in
  let doy := doe - (365 * yoe + yoe / 4 - yoe / 100) in
  0 ≤ yoe < 400 ∧ 0 ≤ doy ≤ 365.
Proof. intros H yoe doy. subst doy yoe. Z.div_mod_to_equations. lia. Qed.

Lemma civil_ranges days : let '(y, m, d) := civil days in 0 ≤ m < 12 ∧ 1 ≤ d ≤ 31.
Proof.
  unfold civil. pose proof (year_ranges ((days + 719468) mod 146097) ltac:(apply Z.mod_pos_bound; lia)) as [Hy Hd]. cbv zeta in *.
  set (doy := _ - (365 * _ + _ / 4 - _ / 100)) in *. clearbody doy. destruct ((5 * doy + 2) / 153 <? 10) eqn:E; Z.div_mod_to_equations; lia.
Qed.

(** Different days have different dates. *)
Lemma civil_inj a b : civil a = civil b → a = b.
Proof.
  unfold civil. pose proof (year_ranges ((a + 719468) mod 146097) ltac:(apply Z.mod_pos_bound; lia)) as [Hya Hda].
  pose proof (year_ranges ((b + 719468) mod 146097) ltac:(apply Z.mod_pos_bound; lia)) as [Hyb Hdb]. cbv zeta in *.
  pose proof (Z.div_mod (a + 719468) 146097 ltac:(lia)) as Ea. pose proof (Z.div_mod (b + 719468) 146097 ltac:(lia)) as Eb.
  set (doea := (a + 719468) mod 146097) in *. set (doeb := (b + 719468) mod 146097) in *. set (ea := (a + 719468) / 146097) in *. set (eb := (b + 719468) / 146097) in *.
  set (ya := (doea - _ + _ - _) / 365) in *. set (yb := (doeb - _ + _ - _) / 365) in *.
  set (da := doea - (365 * ya + ya / 4 - ya / 100)) in *. set (db := doeb - (365 * yb + yb / 4 - yb / 100)) in *.
  assert (Fa : doea = da + (365 * ya + ya / 4 - ya / 100)) by (subst da; lia). assert (Fb : doeb = db + (365 * yb + yb / 4 - yb / 100)) by (subst db; lia).
  clearbody da db ya yb ea eb doea doeb. intros E. injection E as E1 E2 E3.
  assert (Hmp : (5 * da + 2) / 153 = (5 * db + 2) / 153) by (destruct ((5 * da + 2) / 153 <? 10) eqn:L1, ((5 * db + 2) / 153 <? 10) eqn:L2; Z.div_mod_to_equations; lia).
  rewrite Hmp in *. assert (da = db) by lia. assert (ya + ea * 400 = yb + eb * 400) by lia. assert (ya = yb ∧ ea = eb) as [-> ->] by lia. lia.
Qed.

Lemma ms_of_parts a b : civil (a / MS_PER_DAY) = civil (b / MS_PER_DAY) → getUTCHours a = getUTCHours b → getUTCMinutes a = getUTCMinutes b →
  a / 60000 = b / 60000.
Proof.
  intros H%civil_inj. unfold getUTCHours, getUTCMinutes, MS_PER_DAY in *. intros H1 H2. revert H H1 H2.
  Z.div_mod_to_equations. lia.
Qed.

(** ** Reading a time back *)

(** A property of the numbers below a bound, by trying them *)
Lemma by_cases (P : Z → bool) lo n : forallb P (seqZ lo n) = true → ∀ v, lo ≤ v < lo + n → P v = true.
Proof. rewrite forallb_forall. intros H v Hv. apply H, list_elem_of_In, elem_of_seqZ. lia. Qed.

Lemma two_digits_length v : 0 ≤ v < 60 → length (chars (two_digits v)) = 2%nat.
Proof. intros Hv. apply Nat.eqb_eq. apply (by_cases (λ v, length (chars (two_digits v)) =? 2)%nat 0 60); [vm_compute; reflexivity|lia]. Qed.

Lemma two_digits_inj v w : 0 ≤ v < 60 → 0 ≤ w < 60 → two_digits v = two_digits w → v = w.
Proof.
  intros Hv Hw E.
  assert (H : (negb (String.eqb (two_digits v) (two_digits w)) || (v =? w)) = true).
  { apply (by_cases (λ w, negb (String.eqb (two_digits v) (two_digits w)) || (v =? w)) 0 60); [|lia].
    apply (by_cases (λ v, forallb (λ w, negb (String.eqb (two_digits v) (two_digits w)) || (v =? w)) (seqZ 0 60)) 0 60); [vm_compute; reflexivity|lia]. }
  rewrite E, String.eqb_refl in H. cbn in H. lia.
Qed.

(** The words of a day: no comma, and no other day of the year has them. *)
Definition day_text (m d : Z) : string := month_name m +:+ " " +:+ pretty d.

Lemma day_text_inj m d m' d' : 0 ≤ m < 12 → 0 ≤ m' < 12 → day_text m d = day_text m' d' → m = m' ∧ d = d'.
Proof.
  intros Hm Hm' E. apply (f_equal chars) in E. unfold day_text in E. rewrite !chars_app in E.
  assert (Hl : ∀ m, 0 ≤ m < 12 → length (chars (month_name m)) = 3%nat).
  { intros k Hk. apply Nat.eqb_eq. apply (by_cases (λ m, length (chars (month_name m)) =? 3)%nat 0 12); [vm_compute; reflexivity|lia]. }
  apply app_inj_1 in E as [E1 E2]; [|by rewrite !Hl]. cbn in E2. injection E2 as E2. apply chars_inj in E2. apply chars_inj in E1. split; [|by apply (inj pretty)].
  assert (H : (negb (String.eqb (month_name m) (month_name m')) || (m =? m')) = true).
  { apply (by_cases (λ w, negb (String.eqb (month_name m) (month_name w)) || (m =? w)) 0 12); [|lia].
    apply (by_cases (λ v, forallb (λ w, negb (String.eqb (month_name v) (month_name w)) || (v =? w)) (seqZ 0 12)) 0 12); [vm_compute; reflexivity|lia]. }
  rewrite E1, String.eqb_refl in H. cbn in H. lia.
Qed.

Definition comma_free (t : list ascii) : bool := forallb (λ c, negb (Ascii.eqb c ","%char)) t.

Lemma day_text_comma m d : 0 ≤ m < 12 → 1 ≤ d ≤ 31 → comma_free (chars (day_text m d)) = true.
Proof.
  intros Hm Hd. apply (by_cases (λ d, comma_free (chars (day_text m d))) 1 31); [|lia].
  apply (by_cases (λ m, forallb (λ d, comma_free (chars (day_text m d))) (seqZ 1 31)) 0 12); [vm_compute; reflexivity|lia].
Qed.

Lemma first_comma a b x y : comma_free a = true → comma_free b = true → a ++ ","%char :: x = b ++ ","%char :: y → a = b ∧ x = y.
Proof.
  revert b. induction a as [|c a IH]; intros [|c' b] Ha Hb E; cbn in *; simplify_eq; try done.
  apply andb_true_iff in Ha as [_ Ha], Hb as [_ Hb]. destruct (IH b Ha Hb) as [-> ->]; done.
Qed.

(** A time is the words before it, and the clock. *)
Definition before_clock (d now : Z) : string :=
  if same_day d now then ""
  else if getUTCFullYear d =? getUTCFullYear now then day_words d +:+ ", "
  else day_words d +:+ ", " +:+ pretty (getUTCFullYear d) +:+ ", ".

Lemma time_words_split d now : time_words d now = before_clock d now +:+ clock_words d.
Proof. unfold time_words, before_clock. repeat case_match; by rewrite ?app_assoc_string. Qed.

Lemma hours_range d : 0 ≤ getUTCHours d < 24.
Proof. unfold getUTCHours, MS_PER_DAY. Z.div_mod_to_equations. lia. Qed.
Lemma minutes_range d : 0 ≤ getUTCMinutes d < 60.
Proof. unfold getUTCMinutes. Z.div_mod_to_equations. lia. Qed.

Lemma clock_length d : length (chars (clock_words d)) = 9%nat.
Proof.
  pose proof (hours_range d). pose proof (minutes_range d). unfold clock_words. rewrite !chars_app, !length_app, !two_digits_length by lia. done.
Qed.

Lemma clock_inj a b : clock_words a = clock_words b → getUTCHours a = getUTCHours b ∧ getUTCMinutes a = getUTCMinutes b.
Proof.
  pose proof (hours_range a). pose proof (minutes_range a). pose proof (hours_range b). pose proof (minutes_range b).
  intros E%(f_equal chars). unfold clock_words in E. rewrite !chars_app in E.
  apply app_inj_1 in E as [E1 E2]; [|by rewrite !two_digits_length by lia]. apply app_inj_1 in E2 as [_ E2]; [|done].
  apply app_inj_1 in E2 as [E2 _]; [|by rewrite !two_digits_length by lia].
  apply chars_inj in E1, E2. split; apply two_digits_inj; done || lia.
Qed.

Lemma date_ranges d : 0 ≤ getUTCMonth d < 12 ∧ 1 ≤ getUTCDate d ≤ 31.
Proof. unfold getUTCMonth, getUTCDate. pose proof (civil_ranges (d / MS_PER_DAY)) as H. by destruct (civil (d / MS_PER_DAY)) as [[y m] dd]. Qed.

Lemma same_day_civil a b : same_day a b = true ↔ civil (a / MS_PER_DAY) = civil (b / MS_PER_DAY).
Proof.
  unfold same_day, getUTCFullYear, getUTCMonth, getUTCDate. rewrite !andb_true_iff, !Z.eqb_eq.
  destruct (civil (a / MS_PER_DAY)) as [[y m] d], (civil (b / MS_PER_DAY)) as [[y' m'] d']. cbn. split; [by intros [[-> ->] ->]|by intros [= -> -> ->]].
Qed.

(** The words before the clock tell the day. *)
Lemma before_inj a b now : before_clock a now = before_clock b now → same_day a b = true.
Proof.
  destruct (date_ranges a) as [Ra1 Ra2], (date_ranges b) as [Rb1 Rb2]. pose proof (day_text_comma _ _ Ra1 Ra2) as Ca. pose proof (day_text_comma _ _ Rb1 Rb2) as Cb.
  unfold before_clock. intros E%(f_equal chars). revert E.
  change (day_words a) with (day_text (getUTCMonth a) (getUTCDate a)). change (day_words b) with (day_text (getUTCMonth b) (getUTCDate b)).
  destruct (same_day a now) eqn:Sa, (same_day b now) eqn:Sb.
  { intros _. apply same_day_civil. apply same_day_civil in Sa, Sb. congruence. }
  1,2: repeat case_match; rewrite ?chars_app; intros E%(f_equal length); rewrite ?length_app in E; cbn in E; lia.
  assert (Hsame : getUTCFullYear a = getUTCFullYear b → getUTCMonth a = getUTCMonth b → getUTCDate a = getUTCDate b → same_day a b = true)
    by (unfold same_day; intros -> -> ->; by rewrite !Z.eqb_refl).
  generalize dependent (getUTCFullYear a). generalize dependent (getUTCFullYear b). intros yb ya Hsame.
  destruct (ya =? getUTCFullYear now) eqn:Ya, (yb =? getUTCFullYear now) eqn:Yb; rewrite !chars_app; intros E; apply first_comma in E as [E1 E2]; try done;
    apply chars_inj in E1; apply day_text_inj in E1 as [E3 E4]; try done.
  - apply Hsame; [lia|done|done].
  - cbn in E2. injection E2 as E2. by destruct (chars (pretty yb)).
  - cbn in E2. injection E2 as E2. by destruct (chars (pretty ya)).
  - apply Hsame; [|done|done]. cbn in E2. injection E2 as E2. apply app_inv_tail in E2. apply chars_inj in E2. by apply (inj pretty).
Qed.

(** Two times of a run read alike only when they are of the same minute, whatever the moment they are read. *)
Theorem utcTime_tells_minute `{Dates} (a b : string) (da db now : Z) :
  parse_date (Some a) = Some da → parse_date (Some b) = Some db → utcTime (Some a) now = utcTime (Some b) now → da / 60000 = db / 60000.
Proof.
  intros Ha Hb. unfold utcTime. rewrite Ha, Hb, !time_words_split. intros E%(f_equal chars). rewrite !chars_app in E.
  apply app_inj_2 in E as [E1 E2]; [|by rewrite !clock_length]. apply chars_inj in E1, E2. apply clock_inj in E2 as [E3 E4].
  apply ms_of_parts; [|done|done]. apply same_day_civil. by eapply before_inj.
Qed.

(** ** Witnesses *)

(** Case mapping of ASCII, on both sides *)
#[local] Instance ascii_case : CaseMapping :=
  {| toUpperCase := fmap (λ c, if is_lower c then c - 32 else c); toLowerCase := fmap (λ c, if is_upper c then c + 32 else c) |}.
#[local] Instance ascii_casefold : PyCasefold :=
  {| casefold_point c := if c =? 7838 then units "ss" else if is_upper c then [c + 32] else [c] |}.

#[local] Instance ascii_folds : FoldLaws.
Proof.
  split.
  - intros c Hc. cbn. case_match; [by repeat (apply Forall_cons; split; [by split|])|]. case_match eqn:E; apply Forall_singleton; [|done].
    unfold is_upper, in_range in E. apply real_spec. unfold point_ok. lia.
  - reflexivity.
  - reflexivity.
  - intros c Hc. unfold CHEROKEE, in_range in Hc. cbn. assert (E1 : (c =? 7838) = false) by lia. assert (E2 : is_upper c = false) by (unfold is_upper, in_range; lia).
    assert (E3 : is_lower c = false) by (unfold is_lower, in_range; lia). rewrite E1, E2, E3. cbn. unfold point_units. by replace (c <? 65536) with true by lia.
  - intros c Hc _ N2 _. cbn. rewrite (proj2 (Z.eqb_neq _ _) N2). destruct (point_units_cases c Hc) as [[E _]|(h & l & E & Hh & Hl & _)].
    + rewrite E. cbn. destruct (is_upper c) eqn:Eu.
      * assert (is_lower c = false) as -> by (unfold is_upper, is_lower, in_range in *; lia). rewrite Eu. cbn. unfold point_units. unfold is_upper, in_range in Eu. by replace (c + 32 <? 65536) with true by lia.
      * cbn. rewrite E. cbn. destruct (is_lower c) eqn:El; [|by rewrite Eu]. unfold is_lower, in_range in El. assert (is_upper (c - 32) = true) as -> by (unfold is_upper, in_range; lia). f_equal. lia.
    + rewrite E. apply is_high_spec in Hh. apply is_low_spec in Hl.
      assert (Hx : ∀ x, 55296 ≤ x ≤ 57343 → is_lower x = false ∧ is_upper x = false) by (intros x Hx; unfold is_lower, is_upper, in_range; lia).
      destruct (Hx h ltac:(lia)) as [H1 H2], (Hx l ltac:(lia)) as [H3 H4].
      assert (Eu : is_upper c = false).
      { destruct (Z.ltb_spec c 65536) as [Hlt|Hge]; [unfold point_units in E; rewrite (proj2 (Z.ltb_lt _ _) Hlt) in E; discriminate|]. unfold is_upper, in_range. lia. }
      rewrite Eu. cbn. rewrite E. cbn. by rewrite H1, H3, H2, H4.
Qed.

(** The custom roles of the viewer are not known: the base role may do, another role may not be told. *)
Definition seen_manager : AccessView := mkAccess false (Some (units " soc manager ")) [units "responder"].
Definition seen_analyst : AccessView := mkAccess false (Some (units "analyst")) [].
Lemma approval_hint_witness :
  holdsApprovalRole (Some (units "SOC-Manager")) (Some (mkViewer false (Some (units " soc manager ")) None)) = Some true ∧
  holds_approval_role seen_manager (Some (units "SOC-Manager")) = true ∧
  holdsApprovalRole (Some (units "SOC-Manager")) (Some (mkViewer false (Some (units "analyst")) None)) = None ∧
  ∃ sv, holds_approval_role sv (Some (units "SOC-Manager")) = false.
Proof.
  assert (Hr : real_role (Some (units "SOC-Manager"))) by (repeat (apply Forall_cons; split; [by split|]); constructor).
  assert (Hb : text_trim (from_points (default [] (Some (units "SOC-Manager")))) ≠ []) by (vm_compute; discriminate).
  assert (M1 : may_be (Some (mkViewer false (Some (units " soc manager ")) None)) seen_manager).
  { split; [split; [repeat (apply Forall_cons; split; [by split|]); constructor|repeat constructor; lia]|by split_and!]. }
  assert (M2 : may_be (Some (mkViewer false (Some (units "analyst")) None)) seen_analyst).
  { split; [split; [repeat (apply Forall_cons; split; [by split|]); constructor|constructor]|by split_and!]. }
  split_and!; [vm_compute; reflexivity| |vm_compute; reflexivity|].
  - exact (approval_hint (Some (units "SOC-Manager")) (Some (mkViewer false (Some (units " soc manager ")) None)) Hr (or_intror Hb) (ex_intro _ _ M1) seen_manager M1).
  - pose proof (approval_hint (Some (units "SOC-Manager")) (Some (mkViewer false (Some (units "analyst")) None)) Hr (or_intror Hb) (ex_intro _ _ M2)) as Hh.
    assert (E : holdsApprovalRole (on_console (Some (units "SOC-Manager"))) (Some (mkViewer false (Some (units "analyst")) None)) = None) by (vm_compute; reflexivity).
    rewrite E in Hh. destruct Hh as [_ (sv & _ & Ev)]. by exists sv.
Defined.

(** A blank role: the console takes it for none, the server asks for it. *)
Example blank_role :
  holdsApprovalRole (Some (units " ")) (Some (mkViewer false (Some (units "analyst")) (Some []))) = Some true ∧
  holds_approval_role seen_analyst (Some (units " ")) = false.
Proof. split; vm_compute; reflexivity. Qed.

(** Milliseconds in decimal *)
#[local] Instance decimal_dates : Dates :=
  {| date_parse s := if String.eqb s "leap" then Some 1709214245678 else if String.eqb s "later" then Some 1709214299999 else if String.eqb s "1969" then Some (-1) else None |}.

Lemma utcTime_tells_minute_witness :
  utcTime (Some "leap") 1761662000000 = "Feb 29, 2024, 13:44 UTC" ∧ 1709214245678 / 60000 = 1709214299999 / 60000.
Proof.
  split; [vm_compute; reflexivity|].
  refine (utcTime_tells_minute "leap" "later" 1709214245678 1709214299999 1761662000000 eq_refl eq_refl _). vm_compute. reflexivity.
Defined.

Example utc_words :
  utcTime (Some "1969") 0 = "Dec 31, 1969, 23:59 UTC" ∧ utcTime (Some "leap") 1709250000000 = "13:44 UTC" ∧
  utcTime (Some "leap") 1709300000000 = "Feb 29, 13:44 UTC" ∧ utcTime (Some "yesterday") 0 = "yesterday" ∧
  utcRange (Some "leap") (Some "later") 0 = "Feb 29, 2024, 13:44 to 13:44 UTC" ∧ utcRange (Some "yesterday") None 0 = "yesterday".
Proof. vm_compute. split_and!; reflexivity. Qed.
