(* ===== verification/UrlParams.v ===== *)
(** * Query strings and the characters in them: UTF-8, [URLSearchParams], [encodeURIComponent]

    [TextEncoder] is in Zip; here is its inverse, the decoder of the Encoding standard, which writes U+FFFD for a
    byte sequence that is no character, with the lemma that decoding what was encoded gives the code points. Then
    the form encoding of the URL standard, with the lemma that parsing what was written gives the pairs that were
    written. *)

From S2P Require Import Prelude JsText TextLines Zip.
Local Open Scope Z_scope.

(** A code point that is no surrogate *)
Definition scalar_value (c : Z) : Prop := 0 ≤ c < 55296 ∨ 57344 ≤ c < 1114112.

Definition paired (c d : Z) : Z := 65536 + (c - 55296) * 1024 + (d - 56320).

(** The code points of a text; a surrogate by itself counts as U+FFFD. *)
Fixpoint points (t : text) : list Z :=
  match t with
  | [] => []
  | c :: t' =>
      if is_high c then
        match t' with
        | d :: t'' => if is_low d then paired c d :: points t'' else 65533 :: points t'
        | [] => [65533]
        end
      else if is_low c then 65533 :: points t'
      else c :: points t'
  end.

Definition units_of_point (c : Z) : text :=
  if c <? 65536 then [c] else [55296 + (c - 65536) / 1024; 56320 + (c - 65536) mod 1024].
Definition text_of_points (cs : list Z) : text := concat (units_of_point <$> cs).

(** Every surrogate is one of a pair. *)
Fixpoint well_formed (t : text) : bool :=
  match t with
  | [] => true
  | c :: t' =>
      if is_high c then match t' with d :: t'' => is_low d && well_formed t'' | [] => false end
      else negb (is_low c) && well_formed t'
  end.

(** ** The decoder *)

(** Between characters, or in one: the bytes still to come, the bits so far, the bounds of the next byte *)
Inductive Decoder := Ready | Within (need : nat) (cp lo hi : Z).
Inductive Fed := Emit (c : Z) | More (d : Decoder) | Bad.

Definition feed (d : Decoder) (b : Z) : Fed :=
  match d with
  | Ready =>
      if in_range 0 127 b then Emit b
      else if in_range 194 223 b then More (Within 1 (b - 192) 128 191)
      else if in_range 224 239 b then More (Within 2 (b - 224) (if b =? 224 then 160 else 128) (if b =? 237 then 159 else 191))
      else if in_range 240 244 b then More (Within 3 (b - 240) (if b =? 240 then 144 else 128) (if b =? 244 then 143 else 191))
      else Bad
  | Within need cp lo hi =>
      if in_range lo hi b then
        let cp' := cp * 64 + (b - 128) in
        match need with S (S n) => More (Within (S n) cp' 128 191) | _ => Emit cp' end
      else Bad
  end.

Fixpoint utf8_decode (d : Decoder) (bs : bytes) : list Z :=
  match bs with
  | [] => match d with Ready => [] | _ => [65533] end
  | b :: bs' =>
      match feed d b with
      | Emit c => c :: utf8_decode Ready bs'
      | More d' => utf8_decode d' bs'
      | Bad =>
          65533 ::
          match d with
          | Ready => utf8_decode Ready bs'
          | _ =>
              match feed Ready b with
              | Emit c => c :: utf8_decode Ready bs'
              | More d' => utf8_decode d' bs'
              | Bad => 65533 :: utf8_decode Ready bs'
              end
          end
      end
  end.

(** The decoder takes the bytes of a character through to it. *)
Inductive feeds : Decoder → bytes → Z → Prop :=
  | feeds_emit d b c : feed d b = Emit c → feeds d [b] c
  | feeds_more d b d' bs c : feed d b = More d' → feeds d' bs c → feeds d (b :: bs) c.

Lemma feeds_decode d bs c rest : feeds d bs c → utf8_decode d (bs ++ rest) = c :: utf8_decode Ready rest.
Proof. induction 1 as [d b c E|d b d' bs c E _ IH]; cbn; rewrite E; [done|exact IH]. Qed.

Lemma in_range_true lo hi c : lo ≤ c ≤ hi → in_range lo hi c = true.
Proof. unfold in_range. lia. Qed.
Lemma in_range_false lo hi c : c < lo ∨ hi < c → in_range lo hi c = false.
Proof. unfold in_range. lia. Qed.

(** A step inside a character *)
Lemma feeds_within n cp lo hi b bs c : lo ≤ b ≤ hi → feeds (Within (S n) (cp * 64 + (b - 128)) 128 191) bs c → feeds (Within (S (S n)) cp lo hi) (b :: bs) c.
Proof. intros Hb. apply feeds_more. cbn. by rewrite in_range_true. Qed.
Lemma feeds_last cp lo hi b c : lo ≤ b ≤ hi → c = cp * 64 + (b - 128) → feeds (Within 1 cp lo hi) [b] c.
Proof. intros Hb ->. apply feeds_emit. cbn. by rewrite in_range_true. Qed.

Lemma utf8_point_feeds c : scalar_value c → feeds Ready (utf8_point c) c.
Proof.
  unfold scalar_value, utf8_point. intros Hc. destruct (c <? 128) eqn:E1; [|destruct (c <? 2048) eqn:E2; [|destruct (c <? 65536) eqn:E3]].
  - apply feeds_emit. cbn. by rewrite in_range_true by lia.
  - eapply feeds_more; [cbn; rewrite in_range_false, in_range_true by (Z.div_mod_to_equations; lia); reflexivity|].
    apply feeds_last; Z.div_mod_to_equations; lia.
  - eapply feeds_more; [cbn; rewrite !in_range_false, in_range_true by (Z.div_mod_to_equations; lia); reflexivity|].
    apply feeds_within; [|apply feeds_last; Z.div_mod_to_equations; lia].
    destruct (224 + c / 4096 =? 224) eqn:F1, (224 + c / 4096 =? 237) eqn:F2; Z.div_mod_to_equations; lia.
  - eapply feeds_more; [cbn; rewrite !in_range_false, in_range_true by (Z.div_mod_to_equations; lia); reflexivity|].
    apply feeds_within; [|apply feeds_within; [Z.div_mod_to_equations; lia|apply feeds_last; Z.div_mod_to_equations; lia]].
    destruct (240 + c / 262144 =? 240) eqn:F1, (240 + c / 262144 =? 244) eqn:F2; Z.div_mod_to_equations; lia.
Qed.

(** ** Round trip *)
Definition units16 (t : text) : Prop := Forall (λ c, 0 ≤ c < 65536) t.

(** Induction over the characters of a text *)
Lemma text_ind (P : text → Prop) :
  P [] → (∀ c t, is_high c = false → P t → P (c :: t)) → (∀ c d t, is_high c = true → is_low d = true → P t → P (c :: d :: t)) →
  (∀ c t, is_high c = true → match t with d :: _ => is_low d = false | [] => True end → P t → P (c :: t)) → ∀ t, P t.
Proof.
  intros H0 H1 H2 H3 t. remember (length t) as n eqn:En. assert (Hn : (length t ≤ n)%nat) by lia. clear En. revert t Hn.
  induction n as [|n IH]; intros [|c t] Hn; cbn in Hn; try done; try lia.
  destruct (is_high c) eqn:Ec; [|apply H1; [done|apply IH; lia]].
  destruct t as [|d t]; [apply H3; [done|done|apply IH; cbn; lia]|]. destruct (is_low d) eqn:Ed.
  - apply H2; [done|done|apply IH; cbn in Hn; lia].
  - apply H3; [done|done|apply IH; lia].
Qed.

Lemma high_unit c : is_high c = true ↔ 55296 ≤ c ≤ 56319.
Proof. unfold is_high. lia. Qed.
Lemma low_unit c : is_low c = true ↔ 56320 ≤ c ≤ 57343.
Proof. unfold is_low. lia. Qed.

Lemma encode_points t : encode t = concat (utf8_point <$> points t).
Proof.
  induction t as [|c t Hc IH|c d t Hc Hd IH|c t Hc Hd IH] using text_ind; [done|..]; cbn [encode points]; rewrite Hc.
  - destruct (is_low c); rewrite fmap_cons; cbn [concat]; by rewrite IH.
  - rewrite Hd, fmap_cons. cbn [concat]. by rewrite IH.
  - destruct t as [|d t]; [done|]. rewrite Hd, fmap_cons. cbn [concat]. by rewrite IH.
Qed.

Lemma points_scalar t : units16 t → Forall scalar_value (points t).
Proof.
  unfold scalar_value. induction t as [|c t Hc IH|c d t Hc Hd IH|c t Hc Hd IH] using text_ind; intros Ht; [constructor|..]; cbn [points]; rewrite Hc.
  - inversion Ht; subst. destruct (is_low c) eqn:El; constructor; auto; [lia|].
    apply not_true_iff_false in Hc, El. rewrite high_unit in Hc. rewrite low_unit in El. lia.
  - inversion Ht as [|?? ? Ht']; subst. inversion Ht'; subst. rewrite Hd. constructor; [|auto]. unfold paired. apply high_unit in Hc. apply low_unit in Hd. lia.
  - inversion Ht; subst. destruct t as [|d t]; [repeat constructor; lia|]. rewrite Hd. constructor; [lia|auto].
Qed.

Lemma decode_points cs rest : Forall scalar_value cs → utf8_decode Ready (concat (utf8_point <$> cs) ++ rest) = cs ++ utf8_decode Ready rest.
Proof.
  induction 1 as [|c cs Hc _ IH]; [done|]. rewrite fmap_cons. cbn [concat]. rewrite <-app_assoc, (feeds_decode _ _ c) by by apply utf8_point_feeds.
  cbn. by rewrite IH.
Qed.

(** Decoding what was encoded gives the code points. *)
Lemma decode_encode t : units16 t → utf8_decode Ready (encode t) = points t.
Proof. intros Ht. rewrite encode_points, <-(app_nil_r (concat _)), decode_points by by apply points_scalar. by rewrite app_nil_r. Qed.

(** A text without stray surrogates is its code points. *)
Lemma text_of_points_id t : units16 t → well_formed t = true → text_of_points (points t) = t.
Proof.
  unfold text_of_points. induction t as [|c t Hc IH|c d t Hc Hd IH|c t Hc Hd IH] using text_ind; intros Ht Hw; [done|..]; cbn [well_formed points] in *; rewrite Hc in *.
  - apply andb_true_iff in Hw as [Hl%negb_true_iff Hw]. rewrite Hl. inversion Ht; subst. rewrite fmap_cons. cbn [concat]. unfold units_of_point at 1.
    replace (c <? 65536) with true by lia. cbn. by rewrite IH.
  - rewrite Hd in *. inversion Ht as [|?? Hc' Ht']; subst. inversion Ht' as [|?? Hd' Ht'']; subst. rewrite fmap_cons. cbn [concat]. rewrite IH by done. apply high_unit in Hc. apply low_unit in Hd.
    unfold units_of_point, paired. replace (65536 + (c - 55296) * 1024 + (d - 56320) <? 65536) with false by lia.
    cbn. f_equal; [|f_equal]; Z.div_mod_to_equations; lia.
  - destruct t as [|d t]; [done|]. by rewrite Hd in Hw.
Qed.

Lemma points_app_plain a b : Forall (λ c, is_high c = false) a → points (a ++ b) = points a ++ points b.
Proof. induction 1 as [|c a Hc _ IH]; [done|]. cbn. rewrite Hc. destruct (is_low c); cbn; by rewrite IH. Qed.

(** ** What the decoder gives *)

(** The characters a decoder inside one can still give are real. *)
Definition decoder_ok (d : Decoder) : Prop :=
  match d with
  | Ready => True
  | Within need cp lo hi =>
      128 ≤ lo ∧ hi ≤ 191 ∧
      let w := match need with 1%nat => 1 | 2%nat => 64 | _ => 4096 end in
      (need = 1 ∨ need = 2 ∨ need = 3)%nat ∧ 0 ≤ cp ∧
      ((cp * 64 + (hi - 128) + 1) * w ≤ 55296 ∨ 57344 ≤ (cp * 64 + (lo - 128)) * w) ∧ (cp * 64 + (hi - 128) + 1) * w ≤ 1114112
  end.

Lemma in_range_spec lo hi c : in_range lo hi c = true ↔ lo ≤ c ≤ hi.
Proof. unfold in_range. lia. Qed.

Lemma feed_ok d b : decoder_ok d → match feed d b with Emit c => scalar_value c | More d' => decoder_ok d' | Bad => True end.
Proof.
  unfold scalar_value. destruct d as [|need cp lo hi]; cbn.
  - intros _. destruct (in_range 0 127 b) eqn:E1; [apply in_range_spec in E1; lia|]. destruct (in_range 194 223 b) eqn:E2; [apply in_range_spec in E2; cbn; lia|].
    destruct (in_range 224 239 b) eqn:E3; [apply in_range_spec in E3; cbn; destruct (Z.eqb_spec b 224), (Z.eqb_spec b 237); lia|].
    destruct (in_range 240 244 b) eqn:E4; [apply in_range_spec in E4; cbn; destruct (Z.eqb_spec b 240), (Z.eqb_spec b 244); lia|done].
  - intros (Hlo & Hhi & Hn & Hcp & Hs & Hm). destruct (in_range lo hi b) eqn:E; [|done]. apply in_range_spec in E.
    destruct Hn as [->|[->| ->]]; cbn -[Z.mul]; [lia|split_and!; lia..].
Qed.

Lemma decode_scalar d bs : decoder_ok d → Forall scalar_value (utf8_decode d bs).
Proof.
  assert (Hr : scalar_value 65533) by (unfold scalar_value; lia). revert d. induction bs as [|b bs IH]; intros d Hd; cbn [utf8_decode].
  - destruct d; [constructor|]. constructor; [exact Hr|constructor].
  - pose proof (feed_ok d b Hd) as Hf. destruct (feed d b) as [c|d'|]; [constructor; [done|by apply IH]|by apply IH|]. constructor; [done|].
    destruct d as [|need cp lo hi]; [by apply IH|]. pose proof (feed_ok Ready b I) as Hf'. destruct (feed Ready b); [constructor; [done|by apply IH]|by apply IH|constructor; [done|by apply IH]].
Qed.

Lemma text_of_points_ok cs : Forall scalar_value cs → units16 (text_of_points cs) ∧ well_formed (text_of_points cs) = true.
Proof.
  unfold scalar_value, text_of_points. induction 1 as [|c cs Hc _ [IH1 IH2]]; [by split; [constructor|]|]. rewrite fmap_cons. cbn [concat]. unfold units_of_point at 1 3.
  destruct (c <? 65536) eqn:E; cbn [app].
  - split; [constructor; [lia|done]|]. cbn [well_formed]. destruct (is_high c) eqn:Eh; [apply high_unit in Eh; lia|]. destruct (is_low c) eqn:El; [apply low_unit in El; lia|done].
  - split; [repeat (constructor; [Z.div_mod_to_equations; lia|]); done|]. cbn [well_formed].
    rewrite (proj2 (high_unit _)), (proj2 (low_unit _)) by (Z.div_mod_to_equations; lia). done.
Qed.

(** A unit that is no surrogate can go at either end. *)
Lemma well_formed_cons c t : is_high c = false → is_low c = false → well_formed (c :: t) = well_formed t.
Proof. intros Hh Hl. cbn [well_formed]. by rewrite Hh, Hl. Qed.
Lemma well_formed_snoc (t : text) c : is_high c = false → is_low c = false → well_formed (t ++ [c]) = well_formed t.
Proof.
  intros Hh Hl. induction t as [|d t Hd IH|d e t Hd He IH|d t Hd Ht IH] using text_ind; [cbn; by rewrite Hh, Hl|..]; cbn [app well_formed]; rewrite Hd.
  - by rewrite IH.
  - cbn [app]. by rewrite IH.
  - destruct t as [|e t]; cbn [app]; [by rewrite Hl|]. by rewrite Ht.
Qed.

Definition PERCENT : Z := 37.
Definition PLUS : Z := 43.
Definition AMPERSAND : Z := 38.
Definition EQUALS : Z := 61.
Definition QUESTION : Z := 63.

(** ** Percent encoding *)
Definition hex_digit (v : Z) : Z := if v <? 10 then 48 + v else 55 + v.
Definition hex_value (c : Z) : option Z :=
  if is_digit c then Some (c - 48) else if in_range 65 70 c then Some (c - 55) else if in_range 97 102 c then Some (c - 87) else None.

Definition percent_byte (b : Z) : text := [PERCENT; hex_digit (b / 16); hex_digit (b mod 16)].

(** Bytes the form encoding leaves *)
Definition form_plain (b : Z) : bool := alnum b || is_one_of "*-._" b.
Definition form_byte (b : Z) : text := if form_plain b then [b] else if b =? SPACE then [PLUS] else percent_byte b.
Definition form_encode (t : text) : text := concat (form_byte <$> encode t).

(** [encodeURIComponent]; [None] where it throws *)
Definition component_plain (b : Z) : bool := alnum b || is_one_of "-_.!~*'()" b.
Definition encodeURIComponent (t : text) : option text :=
  if well_formed t then Some (concat ((λ b, if component_plain b then [b] else percent_byte b) <$> encode t)) else None.

(** [%] and two hexadecimal digits are a byte, anything else is itself. *)
Fixpoint percent_decode (bs : bytes) : bytes :=
  match bs with
  | [] => []
  | c :: bs' =>
      match bs' with
      | h :: l :: bs'' =>
          match hex_value h, hex_value l with
          | Some x, Some y => if c =? PERCENT then x * 16 + y :: percent_decode bs'' else c :: percent_decode bs'
          | _, _ => c :: percent_decode bs'
          end
      | _ => c :: percent_decode bs'
      end
  end.

(** ** [URLSearchParams] *)
Abbreviation Params := (list (text * text)).

Definition toString (ps : Params) : text :=
  join_with [AMPERSAND] ((λ p, form_encode p.1 ++ [EQUALS] ++ form_encode p.2) <$> ps).

Definition plus_to_space (t : text) : text := (λ c, if c =? PLUS then SPACE else c) <$> t.
Definition form_decode (t : text) : text := text_of_points (utf8_decode Ready (percent_decode (encode (plus_to_space t)))).

Definition parse_pair (piece : text) : text * text :=
  let '(name, value) := split_at EQUALS piece in (form_decode name, form_decode (default [] value)).
Definition URLSearchParams (init : text) : Params :=
  let q := match init with c :: q => if c =? QUESTION then q else init | [] => [] end in
  parse_pair <$> filter (λ p, p ≠ []) (split_on AMPERSAND q).

Definition getAll (ps : Params) (key : text) : list text := (filter (λ p, p.1 = key) ps).*2.
Definition get_param (ps : Params) (key : text) : option text := head (getAll ps key).
Definition has_param (ps : Params) (key : text) : bool := bool_decide (key ∈ ps.*1).
Definition delete_param (ps : Params) (key : text) : Params := filter (λ p, p.1 ≠ key) ps.

(** A stray surrogate is stored as U+FFFD. *)
Definition usv (t : text) : text := text_of_points (points t).

(** [set]: the first pair of the name takes the value and the others go. *)
Definition set_param (ps : Params) (key value : text) : Params :=
  if has_param ps key then
    (fix go (done : bool) (ps : Params) : Params :=
       match ps with
       | [] => []
       | p :: ps' => if decide (p.1 = key) then (if done then go true ps' else (key, usv value) :: go true ps') else p :: go done ps'
       end) false ps
  else ps ++ [(key, usv value)].

(** ** Strict decoding *)

(** [decodeURIComponent(t)] does not throw: every run of escapes is UTF-8. *)
Fixpoint valid_escapes (d : Decoder) (t : text) : bool :=
  match t with
  | [] => match d with Ready => true | _ => false end
  | c :: t' =>
      if c =? PERCENT then
        match t' with
        | h :: l :: t'' =>
            match hex_value h, hex_value l with
            | Some x, Some y => match feed d (x * 16 + y) with Emit _ => valid_escapes Ready t'' | More d' => valid_escapes d' t'' | Bad => false end
            | _, _ => false
            end
        | _ => false
        end
      else match d with Ready => valid_escapes Ready t' | _ => false end
  end.

(** [t.replace(/\+/g, '%20')] *)
Definition plus_escaped (t : text) : text := t ≫= λ c, if c =? PLUS then percent_byte SPACE else [c].

Definition hasValidRouteEncoding (value : text) : bool := valid_escapes Ready (plus_escaped value).

(** ** Reading back what was written *)
Definition is_byte (b : Z) : Prop := 0 ≤ b < 256.

Lemma hex_back v : 0 ≤ v < 16 → hex_value (hex_digit v) = Some v.
Proof.
  intros Hv. unfold hex_digit, hex_value, is_digit. destruct (v <? 10) eqn:E.
  - rewrite in_range_true by lia. f_equal. lia.
  - rewrite (in_range_false 48), (in_range_true 65) by lia. f_equal. lia.
Qed.

Lemma hex_byte b : is_byte b → hex_value (hex_digit (b / 16)) = Some (b / 16) ∧ hex_value (hex_digit (b mod 16)) = Some (b mod 16) ∧ b / 16 * 16 + b mod 16 = b.
Proof. unfold is_byte. intros Hb. split_and!; [apply hex_back|apply hex_back|]; Z.div_mod_to_equations; lia. Qed.

(** The bytes as the hash carries them: a space is [%20]. *)
Definition link_byte (b : Z) : text := if form_plain b then [b] else percent_byte b.
Definition link_encode (t : text) : text := concat (link_byte <$> encode t).

Lemma utf8_point_bytes c : scalar_value c → Forall is_byte (utf8_point c).
Proof.
  unfold scalar_value, utf8_point, is_byte. intros Hc. repeat case_match; repeat (constructor; [Z.div_mod_to_equations; lia|]); constructor.
Qed.

Lemma encode_bytes t : units16 t → Forall is_byte (encode t).
Proof.
  intros Ht. rewrite encode_points. apply points_scalar in Ht. induction Ht as [|c cs Hc _ IH]; [constructor|]. rewrite fmap_cons. cbn [concat].
  apply Forall_app. split; [by apply utf8_point_bytes|done].
Qed.

Lemma form_plain_not b : form_plain b = true → b ≠ PERCENT ∧ b ≠ PLUS ∧ b ≠ AMPERSAND ∧ b ≠ EQUALS ∧ b ≠ QUESTION ∧ b ≠ HASH ∧ 0 ≤ b < 128.
Proof.
  unfold form_plain, alnum, is_upper, is_lower, is_digit, in_range, is_one_of. rewrite !orb_true_iff, bool_decide_eq_true.
  intros [|H]; [unfold PERCENT, PLUS, AMPERSAND, EQUALS, QUESTION, HASH; lia|].
  repeat (apply elem_of_cons in H as [->|H]; [repeat split; (discriminate || lia)|]). by apply not_elem_of_nil in H.
Qed.

Lemma hex_plain v : 0 ≤ v < 16 → form_plain (hex_digit v) = true.
Proof. intros Hv. unfold form_plain, alnum, is_digit, is_upper, hex_digit. destruct (v <? 10) eqn:E; [rewrite (in_range_true 48) by lia|rewrite (in_range_true 65) by lia]; by rewrite ?orb_true_r. Qed.

(** A character of a written query *)
Definition link_char (c : Z) : Prop := form_plain c = true ∨ c = PERCENT.

Lemma link_byte_chars b : is_byte b → Forall link_char (link_byte b).
Proof.
  unfold link_byte, is_byte. intros Hb. destruct (form_plain b) eqn:E; [constructor; [by left|constructor]|].
  unfold percent_byte. repeat (apply Forall_cons; split); [by right|left; apply hex_plain; Z.div_mod_to_equations; lia..|constructor].
Qed.

Lemma Forall_concat_map {A B} (P : B → Prop) (f : A → list B) (Q : A → Prop) l : (∀ x, Q x → Forall P (f x)) → Forall Q l → Forall P (concat (f <$> l)).
Proof. intros Hf. induction 1 as [|x l Hx _ IH]; [constructor|]. rewrite fmap_cons. cbn [concat]. apply Forall_app. auto. Qed.

Lemma link_encode_chars t : units16 t → Forall link_char (link_encode t).
Proof. intros Ht. apply (Forall_concat_map _ _ is_byte); [apply link_byte_chars|by apply encode_bytes]. Qed.

Lemma percent_decode_plain b rest : b ≠ PERCENT → percent_decode (b :: rest) = b :: percent_decode rest.
Proof. intros Hb. cbn [percent_decode]. destruct rest as [|h [|l rest]]; [done|done|]. rewrite (proj2 (Z.eqb_neq b PERCENT) Hb). by destruct (hex_value h), (hex_value l). Qed.

Lemma percent_decode_byte b rest : is_byte b → percent_decode (percent_byte b ++ rest) = b :: percent_decode rest.
Proof. intros Hb. destruct (hex_byte b Hb) as (H1 & H2 & H3). unfold percent_byte. cbn [app percent_decode]. rewrite H1, H2. cbn. by rewrite H3. Qed.

Lemma percent_decode_link bs : Forall is_byte bs → percent_decode (concat (link_byte <$> bs)) = bs.
Proof.
  induction 1 as [|b bs Hb _ IH]; [done|]. rewrite fmap_cons. cbn [concat]. unfold link_byte at 1. destruct (form_plain b) eqn:E.
  - apply form_plain_not in E. cbn [app]. rewrite percent_decode_plain by tauto. by rewrite IH.
  - rewrite percent_decode_byte by done. by rewrite IH.
Qed.

(** Written text is ASCII without a plus. *)
Lemma link_char_ascii c : link_char c → 0 ≤ c < 128 ∧ c ≠ PLUS ∧ c ≠ AMPERSAND ∧ c ≠ EQUALS ∧ c ≠ QUESTION ∧ c ≠ HASH.
Proof. intros [H%form_plain_not| ->]; [tauto|]. unfold PERCENT, PLUS, AMPERSAND, EQUALS, QUESTION, HASH. lia. Qed.

Lemma encode_ascii t : Forall (λ c, 0 ≤ c < 128) t → encode t = t.
Proof.
  induction 1 as [|c t Hc _ IH]; [done|]. cbn [encode]. replace (is_high c) with false by (unfold is_high; lia). replace (is_low c) with false by (unfold is_low; lia).
  unfold utf8_point. replace (c <? 128) with true by lia. cbn. by rewrite IH.
Qed.

Lemma plus_to_space_id t : Forall (λ c, c ≠ PLUS) t → plus_to_space t = t.
Proof. unfold plus_to_space. induction 1 as [|c t Hc _ IH]; [done|]. rewrite fmap_cons, IH. by rewrite (proj2 (Z.eqb_neq _ _) Hc). Qed.

Lemma form_decode_link t : units16 t → form_decode (link_encode t) = usv t.
Proof.
  intros Ht. pose proof (link_encode_chars t Ht) as Hl. unfold form_decode.
  rewrite plus_to_space_id by (eapply Forall_impl; [exact Hl|]; intros c Hc%link_char_ascii; tauto).
  rewrite encode_ascii by (eapply Forall_impl; [exact Hl|]; intros c Hc%link_char_ascii; tauto).
  unfold link_encode. rewrite percent_decode_link by by apply encode_bytes. by rewrite decode_encode.
Qed.

Lemma plus_escaped_app a b : plus_escaped (a ++ b) = plus_escaped a ++ plus_escaped b.
Proof. apply bind_app. Qed.

Lemma plus_escaped_id t : Forall (λ c, c ≠ PLUS) t → plus_escaped t = t.
Proof. unfold plus_escaped. induction 1 as [|c t Hc _ IH]; [done|]. cbn. rewrite (proj2 (Z.eqb_neq _ _) Hc). cbn. by rewrite IH. Qed.

Lemma plus_escaped_form t : units16 t → plus_escaped (form_encode t) = link_encode t.
Proof.
  intros Ht%encode_bytes. unfold form_encode, link_encode. induction Ht as [|b bs Hb _ IH]; [done|]. rewrite !fmap_cons. cbn [concat].
  rewrite plus_escaped_app, IH. f_equal. unfold form_byte, link_byte. destruct (form_plain b) eqn:E.
  - apply plus_escaped_id. constructor; [|constructor]. apply form_plain_not in E. tauto.
  - destruct (b =? SPACE) eqn:Es; [apply Z.eqb_eq in Es as ->; reflexivity|]. apply plus_escaped_id.
    pose proof (link_byte_chars b Hb) as Hl. unfold link_byte in Hl. rewrite E in Hl. eapply Forall_impl; [exact Hl|]. intros c Hc%link_char_ascii. tauto.
Qed.

(** A query as the hash carries it *)
Definition link_pair (p : text * text) : text := link_encode p.1 ++ [EQUALS] ++ link_encode p.2.
Definition link_query (ps : Params) : text := join_with [AMPERSAND] (link_pair <$> ps).

Definition params16 (ps : Params) : Prop := Forall (λ p, units16 p.1 ∧ units16 p.2) ps.

Lemma plus_escaped_toString ps : params16 ps → plus_escaped (toString ps) = link_query ps.
Proof.
  intros Hp. unfold toString, link_query. induction Hp as [|p ps [H1 H2] Hps IH]; [done|]. rewrite !fmap_cons.
  assert (E : plus_escaped (form_encode p.1 ++ [EQUALS] ++ form_encode p.2) = link_pair p) by (by rewrite !plus_escaped_app, !plus_escaped_form).
  destruct ps as [|p' ps]; [exact E|]. rewrite !join_with_cons by done. rewrite plus_escaped_app, E, plus_escaped_app. by rewrite IH.
Qed.

Lemma link_pair_free p : units16 p.1 → units16 p.2 → AMPERSAND ∉ link_pair p ∧ QUESTION ∉ link_pair p ∧ HASH ∉ link_pair p ∧ EQUALS ∉ link_encode p.1.
Proof.
  intros H1%link_encode_chars H2%link_encode_chars. rewrite Forall_forall in H1, H2. unfold link_pair. rewrite !elem_of_app, !list_elem_of_singleton.
  split_and!; [intros [H|[H|H]]..|intros H]; try discriminate; (apply H1 in H || apply H2 in H); apply link_char_ascii in H; tauto.
Qed.

Lemma split_at_first_unit c a b : c ∉ a → split_at c (a ++ c :: b) = (a, Some b).
Proof.
  induction a as [|d a IH]; cbn; intros Hc; [by rewrite Z.eqb_refl|]. apply not_elem_of_cons in Hc as [Hd Ha]. rewrite (proj2 (Z.eqb_neq d c)) by congruence. by rewrite IH.
Qed.

(** Parsing what was written gives the pairs, stray surrogates replaced. *)
Lemma parse_link_query ps : params16 ps → URLSearchParams (link_query ps) = (λ p, (usv p.1, usv p.2)) <$> ps.
Proof.
  intros Hp. assert (Hq : match link_query ps with c :: q => if c =? QUESTION then q else link_query ps | [] => [] end = link_query ps).
  { destruct (link_query ps) as [|c q] eqn:E; [done|]. destruct (c =? QUESTION) eqn:Ec; [|done]. exfalso. apply Z.eqb_eq in Ec as ->.
    assert (H : QUESTION ∈ link_query ps) by (rewrite E; by left). clear E. unfold link_query in H. revert H.
    induction Hp as [|p ps [H1 H2] Hps IH]; [apply not_elem_of_nil|]. rewrite fmap_cons. destruct (link_pair_free p H1 H2) as (_ & Hf & _ & _).
    destruct ps as [|p' ps]; [done|]. rewrite join_with_cons by done. rewrite !elem_of_app, list_elem_of_singleton. intros [H|[H|H]]; [done|discriminate|auto]. }
  unfold URLSearchParams. rewrite Hq. clear Hq. unfold link_query. destruct ps as [|p ps]; [done|].
  rewrite split_join_lines; [|done|].
  - induction Hp as [|p' ps' [H1 H2] Hps IH]; [done|]. rewrite !fmap_cons, filter_cons, decide_True by (unfold link_pair; by destruct (link_encode p'.1)).
    rewrite fmap_cons. f_equal; [|exact IH]. unfold parse_pair, link_pair. destruct (link_pair_free p' H1 H2) as (_ & _ & _ & He).
    change ([EQUALS] ++ link_encode p'.2) with (EQUALS :: link_encode p'.2). rewrite split_at_first_unit by done. cbn [default from_option id]. by rewrite !form_decode_link by done.
  - apply Forall_fmap. eapply Forall_impl; [exact Hp|]. intros q [H1 H2]. by apply link_pair_free.
Qed.

(** ** What was written decodes strictly *)
Lemma valid_plain c t : c ≠ PERCENT → valid_escapes Ready (c :: t) = valid_escapes Ready t.
Proof. intros Hc. cbn [valid_escapes]. by rewrite (proj2 (Z.eqb_neq _ _) Hc). Qed.

Lemma valid_percent d b t : is_byte b →
  valid_escapes d (percent_byte b ++ t) = match feed d b with Emit _ => valid_escapes Ready t | More d' => valid_escapes d' t | Bad => false end.
Proof. intros Hb. destruct (hex_byte b Hb) as (H1 & H2 & H3). unfold percent_byte. cbn [app valid_escapes]. rewrite Z.eqb_refl, H1, H2. cbn zeta. by rewrite H3. Qed.

(** A byte the form encoding leaves is a character by itself. *)
Lemma valid_feeds d bs c t : feeds d bs c → Forall is_byte bs → (d = Ready ∨ Forall (λ b, form_plain b = false) bs) →
  valid_escapes d (concat (link_byte <$> bs) ++ t) = valid_escapes Ready t.
Proof.
  intros Hf. revert t. induction Hf as [d b c E|d b d' bs c E Hf IH]; intros t Hb Hd; inversion Hb; subst; rewrite fmap_cons; cbn [concat]; unfold link_byte at 1.
  - destruct (form_plain b) eqn:Ep; cbn [fmap list_fmap concat]; rewrite ?app_nil_r.
    + destruct Hd as [->|Hd]; [|inversion Hd; subst; congruence]. cbn [app]. apply valid_plain. apply form_plain_not in Ep. tauto.
    + rewrite valid_percent by done. by rewrite E.
  - destruct (form_plain b) eqn:Ep.
    + destruct Hd as [->|Hd]; [|inversion Hd; subst; congruence]. apply form_plain_not in Ep. cbn in E. rewrite in_range_true in E by lia. discriminate.
    + rewrite <-app_assoc, valid_percent by done. rewrite E. apply IH; [done|]. right.
      assert (Hlo : ∀ d bs c, feeds d bs c → match d with Ready => True | Within _ _ lo _ => 128 ≤ lo end → match d with Ready => False | _ => True end → Forall (λ b, form_plain b = false) bs).
      { clear. intros d bs c Hf. induction Hf as [d b c E|d b d' bs c E Hf IH]; intros Hlo Hn; destruct d as [|need cp lo hi]; try done; cbn in E; destruct (in_range lo hi b) eqn:Er; try discriminate;
          (assert (Hb : form_plain b = false) by (apply not_true_iff_false; intros Hp%form_plain_not; unfold in_range in Er; lia)).
        - constructor; [done|constructor].
        - constructor; [done|]. destruct need as [|[|n]]; try discriminate. injection E as <-. apply IH; done. }
      apply (Hlo d' bs c Hf); destruct d as [|need cp lo hi]; cbn in E.
      * repeat case_match; simplify_eq; done || (repeat case_match; lia).
      * destruct (in_range lo hi b); [|discriminate]. destruct need as [|[|n]]; try discriminate. by injection E as <-.
      * repeat case_match; simplify_eq; done.
      * destruct (in_range lo hi b); [|discriminate]. destruct need as [|[|n]]; try discriminate. by injection E as <-.
Qed.

Lemma valid_link_points cs t : Forall scalar_value cs → valid_escapes Ready (concat (link_byte <$> concat (utf8_point <$> cs)) ++ t) = valid_escapes Ready t.
Proof.
  induction 1 as [|c cs Hc _ IH]; [done|]. rewrite fmap_cons. cbn [concat]. rewrite fmap_app, concat_app, <-app_assoc.
  rewrite (valid_feeds Ready (utf8_point c) c); [exact IH|by apply utf8_point_feeds|by apply utf8_point_bytes|by left].
Qed.

Lemma valid_link_encode v t : units16 v → valid_escapes Ready (link_encode v ++ t) = valid_escapes Ready t.
Proof. intros Hv. unfold link_encode. rewrite encode_points. apply valid_link_points. by apply points_scalar. Qed.

Lemma valid_link_pair p t : units16 p.1 → units16 p.2 → valid_escapes Ready (link_pair p ++ t) = valid_escapes Ready t.
Proof.
  intros H1 H2. unfold link_pair. rewrite <-!app_assoc, valid_link_encode by done. cbn [app]. rewrite valid_plain by done. by apply valid_link_encode.
Qed.

(** A character of a written query *)
Definition query_char (c : Z) : Prop := link_char c ∨ c = AMPERSAND ∨ c = EQUALS.

Lemma link_query_chars ps : params16 ps → Forall query_char (link_query ps).
Proof.
  intros Hp. unfold link_query. induction Hp as [|p ps [H1 H2] Hps IH]; [constructor|]. rewrite fmap_cons.
  assert (Hl : Forall query_char (link_pair p)).
  { unfold link_pair. rewrite !Forall_app, Forall_singleton. split_and!; [|by right; right|]; (eapply Forall_impl; [by apply link_encode_chars|]; intros c Hc; by left). }
  destruct ps as [|p' ps]; [exact Hl|]. rewrite join_with_cons by done. rewrite !Forall_app, Forall_singleton. split_and!; [done|by right; left|exact IH].
Qed.

Lemma query_char_not c : query_char c → 33 ≤ c < 127 ∧ c ≠ PLUS ∧ c ≠ QUESTION ∧ c ≠ HASH ∧ c ≠ SLASH.
Proof.
  intros [H|[->| ->]]; [|unfold AMPERSAND, PLUS, QUESTION, HASH, SLASH; lia|unfold EQUALS, PLUS, QUESTION, HASH, SLASH; lia].
  destruct H as [H| ->]; [|unfold PERCENT, PLUS, QUESTION, HASH, SLASH; lia]. revert H.
  unfold form_plain, alnum, is_upper, is_lower, is_digit, in_range, is_one_of. rewrite !orb_true_iff, bool_decide_eq_true.
  intros [|H]; [unfold PLUS, QUESTION, HASH, SLASH; lia|]. unfold PLUS, QUESTION, HASH, SLASH.
  repeat (apply elem_of_cons in H as [->|H]; [vm_compute; repeat split; discriminate|]). by apply not_elem_of_nil in H.
Qed.

Lemma link_query_valid ps : params16 ps → hasValidRouteEncoding (link_query ps) = true.
Proof.
  intros Hp. unfold hasValidRouteEncoding. rewrite plus_escaped_id by (eapply Forall_impl; [by apply link_query_chars|]; intros c Hc%query_char_not; tauto).
  unfold link_query. induction Hp as [|p ps [H1 H2] Hps IH]; [done|]. rewrite fmap_cons. destruct ps as [|p' ps].
  - cbn. rewrite <-(app_nil_r (link_pair p)). by rewrite valid_link_pair.
  - rewrite join_with_cons by done. rewrite valid_link_pair by done. cbn [app]. by rewrite valid_plain by done.
Qed.

Lemma usv_id t : units16 t → well_formed t = true → usv t = t.
Proof. apply text_of_points_id. Qed.

(** An ASCII literal *)
Lemma units_ascii s : Forall (λ c, 0 ≤ c < 256) (units s).
Proof. induction s as [|c s IH]; [constructor|]. constructor; [|done]. pose proof (Ascii.nat_ascii_bounded c). lia. Qed.
Lemma units_units16 s : units16 (units s).
Proof. eapply Forall_impl; [apply units_ascii|]. cbn. lia. Qed.
Lemma units_well_formed s : well_formed (units s) = true.
Proof.
  pose proof (units_ascii s) as H. induction H as [|c t Hc _ IH]; [done|]. cbn [well_formed]. replace (is_high c) with false by (unfold is_high; lia).
  replace (is_low c) with false by (unfold is_low; lia). done.
Qed.
Lemma units_inj s s' : units s = units s' → s = s'.
Proof.
  revert s'. induction s as [|c s IH]; intros [|c' s']; cbn; try done. intros [= E1 E2]. f_equal; [|auto].
  apply Nat2Z.inj in E1. rewrite <-(Ascii.ascii_nat_embedding c), <-(Ascii.ascii_nat_embedding c'). by f_equal.
Qed.
