(* ===== verification/NavRegistry.v ===== *)
(** * The navigation registry: soc/registry.tsx and soc/nav.ts

    The pages of the console, the feature table, and what the rail derives from it: which rows there are, who
    sees them, and which page a pressed row opens. The lazy components and their route props are rendering. *)

From S2P Require Import Prelude JsText.
Local Open Scope string_scope.
Local Open Scope list_scope.

(** ** Pages and groups *)
Inductive PageId :=
  | P_overview
  | P_dashboard
  | P_dashboards
  | P_cases
  | P_case_manager
  | P_investigate
  | P_chat
  | P_reports
  | P_intelligence
  | P_analytics
  | P_metrics
  | P_effectiveness
  | P_models
  | P_scans
  | P_standup
  | P_catalog
  | P_runbooks
  | P_playbooks
  | P_personas
  | P_approvals
  | P_knowledge
  | P_memory
  | P_sources
  | P_cost
  | P_inbox
  | P_account
  | P_sessions
  | P_settings
  | P_security
  | P_roles
  | P_users
  | P_audit
  | P_admin_sessions
  | P_logs
  | P_campaigns
  | P_tuning
  | P_batchjobs
  | P_baseline
  | P_docs.

Definition page_name (p : PageId) : string :=
  match p with
  | P_overview => "overview"
  | P_dashboard => "dashboard"
  | P_dashboards => "dashboards"
  | P_cases => "cases"
  | P_case_manager => "case_manager"
  | P_investigate => "investigate"
  | P_chat => "chat"
  | P_reports => "reports"
  | P_intelligence => "intelligence"
  | P_analytics => "analytics"
  | P_metrics => "metrics"
  | P_effectiveness => "effectiveness"
  | P_models => "models"
  | P_scans => "scans"
  | P_standup => "standup"
  | P_catalog => "catalog"
  | P_runbooks => "runbooks"
  | P_playbooks => "playbooks"
  | P_personas => "personas"
  | P_approvals => "approvals"
  | P_knowledge => "knowledge"
  | P_memory => "memory"
  | P_sources => "sources"
  | P_cost => "cost"
  | P_inbox => "inbox"
  | P_account => "account"
  | P_sessions => "sessions"
  | P_settings => "settings"
  | P_security => "security"
  | P_roles => "roles"
  | P_users => "users"
  | P_audit => "audit"
  | P_admin_sessions => "admin_sessions"
  | P_logs => "logs"
  | P_campaigns => "campaigns"
  | P_tuning => "tuning"
  | P_batchjobs => "batchjobs"
  | P_baseline => "baseline"
  | P_docs => "docs"
  end.

#[export] Instance PageId_eq_dec : EqDecision PageId.
Proof. solve_decision. Defined.

Inductive NavGroupId := G_overview | G_triage | G_intelligence | G_analytics | G_notifications | G_platform.
#[export] Instance NavGroupId_eq_dec : EqDecision NavGroupId.
Proof. solve_decision. Defined.

Record NavPerm := mkNavPerm { np_resource : string; np_action : string }.

(** The grants of the viewer *)
Abbreviation Grants := (string → string → bool).

Record FeatureCtx := mkFeatureCtx { hasPermission : Grants; prefsEnabled : option (string → bool); demoActive : option bool }.

Inductive NavPlacement := Main | Footer.
#[export] Instance NavPlacement_eq_dec : EqDecision NavPlacement.
Proof. solve_decision. Defined.

Record FeatureChild := mkFeatureChild {
  fc_id : PageId; fc_label : string; fc_icon : option string; fc_perm : option NavPerm;
  fc_enabled : option (FeatureCtx → bool); fc_target : option PageId }.

(** Absent children are the empty list; [hidden] is false when absent. *)
Record FeatureNode := mkFeatureNode {
  f_id : PageId; f_label : string; f_icon : option string; f_group : NavGroupId; f_perm : option NavPerm;
  f_target : option PageId; f_children : list FeatureChild; f_hidden : bool; f_navPlacement : option NavPlacement;
  f_enabled : option (FeatureCtx → bool) }.

Definition featureEnabled (perm : option NavPerm) (enabled : option (FeatureCtx → bool)) (ctx : FeatureCtx) : bool :=
  match enabled with
  | Some e => e ctx
  | None => match perm with None => true | Some p => hasPermission ctx (np_resource p) (np_action p) end
  end.

Definition navVisible (perm : option NavPerm) (enabled : option (FeatureCtx → bool)) (has : Grants) : bool :=
  featureEnabled perm enabled (mkFeatureCtx has None None).

(** ** The table *)
Definition METRICS_VIEW := mkNavPerm "metrics" "view".
Definition CASES_READ := mkNavPerm "cases" "read".
Definition SOURCES_READ := mkNavPerm "sources" "read".
Definition COST_VIEW := mkNavPerm "cost" "view".
Definition RAG_READ := mkNavPerm "rag" "read".
Definition RUNBOOKS_READ := mkNavPerm "runbooks" "read".
Definition MEMORY_READ := mkNavPerm "memory" "read".

Definition FEATURES : list FeatureNode := [
  mkFeatureNode P_overview "Overview" (Some "LayoutDashboard") G_overview None (Some P_dashboards) [
    mkFeatureChild P_dashboard "Cyber Defence Center" (Some "Gauge") None None (Some P_overview);
    mkFeatureChild P_dashboards "Dashboards" (Some "LayoutGrid") (Some METRICS_VIEW) None None;
    mkFeatureChild P_standup "Standup" (Some "CalendarDays") None None None
  ] false None None;
  mkFeatureNode P_cases "Cases" (Some "ShieldAlert") G_triage None None [] false None None;
  mkFeatureNode P_case_manager "Case Manager" (Some "Columns3") G_triage (Some CASES_READ) None [] false None None;
  mkFeatureNode P_campaigns "Campaigns" (Some "Network") G_triage (Some CASES_READ) None [] false None None;
  mkFeatureNode P_logs "Logs" (Some "List") G_triage (Some SOURCES_READ) None [] false None None;
  mkFeatureNode P_chat "Workspace" (Some "MessageSquare") G_triage None None [
    mkFeatureChild P_chat "Chat" (Some "MessageSquare") None None None;
    mkFeatureChild P_investigate "Entity investigation" (Some "SearchIcon") None None None;
    mkFeatureChild P_reports "Reports" (Some "FileText") (Some CASES_READ) None None
  ] false None None;
  mkFeatureNode P_scans "Automated scans (legacy)" (Some "ScanLine") G_triage None None [] true None None;
  mkFeatureNode P_approvals "Approvals" (Some "CheckCircle2") G_triage (Some (mkNavPerm "proposals" "read")) None [] false None None;
  mkFeatureNode P_intelligence "Intelligence" (Some "Library") G_intelligence None None [
    mkFeatureChild P_knowledge "Knowledge corpus" (Some "BookOpen") (Some RAG_READ) None None;
    mkFeatureChild P_runbooks "Runbooks" (Some "BookMarked") (Some RUNBOOKS_READ) None None;
    mkFeatureChild P_memory "Operator memory" (Some "Brain") (Some MEMORY_READ) None None;
    mkFeatureChild P_personas "Agent personas" (Some "UsersIcon") None None None
  ] false None None;
  mkFeatureNode P_analytics "Analytics" (Some "BarChart3") G_analytics None (Some P_metrics) [
    mkFeatureChild P_metrics "Metrics" (Some "BarChart3") (Some METRICS_VIEW) None None;
    mkFeatureChild P_effectiveness "Agent effectiveness" (Some "TrendingUp") (Some METRICS_VIEW) None None;
    mkFeatureChild P_cost "Cost" (Some "DollarSign") (Some COST_VIEW) None None;
    mkFeatureChild P_models "Models" (Some "Cpu") None None None;
    mkFeatureChild P_baseline "Baseline" (Some "Activity") (Some (mkNavPerm "settings" "read")) None None;
    mkFeatureChild P_batchjobs "Jobs" (Some "Layers") None None None
  ] false None None;
  mkFeatureNode P_inbox "Notifications" (Some "Bell") G_notifications None None [
    mkFeatureChild P_inbox "Inbox" (Some "Inbox") None None None
  ] false None None;
  mkFeatureNode P_sources "Sources" (Some "Database") G_platform (Some SOURCES_READ) None [] false None None;
  mkFeatureNode P_audit "Audit log" (Some "ScrollText") G_platform (Some (mkNavPerm "audit" "view")) None [] false None None;
  mkFeatureNode P_tuning "Auto-tuning" (Some "SlidersHorizontal") G_platform (Some (mkNavPerm "automation" "read")) None [] false None None;
  mkFeatureNode P_settings "Settings" (Some "Settings") G_platform None None [
    mkFeatureChild P_users "Users" (Some "UsersIcon") (Some (mkNavPerm "users" "manage")) None None;
    mkFeatureChild P_roles "Roles" (Some "KeyRound") (Some (mkNavPerm "roles" "manage")) None None
  ] false None None;
  mkFeatureNode P_docs "Help Center" (Some "BookOpenText") G_platform None None [] false (Some Footer) None;
  mkFeatureNode P_dashboard "Cyber Defence Center" (Some "Gauge") G_overview None None [] true None None;
  mkFeatureNode P_investigate "Entity investigation" (Some "SearchIcon") G_triage None None [] true None None;
  mkFeatureNode P_cost "Cost" (Some "DollarSign") G_analytics (Some COST_VIEW) None [] true None None;
  mkFeatureNode P_models "Models" (Some "Cpu") G_analytics None None [] true None None;
  mkFeatureNode P_standup "Standup" (Some "CalendarDays") G_overview None None [] true None None;
  mkFeatureNode P_knowledge "Knowledge corpus" (Some "BookOpen") G_intelligence (Some RAG_READ) None [] true None None;
  mkFeatureNode P_runbooks "Runbooks" (Some "BookMarked") G_intelligence (Some RUNBOOKS_READ) None [] true None None;
  mkFeatureNode P_memory "Operator memory" (Some "Brain") G_intelligence (Some MEMORY_READ) None [] true None None;
  mkFeatureNode P_catalog "Runbooks" (Some "BookMarked") G_intelligence (Some RUNBOOKS_READ) None [] true None None;
  mkFeatureNode P_playbooks "Runbooks" (Some "BookMarked") G_intelligence (Some RUNBOOKS_READ) None [] true None None;
  mkFeatureNode P_personas "Agent personas" (Some "UsersIcon") G_intelligence None None [] true None None;
  mkFeatureNode P_account "Account" (Some "Settings") G_platform None None [] true None None;
  mkFeatureNode P_sessions "Sessions" (Some "MonitorSmartphone") G_platform None None [] true None None;
  mkFeatureNode P_security "Security" (Some "ShieldCheck") G_platform None None [] true None None;
  mkFeatureNode P_roles "Roles" (Some "KeyRound") G_platform None None [] true None None;
  mkFeatureNode P_users "Users" (Some "UsersIcon") G_platform None None [] true None None;
  mkFeatureNode P_admin_sessions "Admin sessions" (Some "MonitorSmartphone") G_platform None None [] true None None
].

Definition FEATURE_GROUPS : list (NavGroupId * string) := [
  (G_overview, "Overview"); (G_triage, "Triage"); (G_intelligence, "Intelligence"); (G_analytics, "Analytics");
  (G_notifications, "Notifications"); (G_platform, "Platform")
].

(** ** What the rail derives *)
Record NavChild := mkNavChild {
  nc_id : PageId; nc_label : string; nc_icon : option string; nc_perm : option NavPerm;
  nc_enabled : option (FeatureCtx → bool); nc_target : option PageId }.
Record NavItem := mkNavItem {
  ni_id : PageId; ni_label : string; ni_icon : string; ni_group : NavGroupId; ni_navPlacement : option NavPlacement;
  ni_perm : option NavPerm; ni_target : option PageId; ni_enabled : option (FeatureCtx → bool); ni_children : list NavChild }.
Record NavGroup := mkNavGroup { ng_id : NavGroupId; ng_label : string; ng_items : list NavItem }.

Definition toNavChild (c : FeatureChild) : NavChild := mkNavChild (fc_id c) (fc_label c) (fc_icon c) (fc_perm c) (fc_enabled c) (fc_target c).

(** [None]: the module throws, a rail feature has no icon. *)
Definition toNavItem (f : FeatureNode) : option NavItem :=
  icon ← f_icon f;
  Some (mkNavItem (f_id f) (f_label f) icon (f_group f) (f_navPlacement f) (f_perm f) (f_target f) (f_enabled f) (toNavChild <$> f_children f)).

Definition in_main (f : FeatureNode) : bool := bool_decide (default Main (f_navPlacement f) = Main).
Definition in_footer (f : FeatureNode) : bool := bool_decide (f_navPlacement f = Some Footer).

Definition rail_group (features : list FeatureNode) (g : NavGroupId * string) : option NavGroup :=
  items ← mapM toNavItem (List.filter (λ f, negb (f_hidden f) && bool_decide (f_group f = g.1) && in_main f) features);
  Some (mkNavGroup g.1 g.2 items).

Definition nav_groups (features : list FeatureNode) : option (list NavGroup) :=
  groups ← mapM (rail_group features) FEATURE_GROUPS;
  Some (List.filter (λ g, negb (bool_decide (length (ng_items g) = 0))) groups).
Definition nav_footer (features : list FeatureNode) : option (list NavItem) :=
  mapM toNavItem (List.filter (λ f, negb (f_hidden f) && in_footer f) features).

(** The modules that load *)
Definition NAV_GROUPS : list NavGroup := default [] (nav_groups FEATURES).
Definition NAV_FOOTER_ITEMS : list NavItem := default [] (nav_footer FEATURES).
Definition NAV_ITEMS : list NavItem := (NAV_GROUPS ≫= ng_items) ++ NAV_FOOTER_ITEMS.
Definition NAV_CHILDREN : list NavChild := NAV_ITEMS ≫= ni_children.

(** [Array.from(new Set(l))] *)
Definition first_of_each {A} `{EqDecision A} (l : list A) : list A :=
  foldl (λ acc x, if decide (x ∈ acc) then acc else acc ++ [x]) [] l.

Definition PAGE_IDS : list PageId := first_of_each ((ni_id <$> NAV_ITEMS) ++ (nc_id <$> NAV_CHILDREN) ++ (f_id <$> FEATURES)).

(** A string as a page id, where [isPageId] holds. *)
Definition page_of (t : text) : option PageId := List.find (λ p, bool_decide (units (page_name p) = t)) PAGE_IDS.
Definition isPageId (t : text) : bool := bool_decide (is_Some (page_of t)).

Definition navItem (id : PageId) : option NavItem := List.find (λ i, bool_decide (ni_id i = id)) NAV_ITEMS.
Definition navDest (id : PageId) (target : option PageId) : PageId := default id target.
Definition child_dest (c : NavChild) : PageId := navDest (nc_id c) (nc_target c).

(** What a target is gated by: the child that opens it, else its own entry. *)
Definition target_gate (children : list NavChild) (target : PageId) : option (option NavPerm * option (FeatureCtx → bool)) :=
  match List.find (λ c, bool_decide (child_dest c = target)) children with
  | Some c => Some (nc_perm c, nc_enabled c)
  | None => (λ f, (f_perm f, f_enabled f)) <$> List.find (λ f, bool_decide (f_id f = target)) FEATURES
  end.

Definition navTarget (item : NavItem) (has : Grants) : PageId :=
  match ni_target item with
  | None => ni_id item
  | Some target =>
      if bool_decide (target = ni_id item) then ni_id item
      else
        let reachable := match target_gate (ni_children item) target with Some (perm, enabled) => navVisible perm enabled has | None => false end in
        if reachable then target
        else match List.find (λ c, navVisible (nc_perm c) (nc_enabled c) has) (ni_children item) with
             | Some c => child_dest c
             | None => ni_id item
             end
  end.

Definition opens_under (id : PageId) (i : NavItem) : bool :=
  bool_decide (ni_id i = id) || bool_decide (ni_target i = Some id)
  || existsb (λ c, bool_decide (nc_id c = id) || bool_decide (child_dest c = id)) (ni_children i).
Definition navParentOf (id : PageId) : option NavItem := List.find (opens_under id) NAV_ITEMS.

Fixpoint child_label (page : PageId) (items : list NavItem) : option string :=
  match items with
  | [] => None
  | i :: items' =>
      match List.find (λ c, bool_decide (child_dest c = page)) (ni_children i) with
      | Some c => Some (nc_label c)
      | None => child_label page items'
      end
  end.
Definition navCurrentLabel (page : PageId) : option string :=
  match child_label page NAV_ITEMS with
  | Some label => Some label
  | None => ni_label <$> List.find (λ i, bool_decide (ni_id i = page)) NAV_ITEMS
  end.

(** [id.charAt(0).toUpperCase() + id.slice(1).replace(/_/g, ' ')] of a page id *)
Definition upper_first (c : Ascii.ascii) : Ascii.ascii :=
  let n := Ascii.nat_of_ascii c in if ((97 <=? n) && (n <=? 122))%nat then Ascii.ascii_of_nat (n - 32) else c.
Fixpoint spaces_for_underscores (s : string) : string :=
  match s with
  | EmptyString => EmptyString
  | String c s' => String (if (Ascii.nat_of_ascii c =? 95)%nat then Ascii.ascii_of_nat 32 else c) (spaces_for_underscores s')
  end.
Definition humanised (s : string) : string :=
  match s with EmptyString => EmptyString | String c s' => String (upper_first c) (spaces_for_underscores s') end.

Definition navLabel (id : PageId) : string :=
  match navItem id with
  | Some top => ni_label top
  | None =>
      match List.find (λ c, bool_decide (nc_id c = id)) NAV_CHILDREN with
      | Some child => nc_label child
      | None =>
          match List.find (λ f, bool_decide (f_id f = id)) FEATURES with
          | Some feat => f_label feat
          | None => humanised (page_name id)
          end
      end
  end.
