(* ===== verification/RouteValues.v ===== *)
(** * The values a deep link may carry: soc/case-result-route.ts, soc/case-tabs.ts, the validators of soc/router.tsx

    Each check is the source's regular expression, read on UTF-16 code units or, under the [u] flag, on code points. *)

From S2P Require Import Prelude JsText DisplayText UrlParams.
Local Open Scope Z_scope.

(** What the browser decides: Unicode category C (control, format, unassigned, private, surrogate), the host of
    [new URL(`http://[v]/`)] ([None] where it throws), and the text of a member every object inherits. *)
Class RouterHost := {
  category_C : Z → bool;
  ipv6_hostname : text → option text;
  native_text : string → text
}.

(** A host to run the router on *)
Definition sample_host : RouterHost := {|
  category_C c := in_range 0 31 c || in_range 127 159 c || in_range 8203 8207 c || in_range 55296 57343 c;
  ipv6_hostname v := if bool_decide (v = units "::1") then Some (units "[::1]") else None;
  native_text m := if bool_decide (m = "__proto__"%string) then units "[object Object]" else units "function () { [native code] }"
|}.

Abbreviation Check := (text → bool).

(** ** soc/case-result-route.ts *)
Definition token_char (c : Z) : bool := alnum c || is_one_of "_.:@ -" c.
Definition isSafeRouteToken (value : text) : bool := all_of token_char 1 128 value.
Definition isSafeCaseId (value : text) : bool := all_of (λ c, token_char c || (c =? SLASH)) 1 128 value.

Definition CASE_RESULT_STATUSES : list string :=
  ["active"; "new"; "open"; "needs_human"; "investigating"; "escalated"; "on_hold"; "resolved"; "closed"]%string.
Definition isSafeCaseResultStatus (value : text) : bool := bool_decide (value ∈ units <$> CASE_RESULT_STATUSES).

(** The class of [UNSAFE_CASE_RESULT_TEXT] *)
Definition unsafe_unit (c : Z) : bool :=
  in_range 0 31 c || in_range 127 159 c || (c =? 1564) || in_range 8206 8207 c || in_range 8232 8233 c
  || in_range 8234 8238 c || in_range 8294 8303 c || is_one_of "/?#&=%\" c.
Definition UNSAFE_CASE_RESULT_TEXT (value : text) : bool := existsb unsafe_unit value.

Definition isBoundedCaseResultText (value : text) (maxCodePoints : nat) : bool :=
  negb (bool_decide (value = [])) && bool_decide (value = text_trim value)
  && (length (code_points value) <=? maxCodePoints)%nat && negb (UNSAFE_CASE_RESULT_TEXT value).
Definition isSafeCaseResultAssignee (value : text) : bool := isBoundedCaseResultText value 80.
Definition isSafeCaseResultTag (value : text) : bool := isBoundedCaseResultText value 40.

(** ** soc/case-tabs.ts *)
Definition CASE_TABS : list string := ["overview"; "runbook"; "timeline"; "investigation"; "threat"; "collab"; "chat"]%string.
Definition isCaseTab (value : text) : bool := bool_decide (value ∈ units <$> CASE_TABS).

(** ** The validators of soc/router.tsx *)

(** [/^(a|b|...)$/] *)
Definition one_of (words : list string) : Check := λ value, bool_decide (value ∈ units <$> words).

(** [text(max)]: 1 to [max] code points outside category C, no line or paragraph separator. *)
Definition text_check `{RouterHost} (max : nat) : Check := λ value,
  let ps := code_points value in
  forallb (λ c, negb (category_C c) && negb (in_range 8232 8233 c)) ps && (1 <=? length ps)%nat && (length ps <=? max)%nat.

Definition word_char (c : Z) : bool := alnum c || (c =? 95).
Definition navId : Check := all_of (λ c, word_char c || is_one_of ".:-" c) 1 128.

(** [now], [now-<n><unit>], or a date and 24 more characters of a time *)
Definition now_offset (t : text) : bool :=
  match t with
  | [] => true
  | c :: t' => (c =? 45) && match reverse t' with u :: ds => is_one_of "mhdw" u && all_of is_digit 1 5 ds | [] => false end
  end.
Definition date_digits (t : text) : bool :=
  all_of is_digit 4 4 (take 4 t) && bool_decide (take 1 (drop 4 t) = units "-") && all_of is_digit 2 2 (take 2 (drop 5 t))
  && bool_decide (take 1 (drop 7 t) = units "-") && all_of is_digit 2 2 (take 2 (drop 8 t)).
Definition navTime : Check := λ value,
  (starts_with (units "now") value && now_offset (drop 3 value))
  || (date_digits value && all_of (λ c, is_digit c || is_one_of "Tt:.Zz+-" c) 0 24 (drop 10 value)).

Definition severity : Check := one_of ["info"; "low"; "medium"; "high"; "critical"]%string.
Definition ruleValue `{RouterHost} : Check := text_check 256.

(** [25[0-5]|2[0-4]\d|1\d\d|[1-9]?\d] *)
Definition octet (t : text) : bool :=
  match t with
  | [a] => is_digit a
  | [a; b] => in_range 49 57 a && is_digit b
  | [a; b; c] =>
      (a =? 50) && (b =? 53) && in_range 48 53 c || (a =? 50) && in_range 48 52 b && is_digit c || (a =? 49) && is_digit b && is_digit c
  | _ => false
  end.
(** Four octets between dots: the expression takes a dot or the end after each, and a last dot is refused. *)
Definition dotted_quad (t : text) : bool := let parts := split_on DOT t in (length parts =? 4)%nat && forallb octet parts.
Definition hex_char (c : Z) : bool := is_digit c || in_range 65 70 c || in_range 97 102 c.
Definition ipAddress `{RouterHost} : Check := λ value,
  all_of (λ c, hex_char c || is_one_of ":." c) 2 45 value
  && if bool_decide (COLON ∈ value) then match ipv6_hostname value with Some h => (2 <? length h)%nat | None => false end
     else dotted_quad value.

Definition runbook_id : Check := λ value,
  match value with
  | c :: t => (is_lower c || is_digit c) && all_of (λ c, is_lower c || is_digit c || is_one_of "_-" c) 0 63 t
  | [] => false
  end.

Definition event_word : Check := all_of (λ c, is_lower c || (c =? 95)) 1 32.
Definition event_check : Check := λ value,
  match split_at DOT value with (a, None) => event_word a | (a, Some b) => event_word a && event_word b end.

(** [es:<index>:<id>], [sql:<row>] or [mem:<n>] *)
Definition record_place (value : text) : bool :=
  if starts_with (units "es:") value then
    match split_at COLON (drop 3 value) with
    | (index, Some id) => all_of (λ c, is_lower c || is_digit c || is_one_of "._+-" c) 1 255 index && all_of (λ c, word_char c || (c =? 45)) 2 683 id
    | _ => false
    end
  else if starts_with (units "sql:") value then
    match (match drop 4 value with c :: t => if c =? 45 then t else c :: t | [] => [] end) with
    | c :: t => in_range 49 57 c && all_of is_digit 0 18 t
    | [] => false
    end
  else starts_with (units "mem:") value && all_of is_digit 1 12 (drop 4 value).
Definition auditRecord : Check := λ value, record_place (if starts_with (units "demo:") value then drop 5 value else value).

(** The Cases page's status facets *)
Definition isCasesStatus : Check := λ value,
  bool_decide (value = units "__active__") || bool_decide (value = units "__terminal__") || isSafeCaseResultStatus value.

Definition METRICS_TAB : Check := one_of ["performance"; "posture"]%string.
