(* ===== verification/Router.v ===== *)
(** * Hash routes: the pure part of soc/router.tsx

    A hash is a text of code units. The options of a navigation are a map from keys to values; a value that is
    no string is its identity, as [===] compares it. *)

From S2P Require Import Prelude JsText DisplayText UrlParams NavRegistry RouteValues.
Local Open Scope Z_scope.

Inductive NavValue := Text (t : text) | Value (id : Z).
#[export] Instance NavValue_eq_dec : EqDecision NavValue.
Proof. solve_decision. Defined.

(** [NavOpts]: the keys that are defined *)
Abbreviation NavOpts := (gmap string NavValue).

(** A key the type gives a string, [undefined] or empty as the empty text *)
Definition text_at (opts : NavOpts) (key : string) : text := match opts !! key with Some (Text t) => t | _ => [] end.

(** ** Settings *)
Definition SETTINGS_REDIRECTS : list (string * string) :=
  [("account", "profile"); ("security", "account_security"); ("sessions", "sessions"); ("users", "admin_users");
   ("roles", "roles"); ("admin_sessions", "admin_sessions")]%string.

(** The members every object literal inherits *)
Definition OBJECT_MEMBERS : list string :=
  ["constructor"; "__defineGetter__"; "__defineSetter__"; "hasOwnProperty"; "__lookupGetter__"; "__lookupSetter__";
   "isPrototypeOf"; "propertyIsEnumerable"; "toString"; "valueOf"; "__proto__"; "toLocaleString"]%string.

Definition own_section (id : text) : option string := snd <$> List.find (λ e, bool_decide (units e.1 = id)) SETTINGS_REDIRECTS.
Definition isSettingsRedirect (id : text) : bool := bool_decide (is_Some (own_section id)).

Section routes.
Context `{RouterHost}.

(** [SETTINGS_REDIRECTS[id]], written into a string *)
Definition section_of (id : text) : option text :=
  match own_section id with
  | Some section => Some (units section)
  | None => native_text <$> List.find (λ m, bool_decide (units m = id)) OBJECT_MEMBERS
  end.
Definition settingsRedirectHash (id : text) : option text := (λ section, units "#/settings?s=" ++ section) <$> section_of id.

(** [None]: [encodeURIComponent] throws on a stray surrogate. *)
Definition settingsSectionHash (section anchor : text) : option text :=
  s ← encodeURIComponent section;
  a ← (if bool_decide (anchor = []) then Some [] else (λ a, units "&a=" ++ a) <$> encodeURIComponent anchor);
  Some (units "#/settings?s=" ++ s ++ a).

(** ** The keys a page owns *)
Abbreviation Keys := (list (string * Check)).

Definition DEEP_LINK_KEYS (page : PageId) : Keys :=
  match page with
  | P_chat => [("conversationId", navId); ("messageId", navId)]
  | P_reports => [("reportId", navId)]
  | P_logs =>
      [("logQuery", text_check 512); ("from", navTime); ("to", navTime); ("sourceId", navId); ("rule", ruleValue);
       ("severity", severity); ("severity_gte", severity)]
  | P_dashboards => [("board", navId)]
  | P_runbooks => [("id", runbook_id)]
  | P_audit =>
      [("scope", one_of ["people"; "agent"; "all"]); ("from", navTime); ("to", navTime); ("q", text_check 200); ("event", event_check);
       ("actor", text_check 128); ("actor_contains", text_check 128);
       ("outcome", one_of ["success"; "failure"; "denied"; "partial"; "unknown"]); ("case", navId); ("target", navId);
       ("ip", ipAddress); ("record", auditRecord)]
  | _ => []
  end%string.

Definition METRICS_TAB_PAGES : list (string * PageId) := [("effectiveness", P_effectiveness); ("cost", P_cost)]%string.
Definition metrics_tab_page (tab : text) : option PageId := snd <$> List.find (λ e, bool_decide (units e.1 = tab)) METRICS_TAB_PAGES.

Definition is_case_page (page : PageId) : bool := bool_decide (page = P_cases) || bool_decide (page = P_case_manager).
Definition trimsHashValue (page : PageId) (key : string) : bool := is_case_page page && negb (bool_decide (key = "rule"%string)).

Definition closedBy : Check := one_of ["agent"; "analyst"; "analyst_policy"; "system"]%string.

Definition hashKeys (page : PageId) : Keys :=
  match page with
  | P_cases =>
      [("caseId", isSafeCaseId); ("status", isCasesStatus); ("assignee", isSafeCaseResultAssignee); ("tag", isSafeCaseResultTag); ("rule", ruleValue)]
  | P_case_manager => [("caseId", isSafeCaseId); ("closedBy", closedBy); ("tab", isCaseTab)]
  | P_metrics => [("tab", λ value, METRICS_TAB value || bool_decide (is_Some (metrics_tab_page value)))]
  | _ => DEEP_LINK_KEYS page
  end%string.

(** ** Writing a hash *)

(** What [pageHash] validates before it writes *)
Definition validated_keys (page : PageId) : Keys :=
  match page with
  | P_cases => [("rule", ruleValue)]
  | P_case_manager => [("closedBy", closedBy); ("tab", isCaseTab)]
  | _ => DEEP_LINK_KEYS page
  end%string.

Definition set_if_present (opts : NavOpts) (key : string) : list (string * text) :=
  if bool_decide (text_at opts key = []) then [] else [(key, text_at opts key)].
Definition set_if_valid (opts : NavOpts) (entry : string * Check) : list (string * text) :=
  match opts !! entry.1 with
  | Some (Text value) =>
      if entry.2 value && (negb (bool_decide (entry.1 = "messageId"%string)) || navId (text_at opts "conversationId")) then [(entry.1, value)] else []
  | _ => []
  end.

(** The [params.set] calls, in order *)
Definition hash_writes (page : PageId) (opts : NavOpts) : list (string * text) :=
  (if is_case_page page then set_if_present opts "caseId" else [])
  ++ (if bool_decide (page = P_cases) then set_if_present opts "status" ++ set_if_present opts "assignee" ++ set_if_present opts "tag" else [])
  ++ (if bool_decide (page = P_metrics) && METRICS_TAB (text_at opts "tab") then [("tab"%string, text_at opts "tab")] else [])
  ++ (validated_keys page ≫= set_if_valid opts).

Definition write_all (writes : list (string * text)) : Params := foldl (λ ps w, set_param ps (units w.1) w.2) [] writes.

(** [#/page], or [#/page?query] *)
Definition hash_of (page : PageId) (params : Params) : text :=
  let query := plus_escaped (toString params) in
  units "#/" ++ units (page_name page) ++ (if bool_decide (query = []) then [] else QUESTION :: query).

(** The retired Metrics tab a hash would carry *)
Definition retired_tab (page : PageId) (opts : NavOpts) : option PageId :=
  if bool_decide (page = P_metrics) then metrics_tab_page (text_at opts "tab") else None.

Definition pageHash (page : PageId) (opts : option NavOpts) : text :=
  let values := default ∅ opts in
  match retired_tab page values with
  | Some page' => hash_of page' (write_all (hash_writes page' ∅))
  | None => hash_of page (write_all (hash_writes page values))
  end.

(** ** Redirects *)
Definition closed_by_agent : NavOpts := {["closedBy"%string := Text (units "agent")]}.
Definition PAGE_REDIRECTS (page : PageId) : option (PageId * option NavOpts) :=
  match page with
  | P_analytics => Some (P_metrics, None)
  | P_dashboard => Some (P_overview, None)
  | P_playbooks => Some (P_runbooks, None)
  | P_catalog => Some (P_runbooks, None)
  | P_scans => Some (P_case_manager, Some closed_by_agent)
  | _ => None
  end.

Definition LANDING_BOARD_ID : string := "builtin:cyber-defence-center".

Record Route := mkRoute { r_page : PageId; r_opts : option NavOpts; r_redirected : bool }.

Definition redirectRoute (page : PageId) (opts : option NavOpts) : Route :=
  match PAGE_REDIRECTS page with
  | Some (page', opts') => mkRoute page' opts' true
  | None =>
      let values := default ∅ opts in
      if bool_decide (page = P_dashboards) && bool_decide (text_at values "board" = units LANDING_BOARD_ID) then mkRoute P_overview None true
      else match retired_tab page values with
           | Some page' => mkRoute page' None true
           | None => mkRoute page opts false
           end
  end.

(** ** Reading a hash *)

(** [hash.replace(/^#\/?/, '').split(/[?&/]/)[0]] *)
Definition route_stop (c : Z) : bool := (c =? QUESTION) || (c =? AMPERSAND) || (c =? SLASH).
Fixpoint upto (stop : Z → bool) (t : text) : text := match t with c :: t' => if stop c then [] else c :: upto stop t' | [] => [] end.
Definition rawPageOf (hash : text) : text :=
  upto route_stop (match hash with
                   | c :: t => if c =? HASH then match t with d :: t' => if d =? SLASH then t' else t | [] => [] end else hash
                   | [] => []
                   end).

(** [hash.slice(hash.indexOf('?') + 1)], where there is one *)
Definition query_of (hash : text) : option text := (split_at QUESTION hash).2.

(** The own key a parameter names, with its check *)
Definition own_key (keys : Keys) (name : text) : option (string * Check) := List.find (λ e, bool_decide (units e.1 = name)) keys.

Definition read_value (page : PageId) (key : string) (raw : text) : text := if trimsHashValue page key then text_trim raw else raw.

(** The loop over the parameters; [None] where it returns. *)
Fixpoint read_params (page : PageId) (keys : Keys) (params : Params) (out : NavOpts) : option NavOpts :=
  match params with
  | [] => Some out
  | (name, raw) :: params' =>
      match own_key keys name with
      | Some (key, valid) =>
          let value := read_value page key raw in
          if bool_decide (value = []) || negb (valid value) then None else read_params page keys params' (<[key := Text value]> out)
      | None => None
      end
  end.

Definition parseOpts (page : PageId) (hash : text) : option NavOpts :=
  match query_of hash with
  | None => None
  | Some rawQuery =>
      if negb (hasValidRouteEncoding rawQuery) then None
      else
        let params := URLSearchParams rawQuery in
        let keys := hashKeys page in
        if existsb (λ key, negb (bool_decide (is_Some (own_key keys key))) || (1 <? length (getAll params key))%nat) params.*1 then None
        else match read_params page keys params ∅ with
             | Some out =>
                 if negb (bool_decide (out = ∅)) && (bool_decide (text_at out "messageId" = []) || negb (bool_decide (text_at out "conversationId" = [])))
                 then Some out else None
             | None => None
             end
  end.

(** The route of a location hash *)
Definition routeFromLocation (hash : text) : Route :=
  let raw := rawPageOf hash in
  if isSettingsRedirect raw then mkRoute P_settings None false
  else let page := default P_overview (page_of raw) in redirectRoute page (parseOpts page hash).
Definition pageFromHash (hash : text) : PageId := r_page (routeFromLocation hash).
Definition optsFromHash (hash : text) : option NavOpts := r_opts (routeFromLocation hash).

(** ** Changes that stay on a page *)
Definition VIEW_KEYS (page : PageId) : option (list string) := match page with P_metrics => Some ["tab"%string] | _ => None end.

Definition rest_of (keys : list string) (hash : text) : text :=
  toString (foldl (λ ps key, delete_param ps (units key)) (URLSearchParams (default [] (query_of hash))) keys).
Definition changesOnlyView (page : PageId) (from to : text) : bool :=
  match VIEW_KEYS page with
  | Some keys =>
      bool_decide (rawPageOf from = units (page_name page)) && bool_decide (rawPageOf to = units (page_name page))
      && bool_decide (rest_of keys from = rest_of keys to)
  | None => false
  end.

Definition ONE_SHOT_KEYS : list string := ["newChat"; "ask"; "topic"; "entity"; "resend"]%string.

(** [samePageOpts] returns [current] itself, or other options. *)
Inductive SameOpts := Kept | Fresh (opts : option NavOpts).
Definition same_opts (current : option NavOpts) (r : SameOpts) : option NavOpts := match r with Kept => current | Fresh opts => opts end.

(** One key of the loop *)
Definition same_key (page : PageId) (incoming written : Params) (next : NavOpts) (entry : string * Check) : NavOpts :=
  let '(key, valid) := entry in
  let all := getAll incoming (units key) in
  let raw := match all with [raw] => Some raw | _ => None end in
  if match raw with Some _ => bool_decide (raw = get_param written (units key)) | None => false end then next
  else
    match raw with
    | Some r =>
        let value := read_value page key r in
        if negb (bool_decide (value = [])) && valid value then <[key := Text value]> next else delete key next
    | None => if negb (bool_decide (all = [])) || has_param written (units key) then delete key next else next
    end.

(** [pageHash(page, current).split('?')[1] ?? ''] *)
Definition written_query (hash : text) : text := default [] (split_on QUESTION hash !! 1%nat).

Definition samePageOpts (page : PageId) (current : option NavOpts) (hash : text) (traversal : bool) : SameOpts :=
  let query := default [] (query_of hash) in
  if negb (hasValidRouteEncoding query) then Kept
  else
    let incoming := URLSearchParams query in
    let written := URLSearchParams (written_query (pageHash page current)) in
    let before := default ∅ current in
    let next := foldl (same_key page incoming written) before (hashKeys page) in
    let next := if has_param incoming (units "messageId") && negb (navId (text_at next "conversationId")) then delete "messageId"%string next else next in
    let next := if traversal then foldl (λ o key, delete key o) next ONE_SHOT_KEYS else next in
    let named := traversal && existsb (λ e, has_param incoming (units e.1)) (hashKeys page) in
    if negb named && bool_decide (next = before) then Kept
    else Fresh (if bool_decide (next = ∅) then None else Some next).
End routes.
