(* ===== verification/RouterSpec.v ===== *)
(** * What a hash says and what the router reads in it

    The hash of a page parsed back, key by key; what is read from any hash is written and read again alike;
    refresh, Back and Forward. *)

From S2P Require Import Prelude JsText DisplayText DisplaySpec TextLines Zip UrlParams NavRegistry RouteValues Router.
Local Open Scope Z_scope.

(** ** Page names *)
Lemma page_of_name p : page_of (units (page_name p)) = Some p.
Proof. destruct p; vm_compute; reflexivity. Qed.

Lemma page_of_Some t p : page_of t = Some p → t = units (page_name p).
Proof. unfold page_of. generalize PAGE_IDS. intros l [_ Hf]%List.find_some. by apply bool_decide_eq_true in Hf. Qed.

(** A page name has no character a hash gives a meaning to. *)
Definition name_char (c : Z) : Prop := 97 ≤ c ≤ 122 ∨ c = 95.
Lemma page_name_chars p : Forall name_char (units (page_name p)).
Proof.
  assert (H : forallb (λ c, in_range 97 122 c || (c =? 95)) (units (page_name p)) = true) by (destruct p; vm_compute; reflexivity).
  rewrite forallb_forall in H. rewrite Forall_forall. intros c Hc%list_elem_of_In%H. unfold name_char, in_range in *. lia.
Qed.

Lemma upto_stop stop a c b : Forall (λ c, stop c = false) a → stop c = true → upto stop (a ++ c :: b) = a.
Proof. intros Ha Hc. induction Ha as [|d a Hd _ IH]; cbn; [by rewrite Hc|]. by rewrite Hd, IH. Qed.
Lemma upto_all stop a : Forall (λ c, stop c = false) a → upto stop a = a.
Proof. induction 1 as [|d a Hd _ IH]; cbn; [done|]. by rewrite Hd, IH. Qed.

Lemma name_no_stop p : Forall (λ c, route_stop c = false) (units (page_name p)).
Proof. eapply Forall_impl; [apply page_name_chars|]. unfold name_char, route_stop, QUESTION, AMPERSAND, SLASH. lia. Qed.

Lemma name_no_question p : QUESTION ∉ units (page_name p).
Proof. intros Hq. pose proof (page_name_chars p) as Hn. rewrite Forall_forall in Hn. apply Hn in Hq. unfold name_char, QUESTION in Hq. lia. Qed.

(** ** The hash of a page *)
Lemma split_at_none c t : c ∉ t → split_at c t = (t, None).
Proof. induction t as [|d t IH]; [done|]. rewrite not_elem_of_cons. intros [Hd Ht]. cbn. rewrite (proj2 (Z.eqb_neq d c)) by congruence. by rewrite IH. Qed.

Lemma link_query_nil ps : link_query ps = [] ↔ ps = [].
Proof.
  split; [|by intros ->]. destruct ps as [|p ps]; [done|]. unfold link_query. rewrite fmap_cons.
  assert (H : link_pair p ≠ []) by (unfold link_pair; by destruct (link_encode p.1)).
  destruct (link_pair <$> ps) as [|q qs]; [done|]. rewrite join_with_cons by done. by destruct (link_pair p).
Qed.

(** The query part of a written hash *)
Definition query_part (ps : Params) : text := if bool_decide (ps = []) then [] else QUESTION :: link_query ps.

Lemma hash_of_eq page ps : params16 ps → hash_of page ps = units "#/" ++ units (page_name page) ++ query_part ps.
Proof.
  intros Hp. unfold hash_of, query_part. rewrite plus_escaped_toString by done. do 2 f_equal.
  destruct (decide (ps = [])) as [->|Hne]; [done|]. rewrite !bool_decide_eq_false_2; [done|done|]. by rewrite link_query_nil.
Qed.

Lemma rawPageOf_hash page ps : params16 ps → rawPageOf (hash_of page ps) = units (page_name page).
Proof.
  intros Hp. rewrite hash_of_eq by done. change (rawPageOf (units "#/" ++ ?x)) with (upto route_stop x). unfold query_part. case_bool_decide.
  - rewrite app_nil_r. apply upto_all, name_no_stop.
  - apply upto_stop; [apply name_no_stop|done].
Qed.

Lemma query_of_hash page ps : params16 ps → query_of (hash_of page ps) = if bool_decide (ps = []) then None else Some (link_query ps).
Proof.
  intros Hp. rewrite hash_of_eq by done. unfold query_of, query_part. case_bool_decide.
  - rewrite app_nil_r. rewrite split_at_none; [done|]. rewrite elem_of_app. intros [Hq|Hq]; [|by apply name_no_question in Hq].
    revert Hq. by apply (bool_decide_eq_false_1 _).
  - rewrite app_assoc, split_at_first_unit; [done|]. rewrite elem_of_app. intros [Hq|Hq]; [|by apply name_no_question in Hq].
    revert Hq. by apply (bool_decide_eq_false_1 _).
Qed.

Lemma link_query_no_question ps : params16 ps → QUESTION ∉ link_query ps.
Proof. intros Hp Hq. pose proof (link_query_chars ps Hp) as Hc. rewrite Forall_forall in Hc. apply Hc, query_char_not in Hq. tauto. Qed.

Lemma written_query_hash page ps : params16 ps → written_query (hash_of page ps) = link_query ps.
Proof.
  intros Hp. rewrite hash_of_eq by done. unfold written_query, query_part.
  assert (Hq : QUESTION ∉ units "#/" ++ units (page_name page)).
  { rewrite elem_of_app. intros [Hq|Hq]; [|by apply name_no_question in Hq]. revert Hq. by apply (bool_decide_eq_false_1 _). }
  case_bool_decide as Hn.
  - rewrite app_nil_r, split_one by done. by rewrite Hn.
  - rewrite app_assoc, split_app, split_one, split_one by (done || by apply link_query_no_question). done.
Qed.

(** ** The writes as parameters *)
Definition written_pair (w : string * text) : text * text := (units w.1, usv w.2).

Lemma write_all_eq writes : NoDup writes.*1 → write_all writes = written_pair <$> writes.
Proof.
  unfold write_all. enough (H : ∀ ps, NoDup writes.*1 → (∀ k, k ∈ writes.*1 → units k ∉ ps.*1) → foldl (λ ps w, set_param ps (units w.1) w.2) ps writes = ps ++ (written_pair <$> writes)).
  { intros Hn. rewrite (H []); [done|done|]. intros k _. apply not_elem_of_nil. }
  induction writes as [|w writes IH]; intros ps Hn Hf; [by rewrite app_nil_r|]. cbn [foldl]. rewrite fmap_cons in Hn. apply NoDup_cons in Hn as [Hw Hn].
  unfold set_param at 2. unfold has_param. rewrite bool_decide_eq_false_2 by (apply Hf; by left). rewrite IH; [by rewrite <-app_assoc|done|].
  intros k Hk. rewrite fmap_app, elem_of_app. cbn. rewrite list_elem_of_singleton. intros [Hi|Hi]; [by eapply Hf; [by right|]|]. apply units_inj in Hi as ->. done.
Qed.

(** Code units within 16 bits *)
Definition writes16 (writes : list (string * text)) : Prop := Forall (λ w, units16 w.2) writes.

Lemma usv_units16 t : units16 t → units16 (usv t).
Proof.
  intros Ht%points_scalar. unfold usv, text_of_points, units16. apply (Forall_concat_map _ _ scalar_value); [|done].
  unfold scalar_value, units_of_point. intros c Hc. destruct (c <? 65536) eqn:E; repeat (apply Forall_cons; split); try constructor; Z.div_mod_to_equations; lia.
Qed.

Lemma written_params16 writes : writes16 writes → params16 (written_pair <$> writes).
Proof. intros Hw. apply Forall_fmap. eapply Forall_impl; [exact Hw|]. intros w Hu. split; [apply units_units16|by apply usv_units16]. Qed.

(** ** What a query can hold *)
Definition clean (t : text) : Prop := units16 t ∧ well_formed t = true.

(** Every parameter of a query is whole characters. *)
Lemma form_decode_clean t : clean (form_decode t).
Proof. apply text_of_points_ok, (decode_scalar Ready _ I). Qed.

Lemma params_clean q : Forall (λ p, clean p.2) (URLSearchParams q).
Proof. unfold URLSearchParams. apply Forall_fmap, Forall_true. intros piece. cbn. unfold parse_pair. destruct (split_at EQUALS piece) as [a b]. apply form_decode_clean. Qed.

Lemma units16_b t : forallb (in_range 0 65535) t = true → units16 t.
Proof. rewrite forallb_forall. intros Hf. apply Forall_forall. intros c Hc%list_elem_of_In%Hf. unfold in_range in Hc. lia. Qed.

(** Trimming keeps characters whole. *)
Lemma trim_space_no_half c : trim_space c = true → is_high c = false ∧ is_low c = false.
Proof. unfold trim_space, is_high, is_low. lia. Qed.
Lemma trimStart_clean t : clean t → clean (text_trimStart t).
Proof.
  intros [Ht Hw]. induction t as [|c t IH]; [by split|]. cbn [text_trimStart]. destruct (trim_space c) eqn:E; [|by split].
  inversion Ht; subst. apply trim_space_no_half in E as [Eh El]. rewrite well_formed_cons in Hw by done. by apply IH.
Qed.
Lemma trimEnd_clean t : clean t → clean (text_trimEnd t).
Proof.
  intros [Ht Hw]. induction t as [|c t IH] using rev_ind; [by split|]. rewrite trimEnd_snoc. destruct (trim_space c) eqn:E; [|by split].
  apply Forall_app in Ht as [Ht _]. apply trim_space_no_half in E as [Eh El]. rewrite well_formed_snoc in Hw by done. by apply IH.
Qed.
Lemma trim_clean t : clean t → clean (text_trim t).
Proof. intros Ht. by apply trimEnd_clean, trimStart_clean. Qed.

Section routes.
Context `{RouterHost}.
Implicit Types (page : PageId) (opts : NavOpts).

(** ** The durable part of the options: the valid values of the keys the page owns *)
Definition message_ready opts (key : string) : Prop := key = "messageId"%string → navId (text_at opts "conversationId") = true.
Definition durable_entry page opts (key : string) (v : NavValue) : Prop :=
  ∃ valid t, own_key (hashKeys page) (units key) = Some (key, valid) ∧ v = Text t ∧ valid t = true ∧ message_ready opts key.
#[global] Instance durable_entry_dec page opts key v : Decision (durable_entry page opts key v).
Proof.
  destruct (own_key (hashKeys page) (units key)) as [[key' valid]|] eqn:Ek; [|right; intros (?&?&?&?); congruence].
  destruct v as [t|n]; [|right; intros (?&?&?&?&?); done].
  destruct (decide (key' = key ∧ valid t = true ∧ message_ready opts key)) as [(->&Hv&Hm)|Hn].
  - left. by exists valid, t.
  - right. intros (valid'&t'&E&Et&Hv&Hm). apply Hn. rewrite Ek in E. by simplify_eq.
Defined.

Definition durable page opts : NavOpts := filter (λ kv, durable_entry page opts kv.1 kv.2) opts.
Definition nonempty opts : option NavOpts := if decide (opts = ∅) then None else Some opts.

Lemma hashKeys_nodup page : NoDup (hashKeys page).*1.
Proof. apply (bool_decide_unpack _). by destruct page. Qed.

Lemma own_key_Some page key valid : (key, valid) ∈ hashKeys page ↔ own_key (hashKeys page) (units key) = Some (key, valid).
Proof.
  unfold own_key. pose proof (hashKeys_nodup page) as Hn. split.
  - induction (hashKeys page) as [|[k v] keys IH]; [by intros ?%not_elem_of_nil|]. intros [E|Hin]%elem_of_cons.
    + injection E as -> ->. cbn. by rewrite bool_decide_eq_true_2.
    + cbn in *. apply NoDup_cons in Hn as [Hk Hn]. rewrite bool_decide_eq_false_2; [by apply IH|]. intros ->%units_inj. apply Hk. apply list_elem_of_fmap. by exists (key, valid).
  - intros [Hin _]%List.find_some. by apply list_elem_of_In.
Qed.

Lemma own_key_name page name key valid : own_key (hashKeys page) name = Some (key, valid) → name = units key ∧ (key, valid) ∈ hashKeys page.
Proof. unfold own_key. intros [Hin E%bool_decide_eq_true]%List.find_some. split; [done|by apply list_elem_of_In]. Qed.

(** No check takes the empty text. *)
Lemma checks_nonempty page key valid : (key, valid) ∈ hashKeys page → valid [] = false.
Proof.
  assert (Hf : Forall (λ e : string * Check, e.2 [] = false) (hashKeys page)) by (destruct page; repeat (apply Forall_cons; split; [reflexivity|]); constructor).
  rewrite Forall_forall in Hf. by intros ?%Hf.
Qed.

(** A key [pageHash] writes without a check *)
Definition written_unchecked (key : string) : Prop := key ∈ ["caseId"; "status"; "assignee"; "tag"]%string.

(** The values a hash can carry: no stray surrogate, trimmed where they are read trimmed, and valid where they are written as they are. *)
Definition link_value page (key : string) (valid : Check) (t : text) : Prop :=
  units16 t ∧ well_formed t = true ∧ read_value page key t = t ∧ (written_unchecked key → t ≠ [] → valid t = true).
Definition link_ready page opts : Prop :=
  r_redirected (redirectRoute page (Some opts)) = false ∧
  ∀ key valid t, (key, valid) ∈ hashKeys page → opts !! key = Some (Text t) → link_value page key valid t.

(** A route that stays as it is *)
Definition stays page opts : Prop :=
  PAGE_REDIRECTS page = None ∧ retired_tab page opts = None ∧ (page = P_dashboards → text_at opts "board" ≠ units LANDING_BOARD_ID).

Lemma redirect_stays page o : r_redirected (redirectRoute page o) = false → stays page (default ∅ o) ∧ redirectRoute page o = mkRoute page o false.
Proof.
  unfold redirectRoute, stays. destruct (PAGE_REDIRECTS page) as [[p' o']|]; [done|]. destruct (_ && _) eqn:Eb; [done|].
  destruct (retired_tab page _); [done|]. intros _. split; [|done]. split_and!; [done|done|]. intros -> Hb. by rewrite Hb in Eb.
Qed.
Lemma stays_redirect page o : stays page (default ∅ o) → redirectRoute page o = mkRoute page o false.
Proof.
  unfold redirectRoute, stays. intros (-> & -> & Hb). destruct (_ && _) eqn:Eb; [|done]. apply andb_true_iff in Eb as [E1%bool_decide_eq_true E2%bool_decide_eq_true].
  by apply Hb in E1.
Qed.

Lemma text_at_Some opts key t : text_at opts key = t → t ≠ [] → opts !! key = Some (Text t).
Proof. unfold text_at. repeat case_match; naive_solver. Qed.

Lemma set_if_present_valid page opts key valid :
  link_ready page opts → (key, valid) ∈ hashKeys page → written_unchecked key → set_if_present opts key = set_if_valid opts (key, valid).
Proof.
  intros [_ Hr] Hk Hu. unfold set_if_present, set_if_valid, text_at. cbn. pose proof (checks_nonempty _ _ _ Hk) as He.
  assert (Hm : key ≠ "messageId"%string) by (intros ->; revert Hu; by apply (bool_decide_eq_false_1 _)). rewrite (bool_decide_eq_false_2 (key = _)) by done.
  destruct (opts !! key) as [[t|n]|] eqn:Eo; [|by rewrite bool_decide_eq_true_2..]. cbn. rewrite andb_true_r.
  case_bool_decide as Ht; [subst; by rewrite He|]. by rewrite (proj2 (proj2 (proj2 (Hr _ _ _ Hk Eo))) Hu Ht).
Qed.

(** What is written is what the page owns and has valid. *)
Lemma hash_writes_ready page opts : link_ready page opts → hash_writes page opts = hashKeys page ≫= set_if_valid opts.
Proof.
  intros Hr. unfold hash_writes. destruct (decide (page = P_cases)) as [->|Hc]; [|destruct (decide (page = P_case_manager)) as [->|Hm]; [|destruct (decide (page = P_metrics)) as [->|Ht]]].
  - change (is_case_page P_cases) with true. change (bool_decide (P_cases = P_cases)) with true. change (bool_decide (P_cases = P_metrics)) with false.
    pose proof (λ key valid, set_if_present_valid P_cases opts key valid Hr) as E.
    rewrite (E "caseId" isSafeCaseId)%string, (E "status" isCasesStatus)%string, (E "assignee" isSafeCaseResultAssignee)%string, (E "tag" isSafeCaseResultTag)%string
      by repeat ((by left) || right).
    cbn -[set_if_valid]. by rewrite app_nil_r, <-!app_assoc.
  - change (is_case_page P_case_manager) with true. change (bool_decide (P_case_manager = P_cases)) with false. change (bool_decide (P_case_manager = P_metrics)) with false.
    by rewrite (set_if_present_valid P_case_manager opts "caseId" isSafeCaseId Hr)%string by repeat ((by left) || right).
  - change (is_case_page P_metrics) with false. change (bool_decide (P_metrics = P_cases)) with false. change (bool_decide (P_metrics = P_metrics)) with true.
    destruct Hr as [(_ & Ht & _)%redirect_stays%proj1 _]. unfold retired_tab in Ht. rewrite bool_decide_eq_true_2 in Ht by done.
    cbn [hashKeys mbind list_bind validated_keys DEEP_LINK_KEYS app]. rewrite !app_nil_r. unfold set_if_valid. cbn [fst snd]. unfold text_at in *.
    change (default ∅ (Some opts)) with opts in Ht. destruct (opts !! _) as [[t|n]|]; [|done..].
    rewrite Ht. cbn. by rewrite !orb_false_r, andb_true_r.
  - assert (is_case_page page = false) as -> by by destruct page. rewrite (bool_decide_eq_false_2 (page = P_cases)), (bool_decide_eq_false_2 (page = P_metrics)) by done.
    by destruct page.
Qed.

Lemma set_if_valid_elem opts entry k t :
  (k, t) ∈ set_if_valid opts entry ↔ k = entry.1 ∧ opts !! k = Some (Text t) ∧ entry.2 t = true ∧ message_ready opts k.
Proof.
  unfold set_if_valid, message_ready. destruct entry as [key valid]. cbn. split.
  - destruct (opts !! key) as [[u|n]|] eqn:Eo; [|by intros ?%not_elem_of_nil..]. destruct (valid u && _) eqn:Ev; [|by intros ?%not_elem_of_nil].
    intros [= -> ->]%list_elem_of_singleton. apply andb_true_iff in Ev as [Ev Em]. split_and!; [done..|]. intros ->. by rewrite bool_decide_eq_true_2 in Em.
  - intros (-> & -> & -> & Hm). cbn. case_bool_decide as E; cbn; [rewrite Hm by done|]; by left.
Qed.

Lemma writes_nodup opts (keys : list (string * Check)) : NoDup keys.*1 → NoDup (keys ≫= set_if_valid opts).*1.
Proof.
  induction keys as [|[key valid] keys IH]; [done|]. rewrite fmap_cons. intros [Hk Hn]%NoDup_cons. cbn [mbind list_bind]. rewrite fmap_app. apply NoDup_app. split_and!.
  - unfold set_if_valid. repeat case_match; repeat constructor. apply not_elem_of_nil.
  - intros k ([k' t] & -> & Ht)%list_elem_of_fmap ([k'' t'] & E & Ht')%list_elem_of_fmap. cbn in *. subst.
    apply set_if_valid_elem in Ht as [E1 _]. apply list_elem_of_bind in Ht' as (e & [E2 _]%set_if_valid_elem & He). apply Hk, list_elem_of_fmap. exists e. cbn in *. split; [congruence|done].
  - by apply IH.
Qed.

Lemma durable_lookup page opts k v : durable page opts !! k = Some v ↔ opts !! k = Some v ∧ durable_entry page opts k v.
Proof. apply map_lookup_filter_Some. Qed.

Lemma written_durable page opts k t : link_ready page opts → (k, t) ∈ hash_writes page opts ↔ durable page opts !! k = Some (Text t).
Proof.
  intros Hr. rewrite hash_writes_ready, list_elem_of_bind, durable_lookup by done. unfold durable_entry. split.
  - intros ([k' valid] & (-> & Ho & Hv & Hm)%set_if_valid_elem & Hk%own_key_Some). eauto 8.
  - intros (Ho & valid & t' & Hk%own_key_Some & [= <-] & Hv & Hm). exists (k, valid). by rewrite set_if_valid_elem.
Qed.

Definition to_opts (writes : list (string * text)) : NavOpts := list_to_map ((λ w, (w.1, Text w.2)) <$> writes).

Lemma to_opts_durable page opts : link_ready page opts → to_opts (hash_writes page opts) = durable page opts.
Proof.
  intros Hr. assert (Hn : NoDup ((λ w : string * text, (w.1, Text w.2)) <$> hash_writes page opts).*1).
  { rewrite <-list_fmap_compose, hash_writes_ready by done. apply (writes_nodup opts), hashKeys_nodup. }
  apply map_eq. intros k. apply option_eq. intros v. unfold to_opts. rewrite <-elem_of_list_to_map by done. rewrite list_elem_of_fmap. split.
  - intros ([k' t] & [= -> ->] & Ht). by apply written_durable.
  - intros Hd. destruct (proj1 (durable_lookup _ _ _ _) Hd) as (_ & valid & t & _ & -> & _). exists (k, t). split; [done|]. by apply written_durable.
Qed.

(** ** Parameters of a written query *)
Lemma getAll_none (ps : Params) name : name ∉ ps.*1 → getAll ps name = [].
Proof.
  unfold getAll. induction ps as [|[n v] ps IH]; [done|]. rewrite fmap_cons, not_elem_of_cons. intros [Hn Hps].
  rewrite filter_cons_False by (cbn in *; congruence). by apply IH.
Qed.
Lemma getAll_one (ps : Params) name v : NoDup ps.*1 → (name, v) ∈ ps → getAll ps name = [v].
Proof.
  intros Hn Hin. induction ps as [|[n u] ps IH]; [by apply not_elem_of_nil in Hin|]. rewrite fmap_cons in Hn. apply NoDup_cons in Hn as [Hk Hn].
  apply elem_of_cons in Hin as [E|Hin].
  - injection E as -> ->. unfold getAll. rewrite filter_cons_True by done. rewrite fmap_cons. f_equal. by apply getAll_none.
  - unfold getAll. rewrite filter_cons_False; [by apply IH|]. cbn. intros ->. apply Hk, list_elem_of_fmap. by exists (name, v).
Qed.

Lemma written_names writes : (written_pair <$> writes).*1 = units <$> writes.*1.
Proof. by rewrite <-!list_fmap_compose. Qed.
Lemma written_names_nodup writes : NoDup writes.*1 → NoDup (written_pair <$> writes).*1.
Proof. rewrite written_names. apply NoDup_fmap_2. intros a b. apply units_inj. Qed.

(** A value that reads back *)
Definition readable page (w : string * text) : Prop :=
  ∃ valid, (w.1, valid) ∈ hashKeys page ∧ read_value page w.1 w.2 = w.2 ∧ w.2 ≠ [] ∧ valid w.2 = true ∧ usv w.2 = w.2.

Lemma to_opts_none writes k : k ∉ writes.*1 → to_opts writes !! k = None.
Proof. intros Hk. apply not_elem_of_list_to_map_1. by rewrite <-list_fmap_compose. Qed.

Lemma read_params_written page writes out :
  Forall (readable page) writes → NoDup writes.*1 → read_params page (hashKeys page) (written_pair <$> writes) out = Some (to_opts writes ∪ out).
Proof.
  intros Hw. revert out. induction Hw as [|[key t] writes (valid & Hk & Ht & Hne & Hv & Hu) _ IH]; intros out Hn; cbn in *; [by rewrite (left_id_L ∅ (∪))|].
  apply NoDup_cons in Hn as [Hnk Hn]. apply own_key_Some in Hk as ->. rewrite Hu, Ht, Hv, bool_decide_eq_false_2 by done. cbn. rewrite IH by done. f_equal.
  change (to_opts ((key, t) :: writes)) with (<[key := Text t]> (to_opts writes)). rewrite <-insert_union_l. symmetry. apply insert_union_r. by apply to_opts_none.
Qed.

Lemma parse_written page writes :
  Forall (readable page) writes → writes16 writes → NoDup writes.*1 →
  ("messageId"%string ∈ writes.*1 → text_at (to_opts writes) "conversationId" ≠ []) →
  parseOpts page (hash_of page (write_all writes)) = nonempty (to_opts writes).
Proof.
  intros Hw H16 Hn Hm. rewrite write_all_eq by done. pose proof (written_params16 _ H16) as Hp. unfold parseOpts. rewrite query_of_hash by done.
  destruct (decide (writes = [])) as [->|Hne]; [done|]. rewrite bool_decide_eq_false_2 by by destruct writes. rewrite link_query_valid by done. cbn [negb].
  assert (Hu : URLSearchParams (link_query (written_pair <$> writes)) = written_pair <$> writes).
  { rewrite parse_link_query by done. rewrite <-list_fmap_compose. apply Forall_fmap_ext. eapply Forall_impl; [exact Hw|]. intros [k t] (valid & _ & _ & _ & _ & Hu). cbn in Hu.
    unfold compose, written_pair. cbn. rewrite !Hu. f_equal. apply usv_id; [apply units_units16|apply units_well_formed]. }
  rewrite Hu, read_params_written by done. rewrite (right_id_L ∅ (∪)). destruct (existsb _ _) eqn:Ex.
  - exfalso. apply existsb_exists in Ex as (name & Hin%list_elem_of_In & Hb). rewrite written_names in Hin. apply list_elem_of_fmap in Hin as (key & -> & Hin).
    apply list_elem_of_fmap in Hin as ([k t] & -> & Hin). rewrite Forall_forall in Hw. destruct (Hw _ Hin) as (valid & Hk%own_key_Some & _). cbn in *.
    rewrite Hk in Hb. rewrite (getAll_one _ _ (usv t)) in Hb; [done|by apply written_names_nodup|]. apply list_elem_of_fmap. by exists (k, t).
  - assert (Ho : to_opts writes ≠ ∅). { destruct writes as [|[k t] writes]; [done|]. apply insert_non_empty. }
    unfold nonempty. rewrite decide_False, bool_decide_eq_false_2 by done. cbn. case_bool_decide as Hmt; [done|]. cbn.
    rewrite bool_decide_eq_false_2; [done|]. apply Hm. destruct (decide ("messageId"%string ∈ writes.*1)) as [|Hno]; [done|]. exfalso. apply Hmt. unfold text_at. by rewrite to_opts_none.
Qed.

(** ** A page's own hash, read back *)
Lemma pageHash_ready page opts : link_ready page opts → pageHash page (Some opts) = hash_of page (write_all (hash_writes page opts)).
Proof. intros [(_ & Hr & _)%redirect_stays%proj1 _]. unfold pageHash. cbn in *. by rewrite Hr. Qed.

Lemma hash_writes_elem page opts k t :
  link_ready page opts → (k, t) ∈ hash_writes page opts → ∃ valid, (k, valid) ∈ hashKeys page ∧ opts !! k = Some (Text t) ∧ valid t = true ∧ message_ready opts k.
Proof. intros Hr. rewrite hash_writes_ready, list_elem_of_bind by done. intros ([k' valid] & (-> & Ho & Hv & Hm)%set_if_valid_elem & Hk). by exists valid. Qed.

Lemma hash_writes_nodup page opts : link_ready page opts → NoDup (hash_writes page opts).*1.
Proof. intros Hr. rewrite hash_writes_ready by done. apply writes_nodup, hashKeys_nodup. Qed.

Lemma message_page page valid : ("messageId"%string, valid) ∈ hashKeys page → page = P_chat.
Proof. assert (Hd : page = P_chat ∨ "messageId"%string ∉ (hashKeys page).*1) by (destruct page; ((by left) || (right; by apply (bool_decide_eq_false_1 _)))). destruct Hd as [|Hd]; [done|]. intros Hk. exfalso. apply Hd, list_elem_of_fmap. by eexists (_, _). Qed.

Lemma text_at_lookup opts k t : opts !! k = Some (Text t) → text_at opts k = t.
Proof. unfold text_at. by intros ->. Qed.

Lemma durable_text page opts k : text_at (durable page opts) k = [] ∨ text_at (durable page opts) k = text_at opts k.
Proof.
  unfold text_at at 1 2. destruct (durable page opts !! k) as [v|] eqn:Ed; [|by left]. apply durable_lookup in Ed as [Eo _].
  unfold text_at. rewrite Eo. by right.
Qed.

Lemma durable_stays page opts : stays page opts → stays page (durable page opts).
Proof.
  intros (H1 & H2 & H3). split_and!; [done| |].
  - unfold retired_tab in *. case_bool_decide; [|done]. by destruct (durable_text page opts "tab") as [-> | ->].
  - intros Hd. destruct (durable_text page opts "board") as [-> | ->]; [done|by apply H3].
Qed.

Lemma parse_own_hash page opts : link_ready page opts → parseOpts page (pageHash page (Some opts)) = nonempty (durable page opts).
Proof.
  intros Hr. rewrite pageHash_ready, parse_written, to_opts_durable; try done.
  - apply Forall_forall. intros [k t] (valid & Hk & Ho & Hv & _)%hash_writes_elem; [|done]. destruct (proj2 Hr _ _ _ Hk Ho) as (H16 & Hwf & Ht & _).
    exists valid. cbn. split_and!; [done|done| |done|by apply usv_id]. intros ->. by rewrite (checks_nonempty _ _ _ Hk) in Hv.
  - apply Forall_forall. intros [k t] (valid & Hk & Ho & _)%hash_writes_elem; [|done]. by destruct (proj2 Hr _ _ _ Hk Ho).
  - by apply hash_writes_nodup.
  - intros ([k t] & E & Hin)%list_elem_of_fmap. cbn in E. subst. destruct (hash_writes_elem _ _ _ _ Hr Hin) as (valid & Hk & _ & _ & Hm).
    apply message_page in Hk as ->. specialize (Hm eq_refl).
    assert (Hc : durable P_chat opts !! "conversationId"%string = Some (Text (text_at opts "conversationId"))).
    { apply durable_lookup. split; [apply text_at_Some; [done|by intros E; rewrite E in Hm]|]. exists navId, (text_at opts "conversationId"). by split_and!. }
    rewrite to_opts_durable, (text_at_lookup _ _ _ Hc) by done. intros E. by rewrite E in Hm.
Qed.

(** Not a page that moved into Settings *)
Definition routable page : Prop := isSettingsRedirect (units (page_name page)) = false.

Lemma route_of_own_hash page opts :
  routable page → link_ready page opts → routeFromLocation (pageHash page (Some opts)) = mkRoute page (nonempty (durable page opts)) false.
Proof.
  intros Hp Hr. pose proof (parse_own_hash page opts Hr) as Hq. unfold routeFromLocation.
  assert (Hraw : rawPageOf (pageHash page (Some opts)) = units (page_name page)).
  { rewrite pageHash_ready, write_all_eq by (done || by apply hash_writes_nodup). apply rawPageOf_hash, written_params16.
    apply Forall_forall. intros [k t] (valid & Hk & Ho & _)%hash_writes_elem; [|done]. by destruct (proj2 Hr _ _ _ Hk Ho). }
  rewrite Hraw, Hp, page_of_name. cbn. rewrite Hq. apply stays_redirect. unfold nonempty. pose proof (durable_stays _ _ (proj1 (redirect_stays _ _ (proj1 Hr)))) as Hs.
  case_decide as E; [|done]. cbn. rewrite <-E. exact Hs.
Qed.

(** ** What is read from a hash *)
Lemma read_value_idem page key t : read_value page key (read_value page key t) = read_value page key t.
Proof. unfold read_value. destruct (trimsHashValue page key); [apply trim_idem|done]. Qed.
Lemma read_value_clean page key t : clean t → clean (read_value page key t).
Proof. unfold read_value. intros Ht. destruct (trimsHashValue page key); [by apply trim_clean|done]. Qed.

Definition read_entry page (key : string) (v : NavValue) : Prop :=
  ∃ valid t, (key, valid) ∈ hashKeys page ∧ v = Text t ∧ t ≠ [] ∧ valid t = true ∧ read_value page key t = t ∧ clean t.

Lemma read_params_entries page params out o :
  Forall (λ p, clean p.2) params → map_Forall (read_entry page) out → read_params page (hashKeys page) params out = Some o → map_Forall (read_entry page) o.
Proof.
  intros Hp. revert out. induction Hp as [|[name raw] params Hc _ IH]; intros out Ho; cbn; [by intros [= <-]|].
  destruct (own_key _ name) as [[key valid]|] eqn:Ek; [|done]. apply own_key_name in Ek as [_ Hk]. destruct (_ || _) eqn:Ev; [done|].
  apply orb_false_iff in Ev as [Ene%bool_decide_eq_false Ev%negb_false_iff]. apply IH. apply map_Forall_insert_2; [|done].
  exists valid, (read_value page key raw). split_and!; [done|done|done|done|apply read_value_idem|by apply read_value_clean].
Qed.

Lemma parsed_entries page hash o :
  parseOpts page hash = Some o →
  map_Forall (read_entry page) o ∧ o ≠ ∅ ∧ (text_at o "messageId" ≠ [] → text_at o "conversationId" ≠ []).
Proof.
  unfold parseOpts. destruct (query_of hash) as [q|] eqn:Eq; [|done]. destruct (negb _); [done|]. destruct (existsb _ _); [done|].
  destruct (read_params _ _ _ _) as [out|] eqn:Er; [|done]. case_bool_decide as E0; [done|]. cbn [negb andb].
  destruct (_ || _) eqn:Em; [|done]. intros [= <-]. split_and!; [|done|].
  - eapply read_params_entries; [|apply map_Forall_empty|exact Er]. apply params_clean.
  - intros Hm. rewrite bool_decide_eq_false_2 in Em by done. by apply negb_true_iff, bool_decide_eq_false in Em.
Qed.

(** Entries that read back can be written, and are all durable. *)
Lemma entries_ready page o : map_Forall (read_entry page) o → (text_at o "messageId" ≠ [] → text_at o "conversationId" ≠ []) →
  r_redirected (redirectRoute page (Some o)) = false → link_ready page o ∧ durable page o = o.
Proof.
  intros He Hm Hr. split.
  - split; [done|]. intros key valid t Hk Hl. destruct (He _ _ Hl) as (valid' & t' & Hk' & [= <-] & Hne' & Hv & Ht & H16 & Hwf).
    assert (valid' = valid) as -> by (apply own_key_Some in Hk, Hk'; congruence). by split_and!.
  - apply map_eq. intros key. apply option_eq. intros v. rewrite durable_lookup. split; [by intros []|]. intros Hl. split; [done|].
    destruct (He _ _ Hl) as (valid & t & Hk & -> & Hne' & Hv & Ht & _). exists valid, t. split_and!; [by apply own_key_Some|done|done|]. intros ->.
    apply text_at_lookup in Hl. rewrite <-Hl in Hne'. specialize (Hm Hne'). apply message_page in Hk as ->.
    pose proof (text_at_Some o _ _ eq_refl Hm) as Hc. destruct (He _ _ Hc) as (vc & tc & Hkc & [= <-] & _ & Hvc & _). by apply list_elem_of_In in Hkc as [[= <-]|[[=]|[]]].
Qed.
Lemma parsed_ready page hash o :
  parseOpts page hash = Some o → r_redirected (redirectRoute page (Some o)) = false → link_ready page o ∧ durable page o = o.
Proof. intros Ho Hr. destruct (parsed_entries _ _ _ Ho) as (He & _ & Hm). by apply entries_ready. Qed.
End routes.

Section routes.
Context `{RouterHost}.
Implicit Types (page : PageId) (opts : NavOpts).

Lemma link_ready_empty page : PAGE_REDIRECTS page = None → link_ready page ∅.
Proof.
  intros Hp. split; [|intros key valid t _ E; by rewrite lookup_empty in E]. rewrite stays_redirect; [done|]. split_and!; [done| |done].
  unfold retired_tab. by case_bool_decide.
Qed.

Lemma durable_empty page : durable page ∅ = ∅.
Proof. apply map_filter_empty. Qed.

Lemma route_of_bare page : routable page → PAGE_REDIRECTS page = None → routeFromLocation (pageHash page None) = mkRoute page None false.
Proof. intros Hp Hr. change (pageHash page None) with (pageHash page (Some ∅)). rewrite route_of_own_hash by (done || by apply link_ready_empty). by rewrite durable_empty. Qed.

Lemma redirected_target page o : r_redirected (redirectRoute page o) = true →
  let r := redirectRoute page o in routable (r_page r) ∧ PAGE_REDIRECTS (r_page r) = None ∧ (r_opts r = None ∨ r_page r = P_case_manager ∧ r_opts r = Some closed_by_agent).
Proof.
  cbv zeta. unfold redirectRoute. destruct (PAGE_REDIRECTS page) as [[p' o']|] eqn:Ep.
  - intros _. destruct page; try discriminate Ep; injection Ep as <- <-; cbn [r_page r_opts];
      (split; [reflexivity|]; split; [reflexivity|]; ((by left) || (by right))).
  - destruct (_ && _); [intros _; split; [reflexivity|]; split; [reflexivity|by left]|]. unfold retired_tab. case_bool_decide; [|done]. destruct (metrics_tab_page _) as [p'|] eqn:Em; [|done]. intros _.
    unfold metrics_tab_page in Em. apply fmap_Some in Em as ([t q] & Hf & ->). apply List.find_some in Hf as [[[= <- <-]|[[= <- <-]|[]]] _]; (split; [reflexivity|]; split; [reflexivity|by left]).
Qed.

Lemma closed_by_agent_route : routeFromLocation (pageHash P_case_manager (Some closed_by_agent)) = mkRoute P_case_manager (Some closed_by_agent) false.
Proof. vm_compute. reflexivity. Qed.

Lemma routable_named raw : isSettingsRedirect raw = false → routable (default P_overview (page_of raw)).
Proof. intros Hr. destruct (page_of raw) as [p|] eqn:Ep; [|reflexivity]. apply page_of_Some in Ep as ->. exact Hr. Qed.

(** C33. Whatever the address says, the hash written for the page and the options read from it names that
    page and those options again, and is no alias: the router's links are stable. *)
Theorem canonical_link hash :
  let r := routeFromLocation hash in routeFromLocation (pageHash (r_page r) (r_opts r)) = mkRoute (r_page r) (r_opts r) false.
Proof.
  cbv zeta. unfold routeFromLocation at 2 3 4 5. destruct (isSettingsRedirect _) eqn:Es; [by apply route_of_bare|].
  pose proof (routable_named _ Es) as Hp. set (page := default P_overview (page_of (rawPageOf hash))) in *.
  destruct (r_redirected (redirectRoute page (parseOpts page hash))) eqn:Er.
  - destruct (redirected_target _ _ Er) as (Hr & Hn & [Ho|[Hc Ho]]); rewrite Ho; [by apply route_of_bare|]. rewrite Hc. apply closed_by_agent_route.
  - destruct (redirect_stays _ _ Er) as [Hst ->]. cbn [r_page r_opts]. destruct (parseOpts page hash) as [o|] eqn:Eo.
    + destruct (parsed_ready _ _ _ Eo Er) as [Hl Hd]. rewrite route_of_own_hash, Hd by done. destruct (parsed_entries _ _ _ Eo) as (_ & Hne & _).
      unfold nonempty. by rewrite decide_False.
    + apply route_of_bare; [done|]. by destruct Hst.
Qed.

(** C34. A refresh, a new tab and a bookmark keep what a page owns: the hash written for a page is read back
    as that page with the valid values of its keys, percent-encoding included. The values are ones an address can carry
    ([link_ready]): without stray surrogates, trimmed where they are read trimmed, and valid where they are written
    unchecked (the case id, status, assignee and tag). *)
Theorem refresh_keeps_link page opts :
  routable page → link_ready page opts → routeFromLocation (pageHash page (Some opts)) = mkRoute page (nonempty (durable page opts)) false.
Proof. apply route_of_own_hash. Qed.

(** ** One key of a change on the page *)
Definition same_key_value page (incoming written : Params) (key : string) (valid : Check) (v : option NavValue) : option NavValue :=
  same_key page incoming written (match v with Some v => {[key := v]} | None => ∅ end) (key, valid) !! key.

Lemma same_key_other page incoming written next key valid k : k ≠ key → same_key page incoming written next (key, valid) !! k = next !! k.
Proof. intros Hk. unfold same_key. repeat case_match; rewrite ?lookup_insert_ne, ?lookup_delete_ne by done; done. Qed.

Lemma same_key_own page incoming written next key valid :
  same_key page incoming written next (key, valid) !! key = same_key_value page incoming written key valid (next !! key).
Proof.
  unfold same_key_value, same_key. repeat case_match; simplify_eq; rewrite ?lookup_insert_eq, ?lookup_delete_eq; try done; by rewrite ?lookup_singleton_eq, ?lookup_empty.
Qed.

Lemma same_keys_lookup page incoming written (keys : list (string * Check)) next k : NoDup keys.*1 →
  (∀ valid, (k, valid) ∈ keys → foldl (same_key page incoming written) next keys !! k = same_key_value page incoming written k valid (next !! k)) ∧
  (k ∉ keys.*1 → foldl (same_key page incoming written) next keys !! k = next !! k).
Proof.
  revert next. induction keys as [|[key v] keys IH]; intros next Hn; [split; [by intros ? ?%not_elem_of_nil|done]|]. rewrite fmap_cons in *. apply NoDup_cons in Hn as [Hk Hn].
  cbn [foldl]. destruct (IH (same_key page incoming written next (key, v)) Hn) as [IH1 IH2]. split.
  - intros valid [[= -> ->]|Hin]%elem_of_cons; [rewrite IH2 by done; apply same_key_own|]. rewrite (IH1 _ Hin), same_key_other; [done|].
    intros ->. apply Hk, list_elem_of_fmap. by exists (key, valid).
  - intros [Hne Hni]%not_elem_of_cons. rewrite IH2 by done. by apply same_key_other.
Qed.

(** ** A query the parser reads, key by key *)
Lemma unique_params (ps : Params) : existsb (λ name, (1 <? length (getAll ps name))%nat) ps.*1 = false → NoDup ps.*1.
Proof.
  intros He. apply NoDup_alt. intros i j name Hi Hj. destruct (decide (i = j)) as [|Hij]; [done|exfalso].
  assert (Hlen : (1 < length (getAll ps name))%nat).
  { unfold getAll. rewrite length_fmap. clear He. revert i j Hi Hj Hij.
    assert (H1 : ∀ (qs : Params) i, qs.*1 !! i = Some name → (0 < length (filter (λ p, p.1 = name) qs))%nat).
    { intros qs. induction qs as [|[n v] qs IH]; intros [|i] Hi; try done; cbn in Hi; rewrite filter_cons; case_decide; cbn in *; try lia; [congruence|by eapply IH]. }
    induction ps as [|[n v] ps IH]; intros [|i] [|j] Hi Hj Hij; try done; cbn in Hi, Hj; rewrite filter_cons; case_decide as E; cbn in *; try congruence.
    - apply H1 in Hj. lia.
    - apply H1 in Hi. lia.
    - apply H1 in Hi. lia.
    - eapply IH; [exact Hi|exact Hj|congruence]. }
  apply not_true_iff_false in He. apply He, existsb_exists. exists name. split; [by apply list_elem_of_In, list_elem_of_lookup_2 with i|by apply Nat.ltb_lt].
Qed.

Lemma getAll_cons (ps : Params) name n v : getAll ((n, v) :: ps) name = if decide (n = name) then v :: getAll ps name else getAll ps name.
Proof. unfold getAll. rewrite filter_cons. cbn. by case_decide. Qed.

Lemma read_params_lookup page params out o k : NoDup params.*1 → read_params page (hashKeys page) params out = Some o →
  o !! k = match getAll params (units k) with raw :: _ => Some (Text (read_value page k raw)) | [] => out !! k end.
Proof.
  revert out. induction params as [|[name raw] params IH]; intros out Hn; cbn [read_params]; [by intros [= ->]|]. apply NoDup_cons in Hn as [Hk Hn].
  destruct (own_key _ name) as [[key valid]|] eqn:Ek; [|done]. apply own_key_name in Ek as [-> _]. destruct (_ || _); [done|]. intros Ho%IH; [|done].
  rewrite Ho, getAll_cons. case_decide as E.
  - apply units_inj in E as ->. rewrite getAll_none by done. by rewrite lookup_insert_eq.
  - by rewrite lookup_insert_ne by congruence.
Qed.

Lemma read_params_valid page params out o k valid raw : read_params page (hashKeys page) params out = Some o → (k, valid) ∈ hashKeys page → (units k, raw) ∈ params →
  read_value page k raw ≠ [] ∧ valid (read_value page k raw) = true.
Proof.
  intros Hr Hk Hin. revert out Hr. induction params as [|[name u] params IH]; [by apply not_elem_of_nil in Hin|]. intros out. cbn [read_params].
  destruct (own_key _ name) as [[key v]|] eqn:Ek; [|done]. destruct (_ || _) eqn:Ev; [done|]. apply elem_of_cons in Hin as [[= <- <-]|Hin]; [|by apply IH].
  apply own_key_Some in Hk. rewrite Hk in Ek. injection Ek as <- <-. intros _. by apply orb_false_iff in Ev as [?%bool_decide_eq_false ?%negb_false_iff].
Qed.

Lemma parse_inv page hash o : parseOpts page hash = Some o →
  ∃ q, query_of hash = Some q ∧ hasValidRouteEncoding q = true ∧ NoDup (URLSearchParams q).*1 ∧ read_params page (hashKeys page) (URLSearchParams q) ∅ = Some o.
Proof.
  unfold parseOpts. destruct (query_of hash) as [q|]; [|done]. destruct (hasValidRouteEncoding q) eqn:Ev; [|done]. cbn [negb]. destruct (existsb _ _) eqn:Ex; [done|].
  destruct (read_params _ _ _ _) as [out|] eqn:Er; [|done]. destruct (_ && _); [|done]. intros [= ->]. exists q. split_and!; [done|done| |done].
  apply unique_params. apply not_true_iff_false. intros (name & Hin & Hl)%existsb_exists. apply not_true_iff_false in Ex. apply Ex, existsb_exists. exists name. by rewrite Hl, orb_true_r.
Qed.

(** What the router's own hash holds *)
Lemma own_params page opts : link_ready page opts → URLSearchParams (written_query (pageHash page (Some opts))) = (λ w, (units w.1, w.2)) <$> hash_writes page opts.
Proof.
  intros Hr. assert (Hu : Forall (λ w, clean w.2) (hash_writes page opts)).
  { apply Forall_forall. intros [k t] (valid & Hk & Ho & _)%hash_writes_elem; [|done]. by destruct (proj2 Hr _ _ _ Hk Ho) as (H1 & H2 & _). }
  assert (H16 : writes16 (hash_writes page opts)) by (eapply Forall_impl; [exact Hu|]; by intros ? []).
  rewrite pageHash_ready, write_all_eq, written_query_hash, parse_link_query by (done || by apply hash_writes_nodup || by apply written_params16).
  rewrite <-list_fmap_compose. apply Forall_fmap_ext. eapply Forall_impl; [exact Hu|]. intros [k t] [H1 H2]. unfold compose, written_pair. cbn [fst snd] in *.
  by rewrite !(usv_id t), usv_id by (done || apply units_units16 || apply units_well_formed).
Qed.

Lemma own_params_get page opts k : link_ready page opts →
  get_param ((λ w, (units w.1, w.2)) <$> hash_writes page opts) (units k) = match durable page opts !! k with Some (Text t) => Some t | _ => None end ∧
  has_param ((λ w, (units w.1, w.2)) <$> hash_writes page opts) (units k) = bool_decide (is_Some (durable page opts !! k)).
Proof.
  intros Hr. set (ps := (λ w, (units w.1, w.2)) <$> hash_writes page opts).
  assert (Hn : ps.*1 = units <$> (hash_writes page opts).*1) by by (unfold ps; rewrite <-!list_fmap_compose).
  assert (Hnd : NoDup ps.*1) by (rewrite Hn; apply NoDup_fmap_2; [intros a b; apply units_inj|by apply hash_writes_nodup]).
  destruct (durable page opts !! k) as [v|] eqn:Ed.
  - destruct (proj1 (durable_lookup _ _ _ _) Ed) as (_ & valid & t & _ & -> & _). apply written_durable in Ed; [|done].
    assert (Hin : (units k, t) ∈ ps) by (apply list_elem_of_fmap; by exists (k, t)). split.
    + unfold get_param. by rewrite (getAll_one _ _ _ Hnd Hin).
    + unfold has_param. rewrite !bool_decide_eq_true_2; [done|done|]. apply list_elem_of_fmap. by exists (units k, t).
  - assert (Hni : units k ∉ ps.*1).
    { rewrite Hn. intros (k' & E%units_inj & Hk)%list_elem_of_fmap. subst k'. apply list_elem_of_fmap in Hk as ([k' t] & -> & Ht). apply written_durable in Ht; [|done]. cbn in *. congruence. }
    split; [unfold get_param; by rewrite getAll_none|unfold has_param; rewrite !bool_decide_eq_false_2; [done|by intros []|done]].
Qed.

(** The keys of the page after the loop: what the hash says, and what was in memory without being written *)
Lemma same_keys_parsed page cur hash q o :
  link_ready page cur → parseOpts page hash = Some o → query_of hash = Some q →
  foldl (same_key page (URLSearchParams q) (URLSearchParams (written_query (pageHash page (Some cur))))) cur (hashKeys page) = o ∪ (cur ∖ durable page cur).
Proof.
  intros Hr Ho Hq. destruct (parse_inv _ _ _ Ho) as (q' & Hq' & _ & Hn & Hp). assert (q' = q) as -> by congruence. rewrite own_params by done.
  apply map_eq. intros k. rewrite lookup_union, lookup_difference.
  set (incoming := URLSearchParams q) in *. set (written := _ <$> hash_writes page cur).
  destruct (same_keys_lookup page incoming written (hashKeys page) cur k (hashKeys_nodup page)) as [H1 H2].
  destruct (own_params_get page cur k Hr) as [Hg Hh]. fold written in Hg, Hh. pose proof (read_params_lookup _ _ _ _ k Hn Hp) as Hl. rewrite lookup_empty in Hl.
  destruct (decide (k ∈ (hashKeys page).*1)) as [([k' valid] & -> & Hk)%list_elem_of_fmap|Hno]; cbn [fst] in *.
  - rewrite (H1 _ Hk). unfold same_key_value, same_key. destruct (getAll incoming (units k')) as [|raw [|raw' all]] eqn:Ea.
    + rewrite Hl, Hh. rewrite bool_decide_eq_true_2 by done. cbn [negb orb]. rewrite (left_id_L None (∪)).
      destruct (durable page cur !! k') eqn:Ed; [by rewrite bool_decide_eq_true_2, lookup_delete_eq by done|].
      rewrite bool_decide_eq_false_2 by by intros []. destruct (cur !! k'); [by rewrite lookup_singleton_eq|by rewrite lookup_empty].
    + rewrite Hl. assert (Hin : (units k', raw) ∈ incoming).
      { assert (Hin : raw ∈ getAll incoming (units k')) by (rewrite Ea; by left). unfold getAll in Hin. apply list_elem_of_fmap in Hin as ([n v] & -> & [E Hin]%list_elem_of_filter). cbn in *. by subst. }
      destruct (read_params_valid _ _ _ _ _ _ _ Hp Hk Hin) as [Hne Hv].
      destruct (decide (Some raw = get_param written (units k'))) as [Eg|Eg]; [rewrite (bool_decide_eq_true_2 _ Eg)|rewrite (bool_decide_eq_false_2 _ Eg)].
      * rewrite Hg in Eg. destruct (durable page cur !! k') as [[t|]|] eqn:Ed; try done. injection Eg as ->. apply durable_lookup in Ed as [Ec _]. rewrite Ec, lookup_singleton_eq.
        destruct (proj2 Hr _ _ _ Hk Ec) as (_ & _ & -> & _). by rewrite union_Some_l.
      * rewrite bool_decide_eq_false_2, Hv by done. cbn [negb andb]. rewrite lookup_insert_eq. by rewrite union_Some_l.
    + exfalso. assert (Hin : ∃ v, (units k', v) ∈ incoming).
      { assert (Hin : raw ∈ getAll incoming (units k')) by (rewrite Ea; by left). unfold getAll in Hin. apply list_elem_of_fmap in Hin as ([n v] & -> & [E Hin]%list_elem_of_filter). cbn in *. subst. by exists v. }
      destruct Hin as [v Hin]. by rewrite (getAll_one _ _ _ Hn Hin) in Ea.
  - rewrite H2 by done. destruct (parsed_entries _ _ _ Ho) as (He & _ & _).
    assert (o !! k = None) as ->. { apply eq_None_not_Some. intros [v Hv]. destruct (He _ _ Hv) as (valid & t & Hk & _). apply Hno, list_elem_of_fmap. by exists (k, valid). }
    assert (durable page cur !! k = None) as ->. { apply eq_None_not_Some. intros [v (_ & valid & t & Hk%own_key_Some & _)%durable_lookup]. apply Hno, list_elem_of_fmap. by exists (k, valid). }
    rewrite (left_id_L None (∪)). by destruct (cur !! k).
Qed.

Lemma delete_keys_filter (keys : list string) opts : foldl (λ o key, delete key o) opts keys = filter (λ kv, kv.1 ∉ keys) opts.
Proof.
  revert opts. induction keys as [|key keys IH]; intros opts; cbn [foldl].
  - symmetry. apply map_filter_id. intros k v _. apply not_elem_of_nil.
  - rewrite IH. apply map_eq. intros k. apply option_eq. intros v. rewrite !map_lookup_filter_Some, lookup_delete_Some, not_elem_of_cons. cbn. naive_solver.
Qed.

Lemma own_not_one_shot page key valid : (key, valid) ∈ hashKeys page → key ∉ ONE_SHOT_KEYS.
Proof.
  assert (Hd : Forall (λ e : string * Check, e.1 ∉ ONE_SHOT_KEYS) (hashKeys page)).
  { destruct page; repeat (apply Forall_cons; split; [by apply (bool_decide_eq_false_1 _)|]); constructor. }
  rewrite Forall_forall in Hd. by intros ?%Hd.
Qed.

(** A key the hash names is a key that was read. *)
Lemma named_read page hash q o k : parseOpts page hash = Some o → query_of hash = Some q →
  has_param (URLSearchParams q) (units k) = true → ∃ t, o !! k = Some (Text t).
Proof.
  intros Ho Hq Hh. destruct (parse_inv _ _ _ Ho) as (q' & Hq' & _ & Hn & Hp). assert (q' = q) as -> by congruence.
  apply bool_decide_eq_true in Hh. apply list_elem_of_fmap in Hh as ([n v] & E & Hin). cbn in E. subst n.
  rewrite (read_params_lookup _ _ _ _ k Hn Hp), (getAll_one _ _ _ Hn Hin). by eexists.
Qed.
Lemma read_named page hash q o k v : parseOpts page hash = Some o → query_of hash = Some q → o !! k = Some v → has_param (URLSearchParams q) (units k) = true.
Proof.
  intros Ho Hq Hk. destruct (parse_inv _ _ _ Ho) as (q' & Hq' & _ & Hn & Hp). assert (q' = q) as -> by congruence.
  rewrite (read_params_lookup _ _ _ _ k Hn Hp), lookup_empty in Hk. apply bool_decide_eq_true. destruct (decide (units k ∈ (URLSearchParams q).*1)) as [|Hno]; [done|].
  by rewrite getAll_none in Hk.
Qed.

Lemma kept_message page cur hash q o : parseOpts page hash = Some o → query_of hash = Some q →
  has_param (URLSearchParams q) (units "messageId") && negb (navId (text_at (o ∪ (cur ∖ durable page cur)) "conversationId")) = false.
Proof.
  intros Ho Hq. destruct (has_param _ _) eqn:Eh; [|done]. cbn. apply negb_false_iff. destruct (named_read _ _ _ _ _ Ho Hq Eh) as [m Hm].
  destruct (parsed_entries _ _ _ Ho) as (He & _ & Hc). destruct (He _ _ Hm) as (vm & tm & Hk & [= <-] & Hne & _). apply message_page in Hk as ->.
  rewrite <-(text_at_lookup _ _ _ Hm) in Hne. pose proof (text_at_Some o _ _ eq_refl (Hc Hne)) as Hcv. rewrite (text_at_lookup _ _ (text_at o "conversationId")).
  - destruct (He _ _ Hcv) as (vc & tc & Hkc & [= <-] & _ & Hvc & _). by apply list_elem_of_In in Hkc as [[= <-]|[[=]|[]]].
  - rewrite lookup_union, Hcv. by rewrite union_Some_l.
Qed.

Lemma traversal_parsed page cur hash o :
  link_ready page cur → parseOpts page hash = Some o →
  samePageOpts page (Some cur) hash true = Fresh (Some (filter (λ kv, kv.1 ∉ ONE_SHOT_KEYS) (o ∪ (cur ∖ durable page cur)))).
Proof.
  intros Hr Ho. destruct (parse_inv _ _ _ Ho) as (q & Hq & Hv & _). unfold samePageOpts. rewrite Hq. cbn [default from_option id]. rewrite Hv. cbn [negb].
  rewrite (same_keys_parsed _ _ _ _ _ Hr Ho Hq), (kept_message _ _ _ _ _ Ho Hq), delete_keys_filter. destruct (parsed_entries _ _ _ Ho) as (He & Hne & _).
  apply map_choose in Hne as (k & v & Hk). destruct (He _ _ Hk) as (valid & t & Hok & -> & _).
  rewrite (proj2 (existsb_exists _ _)); [|exists (k, valid); split; [by apply list_elem_of_In|]; by apply (read_named _ _ _ _ _ _ Ho Hq Hk)]. cbn [negb andb].
  rewrite bool_decide_eq_false_2; [done|]. intros Hf. assert (Hl : (∅ : NavOpts) !! k = Some (Text t)); [|by rewrite lookup_empty in Hl]. rewrite <-Hf, map_lookup_filter_Some, lookup_union, Hk.
  split; [by rewrite union_Some_l|]. cbn. by eapply own_not_one_shot.
Qed.

(** What an address says of a key: the value it names once and validly *)
Definition named_value page (incoming : Params) (key : string) (valid : Check) : option NavValue :=
  match getAll incoming (units key) with
  | [raw] => let value := read_value page key raw in if decide (value ≠ [] ∧ valid value = true) then Some (Text value) else None
  | _ => None
  end.

(** A key of the options after an address with these parameters: one the page owns is what the address names, or what was
    only in memory; of the others a one-shot request goes, and the rest stays. *)
Definition followed page (incoming : Params) cur (key : string) : option NavValue :=
  match own_key (hashKeys page) (units key) with
  | Some (_, valid) =>
      if has_param incoming (units key) then named_value page incoming key valid
      else if decide (is_Some (durable page cur !! key)) then None else cur !! key
  | None => if decide (key ∈ ONE_SHOT_KEYS) then None else cur !! key
  end.

Lemma has_param_getAll (ps : Params) name : has_param ps name = negb (bool_decide (getAll ps name = [])).
Proof.
  unfold has_param. destruct (decide (name ∈ ps.*1)) as [Hin|Hni].
  - rewrite bool_decide_eq_true_2 by done. apply list_elem_of_fmap in Hin as ([n v] & En & Hin). cbn in En. subst n. rewrite bool_decide_eq_false_2; [done|].
    intros E. assert (Hv : v ∈ getAll ps name) by (apply list_elem_of_fmap; exists (name, v); split; [done|]; by apply list_elem_of_filter).
    rewrite E in Hv. by apply not_elem_of_nil in Hv.
  - rewrite bool_decide_eq_false_2, getAll_none by done. by rewrite bool_decide_eq_true_2.
Qed.

(** One key of the loop is what the address says, whatever the address. *)
Lemma same_key_followed page cur incoming key valid : link_ready page cur → (key, valid) ∈ hashKeys page →
  same_key_value page incoming (URLSearchParams (written_query (pageHash page (Some cur)))) key valid (cur !! key) = followed page incoming cur key.
Proof.
  intros Hr Hk. rewrite own_params by done. destruct (own_params_get page cur key Hr) as [Hg Hh]. set (written := _ <$> hash_writes page cur) in *.
  unfold followed. rewrite (proj1 (own_key_Some _ _ _) Hk), has_param_getAll. unfold named_value, same_key_value, same_key. rewrite Hh.
  destruct (getAll incoming (units key)) as [|raw [|raw' all]]; cbn [negb orb].
  - rewrite !(bool_decide_eq_true_2 ([] = [])) by done. cbn [negb orb].
    destruct (decide (is_Some (durable page cur !! key))) as [Hd|Hd]; [rewrite (bool_decide_eq_true_2 _ Hd); by rewrite lookup_delete_eq|].
    rewrite (bool_decide_eq_false_2 _ Hd). destruct (cur !! key); [by rewrite lookup_singleton_eq|by rewrite lookup_empty].
  - rewrite (bool_decide_eq_false_2 ([raw] = [])) by done. cbn [negb].
    destruct (decide (Some raw = get_param written (units key))) as [Eg|Eg]; [rewrite (bool_decide_eq_true_2 _ Eg)|rewrite (bool_decide_eq_false_2 _ Eg)].
    + rewrite Hg in Eg. destruct (durable page cur !! key) as [[t|]|] eqn:Ed; try done. injection Eg as ->.
      apply durable_lookup in Ed as (Ec & v' & t' & Hv' & [= <-] & Hvt & _). apply own_key_Some in Hk. assert (v' = valid) as -> by congruence.
      apply own_key_Some in Hk. rewrite Ec, lookup_singleton_eq. destruct (proj2 Hr _ _ _ Hk Ec) as (_ & _ & -> & _).
      rewrite decide_True; [done|]. split; [|done]. intros ->. rewrite (checks_nonempty _ _ _ Hk) in Hvt. done.
    + destruct (decide (read_value page key raw ≠ [] ∧ valid (read_value page key raw) = true)) as [[H1 H2]|Hn].
      * rewrite bool_decide_eq_false_2, H2 by done. cbn [negb andb]. by rewrite lookup_insert_eq.
      * destruct (negb _ && _) eqn:E; [|by rewrite lookup_delete_eq]. exfalso. apply Hn.
        apply andb_true_iff in E as [E1%negb_true_iff%bool_decide_eq_false E2]. done.
  - rewrite !(bool_decide_eq_false_2 (_ = [])) by done. cbn [negb orb]. by rewrite lookup_delete_eq.
Qed.

(** The options after a traversal, before the empty map is dropped *)
Definition traversed page cur (incoming : Params) : NavOpts :=
  let next := foldl (same_key page incoming (URLSearchParams (written_query (pageHash page (Some cur))))) cur (hashKeys page) in
  filter (λ kv, kv.1 ∉ ONE_SHOT_KEYS)
    (if has_param incoming (units "messageId") && negb (navId (text_at next "conversationId")) then delete "messageId"%string next else next).

Lemma traversed_eq page cur hash : hasValidRouteEncoding (default [] (query_of hash)) = true →
  default ∅ (same_opts (Some cur) (samePageOpts page (Some cur) hash true)) = traversed page cur (URLSearchParams (default [] (query_of hash))).
Proof.
  intros Hv. unfold samePageOpts, traversed. rewrite Hv. cbn [negb default from_option id]. rewrite <-delete_keys_filter.
  set (next := foldl (λ o key, delete key o) _ _). destruct (_ && bool_decide (next = cur)) eqn:E.
  - apply andb_true_iff in E as [_ E%bool_decide_eq_true]. done.
  - cbn [same_opts]. destruct (decide (next = ∅)) as [En|En]; [by rewrite (bool_decide_eq_true_2 _ En), En|by rewrite (bool_decide_eq_false_2 _ En)].
Qed.

Lemma traversed_lookup page cur incoming key : link_ready page cur →
  traversed page cur incoming !! key =
    if decide (key = "messageId"%string ∧ has_param incoming (units "messageId") = true ∧ navId (text_at (traversed page cur incoming) "conversationId") = false)
    then None else followed page incoming cur key.
Proof.
  intros Hr. unfold traversed. set (next := foldl _ cur (hashKeys page)).
  assert (Hn : ∀ key, (if decide (key ∈ ONE_SHOT_KEYS) then None else next !! key) = followed page incoming cur key).
  { intros k. destruct (same_keys_lookup page incoming (URLSearchParams (written_query (pageHash page (Some cur)))) (hashKeys page) cur k (hashKeys_nodup page)) as [H1 H2].
    fold next in H1, H2. destruct (own_key (hashKeys page) (units k)) as [[k' valid]|] eqn:Ek.
    - pose proof (own_key_name _ _ _ _ Ek) as [->%units_inj Hk]. rewrite decide_False by by eapply own_not_one_shot. rewrite (H1 _ Hk). by apply same_key_followed.
    - unfold followed. rewrite Ek. case_decide; [done|]. apply H2. intros ([k' valid] & -> & Hk)%list_elem_of_fmap. apply own_key_Some in Hk. cbn in *. congruence. }
  set (kept := if _ && _ then _ else _).
  assert (Hf : ∀ k, filter (λ kv : string * NavValue, kv.1 ∉ ONE_SHOT_KEYS) kept !! k = if decide (k ∈ ONE_SHOT_KEYS) then None else kept !! k).
  { intros k. apply option_eq. intros v. rewrite map_lookup_filter_Some. cbn. case_decide; naive_solver. }
  assert (Hc : text_at (filter (λ kv : string * NavValue, kv.1 ∉ ONE_SHOT_KEYS) kept) "conversationId" = text_at next "conversationId").
  { unfold text_at. rewrite Hf, decide_False by by apply (bool_decide_eq_false_1 _). unfold kept. destruct (_ && _); [by rewrite lookup_delete_ne|done]. }
  rewrite Hc, Hf. rewrite <-Hn. unfold kept. destruct (has_param incoming (units "messageId")), (navId (text_at next "conversationId")); cbn [negb andb];
    try (rewrite (decide_False (P := key = _ ∧ _)) by naive_solver; done).
  destruct (decide (key = "messageId"%string)) as [->|Hne]; [rewrite (decide_True (P := "messageId"%string = _ ∧ _)) by done; by rewrite lookup_delete_eq; case_decide|].
  rewrite (decide_False (P := key = _ ∧ _)) by naive_solver. by rewrite lookup_delete_ne.
Qed.

(** C35. After Back, Forward, a typed or a pasted address that stays on the page, the options are what the address says,
    whatever the address: a key the page owns has the value the address names once and validly, and no other; a key it
    does not name loses the value an address carried and keeps one that was only in memory; a message goes with its
    conversation; a one-shot request never comes back; the rest stays. An address whose escapes do not decode changes
    nothing. Of an address the parser reads the options are those it reads. It is [samePageOpts] that does so, from
    options whose values for the page's keys an address can carry ([link_ready]); the router leaves out the call when it
    takes the address for its own navigation's ([RouterProviderSpec.stale_echo]). *)
Theorem traversal_follows_hash page (cur : option NavOpts) hash :
  link_ready page (default ∅ cur) →
  let query := default [] (query_of hash) in let incoming := URLSearchParams query in
  let next := default ∅ (same_opts cur (samePageOpts page cur hash true)) in
  (hasValidRouteEncoding query = false → samePageOpts page cur hash true = Kept) ∧
  (hasValidRouteEncoding query = true → ∀ key, next !! key =
     if decide (key = "messageId"%string ∧ has_param incoming (units "messageId") = true ∧ navId (text_at next "conversationId") = false)
     then None else followed page incoming (default ∅ cur) key) ∧
  (∀ o, parseOpts page hash = Some o →
     next = filter (λ kv, kv.1 ∉ ONE_SHOT_KEYS) (o ∪ (default ∅ cur ∖ durable page (default ∅ cur)))).
Proof.
  intros Hr. cbv zeta. set (before := default ∅ cur) in *. set (query := default [] (query_of hash)).
  change (samePageOpts page cur hash true) with (samePageOpts page (Some before) hash true).
  assert (Hd : default ∅ (same_opts cur (samePageOpts page (Some before) hash true)) = default ∅ (same_opts (Some before) (samePageOpts page (Some before) hash true))).
  { by destruct (samePageOpts _ _ _ _). }
  rewrite Hd. split_and!.
  - intros Hv. unfold samePageOpts. fold query. by rewrite Hv.
  - intros Hv key. rewrite (traversed_eq page before hash Hv). by apply traversed_lookup.
  - intros o Ho. by rewrite (traversal_parsed _ _ _ _ Hr Ho).
Qed.

(** The same parameters on both sides change no key. *)
Lemma same_key_equal page (ps : Params) next entry : NoDup ps.*1 → same_key page ps ps next entry = next.
Proof.
  intros Hn. destruct entry as [key valid]. unfold same_key, get_param, has_param. destruct (decide (units key ∈ ps.*1)) as [Hin|Hni].
  - apply list_elem_of_fmap in Hin as ([n v] & E & Hin). cbn in E. subst n. rewrite (getAll_one _ _ _ Hn Hin). cbn [head]. by rewrite bool_decide_eq_true_2.
  - rewrite getAll_none by done. cbn [head]. rewrite (bool_decide_eq_false_2 (units key ∈ _)) by done. done.
Qed.
Lemma same_keys_equal page (ps : Params) next keys : NoDup ps.*1 → foldl (same_key page ps ps) next keys = next.
Proof. intros Hn. revert next. induction keys as [|e keys IH]; intros next; cbn; [done|]. by rewrite same_key_equal, IH. Qed.

Lemma own_query page opts : link_ready page opts →
  default [] (query_of (pageHash page (Some opts))) = written_query (pageHash page (Some opts)) ∧
  hasValidRouteEncoding (written_query (pageHash page (Some opts))) = true.
Proof.
  intros Hr. assert (H16 : writes16 (hash_writes page opts)).
  { apply Forall_forall. intros [k t] (valid & Hk & Ho & _)%hash_writes_elem; [|done]. by destruct (proj2 Hr _ _ _ Hk Ho). }
  rewrite pageHash_ready, write_all_eq, written_query_hash, query_of_hash by (done || by apply hash_writes_nodup || by apply written_params16).
  split; [by case_bool_decide as E; [rewrite E|]|]. apply link_query_valid. by apply written_params16.
Qed.

(** The router's own hash changes nothing on the page. *)
Theorem own_hash_keeps page cur : link_ready page cur → samePageOpts page (Some cur) (pageHash page (Some cur)) false = Kept.
Proof.
  intros Hr. unfold samePageOpts. destruct (own_query _ _ Hr) as [-> ->]. rewrite own_params by done. cbn [negb default from_option id andb].
  set (ps := _ <$> hash_writes page cur). assert (Hn : NoDup ps.*1).
  { assert (ps.*1 = units <$> (hash_writes page cur).*1) as -> by (unfold ps; by rewrite <-!list_fmap_compose).
    apply NoDup_fmap_2; [intros a b; apply units_inj|by apply hash_writes_nodup]. }
  rewrite same_keys_equal by done. destruct (own_params_get page cur "messageId" Hr) as [_ Hm]. fold ps in Hm. rewrite Hm.
  case_bool_decide as Hd; [|by rewrite bool_decide_eq_true_2]. destruct Hd as [v (_ & valid & t & _ & _ & _ & Hc)%durable_lookup]. rewrite (Hc eq_refl). by rewrite bool_decide_eq_true_2.
Qed.
End routes.

(** ** On a host *)
Definition sample_query : text := units "user = " ++ [233; 55357; 56832] ++ units " & port:443 + 50%".
Definition sample_log_opts : NavOpts := {["logQuery"%string := Text sample_query]}.

Example sample_log_hash : pageHash (H := sample_host) P_logs (Some sample_log_opts) = units "#/logs?logQuery=user%20%3D%20%C3%A9%F0%9F%98%80%20%26%20port%3A443%20%2B%2050%25".
Proof. vm_compute. reflexivity. Qed.

Lemma sample_ready : link_ready (H := sample_host) P_logs sample_log_opts.
Proof.
  split; [reflexivity|]. intros key valid t _ Ht. unfold sample_log_opts in Ht. apply lookup_singleton_Some in Ht as [<- [= <-]]. unfold link_value. split; [by apply units16_b|].
  split; [reflexivity|]. split; [reflexivity|]. intros Hu. exfalso. revert Hu. by apply (bool_decide_eq_false_1 _).
Qed.

Lemma refresh_keeps_link_witness :
  routeFromLocation (H := sample_host) (pageHash (H := sample_host) P_logs (Some sample_log_opts)) = mkRoute P_logs (Some sample_log_opts) false.
Proof.
  rewrite (refresh_keeps_link (H := sample_host) P_logs sample_log_opts); [vm_compute; reflexivity|reflexivity|exact sample_ready].
Defined.

(** The hash of another query, on the page with a severity in memory and a request to ask *)
Definition sample_memory : NavOpts := <["ask"%string := Text (units "why?")]> (<["window"%string := Value 24]> sample_log_opts).
Definition sample_link : text := units "#/logs?from=now-24h&rule=SSH%20brute%20force".

Lemma sample_memory_ready : link_ready (H := sample_host) P_logs sample_memory.
Proof.
  split; [reflexivity|]. intros key valid t Hk Ht. unfold sample_memory in Ht. apply lookup_insert_Some in Ht as [[<- [= <-]]|[_ Ht]].
  - exfalso. assert (Hn : "ask"%string ∉ (hashKeys (H := sample_host) P_logs).*1) by by apply (bool_decide_eq_false_1 _).
    apply Hn, list_elem_of_fmap. by exists ("ask"%string, valid).
  - apply lookup_insert_Some in Ht as [[_ [=]]|[_ Ht]]. by apply (proj2 sample_ready).
Qed.

(** Back to the plain page, and a link with values of its own *)
Lemma traversal_follows_hash_witness :
  let back := default ∅ (same_opts (Some sample_memory) (samePageOpts (H := sample_host) P_logs (Some sample_memory) (units "#/logs") true)) in
  let link := default ∅ (same_opts (Some sample_memory) (samePageOpts (H := sample_host) P_logs (Some sample_memory) sample_link true)) in
  (back !! "logQuery"%string = None ∧ back !! "window"%string = Some (Value 24) ∧ back !! "ask"%string = None) ∧
  link = <["from"%string := Text (units "now-24h")]> (<["rule"%string := Text (units "SSH brute force")]> {["window"%string := Value 24]}).
Proof.
  pose proof (traversal_follows_hash (H := sample_host) P_logs (Some sample_memory)) as Ht. split.
  - destruct (Ht (units "#/logs") sample_memory_ready) as (_ & Hk & _). specialize (Hk ltac:(vm_compute; reflexivity)).
    split_and!; rewrite Hk; vm_compute; reflexivity.
  - destruct (Ht sample_link sample_memory_ready) as (_ & _ & Hp). rewrite (Hp _ ltac:(vm_compute; reflexivity)). vm_compute. reflexivity.
Defined.

(** The section of a retired page is looked up in a plain object, so a member every object has counts as one:
    [#/constructor] is no page and no redirect, and is rewritten to a section of Settings all the same. *)
Example inherited_member_redirects :
  isSettingsRedirect (units "constructor") = false ∧ page_of (units "constructor") = None ∧
  settingsRedirectHash (H := sample_host) (units "constructor") = Some (units "#/settings?s=function () { [native code] }").
Proof. vm_compute. done. Qed.
