(* ===== verification/NavRegistrySpec.v ===== *)
(** * The rail and the router: what a row opens *)

From S2P Require Import Prelude JsText NavRegistry RouteValues Router RouterSpec.
Local Open Scope string_scope.
Local Open Scope list_scope.

(** Every entry that opens the page is visible to the viewer. *)
Definition page_readable (page : PageId) (has : Grants) : bool :=
  forallb (λ c, negb (bool_decide (child_dest c = page)) || navVisible (nc_perm c) (nc_enabled c) has) NAV_CHILDREN
  && forallb (λ f, negb (bool_decide (f_id f = page)) || navVisible (f_perm f) (f_enabled f) has) FEATURES.

(** The grants the registry asks about *)
Definition grants (has : Grants) : list bool :=
  (λ p, has (np_resource p) (np_action p)) <$>
    [METRICS_VIEW; CASES_READ; SOURCES_READ; COST_VIEW; mkNavPerm "proposals" "read"; mkNavPerm "audit" "view"; mkNavPerm "automation" "read"].

(** Every page of the registry has its row or is routable without one, and the modules load. *)
Example registry_loads : is_Some (nav_groups FEATURES) ∧ is_Some (nav_footer FEATURES) ∧ length PAGE_IDS = 39%nat ∧ NoDup PAGE_IDS.
Proof. split_and!; [by eexists; vm_compute|by eexists; vm_compute|by vm_compute|by apply (bool_decide_unpack _); vm_compute]. Qed.

(** Neither an alias nor a page that moved into Settings *)
Definition own_address (page : PageId) : bool :=
  match page with
  | P_account | P_security | P_sessions | P_users | P_roles | P_admin_sessions => false
  | P_analytics | P_dashboard | P_playbooks | P_catalog | P_scans => false
  | _ => true
  end.
Lemma own_address_spec page : own_address page = true → routable page ∧ PAGE_REDIRECTS page = None.
Proof. by destruct page; intros E; try discriminate E; vm_compute. Qed.

Definition row_ok (has : Grants) (item : NavItem) : bool :=
  negb (navVisible (ni_perm item) (ni_enabled item) has)
  || page_readable (navTarget item has) has && own_address (navTarget item has).

Lemma rows_ok_by has m c s co p a t : grants has = [m; c; s; co; p; a; t] → forallb (row_ok has) NAV_ITEMS = true.
Proof.
  intros E. unfold grants in E. cbn in E. injection E as Em Ec Es Eco Ep Ea Et.
  vm_compute in Em, Ec, Es, Eco, Ep, Ea, Et |- *. rewrite Em, Ec, Es, Eco, Ep, Ea, Et. destruct m, c, s, co, p, a, t; vm_compute; reflexivity.
Qed.
Lemma rows_ok has : forallb (row_ok has) NAV_ITEMS = true.
Proof. exact (rows_ok_by has _ _ _ _ _ _ _ eq_refl). Qed.

(** C38. Whatever the viewer's grants, pressing a row they see opens a page every entry of which they may read,
    at an address of its own: the group rows fall back to a child rather than a page that would answer 403. *)
Theorem row_opens_readable `{RouterHost} (has : Grants) item :
  item ∈ NAV_ITEMS → navVisible (ni_perm item) (ni_enabled item) has = true →
  let page := navTarget item has in page_readable page has = true ∧ routeFromLocation (pageHash page None) = mkRoute page None false.
Proof.
  intros Hi Hv. pose proof (rows_ok has) as Hr. rewrite forallb_forall in Hr. specialize (Hr item (proj1 (list_elem_of_In _ _) Hi)). unfold row_ok in Hr. rewrite Hv in Hr.
  apply andb_true_iff in Hr as [Hp [H1 H2]%own_address_spec]. split; [exact Hp|]. by apply route_of_bare.
Qed.

(** A viewer of cost alone: Analytics opens Cost, Overview the Cyber Defence Center. *)
Definition cost_viewer : Grants := λ resource action, bool_decide (resource = "cost") && bool_decide (action = "view").
Lemma row_opens_readable_witness :
  ∃ item, navItem P_analytics = Some item ∧ navTarget item cost_viewer = P_cost ∧ page_readable P_cost cost_viewer = true ∧
          routeFromLocation (H := sample_host) (pageHash (H := sample_host) P_cost None) = mkRoute P_cost None false.
Proof.
  eexists. split; [vm_compute; reflexivity|]. set (item := mkNavItem _ _ _ _ _ _ _ _ _).
  assert (Hi : item ∈ NAV_ITEMS) by (vm_compute; do 8 right; left).
  assert (Ht : navTarget item cost_viewer = P_cost) by (vm_compute; reflexivity).
  pose proof (row_opens_readable (H := sample_host) cost_viewer item Hi eq_refl) as Hr. cbv zeta in Hr. rewrite Ht in Hr. exact (conj Ht Hr).
Defined.
