(* ===== verification/RouterProvider.v ===== *)
(** * The router provider: soc/router.tsx, [RouterProvider] and [useNavigationBlocker]

    The state is the provider's (page, options, blockers, the pending question, the hash it last wrote) with the
    browser's address and the [hashchange] events it has queued. An operation is a callback: what the code does
    up to its return, React's state updates included. *)

From S2P Require Import Prelude JsText DisplayText Zip UrlParams NavRegistry RouteValues Router.
Local Open Scope Z_scope.

(** ** The address: [location.hash] as the URL parser stores it *)

(** Bytes a fragment keeps *)
Definition fragment_plain (b : Z) : bool := in_range 33 126 b && negb (is_one_of "<>`" b) && negb (b =? QUOTE).
Definition fragment_byte (b : Z) : text := if fragment_plain b then [b] else percent_byte b.
Definition fragment (t : text) : text := concat (fragment_byte <$> encode (List.filter (λ c, negb ((c =? TAB) || (c =? LF) || (c =? CR))) t)).

(** What [location.hash] reads after [v] was assigned: one [#] at the front is dropped, an empty fragment reads as empty. *)
Definition location_hash (v : text) : text :=
  let f := fragment (match v with c :: t => if c =? HASH then t else v | [] => [] end) in
  if bool_decide (f = []) then [] else HASH :: f.

(** ** Navigation blockers *)
Record NavigationBlockerOptions := mkBlocker {
  b_title : text; b_description : option text; b_confirmLabel : option text; b_cancelLabel : option text; b_sameRoute : bool }.

(** [pendingNavigation]; [pendingRef] is whether there is one. *)
Record PendingNavigation := mkPending { pn_page : PageId; pn_opts : option NavOpts; pn_blocker : NavigationBlockerOptions }.

Record Shell := mkShell {
  s_page : PageId;
  s_opts : option NavOpts;
  s_hash : text;
  (* the [newURL] hashes of the events not yet delivered *)
  s_queue : list text;
  s_echo : option text;
  s_blockers : list (nat * NavigationBlockerOptions);
  s_next : nat;
  s_pending : option PendingNavigation
}.

Definition set_route (page : PageId) (opts : option NavOpts) (s : Shell) : Shell :=
  mkShell page opts (s_hash s) (s_queue s) (s_echo s) (s_blockers s) (s_next s) (s_pending s).
Definition set_hash (hash : text) (queue : list text) (s : Shell) : Shell :=
  mkShell (s_page s) (s_opts s) hash queue (s_echo s) (s_blockers s) (s_next s) (s_pending s).
Definition set_echo (echo : option text) (s : Shell) : Shell :=
  mkShell (s_page s) (s_opts s) (s_hash s) (s_queue s) echo (s_blockers s) (s_next s) (s_pending s).
Definition set_blockers (blockers : list (nat * NavigationBlockerOptions)) (next : nat) (s : Shell) : Shell :=
  mkShell (s_page s) (s_opts s) (s_hash s) (s_queue s) (s_echo s) blockers next (s_pending s).
Definition set_pending (pending : option PendingNavigation) (s : Shell) : Shell :=
  mkShell (s_page s) (s_opts s) (s_hash s) (s_queue s) (s_echo s) (s_blockers s) (s_next s) pending.

Section provider.
Context `{RouterHost}.

(** [window.location.hash = v]: a new fragment queues an event. *)
Definition assign_hash (v : text) (s : Shell) : Shell :=
  let h := location_hash v in
  if bool_decide (h = s_hash s) then s else set_hash h (s_queue s ++ [h]) s.

(** [history.replaceState]: no event *)
Definition replaceHash (v : text) (s : Shell) : Shell := set_hash (location_hash v) (s_queue s) s.

Record Target := mkTarget { t_page : PageId; t_opts : option NavOpts; t_hash : text }.

(** [None]: [encodeURIComponent] throws. *)
Definition resolveNavigation (target : PageId) (targetOpts : option NavOpts) : option Target :=
  match settingsRedirectHash (units (page_name target)) with
  | Some redirect => Some (mkTarget P_settings None redirect)
  | None =>
      let r := redirectRoute target targetOpts in
      let values := default ∅ (r_opts r) in
      if bool_decide (r_page r = P_settings) && negb (bool_decide (text_at values "section" = [])) then
        hash ← settingsSectionHash (text_at values "section") (text_at values "anchor");
        Some (mkTarget (r_page r) (r_opts r) hash)
      else Some (mkTarget (r_page r) (r_opts r) (pageHash (r_page r) (r_opts r)))
  end.

Definition commit_target (target : Target) (s : Shell) : Shell :=
  let s := set_route (t_page target) (t_opts target) s in
  if bool_decide (s_hash s = t_hash target) then s
  else if changesOnlyView (t_page target) (s_hash s) (t_hash target) then replaceHash (t_hash target) s
  else let s := assign_hash (t_hash target) s in set_echo (Some (s_hash s)) s.

Definition commitNavigation (next : PageId) (nextOpts : option NavOpts) (s : Shell) : Shell :=
  match resolveNavigation next nextOpts with Some target => commit_target target s | None => s end.

(** The blocker that is asked: the last that matches *)
Definition asked (target : Target) (s : Shell) : option NavigationBlockerOptions :=
  let leaving := negb (bool_decide (t_page target = s_page s)) in
  let changing := negb (bool_decide (t_hash target = s_hash s)) in
  last (List.filter (λ b, leaving || (changing && b_sameRoute b)) (s_blockers s).*2).

Definition navigate (next : PageId) (nextOpts : option NavOpts) (s : Shell) : Shell :=
  match resolveNavigation next nextOpts with
  | None => s
  | Some target =>
      match asked target s with
      | Some blocker => match s_pending s with Some _ => s | None => set_pending (Some (mkPending next nextOpts blocker)) s end
      | None => commitNavigation next nextOpts s
      end
  end.

(** The rest of the handler: the address is a page's own. *)
Definition apply_route (s : Shell) : Shell :=
  let route := routeFromLocation (s_hash s) in
  let s := if r_redirected route then replaceHash (pageHash (r_page route) (r_opts route)) s else s in
  let own := bool_decide (s_echo s = Some (s_hash s)) in
  let s := set_echo None s in
  if bool_decide (s_page s = r_page route) then
    if own then s else set_route (s_page s) (same_opts (s_opts s) (samePageOpts (s_page s) (s_opts s) (s_hash s) true)) s
  else set_route (r_page route) (r_opts route) s.

(** [onHashChange]; [fired] is the hash of the event's [newURL], where it has one. *)
Definition onHashChange (fired : option text) (s : Shell) : Shell :=
  if match fired with Some f => negb (bool_decide (f = s_hash s)) | None => false end then s
  else
    match settingsRedirectHash (rawPageOf (s_hash s)) with
    | Some redirect => if bool_decide (s_hash s = redirect) then apply_route s else assign_hash redirect s
    | None => apply_route s
    end.

(** The first render and the mount effect, at an address *)
Definition boot (hash : text) : Shell :=
  let route := routeFromLocation hash in
  let s := mkShell (r_page route) (r_opts route) hash [] None [] 0 None in
  let initialRaw := rawPageOf hash in
  match settingsRedirectHash initialRaw with
  | Some redirect => if bool_decide (hash = redirect) then s else assign_hash redirect s
  | None =>
      if r_redirected route then replaceHash (pageHash (r_page route) (r_opts route)) s
      else if bool_decide (initialRaw = units (page_name (r_page route))) then s
      else assign_hash (units "#/" ++ units (page_name (r_page route))) s
  end.

(** ** Histories *)
Inductive Op :=
  | Navigate (page : PageId) (opts : option NavOpts)
  (* the dialog's two answers *)
  | Confirm
  | Dismiss
  (* the effect of [useNavigationBlocker] and its cleanup *)
  | Register (options : NavigationBlockerOptions)
  | Unregister (token : nat)
  (* Back, Forward, a typed or pasted address *)
  | GoTo (hash : text)
  (* the browser delivers the next event *)
  | Fire.

Definition step (op : Op) (s : Shell) : Shell :=
  match op with
  | Navigate page opts => navigate page opts s
  | Confirm => match s_pending s with Some target => commitNavigation (pn_page target) (pn_opts target) (set_pending None s) | None => s end
  | Dismiss => set_pending None s
  | Register options => set_blockers (s_blockers s ++ [(s_next s, options)]) (S (s_next s)) s
  | Unregister token => set_blockers (List.filter (λ b, negb (b.1 =? token)%nat) (s_blockers s)) (s_next s) s
  | GoTo hash => assign_hash hash s
  | Fire => match s_queue s with f :: queue => onHashChange (Some f) (set_hash (s_hash s) queue s) | [] => s end
  end.
Definition run (ops : list Op) (s : Shell) : Shell := foldl (λ s op, step op s) s ops.

(** Every queued event is delivered. One more than the queue is enough: a retired address queues one event for its section. *)
Definition settle (s : Shell) : Shell := Nat.iter (S (length (s_queue s))) (step Fire) s.

(** What the dialog shows *)
Definition confirm_label (b : NavigationBlockerOptions) : text := default (units "Leave page") (b_confirmLabel b).
Definition cancel_label (b : NavigationBlockerOptions) : text := default (units "Keep editing") (b_cancelLabel b).
End provider.
