(* ===== verification/RouterProviderSpec.v ===== *)
(** * The provider: its addresses, the invariant that the page shown is the page the address names, and guards *)

From S2P Require Import Prelude JsText DisplayText DisplaySpec TextLines Zip UrlParams NavRegistry RouteValues Router RouterSpec RouterProvider.
Local Open Scope Z_scope.

(** ** Fragments *)
Lemma fragment_plain_spec c : fragment_plain c = true ↔ 33 ≤ c ≤ 126 ∧ c ≠ 60 ∧ c ≠ 62 ∧ c ≠ 96 ∧ c ≠ 34.
Proof.
  unfold fragment_plain, is_one_of, in_range, QUOTE. change (units "<>`") with [60; 62; 96]. rewrite !andb_true_iff, !negb_true_iff, bool_decide_eq_false, !not_elem_of_cons.
  split; [|intros ?; split_and!; try lia; apply not_elem_of_nil]. lia.
Qed.

Definition plain_hash (t : text) : Prop := Forall (λ c, fragment_plain c = true) t.

Lemma encode_ascii_cons c t : 0 ≤ c < 128 → encode (c :: t) = c :: encode t.
Proof.
  intros Hc. cbn [encode]. replace (is_high c) with false by (unfold is_high; lia). replace (is_low c) with false by (unfold is_low; lia).
  unfold utf8_point. by replace (c <? 128) with true by lia.
Qed.

Lemma fragment_app a b : plain_hash a → fragment (a ++ b) = a ++ fragment b.
Proof.
  unfold fragment. induction 1 as [|c a Hc _ IH]; [done|]. pose proof (proj1 (fragment_plain_spec c) Hc) as Hr. cbn [app List.filter].
  replace ((c =? TAB) || (c =? LF) || (c =? CR)) with false by (unfold TAB, LF, CR; lia). cbn [negb]. rewrite encode_ascii_cons by lia. rewrite fmap_cons. cbn [concat].
  rewrite IH. unfold fragment_byte at 1. by rewrite Hc.
Qed.

Lemma location_hash_plain t : plain_hash t → t ≠ [] → location_hash (HASH :: t) = HASH :: t.
Proof.
  intros Ht Hne. unfold location_hash. rewrite Z.eqb_refl. pose proof (fragment_app t [] Ht) as E. rewrite app_nil_r in E. rewrite E. cbn. rewrite app_nil_r.
  by rewrite bool_decide_eq_false_2.
Qed.

Lemma query_char_fragment c : query_char c → fragment_plain c = true.
Proof.
  intros Hc. apply fragment_plain_spec. destruct (query_char_not c Hc) as (Hr & _). destruct Hc as [[Hf| ->]|[->| ->]]; unfold PERCENT, AMPERSAND, EQUALS; try lia.
  revert Hf. unfold form_plain, alnum, is_upper, is_lower, is_digit, in_range, is_one_of. rewrite !orb_true_iff, bool_decide_eq_true.
  intros [|Hf]; [lia|]. repeat (apply elem_of_cons in Hf as [->|Hf]; [vm_compute; repeat split; discriminate|]). by apply not_elem_of_nil in Hf.
Qed.

Lemma name_plain p : plain_hash (units (page_name p)).
Proof. eapply Forall_impl; [apply page_name_chars|]. unfold name_char. intros c Hc. apply fragment_plain_spec. lia. Qed.

(** ** The hashes the router writes *)
Definition js_opts (o : option NavOpts) : Prop := ∀ k t, default ∅ o !! k = Some (Text t) → units16 t.

Section provider.
Context `{RouterHost}.
Implicit Types (page : PageId) (opts : NavOpts).

Lemma set_param_params16 ps key v : params16 ps → units16 key → units16 v → params16 (set_param ps key v).
Proof.
  intros Hp Hk Hv%usv_units16. unfold set_param. destruct (has_param ps key); [|apply Forall_app; split; [done|by constructor]].
  generalize false. induction Hp as [|p ps Hp Hps IH]; intros done'; [constructor|]. case_decide; [destruct done'; [apply IH|constructor; [done|apply IH]]|constructor; [done|apply IH]].
Qed.
Lemma write_all_params16 writes : writes16 writes → params16 (write_all writes).
Proof.
  unfold write_all. assert (Hn : params16 []) by constructor. revert Hn. generalize (@nil (text * text)). intros ps Hps Hw. revert ps Hps.
  induction Hw as [|w writes Hv _ IH]; intros ps Hps; cbn; [done|]. apply IH, set_param_params16; [done|apply units_units16|done].
Qed.

Lemma text_at_units opts k : js_opts (Some opts) → units16 (text_at opts k).
Proof. intros Ho. unfold text_at. destruct (opts !! k) as [[t|n]|] eqn:E; [by apply (Ho k)|constructor..]. Qed.

Lemma hash_writes_units page opts : js_opts (Some opts) → writes16 (hash_writes page opts).
Proof.
  intros Ho. assert (Hp : ∀ key, writes16 (set_if_present opts key)).
  { intros key. unfold set_if_present. case_bool_decide; constructor; [by apply text_at_units|constructor]. }
  unfold hash_writes. repeat apply Forall_app_2.
  - case_match; [apply Hp|constructor].
  - case_match; [repeat apply Forall_app_2; apply Hp|constructor].
  - case_match; [constructor; [by apply text_at_units|constructor]|constructor].
  - apply Forall_bind, Forall_true. intros [key valid]. unfold set_if_valid. cbn. destruct (opts !! key) as [[t|n]|] eqn:E; [|constructor..].
    case_match; constructor; [by apply (Ho key)|constructor].
Qed.

Lemma hash_of_plain page ps : params16 ps → ∃ t, hash_of page ps = HASH :: t ∧ plain_hash t ∧ t ≠ [].
Proof.
  intros Hp. rewrite hash_of_eq by done. exists (SLASH :: units (page_name page) ++ query_part ps). split_and!; [done| |done].
  constructor; [by apply fragment_plain_spec|]. apply Forall_app_2; [apply name_plain|]. unfold query_part. case_bool_decide; constructor; [by apply fragment_plain_spec|].
  eapply Forall_impl; [by apply link_query_chars|apply query_char_fragment].
Qed.

Lemma pageHash_plain page o : js_opts o → location_hash (pageHash page o) = pageHash page o.
Proof.
  intros Ho. assert (Hp : ∃ p ps, pageHash page o = hash_of p ps ∧ params16 ps).
  { unfold pageHash. destruct (retired_tab page _) as [p|]; do 2 eexists; (split; [done|]; apply write_all_params16, hash_writes_units); [intros k t E; cbn in E; by rewrite lookup_empty in E|done]. }
  destruct Hp as (p & ps & -> & Hp). destruct (hash_of_plain p ps Hp) as (t & -> & Ht & Hne). by apply location_hash_plain.
Qed.

(** ** What an address names *)
Definition names (hash : text) page : Prop := settingsRedirectHash (rawPageOf hash) = None ∧ ∃ o, routeFromLocation hash = mkRoute page o false.

Lemma rawPageOf_written page ps : rawPageOf (hash_of page ps) = units (page_name page).
Proof.
  unfold hash_of. change (rawPageOf (units "#/" ++ ?x)) with (upto route_stop x). case_bool_decide.
  - rewrite app_nil_r. apply upto_all, name_no_stop.
  - apply upto_stop; [apply name_no_stop|done].
Qed.

Lemma page_no_member page : List.find (λ m, bool_decide (units m = units (page_name page))) OBJECT_MEMBERS = None.
Proof. destruct page; vm_compute; reflexivity. Qed.

Lemma routable_no_redirect page : routable page → settingsRedirectHash (units (page_name page)) = None.
Proof.
  unfold routable, isSettingsRedirect, settingsRedirectHash, section_of. rewrite page_no_member. intros Hr%bool_decide_eq_false. destruct (own_section _); [|done].
  exfalso. by apply Hr.
Qed.

Lemma ascii_clean t : Forall (λ c, 0 ≤ c < 128) t → clean t.
Proof.
  intros Ht. split; [eapply Forall_impl; [exact Ht|]; cbn; lia|]. induction Ht as [|c t Hc _ IH]; [done|].
  rewrite well_formed_cons; [done|unfold is_high; lia|unfold is_low; lia].
Qed.

Lemma navId_clean t : navId t = true → clean t.
Proof.
  unfold navId, all_of. rewrite !andb_true_iff, forallb_forall. intros [[Hf _] _]. apply ascii_clean. apply Forall_forall. intros c Hc%list_elem_of_In%Hf. revert Hc.
  unfold word_char, alnum, is_upper, is_lower, is_digit, in_range, is_one_of. rewrite !orb_true_iff, bool_decide_eq_true. intros [|Hc]; [lia|].
  repeat (apply elem_of_cons in Hc as [->|Hc]; [vm_compute; repeat split; discriminate|]). by apply not_elem_of_nil in Hc.
Qed.

(** A board or a tab is read back as it was written. *)
Lemma dashboards_stay opts : stays P_dashboards opts → stays P_dashboards (default ∅ (parseOpts P_dashboards (hash_of P_dashboards (write_all (hash_writes P_dashboards opts))))).
Proof.
  intros (_ & _ & Hb). specialize (Hb eq_refl). change (hash_writes P_dashboards opts) with (set_if_valid opts ("board"%string, navId) ++ []). rewrite app_nil_r.
  unfold set_if_valid. cbn [fst snd]. unfold text_at in Hb. destruct (opts !! "board"%string) as [[b|n]|]; [|by (split; [done|split; [done|intros _; by vm_compute]])..].
  destruct (navId b) eqn:En; [|by (split; [done|split; [done|intros _; by vm_compute]])]. cbn [andb orb negb bool_decide].
  rewrite bool_decide_eq_false_2 by done. cbn [negb orb]. pose proof (navId_clean _ En) as [H16 Hwf]. rewrite parse_written.
  - change (to_opts [("board"%string, b)]) with (<["board"%string := Text b]> (∅ : NavOpts)). unfold nonempty. case_decide as E; [by apply insert_non_empty in E|].
    split; [done|]. split; [done|]. intros _. unfold text_at. cbn [default from_option id]. by rewrite lookup_insert_eq.
  - constructor; [|constructor]. exists navId. cbn. split_and!; [by left|done| |done|by apply usv_id]. by intros ->.
  - by repeat constructor.
  - repeat constructor. apply not_elem_of_nil.
  - intros [Hm|Hm]%elem_of_cons; [done|by apply not_elem_of_nil in Hm].
Qed.

Lemma metrics_stay opts : stays P_metrics opts → stays P_metrics (default ∅ (parseOpts P_metrics (hash_of P_metrics (write_all (hash_writes P_metrics opts))))).
Proof.
  intros _. assert (Hw : hash_writes P_metrics opts ∈ [[]; [("tab", units "performance")]; [("tab", units "posture")]]%string).
  { unfold hash_writes. cbn -[METRICS_TAB text_at]. destruct (METRICS_TAB _) eqn:Et; [|by left]. apply bool_decide_eq_true in Et.
    apply elem_of_cons in Et as [->|Et]; [by right; left|]. apply elem_of_cons in Et as [->|Et]; [by right; right; left|by apply not_elem_of_nil in Et]. }
  apply elem_of_cons in Hw as [->|Hw]; [by vm_compute; split_and!|]. apply elem_of_cons in Hw as [->|Hw]; [by vm_compute; split_and!|].
  apply elem_of_cons in Hw as [->|Hw]; [by vm_compute; split_and!|by apply not_elem_of_nil in Hw].
Qed.

Lemma pageHash_names page o : routable page → stays page (default ∅ o) → names (pageHash page o) page.
Proof.
  intros Hp Hs. assert (Hh : pageHash page o = hash_of page (write_all (hash_writes page (default ∅ o)))) by (unfold pageHash; by destruct Hs as (_ & -> & _)).
  rewrite Hh. unfold names. rewrite rawPageOf_written. split; [by apply routable_no_redirect|]. unfold routeFromLocation. rewrite rawPageOf_written, Hp, page_of_name. cbn [default from_option id].
  eexists. apply stays_redirect. destruct (decide (page = P_dashboards)) as [->|Hd]; [by apply dashboards_stay|]. destruct (decide (page = P_metrics)) as [->|Hm]; [by apply metrics_stay|].
  split_and!; [by destruct Hs| |done]. unfold retired_tab. by rewrite bool_decide_eq_false_2.
Qed.

(** ** Settings addresses *)
Lemma settings_hash_names x : names (units "#/settings?s=" ++ x) P_settings.
Proof. split; [reflexivity|]. eexists. change (routeFromLocation (units "#/settings?s=" ++ x)) with (redirectRoute P_settings (parseOpts P_settings (units "#/settings?s=" ++ x))). apply stays_redirect. by split_and!. Qed.

Lemma settings_location x : location_hash (units "#/settings?s=" ++ x) = units "#/settings?s=" ++ fragment x.
Proof.
  unfold location_hash. change (units "#/settings?s=" ++ x) with (HASH :: units "/settings?s=" ++ x). cbv beta iota. rewrite Z.eqb_refl, fragment_app; [by rewrite bool_decide_eq_false_2|].
  apply Forall_forall. intros c Hc. assert (Hf : forallb fragment_plain (units "/settings?s=") = true) by reflexivity. rewrite forallb_forall in Hf. by apply Hf, list_elem_of_In.
Qed.

Lemma settings_location_id x : plain_hash x → location_hash (units "#/settings?s=" ++ x) = units "#/settings?s=" ++ x.
Proof. intros Hx. rewrite settings_location. f_equal. pose proof (fragment_app x [] Hx) as E. rewrite !app_nil_r in E. exact E. Qed.

Lemma redirect_settings id r : settingsRedirectHash id = Some r → ∃ x, r = units "#/settings?s=" ++ x.
Proof. unfold settingsRedirectHash. intros (x & _ & ->)%fmap_Some. by exists x. Qed.

Lemma component_char b : is_byte b → plain_hash (if component_plain b then [b] else percent_byte b).
Proof.
  intros Hb. destruct (component_plain b) eqn:E.
  - constructor; [|constructor]. apply fragment_plain_spec. revert E. unfold component_plain, alnum, is_upper, is_lower, is_digit, in_range, is_one_of. rewrite !orb_true_iff, bool_decide_eq_true.
    intros [|Hc]; [lia|]. repeat (apply elem_of_cons in Hc as [->|Hc]; [vm_compute; repeat split; discriminate|]). by apply not_elem_of_nil in Hc.
  - unfold percent_byte. assert (Hd : ∀ v, 0 ≤ v < 16 → fragment_plain (hex_digit v) = true) by (intros v Hv; apply query_char_fragment; left; left; by apply hex_plain).
    unfold is_byte in Hb. constructor; [by apply fragment_plain_spec|]. constructor; [apply Hd; Z.div_mod_to_equations; lia|]. constructor; [apply Hd; Z.div_mod_to_equations; lia|constructor].
Qed.

Lemma component_plain_hash t x : units16 t → encodeURIComponent t = Some x → plain_hash x.
Proof.
  unfold encodeURIComponent. intros Ht%encode_bytes. case_match; [|done]. intros [= <-]. apply (Forall_concat_map _ _ is_byte); [apply component_char|done].
Qed.

Lemma settingsSectionHash_plain section anchor h : units16 section → units16 anchor → settingsSectionHash section anchor = Some h → ∃ x, h = units "#/settings?s=" ++ x ∧ plain_hash x.
Proof.
  intros Hs Ha. unfold settingsSectionHash. destruct (encodeURIComponent section) as [s|] eqn:Es; [|done]. cbn [mbind option_bind]. pose proof (component_plain_hash _ _ Hs Es) as Hps.
  destruct (if bool_decide (anchor = []) then Some [] else _) as [a|] eqn:Ea; [|done]. cbn [mbind option_bind]. intros [= <-]. exists (s ++ a). split; [done|]. apply Forall_app_2; [done|].
  case_bool_decide; [injection Ea as <-; constructor|]. apply fmap_Some in Ea as (a' & Ea & ->). apply Forall_app_2; [|by eapply component_plain_hash].
  repeat (constructor; [by apply fragment_plain_spec|]). constructor.
Qed.

Lemma page_redirect page r : settingsRedirectHash (units (page_name page)) = Some r → ∃ x, r = units "#/settings?s=" ++ x ∧ plain_hash x.
Proof.
  unfold settingsRedirectHash, section_of. rewrite page_no_member. destruct (own_section _) as [sec|] eqn:Es; [|done]. intros [= <-]. exists (units sec). split; [done|].
  unfold own_section in Es. apply fmap_Some in Es as ([k v] & [Hin _]%List.find_some & ->).
  assert (Hf : forallb (λ e : string * string, forallb fragment_plain (units e.2)) SETTINGS_REDIRECTS = true) by reflexivity. rewrite forallb_forall in Hf. apply Hf in Hin. cbn in Hin.
  rewrite forallb_forall in Hin. apply Forall_forall. intros c Hc%list_elem_of_In. by apply Hin.
Qed.

Lemma no_redirect_routable page : settingsRedirectHash (units (page_name page)) = None → routable page.
Proof.
  unfold routable, isSettingsRedirect, settingsRedirectHash, section_of. destruct (own_section _); [done|]. intros _. apply bool_decide_eq_false. by intros [].
Qed.

(** Where a navigation goes is an address that names the page it shows. *)
Lemma target_names page o t : js_opts o → resolveNavigation page o = Some t → location_hash (t_hash t) = t_hash t ∧ names (t_hash t) (t_page t).
Proof.
  intros Ho. unfold resolveNavigation. destruct (settingsRedirectHash _) as [r|] eqn:Er.
  - destruct (page_redirect _ _ Er) as (x & -> & Hx). intros [= <-]. cbn [t_hash t_page]. split; [by apply settings_location_id|apply settings_hash_names].
  - assert (Hr : routable (r_page (redirectRoute page o)) ∧ stays (r_page (redirectRoute page o)) (default ∅ (r_opts (redirectRoute page o))) ∧ js_opts (r_opts (redirectRoute page o))).
    { destruct (r_redirected (redirectRoute page o)) eqn:Ed.
      - destruct (redirected_target _ _ Ed) as (H1 & H2 & [->|[Hc ->]]); (split; [done|]).
        + split; [|intros k t' E; cbn in E; by rewrite lookup_empty in E]. split; [done|]. split; [|done]. unfold retired_tab. by case_bool_decide.
        + rewrite Hc. split; [by split_and!|]. intros k t' E. cbn [default from_option id] in E. unfold closed_by_agent in E. apply lookup_singleton_Some in E as [_ [= <-]]. exact (units_units16 "agent").
      - destruct (redirect_stays _ _ Ed) as [Hs ->]. cbn. split; [by apply no_redirect_routable|done]. }
    destruct Hr as (Hp & Hs & Hj). cbv zeta. destruct (_ && _) eqn:Ese.
    + apply andb_true_iff in Ese as [Ep%bool_decide_eq_true _]. destruct (settingsSectionHash _ _) as [h|] eqn:Eh; [|done]. cbn [mbind option_bind]. intros [= <-]. cbn [t_hash t_page].
      apply settingsSectionHash_plain in Eh as (x & -> & Hx); [|by destruct (r_opts (redirectRoute page o)) as [v|]; [apply text_at_units|constructor]..].
      rewrite Ep. split; [by apply settings_location_id|apply settings_hash_names].
    + intros [= <-]. cbn [t_hash t_page]. split; [by apply pageHash_plain|by apply pageHash_names].
Qed.
End provider.

Section provider.
Context `{RouterHost}.
Implicit Types (page : PageId) (opts : NavOpts) (s : Shell).

(** The page shown is the page the address names. *)
Definition coherent s : Prop := names (s_hash s) (s_page s).

(** What every operation keeps: an address not read yet is the last event's. *)
Record Inv s : Prop := {
  inv_page : coherent s ∨ last (s_queue s) = Some (s_hash s);
  inv_pending : ∀ pn, s_pending s = Some pn → js_opts (pn_opts pn)
}.

(** An operation with options a program can hold *)
Definition op_js (op : Op) : Prop := match op with Navigate _ o => js_opts o | _ => True end.

Lemma redirected_names page o : r_redirected (redirectRoute page o) = true →
  let r := redirectRoute page o in location_hash (pageHash (r_page r) (r_opts r)) = pageHash (r_page r) (r_opts r) ∧ names (pageHash (r_page r) (r_opts r)) (r_page r).
Proof.
  intros Hr. cbv zeta. destruct (redirected_target _ _ Hr) as (H1 & H2 & [->|[-> ->]]).
  - split; [apply pageHash_plain; intros k t E; cbn in E; by rewrite lookup_empty in E|]. apply pageHash_names; [done|]. split; [done|]. split; [|done].
    unfold retired_tab. by case_bool_decide.
  - split; [by vm_compute|]. apply pageHash_names; [done|by split_and!].
Qed.

Lemma route_redirected hash : settingsRedirectHash (rawPageOf hash) = None → ∃ page o, routeFromLocation hash = redirectRoute page o ∧ routable page.
Proof.
  intros Hr. assert (Hs : isSettingsRedirect (rawPageOf hash) = false).
  { unfold isSettingsRedirect. apply bool_decide_eq_false. intros [x Hx]. unfold settingsRedirectHash, section_of in Hr. by rewrite Hx in Hr. }
  unfold routeFromLocation. rewrite Hs. do 2 eexists. split; [done|]. by apply routable_named.
Qed.

(** Reading the address makes the page follow it. *)
Lemma apply_route_spec s : settingsRedirectHash (rawPageOf (s_hash s)) = None →
  coherent (apply_route s) ∧ s_queue (apply_route s) = s_queue s ∧ s_pending (apply_route s) = s_pending s ∧ s_blockers (apply_route s) = s_blockers s ∧ s_echo (apply_route s) = None.
Proof.
  intros Hr. destruct (route_redirected _ Hr) as (page & o & Hro & Hp). unfold apply_route.
  set (route := routeFromLocation (s_hash s)). set (s1 := if r_redirected route then _ else s).
  assert (H1 : names (s_hash s1) (r_page route) ∧ s_queue s1 = s_queue s ∧ s_pending s1 = s_pending s ∧ s_blockers s1 = s_blockers s ∧ s_page s1 = s_page s).
  { unfold s1. destruct (r_redirected route) eqn:Er.
    - unfold route in *. rewrite Hro in *. destruct (redirected_names _ _ Er) as [El En]. cbn. rewrite El. done.
    - split; [|done]. split; [done|]. exists (r_opts route). fold route. rewrite <-Er. by destruct route. }
  destruct H1 as (Hn & Hq & Hpd & Hb & Hpg). clearbody s1. cbv zeta. cbn [s_page set_echo]. case_bool_decide as E; [case_bool_decide|]; unfold coherent; cbn; rewrite ?E; done.
Qed.

Lemma onHashChange_redirect s f r : f = s_hash s → settingsRedirectHash (rawPageOf (s_hash s)) = Some r →
  ∃ h, onHashChange (Some f) s = set_hash h (s_queue s ++ [h]) s ∧ names h P_settings.
Proof.
  intros -> Hr. destruct (redirect_settings _ _ Hr) as (x & ->). unfold onHashChange. rewrite bool_decide_eq_true_2 by done. cbn [negb]. rewrite Hr.
  assert (Hne : ∀ y, units "#/settings?s=" ++ y ≠ s_hash s).
  { intros y Hy. rewrite <-Hy in Hr. destruct (settings_hash_names y) as [Hn _]. congruence. }
  rewrite bool_decide_eq_false_2 by (intros E; by eapply Hne). unfold assign_hash. rewrite settings_location, bool_decide_eq_false_2 by apply Hne.
  eexists. split; [done|apply settings_hash_names].
Qed.

Lemma onHashChange_page s f : settingsRedirectHash (rawPageOf (s_hash s)) = None → f = s_hash s → onHashChange (Some f) s = apply_route s.
Proof. intros Hr ->. unfold onHashChange. rewrite bool_decide_eq_true_2 by done. cbn [negb]. by rewrite Hr. Qed.
Lemma onHashChange_stale s f : f ≠ s_hash s → onHashChange (Some f) s = s.
Proof. intros Hf. unfold onHashChange. by rewrite bool_decide_eq_false_2. Qed.

(** ** The invariant *)
Lemma fire_inv s : Inv s → Inv (step Fire s).
Proof.
  intros [Hp Hn]. cbn [step]. destruct (s_queue s) as [|f q] eqn:Eq; [by split; [rewrite Eq|]|].
  set (s' := set_hash (s_hash s) q s). assert (Hh : s_hash s' = s_hash s) by done.
  destruct (decide (f = s_hash s)) as [Ef|Ef].
  - destruct (settingsRedirectHash (rawPageOf (s_hash s'))) as [r|] eqn:Er.
    + destruct (onHashChange_redirect s' f r Ef Er) as (h & -> & _). split; [right; cbn; by rewrite last_snoc|exact Hn].
    + rewrite onHashChange_page by done. destruct (apply_route_spec s' Er) as (Hc & _ & Hpd & _). split; [by left|]. rewrite Hpd. exact Hn.
  - rewrite onHashChange_stale by done. split; [|exact Hn]. destruct Hp as [Hp|Hp]; [left; exact Hp|]. destruct q as [|g q]; [cbn in Hp; congruence|]. right. cbn. exact Hp.
Qed.

Lemma assign_inv v s : Inv s → Inv (assign_hash v s).
Proof. intros [Hp Hn]. unfold assign_hash. case_bool_decide; [by split|]. split; [right; cbn; by rewrite last_snoc|exact Hn]. Qed.

(** An accepted navigation shows its target at the target's address. *)
Lemma commit_spec page o t s : js_opts o → resolveNavigation page o = Some t →
  let s' := commitNavigation page o s in
  s_page s' = t_page t ∧ s_opts s' = t_opts t ∧ s_hash s' = t_hash t ∧ coherent s' ∧ s_pending s' = s_pending s ∧ s_blockers s' = s_blockers s ∧
  (s_queue s' = s_queue s ∨ s_queue s' = s_queue s ++ [t_hash t] ∧ s_echo s' = Some (t_hash t)).
Proof.
  intros Ho Ht. destruct (target_names _ _ _ Ho Ht) as [Hl Hn]. cbv zeta. unfold commitNavigation. rewrite Ht. unfold commit_target. cbv zeta. cbn [s_hash set_route].
  unfold coherent. case_bool_decide as E; [cbn; rewrite E; split_and!; try done; by left|]. destruct (changesOnlyView _ _ _).
  - cbn. rewrite Hl. split_and!; try done. by left.
  - unfold assign_hash. rewrite Hl. cbn [s_hash set_route]. rewrite bool_decide_eq_false_2 by congruence. cbn. split_and!; try done. by right.
Qed.

Lemma navigate_cases page o s :
  navigate page o s = s ∨ (∃ b, navigate page o s = set_pending (Some (mkPending page o b)) s ∧ s_pending s = None) ∨
  ∃ t, resolveNavigation page o = Some t ∧ asked t s = None ∧ navigate page o s = commitNavigation page o s.
Proof.
  unfold navigate. destruct (resolveNavigation page o) as [t|] eqn:Et; [|by left]. destruct (asked t s) as [b|] eqn:Ea; [|right; right; by exists t].
  destruct (s_pending s); [by left|]. right. left. by exists b.
Qed.

Lemma step_inv op s : op_js op → Inv s → Inv (step op s).
Proof.
  intros Ho Hi. pose proof Hi as [Hp Hn]. destruct op as [page o| | |b|tok|h|]; cbn [step]; [| |by split| by split| by split|by apply assign_inv|by apply fire_inv].
  - destruct (navigate_cases page o s) as [-> |[(b & -> & _)|(t & Ht & _ & ->)]]; [done|split; [exact Hp|by intros pn [= <-]]|].
    destruct (commit_spec _ _ _ s Ho Ht) as (_ & _ & _ & Hc & Hpd & _). split; [by left|]. rewrite Hpd. exact Hn.
  - destruct (s_pending s) as [pn|] eqn:Ep; [|by split; [|rewrite Ep]]. destruct (resolveNavigation (pn_page pn) (pn_opts pn)) as [t|] eqn:Et.
    + destruct (commit_spec _ _ _ (set_pending None s) (Hn _ eq_refl) Et) as (_ & _ & _ & Hc & Hpd & _). split; [by left|]. rewrite Hpd. done.
    + unfold commitNavigation. rewrite Et. by split.
Qed.

Lemma run_inv ops s : Forall op_js ops → Inv s → Inv (run ops s).
Proof. intros Ho. revert s. induction Ho as [|op ops Ho _ IH]; intros s Hi; cbn; [done|]. by apply IH, step_inv. Qed.

Lemma boot_inv hash : Inv (boot hash).
Proof.
  unfold boot. destruct (settingsRedirectHash (rawPageOf hash)) as [r|] eqn:Er.
  - destruct (redirect_settings _ _ Er) as (x & ->). rewrite bool_decide_eq_false_2 by (intros E; destruct (settings_hash_names x) as [Hx _]; congruence).
    unfold assign_hash. cbn [s_hash]. rewrite settings_location, bool_decide_eq_false_2; [split; [by right|done]|]. intros E. destruct (settings_hash_names (fragment x)) as [Hx _]. congruence.
  - destruct (route_redirected _ Er) as (page & o & Hro & Hp). destruct (r_redirected (routeFromLocation hash)) eqn:Ed.
    + rewrite Hro in *. destruct (redirected_names _ _ Ed) as [El En]. split; [left; unfold coherent; cbn; by rewrite El|done].
    + case_bool_decide as Ei; [|apply assign_inv]; (split; [left; split; [done|]; cbn; exists (r_opts (routeFromLocation hash)); rewrite <-Ed; by destruct (routeFromLocation hash)|done]).
Qed.

(** ** Delivering every event *)
Definition no_redirect s : Prop := settingsRedirectHash (rawPageOf (s_hash s)) = None.

Lemma fire_shrinks s f q : s_queue s = f :: q → no_redirect s → s_queue (step Fire s) = q ∧ no_redirect (step Fire s).
Proof.
  intros Hq Hr. cbn [step]. rewrite Hq. set (s' := set_hash (s_hash s) q s). destruct (decide (f = s_hash s')) as [Ef|Ef].
  - rewrite onHashChange_page by done. destruct (apply_route_spec s' Hr) as ([Hc _] & -> & _). done.
  - by rewrite onHashChange_stale.
Qed.

Lemma fires_empty n s : (length (s_queue s) ≤ n)%nat → no_redirect s → s_queue (Nat.iter n (step Fire) s) = [].
Proof.
  revert s. induction n as [|n IH]; intros s Hn Hr; [apply nil_length_inv; cbn; lia|]. rewrite Nat.iter_succ_r.
  destruct (s_queue s) as [|f q] eqn:Eq.
  - apply IH; cbn [step]; rewrite Eq; [rewrite Eq; cbn; lia|done].
  - destruct (fire_shrinks _ _ _ Eq Hr) as [Hq' Hr']. apply IH; [rewrite Hq'; cbn in Hn; lia|done].
Qed.

Lemma settle_empty s : s_queue (settle s) = [].
Proof.
  unfold settle. remember (length (s_queue s)) as n eqn:En. revert s En. induction n as [|n IH]; intros s En; rewrite Nat.iter_succ_r; destruct (s_queue s) as [|f q] eqn:Eq; try done.
  - cbn. by rewrite Eq.
  - injection En as ->. destruct (decide (no_redirect s)) as [Hr|Hr].
    { destruct (fire_shrinks _ _ _ Eq Hr) as [Hq' Hr']. apply fires_empty; [rewrite Hq'; lia|done]. }
    cbn [step]. rewrite Eq. set (s' := set_hash (s_hash s) q s). destruct (decide (f = s_hash s')) as [Ef|Ef]; [|rewrite onHashChange_stale by done; by apply (IH s')].
    unfold no_redirect in Hr. destruct (settingsRedirectHash (rawPageOf (s_hash s))) as [r|] eqn:Er; [|done].
    destruct (onHashChange_redirect s' f r Ef Er) as (h & -> & [Hh _]). apply fires_empty; [cbn; rewrite length_app; cbn; lia|exact Hh].
Qed.

Lemma iter_inv n s : Inv s → Inv (Nat.iter n (step Fire) s).
Proof. intros Hi. induction n as [|n IH]; [done|]. by apply fire_inv. Qed.

(** C29. Whatever the viewer clicks, types or goes back to, once the browser has delivered its events the page
    shown is the page the address names, and the address is neither an alias nor a page that moved into Settings. *)
Theorem page_follows_url hash ops : Forall op_js ops →
  let s := settle (run ops (boot hash)) in
  s_queue s = [] ∧ settingsRedirectHash (rawPageOf (s_hash s)) = None ∧ ∃ o, routeFromLocation (s_hash s) = mkRoute (s_page s) o false.
Proof.
  intros Ho. cbv zeta. pose proof (settle_empty (run ops (boot hash))) as Hq. destruct (iter_inv (S (length (s_queue (run ops (boot hash))))) _ (run_inv _ _ Ho (boot_inv hash))) as [[Hc|Hl] _].
  - split; [exact Hq|exact Hc].
  - fold (settle (run ops (boot hash))) in Hl. by rewrite Hq in Hl.
Qed.

(** ** Guards *)

(** Any operation but the end of guard [tok] *)
Definition under_guard (tok : nat) (op : Op) : Prop := op_js op ∧ op ≠ Unregister tok.
(** The viewer or the browser changed the address: Back, Forward, a typed or pasted one. *)
Definition moved (ops : list Op) : Prop := ∃ h, GoTo h ∈ ops.

Lemma asked_leaving t s tok b : (tok, b) ∈ s_blockers s → t_page t ≠ s_page s → is_Some (asked t s).
Proof.
  intros Hb Hp. unfold asked. rewrite (bool_decide_eq_false_2 _ Hp). cbn [negb orb]. apply last_is_Some. intros E.
  assert (Hin : b ∈ List.filter (λ _, true) (s_blockers s).*2) by (apply list_elem_of_In, filter_In; split; [apply list_elem_of_In, list_elem_of_fmap; by exists (tok, b)|done]).
  rewrite E in Hin. by apply not_elem_of_nil in Hin.
Qed.
Lemma asked_changing t s tok b : (tok, b) ∈ s_blockers s → b_sameRoute b = true → t_hash t ≠ s_hash s → is_Some (asked t s).
Proof.
  intros Hb Hs Hh. unfold asked. rewrite (bool_decide_eq_false_2 _ Hh). cbn [negb]. apply last_is_Some. intros E.
  assert (Hin : b ∈ List.filter (λ b, negb (bool_decide (t_page t = s_page s)) || (true && b_sameRoute b)) (s_blockers s).*2).
  { apply list_elem_of_In, filter_In. rewrite Hs, orb_true_r. split; [apply list_elem_of_In, list_elem_of_fmap; by exists (tok, b)|done]. }
  rewrite E in Hin. by apply not_elem_of_nil in Hin.
Qed.

Lemma apply_route_page s : coherent s → s_page (apply_route s) = s_page s.
Proof. intros [_ [o Ho]]. unfold apply_route. rewrite Ho. cbn [r_redirected r_page set_echo s_page]. rewrite bool_decide_eq_true_2 by done. by case_bool_decide. Qed.

Lemma commit_blockers page o s : s_blockers (commitNavigation page o s) = s_blockers s.
Proof. unfold commitNavigation, commit_target, assign_hash. destruct (resolveNavigation page o); [|done]. cbv zeta. by repeat case_bool_decide || destruct (changesOnlyView _ _ _). Qed.

Lemma onHashChange_blockers f s : s_blockers (onHashChange f s) = s_blockers s.
Proof.
  assert (Ha : s_blockers (apply_route s) = s_blockers s) by (unfold apply_route; cbv zeta; destruct (r_redirected _); case_bool_decide; try case_bool_decide; done).
  unfold onHashChange, assign_hash. by repeat case_match.
Qed.

(** A guard stays until its own cleanup. *)
Lemma guard_step tok b op s : op ≠ Unregister tok → (tok, b) ∈ s_blockers s → (tok, b) ∈ s_blockers (step op s).
Proof.
  intros Ho Hb. destruct op as [page o| | |b'|t|h|]; cbn [step]; try done.
  - destruct (navigate_cases page o s) as [-> |[(b' & -> & _)|(t & _ & _ & ->)]]; [done|done|by rewrite commit_blockers].
  - destruct (s_pending s); [by rewrite commit_blockers|done].
  - cbn. apply elem_of_app. by left.
  - cbn. apply list_elem_of_In, filter_In. split; [by apply list_elem_of_In|]. cbn. rewrite (proj2 (Nat.eqb_neq _ _)); [done|congruence].
  - unfold assign_hash. by case_bool_decide.
  - destruct (s_queue s); [done|]. by rewrite onHashChange_blockers.
Qed.

Lemma guard_run tok b ops s : Forall (under_guard tok) ops → (tok, b) ∈ s_blockers s → (tok, b) ∈ s_blockers (run ops s).
Proof. intros Ho. revert s. induction Ho as [|op ops [_ Hop] _ IH]; intros s Hb; cbn; [done|]. by apply IH, guard_step. Qed.

(** A click under a guard asks before it leaves the page; with [sameRoute], before it leaves the address. *)
Lemma guarded_click tok b page o s : js_opts o → (tok, b) ∈ s_blockers s →
  let s' := step (Navigate page o) s in
  s_page s' = s_page s ∧ (b_sameRoute b = true → s_hash s' = s_hash s) ∧
  ∀ t, resolveNavigation page o = Some t → t_page t ≠ s_page s ∨ (b_sameRoute b = true ∧ t_hash t ≠ s_hash s) → is_Some (s_pending s').
Proof.
  intros Ho Hb. cbv zeta. cbn [step]. assert (Hask : ∀ t, t_page t ≠ s_page s ∨ (b_sameRoute b = true ∧ t_hash t ≠ s_hash s) → is_Some (asked t s)).
  { intros t [Hp|[Hs Hh]]; [by eapply asked_leaving|by eapply asked_changing]. }
  split_and!.
  - destruct (navigate_cases page o s) as [-> |[(b' & -> & _)|(t & Ht & Ha & ->)]]; [done|done|]. destruct (commit_spec _ _ _ s Ho Ht) as (-> & _).
    destruct (decide (t_page t = s_page s)) as [|Hne]; [done|]. destruct (Hask t (or_introl Hne)). congruence.
  - intros Hs. destruct (navigate_cases page o s) as [-> |[(b' & -> & _)|(t & Ht & Ha & ->)]]; [done|done|]. destruct (commit_spec _ _ _ s Ho Ht) as (_ & _ & -> & _).
    destruct (decide (t_hash t = s_hash s)) as [|Hne]; [done|]. destruct (Hask t (or_intror (conj Hs Hne))). congruence.
  - intros t Ht Hl. destruct (Hask t Hl) as [b' Ha]. unfold navigate. rewrite Ht, Ha. destruct (s_pending s) eqn:Ep; [by rewrite Ep|by eexists].
Qed.

(** At an address that was read, an event changes neither page nor address. *)
Lemma coherent_fire s : coherent s → s_page (step Fire s) = s_page s ∧ s_hash (step Fire s) = s_hash s ∧ coherent (step Fire s).
Proof.
  intros Hc. cbn [step]. destruct (s_queue s) as [|f q]; [done|]. set (s' := set_hash (s_hash s) q s). assert (Hc' : coherent s') by done.
  destruct (decide (f = s_hash s')) as [Ef|Ef]; [|rewrite onHashChange_stale by done; done].
  rewrite onHashChange_page by (done || by destruct Hc'). destruct (apply_route_spec s' ltac:(by destruct Hc')) as (Hc2 & _). split; [by apply (apply_route_page s')|]. split; [|done].
  unfold apply_route. destruct Hc' as [_ [o Ho]]. rewrite Ho. cbn [r_redirected r_page]. by repeat case_bool_decide.
Qed.

(** Without a change of the address from outside, every state is one whose address was read. *)
Lemma coherent_step op s : op_js op → Inv s → coherent s → (∀ h, op ≠ GoTo h) → coherent (step op s).
Proof.
  intros Ho Hi Hc Hg. destruct op as [page o| | |b'|t|h|]; cbn [step]; try done.
  - destruct (navigate_cases page o s) as [-> |[(b' & -> & _)|(t & Ht & _ & ->)]]; [done|done|]. by destruct (commit_spec _ _ _ s Ho Ht) as (_ & _ & _ & Hc' & _).
  - destruct (s_pending s) as [pn|] eqn:Ep; [|done]. unfold commitNavigation. destruct (resolveNavigation _ _) as [t|] eqn:Et; [|done].
    destruct (commit_spec _ _ t (set_pending None s) (inv_pending _ Hi _ Ep) Et) as (_ & _ & _ & Hc' & _). unfold commitNavigation in Hc'. by rewrite Et in Hc'.
  - by destruct (Hg h).
  - by apply coherent_fire.
Qed.

Lemma coherent_run ops s : Forall op_js ops → Inv s → coherent s → ¬ moved ops → coherent (run ops s).
Proof.
  intros Ho. revert s. induction Ho as [|op ops Hop _ IH]; intros s Hi Hc Hm; cbn; [done|]. apply IH; [by apply step_inv| |].
  - apply coherent_step; [done..|]. intros h ->. apply Hm. exists h. by left.
  - intros [h Hh]. apply Hm. exists h. by right.
Qed.

Lemma settled_coherent s : Inv s → coherent (settle s).
Proof.
  intros Hi. pose proof (settle_empty s) as Hq. destruct (iter_inv (S (length (s_queue s))) s Hi) as [[Hc|Hl] _]; [exact Hc|].
  fold (settle s) in Hl. by rewrite Hq in Hl.
Qed.

#[local] Instance moved_dec ops : Decision (moved ops).
Proof.
  induction ops as [|op ops [IH|IH]]; [right; intros [h Hh]; by apply not_elem_of_nil in Hh|left; destruct IH as [h Hh]; exists h; by right|].
  destruct op; try (right; intros [h' [[=]|Hh']%elem_of_cons]; apply IH; by exists h'). left. exists hash. by left.
Defined.

(** C30. What takes the viewer off a guarded page. From any settled state of the console in which an editor's guard is
    registered, and whatever happened since without that editor's leaving: a step changes the page only if it is the
    viewer's yes to the question, or the delivery of an address the browser changed itself (Back, Forward, a typed or
    pasted address), which the router cannot pause. A click never does: one that would leave opens the question, or one
    is open already. A guard that covers the page's other addresses keeps the address in the same way. *)
Theorem draft_protected hash pre tok b ops op :
  let s := settle (run pre (boot hash)) in let s1 := run ops s in let s2 := step op s1 in
  Forall op_js pre → (tok, b) ∈ s_blockers s → Forall (under_guard tok) ops → under_guard tok op →
  (s_page s2 ≠ s_page s1 → (op = Confirm ∧ is_Some (s_pending s1)) ∨ (op = Fire ∧ moved ops)) ∧
  (b_sameRoute b = true → s_hash s2 ≠ s_hash s1 → (op = Confirm ∧ is_Some (s_pending s1)) ∨ (∃ h, op = GoTo h) ∨ (op = Fire ∧ moved ops)) ∧
  (∀ page o t, op = Navigate page o → resolveNavigation page o = Some t →
     t_page t ≠ s_page s1 ∨ (b_sameRoute b = true ∧ t_hash t ≠ s_hash s1) → is_Some (s_pending s2)).
Proof.
  cbv zeta. set (s := settle (run pre (boot hash))). intros Hpre Hb Hops [Hop Hend]. pose proof (guard_run _ _ _ _ Hops Hb) as Hb1.
  assert (Hi : Inv s) by (apply iter_inv, run_inv; [done|apply boot_inv]).
  assert (Hc : ¬ moved ops → coherent (run ops s)).
  { intros Hm. apply coherent_run; [eapply Forall_impl; [exact Hops|by intros ? []]|done| |done]. apply settled_coherent, run_inv; [done|apply boot_inv]. }
  set (s1 := run ops s) in *. split_and!.
  - destruct op as [page o| | |b'|t|h|]; cbn [step]; try done.
    + intros Hp. by destruct (guarded_click tok b page o s1 Hop Hb1) as (Hq & _).
    + destruct (s_pending s1); [by left; eauto|done].
    + unfold assign_hash. by case_bool_decide.
    + intros Hp. right. split; [done|]. destruct (decide (moved ops)) as [|Hm]; [done|]. by destruct (coherent_fire s1 (Hc Hm)).
  - intros Hs. destruct op as [page o| | |b'|t|h|]; cbn [step]; try done.
    + intros Hp. destruct (guarded_click tok b page o s1 Hop Hb1) as (_ & Hq & _). destruct (Hp (Hq Hs)).
    + destruct (s_pending s1); [by left; eauto|done].
    + intros _. right. left. by exists h.
    + intros Hp. right. right. split; [done|]. destruct (decide (moved ops)) as [|Hm]; [done|]. by destruct (coherent_fire s1 (Hc Hm)) as (_ & ? & _).
  - intros page o t -> Ht Hl. by eapply guarded_click.
Qed.

(** ** The question *)
Definition no_answer (op : Op) : Prop := op ≠ Confirm ∧ op ≠ Dismiss.

Lemma apply_route_pending s : s_pending (apply_route s) = s_pending s.
Proof. unfold apply_route. cbv zeta. destruct (r_redirected _); case_bool_decide; try case_bool_decide; done. Qed.

Lemma onHashChange_pending f s : s_pending (onHashChange f s) = s_pending s.
Proof.
  unfold onHashChange, assign_hash. repeat (case_match; try done || apply apply_route_pending).
Qed.

Lemma commit_pending page o s : s_pending (commitNavigation page o s) = s_pending s.
Proof. unfold commitNavigation, commit_target, assign_hash. destruct (resolveNavigation page o); [|done]. cbv zeta. by repeat case_bool_decide || destruct (changesOnlyView _ _ _). Qed.

Lemma pending_step op s pn : no_answer op → s_pending s = Some pn → s_pending (step op s) = Some pn.
Proof.
  intros [Hc Hd] Hp. destruct op as [page o| | |b|t|h|]; try done; cbn [step].
  - destruct (navigate_cases page o s) as [-> |[(b & _ & Hn)|(t & _ & _ & ->)]]; [done|congruence|by rewrite commit_pending].
  - unfold assign_hash. by case_bool_decide.
  - destruct (s_queue s); [done|]. by rewrite onHashChange_pending.
Qed.

(** C31. A navigation a guard stopped waits as it was asked: later clicks, events and edits do not replace it.
    Confirming shows its target at its address; keeping on editing leaves everything but the question as it was. *)
Theorem confirm_takes_first page o t s ops :
  js_opts o → resolveNavigation page o = Some t → is_Some (asked t s) → s_pending s = None → Forall no_answer ops →
  let s1 := run (Navigate page o :: ops) s in
  (∃ b, s_pending s1 = Some (mkPending page o b)) ∧
  (let s2 := step Confirm s1 in s_page s2 = t_page t ∧ s_opts s2 = t_opts t ∧ s_hash s2 = t_hash t ∧ s_pending s2 = None) ∧
  step Dismiss s1 = set_pending None s1.
Proof.
  intros Ho Ht [b Ha] Hp Hops. cbv zeta. cbn [run foldl]. fold (run ops (step (Navigate page o) s)).
  assert (Hn : step (Navigate page o) s = set_pending (Some (mkPending page o b)) s) by (cbn [step]; unfold navigate; by rewrite Ht, Ha, Hp).
  assert (Hr : ∀ s, s_pending s = Some (mkPending page o b) → s_pending (run ops s) = Some (mkPending page o b)).
  { clear -Hops. induction Hops as [|op ops Hop _ IH]; intros s Hs; cbn; [done|]. by apply IH, pending_step. }
  rewrite Hn. specialize (Hr (set_pending (Some (mkPending page o b)) s) eq_refl). split; [by exists b|]. split; [|done]. cbn [step]. rewrite Hr. cbn [pn_page pn_opts].
  destruct (commit_spec page o t (set_pending None (run ops (set_pending (Some (mkPending page o b)) s))) Ho Ht) as (H1 & H2 & H3 & _ & H5 & _). done.
Qed.

(** ** Its own event *)

(** C32. An accepted navigation keeps what the address does not carry: once its own event is delivered the page
    and the options are still the ones asked for. The browser had no event left to deliver when it was made: behind one
    that was queued the echo can be skipped ([stale_echo]). *)
Theorem navigation_keeps_filters page o t s :
  js_opts o → resolveNavigation page o = Some t → asked t s = None → s_queue s = [] →
  let s' := settle (step (Navigate page o) s) in
  s_page s' = t_page t ∧ s_opts s' = t_opts t ∧ s_hash s' = t_hash t ∧ s_queue s' = [].
Proof.
  intros Ho Ht Ha Hq. cbv zeta. assert (Hn : step (Navigate page o) s = commitNavigation page o s) by (cbn [step]; unfold navigate; by rewrite Ht, Ha). rewrite Hn.
  destruct (commit_spec page o t s Ho Ht) as (Hp & Hop & Hh & Hc & _ & _ & Hqe). set (s1 := commitNavigation page o s) in *. clearbody s1.
  pose proof (settle_empty s1) as He. destruct Hqe as [Hq1|[Hq1 He1]]; rewrite Hq in Hq1.
  - assert (Hf : step Fire s1 = s1) by (cbn [step]; by rewrite Hq1). assert (Hs : settle s1 = s1) by (unfold settle; rewrite Hq1; exact Hf). rewrite Hs. done.
  - cbn [app] in Hq1. assert (Hf : step Fire s1 = set_echo None (set_hash (s_hash s1) [] s1)).
    { cbn [step]. rewrite Hq1. set (s2 := set_hash (s_hash s1) [] s1). rewrite onHashChange_page by (done || by destruct Hc). unfold apply_route. destruct Hc as [_ [o' Ho']]. cbn [s_hash s2 set_hash].
      rewrite Ho'. cbn [r_redirected r_page set_echo s_page s_echo s2 set_hash s_hash]. rewrite He1, Hh, !bool_decide_eq_true_2 by done. done. }
    assert (Hs : settle s1 = set_echo None (set_hash (s_hash s1) [] s1)).
    { unfold settle. rewrite Hq1. transitivity (step Fire (step Fire s1)); [done|]. by rewrite Hf. }
    rewrite Hs. done.
Qed.
End provider.

(** ** On a host *)
Definition sample_boot (hash : string) : Shell := boot (H := sample_host) (units hash).
Definition sample_run (ops : list Op) (s : Shell) : Shell := run (H := sample_host) ops s.
Definition sample_settle (s : Shell) : Shell := settle (H := sample_host) s.
Definition severity_high : NavOpts := {["severity"%string := Text (units "high")]}.
Definition draft_guard (sameRoute : bool) : NavigationBlockerOptions := mkBlocker (units "Discard changes?") None None None sameRoute.

Lemma js_none : js_opts None.
Proof. intros k t E. cbn in E. by rewrite lookup_empty in E. Qed.
Lemma js_severity_high : js_opts (Some severity_high).
Proof. intros k t E. cbn [default from_option id] in E. unfold severity_high in E. apply lookup_singleton_Some in E as [_ [= <-]]. exact (units_units16 "high"). Qed.

Definition sample_history : list Op := [Navigate P_metrics None; Fire; GoTo (units "#/scans"); Navigate P_chat None; GoTo (units "#/scans")].

Lemma page_follows_url_witness :
  let s := sample_settle (sample_run sample_history (sample_boot "#/roles")) in
  (s_queue s = [] ∧ settingsRedirectHash (H := sample_host) (rawPageOf (s_hash s)) = None ∧ ∃ o, routeFromLocation (H := sample_host) (s_hash s) = mkRoute (s_page s) o false)
  ∧ s_page s = P_case_manager ∧ s_hash s = units "#/case_manager?closedBy=agent".
Proof.
  split; [|split; vm_compute; reflexivity]. apply (page_follows_url (H := sample_host) (units "#/roles") sample_history).
  unfold sample_history. repeat (constructor; [first [exact I | exact js_none]|]). constructor.
Defined.

(** A board being edited: the library and other pages both ask. *)
Definition sample_board : Shell := sample_run [Register (draft_guard true)] (sample_boot "#/dashboards?board=b1").
Definition sample_clicks : list Op := [Navigate P_dashboards None; Navigate P_cases (Some severity_high); Dismiss; Fire].

Lemma draft_protected_witness :
  let s1 := sample_run sample_clicks (sample_settle sample_board) in let s2 := step (H := sample_host) (Navigate P_chat None) s1 in
  s_page s1 = P_dashboards ∧ s_page s2 = s_page s1 ∧ s_hash s2 = s_hash s1 ∧ is_Some (s_pending s2).
Proof.
  unfold sample_settle, sample_board, sample_run, sample_boot. destruct (draft_protected (H := sample_host) (units "#/dashboards?board=b1") [Register (draft_guard true)] 0 (draft_guard true) sample_clicks (Navigate P_chat None))
    as (Hp & Hh & Hq).
  - repeat constructor.
  - apply list_elem_of_In. vm_compute. by left.
  - unfold sample_clicks. repeat (constructor; [split; [first [exact I | exact js_none | exact js_severity_high]|discriminate]|]). constructor.
  - split; [exact js_none|discriminate].
  - split; [vm_compute; reflexivity|]. split_and!.
    + apply dec_stable. intros Hn. destruct (Hp Hn) as [[Ho _]|[Ho _]]; discriminate Ho.
    + apply dec_stable. intros Hn. destruct (Hh eq_refl Hn) as [[Ho _]|[[h Ho]|[Ho _]]]; discriminate Ho.
    + apply (Hq P_chat None (mkTarget P_chat None (units "#/chat")) eq_refl); [vm_compute; reflexivity|]. left. vm_compute. discriminate.
Defined.

(** Back, or an address typed over the board's: the page is left, and no question is asked. *)
Example address_bar_leaves :
  let s := sample_settle (sample_run [GoTo (units "#/chat")] sample_board) in s_page s = P_chat ∧ s_pending s = None.
Proof. vm_compute. done. Qed.

Lemma confirm_takes_first_witness :
  let s := step (H := sample_host) Confirm (sample_run (Navigate P_cases (Some severity_high) :: [Navigate P_chat None; Fire; Register (draft_guard false)]) sample_board) in
  s_page s = P_cases ∧ s_opts s = Some severity_high ∧ s_hash s = units "#/cases" ∧ s_pending s = None.
Proof.
  destruct (confirm_takes_first (H := sample_host) P_cases (Some severity_high) (mkTarget P_cases (Some severity_high) (units "#/cases")) sample_board
    [Navigate P_chat None; Fire; Register (draft_guard false)] js_severity_high) as (_ & Hs & _).
  - vm_compute. reflexivity.
  - eexists. vm_compute. reflexivity.
  - vm_compute. reflexivity.
  - repeat (constructor; [split; discriminate|]). constructor.
  - exact Hs.
Defined.

Lemma navigation_keeps_filters_witness :
  let s := sample_settle (step (H := sample_host) (Navigate P_cases (Some severity_high)) (sample_boot "#/overview")) in
  s_page s = P_cases ∧ s_opts s = Some severity_high ∧ s_hash s = units "#/cases" ∧ s_queue s = [].
Proof.
  apply (navigation_keeps_filters (H := sample_host) P_cases (Some severity_high) (mkTarget P_cases (Some severity_high) (units "#/cases")) (sample_boot "#/overview") js_severity_high).
  - vm_compute. reflexivity.
  - vm_compute. reflexivity.
  - vm_compute. reflexivity.
Defined.

(** Metrics, then its Posture tab before the event of the first: the event is skipped as outdated and the hash
    remembered as the router's own stays. A bare [#/metrics] typed later is taken for it, and changes nothing:
    the page still shows Posture. *)
Example stale_echo :
  let posture := {["tab"%string := Text (units "posture")]} : NavOpts in
  let s := sample_settle (sample_run [Navigate P_metrics None; Navigate P_metrics (Some posture); Fire; GoTo (units "#/metrics")] (sample_boot "#/cases")) in
  s_page s = P_metrics ∧ s_hash s = units "#/metrics" ∧ s_opts s = Some posture.
Proof. vm_compute. repeat split. Qed.

(** Without the pending hash the same address drops the tab. *)
Example typed_link_drops_tab :
  let posture := {["tab"%string := Text (units "posture")]} : NavOpts in
  let s := sample_settle (sample_run [Navigate P_metrics (Some posture); Fire; GoTo (units "#/metrics")] (sample_boot "#/cases")) in
  s_page s = P_metrics ∧ s_hash s = units "#/metrics" ∧ s_opts s = None.
Proof. vm_compute. repeat split. Qed.

(** [#/constructor] ends in Settings. *)
Example inherited_member_opens_settings :
  let s := sample_settle (sample_boot "#/constructor") in
  s_page s = P_settings ∧ s_hash s = units "#/settings?s=function%20()%20{%20[native%20code]%20}".
Proof. vm_compute. repeat split. Qed.
