(* ===== verification/RouteLink.v ===== *)
(** * Links inside the console: soc/route-link.ts

    Which href may render as a link, and what a click on it does. The URL parser of the browser is an interface. *)

From S2P Require Import Prelude JsText DisplayText DisplaySpec TextLines Zip UrlParams NavRegistry RouteValues Router RouterSpec.
Local Open Scope Z_scope.

(** [new URL(value, window.location.href)]: its protocol and origin, [None] where it throws; and the page's own origin *)
Class UrlParser := { url_protocol_origin : text → option (text * text); location_origin : text }.

(** [/[\t\n\r]/g] and the ends [/^[\u0000- ]+|[\u0000- ]+$/g] *)
Definition url_break (c : Z) : bool := (c =? TAB) || (c =? LF) || (c =? CR).
Definition url_edge (c : Z) : bool := in_range 0 32 c.
Definition url_value (href : text) : text :=
  let t := skip_while url_edge (List.filter (λ c, negb (url_break c)) href) in reverse (skip_while url_edge (reverse t)).

Definition slash_like (c : Z) : bool := (c =? SLASH) || (c =? 92).
(** [/^[\\/]{2}/] *)
Definition other_host (t : text) : bool := match t with a :: b :: _ => slash_like a && slash_like b | _ => false end.

(** [/^https?:\/\//i] *)
Definition http_url (t : text) : bool :=
  let l := lower_unit <$> t in starts_with (units "http://") l || starts_with (units "https://") l.

Definition safeRouteHref `{UrlParser} (href : option text) : option text :=
  match href with
  | None => None
  | Some href =>
      let value := url_value href in
      if bool_decide (value = []) then None
      else if starts_with [HASH] value then Some value
      else if other_host value then None
      else
        let rootRelative := starts_with [SLASH] value in
        if negb rootRelative && negb (http_url value) then None
        else match url_protocol_origin value with
             | None => None
             | Some (protocol, origin) =>
                 if negb (bool_decide (protocol = units "http:")) && negb (bool_decide (protocol = units "https:")) then None
                 else if rootRelative && negb (bool_decide (origin = location_origin)) then None
                 else Some value
             end
  end.

Section routes.
Context `{RouterHost}.

(** The route a link names *)
Definition hashRoute (href : text) : option (PageId * option NavOpts) :=
  if negb (starts_with (units "#/") href) then None
  else match page_of (upto route_stop (drop 2 href)) with
       | None => None
       | Some P_settings =>
           let query := URLSearchParams (written_query href) in
           Some (P_settings,
                 match get_param query (units "s") with
                 | Some (c :: s) =>
                     Some (<["section"%string := Text (c :: s)]>
                             (match get_param query (units "a") with Some (d :: a) => {["anchor"%string := Text (d :: a)]} | _ => ∅ end))
                 | _ => None
                 end)
       | Some raw =>
           let route := redirectRoute raw (same_opts None (samePageOpts raw None href false)) in
           Some (r_page route, r_opts route)
       end.

(** A click: already handled, its button, and whether a modifier is held *)
Record Click := mkClick { defaultPrevented : bool; button : Z; modified : bool }.

(** What the handler hands to [navigate]; [None] keeps the browser's own behaviour. *)
Definition useRouteLinkClick (href : option text) (click : Click) : option (PageId * option NavOpts) :=
  match href with
  | None => None
  | Some href =>
      if bool_decide (href = []) then None
      else if defaultPrevented click || negb (button click =? 0) || modified click then None
      else hashRoute href
  end.
End routes.

(** ** Which href renders *)
Lemma skip_while_spec (class : Z → bool) t : ∃ a, t = a ++ skip_while class t ∧ match skip_while class t with c :: _ => class c = false | [] => True end.
Proof. induction t as [|c t (a & E & Hc)]; cbn; [by exists []|]. destruct (class c) eqn:Ec; [exists (c :: a); cbn; split; [by f_equal|done]|by exists []]. Qed.

Lemma url_value_break href : Forall (λ c, url_break c = false) (url_value href).
Proof.
  unfold url_value. set (f := List.filter _ href). assert (Hf : Forall (λ c, url_break c = false) f).
  { apply Forall_forall. intros c Hc%list_elem_of_In. apply filter_In in Hc as [_ Hc]. by apply negb_true_iff. }
  destruct (skip_while_spec url_edge f) as (a & E & _). rewrite E in Hf. apply Forall_app in Hf as [_ Hf]. apply Forall_reverse in Hf.
  destruct (skip_while_spec url_edge (reverse (skip_while url_edge f))) as (b & E' & _). rewrite E' in Hf. apply Forall_app in Hf as [_ Hf]. by apply Forall_reverse.
Qed.

(** The first character is no space or control. *)
Lemma url_value_head href c t : url_value href = c :: t → url_edge c = false.
Proof.
  unfold url_value. set (f := List.filter _ href). destruct (skip_while_spec url_edge f) as (a & _ & Hh). set (u := skip_while url_edge f) in *. clearbody u.
  destruct (skip_while_spec url_edge (reverse u)) as (b & E & _). set (w := skip_while url_edge (reverse u)) in *. clearbody w. intros Er.
  assert (Hu : u = (c :: t) ++ reverse b) by (rewrite <-Er, <-reverse_app, <-E; by rewrite reverse_involutive). rewrite Hu in Hh. exact Hh.
Qed.

(** What a link may start with: a hash, one slash, or http(s). *)
Definition console_href (t : text) : Prop :=
  starts_with [HASH] t = true ∨ (starts_with [SLASH] t = true ∧ other_host t = false) ∨ (http_url t = true ∧ other_host t = false).

(** C36. A value renders as a link only when the browser will follow it inside the console or over http: it opens
    with a hash, with one slash and no second slash or backslash, or with http(s), and the URL parser agrees. *)
Theorem safeRouteHref_safe `{UrlParser} href value : safeRouteHref href = Some value →
  console_href value ∧ Forall (λ c, url_break c = false) value ∧
  (starts_with [HASH] value = false → ∃ protocol origin, url_protocol_origin value = Some (protocol, origin) ∧
     (protocol = units "http:" ∨ protocol = units "https:") ∧ (starts_with [SLASH] value = true → origin = location_origin)).
Proof.
  unfold safeRouteHref, console_href. destruct href as [href|]; [|done]. pose proof (url_value_break href) as Hb. set (v := url_value href) in *. clearbody v. case_bool_decide; [done|].
  destruct (starts_with [HASH] v) eqn:Eh; [intros [= <-]; split; [by left|]; split; [done|congruence]|]. destruct (other_host v) eqn:Eo; [done|].
  destruct (negb (starts_with [SLASH] v) && negb (http_url v)) eqn:Ec; [done|]. destruct (url_protocol_origin v) as [[p o]|] eqn:Ep; [|done].
  destruct (negb (bool_decide (p = units "http:")) && negb (bool_decide (p = units "https:"))) eqn:E1; [done|].
  assert (Hp : p = units "http:" ∨ p = units "https:") by (apply andb_false_iff in E1 as [E1%negb_false_iff%bool_decide_eq_true|E1%negb_false_iff%bool_decide_eq_true]; auto).
  destruct (starts_with [SLASH] v && negb (bool_decide (o = location_origin))) eqn:E2; intros Ev; [discriminate Ev|]. injection Ev as <-. split; [|split; [done|]].
  - right. apply andb_false_iff in Ec as [Ec%negb_false_iff|Ec%negb_false_iff]; auto.
  - intros _. exists p, o. split; [done|]. split; [exact Hp|]. intros Es. rewrite Es in E2. by apply negb_false_iff, bool_decide_eq_true in E2.
Qed.

(** A browser that answers with the scheme of the text, on one origin *)
Definition sample_parser : UrlParser := {|
  url_protocol_origin t := if starts_with (units "https://") t then Some (units "https:", take 20 t) else Some (units "https:", units "https://soc.test");
  location_origin := units "https://soc.test"
|}.

Lemma safeRouteHref_safe_witness :
  safeRouteHref (H := sample_parser) (Some (units " /cases")) = Some (units "/cases") ∧ console_href (units "/cases") ∧
  safeRouteHref (H := sample_parser) (Some (units "javascript:alert(1)")) = None ∧ safeRouteHref (H := sample_parser) (Some (units "/\evil.test")) = None.
Proof.
  assert (E : safeRouteHref (H := sample_parser) (Some (units " /cases")) = Some (units "/cases")) by (vm_compute; reflexivity).
  split; [exact E|]. split; [|split; vm_compute; reflexivity]. exact (proj1 (safeRouteHref_safe (H := sample_parser) _ _ E)).
Defined.

Section routes.
Context `{RouterHost}.
Implicit Types (page : PageId) (opts : NavOpts).

(** ** Where a click goes *)
Lemma hashRoute_written page ps : page ≠ P_settings →
  hashRoute (hash_of page ps) =
  let r := redirectRoute page (same_opts None (samePageOpts page None (hash_of page ps) false)) in Some (r_page r, r_opts r).
Proof.
  intros Hp. unfold hashRoute. assert (Es : starts_with (units "#/") (hash_of page ps) = true) by done. rewrite Es. cbn [negb].
  assert (Er : upto route_stop (drop 2 (hash_of page ps)) = units (page_name page)).
  { unfold hash_of. change (drop 2 (units "#/" ++ ?x)) with x. case_bool_decide; [rewrite app_nil_r; apply upto_all, name_no_stop|apply upto_stop; [apply name_no_stop|done]]. }
  rewrite Er, page_of_name. by destruct page.
Qed.

(** Options read from nothing: what the query holds *)
Lemma same_from_none page opts : link_ready page opts → PAGE_REDIRECTS page = None →
  same_opts None (samePageOpts page None (pageHash page (Some opts)) false) = nonempty (durable page opts).
Proof.
  intros Hr Hn. pose proof (parse_own_hash page opts Hr) as Ho. unfold nonempty in *. case_decide as Hd.
  - assert (Hw : hash_writes page opts = []).
    { destruct (hash_writes page opts) as [|[k t] w] eqn:E; [done|]. assert (Hin : (k, t) ∈ hash_writes page opts) by (rewrite E; by left).
      apply written_durable in Hin; [|done]. by rewrite Hd, lookup_empty in Hin. }
    assert (Hw0 : hash_writes page ∅ = []).
    { destruct (hash_writes page ∅) as [|[k t] w] eqn:E; [done|]. assert (Hin : (k, t) ∈ hash_writes page ∅) by (rewrite E; by left).
      apply written_durable in Hin; [|by apply link_ready_empty]. by rewrite durable_empty, lookup_empty in Hin. }
    rewrite pageHash_ready, Hw, <-Hw0, <-pageHash_ready by (done || by apply link_ready_empty).
    change (samePageOpts page None) with (samePageOpts page (Some ∅)). by rewrite own_hash_keeps by by apply link_ready_empty.
  - destruct (parse_inv _ _ _ Ho) as (q & Hq & Hv & _). unfold samePageOpts. rewrite Hq. cbn [default from_option id]. rewrite Hv. cbn [negb andb].
    pose proof (same_keys_parsed page ∅ _ q _ (link_ready_empty _ Hn) Ho Hq) as Hs. pose proof (kept_message page ∅ _ q _ Ho Hq) as Hm.
    assert (E0 : durable page opts ∪ (∅ ∖ durable page ∅) = durable page opts) by (apply map_eq; intros k; rewrite lookup_union, lookup_difference, durable_empty, !lookup_empty; by destruct (durable page opts !! k)).
    rewrite E0 in Hs, Hm. change (pageHash page None) with (pageHash page (Some ∅)). rewrite Hs, Hm, !bool_decide_eq_false_2 by done. done.
Qed.

(** A click on a link of the console goes where opening its address does: the page and the durable options it was written from. *)
Theorem link_opens_route page opts click : page ≠ P_settings → link_ready page opts →
  defaultPrevented click = false → button click = 0 → modified click = false →
  useRouteLinkClick (Some (pageHash page (Some opts))) click = Some (page, nonempty (durable page opts)).
Proof.
  intros Hp Hr Hd Hb Hm. unfold useRouteLinkClick. rewrite Hd, Hb, Hm. destruct (redirect_stays _ _ (proj1 Hr)) as [Hs _]. destruct Hs as (Hn & _ & _).
  pose proof (same_from_none _ _ Hr Hn) as Hf. assert (Hst : stays page (default ∅ (nonempty (durable page opts)))).
  { pose proof (durable_stays _ _ (proj1 (redirect_stays _ _ (proj1 Hr)))) as Hs. unfold nonempty. case_decide as E; [|exact Hs]. cbn. rewrite <-E. exact Hs. }
  rewrite pageHash_ready in * by done. rewrite bool_decide_eq_false_2 by done. cbn [orb negb]. rewrite hashRoute_written, Hf by done. cbv zeta. by rewrite stays_redirect.
Qed.
End routes.

(** ** A section of Settings *)
Definition component_byte (b : Z) : text := if component_plain b then [b] else percent_byte b.

Lemma component_plain_not b : component_plain b = true → b ≠ PERCENT ∧ b ≠ PLUS ∧ b ≠ AMPERSAND ∧ b ≠ EQUALS ∧ b ≠ QUESTION ∧ 0 ≤ b < 128.
Proof.
  unfold component_plain, alnum, is_upper, is_lower, is_digit, in_range, is_one_of. rewrite !orb_true_iff, bool_decide_eq_true.
  intros [|Hc]; [unfold PERCENT, PLUS, AMPERSAND, EQUALS, QUESTION; lia|].
  repeat (apply elem_of_cons in Hc as [->|Hc]; [vm_compute; repeat split; discriminate|]). by apply not_elem_of_nil in Hc.
Qed.

(** A character of an encoded component *)
Definition component_unit (c : Z) : Prop := c ≠ PLUS ∧ c ≠ AMPERSAND ∧ c ≠ EQUALS ∧ c ≠ QUESTION ∧ 0 ≤ c < 128.
Lemma component_units b : is_byte b → Forall component_unit (component_byte b).
Proof.
  unfold component_byte, is_byte, component_unit. intros Hb. destruct (component_plain b) eqn:E; [constructor; [apply component_plain_not in E; tauto|constructor]|].
  assert (Hd : ∀ v, 0 ≤ v < 16 → component_unit (hex_digit v)) by (intros v Hv; pose proof (form_plain_not _ (hex_plain v Hv)); unfold component_unit; tauto).
  unfold percent_byte. constructor; [unfold PERCENT, PLUS, AMPERSAND, EQUALS, QUESTION; lia|].
  constructor; [apply Hd; Z.div_mod_to_equations; lia|]. constructor; [apply Hd; Z.div_mod_to_equations; lia|constructor].
Qed.

Lemma percent_decode_component bs : Forall is_byte bs → percent_decode (concat (component_byte <$> bs)) = bs.
Proof.
  induction 1 as [|b bs Hb _ IH]; [done|]. rewrite fmap_cons. cbn [concat]. unfold component_byte at 1. destruct (component_plain b) eqn:E.
  - apply component_plain_not in E. cbn [app]. rewrite percent_decode_plain by tauto. by rewrite IH.
  - rewrite percent_decode_byte by done. by rewrite IH.
Qed.

(** An encoded component is decoded by [URLSearchParams] as it was. *)
Lemma component_read t x : clean t → encodeURIComponent t = Some x → form_decode x = t ∧ Forall component_unit x.
Proof.
  intros [Ht Hw]. unfold encodeURIComponent. rewrite Hw. intros [= <-]. change (λ b, _) with component_byte. pose proof (encode_bytes _ Ht) as Hb.
  assert (Hu : Forall component_unit (concat (component_byte <$> encode t))) by (apply (Forall_concat_map _ _ is_byte); [apply component_units|done]). split; [|exact Hu].
  unfold form_decode. rewrite plus_to_space_id by (eapply Forall_impl; [exact Hu|]; unfold component_unit; tauto).
  rewrite encode_ascii by (eapply Forall_impl; [exact Hu|]; unfold component_unit; cbn; lia). rewrite percent_decode_component, decode_encode by done. by apply text_of_points_id.
Qed.

Lemma component_free x : Forall component_unit x → AMPERSAND ∉ x ∧ QUESTION ∉ x.
Proof. rewrite Forall_forall. intros Hx. split; intros Hi; apply Hx in Hi; unfold component_unit in Hi; tauto. Qed.

Lemma query_pair (key : text) x : Forall component_unit x → EQUALS ∉ key → parse_pair (key ++ EQUALS :: x) = (form_decode key, form_decode x).
Proof. intros Hx Hk. unfold parse_pair. by rewrite split_at_first_unit. Qed.

Definition section_opts (section anchor : text) : NavOpts :=
  <["section"%string := Text section]> (if decide (anchor = []) then ∅ else {["anchor"%string := Text anchor]}).

Lemma settings_params s a : Forall component_unit s → Forall component_unit a →
  URLSearchParams (units "s=" ++ s) = [(units "s", form_decode s)] ∧
  URLSearchParams (units "s=" ++ s ++ units "&a=" ++ a) = [(units "s", form_decode s); (units "a", form_decode a)].
Proof.
  intros Hs Ha. destruct (component_free _ Hs) as [Hsa _]. destruct (component_free _ Ha) as [Haa _].
  assert (Hs' : AMPERSAND ∉ units "s=" ++ s) by (rewrite elem_of_app; intros [Hi|Hi]; [revert Hi; by apply (bool_decide_eq_false_1 _)|done]).
  assert (Ha' : AMPERSAND ∉ units "a=" ++ a) by (rewrite elem_of_app; intros [Hi|Hi]; [revert Hi; by apply (bool_decide_eq_false_1 _)|done]).
  assert (Eq : ∀ x, match units "s=" ++ x with c :: q => if c =? QUESTION then q else units "s=" ++ x | [] => [] end = units "s=" ++ x) by done.
  assert (E1 : parse_pair (units "s=" ++ s) = (units "s", form_decode s)) by (apply (query_pair (units "s")); [done|by apply (bool_decide_eq_false_1 _)]).
  assert (E2 : parse_pair (units "a=" ++ a) = (units "a", form_decode a)) by (apply (query_pair (units "a")); [done|by apply (bool_decide_eq_false_1 _)]).
  split; unfold URLSearchParams; rewrite Eq.
  - rewrite split_one by done. rewrite filter_cons_True by done. cbn [fmap list_fmap]. rewrite E1. done.
  - change (units "s=" ++ s ++ units "&a=" ++ a) with ((units "s=" ++ s ++ AMPERSAND :: units "a=" ++ a)). rewrite app_assoc, split_app, !split_one by done.
    cbn [app]. rewrite !filter_cons_True by done. cbn [filter list_filter fmap list_fmap]. rewrite E1, E2. done.
Qed.

(** Text without a stray surrogate has a Settings address. *)
Lemma settings_section_written section anchor : clean section → clean anchor → ∃ hash, settingsSectionHash section anchor = Some hash.
Proof.
  intros [_ Hs] [_ Ha]. unfold settingsSectionHash, encodeURIComponent. rewrite Hs, Ha. cbn [mbind option_bind]. case_bool_decide; cbn; by eexists.
Qed.

(** A Settings address reads back as it was written. *)
Lemma settings_section_read `{RouterHost} section anchor hash :
  clean section → section ≠ [] → clean anchor → settingsSectionHash section anchor = Some hash →
  hashRoute hash = Some (P_settings, Some (section_opts section anchor)).
Proof.
  intros Hs Hne Ha. unfold settingsSectionHash. destruct (encodeURIComponent section) as [s|] eqn:Es; [|done]. cbn [mbind option_bind]. destruct (component_read _ _ Hs Es) as [Ds Us].
  destruct (component_free _ Us) as [_ Qs]. assert (Hw : ∀ a, QUESTION ∉ a → written_query (units "#/settings?s=" ++ s ++ a) = units "s=" ++ s ++ a).
  { intros a Qa. unfold written_query. change (units "#/settings?s=" ++ s ++ a) with (units "#/settings" ++ QUESTION :: units "s=" ++ s ++ a).
    rewrite split_app, split_one, split_one; [done| |by apply (bool_decide_eq_false_1 _)]. rewrite !elem_of_app. intros [Hi|[Hi|Hi]]; [revert Hi; by apply (bool_decide_eq_false_1 _)|done|done]. }
  assert (Hr : ∀ x, hashRoute (units "#/settings?s=" ++ x) = Some (P_settings,
    let query := URLSearchParams (written_query (units "#/settings?s=" ++ x)) in
    match get_param query (units "s") with
    | Some (c :: s) => Some (<["section"%string := Text (c :: s)]> (match get_param query (units "a") with Some (d :: a) => {["anchor"%string := Text (d :: a)]} | _ => ∅ end))
    | _ => None end)) by done.
  unfold section_opts. destruct section as [|c t]; [done|]. case_bool_decide as Ean.
  - subst anchor. cbn [mbind option_bind]. intros Eh. assert (hash = units "#/settings?s=" ++ s ++ []) as -> by congruence. rewrite Hr, Hw by apply not_elem_of_nil. rewrite app_nil_r. destruct (settings_params s [] Us ltac:(constructor)) as [-> _]. rewrite Ds. done.
  - destruct (encodeURIComponent anchor) as [a|] eqn:Ea; [|done]. cbn [fmap option_fmap option_map mbind option_bind]. intros Eh.
    assert (hash = units "#/settings?s=" ++ s ++ units "&a=" ++ a) as -> by congruence. destruct (component_read _ _ Ha Ea) as [Da Ua].
    destruct (component_free _ Ua) as [_ Qa]. rewrite Hr, Hw by (rewrite elem_of_app; intros [Hi|Hi]; [revert Hi; by apply (bool_decide_eq_false_1 _)|done]).
    destruct (settings_params s a Us Ua) as [_ ->]. rewrite Ds, Da. destruct anchor as [|d b]; [done|]. done.
Qed.

(** C37. The address of a Settings section opens that section, and the card in it, from a link: whatever characters
    their ids have (but stray surrogates, which no address can hold), both come back as they were written. *)
Theorem settings_link_opens `{RouterHost} section anchor : clean section → section ≠ [] → clean anchor →
  ∃ hash, settingsSectionHash section anchor = Some hash ∧ hashRoute hash = Some (P_settings, Some (section_opts section anchor)).
Proof.
  intros Hs Hne Ha. destruct (settings_section_written section anchor Hs Ha) as [hash Eh]. exists hash. split; [done|]. by apply settings_section_read.
Qed.

Lemma settings_link_opens_witness :
  ∃ hash, settingsSectionHash (units "roles & users") [233; 63] = Some hash ∧
  hashRoute (H := sample_host) hash = Some (P_settings, Some (section_opts (units "roles & users") [233; 63])).
Proof.
  apply (settings_link_opens (H := sample_host)).
  - split; [by apply units16_b|vm_compute; reflexivity].
  - discriminate.
  - split; [by apply units16_b|vm_compute; reflexivity].
Defined.

Definition plain_click : Click := mkClick false 0 false.
Lemma link_opens_route_witness :
  useRouteLinkClick (H := sample_host) (Some (pageHash (H := sample_host) P_logs (Some sample_log_opts))) plain_click = Some (P_logs, Some sample_log_opts).
Proof.
  rewrite (link_opens_route (H := sample_host) P_logs sample_log_opts plain_click); [vm_compute; reflexivity|discriminate|exact sample_ready|reflexivity|reflexivity|reflexivity].
Defined.
