(* ===== verification/Jobs.v ===== *)
(** * Background jobs: where their links go and what their files are called (soc/jobs/jobs.ts)

    A destination the server writes is read by an allowlist before the router sees it; the name of a downloaded
    artifact is made safe. Submission keys, events and the downloads themselves are random, browser and requests. *)

From S2P Require Import Prelude JsText DisplayText DisplaySpec TextLines Zip UrlParams NavRegistry RouteValues Router RouterSpec RouterProvider RouteLink.
Local Open Scope Z_scope.

(** ** Statuses *)
Definition ACTIVE_JOB_STATUSES : list string := ["queued"; "running"]%string.
Definition TERMINAL_JOB_STATUSES : list string := ["succeeded"; "partial"; "failed"; "cancelled"]%string.
Definition lowered_among (words : list string) (status : option text) : bool := bool_decide ((lower_unit <$> default [] status) ∈ units <$> words).
Definition isActiveJobStatus (status : option text) : bool := lowered_among ACTIVE_JOB_STATUSES status.
Definition isTerminalJobStatus (status : option text) : bool := lowered_among TERMINAL_JOB_STATUSES status.

(** ** Destinations *)
Record JobDestination := mkJobDestination { jd_page : PageId; jd_opts : option NavOpts }.

(** What a lookup in an object literal can find: an entry, or a member every object inherits. *)
Inductive Found (A : Type) := Own (a : A) | Inherited (member : string).
Arguments Own {A}.
Arguments Inherited {A}.

Definition object_lookup {A} (table : list (string * A)) (key : text) : option (Found A) :=
  match List.find (λ e, bool_decide (units e.1 = key)) table with
  | Some e => Some (Own e.2)
  | None => Inherited <$> List.find (λ m, bool_decide (units m = key)) OBJECT_MEMBERS
  end.

Definition SIMPLE_DESTINATIONS : list (string * PageId) :=
  [("cases", P_cases); ("case_manager", P_case_manager); ("inbox", P_inbox); ("knowledge", P_knowledge); ("runbooks", P_runbooks);
   ("batchjobs", P_batchjobs); ("audit", P_audit)]%string.

Definition settings_section (section : string) : JobDestination := mkJobDestination P_settings (Some {["section"%string := Text (units section)]}).
Definition FIXED_SERVER_DESTINATIONS : list (string * JobDestination) :=
  [("#/settings/data-export", settings_section "data_export"); ("#/settings/danger-zone", settings_section "danger");
   ("#/settings/storage", settings_section "storage"); ("#/intelligence/knowledge", mkJobDestination P_knowledge None);
   ("#/analytics?tab=jobs", mkJobDestination P_batchjobs None)]%string.
Definition SAFE_SETTINGS_SECTIONS : list string := ["data_export"; "danger"; "storage"; "knowledge"]%string.

(** [/^\d{4}-\d{2}-\d{2}T\d{2}:\d{2}:\d{2}Z$/] *)
Definition AUDIT_EXPORT_INSTANT (t : text) : bool :=
  let shape := units "dddd-dd-ddTdd:dd:ddZ" in
  (length t =? length shape)%nat && forallb (λ p, if p.1 =? 100 then is_digit p.2 else p.1 =? p.2) (zip shape t).

Section jobs.
Context `{RouterHost}.

(** The loop over the query; [key in opts] holds of inherited members too. *)
Fixpoint audit_opts (query : Params) (seen : Params) : option Params :=
  match query with
  | [] => Some seen
  | (key, value) :: query' =>
      if bool_decide (value = []) || bool_decide (key = units "record") || bool_decide (key ∈ seen.*1) || bool_decide (key ∈ units <$> OBJECT_MEMBERS) then None
      else audit_opts query' (seen ++ [(key, value)])
  end.

(** The options the page owns among them; the others are no key of [NavOpts] and are refused below. *)
Definition nav_opts_of (keys : list (string * Check)) (ps : Params) : NavOpts :=
  list_to_map (omap (λ p, (λ e, (e.1, Text p.2)) <$> own_key keys p.1) ps).

Definition auditDestination (query : Params) : option JobDestination :=
  opts ← audit_opts query [];
  let from := default [] (get_param opts (units "from")) in
  let to := default [] (get_param opts (units "to")) in
  if negb (bool_decide (from = []) && bool_decide (to = [])) && negb (AUDIT_EXPORT_INSTANT from && AUDIT_EXPORT_INSTANT to) then None
  else
    let nav := nav_opts_of (hashKeys P_audit) opts in
    let written := URLSearchParams (written_query (pageHash P_audit (Some nav))) in
    if forallb (λ p, bool_decide (get_param written p.1 = Some p.2)) opts
    then Some (mkJobDestination P_audit (if bool_decide (opts = []) then None else Some nav)) else None.

(** [#/], a route of small letters and underscores, and after a question mark a query without [#] *)
Definition route_and_query (raw : text) : option (text * text) :=
  match raw with
  | c :: d :: rest =>
      if (c =? HASH) && (d =? SLASH) then
        let '(route, query) := split_at QUESTION rest in
        if forallb (λ c, is_lower c || (c =? 95)) route && negb (bool_decide (route = [])) && negb (bool_decide (HASH ∈ default [] query))
        then Some (route, default [] query) else None
      else None
  | _ => None
  end.

(** [query.get(a) || query.get(b)], empty where neither is a text *)
Definition either (query : Params) (a b : string) : text :=
  match get_param query (units a) with Some (c :: t) => c :: t | _ => default [] (get_param query (units b)) end.

Definition known_once (allowed : list string) (query : Params) : bool :=
  forallb (λ key, bool_decide (key ∈ units <$> allowed)) query.*1 && forallb (λ key, (length (getAll query (units key)) <=? 1)%nat) allowed.
Definition both (query : Params) (a b : string) : bool := has_param query (units a) && has_param query (units b).

Definition text_entry (key : string) (value : text) : list (string * NavValue) := if bool_decide (value = []) then [] else [(key, Text value)].

Definition settingsDestination (query : Params) : option JobDestination :=
  if negb (known_once ["s"; "section"; "a"; "anchor"]%string query) || both query "s" "section" || both query "a" "anchor" then None
  else
    let section := either query "s" "section" in
    let anchor := either query "a" "anchor" in
    if negb (bool_decide (section ∈ units <$> SAFE_SETTINGS_SECTIONS)) || negb (bool_decide (anchor = []) || isSafeRouteToken anchor) then None
    else Some (mkJobDestination P_settings (Some (list_to_map (("section"%string, Text section) :: text_entry "anchor" anchor)))).

Definition simple_keys (page : PageId) : list string :=
  match page with
  | P_cases => ["caseId"; "case_id"; "status"; "assignee"; "tag"]
  | P_case_manager => ["caseId"; "case_id"]
  | _ => []
  end%string.

Definition simpleDestination (page : PageId) (query : Params) : option JobDestination :=
  if negb (known_once (simple_keys page) query) || both query "caseId" "case_id" then None
  else
    let caseId := either query "caseId" "case_id" in
    let status := default [] (get_param query (units "status")) in
    let assignee := default [] (get_param query (units "assignee")) in
    let tag := default [] (get_param query (units "tag")) in
    let ok value (valid : Check) := bool_decide (value = []) || valid value in
    if negb (ok caseId isSafeCaseId && ok status isSafeCaseResultStatus && ok assignee isSafeCaseResultAssignee && ok tag isSafeCaseResultTag) then None
    else
      let opts := text_entry "caseId" caseId ++ text_entry "status" status ++ text_entry "assignee" assignee ++ text_entry "tag" tag in
      Some (mkJobDestination page (if bool_decide (opts = []) then None else Some (list_to_map opts))).

(** A destination, or what the lookups found instead of one: an inherited member, whole or as the page *)
Inductive Destined := To (d : JobDestination) | MemberItself (member : string) | MemberPage (member : string).

Definition jobDestinationFromUrl (url : option text) : option Destined :=
  let raw := text_trim (default [] url) in
  match object_lookup FIXED_SERVER_DESTINATIONS raw with
  | Some (Own d) => Some (To d)
  | Some (Inherited m) => Some (MemberItself m)
  | None =>
      '(route, rawQuery) ← route_and_query raw;
      if negb (hasValidRouteEncoding rawQuery) then None
      else
        let query := URLSearchParams rawQuery in
        if bool_decide (route = units "settings") then To <$> settingsDestination query
        else match object_lookup SIMPLE_DESTINATIONS route with
             | None => None
             | Some (Inherited m) => if known_once [] query then Some (MemberPage m) else None
             | Some (Own P_audit) => To <$> auditDestination query
             | Some (Own page) => To <$> simpleDestination page query
             end
  end.

(** ** By kind *)
Definition jobDestinationForKind (kindValue : option text) : option JobDestination :=
  let kind := lower_unit <$> default [] kindValue in
  let has word := includes (units word) kind in
  if has "case" then Some (mkJobDestination P_cases (Some {["status"%string := Text (units "active")]}))
  else if bool_decide (kind = units "audit_export") then Some (mkJobDestination P_audit None)
  else if has "export" then Some (settings_section "data_export")
  else if has "runbook" then Some (mkJobDestination P_runbooks None)
  else if has "rag" || has "precedent" || has "knowledge" then Some (mkJobDestination P_knowledge None)
  else if has "batch" then Some (mkJobDestination P_batchjobs None)
  else if has "reset" then Some (settings_section "danger")
  else if has "storage" then Some (settings_section "storage")
  else None.

Definition jobDestination (kind : text) : JobDestination := default (mkJobDestination P_batchjobs None) (jobDestinationForKind (Some kind)).

Definition destinationActionLabel (d : JobDestination) : string :=
  if bool_decide (jd_page d = P_settings) && bool_decide (text_at (default ∅ (jd_opts d)) "section" = units "data_export") then "Open Data export"
  else match jd_page d with
       | P_case_manager => "View case"
       | P_cases => "View matching cases"
       | P_knowledge => "Open Knowledge"
       | P_runbooks => "Open Runbooks"
       | P_audit => "Open audit log"
       | P_inbox => "Open Inbox"
       | _ => "View result"
       end%string.
End jobs.

(** ** File names *)

(** [replace(/\\/g, '/').split('/').pop()] *)
Definition last_path (t : text) : text := default [] (last (split_on SLASH ((λ c, if c =? 92 then SLASH else c) <$> t))).

Definition name_unit (c : Z) : bool := alnum c || is_one_of "._-" c.
Definition DASH : Z := 45.
(** [replace(/-+/g, '-')] *)
Fixpoint single_dashes (t : text) : text :=
  match t with
  | c :: ((d :: _) as t') => if (c =? DASH) && (d =? DASH) then single_dashes t' else c :: single_dashes t'
  | _ => t
  end.
(** [replace(/^[._-]+|[._-]+$/g, '')] *)
Definition edge_mark (c : Z) : bool := is_one_of "._-" c.
Definition trim_marks (t : text) : text := reverse (skip_while edge_mark (reverse (skip_while edge_mark t))).

Definition safeFilename (candidate : text) : option text :=
  let basename := text_trim (last_path (List.filter (λ c, negb (in_range 0 31 c || (c =? 127))) candidate)) in
  if bool_decide (basename = []) || (180 <? length basename)%nat then None
  else
    let safe := trim_marks (single_dashes ((λ c, if name_unit c then c else DASH) <$> basename)) in
    if bool_decide (safe = []) || negb (existsb alnum safe) then None else Some safe.

(** ** Where a link lands *)
Section theorems.
Context `{RouterHost}.

Lemma nav_opts_elem page (ps : Params) k v :
  (k, v) ∈ omap (λ p : text * text, (λ e : string * Check, (e.1, Text p.2)) <$> own_key (hashKeys page) p.1) ps ↔
  ∃ t valid, (units k, t) ∈ ps ∧ own_key (hashKeys page) (units k) = Some (k, valid) ∧ v = Text t.
Proof.
  rewrite list_elem_of_omap. split.
  - intros ([name t] & Hin & E). cbn in E. destruct (own_key (hashKeys page) name) as [[key valid]|] eqn:Ek; [|done]. injection E as -> <-.
    destruct (own_key_name _ _ _ _ Ek) as [-> _]. by exists t, valid.
  - intros (t & valid & Hin & Hk & ->). exists (units k, t). split; [done|]. cbn. by rewrite Hk.
Qed.

Lemma nav_opts_lookup page (ps : Params) k v : NoDup ps.*1 →
  nav_opts_of (hashKeys page) ps !! k = Some v ↔ ∃ t valid, (units k, t) ∈ ps ∧ own_key (hashKeys page) (units k) = Some (k, valid) ∧ v = Text t.
Proof.
  intros Hn. rewrite <-nav_opts_elem. unfold nav_opts_of. symmetry. apply elem_of_list_to_map. induction ps as [|[name t] ps IH]; [constructor|].
  rewrite fmap_cons in Hn. apply NoDup_cons in Hn as [Hni Hn]. cbn. destruct (own_key (hashKeys page) name) as [[key valid]|] eqn:Ek; [|by apply IH]. cbn. constructor; [|by apply IH].
  destruct (own_key_name _ _ _ _ Ek) as [-> _]. intros ([k' v'] & E & (t' & _ & Hin & _)%nav_opts_elem)%list_elem_of_fmap. cbn in E. subst key. apply Hni, list_elem_of_fmap. by exists (units k', t').
Qed.

Lemma audit_opts_spec (query seen opts : Params) : audit_opts query seen = Some opts → NoDup seen.*1 → opts = seen ++ query ∧ NoDup opts.*1 ∧ Forall (λ p, p.2 ≠ []) query.
Proof.
  revert seen. induction query as [|[key value] query IH]; intros seen; cbn; [intros [= <-] Hn; by rewrite app_nil_r|]. destruct (_ || _) eqn:E; [done|].
  apply orb_false_iff in E as [[[E1%bool_decide_eq_false _]%orb_false_iff E3%bool_decide_eq_false]%orb_false_iff _]. intros Ho Hn. destruct (IH _ Ho) as (-> & Hn' & Hf).
  - rewrite fmap_app. apply NoDup_app. split_and!; [done| |repeat constructor; apply not_elem_of_nil]. intros k Hk [->|Hi]%elem_of_cons; [done|by apply not_elem_of_nil in Hi].
  - split; [by rewrite <-app_assoc|]. split; [done|]. by constructor.
Qed.

Lemma get_param_elem (ps : Params) name v : get_param ps name = Some v → (name, v) ∈ ps.
Proof.
  unfold get_param. intros E%head_Some_elem_of. unfold getAll in E. apply list_elem_of_fmap in E as ([n u] & -> & [En Hin]%list_elem_of_filter). cbn in *. by subst.
Qed.
Lemma get_param_clean q name v : get_param (URLSearchParams q) name = Some v → clean v.
Proof. intros E%get_param_elem. pose proof (params_clean q) as Hc. rewrite Forall_forall in Hc. by apply Hc in E. Qed.
Lemma clean_nil : clean [].
Proof. split; [constructor|done]. Qed.
Lemma param_clean q name : clean (default [] (get_param (URLSearchParams q) name)).
Proof. destruct (get_param _ name) eqn:E; [by eapply get_param_clean|apply clean_nil]. Qed.
Lemma either_clean q a b : clean (either (URLSearchParams q) a b).
Proof. unfold either. destruct (get_param _ (units a)) as [[|c t]|] eqn:E; [apply param_clean|by eapply get_param_clean|apply param_clean]. Qed.

(** A destination the router writes and reads back as it is *)
Definition lands (d : JobDestination) : Prop := routeFromLocation (pageHash (jd_page d) (jd_opts d)) = mkRoute (jd_page d) (jd_opts d) false.

Lemma lands_bare page : routable page → PAGE_REDIRECTS page = None → lands (mkJobDestination page None).
Proof. intros Hp Hr. exact (route_of_bare page Hp Hr). Qed.

Lemma lands_entries page o : routable page → page ≠ P_chat → map_Forall (read_entry page) o → o ≠ ∅ → r_redirected (redirectRoute page (Some o)) = false → lands (mkJobDestination page (Some o)).
Proof.
  intros Hp Hc He Hne Hr. destruct (entries_ready page o He) as [Hl Hd]; [|done|].
  - intros Hm. exfalso. pose proof (text_at_Some o _ _ eq_refl Hm) as Hk. destruct (He _ _ Hk) as (valid & t & Hk' & _). by apply message_page in Hk'.
  - unfold lands. cbn. rewrite route_of_own_hash, Hd by done. unfold nonempty. by rewrite decide_False.
Qed.

Lemma read_entry_intro page key valid t : (key, valid) ∈ hashKeys page → t ≠ [] → valid t = true → read_value page key t = t → clean t → read_entry page key (Text t).
Proof. intros. exists valid, t. by split_and!. Qed.

Lemma text_entries_read page (entries : list (string * text)) :
  Forall (λ e, e.2 ≠ [] → read_entry page e.1 (Text e.2)) entries → map_Forall (read_entry page) (list_to_map (entries ≫= λ e, text_entry e.1 e.2) : NavOpts).
Proof.
  intros Hf k v Hk%elem_of_list_to_map_2. apply list_elem_of_bind in Hk as ([key t] & Hin & He). rewrite Forall_forall in Hf. specialize (Hf _ He). cbn in *. unfold text_entry in Hin.
  case_bool_decide as Et; [by apply not_elem_of_nil in Hin|]. apply list_elem_of_singleton in Hin as [= -> ->]. by apply Hf.
Qed.

(** An audit view lands. *)
Lemma audit_lands q d : auditDestination (URLSearchParams q) = Some d → lands d.
Proof.
  unfold auditDestination. destruct (audit_opts _ []) as [opts|] eqn:Eo; [|done]. cbn [mbind option_bind]. cbv zeta. destruct (_ && _); [done|]. destruct (audit_opts_spec _ _ _ Eo ltac:(constructor)) as (Eq & Hn & Hne).
  cbn in Eq. subst opts. set (nav := nav_opts_of _ _). destruct (forallb _ _) eqn:Ef; [|done]. intros [= <-]. case_bool_decide as Eq; [by apply lands_bare|].
  pose proof (params_clean q) as Hc. rewrite Forall_forall in Hc.
  assert (Hr : link_ready P_audit nav).
  { split; [done|]. intros key valid t Hk Hl. apply nav_opts_lookup in Hl as (t' & valid' & Hin & _ & [= <-]); [|done]. destruct (Hc _ Hin) as [H1 H2]. split_and!; [done|done|done|].
    intros Hu. exfalso. revert Hk. assert (Hd : key ∉ (hashKeys P_audit).*1).
    { repeat (apply elem_of_cons in Hu as [->|Hu]; [by apply (bool_decide_eq_false_1 _)|]). by apply not_elem_of_nil in Hu. }
    intros Hk. apply Hd, list_elem_of_fmap. by exists (key, valid). }
  rewrite own_params in Ef by done. rewrite forallb_forall in Ef.
  assert (Ha : ∀ name t, (name, t) ∈ URLSearchParams q → ∃ k, name = units k ∧ durable P_audit nav !! k = Some (Text t)).
  { intros name t Hin. specialize (Ef (name, t) (proj1 (list_elem_of_In _ _) Hin)). apply bool_decide_eq_true in Ef. cbn in Ef. pose proof (get_param_elem _ _ _ Ef) as Hw.
    apply list_elem_of_fmap in Hw as ([k u] & [= -> <-] & Hw). exists k. split; [done|]. by apply written_durable. }
  assert (Hd : durable P_audit nav = nav).
  { apply map_eq. intros k. apply option_eq. intros v. split; [by intros []%durable_lookup|]. intros Hl. apply nav_opts_lookup in Hl as (t & valid & Hin & _ & ->); [|done].
    destruct (Ha _ _ Hin) as (k' & E%units_inj & Hk). by subst k'. }
  unfold lands. cbn [jd_page jd_opts]. rewrite route_of_own_hash, Hd by done. unfold nonempty. rewrite decide_False; [done|]. intros E0.
  destruct (URLSearchParams q) as [|[name t] ps] eqn:Eu; [done|]. destruct (Ha name t ltac:(by left)) as (k & _ & Hk). by rewrite Hd, E0, lookup_empty in Hk.
Qed.

(** The case a destination names, where it names one, has no space at its ends. *)
Definition trimmed_case (d : JobDestination) : Prop :=
  let c := text_at (default ∅ (jd_opts d)) "caseId" in text_trim c = c.

Lemma bounded_trim value n : isBoundedCaseResultText value n = true → text_trim value = value.
Proof. unfold isBoundedCaseResultText. rewrite !andb_true_iff. intros [[[_ E%bool_decide_eq_true] _] _]. by symmetry. Qed.
Lemma status_trim value : isSafeCaseResultStatus value = true → text_trim value = value.
Proof.
  unfold isSafeCaseResultStatus. intros Hv%bool_decide_eq_true. apply list_elem_of_fmap in Hv as (w & -> & Hw).
  repeat (apply elem_of_cons in Hw as [->|Hw]; [vm_compute; reflexivity|]). by apply not_elem_of_nil in Hw.
Qed.

(** The four values a query may give, by key *)
Definition simple_entries (q : text) : list (string * text) :=
  let value key := default [] (get_param (URLSearchParams q) (units key)) in
  [("caseId", either (URLSearchParams q) "caseId" "case_id"); ("status", value "status"); ("assignee", value "assignee"); ("tag", value "tag")]%string.

Definition simple_valid (key : string) : Check :=
  match key with
  | "caseId" => isSafeCaseId
  | "status" => isSafeCaseResultStatus
  | "assignee" => isSafeCaseResultAssignee
  | _ => isSafeCaseResultTag
  end%string.

Lemma simple_inv page q d : simpleDestination page (URLSearchParams q) = Some d →
  let opts := simple_entries q ≫= λ e, text_entry e.1 e.2 in
  known_once (simple_keys page) (URLSearchParams q) = true ∧ Forall (λ e, e.2 = [] ∨ simple_valid e.1 e.2 = true) (simple_entries q) ∧
  d = mkJobDestination page (if bool_decide (opts = []) then None else Some (list_to_map opts)).
Proof.
  unfold simpleDestination. destruct (known_once _ _) eqn:Ek; [|done]. cbn [negb orb]. destruct (both _ _ _); [done|]. cbv zeta.
  destruct (_ && _ && _ && _) eqn:Ea; [|done]. cbn [negb]. rewrite !andb_true_iff, !orb_true_iff, !bool_decide_eq_true in Ea. destruct Ea as [[[Ec Es] Eas] Et].
  intros [= <-]. split; [done|]. split; [unfold simple_entries; rewrite !Forall_cons; by split_and!|]. unfold simple_entries. cbn [mbind list_bind fst snd]. by rewrite app_nil_r.
Qed.

(** A key that is not allowed is not there. *)
Lemma known_absent allowed (ps : Params) key : known_once allowed ps = true → key ∉ allowed → get_param ps (units key) = None.
Proof.
  unfold known_once. rewrite andb_true_iff, forallb_forall. intros [Hk _] Hn. destruct (get_param ps (units key)) eqn:E; [|done]. apply get_param_elem in E. exfalso. apply Hn.
  specialize (Hk (units key)). rewrite <-list_elem_of_In, bool_decide_eq_true in Hk. destruct (proj1 (list_elem_of_fmap _ _ _) (Hk ltac:(apply list_elem_of_fmap; by eexists (_, _)))) as (k & ->%units_inj & Hin). done.
Qed.

Lemma simple_entries_clean q : Forall (λ e, clean e.2) (simple_entries q).
Proof. unfold simple_entries. rewrite !Forall_cons. split_and!; [apply either_clean|apply param_clean..|done]. Qed.

(** A key with a value is one the page takes. *)
Lemma simple_present page q : known_once (simple_keys page) (URLSearchParams q) = true →
  Forall (λ e, e.2 ≠ [] → e.1 ∈ simple_keys page) (simple_entries q).
Proof.
  intros Hk. assert (Ha : ∀ key, get_param (URLSearchParams q) (units key) ≠ None → key ∈ simple_keys page).
  { intros key He. apply dec_stable. intros Hn. by apply He, (known_absent (simple_keys page)). }
  assert (Hv : ∀ key, default [] (get_param (URLSearchParams q) (units key)) ≠ [] → key ∈ simple_keys page).
  { intros key He. apply Ha. intros E. by rewrite E in He. }
  unfold simple_entries. rewrite !Forall_cons. split_and!; [|apply Hv..|done]. cbn [fst snd]. unfold either. intros He.
  destruct (get_param _ (units "caseId")) as [[|c t]|] eqn:E; [by apply Ha; rewrite E|by apply Ha; rewrite E|].
  specialize (Hv "case_id"%string He). by destruct page; cbn in Hv |- *; [..]; set_solver.
Qed.

(** What a page takes, it owns. *)
Lemma simple_owned page key t : key ∈ simple_keys page → key ≠ "case_id"%string → simple_valid key t = true →
  is_case_page page = true ∧ ∃ valid, (key, valid) ∈ hashKeys page ∧ valid t = true.
Proof.
  intros Hk Hn Hv. assert (Hs : isCasesStatus t = isCasesStatus t) by done. unfold isCasesStatus in Hs at 1.
  destruct page; try (by apply not_elem_of_nil in Hk); (split; [done|]);
    repeat (apply elem_of_cons in Hk as [->|Hk]; [cbn in Hv; try done; eexists; (split; [by repeat (left || right)|]); rewrite <-?Hs, ?Hv; try done; by rewrite orb_true_r|]);
    by apply not_elem_of_nil in Hk.
Qed.

Lemma simple_trim key t : key ≠ "caseId"%string → key ∈ ["caseId"; "status"; "assignee"; "tag"]%string → simple_valid key t = true → text_trim t = t.
Proof.
  intros Hn Hk. repeat (apply elem_of_cons in Hk as [->|Hk]; [try done; (apply status_trim || apply bounded_trim)|]). by apply not_elem_of_nil in Hk.
Qed.

Lemma simple_case q e : e ∈ simple_entries q → e.1 = "caseId"%string → e.2 ≠ [] →
  e.2 = either (URLSearchParams q) "caseId" "case_id" ∧ text_at (list_to_map (simple_entries q ≫= λ e, text_entry e.1 e.2)) "caseId" = e.2.
Proof.
  unfold simple_entries at 1. rewrite !elem_of_cons. intros [->|[->|[->|[->|He]]]] Ek Hne; try done; [|by apply not_elem_of_nil in He]. split; [done|]. cbn in Hne.
  unfold simple_entries. cbn [mbind list_bind fst snd]. unfold text_entry at 1. rewrite bool_decide_false by done. cbn [app list_to_map foldr fst snd]. unfold text_at. by rewrite lookup_insert_eq.
Qed.

Lemma simple_lands page q d : page ∈ SIMPLE_DESTINATIONS.*2 → simpleDestination page (URLSearchParams q) = Some d → trimmed_case d → lands d.
Proof.
  intros Hp (Hk & Hv & ->)%simple_inv. set (opts := simple_entries q ≫= _).
  assert (Hr : PAGE_REDIRECTS page = None ∧ routable page ∧ page ≠ P_chat ∧ ∀ o, r_redirected (redirectRoute page o) = false).
  { repeat (apply elem_of_cons in Hp as [->|Hp]; [done|]). by apply not_elem_of_nil in Hp. }
  destruct Hr as (H0 & H1 & H2 & H3). case_bool_decide as Eo; [intros _; by apply lands_bare|]. unfold trimmed_case. cbn [jd_opts default]. intros Ht. apply lands_entries; [done..| | |done].
  - apply text_entries_read. pose proof (simple_entries_clean q) as Hc. pose proof (simple_present page q Hk) as Hin. rewrite Forall_forall in Hc, Hin, Hv |- *.
    intros e He Hne. destruct (Hv e He) as [|Hve]; [done|]. destruct (simple_owned page e.1 e.2) as (Hcp & valid & Hkey & Hval); [by apply Hin| |done|].
    { intros E. unfold simple_entries in He. rewrite !elem_of_cons in He. destruct He as [->|[->|[->|[->|He]]]]; try done. by apply not_elem_of_nil in He. }
    apply (read_entry_intro page e.1 valid); [done..| |by apply Hc]. unfold read_value, trimsHashValue. rewrite Hcp. cbn [andb]. case_bool_decide as Er; [done|]. cbn [negb].
    destruct (decide (e.1 = "caseId"%string)) as [Ek|Ek].
    + destruct (simple_case q _ He Ek) as [E1 E2]; [done|]. rewrite <-E2. exact Ht.
    + eapply simple_trim; [done| |done]. unfold simple_entries in He. rewrite !elem_of_cons in He. destruct He as [->|[->|[->|[->|He]]]]; cbn; [set_solver..|]. by apply not_elem_of_nil in He.
  - intros E. apply Eo. clearbody opts. destruct opts as [|[k v] l]; [done|]. exfalso. assert (Hx : (∅ : NavOpts) !! k = Some v) by (rewrite <-E; apply lookup_insert_eq). by rewrite lookup_empty in Hx.
Qed.
(** Navigating to a destination takes it as it is, and the address written for it reads back as it. *)
Definition arrives (d : JobDestination) : Prop := ∃ hash, resolveNavigation (jd_page d) (jd_opts d) = Some (mkTarget (jd_page d) (jd_opts d) hash) ∧
  if bool_decide (jd_page d = P_settings) then hashRoute hash = Some (P_settings, jd_opts d) else routeFromLocation hash = mkRoute (jd_page d) (jd_opts d) false.

Lemma lands_arrives d : jd_page d ∈ SIMPLE_DESTINATIONS.*2 → lands d → arrives d.
Proof.
  destruct d as [page o]. unfold lands, arrives, resolveNavigation. cbn [jd_page jd_opts]. intros Hp Hl. exists (pageHash page o).
  assert (Hr : settingsRedirectHash (units (page_name page)) = None ∧ redirectRoute page o = mkRoute page o false ∧ bool_decide (page = P_settings) = false).
  { clear Hl. repeat (apply elem_of_cons in Hp as [->|Hp]; [by split_and!|]). by apply not_elem_of_nil in Hp. }
  destruct Hr as (-> & -> & Es). cbn [r_page r_opts]. by rewrite Es.
Qed.

Lemma bare_arrives page : page ∈ SIMPLE_DESTINATIONS.*2 → arrives (mkJobDestination page None).
Proof. intros Hp. apply lands_arrives; [done|]. apply lands_bare; repeat (apply elem_of_cons in Hp as [->|Hp]; [done|]); by apply not_elem_of_nil in Hp. Qed.

Lemma section_arrives section anchor : clean section → section ≠ [] → clean anchor → arrives (mkJobDestination P_settings (Some (section_opts section anchor))).
Proof.
  intros Hs Hne Ha. destruct (settings_section_written section anchor Hs Ha) as [hash Eh]. exists hash. split; [|by apply settings_section_read]. unfold resolveNavigation. cbn [jd_page jd_opts].
  change (settingsRedirectHash _) with (@None text). change (redirectRoute P_settings (Some (section_opts section anchor))) with (mkRoute P_settings (Some (section_opts section anchor)) false). cbv zeta. cbn [r_opts r_page from_option id].
  assert (E : text_at (section_opts section anchor) "section" = section) by (unfold text_at, section_opts; by rewrite lookup_insert_eq).
  assert (E2 : text_at (section_opts section anchor) "anchor" = anchor).
  { unfold text_at, section_opts. rewrite lookup_insert_ne by done. destruct (decide (anchor = [])) as [->|]; [done|]. by rewrite lookup_singleton_eq. }
  rewrite E, E2, (bool_decide_true (P_settings = P_settings)), (bool_decide_false (section = [])), Eh by done. done.
Qed.

Lemma settings_arrives q d : settingsDestination (URLSearchParams q) = Some d → arrives d.
Proof.
  unfold settingsDestination. destruct (negb _ || _ || _); [done|]. cbv zeta. set (section := either _ "s" "section"). set (anchor := either _ "a" "anchor").
  destruct (_ || _) eqn:E; [done|]. intros [= <-]. apply orb_false_iff in E as [E _]. apply negb_false_iff, bool_decide_eq_true in E.
  assert (Hne : section ≠ []) by (intros E0; rewrite E0 in E; revert E; by apply (bool_decide_eq_false_1 _)).
  assert (Eo : section_opts section anchor = list_to_map (("section"%string, Text section) :: text_entry "anchor" anchor)).
  { unfold section_opts, text_entry. destruct (decide (anchor = [])); [by rewrite bool_decide_true|by rewrite bool_decide_false]. }
  match goal with |- arrives (mkJobDestination _ (Some ?o)) => replace o with (section_opts section anchor) by exact Eo end. apply section_arrives; [apply either_clean|done|apply either_clean].
Qed.

Lemma fixed_section_arrives section : section ∈ ["data_export"; "danger"; "storage"]%string → arrives (settings_section section).
Proof.
  intros Hs. change (settings_section section) with (mkJobDestination P_settings (Some (section_opts (units section) []))).
  repeat (apply elem_of_cons in Hs as [->|Hs]; [apply section_arrives; [by split; [apply units16_b|]|done|apply clean_nil]|]). by apply not_elem_of_nil in Hs.
Qed.

Lemma active_cases_arrive : arrives (mkJobDestination P_cases (Some {["status"%string := Text (units "active")]})).
Proof. apply lands_arrives; [by left|]. unfold lands. vm_compute. reflexivity. Qed.

(** The destination of a result by its kind *)
Lemma kind_arrives kind : arrives (jobDestination kind).
Proof.
  unfold jobDestination, jobDestinationForKind. cbv zeta.
  repeat (case_match; [try exact active_cases_arrive; try (apply fixed_section_arrives; set_solver); apply bare_arrives; set_solver|]).
  apply bare_arrives. set_solver.
Qed.

Lemma object_lookup_own {A} (table : list (string * A)) key a : object_lookup table key = Some (Own a) → a ∈ table.*2.
Proof.
  unfold object_lookup. destruct (List.find _ table) as [p|] eqn:El; [|by destruct (List.find _ OBJECT_MEMBERS)]. intros [= <-]. apply List.find_some in El as [El _].
  apply list_elem_of_fmap. exists p. split; [done|]. by apply list_elem_of_In.
Qed.

Lemma audit_page q d : auditDestination q = Some d → jd_page d = P_audit.
Proof. unfold auditDestination. destruct (audit_opts _ _); [|done]. cbn [mbind option_bind]. cbv zeta. destruct (_ && _); [done|]. destruct (forallb _ _); [|done]. by intros [= <-]. Qed.

Lemma url_arrives url d : jobDestinationFromUrl url = Some (To d) → trimmed_case d → arrives d.
Proof.
  unfold jobDestinationFromUrl. cbv zeta. destruct (object_lookup FIXED_SERVER_DESTINATIONS _) as [[e|m]|] eqn:Ef.
  - intros [= <-] _. apply object_lookup_own in Ef.
    repeat (apply elem_of_cons in Ef as [->|Ef]; [ try (apply fixed_section_arrives; set_solver); apply bare_arrives; set_solver|]). by apply not_elem_of_nil in Ef.
  - done.
  - destruct (route_and_query _) as [[route q]|]; [|done]. cbn [mbind option_bind]. destruct (negb _); [done|]. case_bool_decide.
    + destruct (settingsDestination _) eqn:Es; [|done]. intros [= <-] _. by eapply settings_arrives.
    + destruct (object_lookup SIMPLE_DESTINATIONS route) as [[page|m]|] eqn:Ep; [|by destruct (known_once _ _)|done].
      apply object_lookup_own in Ep.
      destruct (decide (page = P_audit)) as [->|Hn].
      * destruct (auditDestination _) eqn:Ea; [|done]. intros [= <-] _. apply lands_arrives; [|by eapply audit_lands]. by rewrite (audit_page _ _ Ea).
      * intros Hd Ht. assert (Es : simpleDestination page (URLSearchParams q) = Some d).
        { revert Hd. destruct page; try done; destruct (simpleDestination _ _); [..|done]; try done; by intros [= <-]. }
        apply lands_arrives; [|by eapply simple_lands]. by destruct (simple_inv _ _ _ Es) as (_ & _ & ->).
Qed.

(** C39. Wherever the address or the kind of a job result sends a person, the router takes the page and options as they
    are, without a redirect, and the address written for them reads back as them, in a new tab and on refresh. A case id
    with a space at an end is the exception ([spaced_case_changes]). It is about the destinations that are a page: an address
    whose first part is a member every object inherits ("#/constructor") has none ([member_is_destination]). *)
Theorem job_link_arrives url kind d :
  (jobDestinationFromUrl url = Some (To d) ∧ trimmed_case d) ∨ d = jobDestination kind → arrives d.
Proof. intros [[Hu Ht]| ->]; [by eapply url_arrives|apply kind_arrives]. Qed.
End theorems.

(** ** File names that are safe to save *)

(** No two dashes side by side *)
Definition one_dash (t : text) : Prop := ∀ a b, t ≠ a ++ DASH :: DASH :: b.

Record file_name (t : text) : Prop := {
  fn_units : Forall (λ c, name_unit c = true) t;
  fn_dashes : one_dash t;
  fn_head : ∀ c, head t = Some c → edge_mark c = false;
  fn_last : ∀ c, last t = Some c → edge_mark c = false;
  fn_word : existsb alnum t = true;
  fn_length : (length t ≤ 180)%nat
}.

Lemma single_dashes_two c d t : single_dashes (c :: d :: t) = if (c =? DASH) && (d =? DASH) then single_dashes (d :: t) else c :: single_dashes (d :: t).
Proof. reflexivity. Qed.
Arguments single_dashes : simpl never.

Lemma single_dashes_head t : head (single_dashes t) = head t.
Proof.
  induction t as [|c [|d t] IH]; [done..|]. rewrite single_dashes_two. destruct (_ && _) eqn:E; [|done]. rewrite IH. apply andb_true_iff in E as [->%Z.eqb_eq ->%Z.eqb_eq]. done.
Qed.

Lemma single_dashes_one t : one_dash (single_dashes t).
Proof.
  induction t as [|c [|d t] IH]; [by intros [|? []] ?|by intros [|? []] ?|]. rewrite single_dashes_two. destruct (_ && _) eqn:E; [done|]. intros [|x a] b; cbn [app].
  - intros [= -> Ht]. pose proof (single_dashes_head (d :: t)) as Hh. rewrite Ht in Hh. injection Hh as <-. done.
  - intros [= -> Ht]. by eapply IH.
Qed.

Lemma single_dashes_id t : one_dash t → single_dashes t = t.
Proof.
  induction t as [|c [|d t] IH]; [done..|]. intros H. rewrite single_dashes_two. destruct (_ && _) eqn:E.
  - apply andb_true_iff in E as [->%Z.eqb_eq ->%Z.eqb_eq]. by destruct (H [] t).
  - f_equal. apply IH. intros a b Ht. by apply (H (c :: a) b); rewrite Ht.
Qed.

Lemma single_dashes_Forall (P : Z → Prop) t : Forall P t → Forall P (single_dashes t).
Proof. induction t as [|c [|d t] IH]; [done..|]. intros [Hc Ht]%Forall_cons. rewrite single_dashes_two. destruct (_ && _); [|constructor]; auto. Qed.

Lemma single_dashes_length t : (length (single_dashes t) ≤ length t)%nat.
Proof. induction t as [|c [|d t] IH]; [done..|]. rewrite single_dashes_two. destruct (_ && _); cbn [length] in *; lia. Qed.

Lemma one_dash_part a b c : one_dash (a ++ b ++ c) → one_dash b.
Proof. intros H x y ->. apply (H (a ++ x) (y ++ c)). by rewrite <-!app_assoc. Qed.

(** What trimming leaves is a part without marks at its ends. *)
Lemma trim_marks_spec t : ∃ a b, t = a ++ trim_marks t ++ b ∧ (∀ c, head (trim_marks t) = Some c → edge_mark c = false) ∧ (∀ c, last (trim_marks t) = Some c → edge_mark c = false).
Proof.
  unfold trim_marks. destruct (skip_while_spec edge_mark t) as (a & Ea & Ha). set (u := skip_while edge_mark t) in *. clearbody u.
  destruct (skip_while_spec edge_mark (reverse u)) as (b & Eb & Hb). set (v := skip_while edge_mark (reverse u)) in *. clearbody v.
  assert (Eu : u = reverse v ++ reverse b) by (rewrite <-(reverse_involutive u), Eb, reverse_app; done).
  exists a, (reverse b). split_and!; [by rewrite <-Eu| |].
  - intros c Hc. destruct (reverse v) as [|x r]; [done|]. injection Hc as ->. by subst u.
  - intros c Hc. destruct v as [|x v]; [done|]. rewrite reverse_cons, last_snoc in Hc. by injection Hc as ->.
Qed.

Lemma trim_marks_id t : (∀ c, head t = Some c → edge_mark c = false) → (∀ c, last t = Some c → edge_mark c = false) → trim_marks t = t.
Proof.
  intros Hh Hl. unfold trim_marks. assert (E : ∀ u, (∀ c, head u = Some c → edge_mark c = false) → skip_while edge_mark u = u).
  { intros [|c u] Hu; [done|]. cbn. by rewrite (Hu c). }
  rewrite (E t Hh), E, reverse_involutive; [done|]. intros c Hc. apply Hl. by rewrite <-(reverse_involutive t), last_reverse.
Qed.

Lemma name_unit_plain c : name_unit c = true → in_range 0 31 c || (c =? 127) = false ∧ c ≠ 92 ∧ c ≠ SLASH ∧ trim_space c = false.
Proof.
  intros Hc. assert (Hr : 45 ≤ c ≤ 46 ∨ 48 ≤ c ≤ 57 ∨ 65 ≤ c ≤ 90 ∨ c = 95 ∨ 97 ≤ c ≤ 122).
  { unfold name_unit, alnum, is_upper, is_lower, is_digit, in_range, is_one_of in Hc. rewrite !orb_true_iff, !andb_true_iff, !Z.leb_le, bool_decide_eq_true in Hc.
    destruct Hc as [Hc|Hc]; [lia|]. change (units "._-") with [46; 95; 45] in Hc. repeat (apply elem_of_cons in Hc as [->|Hc]; [lia|]). by apply not_elem_of_nil in Hc. }
  unfold in_range, trim_space, SLASH. split_and!; lia.
Qed.

(** A safe name is taken as it is. *)
Lemma file_name_stable t : file_name t → safeFilename t = Some t.
Proof.
  intros [Hu Hd Hh Hl Hw Hn]. assert (Ht : t ≠ []) by (by intros ->). assert (Hp : Forall (λ c, in_range 0 31 c || (c =? 127) = false ∧ c ≠ 92 ∧ c ≠ SLASH ∧ trim_space c = false) t).
  { eapply Forall_impl; [exact Hu|]. by intros c Hc%name_unit_plain. }
  unfold safeFilename. assert (Ef : List.filter (λ c, negb (in_range 0 31 c || (c =? 127))) t = t).
  { clear -Hp. induction Hp as [|c t [Hc _] _ IH]; [done|]. cbn [List.filter]. by rewrite Hc, IH. }
  assert (Eb : (λ c, if c =? 92 then SLASH else c) <$> t = t).
  { clear -Hp. induction Hp as [|c t (_ & Hc & _) _ IH]; [done|]. cbn [fmap list_fmap]. by rewrite (proj2 (Z.eqb_neq c 92) Hc), IH. }
  assert (Em : (λ c, if name_unit c then c else DASH) <$> t = t).
  { clear -Hu. induction Hu as [|c t Hc _ IH]; [done|]. cbn [fmap list_fmap]. by rewrite Hc, IH. }
  assert (El : last_path t = t).
  { unfold last_path. rewrite Eb, split_one; [done|]. intros Hi. rewrite Forall_forall in Hp. by destruct (Hp _ Hi) as (_ & _ & ? & _). }
  rewrite Ef, El, trim_no_space by (by eapply Forall_impl; [exact Hp|]; intros c (_ & _ & _ & ?)). cbv zeta. rewrite Em, single_dashes_id, trim_marks_id by done.
  rewrite bool_decide_false, (proj2 (Nat.ltb_ge 180 (length t)) Hn), Hw by done. done.
Qed.

(** C40. The name an artifact is saved under is one path segment: letters, digits, dots, dashes and underscores, a letter
    or digit among them, at most 180 long, no mark at either end and no two dashes together; and it is kept as it is. *)
Theorem safeFilename_safe candidate name : safeFilename candidate = Some name → file_name name ∧ safeFilename name = Some name.
Proof.
  intros E. assert (Hf : file_name name); [|by split; [|apply file_name_stable]]. revert E. unfold safeFilename. set (base := text_trim _). destruct (_ || _) eqn:Eb; [done|].
  apply orb_false_iff in Eb as [_ Hn%Nat.ltb_ge]. cbv zeta. set (m := _ <$> base). destruct (trim_marks_spec (single_dashes m)) as (a & b & Es & Hh & Hl). set (t := trim_marks _) in *.
  destruct (_ || _) eqn:Et; [done|]. intros [= <-]. apply orb_false_iff in Et as [_ Hw%negb_false_iff].
  assert (Hu : Forall (λ c, name_unit c = true) (single_dashes m)).
  { apply single_dashes_Forall, Forall_fmap, Forall_true. intros c. cbn. by destruct (name_unit c) eqn:E. }
  assert (Hd : one_dash t) by (apply (one_dash_part a t b); rewrite <-Es; apply single_dashes_one).
  assert (Hlen : (length t ≤ 180)%nat).
  { pose proof (single_dashes_length m) as H1. rewrite Es in H1. unfold m in H1. rewrite !length_app, length_fmap in H1. lia. }
  rewrite Es in Hu. apply Forall_app in Hu as [_ [Hu _]%Forall_app]. by constructor.
Qed.

Lemma safeFilename_safe_witness :
  safeFilename (units "..\logs/../ audit  export?.zip.") = Some (units "audit-export-.zip") ∧ file_name (units "audit-export-.zip") ∧
  safeFilename (units "audit-export-.zip") = Some (units "audit-export-.zip").
Proof. split; [vm_compute; reflexivity|]. apply (safeFilename_safe (units "..\logs/../ audit  export?.zip.")). vm_compute. reflexivity. Defined.

(** ** What the code does where its words say another thing *)

Lemma includes_iff p t : includes p t = true ↔ ∃ a b, t = a ++ p ++ b.
Proof.
  split.
  - induction t as [|c t IH]; cbn [includes]; rewrite orb_true_iff; (intros [H|H]; [apply starts_with_spec in H as [r ->]; by exists [], r|]); [done|].
    destruct (IH H) as (a & b & ->). by exists (c :: a), b.
  - intros (a & b & ->). induction a as [|c a IH]; cbn [app].
    + destruct (p ++ b) as [|x r] eqn:E; cbn [includes]; by rewrite <-E, starts_with_app.
    + cbn [includes]. rewrite orb_true_iff. by right.
Qed.

(** Every kind with [storage] in it has [rag] in it. *)
Lemma storage_has_rag kind : includes (units "storage") kind = true → includes (units "rag") kind = true.
Proof.
  rewrite !includes_iff. intros (a & b & ->). exists (a ++ units "sto"), (units "e" ++ b). by rewrite <-app_assoc.
Qed.

(** No kind of job opens the Storage settings: a storage job opens Knowledge. *)
Theorem storage_settings_unreachable kind : jobDestinationForKind kind ≠ Some (settings_section "storage").
Proof.
  unfold jobDestinationForKind. cbv zeta. set (k := lower_unit <$> _). pose proof (storage_has_rag k) as Hr. clearbody k.
  destruct (includes (units "rag") k) eqn:Er.
  - repeat (case_match; [intros E; apply (f_equal (λ o, jd_opts <$> o)) in E; vm_compute in E; discriminate E|]). done.
  - destruct (includes (units "storage") k); [by specialize (Hr eq_refl)|]. repeat (case_match; [intros E; apply (f_equal (λ o, jd_opts <$> o)) in E; vm_compute in E; discriminate E|]). done.
Qed.

Example storage_job_opens_knowledge : jobDestinationForKind (Some (units "storage_lifecycle_apply")) = Some (mkJobDestination P_knowledge None).
Proof. vm_compute. reflexivity. Qed.

(** A name every object inherits passes both tables. *)
Example member_is_destination :
  jobDestinationFromUrl (H := sample_host) (Some (units "constructor")) = Some (MemberItself "constructor") ∧
  jobDestinationFromUrl (H := sample_host) (Some (units "#/constructor")) = Some (MemberPage "constructor").
Proof. vm_compute. done. Qed.

(** A case with a space before it is taken, and read back as another. *)
Example spaced_case_changes :
  let d := mkJobDestination P_cases (Some {["caseId"%string := Text (units " A-1")]}) in
  jobDestinationFromUrl (H := sample_host) (Some (units "#/cases?caseId=%20A-1")) = Some (To d) ∧
  routeFromLocation (H := sample_host) (pageHash (H := sample_host) (jd_page d) (jd_opts d)) = mkRoute P_cases (Some {["caseId"%string := Text (units "A-1")]}) false.
Proof. vm_compute. done. Qed.

(** ** A link that arrives *)
Definition export_link : text := units "#/audit?from=2026-01-01T00%3A00%3A00Z&to=2026-02-01T00%3A00%3A00Z".
Definition export_view : JobDestination :=
  mkJobDestination P_audit (Some {["from"%string := Text (units "2026-01-01T00:00:00Z"); "to"%string := Text (units "2026-02-01T00:00:00Z")]}).

Lemma job_link_arrives_witness :
  jobDestinationFromUrl (H := sample_host) (Some export_link) = Some (To export_view) ∧ arrives (H := sample_host) export_view.
Proof.
  split; [vm_compute; reflexivity|]. apply (job_link_arrives (H := sample_host) (Some export_link) []). left. split; vm_compute; reflexivity.
Defined.
